(* ===== verification/_CoqProject ===== *)
-Q . S2P
Prelude.v
Utf8.v
ConfigTypes.v
ConfigLexer.v
ConfigValue.v
ConfigApply.v
ConfigValidate.v
ConfigParse.v
ConfigWp.v
ConfigStrings.v
ConfigValueFacts.v
ConfigApplyFacts.v
ConfigValidateFacts.v
ConfigParseFacts.v
ConfigRoundtrip.v
Klog.v
KlogFacts.v
Klock.v
Logging.v
Kmalloc.v
Effects.v
Initrd.v
InitrdFacts.v
Codec.v
CodecFacts.v
FileView.v
FileViewFacts.v
Rpc.v
RpcFacts.v
Wire.v
WireFacts.v
Auth.v
AuthFacts.v
Handles.v
HandleFacts.v
Posix.v
PosixFacts.v
PosixUse.v
Environment.v
EnvironmentFacts.v
ProcessEnvironment.v
ProcessEnvironmentFacts.v
ProcessCreation.v
Terminal.v
TerminalFacts.v
Process.v
ProcessFacts.v
ProcessTable.v
ConfigObjects.v
ConfigObjectsFacts.v
EnvironmentStart.v
DomainManager.v
DomainManagerFacts.v
Shell.v
ShellFacts.v
PageAllocator.v
SeatConsole.v
SeatDevice.v
Seat.v
SeatFacts.v
SeatUse.v
