(* ===== verification/Prelude.v ===== *)
(** Verification of FacetOS: the services of dominit0 and the libraries under them.

    * The program

    FacetOS is a multi-domain operating system on the seL4 kernel.  The root task
    dominit0 reads a configuration file and one boot archive per domain, sets up the
    log, the heap, the authentication authority and one environment per domain, and
    starts the processes of the domains.  A process finds its capabilities by name in
    its environment; every capability is a handle of libfacet, and a call through a
    handle is a remote procedure call whose stubs the interface compiler prints.  A
    POSIX process works through a POSIX view, which turns descriptors and paths into
    calls of files and directories; files come from the boot archive through a view
    that checks the credentials of the process.

    * Which file models what

    - Prelude.v: bytes, C strings, machine integers, tactics and list lemmas.
      Utf8.v: the two UTF-8 validators and the encoder (src/src/config.c and
      src/include/facetos/utf8.h).
    - Configuration, src/src/config.c and config.h: ConfigTypes.v (records, values, the
      parser's state and error monad), ConfigLexer.v, ConfigValue.v, ConfigApply.v,
      ConfigValidate.v and ConfigParse.v follow the file from top to bottom; ConfigWp.v
      is the program logic of the monad; ConfigStrings.v, ConfigValueFacts.v,
      ConfigApplyFacts.v, ConfigValidateFacts.v, ConfigParseFacts.v and
      ConfigRoundtrip.v hold the theorems.
    - Log and locks: Klog.v and KlogFacts.v (src/src/dominit0/klog.c), Klock.v
      (klock.c, as a step relation on interleaved threads), Logging.v (logging.c).
    - Heap: Kmalloc.v (the bootstrap heap of kmalloc.c).
    - Effects.v: the monad of the services, computations that end with a value, with a
      result code or with a fault, and its program logics: no fault ([awp]), a fault
      only where the statement says so ([fwp]), and what success implies ([pwp]).  Handles.v and HandleFacts.v: the table of live handles that services
      share, as a class ([Worldly]) with its laws.
    - Files: Initrd.v and InitrdFacts.v (initrd.c: the archive, paths, reads, the
      execute check), FileView.v and FileViewFacts.v (file_view.c: the view of one
      user, the synthetic credential files, the registry of stores).
    - Remote calls: Codec.v and CodecFacts.v (the value codec of
      src/libfacet/src/common/runtime.c), Rpc.v and RpcFacts.v (proxies, dispatch and
      registry of the same file, and the server stub that
      src/src/facet-idlc/generator.c prints), Wire.v and WireFacts.v (the layout of
      messages in seL4 registers and shared frames: platform.c, client.c and service.c
      under src/libfacet/src/platform/sel4).
    - Authentication: Auth.v and AuthFacts.v (auth.c and the entry point of crypt.c).
    - POSIX: Posix.v, PosixFacts.v and PosixUse.v (posix.c).
    - Environments: Environment.v and EnvironmentFacts.v (environment.c, one per
      domain), EnvironmentStart.v (the start of all of them, after the exports of the
      configuration of ConfigObjects.v), ProcessEnvironment.v, ProcessEnvironmentFacts.v and ProcessCreation.v
      (process_environment.c, one per process).
    - Start of domains and processes: ConfigObjects.v and ConfigObjectsFacts.v
      (src/src/dominit0/config.c: the configuration as the domains see it), Terminal.v
      and TerminalFacts.v (terminal.c: seats, their terminals, the terminal of a
      process), Process.v, ProcessFacts.v and ProcessTable.v (process.c, with the part
      of src/src/dominit0/platform/sel4/api.c that starts and ends a program),
      PageAllocator.v (the page allocator of the same file), DomainManager.v and
      DomainManagerFacts.v (src/src/dominit/main.c: what a domain asks to be launched).
    - Seat server: SeatConsole.v (the screens of src/src/seat/pc_console.c), SeatDevice.v
      (pc_cursor.c and platform/sel4.c: cursor, display memory, keyboard, serial line),
      Seat.v (main.c: terminals, input queues, the seat), SeatFacts.v and SeatUse.v
      (every call is a step of an abstract desk; from the start of the server on).
    - Shell.v and ShellFacts.v: the command line of the native shell
      (src/src/apps/native/shell_parser.c).
    The static variables of a C file, or the fields of its object, are a record; a
    function of the file is a definition with the name of the function, and a part of
    a long function that has a definition of its own is named after what it does.

    * How the parts meet

    The configuration that the parser accepts is the input of the authority, of the
    file view and of the environments.  The file view works on the records of the boot
    archive.  The POSIX view, the environments and the authority share the handle
    table of Handles.v: a client's theorems are proved for every state with such a
    table.  What they ask of objects behind handles is a class ([PosixServices],
    [EnvServices]), so that the theorems hold for whatever serves those interfaces.
    ProcessEnvironment.v calls the operations of Posix.v on the view of a process.
    Process.v puts the boot archive, the environment of a process and the terminals
    together; what it works with is the class [DomainSetting].  DomainManagerFacts.v
    gives the manager of a domain the objects of ConfigObjects.v to read, so that its
    theorem leads from the configuration to the requests.
    Rpc.v uses the codec, and Wire.v carries the messages of Rpc.v.

    * What the theorems show

    - The parser is total, accepts only configurations that keep their contract, and
      reports a position and a bounded message otherwise; integers, escapes and UTF-8
      are read back exactly.
    - The boot archive is parsed inside its image, paths resolve to their canonical
      form, and the execute check is exact.  Nodes and reads of the file view are
      authorised for the credentials of its store; stores are counted.
    - Blocks of the bootstrap heap are disjoint as long as nobody frees the null
      pointer or asks for 0 bytes; the spin lock excludes; a log record reaches the
      sinks of its route.
    - Decoding of arbitrary bytes is safe.  Encoding and decoding are inverse, and a
      remote call over either transport refines the call of the implementation, for
      values whose bool flags are followed by zero bytes and while memory lasts.
    - A login is decided by the password of the named user, and a session belongs to
      the user and the domain of its proof; the statements say where the comparison
      reads past a hash that is shorter than the stored one.
    - Paths that a POSIX view resolves beneath its root stay there (the paths that it
      passes on as they are, and when, are part of the statement), its handles are
      accounted for, and rights that were given up are not regained.
    - Names of a domain environment are written once and found again, except for the
      four reserved names, which are accepted and never found.  Setting up all
      environments gives each domain its own or leaves none, and accounts for every
      export, also those of the configuration, which stay.  A process environment keeps
      the form of its tables, and a new process holds no more than its identity and its
      parent's authority allow.
    - The objects of a domain answer what the configuration says, whatever document was
      read and whichever allocations failed, and a domain asks for exactly the
      processes that its configuration names.
    - A process gets the terminal that is configured for its domain.  The program that
      is started is the one that its path names and that its credentials may execute,
      with the arguments of the request and the rights of these credentials.  Process numbers are given once, and the exit of a process is
      reported with its status while its program is ended once.  The pages of a client
      are accounted for until its end.
    - A screen of a seat is the window on the last rows of what was written to its
      terminal and the display holds the screen of the active terminal, whatever the
      keyboard sends and the kernel refuses; what is typed is read in order.
    - A command line is split in place into the arguments it says.
    Some theorems state what goes wrong: a message that fills the log block, a NULL
    given to kfree, a proof of authentication that another process answers, a bool
    array that is corrupted, a large reply that is lost, a log record with the wrong
    domain, a restarted process with the rights of the bootstrap, a handle that is
    released twice, a serial line whose time-out is not seen, a reply that is sent from
    freed memory, an authority whose user array could not be allocated, a path that
    leaves its root when memory is short, a reserved name that is published twice, and
    others.

    * Bounds and fuel

    Loops over a list or an array are structural.  The loops of the lexer, of the
    archive parser and of the formatter take fuel; the callers give them the length of
    the input (plus one), and the totality theorems show that it is never exhausted.
    The loop on the keyboard takes any number of polls that is larger than the number of
    codes that the keyboard sends in a row.
    Integers are [Z] with the wrap-around of their width written out where the code
    relies on it; sizes of lists that the code bounds are [nat].  A fault stands for
    undefined behaviour; the safety theorems show that it is not reached, or in which
    case it is.

    * What is not modelled

    Code outside the repository is an argument with the behaviour that the code relies
    on: the seL4 kernel and its libraries, the password hash, the interface
    identifiers that the build generates.  An allocator, an export or a remote call
    that may fail is an oracle on the number of the call, so that the theorems cover
    every pattern of failures.  The server threads of dominit0 are taken to run one
    call at a time, and log messages of the services are left out of their models.
    Also not modelled: the rest of the platform layers of dominit0 and dominit (calls of
    the kernel), liballoc (third party), the grammar of the interface compiler
    (generated) and the printing of its declarations, the boot stub, the applications
    but for the shell's command line, the small functions of the C libraries, and main
    of dominit0, which calls the services in order. *)

(** Shared vocabulary: bytes and C strings as lists of integers in [0,256),
    machine-width integers as [Z] with explicit wrap-around, the result codes of
    libfacet, and the list and arithmetic lemmas and tactics that the component files
    use. *)
From stdpp Require Export base list list_numbers option numbers strings.
From Stdlib Require Export ZArith Lia Bool.
From Stdlib Require Ascii.

#[global] Set Default Goal Selector "!".

Declare Scope facet_scope.
Delimit Scope facet_scope with facet.
Open Scope Z_scope.

(** ** Bytes and literals *)

Abbreviation bytes := (list Z).

Definition byte_ok (b : Z) : Prop := 0 <= b < 256.

Abbreviation bytes_ok := (Forall byte_ok).

#[global] Instance byte_ok_dec b : Decision (byte_ok b).
Proof. unfold byte_ok. apply _. Defined.

(** The bytes of a string literal. *)
Fixpoint B (s : string) : bytes :=
  match s with
  | EmptyString => []
  | String a s' => Z.of_N (Ascii.N_of_ascii a) :: B s'
  end.

Arguments B : simpl never.

(** The bytes of a literal in which a back quote stands for the double quote. *)
Definition QB (s : string) : bytes :=
  map (fun b => if b =? 96 then 34 else b) (B s).

(** A line of a text literal: [QB] followed by a newline. *)
Definition QL (s : string) : bytes := QB s ++ [10].

Definition bytes_eqb (a b : bytes) : bool := bool_decide (a = b).

Infix "=b" := bytes_eqb (at level 70, no associativity) : facet_scope.
Open Scope facet_scope.

(** The index of the first element that satisfies [p]. *)
Fixpoint index_of {A} (p : A -> bool) (l : list A) : option nat :=
  match l with
  | [] => None
  | x :: l' => if p x then Some 0%nat else S <$> index_of p l'
  end.

(** [strchr] on the bytes of a C string, for a character other than NUL: the
    offset of its first occurrence. *)
Definition strchr (s : bytes) (c : Z) : option nat := index_of (Z.eqb c) s.

Definition zlen {A} (l : list A) : Z := Z.of_nat (length l).

(** ** Machine integers *)

Definition SIZE_MAX : Z := 2 ^ 64 - 1.
Definition UINT32_MAX : Z := 2 ^ 32 - 1.
Definition INT64_MAX : Z := 2 ^ 63 - 1.
Definition INT64_MIN : Z := - 2 ^ 63.

Definition u8 (x : Z) : Z := x mod 2 ^ 8.
Definition u16 (x : Z) : Z := x mod 2 ^ 16.
Definition u32 (x : Z) : Z := x mod 2 ^ 32.
Definition u64 (x : Z) : Z := x mod 2 ^ 64.
Definition u128 (x : Z) : Z := x mod 2 ^ 128.

(** Two's complement reading of the low [w] bits. *)
Definition signed (w x : Z) : Z :=
  let y := x mod 2 ^ w in if y <? 2 ^ (w - 1) then y else y - 2 ^ w.

(** ** Result codes of libfacet (include/facetos/libfacet/common.h) *)

Inductive FacetResult :=
  | FACET_OK | FACET_ERROR | FACET_INVALID_ARGUMENT | FACET_NO_INTERFACE
  | FACET_NO_SUCH_METHOD | FACET_ACCESS_DENIED | FACET_OUT_OF_MEMORY
  | FACET_INVALID_HANDLE | FACET_PROTOCOL_ERROR | FACET_BUFFER_TOO_SMALL
  | FACET_NOT_SUPPORTED | FACET_NOT_FOUND
  | FACET_OTHER (code : Z).

#[global] Instance FacetResult_eq_dec : EqDecision FacetResult.
Proof. solve_decision. Defined.

(** The [int32_t] of a result, and the result of an [int32_t]; [FACET_OTHER] is a
    number that has no name. *)
Definition facet_codes : list (Z * FacetResult) :=
  [(0, FACET_OK); (-1, FACET_ERROR); (-2, FACET_INVALID_ARGUMENT); (-3, FACET_NO_INTERFACE);
   (-4, FACET_NO_SUCH_METHOD); (-5, FACET_ACCESS_DENIED); (-6, FACET_OUT_OF_MEMORY);
   (-7, FACET_INVALID_HANDLE); (-8, FACET_PROTOCOL_ERROR); (-9, FACET_BUFFER_TOO_SMALL);
   (-10, FACET_NOT_SUPPORTED); (-11, FACET_NOT_FOUND)].

Definition code_of_result (r : FacetResult) : Z :=
  match r with
  | FACET_OTHER code => code
  | _ => default 0 (fst <$> find (fun e => bool_decide (snd e = r)) facet_codes)
  end.

Definition result_of_code (code : Z) : FacetResult :=
  default (FACET_OTHER code) (snd <$> find (fun e => fst e =? code) facet_codes).

(** ** Tactics and hint databases *)

Create HintDb facet.

Lemma bytes_eqb_eq a b : (a =b b) = true <-> a = b.
Proof. apply bool_decide_eq_true. Qed.

Lemma bytes_eqb_neq a b : (a =b b) = false <-> a <> b.
Proof. apply bool_decide_eq_false. Qed.

(** Case analysis on the scrutinee of the outermost match or conditional. *)
Ltac case_hyp H :=
  match type of H with
  | context [match ?x with _ => _ end] =>
      match x with
      | context [match _ with _ => _ end] => fail 1
      | _ => destruct x eqn:?
      end
  end.

Ltac case_goal :=
  match goal with
  | |- context [match ?x with _ => _ end] =>
      match x with
      | context [match _ with _ => _ end] => fail 1
      | _ => destruct x eqn:?
      end
  end.

(** Split a hypothesis along every match in it, dropping impossible branches. *)
Ltac break H := repeat (case_hyp H; simplify_eq/=; try discriminate).

(** Turn boolean comparisons in the context into propositions. *)
Ltac bool_props :=
  repeat match goal with
  | H : (_ && _)%bool = true |- _ => apply andb_true_iff in H; destruct H
  | H : (_ || _)%bool = false |- _ => apply orb_false_iff in H; destruct H
  | H : negb _ = true |- _ => apply negb_true_iff in H
  | H : negb _ = false |- _ => apply negb_false_iff in H
  | H : (_ =? _) = true |- _ => apply Z.eqb_eq in H
  | H : (_ =? _) = false |- _ => apply Z.eqb_neq in H
  | H : (_ <? _) = true |- _ => apply Z.ltb_lt in H
  | H : (_ <? _) = false |- _ => apply Z.ltb_ge in H
  | H : (_ <=? _) = true |- _ => apply Z.leb_le in H
  | H : (_ <=? _) = false |- _ => apply Z.leb_gt in H
  | H : bool_decide _ = true |- _ => apply bool_decide_eq_true in H
  | H : bool_decide _ = false |- _ => apply bool_decide_eq_false in H
  | H : (_ =b _) = true |- _ => apply bytes_eqb_eq in H
  | H : (_ =b _) = false |- _ => apply bytes_eqb_neq in H
  | H : (_ =? _)%nat = true |- _ => apply Nat.eqb_eq in H
  | H : (_ =? _)%nat = false |- _ => apply Nat.eqb_neq in H
  end.

(** Decide a closed proposition by evaluation. *)
Ltac by_decide := refine (bool_decide_unpack _ _); vm_compute; exact I.

(** [lia] after expanding division and remainder by their defining equations. *)
Ltac dlia := Z.to_euclidean_division_equations; lia.

(** ** Generic lemmas *)

Lemma bytes_eqb_refl a : (a =b a) = true.
Proof. by apply bytes_eqb_eq. Qed.

Lemma zlen_nonneg {A} (l : list A) : 0 <= zlen l.
Proof. unfold zlen. lia. Qed.

Lemma zlen_app {A} (l k : list A) : zlen (l ++ k) = zlen l + zlen k.
Proof. unfold zlen. rewrite length_app. lia. Qed.

Lemma zlen_cons {A} (x : A) l : zlen (x :: l) = 1 + zlen l.
Proof. unfold zlen. simpl length. lia. Qed.

Lemma zlen_nil {A} : zlen (@nil A) = 0.
Proof. reflexivity. Qed.

#[export] Hint Resolve zlen_nonneg bytes_eqb_refl : facet.

(** A boolean property of bytes holds of all of them when it evaluates to true
    on the 256 values. *)
Lemma byte_forall (P : Z -> bool) :
  forallb P (seqZ 0 256) = true -> forall b, byte_ok b -> P b = true.
Proof.
  intros H b Hb. rewrite forallb_forall in H. apply H.
  apply list_elem_of_In, elem_of_seqZ. unfold byte_ok in Hb. lia.
Qed.

Lemma B_ok s : bytes_ok (B s).
Proof.
  induction s as [|a s IH]; cbn [B]; constructor; [|done].
  unfold byte_ok. pose proof (Ascii.N_ascii_bounded a). lia.
Qed.

Lemma QB_ok s : bytes_ok (QB s).
Proof.
  unfold QB. apply Forall_fmap. eapply Forall_impl; [apply B_ok|].
  intros b Hb. simpl. unfold byte_ok in *. destruct (b =? 96); lia.
Qed.

#[export] Hint Resolve B_ok QB_ok : facet.

Lemma land_shiftl_low v x n :
  0 <= n -> 0 <= x < 2 ^ n -> Z.land (Z.shiftl v n) x = 0.
Proof.
  intros Hn Hx. apply Z.bits_inj'. intros i Hi. rewrite Z.land_spec, Z.bits_0.
  destruct (decide (i < n)).
  - rewrite Z.shiftl_spec_low by lia. done.
  - rewrite <- (Z.mod_small x (2 ^ n)), Z.mod_pow2_bits_high by lia.
    apply andb_false_r.
Qed.

Lemma lor_shiftl_add v x n :
  0 <= n -> 0 <= x < 2 ^ n -> Z.lor (Z.shiftl v n) x = v * 2 ^ n + x.
Proof.
  intros Hn Hx. rewrite <- Z.shiftl_mul_pow2 by lia.
  pose proof (Z.add_lor_land (Z.shiftl v n) x) as H.
  rewrite land_shiftl_low in H by lia. lia.
Qed.

Lemma lor_range a b n :
  0 < n -> 0 <= a < 2 ^ n -> 0 <= b < 2 ^ n -> 0 <= Z.lor a b < 2 ^ n.
Proof.
  intros Hn Ha Hb.
  assert (0 <= Z.lor a b) by (apply Z.lor_nonneg; lia). split; [done|].
  destruct (decide (Z.lor a b = 0)) as [->|Hne]; [lia|].
  apply Z.log2_lt_pow2; [lia|]. rewrite Z.log2_lor by lia.
  assert (forall x, 0 <= x < 2 ^ n -> Z.log2 x < n) as Hlog.
  { intros x Hx. destruct (decide (x = 0)) as [->|]; [done|]. apply Z.log2_lt_pow2; lia. }
  apply Z.max_lub_lt; auto.
Qed.

(** ** Searching *)

Lemma index_of_Some {A} (p : A -> bool) l i :
  index_of p l = Some i ->
  exists x, l !! i = Some x /\ p x = true /\ Forall (fun y => p y = false) (firstn i l).
Proof.
  revert i. induction l as [|y l IH]; intros i H; simpl in H; [done|].
  destruct (p y) eqn:Ep; [simplify_eq; by exists y|].
  destruct (index_of p l) as [k|]; simplify_eq/=. destruct (IH k eq_refl) as (x & ? & ? & ?).
  exists x. repeat split; [done..|]. by constructor.
Qed.

Lemma index_of_None {A} (p : A -> bool) l :
  index_of p l = None -> Forall (fun y => p y = false) l.
Proof.
  induction l as [|y l IH]; intros H; simpl in H; [done|].
  destruct (p y) eqn:Ep; [done|]. destruct (index_of p l); [done|]. by constructor; [|apply IH].
Qed.

(** [strchr] splits a string at the first occurrence. *)
Lemma strchr_Some s c d :
  strchr s c = Some d -> s = firstn d s ++ [c] ++ skipn (S d) s /\ c ∉ firstn d s.
Proof.
  intros (x & Hx & Heq & Hall)%index_of_Some. apply Z.eqb_eq in Heq as <-. split.
  - by rewrite <- (take_drop_middle s d c Hx) at 1.
  - intros Hin. rewrite Forall_forall in Hall. apply Hall in Hin. lia.
Qed.

Lemma strchr_None s c : strchr s c = None -> c ∉ s.
Proof.
  intros Hall%index_of_None Hin. rewrite Forall_forall in Hall. apply Hall in Hin. lia.
Qed.

(** ** Alignment *)

(** Clearing the [k] low bits of a 64 bit word. *)
Lemma land_clear_low y k :
  0 <= y < 2 ^ 64 -> 0 <= k < 64 ->
  Z.land y (Z.lxor SIZE_MAX (Z.ones k)) = y - y mod 2 ^ k.
Proof.
  intros Hy Hk. assert (y - y mod 2 ^ k = Z.shiftl (Z.shiftr y k) k) as ->.
  { rewrite Z.shiftl_mul_pow2, Z.shiftr_div_pow2 by lia.
    pose proof (Z.div_mod y (2 ^ k) ltac:(lia)). lia. }
  apply Z.bits_inj'. intros n Hn. rewrite Z.land_spec, Z.lxor_spec. unfold SIZE_MAX.
  change (2 ^ 64 - 1) with (Z.ones 64). destruct (decide (n < k)).
  - rewrite Z.shiftl_spec_low, !Z.ones_spec_low by lia. apply andb_false_r.
  - rewrite Z.shiftl_spec, Z.shiftr_spec by lia. replace (n - k + k) with n by lia.
    rewrite (Z.ones_spec_high k) by lia. destruct (decide (n < 64)).
    + rewrite Z.ones_spec_low by lia. apply andb_true_r.
    + rewrite (Z.bits_above_log2 y n); [done|lia|]. destruct (decide (y = 0)) as [->|]; [simpl; lia|].
      apply Z.log2_lt_pow2; [lia|]. eapply Z.lt_le_trans; [apply Hy|]. apply Z.pow_le_mono_r; lia.
Qed.

Lemma signed_small w x : 0 < w -> 0 <= x < 2 ^ (w - 1) -> signed w x = x.
Proof.
  intros Hw Hx. unfold signed. assert (2 ^ w = 2 * 2 ^ (w - 1)) as E.
  { rewrite <- Z.pow_succ_r by lia. f_equal. lia. }
  rewrite Z.mod_small by lia. rewrite (proj2 (Z.ltb_lt _ _)) by lia. done.
Qed.

(** ** C strings *)

(** The C string at the start of a buffer. *)
Fixpoint cstring (l : bytes) : bytes :=
  match l with
  | [] => []
  | c :: rest => if c =? 0 then [] else c :: cstring rest
  end.

Lemma cstring_app text more : 0 ∉ text -> cstring (text ++ 0 :: more) = text.
Proof.
  induction text as [|x text IH]; intros Hn; [done|]. apply not_elem_of_cons in Hn as [Hx Hn]. simpl.
  destruct (x =? 0) eqn:E; bool_props; [congruence|]. by rewrite IH.
Qed.
