(* ===== verification/Utf8.v ===== *)
(** UTF-8: the validator of the configuration parser (src/config.c), the header
    validator used by the native programs (include/facetos/utf8.h) and the
    encoder behind Unicode escapes (append_utf8 of src/config.c), related to the
    set of concatenations of encoded Unicode scalar values. *)
From S2P Require Import Prelude.

(** ** The code *)

(** The classification of a lead byte: continuation bytes needed and the payload
    bits of the lead byte. *)
Definition utf8_lead (first : Z) : option (nat * Z) :=
  if ((0xc2 <=? first) && (first <=? 0xdf))%bool then Some (1%nat, Z.land first 0x1f)
  else if ((0xe0 <=? first) && (first <=? 0xef))%bool then Some (2%nat, Z.land first 0x0f)
  else if ((0xf0 <=? first) && (first <=? 0xf4))%bool then Some (3%nat, Z.land first 0x07)
  else None.

(** The inner loop over continuation bytes: the offset of an offending byte, or
    the decoded value with the position after the sequence. *)
Fixpoint utf8_continuation (needed : nat) (value : Z) (i : nat) (rest : bytes)
  : nat + (Z * nat * bytes) :=
  match needed with
  | O => inr (value, i, rest)
  | S n =>
      match rest with
      | [] => inl i
      | next :: rest' =>
          if negb (Z.land next 0xc0 =? 0x80) then inl i
          else utf8_continuation n
                 (Z.lor (u32 (Z.shiftl value 6)) (Z.land next 0x3f)) (S i) rest'
      end
  end.

(** Overlong forms, values past U+10FFFF and surrogates. *)
Definition utf8_rejected (needed : nat) (value : Z) : bool :=
  ((Nat.eqb needed 2 && (value <? 0x800)) ||
   (Nat.eqb needed 3 && (value <? 0x10000)) ||
   (0x10ffff <? value) ||
   ((0xd800 <=? value) && (value <=? 0xdfff)))%bool.

Fixpoint utf8_validate_loop (fuel : nat) (i : nat) (rest : bytes) : option nat :=
  match rest with
  | [] => None
  | first :: r1 =>
      match fuel with
      | O => Some i
      | S fuel' =>
          if first <? 0x80 then utf8_validate_loop fuel' (S i) r1
          else match utf8_lead first with
          | None => Some i
          | Some (needed, value) =>
              if (length r1 <? needed)%nat then Some i
              else match utf8_continuation needed value (S i) r1 with
              | inl bad => Some bad
              | inr (value', i', r2) =>
                  if utf8_rejected needed value' then Some (i' - needed - 1)%nat
                  else utf8_validate_loop fuel' i' r2
              end
          end
      end
  end.

(** [None] is the C result 0; [Some bad_offset] is -1 with the offset written. *)
Definition utf8_validate (data : bytes) : option nat :=
  utf8_validate_loop (length data) 0 data.

(** The continuation loop of the header validator keeps no offset to report. *)
Fixpoint facet_utf8_continuation (needed : nat) (value : Z) (rest : bytes)
  : option (Z * bytes) :=
  match needed with
  | O => Some (value, rest)
  | S n =>
      match rest with
      | [] => None
      | next :: rest' =>
          if negb (Z.land next 0xc0 =? 0x80) then None
          else facet_utf8_continuation n
                 (Z.lor (u32 (Z.shiftl value 6)) (Z.land next 0x3f)) rest'
      end
  end.

Fixpoint facet_utf8_loop (fuel : nat) (rest : bytes) : bool :=
  match rest with
  | [] => true
  | first :: r1 =>
      match fuel with
      | O => false
      | S fuel' =>
          if first <? 0x80 then facet_utf8_loop fuel' r1
          else match utf8_lead first with
          | None => false
          | Some (needed, value) =>
              if (length r1 <? needed)%nat then false
              else match facet_utf8_continuation needed value r1 with
              | None => false
              | Some (value', r2) =>
                  if utf8_rejected needed value' then false
                  else facet_utf8_loop fuel' r2
              end
          end
      end
  end.

(** [data = None] is the null pointer. *)
Definition facet_utf8_is_valid (data : option bytes) (size : nat) : bool :=
  match data with
  | None => Nat.eqb size 0
  | Some l => facet_utf8_loop size (firstn size l)
  end.

(** A value that [append_utf8] accepts. *)
Definition scalar_ok (scalar : Z) : bool :=
  negb ((0x10ffff <? scalar) || ((0xd800 <=? scalar) && (scalar <=? 0xdfff)))%bool.

(** The number of bytes and the bytes that [append_utf8] appends. *)
Definition utf8_count (scalar : Z) : Z :=
  if scalar <=? 0x7f then 1 else if scalar <=? 0x7ff then 2
  else if scalar <=? 0xffff then 3 else 4.

Definition utf8_encode (scalar : Z) : bytes :=
  if utf8_count scalar =? 1 then [u8 scalar]
  else if utf8_count scalar =? 2 then
    [u8 (Z.lor 0xc0 (Z.shiftr scalar 6)); u8 (Z.lor 0x80 (Z.land scalar 0x3f))]
  else if utf8_count scalar =? 3 then
    [u8 (Z.lor 0xe0 (Z.shiftr scalar 12));
     u8 (Z.lor 0x80 (Z.land (Z.shiftr scalar 6) 0x3f));
     u8 (Z.lor 0x80 (Z.land scalar 0x3f))]
  else
    [u8 (Z.lor 0xf0 (Z.shiftr scalar 18));
     u8 (Z.lor 0x80 (Z.land (Z.shiftr scalar 12) 0x3f));
     u8 (Z.lor 0x80 (Z.land (Z.shiftr scalar 6) 0x3f));
     u8 (Z.lor 0x80 (Z.land scalar 0x3f))].

(** ** Specification *)

(** The Unicode scalar values. *)
Definition unicode_scalar (v : Z) : Prop :=
  0 <= v <= 0x10ffff /\ ~ (0xd800 <= v <= 0xdfff).

(** A byte string is UTF-8 when it is the encoding of a list of scalar values. *)
Definition utf8 (l : bytes) : Prop :=
  exists vs, Forall unicode_scalar vs /\ l = mbind utf8_encode vs.

(** ** Arithmetic form of the bit operations *)

Lemma continuation_test c :
  byte_ok c -> (Z.land c 0xc0 =? 0x80) = ((0x80 <=? c) && (c <? 0xc0))%bool.
Proof.
  intros Hc. apply eqb_true_iff.
  exact (byte_forall (fun c => Bool.eqb (Z.land c 0xc0 =? 0x80)
    ((0x80 <=? c) && (c <? 0xc0))%bool) eq_refl c Hc).
Qed.

Lemma land_3f v : Z.land v 0x3f = v mod 64.
Proof. exact (Z.land_ones v 6 ltac:(lia)). Qed.

Lemma continuation_payload v c :
  0 <= v < 2 ^ 24 -> 0x80 <= c < 0xc0 ->
  Z.lor (u32 (Z.shiftl v 6)) (Z.land c 0x3f) = v * 64 + (c - 0x80).
Proof.
  intros Hv Hc. rewrite land_3f. unfold u32.
  rewrite Z.mod_small by (rewrite Z.shiftl_mul_pow2 by lia; lia).
  rewrite lor_shiftl_add by dlia. dlia.
Qed.

Lemma utf8_lead_spec first :
  byte_ok first ->
  utf8_lead first =
  if ((0xc2 <=? first) && (first <=? 0xdf))%bool then Some (1%nat, first - 0xc0)
  else if ((0xe0 <=? first) && (first <=? 0xef))%bool then Some (2%nat, first - 0xe0)
  else if ((0xf0 <=? first) && (first <=? 0xf4))%bool then Some (3%nat, first - 0xf0)
  else None.
Proof.
  intros Hf. unfold utf8_lead, byte_ok in *.
  rewrite (Z.land_ones first 5 ltac:(lia) : Z.land first 0x1f = _).
  rewrite (Z.land_ones first 4 ltac:(lia) : Z.land first 0x0f = _).
  rewrite (Z.land_ones first 3 ltac:(lia) : Z.land first 0x07 = _).
  repeat case_goal; do 2 f_equal; dlia.
Qed.

Lemma lor_high k n x :
  0 <= n -> 0 <= x < 2 ^ n -> Z.lor (Z.shiftl k n) x = Z.shiftl k n + x.
Proof. intros. rewrite lor_shiftl_add, Z.shiftl_mul_pow2 by lia. done. Qed.

Lemma utf8_encode_spec v :
  0 <= v <= 0x10ffff ->
  utf8_encode v =
  if v <=? 0x7f then [v]
  else if v <=? 0x7ff then [0xc0 + v / 64; 0x80 + v mod 64]
  else if v <=? 0xffff then [0xe0 + v / 4096; 0x80 + v / 64 mod 64; 0x80 + v mod 64]
  else [0xf0 + v / 262144; 0x80 + v / 4096 mod 64; 0x80 + v / 64 mod 64; 0x80 + v mod 64].
Proof.
  intros Hv. unfold utf8_encode, utf8_count, u8.
  rewrite !land_3f, !Z.shiftr_div_pow2 by lia.
  assert (forall x, 0 <= x < 64 -> Z.lor 0x80 x = 0x80 + x) as H80
    by exact (fun x H => lor_high 2 6 x ltac:(lia) H).
  rewrite !H80 by (apply Z.mod_pos_bound; lia).
  destruct (v <=? 0x7f) eqn:?; simpl; [f_equal; dlia|].
  assert (forall x, 0 <= x < 64 -> Z.lor 0xc0 x = 0xc0 + x) as Hc0
    by exact (fun x H => lor_high 3 6 x ltac:(lia) H).
  assert (forall x, 0 <= x < 16 -> Z.lor 0xe0 x = 0xe0 + x) as He0
    by exact (fun x H => lor_high 14 4 x ltac:(lia) H).
  assert (forall x, 0 <= x < 8 -> Z.lor 0xf0 x = 0xf0 + x) as Hf0
    by exact (fun x H => lor_high 30 3 x ltac:(lia) H).
  destruct (v <=? 0x7ff) eqn:?; simpl.
  { rewrite Hc0 by dlia. repeat f_equal; dlia. }
  destruct (v <=? 0xffff) eqn:?; simpl.
  { rewrite He0 by dlia. repeat f_equal; dlia. }
  rewrite Hf0 by dlia. repeat f_equal; dlia.
Qed.

(** One step of the continuation loop, in arithmetic form. *)
Lemma utf8_continuation_step n v i c rest :
  byte_ok c -> 0 <= v < 2 ^ 24 ->
  utf8_continuation (S n) v i (c :: rest) =
  if ((0x80 <=? c) && (c <? 0xc0))%bool
  then utf8_continuation n (v * 64 + (c - 0x80)) (S i) rest else inl i.
Proof.
  intros Hc Hv. simpl. rewrite continuation_test by done.
  destruct ((0x80 <=? c) && (c <? 0xc0))%bool eqn:E; [|done]. simpl.
  rewrite continuation_payload by lia. done.
Qed.

Lemma scalar_ok_spec v : 0 <= v -> scalar_ok v = true <-> unicode_scalar v.
Proof. intros. unfold scalar_ok, unicode_scalar. lia. Qed.

(** Decoding one multi-byte sequence inverts the encoder. *)
Lemma decode_step first r1 needed v0 i v i' r2 :
  bytes_ok (first :: r1) -> utf8_lead first = Some (needed, v0) ->
  utf8_continuation needed v0 (S i) r1 = inr (v, i', r2) ->
  utf8_rejected needed v = false ->
  unicode_scalar v /\ first :: r1 = utf8_encode v ++ r2 /\ i' = (i + 1 + needed)%nat.
Proof.
  intros Hok Hl Hc Hr. inversion Hok as [|? ? Hf Hok1]; subst.
  rewrite utf8_lead_spec in Hl by done. unfold byte_ok in Hf.
  unfold utf8_rejected in Hr. unfold unicode_scalar.
  repeat (case_hyp Hl; simplify_eq); bool_props.
  all: repeat match goal with
    | H : context [utf8_continuation (S _) _ _ ?l] |- _ =>
        destruct l as [|? ?]; [discriminate|];
        apply Forall_cons in Hok1 as [? Hok1];
        rewrite utf8_continuation_step in H by (done || lia);
        case_hyp H; [|discriminate]
    end.
  all: cbn [utf8_continuation] in Hc; simplify_eq; cbn [Nat.eqb andb] in *; bool_props.
  all: rewrite utf8_encode_spec by lia.
  all: split; [lia|split; [|lia]].
  all: repeat (case_goal; try lia); simpl; repeat f_equal; dlia.
Qed.

(** Decoding the encoding of a scalar value yields it back. *)
Lemma encode_step v :
  unicode_scalar v -> 0x80 <= v ->
  exists first needed v0 cs,
    utf8_encode v = first :: cs /\ 0x80 <= first /\ length cs = needed /\
    utf8_lead first = Some (needed, v0) /\ utf8_rejected needed v = false /\
    forall i rest, utf8_continuation needed v0 i (cs ++ rest) = inr (v, (i + needed)%nat, rest).
Proof.
  intros [Hv Hs] Hlow. rewrite utf8_encode_spec by lia.
  destruct (v <=? 0x7f) eqn:?; [lia|].
  destruct (v <=? 0x7ff) eqn:?; [|destruct (v <=? 0xffff) eqn:?].
  all: do 4 eexists; split; [reflexivity|].
  all: split; [dlia|split; [reflexivity|]].
  all: rewrite utf8_lead_spec by (unfold byte_ok; dlia).
  all: repeat (case_goal; try (exfalso; bool_props; dlia)).
  all: split; [reflexivity|split; [unfold utf8_rejected; simpl; lia|]].
  all: intros i rest; simpl length; simpl app.
  all: repeat (rewrite utf8_continuation_step by (unfold byte_ok; dlia);
    case_goal; [|exfalso; bool_props; dlia]).
  all: simpl; repeat f_equal; dlia.
Qed.

(** ** The set of UTF-8 strings *)

Lemma utf8_nil : utf8 [].
Proof. exists []. done. Qed.

Lemma utf8_app l k : utf8 l -> utf8 k -> utf8 (l ++ k).
Proof.
  intros [vs [Hv ->]] [ws [Hw ->]]. exists (vs ++ ws). split.
  - by apply Forall_app.
  - by rewrite bind_app.
Qed.

Lemma utf8_encode_utf8 v : unicode_scalar v -> utf8 (utf8_encode v).
Proof. intros Hv. exists [v]. split; [by constructor|]. simpl. by rewrite app_nil_r. Qed.

Lemma utf8_encode_ascii v : 0 <= v < 0x80 -> utf8_encode v = [v].
Proof. intros Hv. rewrite utf8_encode_spec by lia. destruct (v <=? 0x7f) eqn:?; [done|lia]. Qed.

Lemma utf8_ascii v : 0 <= v < 0x80 -> utf8 [v].
Proof.
  intros. rewrite <- utf8_encode_ascii by lia. apply utf8_encode_utf8.
  unfold unicode_scalar. lia.
Qed.

#[export] Hint Resolve utf8_nil utf8_app utf8_encode_utf8 utf8_ascii : facet.

Lemma utf8_encode_length v :
  0 <= v <= 0x10ffff -> zlen (utf8_encode v) = utf8_count v.
Proof.
  intros Hv. rewrite utf8_encode_spec by done. unfold utf8_count.
  by repeat case_goal.
Qed.

Lemma utf8_encode_ok v : 0 <= v <= 0x10ffff -> bytes_ok (utf8_encode v).
Proof.
  intros Hv. rewrite utf8_encode_spec by done. unfold byte_ok.
  repeat case_goal; bool_props; repeat (apply Forall_cons_2; [dlia|]); constructor.
Qed.

(** A multi-byte sequence has no ASCII byte. *)
Lemma utf8_encode_high v :
  unicode_scalar v -> 0x80 <= v -> Forall (fun b => 0x80 <= b) (utf8_encode v).
Proof.
  intros [Hv _] Hl. rewrite utf8_encode_spec by done.
  repeat case_goal; bool_props; repeat (apply Forall_cons_2; [dlia|]); constructor.
Qed.

Lemma app_eq_cons_high (h l k m : bytes) c :
  Forall (fun b => 0x80 <= b) h -> c < 0x80 -> h ++ m = l ++ c :: k ->
  exists l', l = h ++ l' /\ m = l' ++ c :: k.
Proof.
  revert l. induction h as [|x h IH]; intros l Hh Hc E; simpl in *; [eauto|].
  apply Forall_cons in Hh as [Hx Hh]. destruct l as [|y l]; simpl in E; [simplify_eq; lia|].
  injection E as <- E. destruct (IH l Hh Hc E) as (l' & -> & ->). eauto.
Qed.

(** An ASCII byte is a boundary: a UTF-8 string splits around it. *)
Lemma utf8_split l c k :
  0 <= c < 0x80 -> utf8 (l ++ c :: k) -> utf8 l /\ utf8 k.
Proof.
  intros Hc [vs [Hvs E]]. revert l E.
  induction Hvs as [|v vs Hv Hvs IH]; intros l E; simpl in E.
  { by destruct l. }
  destruct (decide (0x80 <= v)) as [Hh|Hl].
  - destruct (app_eq_cons_high (utf8_encode v) l k (mbind utf8_encode vs) c)
      as (l' & -> & E'); [by apply utf8_encode_high|lia|done|].
    destruct (IH l') as [Hl1 Hl2]; [done|]. eauto with facet.
  - assert (0 <= v < 0x80) by (destruct Hv; lia).
    rewrite utf8_encode_ascii in E by lia.
    destruct l as [|x l]; simplify_eq/=.
    + split; [apply utf8_nil|]. by exists vs.
    + destruct (IH l) as [Hl1 Hl2]; [done|]. split; [|done].
      change (v :: l) with ([v] ++ l). eauto with facet.
Qed.

(** ** Validators against the specification *)

Lemma utf8_validate_loop_sound fuel i rest :
  bytes_ok rest -> utf8_validate_loop fuel i rest = None -> utf8 rest.
Proof.
  revert i rest. induction fuel as [|fuel IH]; intros i rest Hok H.
  { destruct rest; [apply utf8_nil|done]. }
  destruct rest as [|first r1]; [apply utf8_nil|]. simpl in H.
  apply Forall_cons in Hok as Hok'; destruct Hok' as [Hf Hok1]. case_hyp H.
  - change (first :: r1) with ([first] ++ r1).
    apply utf8_app; [apply utf8_ascii; unfold byte_ok in Hf; lia|eauto].
  - break H. edestruct decode_step as (Hv & E & _); try eassumption.
    rewrite E in *. apply Forall_app in Hok as [_ Hok].
    apply utf8_app; eauto with facet.
Qed.

Lemma utf8_validate_loop_complete vs fuel i :
  Forall unicode_scalar vs -> (length (mbind utf8_encode vs) <= fuel)%nat ->
  utf8_validate_loop fuel i (mbind utf8_encode vs) = None.
Proof.
  intros Hvs. revert fuel i. induction Hvs as [|v vs Hv Hvs IH]; intros fuel i.
  { by destruct fuel. }
  rewrite bind_cons, length_app. intros Hf.
  destruct (decide (0x80 <= v)) as [Hh|Hl].
  - destruct (encode_step v Hv Hh) as (first & n & v0 & cs & E & Hfirst & Hn & Hlead & Hr & Hc).
    rewrite E in Hf |- *. cbn [length app] in Hf |- *.
    destruct fuel as [|fuel]; [lia|]. cbn [utf8_validate_loop].
    destruct (first <? 0x80) eqn:?; [lia|]. rewrite Hlead, length_app.
    destruct (_ <? n)%nat eqn:El; [apply Nat.ltb_lt in El; lia|].
    rewrite Hc, Hr. apply IH. lia.
  - assert (0 <= v < 0x80) by (destruct Hv; lia).
    rewrite utf8_encode_ascii in Hf |- * by lia. cbn [length app] in Hf |- *.
    destruct fuel as [|fuel]; [lia|]. cbn [utf8_validate_loop].
    destruct (v <? 0x80) eqn:?; [|lia]. apply IH. lia.
Qed.

(** C40: the configuration parser's validator accepts a byte string exactly when
    it is the concatenation of the encodings of Unicode scalar values: no
    overlong form, no surrogate, nothing past U+10FFFF, no truncated sequence. *)
Theorem utf8_validate_correct (data : bytes) (Hok : bytes_ok data) :
  utf8_validate data = None <-> utf8 data.
Proof.
  split; [by apply utf8_validate_loop_sound|].
  intros [vs [Hvs ->]]. by apply utf8_validate_loop_complete.
Qed.

Lemma utf8_validate_correct_witness :
  bytes_ok [0x68; 0xc3; 0xa9; 0xe2; 0x82; 0xac] /\
  utf8 [0x68; 0xc3; 0xa9; 0xe2; 0x82; 0xac].
Proof.
  assert (bytes_ok [0x68; 0xc3; 0xa9; 0xe2; 0x82; 0xac]) as H
    by by_decide.
  split; [exact H|]. apply (utf8_validate_correct _ H). vm_compute. reflexivity.
Defined.

(** The sequence that is rejected starts after a valid prefix, at most three
    bytes before the reported offset, and the offset is inside the input. *)
Lemma utf8_continuation_bad needed v i rest bad :
  (needed <= length rest)%nat ->
  utf8_continuation needed v i rest = inl bad -> (i <= bad < i + needed)%nat.
Proof.
  revert v i rest. induction needed as [|n IH]; intros v i rest Hl H; [done|].
  destruct rest as [|c rest]; simpl in *; [lia|].
  case_hyp H; simplify_eq; [lia|]. apply IH in H; lia.
Qed.

Lemma utf8_continuation_pos needed v i rest v' i' r2 :
  utf8_continuation needed v i rest = inr (v', i', r2) ->
  i' = (i + needed)%nat /\ length rest = (needed + length r2)%nat.
Proof.
  revert v i rest. induction needed as [|n IH]; intros v i rest H; simplify_eq/=; [lia|].
  break H. apply IH in H. simpl. lia.
Qed.

Lemma utf8_lead_needed first n v : utf8_lead first = Some (n, v) -> (1 <= n <= 3)%nat.
Proof. unfold utf8_lead. intros H. break H; lia. Qed.

Lemma utf8_validate_loop_bad fuel i rest bad :
  bytes_ok rest -> (length rest <= fuel)%nat ->
  utf8_validate_loop fuel i rest = Some bad ->
  exists k, (i + k <= bad <= i + k + 3)%nat /\ (bad < i + length rest)%nat /\
            utf8 (firstn k rest).
Proof.
  revert i rest. induction fuel as [|fuel IH]; intros i rest Hok Hf H.
  { destruct rest; simpl in *; [done|lia]. }
  destruct rest as [|first r1]; [done|]. simpl in H, Hf.
  apply Forall_cons in Hok as Hok'; destruct Hok' as [Hb Hok1].
  destruct (first <? 0x80) eqn:E1.
  { destruct (IH (S i) r1) as (k & Hk & Hl & Hu); [done|lia|done|].
    exists (S k). simpl. split; [lia|split; [lia|]].
    change (first :: firstn k r1) with ([first] ++ firstn k r1).
    apply utf8_app; [|done]. apply utf8_ascii. unfold byte_ok in Hb. lia. }
  destruct (utf8_lead first) as [[n v]|] eqn:E2; simplify_eq;
    [|exists 0%nat; simpl; split; [lia|split; [lia|apply utf8_nil]]].
  pose proof (utf8_lead_needed _ _ _ E2) as Hn.
  destruct (length r1 <? n)%nat eqn:E3; simplify_eq;
    [exists 0%nat; simpl; split; [lia|split; [lia|apply utf8_nil]]|].
  apply Nat.ltb_ge in E3.
  destruct (utf8_continuation n v (S i) r1) as [b|[[v' i'] r2]] eqn:E4; simplify_eq.
  { apply utf8_continuation_bad in E4; [|done].
    exists 0%nat; simpl; split; [lia|split; [lia|apply utf8_nil]]. }
  destruct (utf8_continuation_pos _ _ _ _ _ _ _ E4) as [-> Hl].
  destruct (utf8_rejected n v') eqn:E5; simplify_eq.
  { exists 0%nat; simpl; split; [lia|split; [lia|apply utf8_nil]]. }
  destruct (decode_step _ _ _ _ _ _ _ _ Hok E2 E4 E5) as (Hv & E & _).
  assert (length (first :: r1) = length (utf8_encode v' ++ r2)) as Hlen by (by rewrite E).
  rewrite length_app in Hlen. simpl in Hlen. rewrite E in Hok.
  apply Forall_app in Hok as [_ Hok2].
  destruct (IH (S i + n)%nat r2) as (k & Hk & Hlt & Hu); [done|lia|done|].
  exists (S n + k)%nat. rewrite E. split; [lia|]. split; [simpl; rewrite length_app; lia|].
  rewrite firstn_app, firstn_all2 by lia.
  apply utf8_app; [by apply utf8_encode_utf8|]. replace (S n + k - _)%nat with k by lia. done.
Qed.

(** The header validator and the configuration validator decide the same set. *)
Lemma facet_utf8_continuation_eq needed v i rest :
  facet_utf8_continuation needed v rest =
  match utf8_continuation needed v i rest with
  | inl _ => None
  | inr (v', _, r2) => Some (v', r2)
  end.
Proof.
  revert v i rest. induction needed as [|n IH]; intros v i rest; simpl; [done|].
  destruct rest as [|c rest]; [done|]. by destruct (negb _).
Qed.

Lemma facet_utf8_loop_eq fuel i rest :
  facet_utf8_loop fuel rest = bool_decide (utf8_validate_loop fuel i rest = None).
Proof.
  revert i rest. induction fuel as [|fuel IH]; intros i rest; destruct rest as [|b r1]; simpl.
  1-3: done.
  destruct (b <? 0x80); [apply IH|].
  destruct (utf8_lead b) as [[n v]|]; [|done].
  destruct (length r1 <? n)%nat; [done|].
  rewrite (facet_utf8_continuation_eq n v (S i)).
  destruct (utf8_continuation n v (S i) r1) as [?|[[v' i'] r2]]; [done|].
  destruct (utf8_rejected n v'); [done|apply IH].
Qed.

(** the two UTF-8 validators of the code base, written independently in
    config.c and in utf8.h, accept the same inputs. *)
Theorem facet_utf8_is_valid_equiv (data : bytes) :
  facet_utf8_is_valid (Some data) (length data) = bool_decide (utf8_validate data = None).
Proof. unfold facet_utf8_is_valid, utf8_validate. rewrite firstn_all. apply facet_utf8_loop_eq. Qed.

(** the offset reported for an invalid input is inside the input and at most
    three bytes past the end of a valid prefix, so the line and column computed
    from it point at the offending sequence. *)
Theorem utf8_validate_bad_offset (data : bytes) (bad : nat)
    (Hok : bytes_ok data) (Hbad : utf8_validate data = Some bad) :
  (bad < length data)%nat /\
  exists k, (k <= bad <= k + 3)%nat /\ utf8 (firstn k data).
Proof.
  destruct (utf8_validate_loop_bad (length data) 0 data bad) as (k & Hk & Hl & Hu); [done..|].
  split; [lia|]. exists k. split; [lia|done].
Qed.

Lemma utf8_validate_bad_offset_witness :
  utf8_validate [0x61; 0xe2; 0x28; 0xa1] = Some 2%nat /\ (2 < 4)%nat.
Proof.
  assert (bytes_ok [0x61; 0xe2; 0x28; 0xa1]) as H
    by by_decide.
  assert (utf8_validate [0x61; 0xe2; 0x28; 0xa1] = Some 2%nat) as E by (vm_compute; reflexivity).
  split; [exact E|]. exact (proj1 (utf8_validate_bad_offset _ _ H E)).
Defined.
