(* ===== verification/ConfigTypes.v ===== *)
(** Data of the configuration parser (src/config.c, include/facetos/config.h):
    the configuration records, the parsed values, the parser state and the
    state-and-error monad in which the parser functions are written. *)
From S2P Require Import Prelude.

(** ** Limits and enumerations of config.h *)

Definition FACET_CONFIG_MAX_BYTES : Z := 1024 * 1024.
Definition FACET_CONFIG_MAX_DEPTH : nat := 16.
Definition FACET_CONFIG_MAX_ENTRIES : Z := 4096.
Definition FACET_CONFIG_MAX_STRING_BYTES : Z := 64 * 1024.
Definition FACET_CONFIG_MAX_ARRAY_ELEMENTS : Z := 4096.

Inductive FacetConfigDiagnosticCategory :=
  | FACET_CONFIG_DIAGNOSTIC_NONE
  | FACET_CONFIG_DIAGNOSTIC_SYNTAX
  | FACET_CONFIG_DIAGNOSTIC_UTF8
  | FACET_CONFIG_DIAGNOSTIC_LIMIT
  | FACET_CONFIG_DIAGNOSTIC_UNSUPPORTED_VERSION
  | FACET_CONFIG_DIAGNOSTIC_SCHEMA
  | FACET_CONFIG_DIAGNOSTIC_DUPLICATE
  | FACET_CONFIG_DIAGNOSTIC_UNRESOLVED_REFERENCE
  | FACET_CONFIG_DIAGNOSTIC_OUT_OF_MEMORY.

Inductive FacetConfigPersonality :=
  | FACET_CONFIG_PERSONALITY_NATIVE
  | FACET_CONFIG_PERSONALITY_POSIX
  | FACET_CONFIG_PERSONALITY_VM.

Inductive FacetConfigDomainManagerMode :=
  | FACET_CONFIG_DOMAIN_MANAGER_NONE
  | FACET_CONFIG_DOMAIN_MANAGER_LOCAL
  | FACET_CONFIG_DOMAIN_MANAGER_PARENT.

Inductive FacetConfigLogLevel :=
  | FACET_CONFIG_LOG_NONE
  | FACET_CONFIG_LOG_FATAL
  | FACET_CONFIG_LOG_ERROR
  | FACET_CONFIG_LOG_WARNING
  | FACET_CONFIG_LOG_INFO
  | FACET_CONFIG_LOG_DEBUG
  | FACET_CONFIG_LOG_TRACE.

Inductive FacetConfigSeatType := FACET_CONFIG_SEAT_SERIAL | FACET_CONFIG_SEAT_LOCAL.

Inductive FacetConfigTerminalView :=
  | FACET_CONFIG_TERMINAL_VIEW_NATIVE
  | FACET_CONFIG_TERMINAL_VIEW_POSIX.

#[global] Instance personality_eq_dec : EqDecision FacetConfigPersonality.
Proof. solve_decision. Defined.

#[global] Instance category_eq_dec : EqDecision FacetConfigDiagnosticCategory.
Proof. solve_decision. Defined.

(** The [_present] bits. *)
Definition SINK_NAME : Z := 1.
Definition SINK_TYPE : Z := 2.
Definition SINK_REQUIRED : Z := 4.
Definition AUTH_NAME : Z := 1.
Definition AUTH_PROVIDER_DOMAIN : Z := 2.
Definition AUTH_TYPE : Z := 4.
Definition AUTH_REQUIRED : Z := 8.
Definition SEAT_NAME : Z := 1.
Definition SEAT_TYPE : Z := 2.
Definition SEAT_TERMINALS : Z := 4.
Definition SEAT_SERVER : Z := 8.
Definition DOMAIN_ID : Z := 1.
Definition DOMAIN_NAME : Z := 2.
Definition DOMAIN_PERSONALITY : Z := 4.
Definition DOMAIN_MANAGER : Z := 8.
Definition DOMAIN_SINKS : Z := 16.
Definition DOMAIN_TERMINALS : Z := 32.
Definition DOMAIN_AUTHENTICATION_SOURCE : Z := 64.
Definition DOMAIN_PID1 : Z := 128.
Definition DOMAIN_INITRD : Z := 256.
Definition DOMAIN_USERS : Z := 512.
Definition USER_NAME : Z := 1.
Definition USER_PASSWORD_HASH : Z := 2.
Definition USER_ADMIN : Z := 4.
Definition USER_NATIVE_SHELL : Z := 8.
Definition USER_POSIX_SHELL : Z := 16.
Definition USER_UID : Z := 32.
Definition USER_GID : Z := 64.
Definition USER_HOME_PATH : Z := 128.
Definition TERMINAL_REFERENCE : Z := 1.
Definition TERMINAL_VIEW : Z := 2.
Definition TERMINAL_INITIAL_PROCESS : Z := 4.
Definition TERMINAL_DEVICE : Z := 8.
Definition TERMINAL_RUN_AS : Z := 16.

(** ** Configuration records: [option bytes] is a [char *] that may be null, an
    array with its count is a list *)

Record FacetConfigLoggingSinkDefinition := mkSink {
  sink_name : option bytes;
  sink_type : option bytes;
  sink_required : bool;
  sink_present : Z
}.

Record FacetConfigSeatDefinition := mkSeat {
  seat_name : option bytes;
  seat_server : option bytes;
  seat_type : FacetConfigSeatType;
  seat_terminals : list bytes;
  seat_present : Z
}.

Record FacetConfigAuthenticationSource := mkSource {
  source_name : option bytes;
  provider_domain_id : Z;
  provider_domain_index : nat;
  source_type : option bytes;
  source_required : bool;
  source_present : Z
}.

Record FacetConfigUser := mkUser {
  user_name : option bytes;
  password_hash : option bytes;
  admin : bool;
  uid : Z;
  gid : Z;
  home_path : option bytes;
  native_shell : option bytes;
  posix_shell : option bytes;
  user_present : Z
}.

Record FacetConfigDomainSink := mkUse {
  use_name : option bytes;
  use_level : FacetConfigLogLevel;
  sink_definition_index : nat
}.

Record FacetConfigTerminalAssignment := mkTerminal {
  reference : option bytes;
  seat_index : nat;
  terminal_index : nat;
  view : FacetConfigTerminalView;
  initial_process : option bytes;
  device_name : option bytes;
  run_as : option bytes;
  terminal_present : Z
}.

Record FacetConfigDomain := mkDomain {
  domain_id : Z;
  domain_name : option bytes;
  personality : FacetConfigPersonality;
  domain_manager : FacetConfigDomainManagerMode;
  authentication_source : option bytes;
  authentication_source_index : Z;
  pid1 : option bytes;
  initrd : option bytes;
  domain_users : list FacetConfigUser;
  domain_sinks : list FacetConfigDomainSink;
  domain_terminals : list FacetConfigTerminalAssignment;
  domain_present : Z
}.

Record FacetSystemConfig := mkConfig {
  version : Z;
  seat_initrd : option bytes;
  logging_sinks : list FacetConfigLoggingSinkDefinition;
  authentication_sources : list FacetConfigAuthenticationSource;
  users : list FacetConfigUser;
  seats : list FacetConfigSeatDefinition;
  domains : list FacetConfigDomain;
  root_index : nat
}.

(** Zero-filled records, as [calloc] and [memset] leave them. *)
Definition zero_sink := mkSink None None false 0.
Definition zero_seat := mkSeat None None FACET_CONFIG_SEAT_SERIAL [] 0.
Definition zero_source := mkSource None 0 0 None false 0.
Definition zero_user := mkUser None None false 0 0 None None None 0.
Definition zero_use := mkUse None FACET_CONFIG_LOG_NONE 0.
Definition zero_terminal :=
  mkTerminal None 0 0 FACET_CONFIG_TERMINAL_VIEW_NATIVE None None None 0.
Definition zero_domain :=
  mkDomain 0 None FACET_CONFIG_PERSONALITY_NATIVE FACET_CONFIG_DOMAIN_MANAGER_NONE
    None 0 None None [] [] [] 0.
Definition zero_config := mkConfig 0 None [] [] [] [] [] 0.

(** ** Values *)

Inductive ValueKind := VALUE_STRING | VALUE_INTEGER | VALUE_BOOL | VALUE_ARRAY | VALUE_TABLE.

#[global] Instance ValueKind_eq_dec : EqDecision ValueKind.
Proof. solve_decision. Defined.

Record ValueEntry (V : Type) := mkEntry {
  key : bytes;
  entry_line : nat;
  entry_column : nat;
  entry_value : V
}.
Arguments mkEntry {V}.
Arguments key {V}.
Arguments entry_line {V}.
Arguments entry_column {V}.
Arguments entry_value {V}.

(** The tagged union: line and column, then the active member. *)
Inductive Value :=
  | VString (line column : nat) (string : bytes)
  | VInteger (line column : nat) (integer : Z)
  | VBool (line column : nat) (boolean : bool)
  | VArray (line column : nat) (items : list Value)
  | VTable (line column : nat) (entries : list (ValueEntry Value)).

Definition value_kind (v : Value) : ValueKind :=
  match v with
  | VString _ _ _ => VALUE_STRING
  | VInteger _ _ _ => VALUE_INTEGER
  | VBool _ _ _ => VALUE_BOOL
  | VArray _ _ _ => VALUE_ARRAY
  | VTable _ _ _ => VALUE_TABLE
  end.

Definition value_line (v : Value) : nat :=
  match v with
  | VString l _ _ | VInteger l _ _ | VBool l _ _ | VArray l _ _ | VTable l _ _ => l
  end.

Definition value_column (v : Value) : nat :=
  match v with
  | VString _ c _ | VInteger _ c _ | VBool _ c _ | VArray _ c _ | VTable _ c _ => c
  end.

(** ** Parser state *)

Inductive SectionKind :=
  | SECTION_NONE | SECTION_FACET | SECTION_LOGGING_SINK | SECTION_AUTHENTICATION_SOURCE
  | SECTION_USER | SECTION_SEAT | SECTION_DOMAIN.

Record FacetConfigDiagnostic := mkDiagnostic {
  category : FacetConfigDiagnosticCategory;
  diag_line : nat;
  diag_column : nat;
  context : bytes;
  message : bytes
}.

Definition zero_diagnostic := mkDiagnostic FACET_CONFIG_DIAGNOSTIC_NONE 0 0 [] [].

(** [p_rest] is the input from [offset] to [size]; [p_diagnostic] is [None] when
    the caller passed no diagnostic; [p_allocations] counts the allocation
    requests made so far. *)
Record Parser := mkParser {
  p_rest : bytes;
  p_offset : nat;
  p_line : nat;
  p_column : nat;
  p_entry_count : Z;
  p_section : SectionKind;
  p_section_index : nat;
  p_facet_seen : bool;
  p_failed : bool;
  p_config : FacetSystemConfig;
  p_diagnostic : option FacetConfigDiagnostic;
  p_allocations : nat
}.

(** ** Field updates *)

Definition set_sink_name (v : option bytes) (r : FacetConfigLoggingSinkDefinition) : FacetConfigLoggingSinkDefinition :=
  mkSink v (sink_type r) (sink_required r) (sink_present r).
Definition set_sink_type (v : option bytes) (r : FacetConfigLoggingSinkDefinition) : FacetConfigLoggingSinkDefinition :=
  mkSink (sink_name r) v (sink_required r) (sink_present r).
Definition set_sink_required (v : bool) (r : FacetConfigLoggingSinkDefinition) : FacetConfigLoggingSinkDefinition :=
  mkSink (sink_name r) (sink_type r) v (sink_present r).
Definition set_sink_present (v : Z) (r : FacetConfigLoggingSinkDefinition) : FacetConfigLoggingSinkDefinition :=
  mkSink (sink_name r) (sink_type r) (sink_required r) v.
Definition set_seat_name (v : option bytes) (r : FacetConfigSeatDefinition) : FacetConfigSeatDefinition :=
  mkSeat v (seat_server r) (seat_type r) (seat_terminals r) (seat_present r).
Definition set_seat_server (v : option bytes) (r : FacetConfigSeatDefinition) : FacetConfigSeatDefinition :=
  mkSeat (seat_name r) v (seat_type r) (seat_terminals r) (seat_present r).
Definition set_seat_type (v : FacetConfigSeatType) (r : FacetConfigSeatDefinition) : FacetConfigSeatDefinition :=
  mkSeat (seat_name r) (seat_server r) v (seat_terminals r) (seat_present r).
Definition set_seat_terminals (v : list bytes) (r : FacetConfigSeatDefinition) : FacetConfigSeatDefinition :=
  mkSeat (seat_name r) (seat_server r) (seat_type r) v (seat_present r).
Definition set_seat_present (v : Z) (r : FacetConfigSeatDefinition) : FacetConfigSeatDefinition :=
  mkSeat (seat_name r) (seat_server r) (seat_type r) (seat_terminals r) v.
Definition set_source_name (v : option bytes) (r : FacetConfigAuthenticationSource) : FacetConfigAuthenticationSource :=
  mkSource v (provider_domain_id r) (provider_domain_index r) (source_type r) (source_required r) (source_present r).
Definition set_provider_domain_id (v : Z) (r : FacetConfigAuthenticationSource) : FacetConfigAuthenticationSource :=
  mkSource (source_name r) v (provider_domain_index r) (source_type r) (source_required r) (source_present r).
Definition set_provider_domain_index (v : nat) (r : FacetConfigAuthenticationSource) : FacetConfigAuthenticationSource :=
  mkSource (source_name r) (provider_domain_id r) v (source_type r) (source_required r) (source_present r).
Definition set_source_type (v : option bytes) (r : FacetConfigAuthenticationSource) : FacetConfigAuthenticationSource :=
  mkSource (source_name r) (provider_domain_id r) (provider_domain_index r) v (source_required r) (source_present r).
Definition set_source_required (v : bool) (r : FacetConfigAuthenticationSource) : FacetConfigAuthenticationSource :=
  mkSource (source_name r) (provider_domain_id r) (provider_domain_index r) (source_type r) v (source_present r).
Definition set_source_present (v : Z) (r : FacetConfigAuthenticationSource) : FacetConfigAuthenticationSource :=
  mkSource (source_name r) (provider_domain_id r) (provider_domain_index r) (source_type r) (source_required r) v.
Definition set_user_name (v : option bytes) (r : FacetConfigUser) : FacetConfigUser :=
  mkUser v (password_hash r) (admin r) (uid r) (gid r) (home_path r) (native_shell r) (posix_shell r) (user_present r).
Definition set_password_hash (v : option bytes) (r : FacetConfigUser) : FacetConfigUser :=
  mkUser (user_name r) v (admin r) (uid r) (gid r) (home_path r) (native_shell r) (posix_shell r) (user_present r).
Definition set_admin (v : bool) (r : FacetConfigUser) : FacetConfigUser :=
  mkUser (user_name r) (password_hash r) v (uid r) (gid r) (home_path r) (native_shell r) (posix_shell r) (user_present r).
Definition set_uid (v : Z) (r : FacetConfigUser) : FacetConfigUser :=
  mkUser (user_name r) (password_hash r) (admin r) v (gid r) (home_path r) (native_shell r) (posix_shell r) (user_present r).
Definition set_gid (v : Z) (r : FacetConfigUser) : FacetConfigUser :=
  mkUser (user_name r) (password_hash r) (admin r) (uid r) v (home_path r) (native_shell r) (posix_shell r) (user_present r).
Definition set_home_path (v : option bytes) (r : FacetConfigUser) : FacetConfigUser :=
  mkUser (user_name r) (password_hash r) (admin r) (uid r) (gid r) v (native_shell r) (posix_shell r) (user_present r).
Definition set_native_shell (v : option bytes) (r : FacetConfigUser) : FacetConfigUser :=
  mkUser (user_name r) (password_hash r) (admin r) (uid r) (gid r) (home_path r) v (posix_shell r) (user_present r).
Definition set_posix_shell (v : option bytes) (r : FacetConfigUser) : FacetConfigUser :=
  mkUser (user_name r) (password_hash r) (admin r) (uid r) (gid r) (home_path r) (native_shell r) v (user_present r).
Definition set_user_present (v : Z) (r : FacetConfigUser) : FacetConfigUser :=
  mkUser (user_name r) (password_hash r) (admin r) (uid r) (gid r) (home_path r) (native_shell r) (posix_shell r) v.
Definition set_use_name (v : option bytes) (r : FacetConfigDomainSink) : FacetConfigDomainSink :=
  mkUse v (use_level r) (sink_definition_index r).
Definition set_use_level (v : FacetConfigLogLevel) (r : FacetConfigDomainSink) : FacetConfigDomainSink :=
  mkUse (use_name r) v (sink_definition_index r).
Definition set_sink_definition_index (v : nat) (r : FacetConfigDomainSink) : FacetConfigDomainSink :=
  mkUse (use_name r) (use_level r) v.
Definition set_reference (v : option bytes) (r : FacetConfigTerminalAssignment) : FacetConfigTerminalAssignment :=
  mkTerminal v (seat_index r) (terminal_index r) (view r) (initial_process r) (device_name r) (run_as r) (terminal_present r).
Definition set_seat_index (v : nat) (r : FacetConfigTerminalAssignment) : FacetConfigTerminalAssignment :=
  mkTerminal (reference r) v (terminal_index r) (view r) (initial_process r) (device_name r) (run_as r) (terminal_present r).
Definition set_terminal_index (v : nat) (r : FacetConfigTerminalAssignment) : FacetConfigTerminalAssignment :=
  mkTerminal (reference r) (seat_index r) v (view r) (initial_process r) (device_name r) (run_as r) (terminal_present r).
Definition set_view (v : FacetConfigTerminalView) (r : FacetConfigTerminalAssignment) : FacetConfigTerminalAssignment :=
  mkTerminal (reference r) (seat_index r) (terminal_index r) v (initial_process r) (device_name r) (run_as r) (terminal_present r).
Definition set_initial_process (v : option bytes) (r : FacetConfigTerminalAssignment) : FacetConfigTerminalAssignment :=
  mkTerminal (reference r) (seat_index r) (terminal_index r) (view r) v (device_name r) (run_as r) (terminal_present r).
Definition set_device_name (v : option bytes) (r : FacetConfigTerminalAssignment) : FacetConfigTerminalAssignment :=
  mkTerminal (reference r) (seat_index r) (terminal_index r) (view r) (initial_process r) v (run_as r) (terminal_present r).
Definition set_run_as (v : option bytes) (r : FacetConfigTerminalAssignment) : FacetConfigTerminalAssignment :=
  mkTerminal (reference r) (seat_index r) (terminal_index r) (view r) (initial_process r) (device_name r) v (terminal_present r).
Definition set_terminal_present (v : Z) (r : FacetConfigTerminalAssignment) : FacetConfigTerminalAssignment :=
  mkTerminal (reference r) (seat_index r) (terminal_index r) (view r) (initial_process r) (device_name r) (run_as r) v.
Definition set_domain_id (v : Z) (r : FacetConfigDomain) : FacetConfigDomain :=
  mkDomain v (domain_name r) (personality r) (domain_manager r) (authentication_source r) (authentication_source_index r) (pid1 r) (initrd r) (domain_users r) (domain_sinks r) (domain_terminals r) (domain_present r).
Definition set_domain_name (v : option bytes) (r : FacetConfigDomain) : FacetConfigDomain :=
  mkDomain (domain_id r) v (personality r) (domain_manager r) (authentication_source r) (authentication_source_index r) (pid1 r) (initrd r) (domain_users r) (domain_sinks r) (domain_terminals r) (domain_present r).
Definition set_personality (v : FacetConfigPersonality) (r : FacetConfigDomain) : FacetConfigDomain :=
  mkDomain (domain_id r) (domain_name r) v (domain_manager r) (authentication_source r) (authentication_source_index r) (pid1 r) (initrd r) (domain_users r) (domain_sinks r) (domain_terminals r) (domain_present r).
Definition set_domain_manager (v : FacetConfigDomainManagerMode) (r : FacetConfigDomain) : FacetConfigDomain :=
  mkDomain (domain_id r) (domain_name r) (personality r) v (authentication_source r) (authentication_source_index r) (pid1 r) (initrd r) (domain_users r) (domain_sinks r) (domain_terminals r) (domain_present r).
Definition set_authentication_source (v : option bytes) (r : FacetConfigDomain) : FacetConfigDomain :=
  mkDomain (domain_id r) (domain_name r) (personality r) (domain_manager r) v (authentication_source_index r) (pid1 r) (initrd r) (domain_users r) (domain_sinks r) (domain_terminals r) (domain_present r).
Definition set_authentication_source_index (v : Z) (r : FacetConfigDomain) : FacetConfigDomain :=
  mkDomain (domain_id r) (domain_name r) (personality r) (domain_manager r) (authentication_source r) v (pid1 r) (initrd r) (domain_users r) (domain_sinks r) (domain_terminals r) (domain_present r).
Definition set_pid1 (v : option bytes) (r : FacetConfigDomain) : FacetConfigDomain :=
  mkDomain (domain_id r) (domain_name r) (personality r) (domain_manager r) (authentication_source r) (authentication_source_index r) v (initrd r) (domain_users r) (domain_sinks r) (domain_terminals r) (domain_present r).
Definition set_initrd (v : option bytes) (r : FacetConfigDomain) : FacetConfigDomain :=
  mkDomain (domain_id r) (domain_name r) (personality r) (domain_manager r) (authentication_source r) (authentication_source_index r) (pid1 r) v (domain_users r) (domain_sinks r) (domain_terminals r) (domain_present r).
Definition set_domain_users (v : list FacetConfigUser) (r : FacetConfigDomain) : FacetConfigDomain :=
  mkDomain (domain_id r) (domain_name r) (personality r) (domain_manager r) (authentication_source r) (authentication_source_index r) (pid1 r) (initrd r) v (domain_sinks r) (domain_terminals r) (domain_present r).
Definition set_domain_sinks (v : list FacetConfigDomainSink) (r : FacetConfigDomain) : FacetConfigDomain :=
  mkDomain (domain_id r) (domain_name r) (personality r) (domain_manager r) (authentication_source r) (authentication_source_index r) (pid1 r) (initrd r) (domain_users r) v (domain_terminals r) (domain_present r).
Definition set_domain_terminals (v : list FacetConfigTerminalAssignment) (r : FacetConfigDomain) : FacetConfigDomain :=
  mkDomain (domain_id r) (domain_name r) (personality r) (domain_manager r) (authentication_source r) (authentication_source_index r) (pid1 r) (initrd r) (domain_users r) (domain_sinks r) v (domain_present r).
Definition set_domain_present (v : Z) (r : FacetConfigDomain) : FacetConfigDomain :=
  mkDomain (domain_id r) (domain_name r) (personality r) (domain_manager r) (authentication_source r) (authentication_source_index r) (pid1 r) (initrd r) (domain_users r) (domain_sinks r) (domain_terminals r) v.
Definition set_version (v : Z) (r : FacetSystemConfig) : FacetSystemConfig :=
  mkConfig v (seat_initrd r) (logging_sinks r) (authentication_sources r) (users r) (seats r) (domains r) (root_index r).
Definition set_seat_initrd (v : option bytes) (r : FacetSystemConfig) : FacetSystemConfig :=
  mkConfig (version r) v (logging_sinks r) (authentication_sources r) (users r) (seats r) (domains r) (root_index r).
Definition set_logging_sinks (v : list FacetConfigLoggingSinkDefinition) (r : FacetSystemConfig) : FacetSystemConfig :=
  mkConfig (version r) (seat_initrd r) v (authentication_sources r) (users r) (seats r) (domains r) (root_index r).
Definition set_authentication_sources (v : list FacetConfigAuthenticationSource) (r : FacetSystemConfig) : FacetSystemConfig :=
  mkConfig (version r) (seat_initrd r) (logging_sinks r) v (users r) (seats r) (domains r) (root_index r).
Definition set_users (v : list FacetConfigUser) (r : FacetSystemConfig) : FacetSystemConfig :=
  mkConfig (version r) (seat_initrd r) (logging_sinks r) (authentication_sources r) v (seats r) (domains r) (root_index r).
Definition set_seats (v : list FacetConfigSeatDefinition) (r : FacetSystemConfig) : FacetSystemConfig :=
  mkConfig (version r) (seat_initrd r) (logging_sinks r) (authentication_sources r) (users r) v (domains r) (root_index r).
Definition set_domains (v : list FacetConfigDomain) (r : FacetSystemConfig) : FacetSystemConfig :=
  mkConfig (version r) (seat_initrd r) (logging_sinks r) (authentication_sources r) (users r) (seats r) v (root_index r).
Definition set_root_index (v : nat) (r : FacetSystemConfig) : FacetSystemConfig :=
  mkConfig (version r) (seat_initrd r) (logging_sinks r) (authentication_sources r) (users r) (seats r) (domains r) v.
Definition set_p_entry_count (v : Z) (r : Parser) : Parser :=
  mkParser (p_rest r) (p_offset r) (p_line r) (p_column r) v (p_section r) (p_section_index r) (p_facet_seen r) (p_failed r) (p_config r) (p_diagnostic r) (p_allocations r).
Definition set_p_section (v : SectionKind) (r : Parser) : Parser :=
  mkParser (p_rest r) (p_offset r) (p_line r) (p_column r) (p_entry_count r) v (p_section_index r) (p_facet_seen r) (p_failed r) (p_config r) (p_diagnostic r) (p_allocations r).
Definition set_p_section_index (v : nat) (r : Parser) : Parser :=
  mkParser (p_rest r) (p_offset r) (p_line r) (p_column r) (p_entry_count r) (p_section r) v (p_facet_seen r) (p_failed r) (p_config r) (p_diagnostic r) (p_allocations r).
Definition set_p_facet_seen (v : bool) (r : Parser) : Parser :=
  mkParser (p_rest r) (p_offset r) (p_line r) (p_column r) (p_entry_count r) (p_section r) (p_section_index r) v (p_failed r) (p_config r) (p_diagnostic r) (p_allocations r).
Definition set_p_failed (v : bool) (r : Parser) : Parser :=
  mkParser (p_rest r) (p_offset r) (p_line r) (p_column r) (p_entry_count r) (p_section r) (p_section_index r) (p_facet_seen r) v (p_config r) (p_diagnostic r) (p_allocations r).
Definition set_p_config (v : FacetSystemConfig) (r : Parser) : Parser :=
  mkParser (p_rest r) (p_offset r) (p_line r) (p_column r) (p_entry_count r) (p_section r) (p_section_index r) (p_facet_seen r) (p_failed r) v (p_diagnostic r) (p_allocations r).
Definition set_p_diagnostic (v : option FacetConfigDiagnostic) (r : Parser) : Parser :=
  mkParser (p_rest r) (p_offset r) (p_line r) (p_column r) (p_entry_count r) (p_section r) (p_section_index r) (p_facet_seen r) (p_failed r) (p_config r) v (p_allocations r).
Definition set_p_allocations (v : nat) (r : Parser) : Parser :=
  mkParser (p_rest r) (p_offset r) (p_line r) (p_column r) (p_entry_count r) (p_section r) (p_section_index r) (p_facet_seen r) (p_failed r) (p_config r) (p_diagnostic r) v.

(** Move the input position. *)
Definition set_position (rest : bytes) (offset line column : nat) (r : Parser) : Parser :=
  mkParser rest offset line column (p_entry_count r) (p_section r) (p_section_index r)
    (p_facet_seen r) (p_failed r) (p_config r) (p_diagnostic r) (p_allocations r).

(** ** The parser monad *)

(** [Ok a] is a zero return (with the value produced), [Err] is a return of -1 or
    of a null pointer.  [Stuck] is an exhausted step bound or an access that C
    leaves undefined (an index past an array, a null string read); the theorems
    of ConfigParse show that it does not occur. *)
Inductive res (A : Type) :=
  | Ok (a : A)
  | Err
  | Stuck.
Arguments Ok {A} a.
Arguments Err {A}.
Arguments Stuck {A}.

Definition M (A : Type) : Type := Parser -> res A * Parser.

Definition ret {A} (a : A) : M A := fun s => (Ok a, s).
Definition error {A} : M A := fun s => (Err, s).
Definition stuck {A} : M A := fun s => (Stuck, s).
Definition bind {A C} (m : M A) (k : A -> M C) : M C := fun s =>
  match m s with
  | (Ok a, s') => k a s'
  | (Err, s') => (Err, s')
  | (Stuck, s') => (Stuck, s')
  end.
Definition gets {A} (f : Parser -> A) : M A := fun s => (Ok (f s), s).
Definition modify (f : Parser -> Parser) : M unit := fun s => (Ok tt, f s).

Notation "'let!' x ':=' m 'in' k" := (bind m (fun x => k))
  (at level 10, x pattern, m at level 100, k at level 200) : facet_scope.
Notation "m ';;;' k" := (bind m (fun _ => k))
  (at level 199, right associativity) : facet_scope.

(** A pointer that the code reads without testing it. *)
Definition deref {A} (p : option A) : M A :=
  match p with Some a => ret a | None => stuck end.

(** [for (i = from; i < from + count; i++) a = body(i, a)]. *)
Fixpoint fold_range {A} (count from : nat) (body : nat -> A -> M A) (a : A) : M A :=
  match count with
  | O => ret a
  | S n => let! a' := body from a in fold_range n (S from) body a'
  end.

Definition for_range (count : nat) (body : nat -> M unit) : M unit :=
  fold_range count 0 (fun i _ => body i) tt.
