(* ===== verification/ConfigLexer.v ===== *)
(** The lexical layer of the configuration parser (src/config.c, lines 106 to
    422): diagnostics, the input cursor, blanks and comments, string buffers,
    quoted strings and keys. *)
From S2P Require Import Prelude Utf8 ConfigTypes.

Section Lexer.
(** The outcome of the n-th allocation request. *)
Context (malloc_ok : nat -> bool).

(** ** Diagnostics *)

(** [fail_at]: the first failure is recorded, truncated as [snprintf] does into
    the 96 and 192 byte arrays; every call returns -1. *)
Definition fail_at {A} (cat : FacetConfigDiagnosticCategory) (line column : nat)
    (ctx msg : bytes) : M A := fun s =>
  let s1 :=
    if p_failed s then s
    else match p_diagnostic s with
      | None => s
      | Some _ =>
          set_p_diagnostic (Some (mkDiagnostic cat line column (firstn 95 ctx) (firstn 191 msg))) s
      end in
  (Err, set_p_failed true s1).

Definition fail {A} (cat : FacetConfigDiagnosticCategory) (ctx msg : bytes) : M A := fun s =>
  fail_at cat (p_line s) (p_column s) ctx msg s.

Definition consume_entry (line column : nat) (ctx : bytes) : M unit :=
  let! n := gets p_entry_count in
  if FACET_CONFIG_MAX_ENTRIES <=? n then
    fail_at FACET_CONFIG_DIAGNOSTIC_LIMIT line column ctx
      (B "configuration has too many entries")
  else modify (set_p_entry_count (n + 1)).

(** An allocation request. *)
Definition allocate : M bool := fun s =>
  (Ok (malloc_ok (p_allocations s)), set_p_allocations (S (p_allocations s)) s).

Definition out_of_memory {A} (ctx : bytes) : M A :=
  fail FACET_CONFIG_DIAGNOSTIC_OUT_OF_MEMORY ctx (B "out of memory").

(** ** The input cursor *)

(** The current byte, -1 at the end of input. *)
Definition current : M Z := gets (fun s => match p_rest s with c :: _ => c | [] => -1 end).

(** Line and column after one byte. *)
Definition advance (c : Z) (pos : nat * nat) : nat * nat :=
  if c =? 10 then (S (fst pos), 1%nat) else (fst pos, S (snd pos)).

Definition take : M Z := fun s =>
  match p_rest s with
  | [] => (Ok (-1), s)
  | c :: rest =>
      let (line, column) := advance c (p_line s, p_column s) in
      (Ok c, set_position rest (S (p_offset s)) line column s)
  end.

(** [while ((c = current(parser)) >= 0 && c != '\n') take(parser);] *)
Fixpoint skip_comment (fuel : nat) : M unit :=
  let! c := current in
  if ((0 <=? c) && negb (c =? 10))%bool then
    match fuel with
    | O => stuck
    | S f => take ;;; skip_comment f
    end
  else ret tt.

Fixpoint skip_loop (fuel : nat) (allow_newline : bool) : M unit :=
  let! c := current in
  if ((c =? 32) || (c =? 9) || (c =? 13) || (allow_newline && (c =? 10)))%bool then
    match fuel with
    | O => stuck
    | S f => take ;;; skip_loop f allow_newline
    end
  else if c =? 35 then
    match fuel with
    | O => stuck
    | S f =>
        let! n := gets (fun s => length (p_rest s)) in
        skip_comment n ;;;
        if negb allow_newline then ret tt else skip_loop f allow_newline
    end
  else ret tt.

Definition skip_space_and_comments (allow_newline : bool) : M unit :=
  let! n := gets (fun s => length (p_rest s)) in skip_loop n allow_newline.

(** ** Strings *)

Definition duplicate_bytes (data : bytes) : M bytes :=
  if FACET_CONFIG_MAX_STRING_BYTES <? zlen data then
    fail FACET_CONFIG_DIAGNOSTIC_LIMIT (B "string") (B "string exceeds configured limit")
  else
    let! ok := allocate in
    if negb ok then out_of_memory (B "allocation") else ret data.

(** A growing buffer: its bytes (of length [used]) and its capacity; the null
    buffer has capacity 0. *)
Record StringBuffer := mkBuffer { sb_bytes : bytes; sb_capacity : Z }.

Definition used (sb : StringBuffer) : Z := zlen (sb_bytes sb).

(** [while (next < *used + count + 1) next *= 2;] *)
Fixpoint grow_capacity (fuel : nat) (next needed : Z) : M Z :=
  if next <? needed then
    match fuel with
    | O => stuck
    | S f => grow_capacity f (next * 2) needed
    end
  else ret next.

Definition append_utf8 (sb : StringBuffer) (scalar : Z) : M StringBuffer :=
  let count := utf8_count scalar in
  if negb (scalar_ok scalar) then
    fail FACET_CONFIG_DIAGNOSTIC_SYNTAX (B "string") (B "invalid Unicode scalar escape")
  else if FACET_CONFIG_MAX_STRING_BYTES - count <? used sb then
    fail FACET_CONFIG_DIAGNOSTIC_LIMIT (B "string") (B "string exceeds configured limit")
  else
    let! capacity :=
      (if sb_capacity sb <? used sb + count + 1 then
         let! next := grow_capacity 17 (if sb_capacity sb =? 0 then 32 else sb_capacity sb * 2)
                        (used sb + count + 1) in
         let next := if FACET_CONFIG_MAX_STRING_BYTES + 1 <? next
                     then FACET_CONFIG_MAX_STRING_BYTES + 1 else next in
         let! ok := allocate in
         if negb ok then out_of_memory (B "allocation") else ret next
       else ret (sb_capacity sb)) in
    ret (mkBuffer (sb_bytes sb ++ utf8_encode scalar) capacity).

Definition append_raw_byte (sb : StringBuffer) (byte : Z) : M StringBuffer :=
  if FACET_CONFIG_MAX_STRING_BYTES <=? used sb then
    fail FACET_CONFIG_DIAGNOSTIC_LIMIT (B "string") (B "string exceeds configured limit")
  else
    let! capacity :=
      (if sb_capacity sb <? used sb + 2 then
         let next := if sb_capacity sb =? 0 then 32 else sb_capacity sb * 2 in
         let next := if FACET_CONFIG_MAX_STRING_BYTES + 1 <? next
                     then FACET_CONFIG_MAX_STRING_BYTES + 1 else next in
         let! ok := allocate in
         if negb ok then out_of_memory (B "allocation") else ret next
       else ret (sb_capacity sb)) in
    ret (mkBuffer (sb_bytes sb ++ [byte]) capacity).

Definition hex_digit (c : Z) : Z :=
  if ((48 <=? c) && (c <=? 57))%bool then c - 48
  else if ((97 <=? c) && (c <=? 102))%bool then c - 97 + 10
  else if ((65 <=? c) && (c <=? 70))%bool then c - 65 + 10
  else -1.

(** The digits of a Unicode escape. *)
Fixpoint unicode_digits (digits : nat) (scalar : Z) : M Z :=
  match digits with
  | O => ret scalar
  | S n =>
      let! c := take in
      let digit := hex_digit c in
      if digit <? 0 then
        fail FACET_CONFIG_DIAGNOSTIC_SYNTAX (B "string") (B "invalid Unicode escape")
      else unicode_digits n (Z.lor (u32 (Z.shiftl scalar 4)) digit)
  end.

(** The escape after a backslash in a double-quoted string. *)
Definition string_escape : M Z :=
  let! c := take in
  if c =? 98 then ret 8
  else if c =? 116 then ret 9
  else if c =? 110 then ret 10
  else if c =? 102 then ret 12
  else if c =? 114 then ret 13
  else if c =? 34 then ret 34
  else if c =? 92 then ret 92
  else if c =? 117 then unicode_digits 4 0
  else if c =? 85 then unicode_digits 8 0
  else fail FACET_CONFIG_DIAGNOSTIC_SYNTAX (B "string") (B "invalid string escape").

(** One iteration of the loop of [parse_quoted_string]. *)
Definition quoted_character (quote : Z) (sb : StringBuffer) : M StringBuffer :=
  let! c := take in
  if ((c =? 10) || (c =? 13))%bool then
    fail FACET_CONFIG_DIAGNOSTIC_SYNTAX (B "string") (B "multiline strings are not supported")
  else
    let escaped := ((quote =? 34) && (c =? 92))%bool in
    let! scalar := (if escaped then string_escape else ret c) in
    if scalar =? 0 then
      fail FACET_CONFIG_DIAGNOSTIC_SCHEMA (B "string")
        (B "NUL is not permitted in configuration strings")
    else if (negb escaped && (((scalar <? 0x20) && negb (scalar =? 9)) || (scalar =? 0x7f)))%bool
    then
      fail FACET_CONFIG_DIAGNOSTIC_SYNTAX (B "string")
        (B "unescaped control character in string")
    else if escaped then append_utf8 sb scalar
    else append_raw_byte sb (u8 scalar).

Fixpoint quoted_loop (fuel : nat) (quote : Z) (sb : StringBuffer) : M StringBuffer :=
  let! c := current in
  if ((0 <=? c) && negb (c =? quote))%bool then
    match fuel with
    | O => stuck
    | S f => let! sb' := quoted_character quote sb in quoted_loop f quote sb'
    end
  else ret sb.

Definition parse_quoted_string : M bytes :=
  let! quote := take in
  let! n := gets (fun s => length (p_rest s)) in
  let! sb := quoted_loop n quote (mkBuffer [] 0) in
  let! c := take in
  if negb (c =? quote) then
    fail FACET_CONFIG_DIAGNOSTIC_SYNTAX (B "string") (B "unterminated string")
  else if sb_capacity sb =? 0 then duplicate_bytes []
  else ret (sb_bytes sb).

(** ** Keys *)

Definition bare_key_character (c : Z) : bool :=
  (((97 <=? c) && (c <=? 122)) || ((65 <=? c) && (c <=? 90)) ||
   ((48 <=? c) && (c <=? 57)) || (c =? 95) || (c =? 45))%bool.

Fixpoint bare_key_loop (fuel : nat) : M unit :=
  let! c := current in
  if bare_key_character c then
    match fuel with
    | O => stuck
    | S f => take ;;; bare_key_loop f
    end
  else ret tt.

Definition parse_key : M bytes :=
  let! c := current in
  if ((c =? 34) || (c =? 39))%bool then parse_quoted_string
  else
    let! start := gets (fun s => (p_offset s, p_rest s)) in
    bare_key_loop (length (snd start)) ;;;
    let! offset := gets p_offset in
    if Nat.eqb offset (fst start) then
      fail FACET_CONFIG_DIAGNOSTIC_SYNTAX (B "key") (B "expected a key")
    else duplicate_bytes (firstn (offset - fst start) (snd start)).

End Lexer.
