(* ===== verification/ConfigValue.v ===== *)
(** Values of the configuration language (src/config.c, lines 444 to 636):
    integers, booleans, strings, arrays and inline tables. *)
From S2P Require Import Prelude Utf8 ConfigTypes ConfigLexer.

Section Values.
Context (malloc_ok : nat -> bool).

Definition array_append (items : list Value) (item : Value) : M (list Value) :=
  if FACET_CONFIG_MAX_ARRAY_ELEMENTS <=? zlen items then
    fail FACET_CONFIG_DIAGNOSTIC_LIMIT (B "array") (B "array exceeds configured element limit")
  else
    let! ok := allocate malloc_ok in
    if negb ok then out_of_memory (B "allocation") else ret (items ++ [item]).

(** The item loop of [parse_array]; [item] is the recursive call. *)
Fixpoint array_loop (fuel : nat) (item : M Value) (items : list Value) : M (list Value) :=
  match fuel with
  | O => stuck
  | S f =>
      let! v := item in
      let! items' := array_append items v in
      skip_space_and_comments true ;;;
      let! c := current in
      if c =? 93 then take ;;; ret items'
      else
        let! c := take in
        if negb (c =? 44) then
          fail FACET_CONFIG_DIAGNOSTIC_SYNTAX (B "array") (B "expected ',' or ']'")
        else
          skip_space_and_comments true ;;;
          let! c := current in
          if c =? 93 then take ;;; ret items'
          else array_loop f item items'
  end.

Definition parse_array (item : M Value) : M (list Value) :=
  take ;;;
  skip_space_and_comments true ;;;
  let! c := current in
  if c =? 93 then take ;;; ret []
  else let! n := gets (fun s => length (p_rest s)) in array_loop (S n) item [].

Definition table_append (entries : list (ValueEntry Value)) (entry : ValueEntry Value)
  : M (list (ValueEntry Value)) :=
  if FACET_CONFIG_MAX_ARRAY_ELEMENTS <=? zlen entries then
    fail FACET_CONFIG_DIAGNOSTIC_LIMIT (B "inline table")
      (B "inline table exceeds configured element limit")
  else if existsb (fun e => key e =b key entry) entries then
    fail_at FACET_CONFIG_DIAGNOSTIC_DUPLICATE (entry_line entry) (entry_column entry)
      (key entry) (B "duplicate inline-table key")
  else
    let! ok := allocate malloc_ok in
    if negb ok then out_of_memory (B "allocation") else ret (entries ++ [entry]).

(** The entry loop of [parse_inline_table]. *)
Fixpoint table_loop (fuel : nat) (item : M Value) (entries : list (ValueEntry Value))
  : M (list (ValueEntry Value)) :=
  match fuel with
  | O => stuck
  | S f =>
      let! line := gets p_line in
      let! column := gets p_column in
      consume_entry line column (B "inline table") ;;;
      let! k := parse_key malloc_ok in
      skip_space_and_comments false ;;;
      let! c := take in
      if negb (c =? 61) then
        fail FACET_CONFIG_DIAGNOSTIC_SYNTAX (B "inline table") (B "expected '='")
      else
        skip_space_and_comments false ;;;
        let! ok := allocate malloc_ok in
        if negb ok then out_of_memory (B "allocation") else
        let! v := item in
        let! entries' := table_append entries (mkEntry k line column v) in
        skip_space_and_comments false ;;;
        let! c := current in
        if c =? 125 then take ;;; ret entries'
        else
          let! c := take in
          if negb (c =? 44) then
            fail FACET_CONFIG_DIAGNOSTIC_SYNTAX (B "inline table") (B "expected ',' or '}'")
          else
            skip_space_and_comments false ;;;
            table_loop f item entries'
  end.

Definition parse_inline_table (item : M Value) : M (list (ValueEntry Value)) :=
  take ;;;
  skip_space_and_comments false ;;;
  let! c := current in
  if c =? 125 then take ;;; ret []
  else let! n := gets (fun s => length (p_rest s)) in table_loop (S n) item [].

(** The digit loop of [parse_integer], with the overflow test before each step. *)
Fixpoint integer_loop (fuel : nat) (negative : bool) (magnitude : Z) : M Z :=
  let! c := current in
  if ((48 <=? c) && (c <=? 57))%bool then
    match fuel with
    | O => stuck
    | S f =>
        let! c := take in
        let digit := c - 48 in
        let limit := if negative then INT64_MAX + 1 else INT64_MAX in
        if (limit - digit) / 10 <? magnitude then
          fail FACET_CONFIG_DIAGNOSTIC_SYNTAX (B "integer") (B "signed integer overflow")
        else integer_loop f negative (u64 (magnitude * 10 + digit))
    end
  else ret magnitude.

Definition parse_integer : M Z :=
  let! c := current in
  let! negative := (if ((c =? 43) || (c =? 45))%bool
                    then let! c := take in ret (c =? 45) else ret false) in
  let! start := gets (fun s => (p_offset s, p_rest s)) in
  let! magnitude := integer_loop (length (snd start)) negative 0 in
  let! offset := gets p_offset in
  if Nat.eqb offset (fst start) then
    fail FACET_CONFIG_DIAGNOSTIC_SYNTAX (B "value") (B "expected a value")
  else if ((1 <? offset - fst start)%nat && bool_decide (head (snd start) = Some 48))%bool then
    fail FACET_CONFIG_DIAGNOSTIC_SYNTAX (B "integer") (B "leading zero is not permitted")
  else
    ret (if (negative && (magnitude =? INT64_MAX + 1))%bool then INT64_MIN
         else if negative then - magnitude else magnitude).

(** [memcmp] of a keyword at the cursor, which it then steps over. *)
Definition keyword (word : bytes) (s : Parser) : bool :=
  (bool_decide (length word <= length (p_rest s))%nat &&
   (firstn (length word) (p_rest s) =b word))%bool.

Definition skip_keyword (word : bytes) : M unit :=
  modify (fun s => set_position (skipn (length word) (p_rest s)) (p_offset s + length word)
                     (p_line s) (p_column s + length word) s).

(** [fuel] bounds the nesting; FACET_CONFIG_MAX_DEPTH + 2 levels are enough. *)
Fixpoint parse_value (fuel : nat) (depth : nat) : M Value :=
  match fuel with
  | O => stuck
  | S f =>
      if (FACET_CONFIG_MAX_DEPTH <? depth)%nat then
        fail FACET_CONFIG_DIAGNOSTIC_LIMIT (B "value") (B "nesting exceeds configured limit")
      else
        let! line := gets p_line in
        let! column := gets p_column in
        let! c := current in
        if ((c =? 34) || (c =? 39))%bool then
          let! s := parse_quoted_string malloc_ok in ret (VString line column s)
        else if c =? 91 then
          let! items := parse_array (parse_value f (S depth)) in ret (VArray line column items)
        else if c =? 123 then
          let! entries := parse_inline_table (parse_value f (S depth)) in
          ret (VTable line column entries)
        else
          let! is_true := gets (keyword (B "true")) in
          if is_true then skip_keyword (B "true") ;;; ret (VBool line column true)
          else
            let! is_false := gets (keyword (B "false")) in
            if is_false then skip_keyword (B "false") ;;; ret (VBool line column false)
            else let! n := parse_integer in ret (VInteger line column n)
  end.

End Values.
