(* ===== verification/ConfigApply.v ===== *)
(** Table headers and assignments (src/config.c, lines 638 to 1237): how parsed
    keys and values update the configuration under construction. *)
From S2P Require Import Prelude Utf8 ConfigTypes ConfigLexer ConfigValue.

Section Apply.
Context (malloc_ok : nat -> bool).

(** [grow_array]: the element size of each array is far below SIZE_MAX / 4097, so
    only the element limit and the allocation can fail; the new element is zero. *)
Definition grow_array {A} (array : list A) (zero : A) : M (list A) :=
  if FACET_CONFIG_MAX_ARRAY_ELEMENTS <=? zlen array then
    fail FACET_CONFIG_DIAGNOSTIC_LIMIT (B "configuration") (B "configuration array exceeds limit")
  else
    let! ok := allocate malloc_ok in
    if negb ok then out_of_memory (B "allocation") else ret (array ++ [zero]).

Definition modify_config (f : FacetSystemConfig -> FacetSystemConfig) : M unit :=
  modify (fun s => set_p_config (f (p_config s)) s).

(** Enter the table [section] whose record was just appended to [array]. *)
Definition enter_section {A} (section : SectionKind) (get : FacetSystemConfig -> list A)
    (set : list A -> FacetSystemConfig -> FacetSystemConfig) (zero : A) : M unit :=
  let! array := gets (fun s => get (p_config s)) in
  let! array' := grow_array array zero in
  modify_config (set array') ;;;
  modify (set_p_section section) ;;;
  modify (set_p_section_index (length array)).

(** The second half of [parse_header]: the table [name] becomes current. *)
Definition enter_table (array : bool) (name : bytes) (line column : nat) : M unit :=
  let! facet_seen := gets p_facet_seen in
  if (negb facet_seen && (array || negb (name =b B "facet")))%bool then
    fail_at FACET_CONFIG_DIAGNOSTIC_SCHEMA line column (B "facet")
      (B "[facet] must be the first table")
  else
    consume_entry line column name ;;;
    if (negb array && (name =b B "facet"))%bool then
      if facet_seen then
        fail_at FACET_CONFIG_DIAGNOSTIC_DUPLICATE line column (B "facet")
          (B "duplicate [facet] table")
      else modify (set_p_facet_seen true) ;;; modify (set_p_section SECTION_FACET)
    else if (array && (name =b B "logging_sinks"))%bool then
      enter_section SECTION_LOGGING_SINK logging_sinks set_logging_sinks zero_sink
    else if (array && (name =b B "authentication_sources"))%bool then
      enter_section SECTION_AUTHENTICATION_SOURCE authentication_sources
        set_authentication_sources zero_source
    else if (array && (name =b B "users"))%bool then
      enter_section SECTION_USER users set_users zero_user
    else if (array && (name =b B "seats"))%bool then
      enter_section SECTION_SEAT seats set_seats zero_seat
    else if (array && (name =b B "domains"))%bool then
      enter_section SECTION_DOMAIN domains set_domains zero_domain
    else
      fail_at FACET_CONFIG_DIAGNOSTIC_SCHEMA line column name (B "unknown configuration table").

Definition parse_header : M unit :=
  take ;;;
  let! c := current in
  let array := c =? 91 in
  (if array then take ;;; ret tt else ret tt) ;;;
  skip_space_and_comments false ;;;
  let! line := gets p_line in
  let! column := gets p_column in
  let! name := parse_key malloc_ok in
  skip_space_and_comments false ;;;
  let! c := take in
  let! closed := (if negb (c =? 93) then ret false
                  else if array then let! c := take in ret (c =? 93) else ret true) in
  if negb closed then
    fail_at FACET_CONFIG_DIAGNOSTIC_SYNTAX line column (B "table") (B "malformed table header")
  else
    enter_table array name line column.

(** ** Typed reads of values *)

Definition require_kind (k : bytes) (v : Value) (kind : ValueKind) (type_name : bytes) : M unit :=
  if bool_decide (value_kind v = kind) then ret tt
  else fail_at FACET_CONFIG_DIAGNOSTIC_SCHEMA (value_line v) (value_column v) k
         (B "expected " ++ type_name).

Definition as_string (v : Value) : M bytes :=
  match v with VString _ _ s => ret s | _ => stuck end.
Definition as_integer (v : Value) : M Z :=
  match v with VInteger _ _ n => ret n | _ => stuck end.
Definition as_bool (v : Value) : M bool :=
  match v with VBool _ _ b => ret b | _ => stuck end.
Definition as_array (v : Value) : M (list Value) :=
  match v with VArray _ _ l => ret l | _ => stuck end.
Definition as_table (v : Value) : M (list (ValueEntry Value)) :=
  match v with VTable _ _ l => ret l | _ => stuck end.

Definition take_string (k : bytes) (v : Value) : M bytes :=
  require_kind k v VALUE_STRING (B "string") ;;; as_string v.

Definition log_levels : list (bytes * FacetConfigLogLevel) :=
  [(B "none", FACET_CONFIG_LOG_NONE); (B "fatal", FACET_CONFIG_LOG_FATAL);
   (B "error", FACET_CONFIG_LOG_ERROR); (B "warning", FACET_CONFIG_LOG_WARNING);
   (B "info", FACET_CONFIG_LOG_INFO); (B "debug", FACET_CONFIG_LOG_DEBUG);
   (B "trace", FACET_CONFIG_LOG_TRACE)].

Definition parse_log_level (k : bytes) (v : Value) : M FacetConfigLogLevel :=
  require_kind k v VALUE_STRING (B "log-level string") ;;;
  let! s := as_string v in
  match find (fun l => s =b fst l) log_levels with
  | Some l => ret (snd l)
  | None => fail_at FACET_CONFIG_DIAGNOSTIC_SCHEMA (value_line v) (value_column v) k
              (B "invalid log level")
  end.

(** Run [f] on the items in order, collecting the results. *)
Fixpoint traverse {A C} (f : A -> M C) (l : list A) : M (list C) :=
  match l with
  | [] => ret []
  | x :: l' => let! y := f x in let! ys := traverse f l' in ret (y :: ys)
  end.

(** [calloc] of an array of [l]'s length, when it is not empty. *)
Definition allocate_array {A} (l : list A) (ctx : bytes) : M unit :=
  match l with
  | [] => ret tt
  | _ => let! ok := allocate malloc_ok in if negb ok then out_of_memory ctx else ret tt
  end.

Definition strings_from_array (k : bytes) (v : Value) : M (list bytes) :=
  require_kind k v VALUE_ARRAY (B "array") ;;;
  let! items := as_array v in
  traverse (fun i => require_kind k i VALUE_STRING (B "string array")) items ;;;
  allocate_array items k ;;;
  traverse as_string items.

Definition table_value (entries : list (ValueEntry Value)) (wanted : bytes) : option Value :=
  entry_value <$> find (fun e => key e =b wanted) entries.

(** ** Domain arrays *)

Definition domain_sink_from_item (item : Value) : M FacetConfigDomainSink :=
  require_kind (B "logging_sinks") item VALUE_TABLE (B "inline table") ;;;
  let! entries := as_table item in
  match table_value entries (B "name"), table_value entries (B "level") with
  | Some name, Some level =>
      if negb (length entries =? 2)%nat then
        fail_at FACET_CONFIG_DIAGNOSTIC_SCHEMA (value_line item) (value_column item)
          (B "logging_sinks") (B "sink use requires only name and level")
      else
        require_kind (B "name") name VALUE_STRING (B "string") ;;;
        let! s := as_string name in
        let! s := duplicate_bytes malloc_ok s in
        let! l := parse_log_level (B "level") level in
        ret (mkUse (Some s) l 0)
  | _, _ =>
      fail_at FACET_CONFIG_DIAGNOSTIC_SCHEMA (value_line item) (value_column item)
        (B "logging_sinks") (B "sink use requires only name and level")
  end.

Definition domain_sinks_from_array (v : Value) : M (list FacetConfigDomainSink) :=
  require_kind (B "logging_sinks") v VALUE_ARRAY (B "array") ;;;
  let! items := as_array v in
  allocate_array items (B "logging_sinks") ;;;
  traverse domain_sink_from_item items.

(** One key of a terminal assignment table. *)
Definition terminal_entry (t : FacetConfigTerminalAssignment) (entry : ValueEntry Value)
  : M FacetConfigTerminalAssignment :=
  let k := key entry in
  let apply (bit : Z) (store : bytes -> FacetConfigTerminalAssignment ->
                               M FacetConfigTerminalAssignment) :=
    if negb (Z.land (terminal_present t) bit =? 0) then
      fail_at FACET_CONFIG_DIAGNOSTIC_DUPLICATE (entry_line entry) (entry_column entry) k
        (B "duplicate terminal assignment key")
    else
      let t := set_terminal_present (Z.lor (terminal_present t) bit) t in
      require_kind k (entry_value entry) VALUE_STRING (B "string") ;;;
      let! s := as_string (entry_value entry) in store s t in
  let string (set : option bytes -> FacetConfigTerminalAssignment ->
                    FacetConfigTerminalAssignment) s t :=
    let! s := duplicate_bytes malloc_ok s in ret (set (Some s) t) in
  if k =b B "terminal" then apply TERMINAL_REFERENCE (string set_reference)
  else if k =b B "initial_process" then apply TERMINAL_INITIAL_PROCESS (string set_initial_process)
  else if k =b B "device" then apply TERMINAL_DEVICE (string set_device_name)
  else if k =b B "run_as" then apply TERMINAL_RUN_AS (string set_run_as)
  else if k =b B "view" then
    apply TERMINAL_VIEW (fun s t =>
      if s =b B "native" then ret (set_view FACET_CONFIG_TERMINAL_VIEW_NATIVE t)
      else if s =b B "posix" then ret (set_view FACET_CONFIG_TERMINAL_VIEW_POSIX t)
      else fail_at FACET_CONFIG_DIAGNOSTIC_SCHEMA (value_line (entry_value entry))
             (value_column (entry_value entry)) k (B "terminal view must be native or posix"))
  else fail_at FACET_CONFIG_DIAGNOSTIC_SCHEMA (entry_line entry) (entry_column entry) k
         (B "unknown terminal assignment key").

Fixpoint fold_entries {A E} (f : A -> E -> M A) (a : A) (l : list E) : M A :=
  match l with
  | [] => ret a
  | e :: l' => let! a' := f a e in fold_entries f a' l'
  end.

Definition domain_terminal_from_item (item : Value) : M FacetConfigTerminalAssignment :=
  require_kind (B "terminals") item VALUE_TABLE (B "inline table") ;;;
  let! entries := as_table item in
  fold_entries terminal_entry zero_terminal entries.

Definition domain_terminals_from_array (v : Value) : M (list FacetConfigTerminalAssignment) :=
  require_kind (B "terminals") v VALUE_ARRAY (B "array") ;;;
  let! items := as_array v in
  allocate_array items (B "terminals") ;;;
  traverse domain_terminal_from_item items.

(** ** Users *)

(** What a user key designates: a string field, the admin flag, or an id. *)
Inductive user_field :=
  | UserString (set : option bytes -> FacetConfigUser -> FacetConfigUser)
  | UserAdmin
  | UserId (set : Z -> FacetConfigUser -> FacetConfigUser).

Definition user_key (k : bytes) : option (Z * user_field) :=
  if k =b B "name" then Some (USER_NAME, UserString set_user_name)
  else if k =b B "password_hash" then Some (USER_PASSWORD_HASH, UserString set_password_hash)
  else if k =b B "admin" then Some (USER_ADMIN, UserAdmin)
  else if k =b B "native_shell" then Some (USER_NATIVE_SHELL, UserString set_native_shell)
  else if k =b B "posix_shell" then Some (USER_POSIX_SHELL, UserString set_posix_shell)
  else if k =b B "home_path" then Some (USER_HOME_PATH, UserString set_home_path)
  else if k =b B "uid" then Some (USER_UID, UserId set_uid)
  else if k =b B "gid" then Some (USER_GID, UserId set_gid)
  else None.

(** A user id value: an integer that fits in 32 bits. *)
Definition user_id (k : bytes) (v : Value) (line column : nat) : M Z :=
  let! n := (fun s => match (require_kind k v VALUE_INTEGER (B "non-negative integer") ;;;
                             as_integer v) s with
                      | (Err, s') => (Ok (-1), s')
                      | r => r
                      end) in
  if ((n <? 0) || (UINT32_MAX <? n))%bool then
    fail_at FACET_CONFIG_DIAGNOSTIC_SCHEMA line column k (B "uid and gid must fit in u32")
  else ret n.

(** [user_from_table]: users written inside a domain. *)
Definition user_entry (u : FacetConfigUser) (entry : ValueEntry Value) : M FacetConfigUser :=
  let k := key entry in
  let v := entry_value entry in
  match user_key k with
  | None => fail_at FACET_CONFIG_DIAGNOSTIC_SCHEMA (entry_line entry) (entry_column entry) k
              (B "unknown user key")
  | Some (bit, field) =>
      if negb (Z.land (user_present u) bit =? 0) then
        fail_at FACET_CONFIG_DIAGNOSTIC_DUPLICATE (entry_line entry) (entry_column entry) k
          (B "duplicate user key")
      else
        let u := set_user_present (Z.lor (user_present u) bit) u in
        match field with
        | UserString set =>
            let! s := take_string k v in
            let! s := duplicate_bytes malloc_ok s in ret (set (Some s) u)
        | UserAdmin =>
            require_kind k v VALUE_BOOL (B "boolean") ;;;
            let! b := as_bool v in ret (set_admin b u)
        | UserId set =>
            let! n := user_id k v (entry_line entry) (entry_column entry) in ret (set n u)
        end
  end.

Definition user_from_table (table : Value) : M FacetConfigUser :=
  require_kind (B "users") table VALUE_TABLE (B "inline table") ;;;
  let! entries := as_table table in
  fold_entries user_entry zero_user entries.

Definition domain_users_from_array (v : Value) : M (list FacetConfigUser) :=
  require_kind (B "users") v VALUE_ARRAY (B "array") ;;;
  let! items := as_array v in
  allocate_array items (B "users") ;;;
  traverse user_from_table items.

(** ** Assignments *)

Definition apply_facet (k : bytes) (v : Value) (line column : nat) : M unit :=
  let! config := gets p_config in
  if k =b B "seat_initrd" then
    match seat_initrd config with
    | Some _ => fail_at FACET_CONFIG_DIAGNOSTIC_DUPLICATE line column k
                  (B "duplicate seat_initrd")
    | None => let! s := take_string k v in modify_config (set_seat_initrd (Some s))
    end
  else if negb (k =b B "version") then
    fail_at FACET_CONFIG_DIAGNOSTIC_SCHEMA line column k (B "unknown [facet] key")
  else if negb (version config =? 0) then
    fail_at FACET_CONFIG_DIAGNOSTIC_DUPLICATE line column k (B "duplicate version")
  else
    require_kind k v VALUE_INTEGER (B "integer") ;;;
    let! n := as_integer v in
    if negb (n =? 1) then
      fail_at FACET_CONFIG_DIAGNOSTIC_UNSUPPORTED_VERSION (value_line v) (value_column v) k
        (B "unsupported configuration version")
    else modify_config (set_version 1).

(** The duplicate test shared by the record sections: [present] has [bit]. *)
Definition claim_bit (present bit : Z) (line column : nat) (k msg : bytes) : M Z :=
  if negb (Z.land present bit =? 0) then
    fail_at FACET_CONFIG_DIAGNOSTIC_DUPLICATE line column k msg
  else ret (Z.lor present bit).

Definition apply_sink (r : FacetConfigLoggingSinkDefinition) (k : bytes) (v : Value)
    (line column : nat) : M FacetConfigLoggingSinkDefinition :=
  let claim bit := claim_bit (sink_present r) bit line column k (B "duplicate logging sink key") in
  if k =b B "name" then
    let! p := claim SINK_NAME in
    let! s := take_string k v in ret (set_sink_name (Some s) (set_sink_present p r))
  else if k =b B "type" then
    let! p := claim SINK_TYPE in
    let! s := take_string k v in ret (set_sink_type (Some s) (set_sink_present p r))
  else if k =b B "required" then
    let! p := claim SINK_REQUIRED in
    require_kind k v VALUE_BOOL (B "boolean") ;;;
    let! b := as_bool v in ret (set_sink_required b (set_sink_present p r))
  else fail_at FACET_CONFIG_DIAGNOSTIC_SCHEMA line column k (B "unknown logging sink key").

Definition apply_source (r : FacetConfigAuthenticationSource) (k : bytes) (v : Value)
    (line column : nat) : M FacetConfigAuthenticationSource :=
  let claim bit := claim_bit (source_present r) bit line column k
                     (B "duplicate authentication source key") in
  if k =b B "name" then
    let! p := claim AUTH_NAME in
    let! s := take_string k v in ret (set_source_name (Some s) (set_source_present p r))
  else if k =b B "provider_domain" then
    let! p := claim AUTH_PROVIDER_DOMAIN in
    let! n := (fun s => match (require_kind k v VALUE_INTEGER (B "non-negative integer") ;;;
                               as_integer v) s with
                        | (Err, s') => (Ok (-1), s')
                        | x => x
                        end) in
    if n <? 0 then
      fail_at FACET_CONFIG_DIAGNOSTIC_SCHEMA (value_line v) (value_column v) k
        (B "provider domain must be non-negative")
    else ret (set_provider_domain_id n (set_source_present p r))
  else if k =b B "type" then
    let! p := claim AUTH_TYPE in
    let! s := take_string k v in
    if negb (s =b B "local") then
      fail_at FACET_CONFIG_DIAGNOSTIC_SCHEMA line column k
        (B "authentication source type must be local")
    else ret (set_source_type (Some s) (set_source_present p r))
  else if k =b B "required" then
    let! p := claim AUTH_REQUIRED in
    require_kind k v VALUE_BOOL (B "boolean") ;;;
    let! b := as_bool v in ret (set_source_required b (set_source_present p r))
  else fail_at FACET_CONFIG_DIAGNOSTIC_SCHEMA line column k
         (B "unknown authentication source key").

Definition apply_user (r : FacetConfigUser) (k : bytes) (v : Value) (line column : nat)
  : M FacetConfigUser :=
  match user_key k with
  | None => fail_at FACET_CONFIG_DIAGNOSTIC_SCHEMA line column k (B "unknown user key")
  | Some (bit, field) =>
      let! p := claim_bit (user_present r) bit line column k (B "duplicate user key") in
      let r := set_user_present p r in
      match field with
      | UserString set => let! s := take_string k v in ret (set (Some s) r)
      | UserAdmin =>
          require_kind k v VALUE_BOOL (B "boolean") ;;;
          let! b := as_bool v in ret (set_admin b r)
      | UserId set => let! n := user_id k v (value_line v) (value_column v) in ret (set n r)
      end
  end.

Definition apply_seat (r : FacetConfigSeatDefinition) (k : bytes) (v : Value) (line column : nat)
  : M FacetConfigSeatDefinition :=
  let claim bit := claim_bit (seat_present r) bit line column k (B "duplicate seat key") in
  if k =b B "name" then
    let! p := claim SEAT_NAME in
    let! s := take_string k v in ret (set_seat_name (Some s) (set_seat_present p r))
  else if k =b B "type" then
    let! p := claim SEAT_TYPE in
    let! s := take_string k v in
    if s =b B "serial" then ret (set_seat_type FACET_CONFIG_SEAT_SERIAL (set_seat_present p r))
    else if s =b B "local" then ret (set_seat_type FACET_CONFIG_SEAT_LOCAL (set_seat_present p r))
    else fail_at FACET_CONFIG_DIAGNOSTIC_SCHEMA (value_line v) (value_column v) k
           (B "seat type must be serial or local")
  else if k =b B "server" then
    let! p := claim SEAT_SERVER in
    let! s := take_string k v in ret (set_seat_server (Some s) (set_seat_present p r))
  else if k =b B "terminals" then
    let! p := claim SEAT_TERMINALS in
    let! l := strings_from_array k v in ret (set_seat_terminals l (set_seat_present p r))
  else fail_at FACET_CONFIG_DIAGNOSTIC_SCHEMA line column k (B "unknown seat key").

Definition apply_domain (r : FacetConfigDomain) (k : bytes) (v : Value) (line column : nat)
  : M FacetConfigDomain :=
  let claim bit := claim_bit (domain_present r) bit line column k (B "duplicate domain key") in
  if k =b B "id" then
    let! p := claim DOMAIN_ID in
    require_kind k v VALUE_INTEGER (B "non-negative integer") ;;;
    let! n := as_integer v in
    if n <? 0 then
      fail_at FACET_CONFIG_DIAGNOSTIC_SCHEMA (value_line v) (value_column v) k
        (B "domain id must be non-negative")
    else ret (set_domain_id n (set_domain_present p r))
  else if k =b B "name" then
    let! p := claim DOMAIN_NAME in
    let! s := take_string k v in ret (set_domain_name (Some s) (set_domain_present p r))
  else if k =b B "personality" then
    let! p := claim DOMAIN_PERSONALITY in
    let! s := take_string k v in
    let r := set_domain_present p r in
    if s =b B "native" then ret (set_personality FACET_CONFIG_PERSONALITY_NATIVE r)
    else if s =b B "posix" then ret (set_personality FACET_CONFIG_PERSONALITY_POSIX r)
    else if s =b B "vm" then ret (set_personality FACET_CONFIG_PERSONALITY_VM r)
    else fail_at FACET_CONFIG_DIAGNOSTIC_SCHEMA (value_line v) (value_column v) k
           (B "invalid domain personality")
  else if k =b B "domain_manager" then
    let! p := claim DOMAIN_MANAGER in
    let! s := take_string k v in
    let r := set_domain_present p r in
    if s =b B "none" then ret (set_domain_manager FACET_CONFIG_DOMAIN_MANAGER_NONE r)
    else if s =b B "local" then ret (set_domain_manager FACET_CONFIG_DOMAIN_MANAGER_LOCAL r)
    else if s =b B "parent" then ret (set_domain_manager FACET_CONFIG_DOMAIN_MANAGER_PARENT r)
    else fail_at FACET_CONFIG_DIAGNOSTIC_SCHEMA (value_line v) (value_column v) k
           (B "invalid domain manager mode")
  else if k =b B "logging_sinks" then
    let! p := claim DOMAIN_SINKS in
    let! l := domain_sinks_from_array v in ret (set_domain_sinks l (set_domain_present p r))
  else if k =b B "terminals" then
    let! p := claim DOMAIN_TERMINALS in
    let! l := domain_terminals_from_array v in ret (set_domain_terminals l (set_domain_present p r))
  else if k =b B "authentication_source" then
    let! p := claim DOMAIN_AUTHENTICATION_SOURCE in
    let! s := take_string k v in ret (set_authentication_source (Some s) (set_domain_present p r))
  else if k =b B "pid1" then
    let! p := claim DOMAIN_PID1 in
    let! s := take_string k v in ret (set_pid1 (Some s) (set_domain_present p r))
  else if k =b B "initrd" then
    let! p := claim DOMAIN_INITRD in
    let! s := take_string k v in ret (set_initrd (Some s) (set_domain_present p r))
  else if k =b B "users" then
    let! p := claim DOMAIN_USERS in
    let! l := domain_users_from_array v in ret (set_domain_users l (set_domain_present p r))
  else fail_at FACET_CONFIG_DIAGNOSTIC_SCHEMA line column k (B "unknown domain key").

(** Update the record that the current section designates. *)
Definition update_section {A} (get : FacetSystemConfig -> list A)
    (set : list A -> FacetSystemConfig -> FacetSystemConfig) (f : A -> M A) : M unit :=
  let! index := gets p_section_index in
  let! array := gets (fun s => get (p_config s)) in
  let! r := deref (array !! index) in
  let! r' := f r in
  modify_config (set (<[index := r']> array)).

Definition apply_value (k : bytes) (v : Value) (line column : nat) : M unit :=
  consume_entry line column k ;;;
  let! section := gets p_section in
  match section with
  | SECTION_FACET => apply_facet k v line column
  | SECTION_LOGGING_SINK =>
      update_section logging_sinks set_logging_sinks (fun r => apply_sink r k v line column)
  | SECTION_AUTHENTICATION_SOURCE =>
      update_section authentication_sources set_authentication_sources
        (fun r => apply_source r k v line column)
  | SECTION_USER => update_section users set_users (fun r => apply_user r k v line column)
  | SECTION_SEAT => update_section seats set_seats (fun r => apply_seat r k v line column)
  | SECTION_DOMAIN => update_section domains set_domains (fun r => apply_domain r k v line column)
  | SECTION_NONE =>
      fail_at FACET_CONFIG_DIAGNOSTIC_SCHEMA line column k
        (B "assignment appears before a table header")
  end.

End Apply.
