(* ===== verification/ConfigValidate.v ===== *)
(** Whole-configuration validation (src/config.c, lines 1249 to 1567): required
    keys, uniqueness of names and ids, and resolution of the references between
    domains, sinks, seats, terminals, users and authentication sources. *)
From S2P Require Import Prelude ConfigTypes ConfigLexer ConfigApply.

Definition schema_error {A} (ctx msg : bytes) : M A :=
  fail_at FACET_CONFIG_DIAGNOSTIC_SCHEMA 0 0 ctx msg.
Definition duplicate_error {A} (ctx msg : bytes) : M A :=
  fail_at FACET_CONFIG_DIAGNOSTIC_DUPLICATE 0 0 ctx msg.
Definition unresolved_error {A} (ctx msg : bytes) : M A :=
  fail_at FACET_CONFIG_DIAGNOSTIC_UNRESOLVED_REFERENCE 0 0 ctx msg.

(** The strings behind a list of pointers that the code compares with. *)
Definition strings (l : list (option bytes)) : M (list bytes) := traverse deref l.

Definition member (s : bytes) (l : list bytes) : bool := existsb (bytes_eqb s) l.

Definition config_get {A} (f : FacetSystemConfig -> A) : M A := gets (fun s => f (p_config s)).

(** ** Users *)

Definition valid_password_hash (text : bytes) : bool :=
  if negb (firstn 3 text =b B "$5$") then false
  else match strchr (skipn 3 text) 36 with
    | None => false
    | Some d => (negb (d =? 0)%nat && negb (skipn (S d) (skipn 3 text) =b []))%bool
    end.

Definition has_bits (present required : Z) : bool := Z.land present required =? required.

Definition absolute (s : bytes) : bool := bool_decide (head s = Some 47).

Definition validate_user (u : FacetConfigUser) (ctx : bytes) : M unit :=
  let required := Z.lor USER_NAME (Z.lor USER_PASSWORD_HASH (Z.lor USER_ADMIN
                    (Z.lor USER_UID (Z.lor USER_GID USER_HOME_PATH)))) in
  let msg := B "user requires name, supported crypt password_hash, admin, uid, gid, and home_path" in
  if negb (has_bits (user_present u) required) then schema_error ctx msg
  else match user_name u, password_hash u with
    | Some name, Some hash =>
        if ((name =b []) || negb (valid_password_hash hash))%bool then schema_error ctx msg
        else
          let! home := deref (home_path u) in
          if negb (absolute home) then schema_error name (B "home_path must be absolute")
          else
            let relative p := match p with Some s => negb (absolute s) | None => false end in
            if (relative (native_shell u) || relative (posix_shell u))%bool then
              schema_error name (B "shell paths must be absolute")
            else ret tt
    | _, _ => schema_error ctx msg
    end.

(** ** Sinks, seats, sources and global users *)

Definition validate_sink (i : nat) : M unit :=
  let! l := config_get logging_sinks in
  let! sink := deref (l !! i) in
  if negb (has_bits (sink_present sink) (Z.lor SINK_NAME (Z.lor SINK_TYPE SINK_REQUIRED))) then
    schema_error (B "logging_sinks") (B "sink requires name, type, and required")
  else
    let! name := deref (sink_name sink) in
    let! type := deref (sink_type sink) in
    if ((name =b []) || (type =b []))%bool then
      schema_error (B "logging_sinks") (B "sink name and type must not be empty")
    else
      let! earlier := strings (map sink_name (firstn i l)) in
      if member name earlier then duplicate_error name (B "duplicate logging sink name")
      else ret tt.

Definition has_dot (s : bytes) : bool := bool_decide (is_Some (strchr s 46)).

Definition validate_seat_terminal (seat_nm : bytes) (terminals : list bytes) (j : nat) : M unit :=
  let! t := deref (terminals !! j) in
  if ((t =b []) || has_dot t)%bool then
    schema_error seat_nm (B "terminal name must be nonempty and contain no dot")
  else if member t (firstn j terminals) then
    duplicate_error t (B "duplicate terminal in seat")
  else ret tt.

Definition validate_seat (i : nat) : M unit :=
  let! l := config_get seats in
  let! seat := deref (l !! i) in
  if negb (has_bits (seat_present seat)
             (Z.lor SEAT_NAME (Z.lor SEAT_TYPE (Z.lor SEAT_SERVER SEAT_TERMINALS)))) then
    schema_error (B "seats") (B "seat requires name, type, server, and terminals")
  else
    let! name := deref (seat_name seat) in
    let! server := deref (seat_server seat) in
    if ((name =b []) || (server =b []) || negb (absolute server) || has_dot name)%bool then
      schema_error (B "seats")
        (B "seat name must contain no dot and server must be an absolute path")
    else
      let! earlier := strings (map seat_name (firstn i l)) in
      if member name earlier then duplicate_error name (B "duplicate seat name")
      else for_range (length (seat_terminals seat))
             (validate_seat_terminal name (seat_terminals seat)).

Definition validate_source (i : nat) : M unit :=
  let! l := config_get authentication_sources in
  let! source := deref (l !! i) in
  if negb (has_bits (source_present source)
             (Z.lor AUTH_NAME (Z.lor AUTH_PROVIDER_DOMAIN (Z.lor AUTH_TYPE AUTH_REQUIRED)))) then
    schema_error (B "authentication_sources")
      (B "source requires name, provider_domain, type, and required")
  else
    let! name := deref (source_name source) in
    let! type := deref (source_type source) in
    if ((name =b []) || (type =b []))%bool then
      schema_error (B "authentication_sources") (B "source name and type must not be empty")
    else
      let! earlier := strings (map source_name (firstn i l)) in
      if member name earlier then
        duplicate_error name (B "duplicate authentication source name")
      else ret tt.

Definition development_hash : bytes := B "$5$facet$j7FgoXidvJl10CTaW0nguGP3ZnvKnqS3/IHmDVliPQ9".

Definition validate_global_user (i : nat) (root_found : bool) : M bool :=
  let! l := config_get users in
  let! u := deref (l !! i) in
  validate_user u (B "users") ;;;
  let! name := deref (user_name u) in
  let! earlier := strings (map user_name (firstn i l)) in
  if member name earlier then duplicate_error name (B "duplicate global user")
  else if name =b B "root" then
    let! hash := deref (password_hash u) in
    if (negb (admin u) || negb (uid u =? 0) || negb (gid u =? 0) ||
        negb (hash =b development_hash))%bool then
      schema_error (B "root")
        (B "root must be uid/gid 0, admin, with the required development password hash")
    else ret true
  else ret root_found.

(** ** Domains *)

Definition update_domain (i : nat) (f : FacetConfigDomain -> FacetConfigDomain) : M unit :=
  modify_config (fun c => set_domains (alter f i (domains c)) c).

Definition validate_domain_user (d : FacetConfigDomain) (nm : bytes) (j : nat) : M unit :=
  let! u := deref (domain_users d !! j) in
  validate_user u nm ;;;
  let! name := deref (user_name u) in
  let! l := config_get users in
  let! global := strings (map user_name l) in
  if member name global then duplicate_error name (B "domain user duplicates global user")
  else
    let! earlier := strings (map user_name (firstn j (domain_users d))) in
    if member name earlier then duplicate_error name (B "duplicate domain user")
    else ret tt.

(** Resolve the j-th sink use of domain i. *)
Definition validate_domain_sink (i j : nat) : M unit :=
  let! ds := config_get domains in
  let! d := deref (ds !! i) in
  let! sink_use := deref (domain_sinks d !! j) in
  let! name := deref (use_name sink_use) in
  let! l := config_get logging_sinks in
  let! names := strings (map sink_name l) in
  match index_of (bytes_eqb name) names with
  | None => unresolved_error name (B "unknown logging sink")
  | Some k =>
      update_domain i (fun d => set_domain_sinks
        (alter (set_sink_definition_index k) j (domain_sinks d)) d) ;;;
      let! earlier := strings (map use_name (firstn j (domain_sinks d))) in
      if member name earlier then
        duplicate_error name (B "domain references a logging sink twice")
      else ret tt
  end.

(** The seat and terminal that a reference names: the last seat with the name and
    its first terminal with the name. *)
Definition resolve_terminal (l : list FacetConfigSeatDefinition) (seat_nm terminal_nm : bytes)
  : option (nat * nat) :=
  fold_left (fun found k =>
    match l !! k with
    | Some seat =>
        if bool_decide (seat_name seat = Some seat_nm) then
          match index_of (fun t => t =b terminal_nm) (seat_terminals seat) with
          | Some m => Some (k, m)
          | None => found
          end
        else found
    | None => found
    end) (seq 0 (length l)) None.

(** A terminal reference split at its only dot. *)
Definition split_reference (r : bytes) : option (bytes * bytes) :=
  match strchr r 46 with
  | None => None
  | Some d =>
      let terminal := skipn (S d) r in
      if ((d =? 0)%nat || (terminal =b []) || has_dot terminal)%bool then None
      else Some (firstn d r, terminal)
  end.

Definition terminal_slot (t : FacetConfigTerminalAssignment) : nat * nat :=
  (seat_index t, terminal_index t).

(** The terminals assigned before the j-th one of domain i. *)
Definition earlier_terminals (ds : list FacetConfigDomain) (i j : nat)
  : list FacetConfigTerminalAssignment :=
  mbind domain_terminals (firstn i ds) ++
  match ds !! i with Some d => firstn j (domain_terminals d) | None => [] end.

Definition validate_terminal_user (d : FacetConfigDomain) (run : option bytes) : M unit :=
  match run with
  | None => ret tt
  | Some name =>
      let! l := config_get users in
      let! global := strings (map user_name l) in
      let! local := strings (map user_name (domain_users d)) in
      if negb (member name global || member name local)%bool then
        unresolved_error name (B "unknown run_as user")
      else ret tt
  end.

Definition empty_string (p : option bytes) : bool := bool_decide (p = Some []).

Definition validate_terminal (i : nat) (nm : bytes) (j : nat) : M unit :=
  let! ds := config_get domains in
  let! d := deref (ds !! i) in
  let! t := deref (domain_terminals d !! j) in
  let native := bool_decide (personality d = FACET_CONFIG_PERSONALITY_NATIVE) in
  let expected := if native
    then Z.lor TERMINAL_REFERENCE (Z.lor TERMINAL_VIEW TERMINAL_INITIAL_PROCESS)
    else Z.lor TERMINAL_REFERENCE TERMINAL_DEVICE in
  if (negb (terminal_present t =? expected) &&
      negb (terminal_present t =? Z.lor expected TERMINAL_RUN_AS))%bool then
    schema_error nm (if native
      then B "native terminal requires terminal, view, and initial_process"
      else B "posix terminal requires terminal and device")
  else
    let! r := deref (reference t) in
    if ((r =b []) || empty_string (initial_process t) || empty_string (device_name t))%bool then
      schema_error nm (B "terminal assignment strings must not be empty")
    else
      validate_terminal_user d (run_as t) ;;;
      (if bool_decide (personality d = FACET_CONFIG_PERSONALITY_POSIX) then
         match j with
         | O => ret tt
         | S _ =>
             let! device := deref (device_name t) in
             let! earlier := strings (map device_name (firstn j (domain_terminals d))) in
             if member device earlier then
               duplicate_error device (B "duplicate posix domain-local device name")
             else ret tt
         end
       else ret tt) ;;;
      match split_reference r with
      | None => schema_error r (B "terminal reference must be seat.terminal")
      | Some (seat_nm, terminal_nm) =>
          let! l := config_get seats in
          strings (map seat_name l) ;;;
          match resolve_terminal l seat_nm terminal_nm with
          | None => unresolved_error r (B "unknown seat terminal")
          | Some (k, m) =>
              update_domain i (fun d => set_domain_terminals
                (alter (fun t => set_terminal_index m (set_seat_index k t)) j
                   (domain_terminals d)) d) ;;;
              let! ds := config_get domains in
              if existsb (fun other => bool_decide (terminal_slot other = (k, m)))
                   (earlier_terminals ds i j) then
                duplicate_error r (B "terminal is assigned to more than one domain")
              else ret tt
          end
      end.

Definition validate_domain_source (i : nat) (d : FacetConfigDomain) : M unit :=
  match authentication_source d with
  | None => ret tt
  | Some source =>
      let! l := config_get authentication_sources in
      let! names := strings (map source_name l) in
      match index_of (bytes_eqb source) names with
      | None => unresolved_error source (B "unknown authentication source")
      | Some j => update_domain i (set_authentication_source_index (Z.of_nat j))
      end
  end.

(** The earlier domains with the same id or name: the first one decides. *)
Fixpoint domain_conflict (d : FacetConfigDomain) (name : bytes) (l : list FacetConfigDomain)
  : M unit :=
  match l with
  | [] => ret tt
  | other :: l' =>
      if domain_id d =? domain_id other then duplicate_error name (B "duplicate domain id")
      else
        let! other_name := deref (domain_name other) in
        if name =b other_name then duplicate_error name (B "duplicate domain name")
        else domain_conflict d name l'
  end.

Definition domain_required : Z :=
  Z.lor DOMAIN_ID (Z.lor DOMAIN_NAME (Z.lor DOMAIN_PERSONALITY (Z.lor DOMAIN_MANAGER
    (Z.lor DOMAIN_SINKS (Z.lor DOMAIN_TERMINALS DOMAIN_INITRD))))).

(** The checks of a domain before its sinks and terminals are resolved; the
    result counts the domains with id 0. *)
Definition validate_domain_head (i : nat) (roots : nat) : M (nat * bytes) :=
  let! ds := config_get domains in
  let! d := deref (ds !! i) in
  if negb (has_bits (domain_present d) domain_required) then
    schema_error (B "domains") (B "domain is missing a required key")
  else
    let! name := deref (domain_name d) in
    if name =b [] then schema_error (B "domains.name") (B "domain name must not be empty")
    else
      match initrd d with
      | None => schema_error name (B "domain initrd must be a multiboot module name")
      | Some image =>
          if ((image =b []) || bool_decide (is_Some (strchr image 47)))%bool then
            schema_error name (B "domain initrd must be a multiboot module name")
          else
            let! images := strings (map initrd (firstn i ds)) in
            if member image images then
              duplicate_error image (B "initrd may be assigned to only one domain")
            else
              for_range (length (domain_users d)) (validate_domain_user d name) ;;;
              if bool_decide (personality d = FACET_CONFIG_PERSONALITY_VM) then
                schema_error name (B "vm domains are not supported by this configuration schema")
              else
                let! roots' := (if domain_id d =? 0
                                then modify_config (set_root_index i) ;;; ret (S roots)
                                else ret roots) in
                domain_conflict d name (firstn i ds) ;;;
                ret (roots', name)
      end.

(** The personality checks between the sinks and the terminals. *)
Definition validate_domain_pid1 (d : FacetConfigDomain) (name : bytes) : M unit :=
  if ((length (domain_sinks d) =? 0)%nat || (length (domain_terminals d) =? 0)%nat)%bool then
    schema_error name (B "domain requires at least one logging sink and terminal")
  else if (bool_decide (personality d = FACET_CONFIG_PERSONALITY_NATIVE) &&
           negb (Z.land (domain_present d) DOMAIN_PID1 =? 0))%bool then
    schema_error name (B "native domain must not specify pid1")
  else if bool_decide (personality d = FACET_CONFIG_PERSONALITY_POSIX) then
    if Z.land (domain_present d) DOMAIN_PID1 =? 0 then
      schema_error name (B "posix domain requires pid1")
    else
      let! p := deref (pid1 d) in
      if p =b [] then schema_error name (B "posix domain requires pid1") else ret tt
  else ret tt.

(** The rest of a domain's checks: its sinks, pid1, terminals and source. *)
Definition validate_domain_body (i : nat) (d : FacetConfigDomain) (name : bytes) : M unit :=
  for_range (length (domain_sinks d)) (validate_domain_sink i) ;;;
  validate_domain_pid1 d name ;;;
  for_range (length (domain_terminals d)) (validate_terminal i name) ;;;
  validate_domain_source i d.

Definition validate_domain (i : nat) (roots : nat) : M nat :=
  let! (roots', name) := validate_domain_head i roots in
  let! ds := config_get domains in
  let! d := deref (ds !! i) in
  validate_domain_body i d name ;;;
  ret roots'.

(** ** The whole configuration *)

Definition validate_provider (i : nat) : M unit :=
  let! l := config_get authentication_sources in
  let! source := deref (l !! i) in
  let! ds := config_get domains in
  match index_of (fun d => domain_id d =? provider_domain_id source) ds with
  | Some j =>
      modify_config (fun c => set_authentication_sources
        (alter (set_provider_domain_index j) i (authentication_sources c)) c)
  | None =>
      let! name := deref (source_name source) in
      unresolved_error name (B "authentication provider domain does not exist")
  end.

Definition validate_required : M unit :=
  let! seen := gets p_facet_seen in
  let! v := config_get version in
  if (negb seen || negb (v =? 1))%bool then
    schema_error (B "facet.version") (B "[facet] version = 1 is required")
  else
    let! sinks := config_get logging_sinks in
    for_range (length sinks) validate_sink ;;;
    let! ss := config_get seats in
    for_range (length ss) validate_seat ;;;
    let! sources := config_get authentication_sources in
    for_range (length sources) validate_source ;;;
    let! us := config_get users in
    let! root_found := fold_range (length us) 0 validate_global_user false in
    if negb root_found then schema_error (B "users") (B "a global root user is required")
    else
      let! ds := config_get domains in
      if (length ds =? 0)%nat then
        schema_error (B "domains") (B "at least one domain is required")
      else
        let! roots := fold_range (length ds) 0 validate_domain 0%nat in
        if negb (roots =? 1)%nat then
          schema_error (B "domains") (B "exactly one domain must have id 0")
        else
          for_range (length sources) validate_provider ;;;
          let! image := config_get seat_initrd in
          match image with
          | None | Some [] =>
              schema_error (B "facet.seat_initrd")
                (B "[facet] seat_initrd is required and must not be empty")
          | Some _ => ret tt
          end.
