(* ===== verification/ConfigParse.v ===== *)
(** The entry points of the configuration parser (src/config.c, lines 1569 to
    1774): the statement loop, the built-in fallback configuration, and the
    destruction of a configuration. *)
From S2P Require Import Prelude Utf8 ConfigTypes ConfigLexer ConfigValue ConfigApply.
From S2P Require Import ConfigValidate.

Section Parse.
Context (malloc_ok : nat -> bool).

(** One statement: a table header or an assignment, then the end of its line. *)
Definition parse_statement : M unit :=
  let! c := current in
  (if c =? 91 then parse_header malloc_ok
   else
     let! line := gets p_line in
     let! column := gets p_column in
     let! k := parse_key malloc_ok in
     skip_space_and_comments false ;;;
     let! c := take in
     if negb (c =? 61) then
       fail_at FACET_CONFIG_DIAGNOSTIC_SYNTAX line column (B "assignment") (B "expected '='")
     else
       skip_space_and_comments false ;;;
       let! v := parse_value malloc_ok (FACET_CONFIG_MAX_DEPTH + 2) 0 in
       apply_value malloc_ok k v line column) ;;;
  skip_space_and_comments false ;;;
  let! c := current in
  (if c =? 35 then skip_space_and_comments false else ret tt) ;;;
  let! c := current in
  (if ((0 <=? c) && negb (c =? 10))%bool then
     fail FACET_CONFIG_DIAGNOSTIC_SYNTAX (B "line")
       (B "unexpected data after value or table header")
   else ret tt) ;;;
  skip_space_and_comments true.

Fixpoint parse_loop (fuel : nat) : M unit :=
  let! c := current in
  if 0 <=? c then
    match fuel with
    | O => stuck
    | S f => parse_statement ;;; parse_loop f
    end
  else ret tt.

Definition parse_document : M unit :=
  skip_space_and_comments true ;;;
  let! n := gets (fun s => length (p_rest s)) in
  parse_loop n ;;;
  validate_required.

Definition initial_parser (data : bytes) (diagnostic : option FacetConfigDiagnostic) : Parser :=
  mkParser data 0 1 1 0 SECTION_NONE 0 false false zero_config diagnostic 0.

(** [facet_config_destroy] frees the strings and arrays and zeroes the record. *)
Definition facet_config_destroy (config : FacetSystemConfig) : FacetSystemConfig := zero_config.

(** The position of an offset: the fold of [advance] over the bytes before it. *)
Definition position (prefix : bytes) : nat * nat :=
  fold_left (fun pos c => advance c pos) prefix (1%nat, 1%nat).

(** The return code with the final contents of [*config] and [*diagnostic];
    [data], [config] and [diagnostic] may be null. *)
Definition facet_config_parse (data : option bytes) (size : nat)
    (config : option FacetSystemConfig) (diagnostic : option FacetConfigDiagnostic)
  : res unit * option FacetSystemConfig * option FacetConfigDiagnostic :=
  let diagnostic := (fun _ => zero_diagnostic) <$> diagnostic in
  match config, data with
  | None, _ => (Err, None, diagnostic)
  | Some _, None =>
      if negb (size =? 0)%nat then (Err, config, diagnostic)
      else
        let (r, s) := parse_document (initial_parser [] diagnostic) in
        match r with
        | Ok _ => (Ok tt, Some (p_config s), p_diagnostic s)
        | Err => (Err, Some (facet_config_destroy (p_config s)), p_diagnostic s)
        | Stuck => (Stuck, Some (p_config s), p_diagnostic s)
        end
  | Some _, Some buffer =>
      let bytes := firstn size buffer in
      let parser := initial_parser bytes diagnostic in
      if FACET_CONFIG_MAX_BYTES <? Z.of_nat size then
        let (r, s) := @fail unit FACET_CONFIG_DIAGNOSTIC_LIMIT (B "file")
                        (B "configuration exceeds 1 MiB limit") parser in
        (r, Some zero_config, p_diagnostic s)
      else match utf8_validate bytes with
      | Some bad_offset =>
          let (line, column) := position (firstn bad_offset bytes) in
          let (r, s) := @fail_at unit FACET_CONFIG_DIAGNOSTIC_UTF8 line column (B "file")
                          (B "configuration is not valid UTF-8") parser in
          (r, Some zero_config, p_diagnostic s)
      | None =>
          let (r, s) := parse_document parser in
          match r with
          | Ok _ => (Ok tt, Some (p_config s), p_diagnostic s)
          | Err => (Err, Some (facet_config_destroy (p_config s)), p_diagnostic s)
          | Stuck => (Stuck, Some (p_config s), p_diagnostic s)
          end
      end
  end.

(** The built-in configuration text. *)
Definition fallback : bytes :=
  QL "[facet]" ++
  QL "version = 1" ++
  QL "seat_initrd = `dominit0.initrd`" ++
  QL "[[logging_sinks]]" ++
  QL "name = `bochs-debug`" ++
  QL "type = `platform.x86.bochs-debug`" ++
  QL "required = true" ++
  QL "[[authentication_sources]]" ++
  QL "name = `system`" ++
  QL "provider_domain = 0" ++
  QL "type = `local`" ++
  QL "required = true" ++
  QL "[[users]]" ++
  QL "name = `root`" ++
  QL "password_hash = `$5$facet$j7FgoXidvJl10CTaW0nguGP3ZnvKnqS3/IHmDVliPQ9`" ++
  QL "admin = true" ++
  QL "uid = 0" ++
  QL "gid = 0" ++
  QL "home_path = `/root`" ++
  QL "posix_shell = `/bin/sh`" ++
  QL "[[users]]" ++
  QL "name = `user`" ++
  QL "password_hash = `$5$facet$j7FgoXidvJl10CTaW0nguGP3ZnvKnqS3/IHmDVliPQ9`" ++
  QL "admin = false" ++
  QL "uid = 1000" ++
  QL "gid = 1000" ++
  QL "home_path = `/home/user`" ++
  QL "posix_shell = `/bin/sh`" ++
  QL "[[seats]]" ++
  QL "name = `seat0`" ++
  QL "type = `serial`" ++
  QL "server = `/FacetOS/seat-server-serial`" ++
  QL "terminals = [`ttyS0`]" ++
  QL "[[seats]]" ++
  QL "name = `seat1`" ++
  QL "type = `local`" ++
  QL "server = `/FacetOS/seat-server-pc-console`" ++
  QL "terminals = [`tty1`, `tty2`, `tty3`, `tty4`, `tty5`]" ++
  QL "[[domains]]" ++
  QL "id = 0" ++
  QL "name = `system`" ++
  QL "personality = `native`" ++
  QL "domain_manager = `local`" ++
  QL "initrd = `system.initrd`" ++
  QL "authentication_source = `system`" ++
  QL "logging_sinks = [{ name = `bochs-debug`, level = `debug` }]" ++
  QB "terminals = [" ++
  QB "{ terminal = `seat0.ttyS0`, view = `native`, initial_process = `/FacetOS/FacetLogin` }," ++
  QB "{ terminal = `seat1.tty1`, view = `native`, initial_process = `/FacetOS/FacetLogin` }," ++
  QL "{ terminal = `seat1.tty2`, view = `posix`, initial_process = `/bin/login` }]" ++
  QL "[[domains]]" ++
  QL "id = 1" ++
  QL "name = `posix`" ++
  QL "personality = `posix`" ++
  QL "domain_manager = `local`" ++
  QL "pid1 = `/sbin/init`" ++
  QL "initrd = `child.initrd`" ++
  QL "authentication_source = `system`" ++
  QL "logging_sinks = [{ name = `bochs-debug`, level = `info` }]" ++
  QL "terminals = [{ terminal = `seat1.tty3`, device = `tty3` }]".

Definition facet_config_make_fallback (config : option FacetSystemConfig)
    (diagnostic : option FacetConfigDiagnostic) :=
  facet_config_parse (Some fallback) (length fallback) config diagnostic.

Definition facet_config_diagnostic_category_name (c : FacetConfigDiagnosticCategory) : bytes :=
  match c with
  | FACET_CONFIG_DIAGNOSTIC_NONE => B "none"
  | FACET_CONFIG_DIAGNOSTIC_SYNTAX => B "syntax"
  | FACET_CONFIG_DIAGNOSTIC_UTF8 => B "utf8"
  | FACET_CONFIG_DIAGNOSTIC_LIMIT => B "limit"
  | FACET_CONFIG_DIAGNOSTIC_UNSUPPORTED_VERSION => B "unsupported-version"
  | FACET_CONFIG_DIAGNOSTIC_SCHEMA => B "schema"
  | FACET_CONFIG_DIAGNOSTIC_DUPLICATE => B "duplicate"
  | FACET_CONFIG_DIAGNOSTIC_UNRESOLVED_REFERENCE => B "unresolved-reference"
  | FACET_CONFIG_DIAGNOSTIC_OUT_OF_MEMORY => B "out-of-memory"
  end.

End Parse.
