(* ===== verification/ConfigWp.v ===== *)
(** Reasoning about the configuration parser: weakest preconditions for its
    monad, the invariant of the input cursor, and the specifications of the
    lexical functions. *)
From S2P Require Import Prelude Utf8 ConfigTypes ConfigLexer.

(** ** Weakest preconditions *)

(** [m] run from [s] is not stuck, returns with [Q], or fails with [E]. *)
Definition wp {A} (m : M A) (Q : A -> Parser -> Prop) (E : Parser -> Prop) (s : Parser) : Prop :=
  match m s with
  | (Ok a, s') => Q a s'
  | (Err, s') => E s'
  | (Stuck, _) => False
  end.

Lemma wp_ret {A} (a : A) Q E s : Q a s -> wp (ret a) Q E s.
Proof. done. Qed.

Lemma wp_bind {A C} (m : M A) (k : A -> M C) Q E s :
  wp m (fun a s' => wp (k a) Q E s') E s -> wp (bind m k) Q E s.
Proof. unfold wp, bind. by destruct (m s) as [[a| |] s']. Qed.

Lemma wp_mono {A} (m : M A) Q Q' E s :
  wp m Q E s -> (forall a s', Q a s' -> Q' a s') -> wp m Q' E s.
Proof. unfold wp. destruct (m s) as [[a| |] s']; eauto. Qed.

(** Run [m], whose specification is known, then continue. *)
Lemma wp_use {A C} (m : M A) (k : A -> M C) Q Q' E s :
  wp m Q E s -> (forall a s', Q a s' -> wp (k a) Q' E s') -> wp (bind m k) Q' E s.
Proof. intros H1 H2. apply wp_bind. by eapply wp_mono. Qed.

Lemma wp_gets {A C} (f : Parser -> A) (k : A -> M C) Q E s :
  wp (k (f s)) Q E s -> wp (bind (gets f) k) Q E s.
Proof. done. Qed.

Lemma wp_modify {C} f (k : unit -> M C) Q E s :
  wp (k tt) Q E (f s) -> wp (bind (modify f) k) Q E s.
Proof. done. Qed.

Lemma wp_ret_bind {A C} (a : A) (k : A -> M C) Q E s :
  wp (k a) Q E s -> wp (bind (ret a) k) Q E s.
Proof. done. Qed.

Lemma wp_deref {A} (p : option A) (Q : A -> Parser -> Prop) E s :
  is_Some p -> (forall a, p = Some a -> Q a s) -> wp (deref p) Q E s.
Proof. intros [a ->] H. by apply H. Qed.

(** A loop with an invariant indexed by the counter. *)
Lemma wp_fold_range {A} (body : nat -> A -> M A) E count (Inv : nat -> A -> Parser -> Prop) :
  forall from a s,
  Inv from a s ->
  (forall i a s, (from <= i < from + count)%nat -> Inv i a s ->
     wp (body i a) (fun a' s' => Inv (S i) a' s') E s) ->
  wp (fold_range count from body a) (fun a' s' => Inv (from + count)%nat a' s') E s.
Proof.
  induction count as [|n IH]; intros from a s H0 Hb; simpl.
  - rewrite Nat.add_0_r. by apply wp_ret.
  - eapply wp_use; [apply Hb; [lia|done]|]. intros a' s' H'.
    replace (from + S n)%nat with (S from + n)%nat by lia.
    apply IH; [done|]. intros; apply Hb; [lia|done].
Qed.

(** ** The cursor invariant *)

Definition position_of (prefix : bytes) (pos : nat * nat) : nat * nat :=
  fold_left (fun p c => advance c p) prefix pos.

(** The diagnostic after a failure. *)
Definition reported (d0 : option FacetConfigDiagnostic) (s : Parser) : Prop :=
  p_failed s = true /\
  match d0 with
  | None => p_diagnostic s = None
  | Some _ =>
      exists d, p_diagnostic s = Some d /\ category d <> FACET_CONFIG_DIAGNOSTIC_NONE /\
                (length (context d) <= 95)%nat /\ (length (message d) <= 191)%nat
  end.

(** The state of a parser that has consumed a prefix of [data] and not failed. *)
Record cursor (data : bytes) (d0 : option FacetConfigDiagnostic) (s : Parser) : Prop := {
  cursor_le : (p_offset s <= length data)%nat;
  cursor_rest : p_rest s = skipn (p_offset s) data;
  cursor_position : (p_line s, p_column s) = position_of (firstn (p_offset s) data) (1%nat, 1%nat);
  cursor_entries : 0 <= p_entry_count s <= FACET_CONFIG_MAX_ENTRIES;
  cursor_failed : p_failed s = false;
  cursor_diagnostic : p_diagnostic s = d0
}.

(** A lexical step moves the cursor forward and leaves the rest alone. *)
Record moves (s s' : Parser) : Prop := {
  moves_offset : (p_offset s <= p_offset s')%nat;
  moves_config : p_config s' = p_config s;
  moves_section : p_section s' = p_section s;
  moves_section_index : p_section_index s' = p_section_index s;
  moves_facet_seen : p_facet_seen s' = p_facet_seen s
}.

Lemma moves_refl s : moves s s.
Proof. by constructor. Qed.

Lemma moves_trans s1 s2 s3 : moves s1 s2 -> moves s2 s3 -> moves s1 s3.
Proof. intros [] []. constructor; (lia || congruence). Qed.

#[export] Hint Resolve moves_refl : facet.
#[export] Hint Resolve moves_trans : facet.

Section LexerSpecs.
Context (malloc_ok : nat -> bool) (data : bytes) (d0 : option FacetConfigDiagnostic).

Abbreviation I := (cursor data d0).
Abbreviation E := (reported d0).

(** A specification in which [Q] relates start state, result and end state. *)
Definition lex {A} (m : M A) (Q : Parser -> A -> Parser -> Prop) (s : Parser) : Prop :=
  wp m (fun a s' => I s' /\ moves s s' /\ Q s a s') E s.

Lemma cursor_length s : I s -> length (p_rest s) = (length data - p_offset s)%nat.
Proof. intros []. rewrite cursor_rest0. apply length_skipn. Qed.

Lemma wp_fail_at {A} cat l c ctx msg (Q : A -> Parser -> Prop) s :
  I s -> cat <> FACET_CONFIG_DIAGNOSTIC_NONE -> wp (fail_at cat l c ctx msg) Q E s.
Proof.
  intros [] Hc. unfold wp, fail_at. rewrite cursor_failed0, cursor_diagnostic0.
  split; [by destruct d0|].
  destruct d0; simpl; [|done]. eexists. split; [done|]. split; [exact Hc|].
  cbn [context message]. rewrite !length_firstn. lia.
Qed.

Lemma wp_fail {A} cat ctx msg (Q : A -> Parser -> Prop) s :
  I s -> cat <> FACET_CONFIG_DIAGNOSTIC_NONE -> wp (fail cat ctx msg) Q E s.
Proof. intros. unfold wp, fail. by apply wp_fail_at. Qed.

Lemma wp_out_of_memory {A} ctx (Q : A -> Parser -> Prop) s :
  I s -> wp (out_of_memory ctx) Q E s.
Proof. intros. by apply wp_fail. Qed.

Lemma lex_allocate s : I s -> lex (allocate malloc_ok) (fun s _ s' => p_offset s' = p_offset s) s.
Proof. intros []. unfold lex, wp. simpl. repeat split; try done; simpl; lia. Qed.

(** Allocate, then continue when it succeeds. *)
Lemma wp_allocate {A} ctx (k : M A) (Q : A -> Parser -> Prop) s :
  I s ->
  (forall s', I s' -> moves s s' -> p_offset s' = p_offset s -> wp k Q E s') ->
  wp (let! ok := allocate malloc_ok in if negb ok then out_of_memory ctx else k) Q E s.
Proof.
  intros HI Hk. eapply wp_use; [by apply lex_allocate|].
  intros [] s' (HI' & Hm & Ho); simpl; [by apply Hk|by apply wp_out_of_memory].
Qed.

Lemma lex_consume_entry l c ctx s :
  I s -> lex (consume_entry l c ctx) (fun s _ s' => p_offset s' = p_offset s) s.
Proof.
  intros HI. unfold lex, consume_entry. apply wp_gets.
  destruct (_ <=? _) eqn:E1; [by apply wp_fail_at|].
  unfold wp. simpl. destruct HI. repeat split; try done; simpl; lia.
Qed.

(** What [take] does to the input. *)
Definition taken (s : Parser) (c : Z) (s' : Parser) : Prop :=
  match p_rest s with
  | [] => c = -1 /\ s' = s
  | b :: rest => c = b /\ p_rest s' = rest /\ p_offset s' = S (p_offset s)
  end.

Lemma lex_take s : I s -> lex take taken s.
Proof.
  intros HI. unfold lex, wp, take, taken. destruct (p_rest s) as [|b rest] eqn:Er.
  { eauto with facet. }
  destruct (advance b (p_line s, p_column s)) as [l c] eqn:Ea. simpl.
  pose proof (cursor_length _ HI) as Hlen. destruct HI. rewrite Er in *. simpl in Hlen.
  assert (data !! p_offset s = Some b) as Hb.
  { rewrite <- (Nat.add_0_r (p_offset s)), <- lookup_drop.
    rewrite <- cursor_rest0. done. }
  split; [|split; [constructor; simpl; (lia || done)|done]].
  constructor; simpl; try done; try lia.
  - rewrite (drop_S _ _ _ Hb) in cursor_rest0. by simplify_eq.
  - unfold position_of. erewrite take_S_r by done. rewrite fold_left_app. simpl.
    fold (position_of (firstn (p_offset s) data) (1%nat, 1%nat)).
    rewrite <- cursor_position0. done.
Qed.

(** The byte under the cursor. *)
Definition cur (s : Parser) : Z := match p_rest s with c :: _ => c | [] => -1 end.

Lemma wp_current {A} (k : Z -> M A) Q E' s :
  wp (k (cur s)) Q E' s -> wp (let! c := current in k c) Q E' s.
Proof. done. Qed.

Lemma taken_nonneg s c s' : taken s c s' -> c <> -1 -> p_offset s' = S (p_offset s).
Proof. unfold taken. destruct (p_rest s); [intros [] ?; done|intros (_ & _ & ->) _; done]. Qed.

Lemma cur_nonneg s : 0 <= cur s -> exists b rest, p_rest s = b :: rest /\ cur s = b.
Proof. unfold cur. destruct (p_rest s); [lia|eauto]. Qed.

(** Taking a byte that the code has seen. *)
Lemma lex_take_seen s :
  I s -> 0 <= cur s ->
  lex take (fun s c s' => c = cur s /\ p_rest s = c :: p_rest s' /\ p_offset s' = S (p_offset s)) s.
Proof.
  intros HI Hc. eapply wp_mono; [by apply lex_take|]. intros c s' (HI' & Hm & Ht).
  destruct (cur_nonneg s Hc) as (b & rest & Er & Ec).
  unfold taken in Ht. rewrite Er in Ht. destruct Ht as (-> & <- & Ho). eauto 10.
Qed.

(** Fewer bytes remain after a step that consumed some. *)
Lemma rest_shorter s s' :
  I s -> I s' -> (p_offset s < p_offset s')%nat ->
  (length (p_rest s') < length (p_rest s))%nat.
Proof.
  intros H H' Ho. rewrite (cursor_length _ H), (cursor_length _ H').
  destruct H, H'. lia.
Qed.

Lemma rest_le s s' :
  I s -> I s' -> (p_offset s <= p_offset s')%nat ->
  (length (p_rest s') <= length (p_rest s))%nat.
Proof. intros H H' Ho. rewrite (cursor_length _ H), (cursor_length _ H'). lia. Qed.

Lemma cur_nil s : (length (p_rest s) <= 0)%nat -> cur s = -1.
Proof. unfold cur. destruct (p_rest s); simpl; [done|lia]. Qed.

Lemma lex_skip_comment fuel s :
  I s -> (length (p_rest s) <= fuel)%nat ->
  lex (skip_comment fuel)
    (fun s _ s' => 0 <= cur s -> cur s <> 10 -> (p_offset s < p_offset s')%nat) s.
Proof.
  revert s. induction fuel as [|f IH]; intros s HI Hf; simpl; apply wp_current.
  - rewrite cur_nil by done. simpl. apply wp_ret.
    split; [done|]. split; [apply moves_refl|intros; lia].
  - destruct (_ && _)%bool eqn:Ec;
      [|apply wp_ret; split; [done|split; [apply moves_refl|intros; bool_props; lia]]].
    eapply wp_use; [apply lex_take_seen; [done|lia]|].
    intros c s' (HI' & Hm & _ & _ & Ho).
    eapply wp_mono; [apply IH; [done|pose proof (rest_shorter s s' HI HI'); lia]|].
    intros [] s2 (HI2 & Hm2 & _). split; [done|]. split; [by eapply moves_trans|].
    intros _ _. destruct Hm2. lia.
Qed.

Lemma lex_skip_loop fuel b s :
  I s -> (length (p_rest s) <= fuel)%nat -> lex (skip_loop fuel b) (fun _ _ _ => True) s.
Proof.
  revert s. induction fuel as [|f IH]; intros s HI Hf; simpl; apply wp_current.
  - rewrite cur_nil by done. simpl. rewrite andb_false_r. simpl.
    apply wp_ret. eauto with facet.
  - destruct (_ || _)%bool eqn:Ec.
    + eapply wp_use; [apply lex_take_seen; [done|destruct b; simpl in Ec; lia]|].
      intros c s' (HI' & Hm & _ & _ & Ho). pose proof (rest_shorter s s' HI HI').
      eapply wp_mono; [apply IH; [done|lia]|].
      intros [] s2 (? & ? & _). eauto with facet.
    + destruct (cur s =? 35) eqn:E35; [|apply wp_ret; eauto with facet]. apply wp_gets.
      eapply wp_use; [by apply lex_skip_comment|]. intros [] s' (HI' & Hm & Ho).
      destruct b; simpl; [|apply wp_ret; eauto with facet].
      pose proof (rest_shorter s s' HI HI').
      eapply wp_mono; [apply IH; [done|lia]|].
      intros [] s2 (? & ? & _). eauto with facet.
Qed.

Lemma lex_skip b s : I s -> lex (skip_space_and_comments b) (fun _ _ _ => True) s.
Proof. intros HI. apply wp_gets. by apply lex_skip_loop. Qed.

End LexerSpecs.
