(* ===== verification/ConfigStrings.v ===== *)
(** Strings and keys of the configuration language: buffers never overflow, and
    every string that the lexer returns is UTF-8, free of NUL and within the
    configured limit when the document is UTF-8. *)
From S2P Require Import Prelude Utf8 ConfigTypes ConfigLexer ConfigWp.

(** A string as the rest of the program may receive it. *)
Definition string_ok (s : bytes) : Prop :=
  utf8 s /\ Forall (fun b => 0 < b < 256) s /\ zlen s <= FACET_CONFIG_MAX_STRING_BYTES.

(** The buffer has room for its bytes and the terminating NUL. *)
Definition buffer_ok (sb : StringBuffer) : Prop :=
  Forall (fun b => 0 < b < 256) (sb_bytes sb) /\
  used sb <= FACET_CONFIG_MAX_STRING_BYTES /\
  ((sb_capacity sb = 0 /\ sb_bytes sb = []) \/
   (32 <= sb_capacity sb /\ used sb + 1 <= sb_capacity sb <= FACET_CONFIG_MAX_STRING_BYTES + 1)).

Section Strings.
Context (malloc_ok : nat -> bool) (data : bytes) (d0 : option FacetConfigDiagnostic).

Abbreviation I := (cursor data d0).
Abbreviation E := (reported d0).
Abbreviation lex := (lex data d0).

(** ** Buffers *)

Lemma lex_duplicate_bytes l s :
  I s ->
  lex (duplicate_bytes malloc_ok l)
    (fun s r s' => r = l /\ zlen l <= FACET_CONFIG_MAX_STRING_BYTES /\ p_offset s' = p_offset s) s.
Proof.
  intros HI. unfold duplicate_bytes. destruct (_ <? _) eqn:El; [by eapply wp_fail|].
  eapply wp_allocate; [done|]. intros s' HI' Hm Ho. apply wp_ret.
  split; [done|]. split; [done|]. repeat split; [lia|done].
Qed.

Lemma lex_append_raw_byte sb byte s :
  I s -> buffer_ok sb -> 0 < byte < 256 ->
  lex (append_raw_byte malloc_ok sb byte)
    (fun s sb' s' => buffer_ok sb' /\ sb_bytes sb' = sb_bytes sb ++ [byte] /\
                     p_offset s' = p_offset s) s.
Proof.
  intros HI (Hnz & Hu & Hc) Hb. unfold append_raw_byte.
  destruct (_ <=? _) eqn:El; [by eapply wp_fail|].
  assert (used (mkBuffer (sb_bytes sb ++ [byte]) 0) = used sb + 1) as Hu'
    by (unfold used; simpl; rewrite zlen_app; done).
  assert (Forall (fun b => 0 < b < 256) (sb_bytes sb ++ [byte])) as Hnz'
    by (apply Forall_app; split; [done|by constructor]).
  assert (0 <= used sb) as Hpos by apply zlen_nonneg.
  assert (sb_capacity sb = 0 -> used sb = 0) as H0.
  { intros E0. destruct Hc as [[_ Hnil]|Hc]; [unfold used; by rewrite Hnil|lia]. }
  apply wp_bind. destruct (_ <? _) eqn:Ec.
  - eapply wp_allocate; [done|]. intros s' HI' Hm Ho. apply wp_ret, wp_ret.
    split; [done|]. split; [done|]. split; [|done]. split; [done|].
    unfold FACET_CONFIG_MAX_STRING_BYTES in *. unfold used in *; cbn [sb_bytes sb_capacity] in *.
    split; [lia|]. right. destruct (sb_capacity sb =? 0) eqn:E0; case_goal; lia.
  - apply wp_ret, wp_ret. split; [done|]. split; [apply moves_refl|]. split; [|done].
    split; [done|]. unfold FACET_CONFIG_MAX_STRING_BYTES in *.
    unfold used in *; cbn [sb_bytes sb_capacity] in *. split; [lia|]. right. lia.
Qed.

Lemma utf8_encode_nonzero v :
  unicode_scalar v -> v <> 0 -> Forall (fun b => 0 < b < 256) (utf8_encode v).
Proof.
  intros Hv Hne. destruct (decide (0x80 <= v)).
  - destruct Hv. apply Forall_and; split.
    + eapply Forall_impl; [by apply utf8_encode_high|]. simpl. lia.
    + eapply Forall_impl; [by apply utf8_encode_ok|]. unfold byte_ok. lia.
  - destruct Hv. rewrite utf8_encode_ascii by lia. constructor; [lia|done].
Qed.

Lemma utf8_count_range v : 1 <= utf8_count v <= 4.
Proof. unfold utf8_count. repeat case_goal; lia. Qed.

Lemma lex_append_utf8 sb v s :
  I s -> buffer_ok sb -> 0 < v ->
  lex (append_utf8 malloc_ok sb v)
    (fun s sb' s' => buffer_ok sb' /\ unicode_scalar v /\
       sb_bytes sb' = sb_bytes sb ++ utf8_encode v /\ p_offset s' = p_offset s) s.
Proof.
  intros HI (Hnz & Hu & Hc) Hv. unfold append_utf8.
  destruct (scalar_ok v) eqn:Hs; simpl; [|by eapply wp_fail].
  apply scalar_ok_spec in Hs; [|lia].
  destruct (_ <? used sb) eqn:El; [by eapply wp_fail|].
  pose proof (utf8_count_range v) as Hcount.
  assert (zlen (utf8_encode v) = utf8_count v) as Hlen
    by (apply utf8_encode_length; destruct Hs; lia).
  assert (used (mkBuffer (sb_bytes sb ++ utf8_encode v) 0) = used sb + utf8_count v) as Hu'
    by (unfold used; simpl; rewrite zlen_app; lia).
  assert (Forall (fun b => 0 < b < 256) (sb_bytes sb ++ utf8_encode v)) as Hnz'
    by (apply Forall_app; split; [done|apply utf8_encode_nonzero; [done|lia]]).
  assert (0 <= used sb) as Hpos by apply zlen_nonneg.
  assert (sb_capacity sb = 0 -> used sb = 0) as H0.
  { intros E0. destruct Hc as [[_ Hnil]|Hc]; [unfold used; by rewrite Hnil|lia]. }
  apply wp_bind. destruct (sb_capacity sb <? _) eqn:Ec.
  - apply wp_bind. cbn [grow_capacity].
    rewrite (proj2 (Z.ltb_ge (if sb_capacity sb =? 0 then _ else _) _))
      by (destruct (sb_capacity sb =? 0) eqn:E0; lia).
    apply wp_ret; eapply wp_allocate; [done|]. intros s' HI' Hm Ho. apply wp_ret, wp_ret.
    split; [done|]. split; [done|]. split; [|done]. split; [done|].
    unfold FACET_CONFIG_MAX_STRING_BYTES in *. unfold used in *; cbn [sb_bytes sb_capacity] in *.
    split; [lia|]. right. destruct (sb_capacity sb =? 0) eqn:E0; case_goal; lia.
  - apply wp_ret, wp_ret. split; [done|]. split; [apply moves_refl|]. split; [|done].
    split; [done|]. unfold FACET_CONFIG_MAX_STRING_BYTES in *.
    unfold used in *; cbn [sb_bytes sb_capacity] in *. split; [lia|]. right. lia.
Qed.

(** ** Slices of the document *)

(** The bytes consumed between two offsets. *)
Definition slice (n m : nat) : bytes := skipn n (firstn m data).

(** Offset [n] follows an ASCII byte. *)
Definition boundary (n : nat) : Prop :=
  exists pre c, firstn n data = pre ++ [c] /\ 0 <= c < 0x80.

Lemma firstn_step s s' c :
  I s -> p_rest s = c :: p_rest s' -> p_offset s' = S (p_offset s) ->
  firstn (p_offset s') data = firstn (p_offset s) data ++ [c].
Proof.
  intros HI Er ->. apply take_S_r.
  rewrite <- (Nat.add_0_r (p_offset s)), <- lookup_drop, <- (cursor_rest _ _ _ HI), Er. done.
Qed.

Lemma slice_step n s s' c :
  I s -> (n <= p_offset s)%nat -> p_rest s = c :: p_rest s' -> p_offset s' = S (p_offset s) ->
  slice n (p_offset s') = slice n (p_offset s) ++ [c].
Proof.
  intros HI Hn Er Ho. unfold slice. erewrite firstn_step by done.
  apply drop_app_le. rewrite length_firstn. pose proof (cursor_le _ _ _ HI). lia.
Qed.

Lemma slice_nil n : slice n n = [].
Proof. unfold slice. apply drop_ge. rewrite length_firstn. lia. Qed.

Context (Hok : bytes_ok data) (Hutf : utf8 data).

Lemma cur_ok s : I s -> cur s = -1 \/ byte_ok (cur s).
Proof.
  intros HI. unfold cur. destruct (p_rest s) as [|b r] eqn:Er; [by left|right].
  pose proof (Forall_drop _ (p_offset s) _ Hok) as Hd.
  rewrite <- (cursor_rest _ _ _ HI), Er in Hd. by inversion Hd.
Qed.

(** A slice between a boundary and an ASCII byte is UTF-8. *)
Lemma slice_utf8 n s c r :
  I s -> boundary n -> (n <= p_offset s)%nat -> p_rest s = c :: r -> 0 <= c < 0x80 ->
  utf8 (slice n (p_offset s)).
Proof.
  intros HI (pre & x & Ep & Hx) Hn Er Hc.
  assert (data = (pre ++ x :: slice n (p_offset s)) ++ c :: r) as Ed.
  { rewrite <- Er, (cursor_rest _ _ _ HI).
    replace (pre ++ x :: slice n (p_offset s)) with (firstn (p_offset s) data);
      [by rewrite take_drop|].
    change (x :: slice n (p_offset s)) with ([x] ++ slice n (p_offset s)).
    rewrite app_assoc, <- Ep. unfold slice.
    rewrite <- (take_drop n (firstn (p_offset s) data)) at 1.
    rewrite take_take. do 2 f_equal. lia. }
  rewrite Ed in Hutf. apply utf8_split in Hutf as [H1 _]; [|done].
  by apply utf8_split in H1 as [_ H2].
Qed.

(** ** Escapes *)

Lemma hex_digit_range c : hex_digit c = -1 \/ (0 <= hex_digit c < 16 /\ 0 <= c < 0x80).
Proof. unfold hex_digit. repeat case_goal; bool_props; lia. Qed.

(** Taking an ASCII byte ends at a boundary. *)
Lemma boundary_take s s' c :
  I s -> p_rest s = c :: p_rest s' -> p_offset s' = S (p_offset s) -> 0 <= c < 0x80 ->
  boundary (p_offset s').
Proof. intros HI Er Ho Hc. exists (firstn (p_offset s) data), c. split; [by eapply firstn_step|done]. Qed.

Lemma boundary_taken s s' c :
  I s -> taken s c s' -> 0 <= c < 0x80 -> boundary (p_offset s').
Proof.
  intros HI Ht Hc. unfold taken in Ht. destruct (p_rest s) as [|b r] eqn:Er; [lia|].
  destruct Ht as (-> & <- & Ho). by eapply boundary_take.
Qed.

Lemma lex_unicode_digits n v s :
  I s -> 0 <= v < 2 ^ 32 ->
  (n = 0%nat -> boundary (p_offset s)) ->
  lex (unicode_digits n v) (fun s r s' => 0 <= r < 2 ^ 32 /\ boundary (p_offset s')) s.
Proof.
  revert v s. induction n as [|n IH]; intros v s HI Hv Hb; simpl.
  - apply wp_ret. split; [done|]. split; [apply moves_refl|]. auto.
  - eapply wp_use; [by apply lex_take|]. intros c s' (HI' & Hm & Ht).
    destruct (hex_digit_range c) as [->|[Hd Hc]]; [by eapply wp_fail|].
    destruct (_ <? 0) eqn:E0; [lia|].
    eapply wp_mono; [apply IH; [done| |]|].
    + apply lor_range; [lia| |lia]. unfold u32. apply Z.mod_pos_bound. lia.
    + intros _. by apply (boundary_taken s _ c).
    + intros r s2 (? & ? & ?). split; [done|]. split; [by eapply moves_trans|done].
Qed.

Lemma lex_string_escape s :
  I s -> lex string_escape (fun s r s' => 0 <= r < 2 ^ 32 /\ boundary (p_offset s')) s.
Proof.
  intros HI. unfold string_escape. eapply wp_use; [by apply lex_take|].
  intros c s' (HI' & Hm & Ht).
  repeat match goal with
  | |- context [if c =? ?x then _ else _] =>
      destruct (c =? x) eqn:?; [|]; bool_props
  end.
  1-7: apply wp_ret; (split; [done|]; split; [done|]; split; [lia|];
    eapply boundary_taken; [exact HI|exact Ht|lia]).
  3: by eapply wp_fail.
  all: eapply wp_mono;
    [apply lex_unicode_digits; [done|lia|done]|];
    intros r s2 (? & ? & ?); (split; [done|]; split; [by eapply moves_trans|done]).
Qed.

(** ** Quoted strings *)

(** The buffer holds a UTF-8 part followed by the bytes copied since a boundary. *)
Definition buffer_tracks (sb : StringBuffer) (s : Parser) : Prop :=
  exists n done, boundary n /\ (n <= p_offset s)%nat /\ utf8 done /\
                 sb_bytes sb = done ++ slice n (p_offset s).

Lemma lex_quoted_character quote sb s :
  I s -> buffer_ok sb -> buffer_tracks sb s -> 0 <= cur s ->
  lex (quoted_character malloc_ok quote sb)
    (fun s sb' s' => buffer_ok sb' /\ buffer_tracks sb' s' /\ (p_offset s < p_offset s')%nat) s.
Proof.
  intros HI Hb (n & part & Hn & Hle & Hpart & Ebytes) Hcur.
  destruct (cur_ok s HI) as [|Hbyte]; [lia|]. unfold byte_ok in Hbyte.
  unfold quoted_character. eapply wp_use; [by apply lex_take_seen|].
  intros c s1 (HI1 & Hm1 & -> & Er & Ho). destruct (_ || _)%bool eqn:Enl; [by eapply wp_fail|].
  destruct ((quote =? 34) && (cur s =? 92))%bool eqn:Eesc.
  - eapply wp_use; [by apply lex_string_escape|]. intros v s2 (HI2 & Hm2 & Hv & Hb2).
    destruct (v =? 0) eqn:E0; [by eapply wp_fail|]. simpl negb. cbn [andb].
    eapply wp_mono; [apply lex_append_utf8; [done|done|lia]|].
    intros sb' s3 (HI3 & Hm3 & Hb' & Hsc & Ebytes' & Ho3).
    pose proof (moves_offset _ _ Hm2).
    split; [done|]. split; [eauto using moves_trans|]. split; [done|]. split; [|lia].
    exists (p_offset s3), (sb_bytes sb'). rewrite Ho3, slice_nil, app_nil_r.
    split; [done|]. split; [lia|]. split; [|done].
    rewrite Ebytes', Ebytes. bool_props. rewrite <- app_assoc.
    apply utf8_app; [done|]. apply utf8_app; [|by apply utf8_encode_utf8].
    eapply slice_utf8; [done|done|done|exact Er|lia].
  - apply wp_ret_bind. destruct (cur s =? 0) eqn:E0; [by eapply wp_fail|].
    destruct (negb false && _)%bool eqn:Ectl; [by eapply wp_fail|].
    assert (u8 (cur s) = cur s) as -> by (unfold u8; apply Z.mod_small; lia).
    eapply wp_mono; [apply lex_append_raw_byte; [done|done|lia]|].
    intros sb' s3 (HI3 & Hm3 & Hb' & Ebytes' & Ho3).
    split; [done|]. split; [by eapply moves_trans|]. split; [done|]. split; [|lia].
    exists n, part. split; [done|]. split; [lia|]. split; [done|].
    rewrite Ebytes', Ebytes, Ho3, <- app_assoc. f_equal. symmetry. by eapply slice_step.
Qed.

Lemma lex_quoted_loop fuel quote sb s :
  I s -> buffer_ok sb -> buffer_tracks sb s -> (length (p_rest s) <= fuel)%nat ->
  lex (quoted_loop malloc_ok fuel quote sb)
    (fun s sb' s' => buffer_ok sb' /\ buffer_tracks sb' s') s.
Proof.
  revert sb s. induction fuel as [|f IH]; intros sb s HI Hb Ht Hf; simpl; apply wp_current.
  - rewrite cur_nil by done. simpl. apply wp_ret. eauto with facet.
  - destruct (_ && _)%bool eqn:Ec; [|apply wp_ret; eauto with facet].
    eapply wp_use; [apply lex_quoted_character; eauto; lia|].
    intros sb' s' (HI' & Hm & Hb' & Ht' & Ho).
    pose proof (rest_shorter _ _ s s' HI HI').
    eapply wp_mono; [apply IH; [done..|lia]|].
    intros sb2 s2 (? & ? & ? & ?). split; [done|]. split; [by eapply moves_trans|done].
Qed.

Lemma lex_parse_quoted_string s :
  I s -> cur s = 34 \/ cur s = 39 ->
  lex (parse_quoted_string malloc_ok)
    (fun s r s' => string_ok r /\ (p_offset s < p_offset s')%nat) s.
Proof.
  intros HI Hq. unfold parse_quoted_string.
  eapply wp_use; [apply lex_take_seen; [done|lia]|]. intros q s1 (HI1 & Hm1 & -> & Er & Ho).
  apply wp_gets. eapply wp_use; [apply lex_quoted_loop; [done| | |done]|].
  { split; [constructor|]. split; [done|by left]. }
  { exists (p_offset s1), []. rewrite slice_nil. split; [|eauto with facet].
    eapply boundary_take; [exact HI|exact Er|done|lia]. }
  intros sb s2 (HI2 & Hm2 & Hb & (n & part & Hn & Hle & Hpart & Ebytes)).
  eapply wp_use; [by apply lex_take|]. intros c s3 (HI3 & Hm3 & Ht).
  pose proof (moves_offset _ _ Hm2). pose proof (moves_offset _ _ Hm3).
  destruct (c =? cur s) eqn:Ec; simpl; [|by eapply wp_fail]. bool_props. subst c.
  assert (string_ok (sb_bytes sb)) as Hs.
  { destruct Hb as (Hnz & Hu & _). split; [|done]. rewrite Ebytes. apply utf8_app; [done|].
    unfold taken in Ht. destruct (p_rest s2) as [|b r] eqn:E2; [lia|]. destruct Ht as (<- & _).
    eapply slice_utf8; [done|done|done|exact E2|lia]. }
  destruct (sb_capacity sb =? 0) eqn:E0.
  - eapply wp_mono; [by apply lex_duplicate_bytes|]. intros r s4 (HI4 & Hm4 & -> & _ & Ho4).
    split; [done|]. split; [eauto 6 using moves_trans|]. split; [|lia].
    split; [apply utf8_nil|]. split; [constructor|done].
  - apply wp_ret. split; [done|]. split; [eauto 6 using moves_trans|]. split; [done|lia].
Qed.

(** ** Keys *)

Lemma bare_key_character_ascii c : bare_key_character c = true -> 0 < c < 0x80.
Proof. unfold bare_key_character. lia. Qed.

Lemma ascii_string l : Forall (fun c => 0 < c < 0x80) l ->
  utf8 l /\ Forall (fun b => 0 < b < 256) l.
Proof.
  induction 1 as [|c l Hc Hl [IH1 IH2]]; [split; [apply utf8_nil|constructor]|].
  split; [|constructor; [lia|done]].
  change (c :: l) with ([c] ++ l). apply utf8_app; [|done]. apply utf8_ascii. lia.
Qed.

Lemma lex_bare_key_loop fuel s :
  I s -> (length (p_rest s) <= fuel)%nat ->
  lex (bare_key_loop fuel)
    (fun s _ s' => exists w, p_rest s = w ++ p_rest s' /\ length w = (p_offset s' - p_offset s)%nat /\
                             Forall (fun c => 0 < c < 0x80) w) s.
Proof.
  revert s. induction fuel as [|f IH]; intros s HI Hf; simpl; apply wp_current.
  - rewrite cur_nil by done. simpl. apply wp_ret. split; [done|]. split; [apply moves_refl|].
    exists []. rewrite Nat.sub_diag. eauto.
  - destruct (bare_key_character (cur s)) eqn:Ec.
    + apply bare_key_character_ascii in Ec.
      eapply wp_use; [apply lex_take_seen; [done|lia]|]. intros c s1 (HI1 & Hm1 & -> & Er & Ho).
      pose proof (rest_shorter _ _ s s1 HI HI1).
      eapply wp_mono; [apply IH; [done|lia]|]. intros [] s2 (HI2 & Hm2 & w & Ew & Hl & Hw).
      pose proof (moves_offset _ _ Hm2).
      split; [done|]. split; [by eapply moves_trans|]. exists (cur s :: w).
      rewrite Er, Ew. split; [done|]. split; [simpl; lia|by constructor].
    + apply wp_ret. split; [done|]. split; [apply moves_refl|].
      exists []. rewrite Nat.sub_diag. eauto.
Qed.

Lemma lex_parse_key s :
  I s -> lex (parse_key malloc_ok)
           (fun s r s' => string_ok r /\ (p_offset s < p_offset s')%nat) s.
Proof.
  intros HI. unfold parse_key. apply wp_current.
  destruct (_ || _)%bool eqn:Eq; [apply lex_parse_quoted_string; [done|lia]|].
  apply wp_gets. eapply wp_use; [by apply lex_bare_key_loop|].
  intros [] s1 (HI1 & Hm1 & w & Ew & Hl & Hw). apply wp_gets. cbn [fst snd].
  pose proof (moves_offset _ _ Hm1).
  destruct (p_offset s1 =? p_offset s)%nat eqn:Eo; [by eapply wp_fail|].
  apply Nat.eqb_neq in Eo. rewrite Ew, <- Hl, take_app_length.
  eapply wp_mono; [by apply lex_duplicate_bytes|]. intros r s2 (HI2 & Hm2 & -> & Hlen & Ho2).
  split; [done|]. split; [by eapply moves_trans|]. split; [|lia].
  destruct (ascii_string w Hw). split; [done|]. split; done.
Qed.

End Strings.
