(* ===== verification/ConfigValueFacts.v ===== *)
(** Specifications of the value parser: values are well formed, nesting is
    bounded, integers are exact, and no step bound is ever exhausted. *)
From S2P Require Import Prelude Utf8 ConfigTypes ConfigLexer ConfigValue ConfigWp ConfigStrings.

(** A parsed value with at most [n] further levels of nesting: strings are
    [string_ok], integers fit in 64 bits, arrays and tables respect the element
    limit, and the keys of a table are distinct. *)
Fixpoint value_ok (n : nat) (v : Value) : Prop :=
  match v with
  | VString _ _ s => string_ok s
  | VInteger _ _ z => INT64_MIN <= z <= INT64_MAX
  | VBool _ _ _ => True
  | VArray _ _ items =>
      zlen items <= FACET_CONFIG_MAX_ARRAY_ELEMENTS /\
      match n with O => items = [] | S n' => Forall (value_ok n') items end
  | VTable _ _ entries =>
      zlen entries <= FACET_CONFIG_MAX_ARRAY_ELEMENTS /\ NoDup (map key entries) /\
      match n with
      | O => entries = []
      | S n' => Forall (fun e => string_ok (key e) /\ value_ok n' (entry_value e)) entries
      end
  end.

Definition digit (c : Z) : bool := ((48 <=? c) && (c <=? 57))%bool.

(** The value of a digit string read after magnitude [m]. *)
Definition decimal (m : Z) (ds : bytes) : Z := fold_left (fun a c => a * 10 + (c - 48)) ds m.

(** An integer literal: an optional sign and digits without a leading zero. *)
Definition integer_literal (w : bytes) (r : Z) : Prop :=
  exists sign ds, w = sign ++ ds /\ Forall (fun c => digit c = true) ds /\ ds <> [] /\
    (head ds = Some 48 -> length ds = 1%nat) /\
    (((sign = [] \/ sign = [43]) /\ r = decimal 0 ds) \/ (sign = [45] /\ r = - decimal 0 ds)).

Section ValueSpecs.
Context (malloc_ok : nat -> bool) (data : bytes) (d0 : option FacetConfigDiagnostic).

Abbreviation I := (cursor data d0).
Abbreviation E := (reported d0).
Abbreviation lex := (lex data d0).

(** ** Integers *)

(** [w] was consumed between two states. *)
Definition consumed (s : Parser) (w : bytes) (s' : Parser) : Prop :=
  p_rest s = w ++ p_rest s' /\ p_offset s' = (p_offset s + length w)%nat.

Lemma consumed_trans s1 w1 s2 w2 s3 :
  consumed s1 w1 s2 -> consumed s2 w2 s3 -> consumed s1 (w1 ++ w2) s3.
Proof.
  intros [E1 O1] [E2 O2]. split; [by rewrite E1, E2, app_assoc|].
  rewrite length_app. lia.
Qed.

Lemma lex_integer_loop fuel (negative : bool) m s :
  let limit := if negative then INT64_MAX + 1 else INT64_MAX in
  I s -> 0 <= m <= limit -> (length (p_rest s) <= fuel)%nat ->
  lex (integer_loop fuel negative m)
    (fun s r s' => 0 <= r <= limit /\
       exists ds, consumed s ds s' /\ Forall (fun c => digit c = true) ds /\ r = decimal m ds) s.
Proof.
  intros limit. revert m s. induction fuel as [|f IH]; intros m s HI Hm Hf; simpl; apply wp_current.
  - rewrite cur_nil by done. simpl. apply wp_ret. split; [done|]. split; [apply moves_refl|].
    split; [done|]. exists []. split; [|eauto]. split; [done|]. simpl. lia.
  - destruct (_ && _)%bool eqn:Ec.
    + eapply wp_use; [apply lex_take_seen; [done|lia]|]. intros c s1 (HI1 & Hm1 & -> & Er & Ho).
      fold limit. destruct (_ <? m) eqn:El; [by eapply wp_fail|].
      pose proof (rest_shorter _ _ s s1 HI HI1).
      assert (0 <= m * 10 + (cur s - 48) <= limit) as Hstep by (clearbody limit; dlia).
      assert (u64 (m * 10 + (cur s - 48)) = m * 10 + (cur s - 48)) as ->.
      { unfold u64. apply Z.mod_small. unfold limit, INT64_MAX in Hstep. destruct negative; lia. }
      eapply wp_mono; [apply IH; [done|done|lia]|].
      intros r s2 (HI2 & Hm2 & Hr & ds & Hc & Hd & ->).
      split; [done|]. split; [by eapply moves_trans|]. split; [done|].
      exists (cur s :: ds). split; [|split; [by constructor|done]].
      eapply (consumed_trans _ [cur s]); [|done]. split; [done|]. simpl. lia.
    + apply wp_ret. split; [done|]. split; [apply moves_refl|].
      split; [done|]. exists []. split; [|eauto]. split; [done|]. simpl. lia.
Qed.

Lemma lex_sign s :
  I s ->
  lex (if ((cur s =? 43) || (cur s =? 45))%bool then let! c := take in ret (c =? 45) else ret false)
    (fun s neg s' => exists sign, consumed s sign s' /\
       ((neg = false /\ (sign = [] \/ sign = [43])) \/ (neg = true /\ sign = [45]))) s.
Proof.
  intros HI. destruct (_ || _)%bool eqn:Es.
  - eapply wp_use; [apply lex_take_seen; [done|lia]|]. intros c s1 (HI1 & Hm1 & -> & Er & Ho).
    apply wp_ret. split; [done|]. split; [done|]. exists [cur s].
    split; [split; [done|simpl; lia]|].
    destruct (cur s =? 45) eqn:E45; bool_props; [right|left]; (split; [done|]); [by f_equal|].
    right. f_equal. lia.
  - apply wp_ret. split; [done|]. split; [apply moves_refl|]. exists [].
    split; [split; [done|simpl; lia]|]. left. eauto.
Qed.

Lemma lex_parse_integer s :
  I s ->
  lex parse_integer
    (fun s r s' => INT64_MIN <= r <= INT64_MAX /\
       exists w, consumed s w s' /\ integer_literal w r) s.
Proof.
  intros HI. unfold parse_integer. apply wp_current.
  eapply wp_use; [by apply lex_sign|]. intros neg s1 (HI1 & Hm1 & sign & Hs & Hsign).
  apply wp_gets. cbn [fst snd].
  eapply wp_use; [apply lex_integer_loop; [done| |done]|].
  { unfold INT64_MAX. destruct neg; lia. }
  intros m s2 (HI2 & Hm2 & Hr & ds & Hd & Hdig & ->). apply wp_gets.
  destruct Hd as [Er2 Ho2].
  destruct (_ =? _)%nat eqn:E0; [by eapply wp_fail|]. apply Nat.eqb_neq in E0.
  destruct (_ && _)%bool eqn:Elead; [by eapply wp_fail|]. apply wp_ret.
  split; [done|]. split; [by eapply moves_trans|].
  assert (integer_literal (sign ++ ds)
            (if neg then - decimal 0 ds else decimal 0 ds)) as Hlit.
  { exists sign, ds. split; [done|]. split; [done|]. split; [intros ->; simpl in Ho2; lia|].
    split; [|destruct Hsign as [[-> ?]|[-> ?]]; eauto].
    intros Hh. apply andb_false_iff in Elead as [Hl|Hl].
    - apply Nat.ltb_ge in Hl. destruct ds; [done|]. simpl in *. lia.
    - bool_props. rewrite Er2 in Hl. destruct ds; [done|]. simplify_eq/=. }
  assert (consumed s (sign ++ ds) s2) as Hcons by (eapply consumed_trans; [done|by split]).
  unfold INT64_MIN, INT64_MAX in *. destruct neg; simpl.
  - destruct (_ =? _) eqn:Emin; bool_props.
    + split; [lia|]. exists (sign ++ ds). split; [done|]. by replace (- 2 ^ 63) with (- decimal 0 ds) by lia.
    + split; [lia|]. eauto.
  - split; [lia|]. eauto.
Qed.

(** ** Arrays and tables *)

Context (Hok : bytes_ok data) (Hutf : utf8 data).

Lemma lex_array_append items v s (P : Value -> Prop) :
  I s -> Forall P items -> P v -> zlen items <= FACET_CONFIG_MAX_ARRAY_ELEMENTS ->
  lex (array_append malloc_ok items v)
    (fun s l s' => Forall P l /\ zlen l <= FACET_CONFIG_MAX_ARRAY_ELEMENTS) s.
Proof.
  intros HI Hl Hv Hlen. unfold array_append.
  destruct (_ <=? _) eqn:El; [by eapply wp_fail|].
  eapply wp_allocate; [done|]. intros s' HI' Hm Ho. apply wp_ret.
  split; [done|]. split; [done|]. split; [apply Forall_app; by split; [|constructor]|].
  rewrite zlen_app. change (zlen [v]) with 1. lia.
Qed.

(** After taking a byte that was compared with a character. *)
Lemma taken_char s c s' : I s -> taken s c s' -> 0 <= c -> (p_offset s < p_offset s')%nat.
Proof. intros HI Ht Hc. rewrite (taken_nonneg _ _ _ Ht) by lia. lia. Qed.

Lemma lex_array_loop fuel item items s (P : Value -> Prop) :
  (forall s, I s -> lex item (fun _ v _ => P v) s) ->
  I s -> Forall P items -> zlen items <= FACET_CONFIG_MAX_ARRAY_ELEMENTS ->
  (length (p_rest s) < fuel)%nat ->
  lex (array_loop malloc_ok fuel item items)
    (fun _ l _ => Forall P l /\ zlen l <= FACET_CONFIG_MAX_ARRAY_ELEMENTS) s.
Proof.
  intros Hitem. revert items s. induction fuel as [|f IH]; intros items s HI Hl Hlen Hf; [lia|].
  simpl. eapply wp_use; [by apply Hitem|]. intros v s1 (HI1 & Hm1 & Hv).
  eapply wp_use; [by apply (lex_array_append _ _ _ P)|]. intros items' s2 (HI2 & Hm2 & Hl' & Hlen').
  eapply wp_use; [by apply lex_skip|]. intros [] s3 (HI3 & Hm3 & _). apply wp_current.
  assert (moves s s3) as Hm by eauto using moves_trans.
  destruct (cur s3 =? 93) eqn:E93.
  { eapply wp_use; [by apply lex_take|]. intros c s4 (HI4 & Hm4 & _). apply wp_ret.
    split; [done|]. split; [by eapply moves_trans|done]. }
  eapply wp_use; [by apply lex_take|]. intros c s4 (HI4 & Hm4 & Ht).
  destruct (c =? 44) eqn:E44; simpl; [|by eapply wp_fail]. bool_props.
  assert (p_offset s3 < p_offset s4)%nat by (eapply taken_char; [done|done|lia]).
  eapply wp_use; [by apply lex_skip|]. intros [] s5 (HI5 & Hm5 & _). apply wp_current.
  assert (moves s s5) as Hm' by eauto using moves_trans.
  destruct (cur s5 =? 93) eqn:E93'.
  { eapply wp_use; [by apply lex_take|]. intros c' s6 (HI6 & Hm6 & _). apply wp_ret.
    split; [done|]. split; [by eapply moves_trans|done]. }
  pose proof (moves_offset _ _ Hm). pose proof (moves_offset _ _ Hm5).
  pose proof (rest_shorter _ _ s s5 HI HI5).
  eapply wp_mono; [apply IH; [done..|lia]|].
  intros l s6 (HI6 & Hm6 & Hr). split; [done|]. split; [by eapply moves_trans|done].
Qed.

Lemma lex_parse_array item s (P : Value -> Prop) :
  (forall s, I s -> lex item (fun _ v _ => P v) s) -> I s ->
  lex (parse_array malloc_ok item)
    (fun _ l _ => Forall P l /\ zlen l <= FACET_CONFIG_MAX_ARRAY_ELEMENTS) s.
Proof.
  intros Hitem HI. unfold parse_array.
  eapply wp_use; [by apply lex_take|]. intros c s1 (HI1 & Hm1 & _).
  eapply wp_use; [by apply lex_skip|]. intros [] s2 (HI2 & Hm2 & _). apply wp_current.
  destruct (cur s2 =? 93).
  - eapply wp_use; [by apply lex_take|]. intros c' s3 (HI3 & Hm3 & _). apply wp_ret.
    split; [done|]. split; [eauto using moves_trans|]. by split; [constructor|].
  - apply wp_gets. eapply wp_mono; [apply (lex_array_loop _ _ _ _ P); [done|done|constructor|done|lia]|].
    intros l s3 (HI3 & Hm3 & Hr). split; [done|]. split; [eauto using moves_trans|done].
Qed.

(** The entries of a table under construction. *)
Definition entries_ok (P : Value -> Prop) (l : list (ValueEntry Value)) : Prop :=
  zlen l <= FACET_CONFIG_MAX_ARRAY_ELEMENTS /\ NoDup (map key l) /\
  Forall (fun e => string_ok (key e) /\ P (entry_value e)) l.

Lemma lex_table_append l e s (P : Value -> Prop) :
  I s -> entries_ok P l -> string_ok (key e) -> P (entry_value e) ->
  lex (table_append malloc_ok l e) (fun s l' s' => entries_ok P l') s.
Proof.
  intros HI (Hlen & Hnd & Hall) Hk Hv. unfold table_append.
  destruct (_ <=? _) eqn:El; [by eapply wp_fail|].
  destruct (existsb _ _) eqn:Ex; [by eapply wp_fail_at|].
  eapply wp_allocate; [done|]. intros s' HI' Hm Ho. apply wp_ret.
  split; [done|]. split; [done|]. split; [|split].
  - rewrite zlen_app. change (zlen [e]) with 1. lia.
  - rewrite map_app. apply NoDup_app. split; [done|]. split; [|apply NoDup_singleton].
    intros k Hin Hke. apply list_elem_of_singleton in Hke as ->.
    apply list_elem_of_In, in_map_iff in Hin as (e' & Heq & Hin).
    apply not_true_iff_false in Ex. apply Ex, existsb_exists.
    exists e'. split; [done|]. by apply bytes_eqb_eq.
  - apply Forall_app. split; [done|by constructor].
Qed.

Lemma lex_table_loop fuel item l s (P : Value -> Prop) :
  (forall s, I s -> lex item (fun _ v _ => P v) s) ->
  I s -> entries_ok P l -> (length (p_rest s) < fuel)%nat ->
  lex (table_loop malloc_ok fuel item l) (fun _ l' _ => entries_ok P l') s.
Proof.
  intros Hitem. revert l s. induction fuel as [|f IH]; intros l s HI Hl Hf; [lia|].
  simpl. do 2 apply wp_gets.
  eapply wp_use; [by apply lex_consume_entry|]. intros [] s1 (HI1 & Hm1 & _).
  eapply wp_use; [by apply lex_parse_key|]. intros k s2 (HI2 & Hm2 & Hk & _).
  eapply wp_use; [by apply lex_skip|]. intros [] s3 (HI3 & Hm3 & _).
  eapply wp_use; [by apply lex_take|]. intros c s4 (HI4 & Hm4 & _).
  destruct (c =? 61) eqn:E61; simpl; [|by eapply wp_fail].
  eapply wp_use; [by apply lex_skip|]. intros [] s5 (HI5 & Hm5 & _).
  eapply wp_allocate; [done|]. intros s6 HI6 Hm6 _.
  eapply wp_use; [by apply Hitem|]. intros v s7 (HI7 & Hm7 & Hv).
  eapply wp_use; [by apply (lex_table_append _ _ _ P)|]. intros l' s8 (HI8 & Hm8 & Hl').
  eapply wp_use; [by apply lex_skip|]. intros [] s9 (HI9 & Hm9 & _). apply wp_current.
  assert (moves s s9) as Hm by eauto 12 using moves_trans.
  destruct (cur s9 =? 125).
  { eapply wp_use; [by apply lex_take|]. intros c' s10 (HI10 & Hm10 & _). apply wp_ret.
    split; [done|]. split; [by eapply moves_trans|done]. }
  eapply wp_use; [by apply lex_take|]. intros c' s10 (HI10 & Hm10 & Ht).
  destruct (c' =? 44) eqn:E44; simpl; [|by eapply wp_fail]. bool_props.
  assert (p_offset s9 < p_offset s10)%nat by (eapply taken_char; [done|done|lia]).
  eapply wp_use; [by apply lex_skip|]. intros [] s11 (HI11 & Hm11 & _).
  pose proof (moves_offset _ _ Hm). pose proof (moves_offset _ _ Hm11).
  pose proof (rest_shorter _ _ s s11 HI HI11).
  eapply wp_mono; [apply IH; [done..|lia]|].
  intros r s12 (HI12 & Hm12 & Hr). split; [done|]. split; [eauto using moves_trans|done].
Qed.

Lemma lex_parse_inline_table item s (P : Value -> Prop) :
  (forall s, I s -> lex item (fun _ v _ => P v) s) -> I s ->
  lex (parse_inline_table malloc_ok item) (fun _ l _ => entries_ok P l) s.
Proof.
  intros Hitem HI. unfold parse_inline_table.
  assert (entries_ok P []) as Hnil by (repeat split; [done|constructor|constructor]).
  eapply wp_use; [by apply lex_take|]. intros c s1 (HI1 & Hm1 & _).
  eapply wp_use; [by apply lex_skip|]. intros [] s2 (HI2 & Hm2 & _). apply wp_current.
  destruct (cur s2 =? 125).
  - eapply wp_use; [by apply lex_take|]. intros c' s3 (HI3 & Hm3 & _). apply wp_ret.
    split; [done|]. split; [eauto using moves_trans|done].
  - apply wp_gets. eapply wp_mono; [apply (lex_table_loop _ _ _ _ P); [done..|lia]|].
    intros l s3 (HI3 & Hm3 & Hr). split; [done|]. split; [eauto using moves_trans|done].
Qed.

(** ** Keywords *)

(** A keyword has no newline, so stepping over it adds its length to the column. *)
Lemma position_no_newline w l c :
  Forall (fun b => b <> 10) w -> position_of w (l, c) = (l, (c + length w)%nat).
Proof.
  unfold position_of. revert c. induction w as [|b w IH]; intros c Hw; simpl; [f_equal; lia|].
  apply Forall_cons in Hw as [Hb Hw]. unfold advance at 2. simpl.
  destruct (b =? 10) eqn:E10; [lia|]. rewrite IH by done. f_equal. lia.
Qed.

Lemma lex_skip_keyword word s :
  I s -> keyword word s = true -> Forall (fun b => b <> 10) word ->
  lex (skip_keyword word) (fun _ _ _ => True) s.
Proof.
  intros HI Hk Hw. unfold keyword in Hk. bool_props.
  pose proof (cursor_length _ _ _ HI) as Hlen.
  unfold lex, wp. simpl.
  split; [|split; [constructor; simpl; (done || lia)|done]].
  pose proof (cursor_le _ _ _ HI). pose proof (cursor_rest _ _ _ HI) as Hr.
  constructor; simpl; try apply HI; [lia| |].
  - rewrite Hr, skipn_skipn. f_equal. lia.
  - rewrite <- take_take_drop, <- Hr. unfold position_of. rewrite fold_left_app.
    fold (position_of (firstn (p_offset s) data) (1%nat, 1%nat)).
    rewrite <- (cursor_position _ _ _ HI).
    replace (firstn (length word) (p_rest s)) with word by (symmetry; exact H0).
    fold (position_of word (p_line s, p_column s)). by rewrite position_no_newline.
Qed.

(** ** Values *)

(** What a value parsed at [depth] satisfies: nothing beyond the depth limit. *)
Definition value_at (depth : nat) (v : Value) : Prop :=
  (depth <= FACET_CONFIG_MAX_DEPTH)%nat /\ value_ok (FACET_CONFIG_MAX_DEPTH - depth) v.

Lemma value_at_array depth l c items :
  (depth <= FACET_CONFIG_MAX_DEPTH)%nat -> zlen items <= FACET_CONFIG_MAX_ARRAY_ELEMENTS ->
  Forall (value_at (S depth)) items -> value_at depth (VArray l c items).
Proof.
  intros Hd Hlen Hi. split; [done|].
  destruct (FACET_CONFIG_MAX_DEPTH - depth)%nat as [|n] eqn:En; (split; [done|]).
  - destruct Hi as [|v items [Hv _] _]; [done|]. lia.
  - eapply Forall_impl; [exact Hi|]. intros v [_ Hv].
    by replace n with (FACET_CONFIG_MAX_DEPTH - S depth)%nat by lia.
Qed.

Lemma value_at_table depth l c entries :
  (depth <= FACET_CONFIG_MAX_DEPTH)%nat -> entries_ok (value_at (S depth)) entries ->
  value_at depth (VTable l c entries).
Proof.
  intros Hd (Hlen & Hnd & Hi). split; [done|].
  destruct (FACET_CONFIG_MAX_DEPTH - depth)%nat as [|n] eqn:En; (split; [done|]; split; [done|]).
  - destruct Hi as [|v items [_ [Hv _]] _]; [done|]. lia.
  - eapply Forall_impl; [exact Hi|]. intros v [Hk [_ Hv]]. split; [done|].
    by replace n with (FACET_CONFIG_MAX_DEPTH - S depth)%nat by lia.
Qed.

Lemma lex_parse_value fuel depth s :
  I s -> (FACET_CONFIG_MAX_DEPTH + 2 <= fuel + depth)%nat -> (depth <= FACET_CONFIG_MAX_DEPTH + 1)%nat ->
  lex (parse_value malloc_ok fuel depth) (fun _ v _ => value_at depth v) s.
Proof.
  revert depth s. induction fuel as [|f IH]; intros depth s HI Hf Hd; [lia|]. simpl.
  destruct (_ <? depth)%nat eqn:Ed; [by eapply wp_fail|]. apply Nat.ltb_ge in Ed.
  assert (forall s, I s -> lex (parse_value malloc_ok f (S depth)) (fun _ v _ => value_at (S depth) v) s)
    as Hitem by (intros; apply IH; [done|lia|lia]).
  do 2 apply wp_gets. apply wp_current.
  destruct (_ || _)%bool eqn:Eq.
  { eapply wp_use; [apply lex_parse_quoted_string; [done..|lia]|].
    intros r s1 (HI1 & Hm1 & Hr & _). apply wp_ret. split; [done|]. split; [done|].
    split; [done|]. by destruct (_ - _)%nat. }
  destruct (cur s =? 91).
  { eapply wp_use; [by apply lex_parse_array|]. intros items s1 (HI1 & Hm1 & Hi & Hlen).
    apply wp_ret. split; [done|]. split; [done|]. by apply value_at_array. }
  destruct (cur s =? 123).
  { eapply wp_use; [by apply lex_parse_inline_table|]. intros entries s1 (HI1 & Hm1 & Hi).
    apply wp_ret. split; [done|]. split; [done|]. by apply value_at_table. }
  assert (forall l c b, value_at depth (VBool l c b)) as Hbool
    by (intros; split; [done|]; by destruct (_ - _)%nat).
  apply wp_gets. destruct (keyword (B "true") s) eqn:Et.
  { eapply wp_use; [apply lex_skip_keyword; [done..|by_decide]|].
    intros [] s1 (HI1 & Hm1 & _). by apply wp_ret. }
  apply wp_gets. destruct (keyword (B "false") s) eqn:Ef.
  { eapply wp_use; [apply lex_skip_keyword; [done..|by_decide]|].
    intros [] s1 (HI1 & Hm1 & _). by apply wp_ret. }
  eapply wp_use; [by apply lex_parse_integer|]. intros n s1 (HI1 & Hm1 & Hn & _).
  apply wp_ret. split; [done|]. split; [done|]. split; [done|]. by destruct (_ - _)%nat.
Qed.

End ValueSpecs.
