(* ===== verification/ConfigApplyFacts.v ===== *)
(** The configuration under construction: every header and assignment keeps the
    records well formed, so that a key marked present has its string, and the
    current section designates an existing record. *)
From stdpp Require Import sets.
From S2P Require Import Prelude Utf8 ConfigTypes ConfigLexer ConfigValue ConfigApply ConfigWp.
From S2P Require Import ConfigStrings ConfigValueFacts.

(** ** Record invariants *)

Definition optional_ok (p : option bytes) : Prop := match p with Some s => string_ok s | None => True end.

(** When bit [b] of [present] is set the string exists. *)
Definition present_ok (present b : Z) (p : option bytes) : Prop :=
  optional_ok p /\ (Z.testbit present b = true -> is_Some p).

Definition sink_inv (r : FacetConfigLoggingSinkDefinition) : Prop :=
  present_ok (sink_present r) 0 (sink_name r) /\ present_ok (sink_present r) 1 (sink_type r).

Definition source_inv (r : FacetConfigAuthenticationSource) : Prop :=
  present_ok (source_present r) 0 (source_name r) /\
  present_ok (source_present r) 2 (source_type r) /\ 0 <= provider_domain_id r <= INT64_MAX.

Definition user_inv (r : FacetConfigUser) : Prop :=
  present_ok (user_present r) 0 (user_name r) /\
  present_ok (user_present r) 1 (password_hash r) /\
  present_ok (user_present r) 7 (home_path r) /\
  optional_ok (native_shell r) /\ optional_ok (posix_shell r) /\
  0 <= uid r <= UINT32_MAX /\ 0 <= gid r <= UINT32_MAX.

Definition seat_inv (r : FacetConfigSeatDefinition) : Prop :=
  present_ok (seat_present r) 0 (seat_name r) /\ present_ok (seat_present r) 3 (seat_server r) /\
  Forall string_ok (seat_terminals r).

Definition use_inv (r : FacetConfigDomainSink) : Prop := is_Some (use_name r) /\ optional_ok (use_name r).

Definition terminal_inv (r : FacetConfigTerminalAssignment) : Prop :=
  present_ok (terminal_present r) 0 (reference r) /\
  present_ok (terminal_present r) 3 (device_name r) /\
  optional_ok (initial_process r) /\ optional_ok (run_as r).

Definition domain_inv (r : FacetConfigDomain) : Prop :=
  present_ok (domain_present r) 1 (domain_name r) /\
  present_ok (domain_present r) 7 (pid1 r) /\
  present_ok (domain_present r) 8 (initrd r) /\
  optional_ok (authentication_source r) /\
  0 <= domain_id r <= INT64_MAX /\
  0 <= authentication_source_index r < FACET_CONFIG_MAX_ARRAY_ELEMENTS /\
  Forall user_inv (domain_users r) /\ Forall use_inv (domain_sinks r) /\
  Forall terminal_inv (domain_terminals r).

Record config_inv (c : FacetSystemConfig) : Prop := {
  inv_sinks : Forall sink_inv (logging_sinks c);
  inv_sources : Forall source_inv (authentication_sources c);
  inv_users : Forall user_inv (users c);
  inv_seats : Forall seat_inv (seats c);
  inv_domains : Forall domain_inv (domains c);
  inv_seat_initrd : optional_ok (seat_initrd c);
  inv_sink_count : zlen (logging_sinks c) <= FACET_CONFIG_MAX_ARRAY_ELEMENTS;
  inv_source_count : zlen (authentication_sources c) <= FACET_CONFIG_MAX_ARRAY_ELEMENTS;
  inv_user_count : zlen (users c) <= FACET_CONFIG_MAX_ARRAY_ELEMENTS;
  inv_seat_count : zlen (seats c) <= FACET_CONFIG_MAX_ARRAY_ELEMENTS;
  inv_domain_count : zlen (domains c) <= FACET_CONFIG_MAX_ARRAY_ELEMENTS
}.

(** The record that assignments of the current section update exists. *)
Definition section_inv (s : Parser) : Prop :=
  match p_section s with
  | SECTION_NONE | SECTION_FACET => True
  | SECTION_LOGGING_SINK => (p_section_index s < length (logging_sinks (p_config s)))%nat
  | SECTION_AUTHENTICATION_SOURCE =>
      (p_section_index s < length (authentication_sources (p_config s)))%nat
  | SECTION_USER => (p_section_index s < length (users (p_config s)))%nat
  | SECTION_SEAT => (p_section_index s < length (seats (p_config s)))%nat
  | SECTION_DOMAIN => (p_section_index s < length (domains (p_config s)))%nat
  end.

Definition parser_inv (data : bytes) (d0 : option FacetConfigDiagnostic) (s : Parser) : Prop :=
  cursor data d0 s /\ config_inv (p_config s) /\ section_inv s.

(** Setting a bit does not disturb the others. *)
Lemma present_ok_other present bit b p :
  Z.testbit bit b = false -> present_ok present b p -> present_ok (Z.lor present bit) b p.
Proof. intros Hb [H1 H2]. split; [done|]. by rewrite Z.lor_spec, Hb, orb_false_r. Qed.

Lemma present_ok_some present b s : string_ok s -> present_ok present b (Some s).
Proof. intros Hs. split; [done|eauto]. Qed.

Lemma present_ok_zero b : present_ok 0 b None.
Proof. split; [done|]. by rewrite Z.bits_0. Qed.

#[export] Hint Resolve present_ok_zero : facet.

Lemma zero_sink_inv : sink_inv zero_sink.
Proof. split; apply present_ok_zero. Qed.

Lemma zero_source_inv : source_inv zero_source.
Proof. repeat split; try done. Qed.

Lemma zero_user_inv : user_inv zero_user.
Proof. repeat split; try done. Qed.

Lemma zero_seat_inv : seat_inv zero_seat.
Proof. repeat split; try done. Qed.

Lemma zero_terminal_inv : terminal_inv zero_terminal.
Proof. repeat split; try done. Qed.

Lemma zero_domain_inv : domain_inv zero_domain.
Proof. repeat split; try done; constructor. Qed.

Lemma zero_config_inv : config_inv zero_config.
Proof. constructor; simpl; constructor || done. Qed.

(** The arrays of the configuration that sections designate, with their laws. *)
Record section_array (A : Type) := {
  sa_get : FacetSystemConfig -> list A;
  sa_set : list A -> FacetSystemConfig -> FacetSystemConfig;
  sa_inv : A -> Prop;
  sa_kind : SectionKind;
  sa_config : forall c, config_inv c ->
    Forall sa_inv (sa_get c) /\ zlen (sa_get c) <= FACET_CONFIG_MAX_ARRAY_ELEMENTS;
  sa_update : forall c l, config_inv c -> Forall sa_inv l ->
    zlen l <= FACET_CONFIG_MAX_ARRAY_ELEMENTS -> config_inv (sa_set l c);
  sa_section : forall s, p_section s = sa_kind ->
    section_inv s <-> (p_section_index s < length (sa_get (p_config s)))%nat;
  sa_get_set : forall c l, sa_get (sa_set l c) = l
}.
Arguments sa_get {A}. Arguments sa_set {A}. Arguments sa_inv {A}. Arguments sa_kind {A}.
Arguments sa_config {A}. Arguments sa_update {A}. Arguments sa_section {A}. Arguments sa_get_set {A}.

Ltac section_array_laws :=
  first
  [ done | by intros c [] | by intros c l [] ? ?; constructor
  | by intros s Hs; unfold section_inv; rewrite Hs ].

#[refine] Definition sa_sinks : section_array FacetConfigLoggingSinkDefinition := {|
  sa_get := logging_sinks; sa_set := set_logging_sinks; sa_inv := sink_inv;
  sa_kind := SECTION_LOGGING_SINK |}.
Proof. all: section_array_laws. Defined.

#[refine] Definition sa_sources : section_array FacetConfigAuthenticationSource := {|
  sa_get := authentication_sources; sa_set := set_authentication_sources; sa_inv := source_inv;
  sa_kind := SECTION_AUTHENTICATION_SOURCE |}.
Proof. all: section_array_laws. Defined.

#[refine] Definition sa_users : section_array FacetConfigUser := {|
  sa_get := users; sa_set := set_users; sa_inv := user_inv; sa_kind := SECTION_USER |}.
Proof. all: section_array_laws. Defined.

#[refine] Definition sa_seats : section_array FacetConfigSeatDefinition := {|
  sa_get := seats; sa_set := set_seats; sa_inv := seat_inv; sa_kind := SECTION_SEAT |}.
Proof. all: section_array_laws. Defined.

#[refine] Definition sa_domains : section_array FacetConfigDomain := {|
  sa_get := domains; sa_set := set_domains; sa_inv := domain_inv; sa_kind := SECTION_DOMAIN |}.
Proof. all: section_array_laws. Defined.

Section ApplySpecs.
Context (malloc_ok : nat -> bool) (data : bytes) (d0 : option FacetConfigDiagnostic).

Abbreviation I := (cursor data d0).
Abbreviation E := (reported d0).
Abbreviation lex := (lex data d0).
Abbreviation PI := (parser_inv data d0).

(** ** Typed reads *)

Lemma lex_require_kind k v kind nm s :
  I s -> lex (require_kind k v kind nm) (fun s _ s' => value_kind v = kind /\ s' = s) s.
Proof.
  intros HI. unfold require_kind. destruct (bool_decide _) eqn:Ek; [|by eapply wp_fail_at].
  bool_props. apply wp_ret. eauto with facet.
Qed.

(** Run a typed read after the kind test. *)
Lemma wp_kind {A} k v kind nm (m : M A) Q s :
  I s -> (value_kind v = kind -> wp m Q E s) -> wp (require_kind k v kind nm ;;; m) Q E s.
Proof.
  intros HI Hm. eapply wp_use; [by apply lex_require_kind|]. intros [] s' (_ & _ & Hk & ->). auto.
Qed.

Lemma lex_take_string n k v s :
  I s -> value_ok n v -> lex (take_string k v) (fun _ r _ => string_ok r) s.
Proof.
  intros HI Hv. apply wp_kind; [done|]. intros Hk. destruct v; try done. simpl.
  apply wp_ret. destruct n; eauto with facet.
Qed.

Lemma lex_claim_bit present bit l c k msg s :
  I s -> lex (claim_bit present bit l c k msg) (fun _ r _ => r = Z.lor present bit) s.
Proof.
  intros HI. unfold claim_bit. destruct (negb _); [by eapply wp_fail_at|].
  apply wp_ret. eauto with facet.
Qed.

Lemma lex_parse_log_level k v s : I s -> lex (parse_log_level k v) (fun _ _ _ => True) s.
Proof.
  intros HI. apply wp_kind; [done|]. intros Hk. destruct v; try done. cbn [as_string].
  apply wp_ret_bind. destruct (List.find _ log_levels); [apply wp_ret; eauto with facet|by eapply wp_fail_at].
Qed.

Lemma lex_traverse {A C} (f : A -> M C) (l : list A) (P : C -> Prop) s :
  (forall x s, x ∈ l -> I s -> lex (f x) (fun _ y _ => P y) s) -> I s ->
  lex (traverse f l) (fun _ ys _ => Forall P ys) s.
Proof.
  revert s. induction l as [|x l IH]; intros s Hf HI; simpl.
  - apply wp_ret. eauto with facet.
  - eapply wp_use; [apply Hf; [set_solver|done]|]. intros y s1 (HI1 & Hm1 & Hy).
    eapply wp_use; [apply IH; [intros; apply Hf; [set_solver|done]|done]|].
    intros ys s2 (HI2 & Hm2 & Hys). apply wp_ret. split; [done|].
    split; [by eapply moves_trans|by constructor].
Qed.

Lemma lex_fold_entries {A T} (f : A -> T -> M A) (l : list T) a (P : A -> Prop) s :
  (forall a x s, x ∈ l -> P a -> I s -> lex (f a x) (fun _ y _ => P y) s) -> P a -> I s ->
  lex (fold_entries f a l) (fun _ y _ => P y) s.
Proof.
  revert a s. induction l as [|x l IH]; intros a s Hf Ha HI; simpl.
  - apply wp_ret. eauto with facet.
  - eapply wp_use; [apply Hf; [set_solver|done|done]|]. intros y s1 (HI1 & Hm1 & Hy).
    eapply wp_mono; [apply IH; [intros; apply Hf; [set_solver|done|done]|done|done]|].
    intros r s2 (? & ? & ?). eauto using moves_trans.
Qed.

Lemma lex_allocate_array {A} (l : list A) ctx s :
  I s -> lex (allocate_array malloc_ok l ctx) (fun _ _ _ => True) s.
Proof.
  intros HI. destruct l; [apply wp_ret; eauto with facet|]. simpl.
  eapply wp_allocate; [done|]. intros s' HI' Hm _. apply wp_ret. eauto.
Qed.

(** Continue after a step of which only the invariant matters. *)
Lemma lex_then {A C} (m : M A) (k : A -> M C) P (Q : Parser -> C -> Parser -> Prop) s :
  lex m (fun _ a _ => P a) s ->
  (forall a s', I s' -> P a -> lex (k a) (fun _ r _ => Q s r s') s') ->
  (forall r s1 s2, Q s r s1 -> Q s r s2) ->
  lex (bind m k) Q s.
Proof.
  intros Hm Hk Hq. eapply wp_use; [exact Hm|]. intros a s' (HI' & Hmv & Ha).
  eapply wp_mono; [by apply Hk|]. intros r s2 (? & ? & ?). eauto using moves_trans.
Qed.

Lemma lex_bind {A C} (m : M A) (k : A -> M C) (P : A -> Prop) (Q : C -> Prop) s :
  lex m (fun _ a _ => P a) s ->
  (forall a s', I s' -> P a -> lex (k a) (fun _ r _ => Q r) s') ->
  lex (bind m k) (fun _ r _ => Q r) s.
Proof. intros Hm Hk. eapply (lex_then m k P (fun _ r _ => Q r)); eauto. Qed.

Lemma lex_ret {A} (a : A) (Q : A -> Prop) s : I s -> Q a -> lex (ret a) (fun _ r _ => Q r) s.
Proof. intros. apply wp_ret. eauto with facet. Qed.

Lemma lex_fail_at {A} cat l c ctx msg (Q : Parser -> A -> Parser -> Prop) s :
  I s -> cat <> FACET_CONFIG_DIAGNOSTIC_NONE -> lex (fail_at cat l c ctx msg) Q s.
Proof. intros. by eapply wp_fail_at. Qed.

Lemma lex_kind {A} k v kind nm (m : M A) Q s :
  I s -> (value_kind v = kind -> lex m Q s) -> lex (require_kind k v kind nm ;;; m) Q s.
Proof. intros. by apply wp_kind. Qed.

Lemma value_ok_items n l c items v : value_ok n (VArray l c items) -> v ∈ items -> value_ok (n - 1) v.
Proof.
  intros Hv Hin. destruct n as [|n]; simpl in *; destruct Hv as [_ Hv].
  - subst. set_solver.
  - rewrite Nat.sub_0_r. rewrite Forall_forall in Hv. auto.
Qed.

Lemma value_ok_entries n l c entries e :
  value_ok n (VTable l c entries) -> e ∈ entries ->
  string_ok (key e) /\ value_ok (n - 1) (entry_value e).
Proof.
  intros Hv Hin. destruct n as [|n]; simpl in *; destruct Hv as (_ & _ & Hv).
  - subst. set_solver.
  - rewrite Nat.sub_0_r. rewrite Forall_forall in Hv. auto.
Qed.

(** ** Arrays and inline tables *)

Lemma lex_require_strings k items s :
  I s -> lex (traverse (fun i => require_kind k i VALUE_STRING (B "string array")) items)
           (fun _ _ _ => Forall (fun v => value_kind v = VALUE_STRING) items) s.
Proof.
  revert s. induction items as [|v items IH]; intros s HI; simpl.
  - apply wp_ret. eauto with facet.
  - eapply wp_use; [by apply lex_require_kind|]. intros [] s1 (HI1 & Hm1 & Hk & ->).
    eapply wp_use; [by apply IH|].
    intros us s' (HI' & Hm & Hall). apply wp_ret. eauto with facet.
Qed.

Lemma lex_string_items n items s :
  I s -> Forall (value_ok n) items -> Forall (fun v => value_kind v = VALUE_STRING) items ->
  lex (traverse as_string items) (fun _ r _ => Forall string_ok r) s.
Proof.
  intros HI Hok Hk. apply lex_traverse; [|done]. intros v s' Hv HI'.
  rewrite Forall_forall in Hok, Hk. specialize (Hok v Hv). specialize (Hk v Hv).
  destruct v; try done. apply lex_ret; [done|]. by destruct n.
Qed.

Lemma lex_strings_from_array n k v s :
  I s -> value_ok n v -> lex (strings_from_array malloc_ok k v) (fun _ r _ => Forall string_ok r) s.
Proof.
  intros HI Hv. apply lex_kind; [done|]. intros Hk. destruct v as [| | |l c items|]; try done.
  cbn [as_array]. apply wp_ret_bind.
  eapply wp_use; [by apply lex_require_strings|]. intros us s1 (HI1 & Hm1 & Hall).
  eapply wp_use; [by apply lex_allocate_array|]. intros [] s2 (HI2 & Hm2 & _).
  eapply wp_mono; [eapply (lex_string_items (n - 1)); [done| |done]|].
  - apply Forall_forall. intros x Hx. by eapply value_ok_items.
  - intros r s3 (? & ? & ?). eauto with facet.
Qed.

(** Read a table value and handle its entries, each with a good key and value. *)
Lemma lex_as_array {C} n v k nm (f : Value -> M C) (P : C -> Prop) ctx s :
  I s -> value_ok n v ->
  (forall x s, value_ok (n - 1) x -> I s -> lex (f x) (fun _ r _ => P r) s) ->
  lex (require_kind k v VALUE_ARRAY nm ;;; (let! items := as_array v in
       allocate_array malloc_ok items ctx ;;; traverse f items)) (fun _ r _ => Forall P r) s.
Proof.
  intros HI Hv Hf. apply lex_kind; [done|]. intros Hk. destruct v as [| | |l c items|]; try done.
  cbn [as_array]. apply wp_ret_bind.
  eapply (lex_bind _ _ (fun _ => True)); [by apply lex_allocate_array|]. intros _ s1 HI1 _.
  apply lex_traverse; [|done]. intros x s2 Hx HI2. apply Hf; [by eapply value_ok_items|done].
Qed.

Lemma lex_as_table {A} n v k nm (f : A -> ValueEntry Value -> M A) a (P : A -> Prop) s :
  I s -> value_ok n v -> P a ->
  (forall a e s, value_ok (n - 1) (entry_value e) -> P a -> I s ->
     lex (f a e) (fun _ r _ => P r) s) ->
  lex (require_kind k v VALUE_TABLE nm ;;; (let! entries := as_table v in fold_entries f a entries))
    (fun _ r _ => P r) s.
Proof.
  intros HI Hv Ha Hf. apply lex_kind; [done|]. intros Hk. destruct v as [| | | |l c entries]; try done.
  cbn [as_table]. apply wp_ret_bind. apply lex_fold_entries; [|done|done].
  intros a' e s' He Ha' HI'. apply Hf; [by eapply value_ok_entries|done|done].
Qed.

Lemma lex_dup l s : I s -> string_ok l -> lex (duplicate_bytes malloc_ok l) (fun _ r _ => string_ok r) s.
Proof.
  intros HI Hl. eapply wp_mono; [by apply lex_duplicate_bytes|]. intros r s' (HI' & Hm & -> & _). eauto.
Qed.

Lemma lex_string_dup n k v s :
  I s -> value_ok n v ->
  lex (let! r := take_string k v in duplicate_bytes malloc_ok r) (fun _ r _ => string_ok r) s.
Proof.
  intros HI Hv. eapply lex_bind; [by eapply lex_take_string|]. intros r s' HI' Hr. by apply lex_dup.
Qed.

Lemma table_value_ok n l c entries wanted v :
  value_ok n (VTable l c entries) -> table_value entries wanted = Some v -> value_ok (n - 1) v.
Proof.
  unfold table_value. intros Hv Ht. destruct (List.find _ entries) as [e|] eqn:Ef; [|done].
  apply List.find_some in Ef as [Hin _]. simplify_option_eq.
  eapply (value_ok_entries n l c entries e); [done|]. by apply list_elem_of_In.
Qed.

Lemma lex_domain_sink_from_item n item s :
  I s -> value_ok n item -> lex (domain_sink_from_item malloc_ok item) (fun _ r _ => use_inv r) s.
Proof.
  intros HI Hv. apply lex_kind; [done|]. intros Hk. destruct item as [| | | |l c entries]; try done.
  cbn [as_table]. apply wp_ret_bind.
  destruct (table_value entries (B "name")) as [name|] eqn:En; [|by eapply wp_fail_at].
  destruct (table_value entries (B "level")) as [level|] eqn:El; [|by eapply wp_fail_at].
  destruct (negb _); [by eapply wp_fail_at|].
  pose proof (table_value_ok _ _ _ _ _ _ Hv En) as Hname.
  apply wp_kind; [done|]. intros Hkn. destruct name; try done. cbn [as_string]. apply wp_ret_bind.
  eapply (lex_bind _ _ string_ok use_inv); [apply lex_dup; [done|by destruct (n - 1)%nat]|]. intros r s1 HI1 Hr.
  eapply (lex_bind _ _ (fun _ => True)); [by apply lex_parse_log_level|]. intros lv s2 HI2 _.
  apply lex_ret; [done|]. split; [by eexists|done].
Qed.

(** ** Records *)

(** Rebuild a record invariant after an update of one field. *)
Ltac rebuild :=
  repeat match goal with H : _ /\ _ |- _ => destruct H end;
  repeat match goal with
  | |- _ /\ _ => split; cbn
  | |- _ /\ _ => split
  | |- present_ok _ _ (Some _) => by apply present_ok_some
  | |- present_ok (Z.lor _ _) _ _ => by apply present_ok_other; [|eassumption]
  | _ => done
  | _ => lia
  end.

Lemma lex_terminal_entry n t e s :
  value_ok n (entry_value e) -> terminal_inv t -> I s ->
  lex (terminal_entry malloc_ok t e) (fun _ r _ => terminal_inv r) s.
Proof.
  intros Hv Ht HI. unfold terminal_entry.
  repeat (case_goal; [|]); try (by eapply wp_fail_at);
    (apply wp_kind; [done|]; intros Hk; destruct (entry_value e) as [? ? str| | | |] eqn:Ev; try done;
     cbn [as_string]; apply wp_ret_bind; assert (string_ok str) as Hstr by (by destruct n)).
  all: try (eapply (lex_bind _ _ string_ok terminal_inv); [by apply lex_dup|];
            intros r s1 HI1 Hr; apply lex_ret; [done|]; unfold terminal_inv in *; rebuild).
  all: repeat case_goal; try (by eapply wp_fail_at); apply (lex_ret _ terminal_inv); try done;
    unfold terminal_inv in *; rebuild.
Qed.

(** A second report on a failed parser changes nothing. *)
Lemma wp_fail_again {A} cat l c ctx msg (Q : A -> Parser -> Prop) s :
  E s -> wp (fail_at cat l c ctx msg) Q E s.
Proof. intros HE. unfold wp, fail_at. destruct HE as [Hf ?]. rewrite Hf. by split. Qed.

(** The integer of a value, -1 when the value is of another kind. *)
Lemma wp_integer_or n k v nm {A} (next : Z -> M A) (Q : A -> Parser -> Prop) s :
  I s -> value_ok n v ->
  (forall m, INT64_MIN <= m <= INT64_MAX -> wp (next m) Q E s) ->
  (forall s', E s' -> wp (next (-1)) Q E s') ->
  wp (let! m := (fun s => match (require_kind k v VALUE_INTEGER nm ;;; as_integer v) s with
                          | (Err, s') => (Ok (-1), s')
                          | r => r
                          end) in next m) Q E s.
Proof.
  intros HI Hv Hgood Hbad. apply wp_bind. unfold wp at 1.
  pose proof (lex_require_kind k v VALUE_INTEGER nm s HI) as Hr.
  unfold ConfigWp.lex, wp in Hr. unfold bind at 1.
  destruct (require_kind k v VALUE_INTEGER nm s) as [[[]| |] s1]; [|by apply Hbad|done].
  destruct Hr as (_ & _ & Hk & ->). destruct v; try done. simpl. apply Hgood. by destruct n.
Qed.

Lemma lex_user_id n k v l c s :
  I s -> value_ok n v -> lex (user_id k v l c) (fun _ r _ => 0 <= r <= UINT32_MAX) s.
Proof.
  intros HI Hv. eapply wp_integer_or; [done|done| |].
  - intros m Hm. case_goal; [by eapply wp_fail_at|]. apply lex_ret; [done|]. bool_props. lia.
  - intros s' HE. by apply wp_fail_again.
Qed.

(** Each user key stores its field and keeps the invariant. *)
Definition user_store_inv (bit : Z) (field : user_field) : Prop :=
  match field with
  | UserString set =>
      forall r x p, user_inv r -> string_ok x -> p = Z.lor (user_present r) bit ->
      user_inv (set (Some x) (set_user_present p r))
  | UserAdmin =>
      forall r b p, user_inv r -> p = Z.lor (user_present r) bit ->
      user_inv (set_admin b (set_user_present p r))
  | UserId set =>
      forall r x p, user_inv r -> 0 <= x <= UINT32_MAX -> p = Z.lor (user_present r) bit ->
      user_inv (set x (set_user_present p r))
  end.

Lemma user_key_inv k bit field : user_key k = Some (bit, field) -> user_store_inv bit field.
Proof.
  unfold user_key. intros H. repeat case_hyp H; simplify_eq; unfold user_store_inv, user_inv;
    intros; subst; rebuild.
Qed.

Lemma lex_user_entry n u e s :
  value_ok n (entry_value e) -> user_inv u -> I s ->
  lex (user_entry malloc_ok u e) (fun _ r _ => user_inv r) s.
Proof.
  intros Hv Hu HI. unfold user_entry.
  destruct (user_key (key e)) as [[bit field]|] eqn:Ek; [|by eapply wp_fail_at].
  apply user_key_inv in Ek. case_goal; [by eapply wp_fail_at|]. destruct field as [set| |set].
  - eapply lex_bind; [by eapply lex_take_string|]. intros r s1 HI1 Hr.
    eapply lex_bind; [by apply lex_dup|]. intros r' s2 HI2 Hr'. apply lex_ret; [done|]. by apply Ek.
  - apply lex_kind; [done|]. intros Hk. destruct (entry_value e); try done. cbn [as_bool].
    apply wp_ret_bind. apply (lex_ret _ user_inv); [done|]. by apply Ek.
  - eapply lex_bind; [by eapply lex_user_id|]. intros r s1 HI1 Hr. apply lex_ret; [done|]. by apply Ek.
Qed.

Lemma lex_apply_user n r k v l c s :
  I s -> value_ok n v -> user_inv r -> lex (apply_user r k v l c) (fun _ r' _ => user_inv r') s.
Proof.
  intros HI Hv Hu. unfold apply_user.
  destruct (user_key k) as [[bit field]|] eqn:Ek; [|by eapply wp_fail_at].
  apply user_key_inv in Ek. eapply lex_bind; [by apply lex_claim_bit|]. intros p s1 HI1 Hp.
  destruct field as [set| |set].
  - eapply lex_bind; [by eapply lex_take_string|]. intros x s2 HI2 Hx. apply lex_ret; [done|]. by apply Ek.
  - apply lex_kind; [done|]. intros Hk. destruct v; try done. cbn [as_bool].
    apply wp_ret_bind. apply (lex_ret _ user_inv); [done|]. by apply Ek.
  - eapply lex_bind; [by eapply lex_user_id|]. intros x s2 HI2 Hx. apply lex_ret; [done|]. by apply Ek.
Qed.

(** Claim a bit, read a string, and go on. *)
Lemma lex_claim_string {A} n present bit l c k msg v (next : Z -> bytes -> M A) (P : A -> Prop) s :
  I s -> value_ok n v ->
  (forall x s', I s' -> string_ok x -> lex (next (Z.lor present bit) x) (fun _ r _ => P r) s') ->
  lex (let! p := claim_bit present bit l c k msg in let! x := take_string k v in next p x)
    (fun _ r _ => P r) s.
Proof.
  intros HI Hv Hn. eapply lex_bind; [by apply lex_claim_bit|]. intros p s1 HI1 ->.
  eapply lex_bind; [by eapply lex_take_string|]. auto.
Qed.

Lemma lex_claim_bool {A} present bit l c k msg nm v (next : Z -> bool -> M A) (P : A -> Prop) s :
  I s ->
  (forall x s', I s' -> lex (next (Z.lor present bit) x) (fun _ r _ => P r) s') ->
  lex (let! p := claim_bit present bit l c k msg in
       require_kind k v VALUE_BOOL nm ;;; let! x := as_bool v in next p x)
    (fun _ r _ => P r) s.
Proof.
  intros HI Hn. eapply lex_bind; [by apply lex_claim_bit|]. intros p s1 HI1 ->.
  apply lex_kind; [done|]. intros Hk. destruct v; try done. cbn [as_bool]. apply wp_ret_bind. by apply Hn.
Qed.

(** The assignment of one string or boolean key. *)
Ltac assign inv :=
  repeat first
  [ by eapply wp_fail_at
  | eapply (lex_claim_string _ _ _ _ _ _ _ _ _ inv); [done|eassumption|]; intros ? ? ? ?; cbv beta
  | eapply (lex_claim_bool _ _ _ _ _ _ _ _ _ inv); [done|]; intros ? ? ?; cbv beta
  | apply (lex_ret _ inv); [done|]; unfold inv in *; cbn; by rebuild
  | case_goal ].

Lemma lex_apply_sink n r k v l c s :
  I s -> value_ok n v -> sink_inv r -> lex (apply_sink r k v l c) (fun _ r' _ => sink_inv r') s.
Proof. intros HI Hv Hr. unfold apply_sink. assign sink_inv. Qed.

Lemma lex_apply_source n r k v l c s :
  I s -> value_ok n v -> source_inv r -> lex (apply_source r k v l c) (fun _ r' _ => source_inv r') s.
Proof.
  intros HI Hv Hr. unfold apply_source. case_goal; [assign source_inv|].
  case_goal; [|assign source_inv].
  eapply lex_bind; [by apply lex_claim_bit|]. intros p s1 HI1 ->.
  eapply wp_integer_or; [done|done| |by intros s' HE; apply wp_fail_again].
  intros m Hm. assign source_inv.
Qed.

Lemma lex_apply_seat n r k v l c s :
  I s -> value_ok n v -> seat_inv r ->
  lex (apply_seat malloc_ok r k v l c) (fun _ r' _ => seat_inv r') s.
Proof.
  intros HI Hv Hr. unfold apply_seat. assign seat_inv.
  eapply lex_bind; [by apply lex_claim_bit|]. intros p s1 HI1 ->.
  eapply lex_bind; [by eapply lex_strings_from_array|]. intros ts s2 HI2 Hts. assign seat_inv.
Qed.

Lemma lex_domain_sinks n v s :
  I s -> value_ok n v -> lex (domain_sinks_from_array malloc_ok v) (fun _ r _ => Forall use_inv r) s.
Proof.
  intros HI Hv. eapply lex_as_array; [done|done|]. intros. by eapply lex_domain_sink_from_item.
Qed.

Lemma lex_domain_terminals n v s :
  I s -> value_ok n v ->
  lex (domain_terminals_from_array malloc_ok v) (fun _ r _ => Forall terminal_inv r) s.
Proof.
  intros HI Hv. eapply lex_as_array; [done|done|]. intros x s' Hx HI'.
  eapply lex_as_table; [done|done|apply zero_terminal_inv|]. intros. by eapply lex_terminal_entry.
Qed.

Lemma lex_domain_users n v s :
  I s -> value_ok n v -> lex (domain_users_from_array malloc_ok v) (fun _ r _ => Forall user_inv r) s.
Proof.
  intros HI Hv. eapply lex_as_array; [done|done|]. intros x s' Hx HI'.
  eapply lex_as_table; [done|done|apply zero_user_inv|]. intros. by eapply lex_user_entry.
Qed.

(** Claim a bit of a domain and read an array. *)
Lemma lex_claim_array {A C} present bit l c k msg (read : M C) (next : Z -> C -> M A)
    (Pc : C -> Prop) (P : A -> Prop) s :
  I s -> (forall s', I s' -> lex read (fun _ r _ => Pc r) s') ->
  (forall x s', I s' -> Pc x -> lex (next (Z.lor present bit) x) (fun _ r _ => P r) s') ->
  lex (let! p := claim_bit present bit l c k msg in let! x := read in next p x) (fun _ r _ => P r) s.
Proof.
  intros HI Hr Hn. eapply lex_bind; [by apply lex_claim_bit|]. intros p s1 HI1 ->.
  eapply lex_bind; [by apply Hr|]. auto.
Qed.

Lemma lex_apply_domain n r k v l c s :
  I s -> value_ok n v -> domain_inv r ->
  lex (apply_domain malloc_ok r k v l c) (fun _ r' _ => domain_inv r') s.
Proof.
  intros HI Hv Hr. unfold apply_domain. case_goal.
  { eapply lex_bind; [by apply lex_claim_bit|]. intros p s1 HI1 ->.
    apply lex_kind; [done|]. intros Hk. destruct v as [|? ? z| | |]; try done. cbn [as_integer]. apply wp_ret_bind.
    assert (INT64_MIN <= z <= INT64_MAX) by (by destruct n). assign domain_inv. }
  assign domain_inv.
  - eapply lex_claim_array; [done|intros; by eapply lex_domain_sinks|]. intros. assign domain_inv.
  - eapply lex_claim_array; [done|intros; by eapply lex_domain_terminals|]. intros. assign domain_inv.
  - eapply lex_claim_array; [done|intros; by eapply lex_domain_users|]. intros. assign domain_inv.
Qed.

(** ** The parser invariant *)

(** A step that keeps the parser invariant and does not move backwards. *)
Definition step (m : M unit) (s : Parser) : Prop :=
  wp m (fun _ s' => PI s' /\ (p_offset s <= p_offset s')%nat) E s.

Lemma parser_inv_moves s s' : PI s -> I s' -> moves s s' -> PI s'.
Proof.
  intros (_ & Hc & Hs) HI' [? Ec Es Ei ?]. split; [done|]. split; [by rewrite Ec|].
  unfold section_inv in *. by rewrite Es, Ei, Ec.
Qed.

Lemma step_bind {A} (m : M A) (k : A -> M unit) (P : A -> Prop) s :
  PI s -> lex m (fun _ a _ => P a) s ->
  (forall a s', PI s' -> (p_offset s <= p_offset s')%nat -> moves s s' -> P a -> step (k a) s') ->
  step (bind m k) s.
Proof.
  intros HP Hm Hk. eapply wp_use; [exact Hm|]. intros a s' (HI' & Hmv & Ha).
  eapply wp_mono; [apply Hk; [by eapply parser_inv_moves|by destruct Hmv|done|done]|].
  intros [] s2 [HP2 Ho]. split; [done|]. destruct Hmv. lia.
Qed.

Lemma step_fail_at cat l c ctx msg s :
  PI s -> cat <> FACET_CONFIG_DIAGNOSTIC_NONE -> step (fail_at cat l c ctx msg) s.
Proof. intros [HI _] ?. by eapply wp_fail_at. Qed.

(** Changing the configuration alone keeps the cursor. *)
Lemma step_modify_config f s :
  PI s -> config_inv (f (p_config s)) ->
  section_inv (set_p_config (f (p_config s)) s) -> step (modify_config f) s.
Proof.
  intros (HI & _ & _) Hc Hs. unfold step, wp. simpl. split; [|done]. split; [destruct HI; by constructor|by split].
Qed.


Lemma step_update_section {A} (a : section_array A) f s :
  PI s -> p_section s = sa_kind a ->
  (forall r s', sa_inv a r -> I s' -> lex (f r) (fun _ r' _ => sa_inv a r') s') ->
  step (update_section (sa_get a) (sa_set a) f) s.
Proof.
  intros HP Hk Hf. pose proof HP as (HI & Hc & Hs). apply wp_gets. apply wp_gets.
  apply (sa_section a s Hk) in Hs as Hlt.
  apply lookup_lt_is_Some_2 in Hlt as [r Hr]. rewrite Hr.
  destruct (sa_config a _ Hc) as [Hall Hlen].
  apply wp_ret_bind. eapply (step_bind _ _ (sa_inv a)); [done| |].
  { apply Hf; [|done]. by eapply Forall_lookup_1. }
  intros r' s1 HP1 Ho Hm Hr'. pose proof HP1 as (HI1 & Hc1 & Hs1). apply step_modify_config; [done| |].
  - apply (sa_update a); [done|by apply Forall_insert|]. unfold zlen in *. by rewrite length_insert.
  - apply (sa_section a); [destruct Hm; simpl; congruence|]. simpl.
    rewrite (sa_get_set a), length_insert. destruct Hm as [_ Ec _ Ei _].
    rewrite Ei, <- (sa_section a s Hk). done.
Qed.

Lemma step_apply_facet n k v l c s : PI s -> value_ok n v -> step (apply_facet k v l c) s.
Proof.
  intros HP Hv. pose proof HP as (HI & Hc & Hs). apply wp_gets. case_goal.
  - case_goal; [by apply step_fail_at|]. eapply step_bind; [done|by eapply lex_take_string|].
    intros x s1 HP1 Ho Hm Hx. pose proof HP1 as (HI1 & Hc1 & Hs1). apply step_modify_config; [done| |done].
    destruct Hc1; by constructor.
  - repeat (case_goal; [by apply step_fail_at|]). apply wp_kind; [done|]. intros Hk.
    destruct v; try done. cbn [as_integer]. apply wp_ret_bind. case_goal; [by apply step_fail_at|].
    apply step_modify_config; [done| |done]. destruct Hc; by constructor.
Qed.

Lemma step_apply_value n k v l c s : PI s -> value_ok n v -> step (apply_value malloc_ok k v l c) s.
Proof.
  intros HP Hv. eapply (step_bind _ _ (fun _ => True)); [done| |].
  { eapply wp_mono; [apply lex_consume_entry, HP|]. intros [] s' (? & ? & _). eauto. }
  intros _ s1 HP1 Ho Hm _. apply wp_gets. destruct (p_section s1) eqn:Es; [by apply step_fail_at|..].
  - by eapply step_apply_facet.
  - apply (step_update_section sa_sinks); [done|done|]. intros. by eapply lex_apply_sink.
  - apply (step_update_section sa_sources); [done|done|]. intros. by eapply lex_apply_source.
  - apply (step_update_section sa_users); [done|done|]. intros. by eapply lex_apply_user.
  - apply (step_update_section sa_seats); [done|done|]. intros. by eapply lex_apply_seat.
  - apply (step_update_section sa_domains); [done|done|]. intros. by eapply lex_apply_domain.
Qed.

Lemma lex_grow_array {A} (l : list A) zero s :
  I s -> lex (grow_array malloc_ok l zero)
           (fun _ r _ => r = l ++ [zero] /\ zlen r <= FACET_CONFIG_MAX_ARRAY_ELEMENTS) s.
Proof.
  intros HI. unfold grow_array. case_goal; [by eapply wp_fail|].
  eapply wp_allocate; [done|]. intros s' HI' Hm _. apply wp_ret. repeat split; try done; try apply HI'; try apply Hm.
  unfold zlen in *. rewrite length_app. simpl. lia.
Qed.

Lemma step_enter_section {A} (a : section_array A) zero s :
  PI s -> sa_inv a zero ->
  step (enter_section malloc_ok (sa_kind a) (sa_get a) (sa_set a) zero) s.
Proof.
  intros HP Hz. apply wp_gets. eapply step_bind; [done|apply lex_grow_array, HP|].
  intros r s1 HP1 Ho Hm [-> Hlen]. destruct HP1 as (HI1 & Hc1 & _). destruct HP as (_ & Hc & _).
  destruct (sa_config a _ Hc) as [Hall _].
  unfold step, wp. simpl. split; [|done]. split; [destruct HI1; by constructor|]. split.
  - apply (sa_update a); [done| |done]. apply Forall_app. by repeat constructor.
  - apply (sa_section a); [done|]. simpl. rewrite (sa_get_set a), length_app. simpl. lia.
Qed.

Context (Hok : bytes_ok data) (Hutf : utf8 data).

(** A lexical step followed by one that keeps the invariant. *)
Lemma step_lex {A} (m : M A) (k : A -> M unit) s :
  PI s -> lex m (fun _ _ _ => True) s ->
  (forall a s', PI s' -> step (k a) s') -> step (bind m k) s.
Proof. intros HP Hm Hk. eapply step_bind; [done|exact Hm|]. auto. Qed.

Lemma lex_weaken {A} (m : M A) Q s : lex m Q s -> lex m (fun _ _ _ => True) s.
Proof. intros H. eapply wp_mono; [exact H|]. intros a s' (? & ? & _). eauto. Qed.

Lemma step_set_facet s :
  PI s -> step (modify (set_p_facet_seen true) ;;; modify (set_p_section SECTION_FACET)) s.
Proof.
  intros (HI & Hc & Hs). unfold step, wp. simpl. split; [|done].
  split; [destruct HI; by constructor|]. by split.
Qed.

Lemma step_enter_table array name line column s :
  PI s -> step (enter_table malloc_ok array name line column) s.
Proof.
  intros HP. apply wp_gets. generalize (p_facet_seen s). intros seen.
  case_goal; [by apply step_fail_at|].
  apply step_lex; [done|eapply lex_weaken, lex_consume_entry, HP|]. intros _ s1 HP1. clear HP.
  repeat (case_goal; [first
    [ by apply step_fail_at | by apply step_set_facet
    | by apply (step_enter_section sa_sinks), zero_sink_inv
    | by apply (step_enter_section sa_sources), zero_source_inv
    | by apply (step_enter_section sa_users), zero_user_inv
    | by apply (step_enter_section sa_seats), zero_seat_inv
    | by apply (step_enter_section sa_domains), zero_domain_inv
    | case_goal; [by apply step_fail_at|by apply step_set_facet] ]|]); by apply step_fail_at.
Qed.

Lemma lex_take_flag (b : bool) s : I s -> lex (if b then take ;;; ret tt else ret tt) (fun _ _ _ => True) s.
Proof.
  intros HI. destruct b; [|apply wp_ret; eauto with facet].
  eapply wp_use; [by apply lex_take|]. intros c s' (? & ? & _). apply wp_ret. eauto.
Qed.

Lemma lex_close (c : Z) (array : bool) s :
  I s -> lex (if negb (c =? 93) then ret false
              else if array then let! c := take in ret (c =? 93) else ret true) (fun _ _ _ => True) s.
Proof.
  intros HI. destruct (negb _); [by apply lex_ret|]. destruct array; [|by apply lex_ret].
  eapply wp_use; [by apply lex_take|]. intros c' s' (? & ? & _). apply wp_ret. eauto.
Qed.

(** A step that also consumes input. *)
Definition advances (m : M unit) (s : Parser) : Prop :=
  wp m (fun _ s' => PI s' /\ (p_offset s < p_offset s')%nat) E s.

Lemma advances_lex {A} (m : M A) (k : A -> M unit) Q s :
  PI s -> lex m Q s -> (forall a s', Q s a s' -> (p_offset s < p_offset s')%nat) ->
  (forall a s', PI s' -> step (k a) s') -> advances (bind m k) s.
Proof.
  intros HP Hm Ho Hk. eapply wp_use; [exact Hm|]. intros a s' (HI' & Hmv & Hq).
  eapply wp_mono; [apply Hk; by eapply parser_inv_moves|].
  intros [] s2 [HP2 Ho2]. split; [done|]. specialize (Ho _ _ Hq). lia.
Qed.

Lemma advances_parse_header s : PI s -> 0 <= cur s -> advances (parse_header malloc_ok) s.
Proof.
  intros HP Hc. eapply advances_lex; [done|apply lex_take_seen; [apply HP|done]| |].
  { intros a s' (_ & _ & ->). lia. }
  intros _ s1 HP1. apply wp_current. cbv zeta.
  apply step_lex; [done|apply lex_take_flag, HP1|]. intros _ s2 HP2.
  apply step_lex; [done|apply lex_skip, HP2|]. intros _ s3 HP3. do 2 apply wp_gets.
  apply step_lex; [done|by eapply lex_weaken, lex_parse_key, HP3|]. intros name s4 HP4.
  apply step_lex; [done|apply lex_skip, HP4|]. intros _ s5 HP5.
  apply step_lex; [done|eapply lex_weaken, lex_take, HP5|]. intros c s6 HP6.
  apply step_lex; [done|apply lex_close, HP6|]. intros closed s7 HP7.
  case_goal; [by apply step_fail_at|by apply step_enter_table].
Qed.

End ApplySpecs.
