(* ===== verification/ConfigValidateFacts.v ===== *)
(** What a configuration that passes validation promises, and the proof that the
    validation establishes it without reading an absent string or record. *)
From stdpp Require Import sets.
From S2P Require Import Prelude Utf8 ConfigTypes ConfigLexer ConfigValue ConfigApply ConfigValidate.
From S2P Require Import ConfigWp ConfigStrings ConfigApplyFacts.

(** ** The contract of an accepted configuration *)

Definition nonempty (p : option bytes) : Prop := exists s, p = Some s /\ s <> [].
Definition absolute_path (p : option bytes) : Prop := exists s, p = Some s /\ head s = Some 47.
Definition optional_path (p : option bytes) : Prop := match p with Some s => head s = Some 47 | None => True end.

Definition sink_wf (r : FacetConfigLoggingSinkDefinition) : Prop :=
  nonempty (sink_name r) /\ nonempty (sink_type r).

Definition source_wf (r : FacetConfigAuthenticationSource) : Prop :=
  nonempty (source_name r) /\ nonempty (source_type r).

(** A crypt setting: [$5$], a non-empty salt, a dollar sign and a digest. *)
Definition password_hash_wf (p : option bytes) : Prop :=
  exists salt digest, p = Some (B "$5$" ++ salt ++ [36] ++ digest) /\
    salt <> [] /\ (36 ∉ salt) /\ digest <> [].

Definition user_wf (u : FacetConfigUser) : Prop :=
  nonempty (user_name u) /\ password_hash_wf (password_hash u) /\
  absolute_path (home_path u) /\ optional_path (native_shell u) /\ optional_path (posix_shell u).

Definition no_dot (s : bytes) : Prop := 46 ∉ s.

Definition seat_wf (r : FacetConfigSeatDefinition) : Prop :=
  (exists n, seat_name r = Some n /\ n <> [] /\ no_dot n) /\ absolute_path (seat_server r) /\
  Forall (fun t => t <> [] /\ no_dot t) (seat_terminals r) /\ NoDup (seat_terminals r).

(** Root is user and group 0, an administrator, with the development password. *)
Definition root_wf (u : FacetConfigUser) : Prop :=
  user_name u = Some (B "root") /\ admin u = true /\ uid u = 0 /\ gid u = 0 /\
  password_hash u = Some development_hash.

(** The sink that a use names. *)
Definition use_wf (c : FacetSystemConfig) (r : FacetConfigDomainSink) : Prop :=
  exists sink, logging_sinks c !! sink_definition_index r = Some sink /\ sink_name sink = use_name r.

(** The seat terminal that an assignment names, as seat, dot, terminal. *)
Definition terminal_wf (c : FacetSystemConfig) (d : FacetConfigDomain)
    (t : FacetConfigTerminalAssignment) : Prop :=
  (exists seat seat_nm terminal_nm,
     seats c !! seat_index t = Some seat /\ seat_name seat = Some seat_nm /\
     seat_terminals seat !! terminal_index t = Some terminal_nm /\
     reference t = Some (seat_nm ++ [46] ++ terminal_nm)) /\
  (forall name, run_as t = Some name ->
     Some name ∈ map user_name (users c) \/ Some name ∈ map user_name (domain_users d)).

Definition domain_wf (c : FacetSystemConfig) (d : FacetConfigDomain) : Prop :=
  nonempty (domain_name d) /\ nonempty (initrd d) /\
  personality d <> FACET_CONFIG_PERSONALITY_VM /\
  (personality d = FACET_CONFIG_PERSONALITY_POSIX -> nonempty (pid1 d)) /\
  Forall user_wf (domain_users d) /\
  NoDup (map user_name (domain_users d)) /\
  (forall u, u ∈ domain_users d -> user_name u ∉ map user_name (users c)) /\
  domain_sinks d <> [] /\ domain_terminals d <> [] /\
  Forall (use_wf c) (domain_sinks d) /\ NoDup (map use_name (domain_sinks d)) /\
  Forall (terminal_wf c d) (domain_terminals d) /\
  (personality d = FACET_CONFIG_PERSONALITY_POSIX -> NoDup (map device_name (domain_terminals d))) /\
  (forall name, authentication_source d = Some name -> exists source,
     authentication_sources c !! Z.to_nat (authentication_source_index d) = Some source /\
     source_name source = Some name).

Definition all_terminals (ds : list FacetConfigDomain) : list FacetConfigTerminalAssignment :=
  mbind domain_terminals ds.

Record config_wf (c : FacetSystemConfig) : Prop := {
  wf_version : version c = 1;
  wf_sinks : Forall sink_wf (logging_sinks c);
  wf_sink_names : NoDup (map sink_name (logging_sinks c));
  wf_seats : Forall seat_wf (seats c);
  wf_seat_names : NoDup (map seat_name (seats c));
  wf_sources : Forall source_wf (authentication_sources c);
  wf_source_names : NoDup (map source_name (authentication_sources c));
  wf_users : Forall user_wf (users c);
  wf_user_names : NoDup (map user_name (users c));
  wf_root : exists u, u ∈ users c /\ root_wf u;
  wf_domains : Forall (domain_wf c) (domains c);
  wf_domain_ids : NoDup (map domain_id (domains c));
  wf_domain_names : NoDup (map domain_name (domains c));
  wf_domain_images : NoDup (map initrd (domains c));
  wf_root_domain : exists d, domains c !! root_index c = Some d /\ domain_id d = 0;
  wf_terminals : NoDup (map terminal_slot (all_terminals (domains c)));
  wf_providers : Forall (fun source => exists d,
    domains c !! provider_domain_index source = Some d /\
    domain_id d = provider_domain_id source) (authentication_sources c);
  wf_seat_initrd : nonempty (seat_initrd c)
}.

(** ** A logic for checks: the state is the configuration *)

Section ValidateSpecs.
Context (data : bytes) (d0 : option FacetConfigDiagnostic).

Abbreviation I := (cursor data d0).
Abbreviation E := (reported d0).

(** From a parser whose configuration is [c], [m] reports an error or returns with
    a result and a configuration related by [Q]. *)
Definition checks {A} (m : M A) (c : FacetSystemConfig) (Q : A -> FacetSystemConfig -> Prop) : Prop :=
  forall s, I s -> p_config s = c ->
  wp m (fun a s' => I s' /\ p_facet_seen s' = p_facet_seen s /\ Q a (p_config s')) E s.

Lemma checks_ret {A} (a : A) c Q : Q a c -> checks (ret a) c Q.
Proof. intros HQ s HI <-. by apply wp_ret. Qed.

Lemma checks_bind {A C} (m : M A) (k : A -> M C) c Q R :
  checks m c Q -> (forall a c', Q a c' -> checks (k a) c' R) -> checks (bind m k) c R.
Proof.
  intros Hm Hk s HI Hc. eapply wp_use; [by apply Hm|]. intros a s' (HI' & Hs & HQ).
  eapply wp_mono; [by eapply Hk|]. intros b s2 (? & Hs2 & ?). rewrite Hs2. auto.
Qed.

Lemma checks_mono {A} (m : M A) c (Q R : A -> FacetSystemConfig -> Prop) :
  checks m c Q -> (forall a c', Q a c' -> R a c') -> checks m c R.
Proof. intros Hm HR s HI Hc. eapply wp_mono; [by apply Hm|]. intros a s' (? & ? & ?). eauto. Qed.

Lemma checks_error {A} cat ctx msg c (Q : A -> FacetSystemConfig -> Prop) :
  cat <> FACET_CONFIG_DIAGNOSTIC_NONE -> checks (fail_at cat 0 0 ctx msg) c Q.
Proof. intros Hc s HI <-. by eapply wp_fail_at. Qed.

Lemma checks_get {A C} (f : FacetSystemConfig -> A) (k : A -> M C) c Q :
  checks (k (f c)) c Q -> checks (bind (config_get f) k) c Q.
Proof. intros Hk s HI Hc. apply wp_gets. rewrite Hc. by apply Hk. Qed.

Lemma checks_modify f c (Q : unit -> FacetSystemConfig -> Prop) :
  Q tt (f c) -> checks (modify_config f) c Q.
Proof.
  intros HQ s HI Hc. unfold wp. simpl. rewrite Hc. split; [destruct HI; by constructor|done].
Qed.

Lemma checks_deref {A C} (p : option A) a (k : A -> M C) c Q :
  p = Some a -> checks (k a) c Q -> checks (bind (deref p) k) c Q.
Proof. intros -> Hk s HI Hc. by apply Hk. Qed.

Lemma checks_strings l c :
  Forall is_Some l -> checks (strings l) c (fun r c' => c' = c /\ map Some r = l).
Proof.
  unfold strings. induction 1 as [|p l [x ->] _ IH]; cbn [traverse]; [by apply checks_ret|].
  apply (checks_deref _ x); [done|]. eapply checks_bind; [exact IH|]. intros r c' [-> Hr].
  apply checks_ret. simpl. by rewrite Hr.
Qed.

Lemma checks_fold_range {A} (body : nat -> A -> M A) count c a
    (Inv : nat -> A -> FacetSystemConfig -> Prop) :
  Inv 0%nat a c ->
  (forall i a c, (i < count)%nat -> Inv i a c -> checks (body i a) c (Inv (S i))) ->
  checks (fold_range count 0 body a) c (Inv count).
Proof.
  intros H0 Hb s HI Hc.
  eapply wp_mono;
    [apply (wp_fold_range _ _ _ (fun i a s' => I s' /\ p_facet_seen s' = p_facet_seen s /\ Inv i a (p_config s')));
       [by subst|]|done].
  intros i a' s1 Hi (HI1 & Hs1 & Hinv). eapply wp_mono; [eapply Hb; [lia|done|done|done]|].
  intros a2 s2 (? & ? & ?). split; [done|]. split; [congruence|done].
Qed.

(** A loop over the records of an array that reads them and remembers [P], while
    the key [f] of each is found different from the earlier ones. *)
Lemma checks_scan {A K} (body : nat -> M unit) (l : list A) (f : A -> K) (P : A -> Prop) c :
  (forall i x, l !! i = Some x -> Forall P (firstn i l) ->
     checks (body i) c (fun _ c' => c' = c /\ P x /\ f x ∉ map f (firstn i l))) ->
  checks (for_range (length l) body) c (fun _ c' => c' = c /\ Forall P l /\ NoDup (map f l)).
Proof.
  intros Hb. eapply checks_mono;
    [apply (checks_fold_range _ _ _ _ (fun i _ c' =>
       c' = c /\ Forall P (firstn i l) /\ NoDup (map f (firstn i l))))|].
  - repeat split; constructor.
  - intros i [] c' Hi (-> & HP & Hnd). apply lookup_lt_is_Some_2 in Hi as [x Hx].
    eapply checks_mono; [by apply Hb|]. intros [] c'' (-> & Hpx & Hf). split; [done|].
    erewrite take_S_r by done. rewrite map_app. split.
    + apply Forall_app. by repeat constructor.
    + apply NoDup_app. split; [done|]. split; [|apply NoDup_singleton].
      intros k Hk ->%list_elem_of_singleton. done.
  - intros [] c'. by rewrite firstn_all.
Qed.

(** ** Required keys *)

Lemma has_bits_test present required b :
  has_bits present required = true -> Z.testbit required b = true -> Z.testbit present b = true.
Proof.
  unfold has_bits. intros H%Z.eqb_eq Hb. rewrite <- H, Z.land_spec in Hb. by apply andb_prop in Hb as [? _].
Qed.

(** The string of a key that the required mask includes. *)
Lemma present_some present required b p :
  present_ok present b p -> has_bits present required = true -> Z.testbit required b = true ->
  exists s, p = Some s /\ string_ok s.
Proof.
  intros [Ho Hp] Hr Hb. destruct (Hp (has_bits_test _ _ _ Hr Hb)) as [s ->]. eauto.
Qed.

Lemma member_map s l r : map Some r = l -> member s r = false -> Some s ∉ l.
Proof.
  intros <- Hm Hin. apply list_elem_of_fmap in Hin as (x & [= <-] & Hx).
  unfold member in Hm. apply not_true_iff_false in Hm. apply Hm, existsb_exists.
  exists s. split; [by apply list_elem_of_In|apply bytes_eqb_refl].
Qed.

Lemma member_true s r : member s r = true -> s ∈ r.
Proof.
  unfold member. intros (x & Hx & Heq)%existsb_exists. apply bytes_eqb_eq in Heq as ->.
  by apply list_elem_of_In.
Qed.

(** Read the names of earlier records and compare. *)
Lemma checks_earlier {A C} (f : A -> option bytes) (l : list A) name (bad good : M C) c Q :
  Forall (fun x => is_Some (f x)) l -> checks bad c Q ->
  (Some name ∉ map f l -> checks good c Q) ->
  checks (let! earlier := strings (map f l) in if member name earlier then bad else good) c Q.
Proof.
  intros Hl Hbad Hgood. eapply checks_bind; [apply checks_strings; by apply Forall_fmap|].
  intros r c' [-> Hr]. destruct (member name r) eqn:Em; [done|]. apply Hgood. by eapply member_map.
Qed.

Lemma nonempty_some p : nonempty p -> is_Some p.
Proof. intros (s & -> & _). eauto. Qed.

Lemma absolute_spec s : absolute s = true -> head s = Some 47.
Proof. unfold absolute. intros. by bool_props. Qed.

Lemma checks_validate_sink c i sink :
  Forall sink_inv (logging_sinks c) -> logging_sinks c !! i = Some sink ->
  Forall sink_wf (firstn i (logging_sinks c)) ->
  checks (validate_sink i) c
    (fun _ c' => c' = c /\ sink_wf sink /\ sink_name sink ∉ map sink_name (firstn i (logging_sinks c))).
Proof.
  intros Hinv Hi Hwf. apply checks_get. apply (checks_deref _ sink); [done|].
  destruct (has_bits _ _) eqn:Hb; simpl; [|by apply checks_error].
  pose proof (Forall_lookup_1 _ _ _ _ Hinv Hi) as [H0 H1].
  destruct (present_some _ _ _ _ H0 Hb) as (name & Hn & _); [done|].
  destruct (present_some _ _ _ _ H1 Hb) as (type & Ht & _); [done|].
  apply (checks_deref _ name); [done|]. apply (checks_deref _ type); [done|].
  destruct (_ || _)%bool eqn:Ee; [by apply checks_error|]. bool_props.
  apply checks_earlier; [|by apply checks_error|].
  - eapply Forall_impl; [exact Hwf|]. intros x [? _]. by apply nonempty_some.
  - intros Hnew. apply checks_ret. split; [done|]. rewrite Hn. split; [|done].
    split; [exists name|exists type]; by split.
Qed.

Lemma has_dot_false s : has_dot s = false -> no_dot s.
Proof.
  unfold has_dot. intros H%bool_decide_eq_false. apply strchr_None. destruct (strchr s 46); [|done].
  by destruct H.
Qed.

Lemma checks_seat_terminal c nm terminals j t :
  terminals !! j = Some t ->
  checks (validate_seat_terminal nm terminals j) c
    (fun _ c' => c' = c /\ (t <> [] /\ no_dot t) /\ t ∉ map id (firstn j terminals)).
Proof.
  intros Hj. apply (checks_deref _ t); [done|].
  destruct (_ || _)%bool eqn:Ee; [by apply checks_error|]. bool_props.
  destruct (member t _) eqn:Em; [by apply checks_error|]. apply checks_ret. split; [done|].
  split; [split; [done|by apply has_dot_false]|].
  intros Hin. rewrite list_fmap_id in Hin. apply (member_map _ _ _ eq_refl) in Em. apply Em.
  by apply list_elem_of_fmap_2.
Qed.

Lemma seat_wf_name x : seat_wf x -> is_Some (seat_name x).
Proof. intros ((n & -> & _) & _). eauto. Qed.

Lemma checks_validate_seat c i seat :
  Forall seat_inv (seats c) -> seats c !! i = Some seat -> Forall seat_wf (firstn i (seats c)) ->
  checks (validate_seat i) c
    (fun _ c' => c' = c /\ seat_wf seat /\ seat_name seat ∉ map seat_name (firstn i (seats c))).
Proof.
  intros Hinv Hi Hwf. apply checks_get. apply (checks_deref _ seat); [done|].
  destruct (has_bits _ _) eqn:Hb; simpl; [|by apply checks_error].
  pose proof (Forall_lookup_1 _ _ _ _ Hinv Hi) as (H0 & H1 & _).
  destruct (present_some _ _ _ _ H0 Hb) as (name & Hn & _); [done|].
  destruct (present_some _ _ _ _ H1 Hb) as (server & Hs & _); [done|].
  apply (checks_deref _ name); [done|]. apply (checks_deref _ server); [done|].
  destruct (_ || _)%bool eqn:Ee; [by apply checks_error|].
  apply orb_false_iff in Ee as [[[E1 E2]%orb_false_iff E3]%orb_false_iff E4]. bool_props.
  apply checks_earlier; [|by apply checks_error|].
  - eapply Forall_impl; [exact Hwf|]. apply seat_wf_name.
  - intros Hnew. eapply checks_mono; [eapply (checks_scan _ _ id); intros; by eapply checks_seat_terminal|].
    intros [] c' (-> & Hts & Hnd). rewrite list_fmap_id in Hnd. rewrite Hn. split; [done|].
    split; [|done]. split; [|split; [|split; [exact Hts|exact Hnd]]].
    + exists name. auto using has_dot_false.
    + exists server. auto using absolute_spec.
Qed.

Lemma checks_validate_source c i source :
  Forall source_inv (authentication_sources c) -> authentication_sources c !! i = Some source ->
  Forall source_wf (firstn i (authentication_sources c)) ->
  checks (validate_source i) c (fun _ c' => c' = c /\ source_wf source /\
    source_name source ∉ map source_name (firstn i (authentication_sources c))).
Proof.
  intros Hinv Hi Hwf. apply checks_get. apply (checks_deref _ source); [done|].
  destruct (has_bits _ _) eqn:Hb; simpl; [|by apply checks_error].
  pose proof (Forall_lookup_1 _ _ _ _ Hinv Hi) as (H0 & H1 & _).
  destruct (present_some _ _ _ _ H0 Hb) as (name & Hn & _); [done|].
  destruct (present_some _ _ _ _ H1 Hb) as (type & Ht & _); [done|].
  apply (checks_deref _ name); [done|]. apply (checks_deref _ type); [done|].
  destruct (_ || _)%bool eqn:Ee; [by apply checks_error|]. bool_props.
  apply checks_earlier; [|by apply checks_error|].
  - eapply Forall_impl; [exact Hwf|]. intros x [? _]. by apply nonempty_some.
  - intros Hnew. apply checks_ret. split; [done|]. rewrite Hn. split; [|done].
    split; [exists name|exists type]; by split.
Qed.

Lemma valid_password_hash_spec text :
  valid_password_hash text = true -> password_hash_wf (Some text).
Proof.
  unfold valid_password_hash. destruct (firstn 3 text =b B "$5$") eqn:E1; [|done]. simpl negb. cbv iota.
  destruct (strchr (skipn 3 text) 36) as [d|] eqn:E2; [|done]. intros H. bool_props.
  apply strchr_Some in E2 as [Hsplit Hno]. exists (firstn d (skipn 3 text)), (skipn (S d) (skipn 3 text)).
  split; [|split; [|done]].
  - f_equal. rewrite <- (firstn_skipn 3 text) at 1. rewrite E1. f_equal. exact Hsplit.
  - intros Hnil. apply (f_equal length) in Hnil. rewrite length_firstn in Hnil.
    apply (f_equal length) in Hsplit. rewrite !length_app in Hsplit. simpl in *. lia.
Qed.

Lemma checks_validate_user u ctx c :
  user_inv u -> checks (validate_user u ctx) c (fun _ c' => c' = c /\ user_wf u).
Proof.
  intros (H0 & H1 & H2 & _). unfold validate_user.
  destruct (has_bits _ _) eqn:Hb; simpl; [|by apply checks_error].
  destruct (present_some _ _ _ _ H0 Hb) as (name & Hn & _); [done|].
  destruct (present_some _ _ _ _ H1 Hb) as (hash & Hh & _); [done|].
  destruct (present_some _ _ _ _ H2 Hb) as (home & Hp & _); [done|].
  rewrite Hn, Hh. destruct (_ || _)%bool eqn:Ee; [by apply checks_error|].
  apply orb_false_iff in Ee as [E1 E2]. bool_props. apply (checks_deref _ home); [done|].
  destruct (absolute home) eqn:Ea; simpl; [|by apply checks_error].
  destruct (_ || _)%bool eqn:Er; [by apply checks_error|]. apply orb_false_iff in Er as [Er1 Er2].
  apply checks_ret. split; [done|]. split; [by exists name|]. rewrite Hh. split; [by apply valid_password_hash_spec|].
  split; [exists home; auto using absolute_spec|].
  split; [destruct (native_shell u)|destruct (posix_shell u)]; simpl; try done;
    apply absolute_spec; by bool_props.
Qed.

Lemma user_wf_name u : user_wf u -> is_Some (user_name u).
Proof. intros [? _]. by apply nonempty_some. Qed.

Lemma NoDup_snoc {A} (l : list A) x : NoDup l -> x ∉ l -> NoDup (l ++ [x]).
Proof.
  intros Hl Hx. apply NoDup_app. split; [done|]. split; [|apply NoDup_singleton].
  intros y Hy ->%list_elem_of_singleton. done.
Qed.

(** The users checked so far, among which root was found or not. *)
Definition users_checked (l : list FacetConfigUser) (root_found : bool) : Prop :=
  Forall user_wf l /\ NoDup (map user_name l) /\
  (root_found = true -> exists u, u ∈ l /\ root_wf u).

Lemma users_checked_snoc l u found found' :
  users_checked l found -> user_wf u -> user_name u ∉ map user_name l ->
  (found' = true -> found = true \/ root_wf u) -> users_checked (l ++ [u]) found'.
Proof.
  intros (Hwf & Hnd & Hroot) Hu Hn Hf. split; [apply Forall_app_2; [done|by apply Forall_singleton]|].
  split; [rewrite map_app; by apply NoDup_snoc|]. intros H. destruct (Hf H) as [H'|H'].
  - destruct (Hroot H') as (r & ? & ?). exists r. set_solver.
  - exists u. set_solver.
Qed.

Lemma checks_validate_global_user c i found u :
  Forall user_inv (users c) -> users c !! i = Some u -> users_checked (firstn i (users c)) found ->
  checks (validate_global_user i found) c
    (fun found' c' => c' = c /\ users_checked (firstn (S i) (users c)) found').
Proof.
  intros Hinv Hi Hwf. apply checks_get. apply (checks_deref _ u); [done|].
  eapply checks_bind; [apply checks_validate_user; by eapply Forall_lookup_1|].
  intros [] c' [-> Hu]. pose proof Hu as ((name & Hn & _) & (salt & digest & Hh & _) & _).
  apply (checks_deref _ name); [done|]. erewrite take_S_r by done.
  apply checks_earlier; [|by apply checks_error|].
  { eapply Forall_impl; [apply Hwf|]. apply user_wf_name. }
  intros Hnew. rewrite <- Hn in Hnew. destruct (name =b B "root") eqn:Er; bool_props.
  - eapply checks_deref; [done|]. destruct (_ || _)%bool eqn:Ee; [by apply checks_error|].
    bool_props. apply checks_ret. split; [done|]. eapply users_checked_snoc; try done.
    intros _. right. repeat split; try done; congruence.
  - apply checks_ret. split; [done|]. eapply users_checked_snoc; eauto.
Qed.

Lemma checks_global_users c :
  Forall user_inv (users c) ->
  checks (fold_range (length (users c)) 0 validate_global_user false) c
    (fun found c' => c' = c /\ users_checked (users c) found).
Proof.
  intros Hinv. eapply checks_mono;
    [apply (checks_fold_range _ _ _ _ (fun i found c' => c' = c /\ users_checked (firstn i (users c)) found))|].
  - split; [done|]. repeat split; try constructor. done.
  - intros i found c' Hi (-> & Hwf). apply lookup_lt_is_Some_2 in Hi as [u Hu].
    by eapply checks_validate_global_user.
  - intros found c'. by rewrite firstn_all.
Qed.

(** ** Domains *)

Lemma checks_domain_user c d nm j u :
  Forall user_wf (users c) -> Forall user_inv (domain_users d) -> domain_users d !! j = Some u ->
  Forall (fun u => user_wf u /\ user_name u ∉ map user_name (users c)) (firstn j (domain_users d)) ->
  checks (validate_domain_user d nm j) c
    (fun _ c' => c' = c /\ (user_wf u /\ user_name u ∉ map user_name (users c)) /\
                 user_name u ∉ map user_name (firstn j (domain_users d))).
Proof.
  intros Hg Hinv Hj Hwf. apply (checks_deref _ u); [done|].
  eapply checks_bind; [apply checks_validate_user; by eapply Forall_lookup_1|].
  intros [] c' [-> Hu]. pose proof Hu as ((name & Hn & _) & _).
  apply (checks_deref _ name); [done|]. apply checks_get.
  apply checks_earlier; [eapply Forall_impl; [exact Hg|apply user_wf_name]|by apply checks_error|].
  intros Hglobal.
  apply checks_earlier; [eapply Forall_impl; [exact Hwf|intros x [? _]; by apply user_wf_name]|by apply checks_error|].
  intros Hnew. apply checks_ret. rewrite Hn. auto.
Qed.

(** [c] with its [i]-th domain replaced. *)
Definition put_domain (i : nat) (d : FacetConfigDomain) (c : FacetSystemConfig) : FacetSystemConfig :=
  set_domains (<[i := d]> (domains c)) c.

Lemma put_domain_same i d c : domains c !! i = Some d -> put_domain i d c = c.
Proof. intros H. unfold put_domain. rewrite list_insert_id by done. by destruct c. Qed.

Lemma put_domain_lookup i d c : is_Some (domains c !! i) -> domains (put_domain i d c) !! i = Some d.
Proof. intros H%lookup_lt_is_Some. by apply list_lookup_insert_eq. Qed.

Lemma checks_update_domain i d c f :
  is_Some (domains c !! i) ->
  checks (update_domain i f) (put_domain i d c) (fun _ c' => c' = put_domain i (f d) c).
Proof.
  intros Hi%lookup_lt_is_Some. apply checks_modify. unfold put_domain, set_domains. destruct c. simpl in *. f_equal.
  apply list_eq. intros k. destruct (decide (k = i)) as [->|Hk].
  - by rewrite list_lookup_alter_eq, !list_lookup_insert_eq.
  - by rewrite list_lookup_alter_ne, !list_lookup_insert_ne by done.
Qed.

Lemma firstn_alter {A} (f : A -> A) j l x :
  l !! j = Some x -> firstn (S j) (alter f j l) = firstn j l ++ [f x].
Proof.
  intros H. rewrite (take_S_r _ j (f x)) by (by rewrite list_lookup_alter_eq, H).
  rewrite take_alter. by rewrite decide_False by lia.
Qed.

(** What holds of the sink uses once the first [j] are resolved. *)
Definition uses_resolved (c : FacetSystemConfig) (names : list (option bytes)) (j : nat)
    (uses : list FacetConfigDomainSink) : Prop :=
  map use_name uses = names /\ Forall use_inv uses /\
  Forall (use_wf c) (firstn j uses) /\ NoDup (map use_name (firstn j uses)).

Lemma map_alter {A C} (f : A -> C) (g : A -> A) j l :
  (forall x, f (g x) = f x) -> map f (alter g j l) = map f l.
Proof. intros H. revert j. induction l as [|a l IH]; intros [|j]; simpl; [done|done|by rewrite H|by rewrite <- (IH j)]. Qed.

Lemma names_found {A} (f : A -> option bytes) (l : list A) names name k :
  map Some names = map f l -> index_of (bytes_eqb name) names = Some k ->
  exists x, l !! k = Some x /\ f x = Some name.
Proof.
  intros Hn (y & Hy & Heq & _)%index_of_Some. apply bytes_eqb_eq in Heq as <-.
  assert (map Some names !! k = Some (Some name)) as Hk by (by rewrite list_lookup_fmap, Hy).
  rewrite Hn, list_lookup_fmap in Hk. destruct (l !! k) as [x|]; [|done]. exists x. by simplify_eq/=.
Qed.

Lemma checks_domain_sink c i d j uses names :
  Forall sink_wf (logging_sinks c) -> is_Some (domains c !! i) ->
  (j < length uses)%nat -> uses_resolved c names j uses ->
  checks (validate_domain_sink i j) (put_domain i (set_domain_sinks uses d) c)
    (fun _ c' => exists uses', c' = put_domain i (set_domain_sinks uses' d) c /\
                               uses_resolved c names (S j) uses').
Proof.
  intros Hs Hi Hj (Hnames & Hinv & Hwf & Hnd). apply lookup_lt_is_Some_2 in Hj as [u Hu].
  apply checks_get. eapply checks_deref; [by apply put_domain_lookup|].
  apply (checks_deref _ u); [done|].
  pose proof (Forall_lookup_1 _ _ _ _ Hinv Hu) as [[name Hname] Hnok].
  apply (checks_deref _ name); [done|]. apply checks_get. simpl logging_sinks.
  eapply checks_bind; [apply checks_strings, Forall_fmap; eapply Forall_impl; [exact Hs|];
    intros x [? _]; by apply nonempty_some|]. intros all c' [-> Hall].
  destruct (index_of _ all) as [k|] eqn:Ek; [|by apply checks_error].
  eapply names_found in Ek as (sink & Hk & Hkn); [|done].
  eapply checks_bind; [by apply checks_update_domain|]. intros [] c' ->.
  apply checks_earlier; [|by apply checks_error|].
  { apply Forall_take. eapply Forall_impl; [exact Hinv|]. by intros x [? _]. }
  intros Hnew. apply checks_ret. exists (alter (set_sink_definition_index k) j uses). split; [done|].
  split; [by rewrite map_alter|]. split.
  { apply Forall_alter; [done|]. intros x Hx Hx'. done. }
  rewrite (firstn_alter _ _ _ u) by done. split.
  - apply Forall_app_2; [done|]. apply Forall_singleton. exists sink. split; [done|]. simpl. congruence.
  - rewrite map_app. apply NoDup_snoc; [done|]. simpl. by rewrite Hname.
Qed.

Lemma checks_domain_sinks c i d :
  Forall sink_wf (logging_sinks c) -> domains c !! i = Some d -> Forall use_inv (domain_sinks d) ->
  checks (for_range (length (domain_sinks d)) (validate_domain_sink i)) c
    (fun _ c' => exists uses, c' = put_domain i (set_domain_sinks uses d) c /\
       length uses = length (domain_sinks d) /\ Forall use_inv uses /\
       Forall (use_wf c) uses /\ NoDup (map use_name uses)).
Proof.
  intros Hs Hi Hinv. eapply checks_mono;
    [apply (checks_fold_range _ _ _ _ (fun j _ c' => exists uses,
       c' = put_domain i (set_domain_sinks uses d) c /\
       uses_resolved c (map use_name (domain_sinks d)) j uses))|].
  - exists (domain_sinks d). split; [|repeat split; try done; constructor].
    destruct d. symmetry. by apply put_domain_same.
  - intros j [] c' Hj (uses & -> & Hr). apply checks_domain_sink; [done|by rewrite Hi| |done].
    destruct Hr as [Hn _]. apply (f_equal length) in Hn. rewrite !length_map in Hn. lia.
  - intros [] c' (uses & -> & Hn & Hu & Hwf & Hnd). exists uses. split; [done|].
    apply (f_equal length) in Hn. rewrite !length_map in Hn. rewrite <- Hn, firstn_all in *. auto.
Qed.

Lemma resolve_terminal_sound l sn tn k m :
  resolve_terminal l sn tn = Some (k, m) ->
  exists seat, l !! k = Some seat /\ seat_name seat = Some sn /\ seat_terminals seat !! m = Some tn.
Proof.
  unfold resolve_terminal. generalize (seq 0 (length l)). intros ks.
  assert (forall found, (forall k m, found = Some (k, m) -> exists seat,
    l !! k = Some seat /\ seat_name seat = Some sn /\ seat_terminals seat !! m = Some tn) -> forall k m,
    fold_left (fun found k => match l !! k with
      | Some seat => if bool_decide (seat_name seat = Some sn) then
          match index_of (fun t => t =b tn) (seat_terminals seat) with
          | Some m => Some (k, m) | None => found end else found
      | None => found end) ks found = Some (k, m) -> exists seat,
    l !! k = Some seat /\ seat_name seat = Some sn /\ seat_terminals seat !! m = Some tn) as Hfold.
  { induction ks as [|k' ks IH]; intros found Hf; simpl; [done|]. apply IH.
    intros k1 m1. destruct (l !! k') as [seat|] eqn:El; [|by apply Hf].
    destruct (bool_decide _) eqn:En; [|by apply Hf]. bool_props.
    destruct (index_of _ _) as [m'|] eqn:Em; [|by apply Hf]. intros [= <- <-].
    apply index_of_Some in Em as (x & Hx & Hxe & _). bool_props. subst. eauto. }
  by apply Hfold.
Qed.

Lemma split_reference_sound r a b : split_reference r = Some (a, b) -> r = a ++ [46] ++ b.
Proof.
  unfold split_reference. destruct (strchr r 46) as [d|] eqn:Ed; [|done].
  apply strchr_Some in Ed as [Hr _]. destruct (_ || _)%bool; [done|]. intros [= <- <-]. exact Hr.
Qed.

Lemma checks_terminal_user c d run :
  Forall user_wf (users c) -> Forall user_wf (domain_users d) ->
  checks (validate_terminal_user d run) c (fun _ c' => c' = c /\
    forall name, run = Some name ->
    Some name ∈ map user_name (users c) \/ Some name ∈ map user_name (domain_users d)).
Proof.
  intros Hg Hl. destruct run as [name|]; [|by apply checks_ret]. apply checks_get.
  assert (forall l, Forall user_wf l -> Forall is_Some (map user_name l)) as Hsome.
  { intros l Hu. apply Forall_fmap. eapply Forall_impl; [exact Hu|apply user_wf_name]. }
  eapply checks_bind; [by apply checks_strings, Hsome|]. intros global c' [-> Hgl].
  eapply checks_bind; [by apply checks_strings, Hsome|]. intros local c' [-> Hlo].
  destruct (member name global || member name local)%bool eqn:Em; simpl; [|by apply checks_error].
  apply checks_ret. split; [done|]. intros ? [= <-]. rewrite <- Hgl, <- Hlo.
  apply orb_true_iff in Em as [Em|Em]; apply member_true in Em; [left|right]; by apply list_elem_of_fmap_2.
Qed.

(** What holds of a domain's terminals once the first [j] are resolved; [before]
    are the terminals of the earlier domains. *)
Definition terminals_resolved (c : FacetSystemConfig) (d : FacetConfigDomain)
    (before : list FacetConfigTerminalAssignment) (j : nat)
    (ts : list FacetConfigTerminalAssignment) : Prop :=
  length ts = length (domain_terminals d) /\ Forall terminal_inv ts /\
  Forall (terminal_wf c d) (firstn j ts) /\
  NoDup (map terminal_slot (before ++ firstn j ts)) /\
  (personality d = FACET_CONFIG_PERSONALITY_POSIX ->
   Forall (fun t => is_Some (device_name t)) (firstn j ts) /\ NoDup (map device_name (firstn j ts))).

Lemma terminals_resolved_next c d before j ts t k m :
  terminals_resolved c d before j ts -> ts !! j = Some t ->
  (forall name, run_as t = Some name ->
     Some name ∈ map user_name (users c) \/ Some name ∈ map user_name (domain_users d)) ->
  (exists seat sn tn, seats c !! k = Some seat /\ seat_name seat = Some sn /\
     seat_terminals seat !! m = Some tn /\ reference t = Some (sn ++ [46] ++ tn)) ->
  (k, m) ∉ map terminal_slot (before ++ firstn j ts) ->
  (personality d = FACET_CONFIG_PERSONALITY_POSIX ->
   is_Some (device_name t) /\ device_name t ∉ map device_name (firstn j ts)) ->
  terminals_resolved c d before (S j)
    (alter (fun t => set_terminal_index m (set_seat_index k t)) j ts).
Proof.
  intros (Hlen & Hinv & Hwf & Hnd & Hdev) Hj Hrun Hseat Hnew Hd.
  unfold terminals_resolved. rewrite (firstn_alter _ _ _ t) by done.
  split; [by rewrite length_alter|]. split; [by apply Forall_alter|]. split; [|split].
  - apply Forall_app_2; [done|]. apply Forall_singleton. by split.
  - rewrite (assoc_L (++)), map_app. by apply NoDup_snoc.
  - intros Hp. destruct (Hdev Hp) as [Hs Hn]. destruct (Hd Hp) as [Hs' Hn']. split.
    + apply Forall_app_2; [done|]. by apply Forall_singleton.
    + rewrite map_app. by apply NoDup_snoc.
Qed.

Lemma checks_posix_device c d ts t j :
  terminal_inv t ->
  (personality d = FACET_CONFIG_PERSONALITY_POSIX -> Z.testbit (terminal_present t) 3 = true) ->
  (personality d = FACET_CONFIG_PERSONALITY_POSIX ->
     Forall (fun t => is_Some (device_name t)) (firstn j ts)) ->
  checks (if bool_decide (personality d = FACET_CONFIG_PERSONALITY_POSIX) then
            match j with
            | O => ret tt
            | S _ =>
                let! device := deref (device_name t) in
                let! earlier := strings (map device_name (firstn j ts)) in
                if member device earlier then
                  duplicate_error device (B "duplicate posix domain-local device name")
                else ret tt
            end
          else ret tt) c
    (fun _ c' => c' = c /\ (personality d = FACET_CONFIG_PERSONALITY_POSIX ->
       is_Some (device_name t) /\ device_name t ∉ map device_name (firstn j ts))).
Proof.
  intros Ht Hbit Hdev. destruct (bool_decide _) eqn:Ep; bool_props; [|by apply checks_ret].
  assert (is_Some (device_name t)) as [device Hd] by (destruct Ht as (_ & [_ Hsome] & _); auto).
  destruct j as [|j].
  - apply checks_ret. rewrite Hd. split; [done|]. intros _. split; [eauto|apply not_elem_of_nil].
  - apply (checks_deref _ device); [done|]. apply checks_earlier; [by apply Hdev|by apply checks_error|].
    intros Hnew. apply checks_ret. rewrite Hd. eauto.
Qed.

(** The keys that a terminal assignment must have, by personality. *)
Lemma terminal_bits (present : Z) (native : bool) (b : Z) :
  (negb (present =? (if native then Z.lor TERMINAL_REFERENCE (Z.lor TERMINAL_VIEW TERMINAL_INITIAL_PROCESS)
                     else Z.lor TERMINAL_REFERENCE TERMINAL_DEVICE)) &&
   negb (present =? Z.lor (if native then Z.lor TERMINAL_REFERENCE (Z.lor TERMINAL_VIEW TERMINAL_INITIAL_PROCESS)
                     else Z.lor TERMINAL_REFERENCE TERMINAL_DEVICE) TERMINAL_RUN_AS))%bool = false ->
  b = 0 \/ (b = 3 /\ native = false) -> Z.testbit present b = true.
Proof.
  intros H Hb. apply andb_false_iff in H as [H|H]; bool_props; subst present;
    (destruct Hb as [->|[-> ->]]; [by destruct native|done]).
Qed.

Lemma slots_fresh k m l :
  existsb (fun other => bool_decide (terminal_slot other = (k, m))) l = false ->
  (k, m) ∉ map terminal_slot l.
Proof.
  intros H Hin. apply list_elem_of_fmap in Hin as (t & Ht & Hin). apply not_true_iff_false in H.
  apply H, existsb_exists. exists t. split; [by apply list_elem_of_In|]. by apply bool_decide_eq_true.
Qed.

Lemma earlier_terminals_put c i d j :
  is_Some (domains c !! i) ->
  earlier_terminals (domains (put_domain i d c)) i j =
  all_terminals (firstn i (domains c)) ++ firstn j (domain_terminals d).
Proof.
  intros Hi. unfold earlier_terminals, all_terminals. rewrite put_domain_lookup by done.
  f_equal. unfold put_domain. simpl. by rewrite take_insert_ge.
Qed.

Lemma checks_terminal c i d nm j ts :
  Forall user_wf (users c) -> Forall seat_wf (seats c) -> Forall user_wf (domain_users d) ->
  is_Some (domains c !! i) -> (j < length ts)%nat ->
  personality d <> FACET_CONFIG_PERSONALITY_VM ->
  terminals_resolved c d (all_terminals (firstn i (domains c))) j ts ->
  checks (validate_terminal i nm j) (put_domain i (set_domain_terminals ts d) c)
    (fun _ c' => exists ts', c' = put_domain i (set_domain_terminals ts' d) c /\
       terminals_resolved c d (all_terminals (firstn i (domains c))) (S j) ts').
Proof.
  intros Hu Hs Hlu Hi Hj Hvm Hr. pose proof Hr as (_ & Hinv & _ & _ & Hdev).
  apply lookup_lt_is_Some_2 in Hj as [t Ht].
  pose proof (Forall_lookup_1 _ _ _ _ Hinv Ht) as Htinv.
  apply checks_get. eapply checks_deref; [by apply put_domain_lookup|].
  apply (checks_deref _ t); [done|]. cbv zeta. cbn [personality set_domain_terminals].
  destruct (_ && _)%bool eqn:Ebits; [by apply checks_error|].
  pose proof (terminal_bits _ _ 0 Ebits (or_introl eq_refl)) as H0.
  assert (is_Some (reference t)) as [r Hrt] by (destruct Htinv as ([_ H] & _); auto).
  apply (checks_deref _ r); [done|]. destruct (_ || _)%bool eqn:Ee; [by apply checks_error|].
  eapply checks_bind; [by apply checks_terminal_user|]. intros [] c' [-> Hrun].
  eapply checks_bind; [apply (checks_posix_device _ d ts); [done| |]|].
  { intros Hp. apply (terminal_bits _ _ 3 Ebits). right. split; [done|]. rewrite Hp. by apply bool_decide_eq_false. }
  { intros Hp. by apply Hdev. }
  intros [] c' [-> Hdevice]. destruct (split_reference r) as [[sn tn]|] eqn:Er; [|by apply checks_error].
  apply split_reference_sound in Er. apply checks_get.
  eapply checks_bind; [apply checks_strings, Forall_fmap; eapply Forall_impl; [exact Hs|apply seat_wf_name]|].
  intros names c' [-> _]. destruct (resolve_terminal _ sn tn) as [[k m]|] eqn:Ek; [|by apply checks_error].
  apply resolve_terminal_sound in Ek as (seat & Hk & Hsn & Htn).
  eapply checks_bind; [by apply checks_update_domain|]. intros [] c' ->. apply checks_get.
  rewrite earlier_terminals_put by done. destruct (existsb _ _) eqn:Ex; [by apply checks_error|].
  apply slots_fresh in Ex. apply checks_ret. eexists. split; [done|].
  eapply terminals_resolved_next; try done.
  - exists seat, sn, tn. repeat split; try done. by rewrite Hrt, Er.
  - cbn in Ex. by rewrite take_alter, decide_False in Ex by lia.
Qed.

Lemma checks_domain_terminals c i d nm :
  Forall user_wf (users c) -> Forall seat_wf (seats c) -> Forall user_wf (domain_users d) ->
  domains c !! i = Some d -> Forall terminal_inv (domain_terminals d) ->
  personality d <> FACET_CONFIG_PERSONALITY_VM ->
  NoDup (map terminal_slot (all_terminals (firstn i (domains c)))) ->
  checks (for_range (length (domain_terminals d)) (validate_terminal i nm)) c
    (fun _ c' => exists ts, c' = put_domain i (set_domain_terminals ts d) c /\
       terminals_resolved c d (all_terminals (firstn i (domains c))) (length ts) ts).
Proof.
  intros Hu Hs Hlu Hi Hinv Hvm Hnd. eapply checks_mono;
    [apply (checks_fold_range _ _ _ _ (fun j _ c' => exists ts,
       c' = put_domain i (set_domain_terminals ts d) c /\
       terminals_resolved c d (all_terminals (firstn i (domains c))) j ts))|].
  - exists (domain_terminals d). split; [destruct d; symmetry; by apply put_domain_same|].
    repeat split; try done; try constructor. simpl. by rewrite app_nil_r.
  - intros j [] c' Hj (ts & -> & Hr). assert (j < length ts)%nat by (by destruct Hr as [-> _]).
    apply checks_terminal; try done.
  - intros [] c' (ts & -> & Hr). exists ts. split; [done|]. destruct Hr as [Hlen Hr].
    split; [done|]. rewrite Hlen. done.
Qed.

Lemma put_put_domain i d d' c : put_domain i d (put_domain i d' c) = put_domain i d c.
Proof. unfold put_domain. simpl. by rewrite list_insert_insert_eq. Qed.

Lemma checks_domain_source c i d d' :
  Forall source_wf (authentication_sources c) ->
  zlen (authentication_sources c) <= FACET_CONFIG_MAX_ARRAY_ELEMENTS ->
  domains c !! i = Some d' -> authentication_source d = authentication_source d' ->
  0 <= authentication_source_index d' < FACET_CONFIG_MAX_ARRAY_ELEMENTS ->
  checks (validate_domain_source i d) c (fun _ c' => exists z,
    c' = put_domain i (set_authentication_source_index z d') c /\
    0 <= z < FACET_CONFIG_MAX_ARRAY_ELEMENTS /\
    forall name, authentication_source d' = Some name -> exists source,
      authentication_sources c !! Z.to_nat z = Some source /\ source_name source = Some name).
Proof.
  intros Hs Hlen Hi He Hz. unfold validate_domain_source. rewrite He.
  destruct (authentication_source d') as [name|] eqn:En.
  - apply checks_get. eapply checks_bind; [apply checks_strings, Forall_fmap; eapply Forall_impl; [exact Hs|];
      intros x [? _]; by apply nonempty_some|]. intros names c' [-> Hnames].
    destruct (index_of _ names) as [j|] eqn:Ej; [|by apply checks_error].
    eapply names_found in Ej as (source & Hj & Hname); [|done].
    assert (checks (update_domain i (set_authentication_source_index (Z.of_nat j))) c
      (fun _ c' => c' = put_domain i (set_authentication_source_index (Z.of_nat j) d') c)) as Hup.
    { rewrite <- (put_domain_same i d' c Hi) at 1. apply checks_update_domain. by rewrite Hi. }
    eapply checks_mono; [exact Hup|]. intros [] c' ->.
    exists (Z.of_nat j). split; [done|]. apply lookup_lt_Some in Hj as Hlt. unfold zlen in Hlen.
    split; [lia|]. intros ? [= <-]. rewrite Nat2Z.id. eauto.
  - apply checks_ret. exists (authentication_source_index d'). split; [|done].
    replace (set_authentication_source_index _ d') with d' by (by destruct d').
    by rewrite put_domain_same.
Qed.

Lemma checks_domain_conflict c d name l :
  Forall (fun x => is_Some (domain_name x)) l ->
  checks (domain_conflict d name l) c (fun _ c' => c' = c /\
    domain_id d ∉ map domain_id l /\ Some name ∉ map domain_name l).
Proof.
  induction 1 as [|x l [n Hn] _ IH]; simpl.
  - apply checks_ret. split; [done|]. split; apply not_elem_of_nil.
  - destruct (domain_id d =? domain_id x) eqn:Ei; [by apply checks_error|].
    apply (checks_deref _ n); [done|]. destruct (name =b n) eqn:En; [by apply checks_error|].
    bool_props. eapply checks_mono; [exact IH|]. intros [] c' (-> & Hi & Hm). split; [done|].
    rewrite Hn, !not_elem_of_cons. repeat split; try done. congruence.
Qed.

(** What the first half of a domain's checks establishes. *)
Record domain_head (c : FacetSystemConfig) (i : nat) (d : FacetConfigDomain) (name : bytes) : Prop := {
  head_name : domain_name d = Some name;
  head_name_nonempty : name <> [];
  head_image : nonempty (initrd d);
  head_users : Forall user_wf (domain_users d);
  head_user_names : NoDup (map user_name (domain_users d));
  head_user_global : forall u, u ∈ domain_users d -> user_name u ∉ map user_name (users c);
  head_personality : personality d <> FACET_CONFIG_PERSONALITY_VM;
  head_id_new : domain_id d ∉ map domain_id (firstn i (domains c));
  head_name_new : domain_name d ∉ map domain_name (firstn i (domains c));
  head_image_new : initrd d ∉ map initrd (firstn i (domains c))
}.

Lemma checks_domain_users c d nm :
  Forall user_wf (users c) -> Forall user_inv (domain_users d) ->
  checks (for_range (length (domain_users d)) (validate_domain_user d nm)) c
    (fun _ c' => c' = c /\ Forall (fun u => user_wf u /\ user_name u ∉ map user_name (users c)) (domain_users d) /\
       NoDup (map user_name (domain_users d))).
Proof. intros Hg Hinv. apply checks_scan. intros j u Hj Hwf. by apply checks_domain_user. Qed.

Lemma domain_wf_names c l : Forall (domain_wf c) l -> Forall (fun x => is_Some (domain_name x)) l.
Proof. intros H. eapply Forall_impl; [exact H|]. intros x [? _]. by apply nonempty_some. Qed.

Lemma domain_wf_images c l : Forall (domain_wf c) l -> Forall (fun x => is_Some (initrd x)) l.
Proof. intros H. eapply Forall_impl; [exact H|]. intros x (_ & ? & _). by apply nonempty_some. Qed.

(** The root domain is counted and its index recorded. *)
Definition root_counted (i roots : nat) (d : FacetConfigDomain) (c : FacetSystemConfig)
    (roots' : nat) (c' : FacetSystemConfig) : Prop :=
  if domain_id d =? 0 then roots' = S roots /\ c' = set_root_index i c
  else roots' = roots /\ c' = c.

Lemma checks_domain_head c c0 i d roots :
  Forall user_wf (users c) -> domains c !! i = Some d -> domain_inv d ->
  Forall (domain_wf c0) (firstn i (domains c)) ->
  checks (validate_domain_head i roots) c
    (fun r c' => root_counted i roots d c (fst r) c' /\ domain_head c i d (snd r)).
Proof.
  intros Hu Hi (H1 & _ & H8 & _ & _ & _ & Husers & _) Hwf. apply checks_get.
  apply (checks_deref _ d); [done|].
  destruct (has_bits _ _) eqn:Hb; simpl; [|by apply checks_error].
  destruct (present_some _ _ _ _ H1 Hb) as (name & Hn & _); [done|].
  apply (checks_deref _ name); [done|]. destruct (name =b []) eqn:En; [by apply checks_error|].
  destruct (initrd d) as [image|] eqn:Ei; [|by apply checks_error].
  destruct (_ || _)%bool eqn:Ee; [by apply checks_error|]. apply orb_false_iff in Ee as [Ee _].
  apply checks_earlier; [by eapply domain_wf_images|by apply checks_error|]. intros Himg.
  eapply checks_bind; [by apply checks_domain_users|]. intros [] c' (-> & Hus & Hnd).
  destruct (bool_decide _) eqn:Ep; [by apply checks_error|]. bool_props.
  apply (checks_bind _ _ _ (fun roots' c' => root_counted i roots d c roots' c')).
  { unfold root_counted. destruct (domain_id d =? 0); [|by apply checks_ret].
    eapply checks_bind; [by apply (checks_modify _ _ (fun _ c' => c' = set_root_index i c))|].
    intros [] c' ->. by apply checks_ret. }
  intros roots' c' Hroot.
  eapply checks_bind; [apply checks_domain_conflict; by eapply domain_wf_names|].
  intros [] c'' (-> & Hid & Hname). apply checks_ret. split; [done|]. constructor; simpl; try done.
  - rewrite Ei. by exists image.
  - eapply Forall_impl; [exact Hus|]. by intros u [? _].
  - intros u Hin. rewrite Forall_forall in Hus. by apply Hus.
  - by rewrite Hn.
  - by rewrite Ei.
Qed.

Lemma checks_domain_pid1 c d name :
  domain_inv d ->
  checks (validate_domain_pid1 d name) c (fun _ c' => c' = c /\
    domain_sinks d <> [] /\ domain_terminals d <> [] /\
    (personality d = FACET_CONFIG_PERSONALITY_POSIX -> nonempty (pid1 d))).
Proof.
  intros (_ & [_ H7] & _). unfold validate_domain_pid1.
  destruct (_ || _)%bool eqn:Ee; [by apply checks_error|]. apply orb_false_iff in Ee as [E1 E2].
  assert (domain_sinks d <> []) by (by destruct (domain_sinks d)).
  assert (domain_terminals d <> []) by (by destruct (domain_terminals d)).
  destruct (_ && _)%bool; [by apply checks_error|].
  destruct (bool_decide (personality d = _)) eqn:Ep; bool_props; [|apply checks_ret; by repeat split].
  destruct (Z.land _ _ =? 0) eqn:El; [by apply checks_error|].
  assert (is_Some (pid1 d)) as [p Hp].
  { apply H7. bool_props. destruct (Z.testbit (domain_present d) 7) eqn:Eb; [done|]. exfalso.
    apply El. apply Z.bits_inj. intros b. rewrite Z.land_spec, Z.bits_0. unfold DOMAIN_PID1.
    change 128 with (2 ^ 7). destruct (decide (b = 7)) as [->|Hne]; [by rewrite Eb|].
    rewrite (Z.pow2_bits_false 7 b) by lia. apply andb_false_r. }
  apply (checks_deref _ p); [done|]. destruct (p =b []) eqn:Epn; [by apply checks_error|]. bool_props.
  apply checks_ret. repeat split; try done. intros _. by exists p.
Qed.

(** The configuration [c] in the middle of the domain loop that started from [c0]:
    only the root index and the domains changed, and the first [i] are checked. *)
Record domains_checked (c0 : FacetSystemConfig) (i roots : nat) (c : FacetSystemConfig) : Prop := {
  dc_static : c = set_root_index (root_index c) (set_domains (domains c) c0);
  dc_length : length (domains c) = length (domains c0);
  dc_inv : Forall domain_inv (domains c);
  dc_wf : Forall (domain_wf c0) (firstn i (domains c));
  dc_ids : NoDup (map domain_id (firstn i (domains c)));
  dc_names : NoDup (map domain_name (firstn i (domains c)));
  dc_images : NoDup (map initrd (firstn i (domains c)));
  dc_slots : NoDup (map terminal_slot (all_terminals (firstn i (domains c))));
  dc_root : roots <> 0%nat -> exists d,
    firstn i (domains c) !! root_index c = Some d /\ domain_id d = 0
}.

Lemma firstn_insert {A} (l : list A) i x : (i < length l)%nat -> firstn (S i) (<[i := x]> l) = firstn i l ++ [x].
Proof.
  intros Hi. rewrite (take_S_r _ i x) by (by apply list_lookup_insert_eq). by rewrite take_insert_ge.
Qed.

Lemma domains_checked_next c0 i roots roots' c c1 d d' name :
  domains_checked c0 i roots c -> domains c !! i = Some d -> domain_head c i d name ->
  root_counted i roots d c roots' c1 ->
  domain_id d' = domain_id d -> domain_name d' = domain_name d -> initrd d' = initrd d ->
  domain_inv d' -> domain_wf c0 d' ->
  NoDup (map terminal_slot (all_terminals (firstn i (domains c)) ++ domain_terminals d')) ->
  domains_checked c0 (S i) roots' (put_domain i d' c1).
Proof.
  intros [] Hi [] Hroot Hid Hname Himage Hinv Hwf Hslots.
  apply lookup_lt_Some in Hi as Hlt.
  assert (domains c1 = domains c) as Hc1 by (unfold root_counted in Hroot; destruct (_ =? 0); by destruct Hroot as [_ ->]).
  assert (domains (put_domain i d' c1) = <[i := d']> (domains c)) as Hd by (unfold put_domain; simpl; by rewrite Hc1).
  constructor; rewrite ?Hd, ?length_insert, ?firstn_insert by done; try done.
  - rewrite dc_static0 in Hroot. unfold root_counted, put_domain in *. destruct (_ =? 0); destruct Hroot as [_ ->]; by destruct c0.
  - by apply Forall_insert.
  - apply Forall_app_2; [done|]. by apply Forall_singleton.
  - rewrite map_app. simpl. rewrite Hid. by apply NoDup_snoc.
  - rewrite map_app. simpl. rewrite Hname. by apply NoDup_snoc.
  - rewrite map_app. simpl. rewrite Himage. by apply NoDup_snoc.
  - unfold all_terminals. rewrite bind_app. simpl. by rewrite app_nil_r.
  - intros Hr. unfold root_counted in Hroot. destruct (domain_id d =? 0) eqn:E0.
    + destruct Hroot as [-> ->]. exists d'. simpl. split; [|lia]. rewrite lookup_app_r by (rewrite length_take; lia).
      rewrite length_take, Nat.min_l, Nat.sub_diag by lia. done.
    + destruct Hroot as [-> ->]. destruct (dc_root0 Hr) as (r & Hr1 & Hr2). exists r. split; [|done].
      simpl. by apply lookup_app_l_Some.
Qed.

Lemma domain_wf_assemble c0 c i d name uses ts z :
  users c = users c0 -> domain_head c i d name ->
  domain_sinks d <> [] -> domain_terminals d <> [] ->
  (personality d = FACET_CONFIG_PERSONALITY_POSIX -> nonempty (pid1 d)) ->
  length uses = length (domain_sinks d) -> Forall (use_wf c0) uses -> NoDup (map use_name uses) ->
  length ts = length (domain_terminals d) -> Forall (terminal_wf c0 d) ts ->
  (personality d = FACET_CONFIG_PERSONALITY_POSIX -> NoDup (map device_name ts)) ->
  (forall n, authentication_source d = Some n -> exists source,
     authentication_sources c0 !! Z.to_nat z = Some source /\ source_name source = Some n) ->
  domain_wf c0 (set_authentication_source_index z (set_domain_terminals ts (set_domain_sinks uses d))).
Proof.
  intros Hu [] Hs Ht Hpid Hlu Huses Hnu Hlt Hts Hdev Hsrc. rewrite Hu in *.
  split; [by exists name|]. repeat split; try done; simpl.
  - destruct uses; [|done]. by destruct (domain_sinks d).
  - destruct ts; [|done]. by destruct (domain_terminals d).
Qed.

(** The tables checked before the domains. *)
Record tables_checked (c : FacetSystemConfig) : Prop := {
  tc_sinks : Forall sink_wf (logging_sinks c);
  tc_seats : Forall seat_wf (seats c);
  tc_users : Forall user_wf (users c);
  tc_sources : Forall source_wf (authentication_sources c);
  tc_source_count : zlen (authentication_sources c) <= FACET_CONFIG_MAX_ARRAY_ELEMENTS
}.

Lemma tables_checked_static c0 c ri ds :
  c = set_root_index ri (set_domains ds c0) -> tables_checked c0 -> tables_checked c.
Proof. intros -> []. by constructor. Qed.

(** The second half: resolve sinks and terminals, check pid1, resolve the source. *)
Lemma checks_domain_body c i d name :
  tables_checked c -> domains c !! i = Some d -> domain_inv d -> domain_head c i d name ->
  NoDup (map terminal_slot (all_terminals (firstn i (domains c)))) ->
  checks (validate_domain_body i d name) c
    (fun _ c' => exists uses ts z,
       let d' := set_authentication_source_index z (set_domain_terminals ts (set_domain_sinks uses d)) in
       c' = put_domain i d' c /\ domain_wf c d' /\ domain_inv d' /\
       NoDup (map terminal_slot (all_terminals (firstn i (domains c)) ++ ts))).
Proof.
  intros [] Hi Hinv Hhead Hnd.
  pose proof Hinv as (Hi1 & Hi2 & Hi3 & Hi4 & Hi5 & Hi6 & Hi7 & Hi8 & Hi9).
  eapply checks_bind; [by apply checks_domain_sinks|].
  intros [] c1 (uses & -> & Hlu & Huinv & Huwf & Hund).
  assert (is_Some (domains c !! i)) as Hsome by (by rewrite Hi).
  eapply checks_bind; [by apply checks_domain_pid1|]. intros [] c' (-> & Hsn & Htn & Hpid).
  pose proof (head_users _ _ _ _ Hhead) as Hlu'. pose proof (head_personality _ _ _ _ Hhead) as Hvm.
  assert (firstn i (domains (put_domain i (set_domain_sinks uses d) c)) = firstn i (domains c)) as Hfirst
    by (unfold put_domain; simpl; by rewrite take_insert_ge).
  eapply checks_bind;
    [apply (checks_domain_terminals _ i (set_domain_sinks uses d)); try done;
       [by apply put_domain_lookup|by rewrite Hfirst]|].
  intros [] c' (ts & -> & Hlt & Htinv & Htwf & Htnd & Htdev). rewrite put_put_domain.
  rewrite Hfirst, firstn_all in *.
  eapply checks_mono;
    [apply (checks_domain_source _ i d (set_domain_terminals ts (set_domain_sinks uses d))); try done;
     by apply put_domain_lookup|].
  intros [] c' (z & -> & Hz & Hsrc). exists uses, ts, z. rewrite put_put_domain.
  split; [done|]. split; [|split; [|done]].
  - eapply domain_wf_assemble; try done. intros Hp. by apply Htdev.
  - exact (conj Hi1 (conj Hi2 (conj Hi3 (conj Hi4 (conj Hi5 (conj Hz (conj Hi7 (conj Huinv Htinv)))))))).
Qed.

Lemma checks_validate_domain c0 i roots c :
  tables_checked c0 -> (i < length (domains c0))%nat -> domains_checked c0 i roots c ->
  checks (validate_domain i roots) c (domains_checked c0 (S i)).
Proof.
  intros Ht Hi Hc. pose proof Hc as []. rewrite <- dc_length0 in Hi.
  apply lookup_lt_is_Some_2 in Hi as [d Hd].
  pose proof (tables_checked_static _ _ _ _ dc_static0 Ht) as Htc.
  pose proof (Forall_lookup_1 _ _ _ _ dc_inv0 Hd) as Hdinv.
  eapply checks_bind; [eapply (checks_domain_head _ c0); [apply Htc|done..]|].
  intros [roots' name] c1 [Hroot Hhead]. simpl in Hroot, Hhead.
  assert (exists ri, c1 = set_root_index ri c) as [ri ->].
  { unfold root_counted in Hroot. destruct (_ =? 0); destruct Hroot as [_ ->]; [eauto|].
    exists (root_index c). by destruct c. }
  apply checks_get. apply (checks_deref _ d); [done|].
  assert (domain_head (set_root_index ri c) i d name) as Hhead' by (destruct Hhead; by constructor).
  assert (tables_checked (set_root_index ri c)) as Htc' by (destruct Htc; by constructor).
  eapply checks_bind; [by apply checks_domain_body|].
  intros [] c' (uses & ts & z & -> & Hwf & Hinv & Hslots). apply checks_ret.
  eapply domains_checked_next; try done. rewrite dc_static0 in Hwf. exact Hwf.
Qed.

Lemma checks_domains c :
  tables_checked c -> Forall domain_inv (domains c) ->
  checks (fold_range (length (domains c)) 0 validate_domain 0%nat) c
    (fun roots c' => domains_checked c (length (domains c)) roots c').
Proof.
  intros Ht Hinv. apply (checks_fold_range _ _ _ _ (domains_checked c)).
  - constructor; simpl; try done; try constructor. by destruct c.
  - intros i roots c' Hi Hc. by apply checks_validate_domain.
Qed.

(** ** Providers *)

Definition provider_wf (c : FacetSystemConfig) (source : FacetConfigAuthenticationSource) : Prop :=
  exists d, domains c !! provider_domain_index source = Some d /\
            domain_id d = provider_domain_id source.

(** The sources with the first [i] providers resolved. *)
Definition providers_resolved (c0 : FacetSystemConfig) (i : nat) (c : FacetSystemConfig) : Prop :=
  exists l, c = set_authentication_sources l c0 /\
    map source_name l = map source_name (authentication_sources c0) /\
    Forall source_wf l /\ Forall (provider_wf c0) (firstn i l) /\ Forall source_inv l.

Lemma checks_provider c0 i c :
  (i < length (authentication_sources c0))%nat -> providers_resolved c0 i c ->
  checks (validate_provider i) c (fun _ => providers_resolved c0 (S i)).
Proof.
  intros Hi (l & -> & Hn & Hwf & Hp & Hinv).
  apply (f_equal length) in Hn as Hlen. rewrite !length_map in Hlen. rewrite <- Hlen in Hi.
  apply lookup_lt_is_Some_2 in Hi as [source Hs].
  apply checks_get. apply (checks_deref _ source); [done|]. apply checks_get.
  destruct (index_of _ _) as [j|] eqn:Ej.
  - apply index_of_Some in Ej as (d & Hd & Heq & _). bool_props. apply checks_modify.
    exists (alter (set_provider_domain_index j) i l). split; [done|]. split; [by rewrite map_alter|].
    split; [by apply Forall_alter|]. rewrite (firstn_alter _ _ _ source) by done. split; [|by apply Forall_alter].
    apply Forall_app_2; [done|]. apply Forall_singleton. by exists d.
  - pose proof (Forall_lookup_1 _ _ _ _ Hwf Hs) as [(name & Hname & _) _].
    apply (checks_deref _ name); [done|]. by apply checks_error.
Qed.

Lemma checks_providers c :
  Forall source_wf (authentication_sources c) -> Forall source_inv (authentication_sources c) ->
  checks (for_range (length (authentication_sources c)) validate_provider) c
    (fun _ => providers_resolved c (length (authentication_sources c))).
Proof.
  intros Hwf Hinv. apply (checks_fold_range _ _ _ _ (fun i _ => providers_resolved c i)).
  - exists (authentication_sources c). split; [by destruct c|]. by repeat split.
  - intros i [] c' Hi Hc. by apply checks_provider.
Qed.

(** ** The whole configuration *)

Lemma domain_wf_sources c d l :
  map source_name l = map source_name (authentication_sources c) ->
  domain_wf c d -> domain_wf (set_authentication_sources l c) d.
Proof.
  intros Hn (H1 & H2 & H3 & H4 & H5 & H6 & H7 & H8 & H9 & H10 & H11 & H12 & H13 & Hsrc).
  split_and!; try done. intros name Hname. destruct (Hsrc name Hname) as (source & Hl & Hs).
  assert (map source_name l !! Z.to_nat (authentication_source_index d) = Some (Some name)) as Hlk.
  { rewrite Hn, list_lookup_fmap, Hl. simpl. by rewrite Hs. }
  rewrite list_lookup_fmap in Hlk. simpl. destruct (l !! _) as [x|]; [|done]. exists x.
  by simplify_eq/=.
Qed.

(** What is known of the tables when the domain loop starts. *)
Record tables_wf (c : FacetSystemConfig) : Prop := {
  tw_version : version c = 1;
  tw_checked : tables_checked c;
  tw_sink_names : NoDup (map sink_name (logging_sinks c));
  tw_seat_names : NoDup (map seat_name (seats c));
  tw_source_names : NoDup (map source_name (authentication_sources c));
  tw_user_names : NoDup (map user_name (users c));
  tw_root : exists u, u ∈ users c /\ root_wf u
}.

Lemma config_wf_assemble c c2 c3 :
  tables_wf c -> domains_checked c (length (domains c)) 1 c2 ->
  providers_resolved c2 (length (authentication_sources c2)) c3 ->
  nonempty (seat_initrd c3) -> config_wf c3.
Proof.
  intros [] Hdc (l & -> & Hn & Hwf & Hp & Hinv) Hseat. destruct tw_checked0, Hdc.
  apply (f_equal length) in Hn as Hlen. rewrite !length_map in Hlen. rewrite <- Hlen, firstn_all in Hp.
  rewrite <- dc_length0, firstn_all in *.
  rewrite dc_static0 in Hseat, Hn, Hp |- *. destruct (dc_root0 ltac:(lia)) as (r & Hr & Hr0).
  constructor; simpl; try done.
  - by rewrite Hn.
  - eapply Forall_impl; [exact dc_wf0|]. intros d Hd. by apply domain_wf_sources.
  - exists r. done.
Qed.

Lemma config_inv_assemble c c2 c3 :
  config_inv c -> domains_checked c (length (domains c)) 1 c2 ->
  providers_resolved c2 (length (authentication_sources c2)) c3 -> config_inv c3.
Proof.
  intros [] [] (l & -> & Hn & _ & _ & Hinv). apply (f_equal length) in Hn. rewrite !length_map in Hn.
  rewrite dc_static0 in Hn |- *. simpl in Hn.
  constructor; simpl; try done; unfold zlen in *; [by rewrite Hn|by rewrite dc_length0].
Qed.

Lemma wp_checks {A} (m : M A) c (Q : A -> FacetSystemConfig -> Prop) s :
  I s -> p_config s = c -> checks m c Q -> wp m (fun a s' => I s' /\ Q a (p_config s')) E s.
Proof. intros HI Hc Hm. eapply wp_mono; [by apply Hm|]. intros a s' (? & _ & ?). auto. Qed.

Lemma validate_required_spec s :
  I s -> config_inv (p_config s) ->
  wp validate_required (fun _ s' => I s' /\ config_wf (p_config s') /\ config_inv (p_config s')) E s.
Proof.
  intros HI Hinv. apply wp_gets. generalize (p_facet_seen s). intros seen.
  eapply (wp_checks _ (p_config s) (fun _ c => config_wf c /\ config_inv c)); [done|done|].
  generalize (p_config s), Hinv. clear s HI Hinv. intros c Hinv. pose proof Hinv as [].
  apply checks_get. destruct (_ || _)%bool eqn:Ev; [by apply checks_error|].
  apply orb_false_iff in Ev as [_ Ev]. bool_props. apply checks_get.
  eapply checks_bind; [apply (checks_scan _ _ sink_name sink_wf); intros; by apply checks_validate_sink|].
  intros [] c' (-> & Hsinks & Hsn). apply checks_get.
  eapply checks_bind; [apply (checks_scan _ _ seat_name seat_wf); intros; by apply checks_validate_seat|].
  intros [] c' (-> & Hseats & Hstn). apply checks_get.
  eapply checks_bind; [apply (checks_scan _ _ source_name source_wf); intros; by apply checks_validate_source|].
  intros [] c' (-> & Hsources & Hsrn). apply checks_get.
  eapply checks_bind; [by apply checks_global_users|]. intros found c' (-> & Husers & Hun & Hroot).
  destruct found; simpl; [|by apply checks_error]. apply checks_get.
  destruct (_ =? 0)%nat; [by apply checks_error|].
  assert (tables_wf c) as Hw by (constructor; auto; by constructor).
  eapply checks_bind; [apply checks_domains; [apply Hw|done]|]. intros roots c2 Hd.
  destruct (roots =? 1)%nat eqn:Er; simpl; [|by apply checks_error]. bool_props. subst roots.
  assert (authentication_sources c2 = authentication_sources c) as Hsame by (destruct Hd as [-> _]; done).
  rewrite <- Hsame.
  eapply checks_bind; [apply checks_providers; by rewrite Hsame|]. intros [] c3 Hp. apply checks_get.
  destruct (seat_initrd c3) as [[|b image]|] eqn:Ei; [by apply checks_error| |by apply checks_error].
  apply checks_ret. split; [|by eapply config_inv_assemble]. eapply config_wf_assemble; try done.
  exists (b :: image). by rewrite Ei.
Qed.

End ValidateSpecs.
