(* ===== verification/ConfigParseFacts.v ===== *)
(** The configuration parser as a whole: it is total, reports every failure, and
    accepts only configurations that keep their contract. *)
From S2P Require Import Prelude Utf8 ConfigTypes ConfigLexer ConfigValue ConfigApply ConfigValidate.
From S2P Require Import ConfigParse ConfigWp ConfigStrings ConfigValueFacts ConfigApplyFacts.
From S2P Require Import ConfigValidateFacts.

Section ParseSpecs.
Context (malloc_ok : nat -> bool) (data : bytes) (d0 : option FacetConfigDiagnostic).
Context (Hok : bytes_ok data) (Hutf : utf8 data).

Abbreviation I := (cursor data d0).
Abbreviation E := (reported d0).
Abbreviation PI := (parser_inv data d0).
Abbreviation step := (step data d0).
Abbreviation advances := (advances data d0).

Lemma advances_bind (m : M unit) (k : unit -> M unit) s :
  advances m s -> (forall s', PI s' -> step (k tt) s') -> advances (bind m k) s.
Proof.
  intros Hm Hk. eapply wp_use; [exact Hm|]. intros [] s' [HP' Ho].
  eapply wp_mono; [by apply Hk|]. intros [] s2 [HP2 Ho2]. split; [done|lia].
Qed.

Lemma step_skip b s : PI s -> step (skip_space_and_comments b) s.
Proof.
  intros HP. eapply wp_mono; [apply lex_skip, HP|]. intros [] s' (HI' & Hm & _).
  split; [by eapply parser_inv_moves|apply Hm].
Qed.

(** The end of a statement. *)
Lemma step_line_end s :
  PI s ->
  step (skip_space_and_comments false ;;;
        let! c := current in
        (if c =? 35 then skip_space_and_comments false else ret tt) ;;;
        let! c := current in
        (if ((0 <=? c) && negb (c =? 10))%bool then
           fail FACET_CONFIG_DIAGNOSTIC_SYNTAX (B "line")
             (B "unexpected data after value or table header")
         else ret tt) ;;;
        skip_space_and_comments true) s.
Proof.
  intros HP. apply step_lex; [done|apply lex_skip, HP|]. intros _ s1 HP1. apply wp_current.
  apply step_lex; [done| |].
  { destruct (_ =? 35); [apply lex_skip, HP1|apply lex_ret; [apply HP1|done]]. }
  intros _ s2 HP2. apply wp_current. apply step_lex; [done| |].
  { destruct (_ && _)%bool; [eapply wp_fail; [apply HP2|done]|apply lex_ret; [apply HP2|done]]. }
  intros _ s3 HP3. by apply step_skip.
Qed.

Lemma advances_assignment s :
  PI s ->
  advances (let! line := gets p_line in
     let! column := gets p_column in
     let! k := parse_key malloc_ok in
     skip_space_and_comments false ;;;
     let! c := take in
     if negb (c =? 61) then
       fail_at FACET_CONFIG_DIAGNOSTIC_SYNTAX line column (B "assignment") (B "expected '='")
     else
       skip_space_and_comments false ;;;
       let! v := parse_value malloc_ok (FACET_CONFIG_MAX_DEPTH + 2) 0 in
       apply_value malloc_ok k v line column) s.
Proof.
  intros HP. do 2 apply wp_gets. eapply advances_lex; [done|by apply lex_parse_key, HP| |].
  { by intros a s' [_ ?]. }
  intros k s1 HP1. apply step_lex; [done|apply lex_skip, HP1|]. intros _ s2 HP2.
  apply step_lex; [done|eapply lex_weaken, lex_take, HP2|]. intros c s3 HP3.
  destruct (negb _); [by apply step_fail_at|].
  apply step_lex; [done|apply lex_skip, HP3|]. intros _ s4 HP4.
  eapply step_bind; [done|apply lex_parse_value; [done|done|apply HP4|lia|lia]|].
  intros v s5 HP5 _ _ [_ Hv]. by eapply step_apply_value.
Qed.

Lemma advances_statement s : PI s -> 0 <= cur s -> advances (parse_statement malloc_ok) s.
Proof.
  intros HP Hc. apply wp_current. apply advances_bind.
  - destruct (_ =? 91); [by apply advances_parse_header|by apply advances_assignment].
  - intros s' HP'. by apply step_line_end.
Qed.

Lemma parse_loop_spec fuel s :
  PI s -> (length (p_rest s) <= fuel)%nat -> step (parse_loop malloc_ok fuel) s.
Proof.
  revert s. induction fuel as [|f IH]; intros s HP Hf; simpl; apply wp_current.
  - rewrite cur_nil by done. apply wp_ret. split; [done|lia].
  - destruct (0 <=? cur s) eqn:Ec; [|apply wp_ret; split; [done|lia]].
    eapply wp_use; [apply advances_statement; [done|lia]|]. intros [] s1 [HP1 Ho1].
    eapply wp_mono; [apply IH; [done|]|intros [] s2 [HP2 Ho2]; split; [done|lia]].
    pose proof (rest_shorter data d0 s s1). destruct HP, HP1. intuition lia.
Qed.

Lemma initial_parser_inv : PI (initial_parser data d0).
Proof.
  split; [|split; [apply zero_config_inv|done]]. constructor; simpl; try done; lia.
Qed.

Lemma parse_document_spec :
  wp (parse_document malloc_ok)
    (fun _ s => I s /\ config_wf (p_config s) /\ config_inv (p_config s)) E (initial_parser data d0).
Proof.
  unfold parse_document. eapply wp_use; [apply step_skip, initial_parser_inv|].
  intros [] s1 [HP1 _]. apply wp_gets. eapply wp_use; [by apply parse_loop_spec|].
  intros [] s2 [HP2 _]. apply validate_required_spec; apply HP2.
Qed.

End ParseSpecs.

(** ** The outcome of a parse *)

(** What the caller may rely on for each return code. *)
Definition outcome_ok (diagnostic : option FacetConfigDiagnostic)
    (out : res unit * option FacetSystemConfig * option FacetConfigDiagnostic) : Prop :=
  match out with
  | (Ok _, Some c, d) => config_wf c /\ config_inv c /\ d = ((fun _ => zero_diagnostic) <$> diagnostic)
  | (Err, Some c, d) =>
      c = zero_config /\
      match diagnostic with
      | None => d = None
      | Some _ => exists d', d = Some d' /\ category d' <> FACET_CONFIG_DIAGNOSTIC_NONE /\
                             (length (context d') <= 95)%nat /\ (length (message d') <= 191)%nat
      end
  | _ => False
  end.

Lemma outcome_document malloc_ok data diagnostic :
  bytes_ok data -> utf8 data ->
  outcome_ok diagnostic
    (let (r, s) := parse_document malloc_ok (initial_parser data ((fun _ => zero_diagnostic) <$> diagnostic)) in
     match r with
     | Ok _ => (Ok tt, Some (p_config s), p_diagnostic s)
     | Err => (Err, Some (facet_config_destroy (p_config s)), p_diagnostic s)
     | Stuck => (Stuck, Some (p_config s), p_diagnostic s)
     end).
Proof.
  intros Hok Hutf.
  pose proof (parse_document_spec malloc_ok data ((fun _ => zero_diagnostic) <$> diagnostic) Hok Hutf) as Hp.
  unfold wp in Hp. destruct (parse_document _ _) as [[[]| |] s]; [|by destruct Hp as [_ Hd]; destruct diagnostic|done].
  destruct Hp as (HI & Hwf & Hinv). split; [done|]. split; [done|]. apply (cursor_diagnostic _ _ _ HI).
Qed.

(** A failure before the first statement. *)
Lemma outcome_early cat l c ctx msg data diagnostic :
  cat <> FACET_CONFIG_DIAGNOSTIC_NONE ->
  outcome_ok diagnostic
    (let (r, s) := @fail_at unit cat l c ctx msg
        (initial_parser data ((fun _ => zero_diagnostic) <$> diagnostic)) in
     (r, Some zero_config, p_diagnostic s)).
Proof.
  intros Hc. destruct diagnostic; simpl; split; try done. eexists. split; [done|]. simpl.
  rewrite !length_firstn. split; [done|lia].
Qed.

Lemma outcome_parse malloc_ok data size config diagnostic :
  bytes_ok data -> outcome_ok diagnostic (facet_config_parse malloc_ok (Some data) size (Some config) diagnostic).
Proof.
  intros Hok. unfold facet_config_parse. destruct (_ <? _); [by apply outcome_early|].
  assert (bytes_ok (firstn size data)) as Hf by (by apply Forall_take).
  destruct (utf8_validate (firstn size data)) as [bad|] eqn:Eu.
  - destruct (position _). by apply outcome_early.
  - apply outcome_document; [done|]. by eapply utf8_validate_loop_sound.
Qed.

(** C1: The configuration parser is total and memory safe: for every document,
    size, destination, diagnostic and sequence of allocation outcomes it returns
    0 or -1, that is no loop runs out of its input bound, no absent string,
    record or array element is read, and no value is read at the wrong kind. *)
Theorem facet_config_parse_total (malloc_ok : nat -> bool) (data : option bytes) (size : nat)
    (config : option FacetSystemConfig) (diagnostic : option FacetConfigDiagnostic)
    (Hdata : forall d, data = Some d -> bytes_ok d) :
  fst (fst (facet_config_parse malloc_ok data size config diagnostic)) <> Stuck.
Proof.
  destruct config as [config|]; [|done]. destruct data as [data|].
  - pose proof (outcome_parse malloc_ok data size config diagnostic (Hdata _ eq_refl)) as H.
    destruct (facet_config_parse _ _ _ _ _) as [[[[]| |] []] d]; done.
  - simpl. destruct (negb _); [done|].
    pose proof (outcome_document malloc_ok [] diagnostic (Forall_nil_2 _) utf8_nil) as H.
    by destruct (parse_document _ _) as [[[]| |] s].
Qed.

Lemma facet_config_parse_total_witness :
  fst (fst (facet_config_parse (fun _ => true) (Some fallback) 20 (Some zero_config) None)) <> Stuck.
Proof.
  apply facet_config_parse_total. intros d [= <-]. by_decide.
Defined.

(** C2: Every accepted configuration keeps its contract: version 1; sinks, seats,
    sources, users and domains complete with pairwise distinct names, ids and
    boot images; a root user with uid and gid 0; the domain of id 0 at
    [root_index]; every sink use, terminal assignment, authentication source and
    provider resolved to the record it names; no seat terminal assigned twice;
    every string valid UTF-8, free of NUL and within the size limit. *)
Theorem facet_config_parse_accepts (malloc_ok : nat -> bool) (data : bytes) (size : nat)
    (config : FacetSystemConfig) (diagnostic : option FacetConfigDiagnostic) c d
    (Hdata : bytes_ok data)
    (Hparse : facet_config_parse malloc_ok (Some data) size (Some config) diagnostic = (Ok tt, c, d)) :
  exists parsed, c = Some parsed /\ config_wf parsed /\ config_inv parsed /\
                 d = ((fun _ => zero_diagnostic) <$> diagnostic).
Proof.
  pose proof (outcome_parse malloc_ok data size config diagnostic Hdata) as H. rewrite Hparse in H.
  destruct c as [c|]; [|done]. exists c. by split.
Qed.

(** A configuration with one domain that names no authentication source. *)
Definition sourceless_document : bytes :=
  QL "[facet]" ++ QL "version = 1" ++ QL "seat_initrd = `a`" ++
  QL "[[logging_sinks]]" ++ QL "name = `k`" ++ QL "type = `t`" ++ QL "required = true" ++
  QL "[[users]]" ++ QL "name = `root`" ++
  QL "password_hash = `$5$facet$j7FgoXidvJl10CTaW0nguGP3ZnvKnqS3/IHmDVliPQ9`" ++
  QL "admin = true" ++ QL "uid = 0" ++ QL "gid = 0" ++ QL "home_path = `/root`" ++
  QL "[[seats]]" ++ QL "name = `s`" ++ QL "type = `serial`" ++ QL "server = `/s`" ++
  QL "terminals = [`t`]" ++
  QL "[[domains]]" ++ QL "id = 0" ++ QL "name = `d`" ++ QL "personality = `posix`" ++
  QL "domain_manager = `local`" ++ QL "initrd = `i`" ++ QL "pid1 = `/init`" ++
  QL "logging_sinks = [{ name = `k`, level = `info` }]" ++
  QL "terminals = [{ terminal = `s.t`, device = `t` }]".

Definition sourceless_config : option FacetSystemConfig :=
  Eval vm_compute in snd (fst (facet_config_parse (fun _ => true) (Some sourceless_document)
    (length sourceless_document) (Some zero_config) None)).

Lemma facet_config_parse_accepts_witness :
  exists c, sourceless_config = Some c /\ config_wf c.
Proof.
  assert (bytes_ok sourceless_document) as Hb by by_decide.
  destruct (facet_config_parse_accepts (fun _ => true) sourceless_document
    (length sourceless_document) zero_config None sourceless_config None Hb
    ltac:(vm_compute; reflexivity)) as (parsed & Hc & Hwf & _).
  exists parsed. by split.
Defined.

(** C3: Every rejected document leaves the destination zeroed, so nothing is left
    to free, and describes the first failure in the diagnostic: a category other
    than none, a context and a message that fit their arrays with a NUL. *)
Theorem facet_config_parse_rejects (malloc_ok : nat -> bool) (data : bytes) (size : nat)
    (config : FacetSystemConfig) (diagnostic : FacetConfigDiagnostic) c d
    (Hdata : bytes_ok data)
    (Hparse : facet_config_parse malloc_ok (Some data) size (Some config) (Some diagnostic) = (Err, c, d)) :
  c = Some zero_config /\
  exists report, d = Some report /\ category report <> FACET_CONFIG_DIAGNOSTIC_NONE /\
    (length (context report) < 96)%nat /\ (length (message report) < 192)%nat.
Proof.
  pose proof (outcome_parse malloc_ok data size config (Some diagnostic) Hdata) as H. rewrite Hparse in H.
  destruct c as [c|]; [|done]. destruct H as (-> & report & ? & ? & ? & ?). split; [done|].
  exists report. repeat split; try done; lia.
Qed.

Definition truncated_document : bytes := QL "[facet]" ++ QB "version = ".

Lemma facet_config_parse_rejects_witness :
  exists report,
    snd (facet_config_parse (fun _ => true) (Some truncated_document) (length truncated_document)
           (Some zero_config) (Some zero_diagnostic)) = Some report /\
    category report <> FACET_CONFIG_DIAGNOSTIC_NONE.
Proof.
  assert (bytes_ok truncated_document) as Hb by by_decide.
  destruct (facet_config_parse_rejects (fun _ => true) truncated_document (length truncated_document)
    zero_config zero_diagnostic _ _ Hb ltac:(vm_compute; reflexivity)) as (_ & report & Hd & Hc & _).
  exists report. split; [|done]. rewrite <- Hd. vm_compute. reflexivity.
Defined.

(** The built-in fallback configuration is accepted when allocation succeeds,
    with the system domain as root and the posix domain beside it. *)
Theorem facet_config_make_fallback_accepted (diagnostic : option FacetConfigDiagnostic) :
  exists c, facet_config_make_fallback (fun _ => true) (Some zero_config) diagnostic =
              (Ok tt, Some c, (fun _ => zero_diagnostic) <$> diagnostic) /\
    map domain_name (domains c) = [Some (B "system"); Some (B "posix")] /\ root_index c = 0%nat /\
    map (fun d => map terminal_slot (domain_terminals d)) (domains c) =
      [[(0, 0); (1, 0); (1, 1)]; [(1, 2)]]%nat.
Proof. destruct diagnostic; eexists; (split; [vm_compute; reflexivity|vm_compute; done]). Qed.

(** The parser never stores the sentinel [(size_t)-1] that marks a domain
    without authentication source for its clients: in every accepted
    configuration the index of each domain is below the array limit, also when
    the domain names no source. *)
Theorem facet_config_source_index_never_sentinel (malloc_ok : nat -> bool) (data : bytes)
    (size : nat) (config c : FacetSystemConfig) (diagnostic d : option FacetConfigDiagnostic) domain
    (Hdata : bytes_ok data)
    (Hparse : facet_config_parse malloc_ok (Some data) size (Some config) diagnostic = (Ok tt, Some c, d))
    (Hdomain : domain ∈ domains c) :
  0 <= authentication_source_index domain < FACET_CONFIG_MAX_ARRAY_ELEMENTS /\
  authentication_source_index domain <> SIZE_MAX.
Proof.
  pose proof (outcome_parse malloc_ok data size config diagnostic Hdata) as H. rewrite Hparse in H.
  destruct H as (_ & Hinv & _). pose proof (inv_domains _ Hinv) as Hd. rewrite Forall_forall in Hd.
  destruct (Hd _ Hdomain) as (_ & _ & _ & _ & _ & Hz & _). split; [done|].
  unfold SIZE_MAX, FACET_CONFIG_MAX_ARRAY_ELEMENTS in *. lia.
Qed.

Definition sourceless_domain : FacetConfigDomain :=
  match sourceless_config with Some c => default zero_domain (head (domains c)) | None => zero_domain end.

Lemma facet_config_source_index_never_sentinel_witness :
  authentication_source sourceless_domain = None /\
  authentication_source_index sourceless_domain = 0 /\
  authentication_source_index sourceless_domain <> SIZE_MAX.
Proof.
  split; [vm_compute; reflexivity|]. split; [vm_compute; reflexivity|].
  assert (bytes_ok sourceless_document) as Hb by by_decide.
  destruct (facet_config_source_index_never_sentinel (fun _ => true) sourceless_document
    (length sourceless_document) zero_config (default zero_config sourceless_config) None None
    sourceless_domain Hb) as [_ H]; [vm_compute; reflexivity|vm_compute; left|exact H].
Defined.
