(* ===== verification/ConfigRoundtrip.v ===== *)
(** Completeness of the value lexers: what is written as an integer literal or as
    a string of escapes is read back exactly. *)
From S2P Require Import Prelude Utf8 ConfigTypes ConfigLexer ConfigValue ConfigWp ConfigStrings.
From S2P Require Import ConfigValueFacts.

(** [m] run from [s] succeeds with a result that satisfies [Q]. *)
Definition succeeds {A} (m : M A) (Q : A -> Parser -> Prop) (s : Parser) : Prop :=
  wp m Q (fun _ => False) s.

(** ** Taking known bytes *)

Lemma succeeds_take b rest s (Q : Z -> Parser -> Prop) :
  p_rest s = b :: rest ->
  (forall s', p_rest s' = rest -> p_offset s' = S (p_offset s) -> Q b s') -> succeeds take Q s.
Proof.
  intros Hr HQ. unfold succeeds, wp, take. rewrite Hr. destruct (advance _ _). by apply HQ.
Qed.

Lemma succeeds_bind_take {A} b rest s (k : Z -> M A) (Q : A -> Parser -> Prop) :
  p_rest s = b :: rest ->
  (forall s', p_rest s' = rest -> p_offset s' = S (p_offset s) -> succeeds (k b) Q s') ->
  succeeds (bind take k) Q s.
Proof. intros Hr Hk. apply wp_bind. by eapply succeeds_take. Qed.

Lemma cur_of s b rest : p_rest s = b :: rest -> cur s = b.
Proof. unfold cur. by intros ->. Qed.

(** No digit follows. *)
Definition no_digit (rest : bytes) : Prop := forall b, head rest = Some b -> digit b = false.

Lemma no_digit_cur s rest : p_rest s = rest -> no_digit rest -> digit (cur s) = false.
Proof. unfold cur, no_digit. intros -> H. destruct rest; [done|]. by apply H. Qed.

(** ** Integers *)

Lemma decimal_mono m ds : 0 <= m -> Forall (fun c => digit c = true) ds -> m <= decimal m ds.
Proof.
  intros Hm H. revert m Hm. induction H as [|c ds Hc _ IH]; intros m Hm; simpl; [lia|].
  unfold digit in Hc. bool_props. specialize (IH (m * 10 + (c - 48))).
  unfold decimal in *. simpl. lia.
Qed.

Lemma integer_loop_complete fuel (negative : bool) m ds rest s :
  let limit := if negative then INT64_MAX + 1 else INT64_MAX in
  Forall (fun c => digit c = true) ds -> 0 <= m -> decimal m ds <= limit ->
  p_rest s = ds ++ rest -> no_digit rest -> (length ds <= fuel)%nat ->
  succeeds (integer_loop fuel negative m)
    (fun r s' => r = decimal m ds /\ p_rest s' = rest /\ p_offset s' = (p_offset s + length ds)%nat) s.
Proof.
  intros limit Hds. revert fuel m s. induction Hds as [|c ds Hc Hds IH]; intros fuel m s Hm Hl Hr Hno Hf.
  - assert (succeeds (ret m) (fun r s' => r = decimal m [] /\ p_rest s' = rest /\
      p_offset s' = (p_offset s + length (@nil Z))%nat) s) as Hret by (split_and!; [done|done|simpl; lia]).
    pose proof (no_digit_cur s rest Hr Hno) as Hc. unfold digit in Hc.
    destruct fuel; simpl; apply wp_current; by rewrite Hc.
  - destruct fuel as [|f]; simpl in Hf; [lia|]. simpl. apply wp_current.
    rewrite (cur_of s c (ds ++ rest)) by done. unfold digit in Hc. rewrite Hc.
    eapply succeeds_bind_take; [exact Hr|]. intros s' Hr' Ho'. fold limit. bool_props.
    assert (m * 10 + (c - 48) <= limit) as Hstep.
    { pose proof (decimal_mono (m * 10 + (c - 48)) ds ltac:(lia) Hds). simpl in Hl. lia. }
    assert (((limit - (c - 48)) / 10 <? m) = false) as -> by (clearbody limit; apply Z.ltb_ge; dlia).
    assert (u64 (m * 10 + (c - 48)) = m * 10 + (c - 48)) as ->.
    { unfold u64. apply Z.mod_small. unfold limit, INT64_MAX in Hstep. destruct negative; lia. }
    eapply wp_mono; [apply IH; [lia|done|done|done|lia]|].
    intros r s2 (-> & ? & Ho2). split_and!; [done|done|simpl; lia].
Qed.

Lemma decimal_nonneg ds : Forall (fun c => digit c = true) ds -> 0 <= decimal 0 ds.
Proof. intros H. by apply (decimal_mono 0). Qed.

Lemma parse_integer_complete w rest z s :
  integer_literal w z -> INT64_MIN <= z <= INT64_MAX -> p_rest s = w ++ rest -> no_digit rest ->
  succeeds parse_integer (fun r s' => r = z /\ p_rest s' = rest) s.
Proof.
  intros (sign & ds & -> & Hds & Hne & Hlead & Hz) Hrange Hr Hno. rewrite <- app_assoc in Hr.
  unfold parse_integer. apply wp_current.
  assert (exists neg, (if neg : bool then z = - decimal 0 ds else z = decimal 0 ds) /\
    succeeds (if ((cur s =? 43) || (cur s =? 45))%bool then let! c := take in ret (c =? 45) else ret false)
      (fun r s' => r = neg /\ p_rest s' = ds ++ rest) s) as (neg & Hneg & Hsign).
  { destruct Hz as [[[->| ->] ->]|[-> ->]]; [exists false|exists false|exists true]; (split; [done|]).
    - destruct ds as [|c ds]; [done|]. apply Forall_cons in Hds as [Hc _]. unfold digit in Hc. bool_props.
      rewrite (cur_of s c (ds ++ rest)) by done. destruct (_ || _)%bool eqn:Ec; [lia|]. done.
    - rewrite (cur_of s 43 (ds ++ rest) Hr). simpl.
      eapply succeeds_bind_take; [exact Hr|]. intros s' Hs' _. by apply wp_ret.
    - rewrite (cur_of s 45 (ds ++ rest) Hr). simpl.
      eapply succeeds_bind_take; [exact Hr|]. intros s' Hs' _. by apply wp_ret. }
  eapply wp_use; [exact Hsign|]. intros r s1 [-> Hr1]. apply wp_gets. cbn [fst snd].
  pose proof (decimal_nonneg ds Hds) as Hd0. unfold INT64_MIN, INT64_MAX in Hrange.
  eapply wp_use; [apply (integer_loop_complete _ neg 0 ds rest); try done|].
  { unfold INT64_MAX. destruct neg; lia. }
  { rewrite Hr1, length_app. lia. }
  intros m s2 (-> & Hr2 & Ho2). apply wp_gets.
  assert (length ds <> 0%nat) as Hlen by (by destruct ds).
  destruct (_ =? _)%nat eqn:E0; bool_props; [lia|].
  destruct (_ && _)%bool eqn:Elead.
  { apply andb_prop in Elead as [Hl Hh]. apply Nat.ltb_lt in Hl. bool_props.
    rewrite Hr1 in Hh. destruct ds; [done|]. simplify_eq/=. specialize (Hlead eq_refl). lia. }
  apply wp_ret. split; [|done]. unfold INT64_MIN, INT64_MAX in *.
  destruct neg; cbn [andb]; [|lia]. destruct (decimal 0 ds =? _) eqn:Em; bool_props; lia.
Qed.

(** The integer lexer accepts exactly the 64-bit decimal literals: it reads an
    optional sign and digits without a leading zero whose value it returns
    exactly, and every such literal of an int64 value that is not followed by a
    further digit is read in full, with no overflow in the accumulation. *)
Theorem parse_integer_correct (data : bytes) (d0 : option FacetConfigDiagnostic) (s : Parser)
    (Hs : cursor data d0 s) :
  (forall z s', parse_integer s = (Ok z, s') ->
     INT64_MIN <= z <= INT64_MAX /\ exists w, consumed s w s' /\ integer_literal w z) /\
  (forall w rest z, p_rest s = w ++ rest -> no_digit rest -> integer_literal w z ->
     INT64_MIN <= z <= INT64_MAX -> exists s', parse_integer s = (Ok z, s') /\ p_rest s' = rest).
Proof.
  split.
  - intros z s' Hp. pose proof (lex_parse_integer (fun _ => true) _ _ s Hs) as H. unfold lex, wp in H.
    rewrite Hp in H. by destruct H as (_ & _ & H).
  - intros w rest z Hr Hno Hw Hz. pose proof (parse_integer_complete w rest z s Hw Hz Hr Hno) as H.
    unfold succeeds, wp in H. destruct (parse_integer s) as [[a| |] s']; [|done|done].
    destruct H as [-> H]. eauto.
Qed.

Lemma parse_integer_correct_witness :
  exists s', parse_integer (mkParser (B "-9223372036854775808,") 0 1 1 0 SECTION_NONE 0 false false
                              zero_config None 0) = (Ok INT64_MIN, s').
Proof.
  destruct (parse_integer_correct (B "-9223372036854775808,") None
    (mkParser (B "-9223372036854775808,") 0 1 1 0 SECTION_NONE 0 false false zero_config None 0))
    as [_ H]; [constructor; vm_compute; try done; lia|].
  destruct (H (B "-9223372036854775808") (B ",") INT64_MIN) as (s' & Hs' & _).
  - vm_compute. reflexivity.
  - intros b [= <-]. vm_compute. reflexivity.
  - exists (B "-"), (B "9223372036854775808"). split_and!; [reflexivity|by_decide|by vm_compute|by vm_compute|].
    right. split; vm_compute; reflexivity.
  - vm_compute. split; discriminate.
  - exists s'. exact Hs'.
Defined.

(** ** Strings of escapes *)

Definition hex_char (d : Z) : Z := if d <? 10 then 48 + d else 87 + d.

(** The [n] low hexadecimal digits of [v], the most significant first. *)
Fixpoint hex_digits (n : nat) (v : Z) : bytes :=
  match n with
  | O => []
  | S k => hex_char (v / 16 ^ Z.of_nat k mod 16) :: hex_digits k v
  end.

(** A basic string in which every scalar is written as an eight digit escape. *)
Definition escape_scalar (v : Z) : bytes := [92; 85] ++ hex_digits 8 v.
Definition escape_string (vs : list Z) : bytes := [34] ++ mbind escape_scalar vs ++ [34].

Lemma hex_digit_char d : 0 <= d < 16 -> hex_digit (hex_char d) = d.
Proof.
  intros Hd. unfold hex_char, hex_digit. repeat case_goal; bool_props; try lia.
  all: repeat match goal with H : (_ && _)%bool = false |- _ => apply andb_false_iff in H as [H|H] end; bool_props; lia.
Qed.

Lemma unicode_digits_complete n acc v rest s :
  0 <= acc -> 0 <= v -> (acc + 1) * 16 ^ Z.of_nat n <= 2 ^ 32 -> p_rest s = hex_digits n v ++ rest ->
  succeeds (unicode_digits n acc)
    (fun r s' => r = acc * 16 ^ Z.of_nat n + v mod 16 ^ Z.of_nat n /\ p_rest s' = rest) s.
Proof.
  revert acc s. induction n as [|n IH]; intros acc s Ha Hv Hlt Hr; simpl.
  - apply wp_ret. rewrite Z.pow_0_r, Z.mod_1_r. split; [lia|done].
  - eapply succeeds_bind_take; [exact Hr|]. intros s' Hr' _.
    set (d := v / 16 ^ Z.of_nat n mod 16). assert (0 <= d < 16) as Hd by (apply Z.mod_pos_bound; lia).
    rewrite hex_digit_char by done. case_goal; [lia|]. rewrite Nat2Z.inj_succ, Z.pow_succ_r in * by lia.
    assert (0 < 16 ^ Z.of_nat n) as Hp by lia.
    assert (Z.lor (u32 (Z.shiftl acc 4)) d = acc * 16 + d) as ->.
    { unfold u32. rewrite Z.mod_small; [by apply lor_shiftl_add|].
      rewrite Z.shiftl_mul_pow2 by lia. nia. }
    eapply wp_mono; [apply IH; [lia|done|nia|done]|]. intros r s2 [-> ?]. split; [|done].
    rewrite (Z.mul_comm 16), Z.rem_mul_r by lia. fold d. lia.
Qed.

Lemma succeeds_allocate {A} ctx (k : M A) (Q : A -> Parser -> Prop) s :
  (forall s', p_rest s' = p_rest s -> succeeds k Q s') ->
  succeeds (let! ok := allocate (fun _ => true) in if negb ok then out_of_memory ctx else k) Q s.
Proof. intros Hk. unfold succeeds, wp, bind, allocate. simpl. by apply Hk. Qed.

Lemma append_utf8_succeeds sb v s :
  buffer_ok sb -> unicode_scalar v -> 0 < v ->
  used sb + zlen (utf8_encode v) <= FACET_CONFIG_MAX_STRING_BYTES ->
  succeeds (append_utf8 (fun _ => true) sb v)
    (fun sb' s' => buffer_ok sb' /\ sb_bytes sb' = sb_bytes sb ++ utf8_encode v /\
                   0 < sb_capacity sb' /\ p_rest s' = p_rest s) s.
Proof.
  intros (Hnz & Hub & Hc) Hs Hv Hu.
  pose proof (utf8_encode_length v ltac:(destruct Hs; lia)) as Hlen.
  pose proof (utf8_count_range v) as Hcount.
  assert (used (mkBuffer (sb_bytes sb ++ utf8_encode v) 0) = used sb + utf8_count v) as Hu'
    by (unfold used; simpl; rewrite zlen_app; lia).
  assert (Forall (fun b => 0 < b < 256) (sb_bytes sb ++ utf8_encode v)) as Hnz'
    by (apply Forall_app; split; [done|apply utf8_encode_nonzero; [done|lia]]).
  assert (0 <= used sb) as Hpos by apply zlen_nonneg.
  assert (sb_capacity sb = 0 -> used sb = 0) as H0.
  { intros E0. destruct Hc as [[_ Hnil]|Hc]; [unfold used; by rewrite Hnil|lia]. }
  unfold append_utf8. rewrite (proj2 (scalar_ok_spec v ltac:(lia)) Hs). simpl negb. cbv iota.
  destruct (_ <? used sb) eqn:El; [lia|]. apply wp_bind. destruct (sb_capacity sb <? _) eqn:Ec.
  - apply wp_bind. cbn [grow_capacity].
    rewrite (proj2 (Z.ltb_ge (if sb_capacity sb =? 0 then _ else _) _))
      by (destruct (sb_capacity sb =? 0) eqn:E0; lia).
    apply wp_ret, succeeds_allocate. intros s' Hr. apply wp_ret, wp_ret.
    unfold buffer_ok, FACET_CONFIG_MAX_STRING_BYTES, used in *; cbn [sb_bytes sb_capacity] in *.
    destruct (sb_capacity sb =? 0) eqn:E0; case_goal; split_and!; try done; try lia.
  - apply wp_ret, wp_ret.
    unfold buffer_ok, FACET_CONFIG_MAX_STRING_BYTES, used in *; cbn [sb_bytes sb_capacity] in *.
    split_and!; try done; try lia.
Qed.

Lemma hex_digits_length n v : length (hex_digits n v) = n.
Proof. induction n; simpl; congruence. Qed.

Lemma quoted_escape_complete sb v rest s :
  buffer_ok sb -> unicode_scalar v -> 0 < v ->
  used sb + zlen (utf8_encode v) <= FACET_CONFIG_MAX_STRING_BYTES ->
  p_rest s = escape_scalar v ++ rest ->
  succeeds (quoted_character (fun _ => true) 34 sb)
    (fun sb' s' => buffer_ok sb' /\ sb_bytes sb' = sb_bytes sb ++ utf8_encode v /\
                   0 < sb_capacity sb' /\ p_rest s' = rest) s.
Proof.
  intros Hb Hs Hv Hu Hr. eapply succeeds_bind_take; [exact Hr|]. intros s1 Hr1 _.
  cbv zeta. cbn [Z.eqb Pos.eqb orb andb]. apply wp_bind.
  eapply succeeds_bind_take; [exact Hr1|]. intros s2 Hr2 _. cbn [Z.eqb Pos.eqb].
  eapply wp_mono; [apply (unicode_digits_complete 8 0 v rest); [lia|lia|lia|done]|].
  intros r s3 [Hrv Hr3]. rewrite Z.mod_small in Hrv by (destruct Hs; lia).
  assert (r = v) as -> by lia. clear Hrv.
  destruct (v =? 0) eqn:E0; [lia|]. cbn [negb andb].
  eapply wp_mono; [by apply append_utf8_succeeds|]. intros sb' s4 (? & ? & ? & ->). auto.
Qed.

Lemma quoted_loop_complete vs fuel sb rest s :
  buffer_ok sb -> Forall (fun v => unicode_scalar v /\ 0 < v) vs ->
  used sb + zlen (mbind utf8_encode vs) <= FACET_CONFIG_MAX_STRING_BYTES ->
  p_rest s = mbind escape_scalar vs ++ 34 :: rest -> (length vs <= fuel)%nat ->
  succeeds (quoted_loop (fun _ => true) fuel 34 sb)
    (fun sb' s' => sb_bytes sb' = sb_bytes sb ++ mbind utf8_encode vs /\
       (sb_capacity sb' = 0 -> vs = [] /\ sb_capacity sb = 0) /\ p_rest s' = 34 :: rest) s.
Proof.
  intros Hb Hvs. revert fuel sb s Hb. induction Hvs as [|v vs [Hv Hp] Hvs IH]; intros fuel sb s Hb Hu Hr Hf.
  - rewrite app_nil_r. destruct fuel; simpl; apply wp_current; rewrite (cur_of s 34 rest Hr); by apply wp_ret.
  - destruct fuel as [|f]; simpl in Hf; [lia|]. rewrite bind_cons in Hr, Hu. rewrite zlen_app in Hu.
    rewrite <- app_assoc in Hr. simpl. apply wp_current. rewrite (cur_of s 92 _ Hr). cbn [Z.leb Z.eqb Pos.eqb Z.compare andb negb].
    pose proof (zlen_nonneg (mbind utf8_encode vs)) as Hnn.
    eapply wp_use; [eapply quoted_escape_complete; [done|done|done|lia|exact Hr]|].
    intros sb1 s1 (Hb1 & Hbytes & Hcap & Hr1).
    eapply wp_mono; [apply IH; [done| |exact Hr1|lia]|].
    + unfold used in *. rewrite Hbytes, zlen_app. lia.
    + intros sb2 s2 (-> & Hc2 & Hr2). rewrite Hbytes, <- app_assoc. split; [done|]. split; [|done].
      intros H0. destruct (Hc2 H0). lia.
Qed.

(** Every string can be written in a configuration: the basic string of the
    eight digit escapes of any non-NUL Unicode scalars whose UTF-8 encoding is
    within the limit is read back as exactly that encoding, when allocation
    succeeds, and the cursor stops after the closing quote. *)
Theorem parse_quoted_string_escapes (vs : list Z) (rest : bytes) (s : Parser)
    (Hvs : Forall (fun v => unicode_scalar v /\ 0 < v) vs)
    (Hlen : zlen (mbind utf8_encode vs) <= FACET_CONFIG_MAX_STRING_BYTES)
    (Hs : p_rest s = escape_string vs ++ rest) :
  exists s', parse_quoted_string (fun _ => true) s = (Ok (mbind utf8_encode vs), s') /\
             p_rest s' = rest.
Proof.
  assert (succeeds (parse_quoted_string (fun _ => true))
    (fun r s' => r = mbind utf8_encode vs /\ p_rest s' = rest) s) as H.
  { unfold escape_string in Hs. rewrite <- !app_assoc in Hs.
    eapply succeeds_bind_take; [exact Hs|]. intros s1 Hr1 _. apply wp_gets.
    assert (length vs <= length (p_rest s1))%nat as Hf.
    { rewrite Hr1, length_app. clear. induction vs as [|v vs IH]; [simpl; lia|]. rewrite bind_cons, length_app.
      unfold escape_scalar at 1. rewrite length_app, hex_digits_length.
      change (length (v :: vs)) with (S (length vs)). lia. }
    eapply wp_use; [apply (quoted_loop_complete vs _ _ rest); [|done| |exact Hr1|done]|].
    - split_and!; [constructor|done|by left].
    - done.
    - intros sb s2 (Hb & Hc & Hr2). eapply succeeds_bind_take; [exact Hr2|]. intros s3 Hr3 _.
      simpl. destruct (sb_capacity sb =? 0) eqn:E0; bool_props; [|apply wp_ret; by rewrite Hb].
      destruct (Hc E0) as [-> _]. done. }
  unfold succeeds, wp in H. destruct (parse_quoted_string _ s) as [[r| |] s']; [|done|done].
  destruct H as [-> H]. eauto.
Qed.

Lemma parse_quoted_string_escapes_witness :
  exists s', parse_quoted_string (fun _ => true)
    (mkParser (escape_string [0x68; 0x20ac; 0x1f600]) 0 1 1 0 SECTION_NONE 0 false false zero_config None 0)
    = (Ok (mbind utf8_encode [0x68; 0x20ac; 0x1f600]), s').
Proof.
  destruct (parse_quoted_string_escapes [0x68; 0x20ac; 0x1f600] []
    (mkParser (escape_string [0x68; 0x20ac; 0x1f600]) 0 1 1 0 SECTION_NONE 0 false false zero_config None 0))
    as (s' & Hs & _); [|vm_compute; discriminate|reflexivity|exists s'; exact Hs].
  repeat constructor; unfold unicode_scalar; lia.
Defined.
