(* ===== verification/Klog.v ===== *)
(** The kernel log of dominit0 (src/src/dominit0/klog.c): the early and the
    dynamic log store, the routes to logging sinks, the formatter, and the locks
    that guard them.

    The state of the file's static variables is [KlogState]; every function is a
    state transformer.  Sinks are objects of other components: a sink is a number,
    whether it has an [emit] method and what [emit] answers are parameters, and
    the calls made are recorded in [trace].  The kernel heap is a parameter too. *)
From S2P Require Import Prelude.

Definition KLOG_MAX_SINKS : nat := 8.
Definition KLOG_EARLY_BUFSIZE : Z := 2 * 1024.
Definition KLOG_CTX_BUFSIZE : nat := 128.

(** ** Levels *)

Definition LogLevel_None : Z := 0.
Definition LogLevel_Fatal : Z := 10.
Definition LogLevel_Error : Z := 20.
Definition LogLevel_Warning : Z := 30.
Definition LogLevel_Info : Z := 40.
Definition LogLevel_Debug : Z := 50.
Definition LogLevel_Trace : Z := 60.

(** ** State *)

Definition sink := nat.

Record KlogRoute := mkRoute {
  route_sink : option sink;
  maximum_level : Z;
  enabled : bool
}.

Definition zero_route : KlogRoute := mkRoute None 0 false.

Inductive klog_store_fn := klog_early_store | klog_prod_store.

(** A heap block: its bytes; the length is the size it was allocated with. *)
Record KlogState := mkKlog {
  klog_public_lock : bool;
  klog_internal_lock : bool;
  klog_routes : list KlogRoute;
  klog_emergency_sink : option sink;
  klog_early_buf : bytes;          (** the [klog_early_buf_used] bytes in use *)
  klog_early_truncated : bool;
  klog_prod_buf : option bytes;
  klog_prod_buf_used : Z;
  klog_prod_buf_size : Z;
  klog_in_progress : bool;
  klog_cur_store_fn : option klog_store_fn;
  trace : list (sink * bytes)      (** the [emit] calls made so far *)
}.

Definition klog_early_buf_used (s : KlogState) : Z := zlen (klog_early_buf s).

(** ** Outcomes *)

(** A call returns, stops in [kpanic_halt], writes or reads outside an object, or
    spins for a lock that its own caller holds. *)
Inductive outcome (A : Type) :=
  | Done (a : A) (s : KlogState)
  | Halted (s : KlogState)
  | Fault
  | Spin.
Arguments Done {A}. Arguments Halted {A}. Arguments Fault {A}. Arguments Spin {A}.

Definition K (A : Type) := KlogState -> outcome A.
Definition kret {A} (a : A) : K A := fun s => Done a s.
Definition kbind {A C} (m : K A) (k : A -> K C) : K C := fun s =>
  match m s with
  | Done a s' => k a s'
  | Halted s' => Halted s'
  | Fault => Fault
  | Spin => Spin
  end.
Definition kget {A} (f : KlogState -> A) : K A := fun s => Done (f s) s.
Definition kput (f : KlogState -> KlogState) : K unit := fun s => Done tt (f s).
Definition fault {A} : K A := fun _ => Fault.

Declare Scope klog_scope.
Delimit Scope klog_scope with klog.
Notation "'do' x '<-' m ; k" := (kbind m (fun x => k))
  (at level 200, x pattern, m at level 100, k at level 200, right associativity) : klog_scope.
Notation "m ;> k" := (kbind m (fun _ => k)) (at level 60, right associativity) : klog_scope.
Open Scope klog_scope.

(** ** Field updates *)

Definition set_locks (pub int : bool) (s : KlogState) : KlogState :=
  mkKlog pub int (klog_routes s) (klog_emergency_sink s) (klog_early_buf s)
    (klog_early_truncated s) (klog_prod_buf s) (klog_prod_buf_used s) (klog_prod_buf_size s)
    (klog_in_progress s) (klog_cur_store_fn s) (trace s).
Definition set_routes (r : list KlogRoute) (s : KlogState) : KlogState :=
  mkKlog (klog_public_lock s) (klog_internal_lock s) r (klog_emergency_sink s) (klog_early_buf s)
    (klog_early_truncated s) (klog_prod_buf s) (klog_prod_buf_used s) (klog_prod_buf_size s)
    (klog_in_progress s) (klog_cur_store_fn s) (trace s).
Definition set_early (buf : bytes) (truncated : bool) (s : KlogState) : KlogState :=
  mkKlog (klog_public_lock s) (klog_internal_lock s) (klog_routes s) (klog_emergency_sink s) buf
    truncated (klog_prod_buf s) (klog_prod_buf_used s) (klog_prod_buf_size s)
    (klog_in_progress s) (klog_cur_store_fn s) (trace s).
Definition set_prod (buf : option bytes) (used size : Z) (s : KlogState) : KlogState :=
  mkKlog (klog_public_lock s) (klog_internal_lock s) (klog_routes s) (klog_emergency_sink s)
    (klog_early_buf s) (klog_early_truncated s) buf used size
    (klog_in_progress s) (klog_cur_store_fn s) (trace s).
Definition set_in_progress (b : bool) (s : KlogState) : KlogState :=
  mkKlog (klog_public_lock s) (klog_internal_lock s) (klog_routes s) (klog_emergency_sink s)
    (klog_early_buf s) (klog_early_truncated s) (klog_prod_buf s) (klog_prod_buf_used s)
    (klog_prod_buf_size s) b (klog_cur_store_fn s) (trace s).
Definition set_store (f : option klog_store_fn) (s : KlogState) : KlogState :=
  mkKlog (klog_public_lock s) (klog_internal_lock s) (klog_routes s) (klog_emergency_sink s)
    (klog_early_buf s) (klog_early_truncated s) (klog_prod_buf s) (klog_prod_buf_used s)
    (klog_prod_buf_size s) (klog_in_progress s) f (trace s).
Definition add_trace (k : sink) (data : bytes) (s : KlogState) : KlogState :=
  mkKlog (klog_public_lock s) (klog_internal_lock s) (klog_routes s) (klog_emergency_sink s)
    (klog_early_buf s) (klog_early_truncated s) (klog_prod_buf s) (klog_prod_buf_used s)
    (klog_prod_buf_size s) (klog_in_progress s) (klog_cur_store_fn s) (trace s ++ [(k, data)]).

(** ** The parameters: sinks and the kernel heap *)

Record KlogEnv := mkEnv {
  sink_has_emit : sink -> bool;
  (** what [emit] answers, given the calls before it *)
  sink_emit : list (sink * bytes) -> sink -> bytes -> FacetResult;
  kmalloc_ok : Z -> bool;
  krealloc_ok : Z -> bool;
  kmalloc_is_in_progress : bool;
  (** the contents of memory that was not written yet *)
  fresh_byte : Z
}.

Section Klog.
Context (env : KlogEnv).

(** ** Locks *)

Definition klog_lock_internal : K unit := fun s =>
  if klog_internal_lock s then Spin else Done tt (set_locks (klog_public_lock s) true s).
Definition klog_unlock_internal : K unit := fun s =>
  Done tt (set_locks (klog_public_lock s) false s).
Definition klog_lock : K unit := fun s =>
  if klog_public_lock s then Spin else Done tt (set_locks true (klog_internal_lock s) s).
Definition klog_unlock : K unit := fun s =>
  Done tt (set_locks false (klog_internal_lock s) s).

(** ** Sinks *)

Definition klog_emit_to_sink (target : option sink) (data : bytes) : K FacetResult := fun s =>
  match target with
  | None => Done FACET_INVALID_ARGUMENT s
  | Some k =>
      if sink_has_emit env k then Done (sink_emit env (trace s) k data) (add_trace k data s)
      else Done FACET_INVALID_ARGUMENT s
  end.

Definition klog_emergency_write (data : bytes) : K unit :=
  do emergency <- kget klog_emergency_sink;
  match emergency with
  | Some _ => klog_emit_to_sink emergency data ;> kret tt
  | None => kret tt
  end.

Definition klog_init_early (emergency_sink : option sink) : K unit :=
  kput (fun s =>
    let routes := repeat zero_route KLOG_MAX_SINKS in
    let routes := match emergency_sink with
                  | Some k => if sink_has_emit env k
                              then <[0%nat := mkRoute (Some k) LogLevel_Trace true]> routes
                              else routes
                  | None => routes
                  end in
    mkKlog false false routes emergency_sink [] false None 0 0 false
      (Some klog_early_store) (trace s)).

Definition klog_kpanic {A} (msg : bytes) : K A := fun s =>
  match (klog_emergency_write ([10; 10; 10] ++ B "KERNEL PANIC: ") ;>
         klog_emergency_write msg ;>
         klog_emergency_write [10; 10; 10]) s with
  | Done _ s' => Halted s'
  | Halted s' => Halted s'
  | Fault => Fault
  | Spin => Spin
  end.

(** ** Stores *)

(** Overwrite [data] at [offset] of a block, if it is inside. *)
Definition block_write (block : bytes) (offset : Z) (data : bytes) : option bytes :=
  if ((0 <=? offset) && (offset + zlen data <=? zlen block))%bool
  then Some (firstn (Z.to_nat offset) block ++ data ++
             skipn (Z.to_nat offset + length data) block)
  else None.

(** [krealloc]: the bytes that both sizes share are kept. *)
Definition resize_block (block : bytes) (size : Z) : bytes :=
  firstn (Z.to_nat size) block ++
  repeat (fresh_byte env) (Z.to_nat size - length block).

(** The copy of the data and of the NUL after them into the block. *)
Definition klog_prod_write (block : bytes) (used : Z) (data : bytes) : K unit :=
  match block_write block used data with
  | None => fault
  | Some block1 =>
      match block_write block1 (used + zlen data) [0] with
      | None => fault
      | Some block2 =>
          kput (fun s => set_prod (Some block2) (used + zlen data) (klog_prod_buf_size s) s)
      end
  end.

Definition klog_prod_store_fn (data : bytes) : K unit :=
  do buf <- kget klog_prod_buf;
  do used <- kget klog_prod_buf_used;
  do size <- kget klog_prod_buf_size;
  let len := zlen data in
  let available := u64 (size - used) in
  if available <? len then
    if kmalloc_is_in_progress env then kret tt
    else if u64 (SIZE_MAX - used - 1) <? len then klog_kpanic (B "klog buffer size overflow!")
    else
      let new_size := used + len + 1 in
      if krealloc_ok env new_size then
        let block := resize_block (default [] buf) new_size in
        kput (set_prod (Some block) used new_size) ;> klog_prod_write block used data
      else klog_kpanic (B "Could not expand klog buffer!")
  else match buf with
    | Some block => klog_prod_write block used data
    | None => fault
    end.

Definition klog_early_store_fn (data : bytes) : K unit :=
  kput (fun s =>
    let available := KLOG_EARLY_BUFSIZE - klog_early_buf_used s in
    if available <? zlen data
    then set_early (klog_early_buf s ++ firstn (Z.to_nat available) data) true s
    else set_early (klog_early_buf s ++ data) (klog_early_truncated s) s).

Definition klog_store (data : bytes) : K unit :=
  do f <- kget klog_cur_store_fn;
  match f with
  | None => kret tt
  | Some klog_early_store => klog_early_store_fn data
  | Some klog_prod_store => klog_prod_store_fn data
  end.

(** ** Emission through a 128 byte buffer *)

Record klog_emit_ctx := mkCtx { ctx_buf : bytes; ctx_level : Z }.

Definition failure_message : bytes := B "klog: configured sink failed; disabling route" ++ [10].

(** One iteration of the loop over the routes. *)
Definition klog_route_emit (level : Z) (data : bytes) (i : nat) : K unit :=
  do routes <- kget klog_routes;
  match routes !! i with
  | None => fault
  | Some route =>
      if (negb (enabled route) || (maximum_level route <? level))%bool then kret tt
      else
        do result <- klog_emit_to_sink (route_sink route) data;
        if bool_decide (result = FACET_OK) then kret tt
        else
          kput (fun s => set_routes
            (<[i := mkRoute (route_sink route) (maximum_level route) false]> (klog_routes s)) s) ;>
          klog_emergency_write failure_message ;>
          do emergency <- kget klog_emergency_sink;
          if bool_decide (route_sink route = emergency) then kret tt
          else klog_emergency_write data
  end.

Fixpoint klog_route_loop (count i : nat) (level : Z) (data : bytes) : K unit :=
  match count with
  | O => kret tt
  | S n => klog_route_emit level data i ;> klog_route_loop n (S i) level data
  end.

Definition klog_emit_flush (ctx : klog_emit_ctx) : K klog_emit_ctx :=
  match ctx_buf ctx with
  | [] => kret ctx
  | data =>
      klog_store data ;>
      klog_route_loop KLOG_MAX_SINKS 0 (ctx_level ctx) data ;>
      kret (mkCtx [] (ctx_level ctx))
  end.

Definition klog_emit_char (ctx : klog_emit_ctx) (c : Z) : K klog_emit_ctx :=
  let ctx := mkCtx (ctx_buf ctx ++ [c]) (ctx_level ctx) in
  if (length (ctx_buf ctx) =? KLOG_CTX_BUFSIZE)%nat then klog_emit_flush ctx else kret ctx.

Fixpoint emit_bytes (ctx : klog_emit_ctx) (str : bytes) : K klog_emit_ctx :=
  match str with
  | [] => kret ctx
  | c :: rest => do ctx <- klog_emit_char ctx c; emit_bytes ctx rest
  end.

Definition klog_emit_string (ctx : klog_emit_ctx) (str : option bytes) : K klog_emit_ctx :=
  emit_bytes ctx (default (B "(null)") str).

(** ** Numbers *)

(** [digits[d]] of the table 0123456789abcdef. *)
Definition digits : bytes := B "0123456789abcdef".

(** The loop that fills the 64 byte buffer, least significant digit first; [None]
    when it is full or the table is exceeded. *)
Fixpoint uint_digits (room : nat) (value base : Z) : option bytes :=
  if value =? 0 then Some []
  else match room with
    | O => None
    | S n =>
        match digits !! Z.to_nat (value mod base), uint_digits n (value / base) base with
        | Some c, Some rest => Some (c :: rest)
        | _, _ => None
        end
    end.

Definition klog_emit_uint (ctx : klog_emit_ctx) (value base : Z) : K klog_emit_ctx :=
  if value =? 0 then klog_emit_char ctx 48
  else match uint_digits 64 value base with
    | None => fault
    | Some buf => emit_bytes ctx (rev buf)
    end.

(** [unsigned] is 32 bits wide. *)
Definition klog_emit_int (ctx : klog_emit_ctx) (value : Z) : K klog_emit_ctx :=
  if value <? 0 then
    do ctx <- klog_emit_char ctx 45;
    klog_emit_uint ctx (u32 (u32 (- (value + 1)) + 1)) 10
  else klog_emit_uint ctx (u32 value) 10.

Definition klog_emit_int64 (ctx : klog_emit_ctx) (value : Z) : K klog_emit_ctx :=
  if value <? 0 then
    do ctx <- klog_emit_char ctx 45;
    klog_emit_uint ctx (u64 (u64 (- (value + 1)) + 1)) 10
  else klog_emit_uint ctx (u64 value) 10.

(** ** Formatting *)

(** An argument slot: a string pointer or an 8 byte word. *)
Inductive va := VString (s : option bytes) | VWord (w : Z).

Definition va_word (ap : list va) : option (Z * list va) :=
  match ap with VWord w :: rest => Some (w, rest) | _ => None end.
Definition va_string (ap : list va) : option (option bytes * list va) :=
  match ap with VString s :: rest => Some (s, rest) | _ => None end.

(** Integers of an argument word: [int], [unsigned], and the 64 bit types. *)
Definition word_int (w : Z) : Z := signed 32 (u32 w).
Definition word_uint (w : Z) : Z := u32 w.
Definition word_int64 (w : Z) : Z := signed 64 (u64 w).
Definition word_uint64 (w : Z) : Z := u64 w.

(** Print the next argument word with [k], or fault when it is absent. *)
Definition with_word (ap : list va) (k : Z -> K klog_emit_ctx) : K (klog_emit_ctx * list va) :=
  match va_word ap with
  | None => fault
  | Some (w, ap') => do ctx <- k w; kret (ctx, ap')
  end.

(** The long integer conversions after a length prefix [shown]; [None] as next
    format stands for the early return at the end of the string. *)
Definition klog_long (ctx : klog_emit_ctx) (shown : bytes) (fmt : bytes) (ap : list va)
  : K (klog_emit_ctx * list va * option bytes) :=
  match fmt with
  | [] => do ctx <- emit_bytes ctx shown; kret (ctx, ap, None)
  | c :: rest =>
      if ((c =? 100) || (c =? 105))%bool then
        do r <- with_word ap (fun w => klog_emit_int64 ctx (word_int64 w)); kret (r, Some rest)
      else if c =? 117 then
        do r <- with_word ap (fun w => klog_emit_uint ctx (word_uint64 w) 10); kret (r, Some rest)
      else if c =? 120 then
        do r <- with_word ap (fun w => klog_emit_uint ctx (word_uint64 w) 16); kret (r, Some rest)
      else
        do ctx <- emit_bytes ctx shown;
        do ctx <- klog_emit_char ctx c; kret (ctx, ap, Some rest)
  end.

Definition klog_size (ctx : klog_emit_ctx) (fmt : bytes) (ap : list va)
  : K (klog_emit_ctx * list va * option bytes) :=
  match fmt with
  | [] => do ctx <- emit_bytes ctx (B "%z"); kret (ctx, ap, None)
  | c :: rest =>
      if c =? 117 then
        do r <- with_word ap (fun w => klog_emit_uint ctx (word_uint64 w) 10); kret (r, Some rest)
      else if c =? 120 then
        do r <- with_word ap (fun w => klog_emit_uint ctx (word_uint64 w) 16); kret (r, Some rest)
      else
        do ctx <- emit_bytes ctx (B "%z");
        do ctx <- klog_emit_char ctx c; kret (ctx, ap, Some rest)
  end.

(** The conversion after a percent sign. *)
Definition klog_conversion (ctx : klog_emit_ctx) (fmt : bytes) (ap : list va)
  : K (klog_emit_ctx * list va * option bytes) :=
  match fmt with
  | [] => do ctx <- klog_emit_char ctx 37; kret (ctx, ap, None)
  | c :: rest =>
      if c =? 37 then do ctx <- klog_emit_char ctx 37; kret (ctx, ap, Some rest)
      else if c =? 115 then
        match va_string ap with
        | None => fault
        | Some (str, ap') => do ctx <- klog_emit_string ctx str; kret (ctx, ap', Some rest)
        end
      else if ((c =? 100) || (c =? 105))%bool then
        do r <- with_word ap (fun w => klog_emit_int ctx (word_int w)); kret (r, Some rest)
      else if c =? 117 then
        do r <- with_word ap (fun w => klog_emit_uint ctx (word_uint w) 10); kret (r, Some rest)
      else if c =? 120 then
        do r <- with_word ap (fun w => klog_emit_uint ctx (word_uint w) 16); kret (r, Some rest)
      else if c =? 122 then klog_size ctx rest ap
      else if c =? 108 then
        match rest with
        | d :: rest' => if d =? 108 then klog_long ctx (B "%ll") rest' ap
                        else klog_long ctx (B "%l") rest ap
        | [] => klog_long ctx (B "%l") [] ap
        end
      else if c =? 112 then
        do ctx <- emit_bytes ctx (B "0x");
        do r <- with_word ap (fun w => klog_emit_uint ctx (word_uint64 w) 16); kret (r, Some rest)
      else
        do ctx <- klog_emit_char ctx 37;
        do ctx <- klog_emit_char ctx c; kret (ctx, ap, Some rest)
  end.

(** [fuel] bounds the characters of the format that are left. *)
Fixpoint klog_vprintf (fuel : nat) (ctx : klog_emit_ctx) (fmt : bytes) (ap : list va)
  : K klog_emit_ctx :=
  match fmt with
  | [] => kret ctx
  | c :: rest =>
      match fuel with
      | O => fault
      | S f =>
          if negb (c =? 37) then do ctx <- klog_emit_char ctx c; klog_vprintf f ctx rest ap
          else
            do r <- klog_conversion ctx rest ap;
            match r with
            | (ctx, ap', Some rest') => klog_vprintf f ctx rest' ap'
            | (ctx, _, None) => kret ctx
            end
      end
  end.

(** ** Entry points *)

Inductive log_level := LOG_DEBUG | LOG_INFO | LOG_WARN | LOG_ERROR.

Definition configured_level (level : log_level) : Z :=
  match level with
  | LOG_DEBUG => LogLevel_Debug
  | LOG_INFO => LogLevel_Info
  | LOG_WARN => LogLevel_Warning
  | LOG_ERROR => LogLevel_Error
  end.

Definition klog (level : log_level) (fmt : option bytes) (ap : list va) : K unit :=
  match fmt with
  | None => kret tt
  | Some fmt =>
      do busy <- kget klog_in_progress;
      kput (set_in_progress true) ;>
      if busy then kret tt
      else
        klog_lock_internal ;>
        do ctx <- klog_vprintf (length fmt) (mkCtx [] (configured_level level)) fmt ap;
        klog_emit_flush ctx ;>
        klog_unlock_internal ;>
        kput (set_in_progress false)
  end.

(** ** The switch to configured routes *)

Record FacetString := mkString { fs_data : option bytes; fs_length : nat }.
Record Sink := mkConfigured { sink_name : FacetString; sink_level : Z }.
Record KlogSinkBinding := mkBinding { binding_name : FacetString; binding_sink : option sink }.

Definition klog_string_equal (left right : FacetString) : bool :=
  if ((negb (fs_length left =? 0)%nat && bool_decide (fs_data left = None)) ||
      (negb (fs_length right =? 0)%nat && bool_decide (fs_data right = None)))%bool then false
  else ((fs_length left =? fs_length right)%nat &&
        ((fs_length left =? 0)%nat ||
         (firstn (fs_length left) (default [] (fs_data left)) =b
          firstn (fs_length left) (default [] (fs_data right)))))%bool.

Definition klog_valid_maximum_level (level : Z) : bool :=
  ((level =? LogLevel_None) || (level =? LogLevel_Fatal) || (level =? LogLevel_Error) ||
   (level =? LogLevel_Warning) || (level =? LogLevel_Info) || (level =? LogLevel_Debug) ||
   (level =? LogLevel_Trace))%bool.

(** The index of the only binding with the name: [None] when there is none or more
    than one. *)
Fixpoint klog_match (name : FacetString) (bindings : list KlogSinkBinding) (j : nat)
    (found : option nat) : option nat :=
  match bindings with
  | [] => found
  | b :: rest =>
      if klog_string_equal name (binding_name b) then
        match found with
        | Some _ => None
        | None => klog_match name rest (S j) (Some j)
        end
      else klog_match name rest (S j) found
  end.

(** The routes that the configured sinks get; [None] when one is refused. *)
Fixpoint klog_build_routes (configured : list Sink) (bindings : list KlogSinkBinding)
  : option (list KlogRoute) :=
  match configured with
  | [] => Some []
  | c :: rest =>
      if negb (klog_valid_maximum_level (sink_level c)) then None
      else match klog_match (sink_name c) bindings 0 None with
        | None => None
        | Some j =>
            match bindings !! j, klog_build_routes rest bindings with
            | Some b, Some routes =>
                let route := match binding_sink b with
                             | Some k => if sink_level c =? LogLevel_None then zero_route
                                         else mkRoute (Some k) (sink_level c) true
                             | None => zero_route
                             end in
                Some (route :: routes)
            | _, _ => None
            end
        end
  end.

(** What [config->getsinks] answered: a result and an array. *)
Record ILoggingConfig := mkLoggingConfig {
  getsinks : option (FacetResult * option (list Sink) * nat)
}.

(** The switch itself, once the routes and the buffer are known. *)
Definition klog_switch (routes : list KlogRoute) : K unit :=
  klog_lock ;> klog_lock_internal ;>
  kput (fun s =>
    set_store (Some klog_prod_store)
      (set_routes routes
        (set_prod (Some (klog_early_buf s ++ [0])) (klog_early_buf_used s)
                  (klog_early_buf_used s + 1) s))) ;>
  klog_unlock_internal ;>
  do truncated <- kget klog_early_truncated;
  (if truncated then klog LOG_INFO (Some (B "..." ++ [10] ++ B "(early logbuf truncated)" ++ [10])) []
   else kret tt) ;>
  klog LOG_INFO (Some (B "Switched to dynamic log buffer!" ++ [10])) [] ;>
  klog_unlock.

Definition klog_init_postboot (config : option ILoggingConfig)
    (bindings : option (list KlogSinkBinding)) (binding_count : nat) : K Z :=
  match config with
  | None => kret (-1)
  | Some (mkLoggingConfig None) => kret (-1)
  | Some (mkLoggingConfig (Some (result, data, count))) =>
      if (bool_decide (bindings = None) && negb (binding_count =? 0)%nat)%bool then kret (-1)
      else if (negb (bool_decide (result = FACET_OK)) || (KLOG_MAX_SINKS <? count)%nat ||
               (bool_decide (data = None) && negb (count =? 0)%nat))%bool then kret (-1)
      else
        match klog_build_routes (firstn count (default [] data))
                (firstn binding_count (default [] bindings)) with
        | None => kret (-1)
        | Some routes =>
            do used <- kget klog_early_buf_used;
            if negb (kmalloc_ok env (used + 1)) then kret (-1)
            else
              klog_switch (routes ++ repeat zero_route (KLOG_MAX_SINKS - length routes)) ;>
              kret 0
        end
  end.

End Klog.
