(* ===== verification/KlogFacts.v ===== *)
(** The kernel log: numbers are printed exactly, a message is stored and routed
    as the formatter renders it, and the stores keep their bounds, with the
    exception of the dynamic store when a message fills it exactly. *)
From stdpp Require Import sets.
From S2P Require Import Prelude Klog.

(** ** Numbers *)

(** The value of a digit string in a base, most significant digit first. *)
Definition digit_value (c : Z) : Z := if c <? 58 then c - 48 else c - 87.
Definition number_value (base : Z) (ds : bytes) : Z :=
  fold_left (fun a c => a * base + digit_value c) ds 0.

(** The digits of a number, least significant first. *)
Fixpoint value_rev (base : Z) (ds : bytes) : Z :=
  match ds with [] => 0 | c :: rest => digit_value c + base * value_rev base rest end.

Lemma number_value_rev base ds : number_value base (rev ds) = value_rev base ds.
Proof.
  unfold number_value. induction ds as [|c ds IH]; simpl; [done|].
  rewrite fold_left_app. simpl. rewrite IH. lia.
Qed.

Lemma digits_lookup d : 0 <= d < 16 ->
  exists c, digits !! Z.to_nat d = Some c /\ digit_value c = d /\ (c = 48 -> d = 0) /\
            ((48 <= c <= 57) \/ (97 <= c <= 102)).
Proof.
  intros Hd.
  assert (forallb (fun d => match digits !! Z.to_nat d with
    | Some c => ((digit_value c =? d) && (negb (c =? 48) || (d =? 0)) &&
                 (((48 <=? c) && (c <=? 57)) || ((97 <=? c) && (c <=? 102))))%bool
    | None => false end) (seqZ 0 16) = true) as Hall by (vm_compute; reflexivity).
  rewrite forallb_forall in Hall. specialize (Hall d).
  destruct (digits !! Z.to_nat d) as [c|].
  - exists c. split; [done|]. assert (In d (seqZ 0 16)) as Hin by (apply list_elem_of_In, elem_of_seqZ; lia).
    apply Hall in Hin. lia.
  - assert (In d (seqZ 0 16)) as Hin by (apply list_elem_of_In, elem_of_seqZ; lia). by apply Hall in Hin.
Qed.

Lemma uint_digits_spec room value base :
  2 <= base <= 16 -> 0 <= value < 2 ^ Z.of_nat room ->
  exists ds, uint_digits room value base = Some ds /\ value_rev base ds = value /\
    (length ds <= room)%nat /\ (forall c, last ds = Some c -> c <> 48) /\
    Forall (fun c => (48 <= c <= 57) \/ (97 <= c <= 102)) ds /\ (value <> 0 -> ds <> []).
Proof.
  revert value. induction room as [|n IH]; intros value Hb Hv; simpl.
  - assert (value = 0) as -> by lia. exists []. split_and!; try done; simpl; lia.
  - destruct (value =? 0) eqn:E0; bool_props.
    { subst. exists []. split_and!; try done; simpl; lia. }
    pose proof (Z.mod_pos_bound value base ltac:(lia)) as Hm.
    destruct (digits_lookup (value mod base)) as (c & -> & Hc & Hz & Hr); [lia|].
    pose proof (Z.div_mod value base ltac:(lia)) as Hdm.
    assert (0 <= value / base < 2 ^ Z.of_nat n) as Hq.
    { rewrite Nat2Z.inj_succ, Z.pow_succ_r in Hv by lia. split; [apply Z.div_pos; lia|].
      apply Z.div_lt_upper_bound; nia. }
    destruct (IH (value / base) Hb Hq) as (ds & -> & Hval & Hlen & Hlast & Hall & Hne).
    exists (c :: ds). split_and!; try done; simpl.
    + rewrite Hc, Hval. lia.
    + lia.
    + intros c' Hl. destruct ds as [|c2 ds].
      * simpl in Hl. injection Hl as <-. intros ->. specialize (Hz eq_refl).
        simpl in Hval. lia.
      * apply Hlast. done.
    + by constructor.
Qed.

(** The text of an unsigned number. *)
Definition uint_text (value base : Z) : bytes :=
  if value =? 0 then [48] else rev (default [] (uint_digits 64 value base)).

Lemma emit_bytes_single env ctx c s :
  emit_bytes env ctx [c] s = klog_emit_char env ctx c s.
Proof. simpl. unfold kbind, kret. by destruct (klog_emit_char env ctx c s). Qed.

Lemma klog_emit_uint_text env ctx value base s :
  2 <= base <= 16 -> 0 <= value < 2 ^ 64 ->
  klog_emit_uint env ctx value base s = emit_bytes env ctx (uint_text value base) s.
Proof.
  intros Hb Hv. unfold klog_emit_uint, uint_text. destruct (value =? 0); [by rewrite emit_bytes_single|].
  destruct (uint_digits_spec 64 value base Hb Hv) as (ds & -> & _). done.
Qed.

Lemma uint_text_spec value base :
  2 <= base <= 16 -> 0 <= value < 2 ^ 64 ->
  number_value base (uint_text value base) = value /\ uint_text value base <> [] /\
  (length (uint_text value base) <= 64)%nat /\
  (head (uint_text value base) = Some 48 -> value = 0) /\
  Forall (fun c => (48 <= c <= 57) \/ (97 <= c <= 102)) (uint_text value base).
Proof.
  intros Hb Hv. unfold uint_text. destruct (value =? 0) eqn:E0; bool_props.
  { subst. split_and!; try done; [simpl; lia|]. by repeat constructor. }
  destruct (uint_digits_spec 64 value base Hb Hv) as (ds & -> & Hval & Hlen & Hlast & Hall & Hne).
  cbn [default]. unfold id. rewrite number_value_rev. split_and!; [done| | | |].
  - intros Hnil. apply (f_equal (@rev Z)) in Hnil. rewrite rev_involutive in Hnil. by apply Hne.
  - by rewrite length_rev.
  - intros Hh. exfalso. apply (Hlast 48); [|done].
    rewrite <- (rev_involutive ds). destruct (rev ds) as [|c l]; [done|]. simpl in *.
    injection Hh as ->. apply last_snoc.
  - by apply Forall_rev.
Qed.

(** ** What a format renders to *)

Definition int_text (value : Z) : bytes :=
  if value <? 0 then 45 :: uint_text (- value) 10 else uint_text value 10.

(** The text of the next argument word. *)
Definition word_text (ap : list va) (f : Z -> bytes) : option (bytes * list va) :=
  match va_word ap with Some (w, ap') => Some (f w, ap') | None => None end.

Definition then_rest (r : option (bytes * list va)) (rest : bytes)
  : option (bytes * list va * option bytes) :=
  match r with Some (t, ap') => Some (t, ap', Some rest) | None => None end.

Definition long_text (shown fmt : bytes) (ap : list va) : option (bytes * list va * option bytes) :=
  match fmt with
  | [] => Some (shown, ap, None)
  | c :: rest =>
      if ((c =? 100) || (c =? 105))%bool then
        then_rest (word_text ap (fun w => int_text (word_int64 w))) rest
      else if c =? 117 then then_rest (word_text ap (fun w => uint_text (word_uint64 w) 10)) rest
      else if c =? 120 then then_rest (word_text ap (fun w => uint_text (word_uint64 w) 16)) rest
      else Some (shown ++ [c], ap, Some rest)
  end.

Definition size_text (fmt : bytes) (ap : list va) : option (bytes * list va * option bytes) :=
  match fmt with
  | [] => Some (B "%z", ap, None)
  | c :: rest =>
      if c =? 117 then then_rest (word_text ap (fun w => uint_text (word_uint64 w) 10)) rest
      else if c =? 120 then then_rest (word_text ap (fun w => uint_text (word_uint64 w) 16)) rest
      else Some (B "%z" ++ [c], ap, Some rest)
  end.

Definition conversion_text (fmt : bytes) (ap : list va) : option (bytes * list va * option bytes) :=
  match fmt with
  | [] => Some ([37], ap, None)
  | c :: rest =>
      if c =? 37 then Some ([37], ap, Some rest)
      else if c =? 115 then
        match va_string ap with
        | Some (str, ap') => Some (default (B "(null)") str, ap', Some rest)
        | None => None
        end
      else if ((c =? 100) || (c =? 105))%bool then
        then_rest (word_text ap (fun w => int_text (word_int w))) rest
      else if c =? 117 then then_rest (word_text ap (fun w => uint_text (word_uint w) 10)) rest
      else if c =? 120 then then_rest (word_text ap (fun w => uint_text (word_uint w) 16)) rest
      else if c =? 122 then size_text rest ap
      else if c =? 108 then
        match rest with
        | d :: rest' => if d =? 108 then long_text (B "%ll") rest' ap else long_text (B "%l") rest ap
        | [] => long_text (B "%l") [] ap
        end
      else if c =? 112 then
        then_rest (word_text ap (fun w => B "0x" ++ uint_text (word_uint64 w) 16)) rest
      else Some ([37; c], ap, Some rest)
  end.

(** The text of a message; [None] when an argument is missing or of another type. *)
Fixpoint render (fuel : nat) (fmt : bytes) (ap : list va) : option bytes :=
  match fmt with
  | [] => Some []
  | c :: rest =>
      match fuel with
      | O => None
      | S f =>
          if negb (c =? 37) then
            match render f rest ap with Some t => Some (c :: t) | None => None end
          else match conversion_text rest ap with
            | Some (t, ap', Some rest') =>
                match render f rest' ap' with Some t' => Some (t ++ t') | None => None end
            | Some (t, _, None) => Some t
            | None => None
            end
      end
  end.

Section Rendering.
Context (env : KlogEnv).

Lemma emit_bytes_app ctx a b s :
  emit_bytes env ctx (a ++ b) s = kbind (emit_bytes env ctx a) (fun ctx => emit_bytes env ctx b) s.
Proof.
  revert ctx s. induction a as [|c a IH]; intros ctx s; simpl; [done|].
  unfold kbind. destruct (klog_emit_char env ctx c s) as [ctx' s'| | |]; [apply IH|done..].
Qed.

(** [m] emits [text] and returns [r] beside the context. *)
Definition emits {A} (m : K (klog_emit_ctx * A)) (ctx : klog_emit_ctx) (text : bytes) (r : A) : Prop :=
  forall s, m s = kbind (emit_bytes env ctx text) (fun ctx => kret (ctx, r)) s.

Lemma emit_uint_emits ctx value base s :
  2 <= base <= 16 -> 0 <= value < 2 ^ 64 ->
  klog_emit_uint env ctx value base s = emit_bytes env ctx (uint_text value base) s.
Proof. apply klog_emit_uint_text. Qed.

Lemma klog_emit_int_text ctx value s :
  - 2 ^ 31 <= value < 2 ^ 31 -> klog_emit_int env ctx value s = emit_bytes env ctx (int_text value) s.
Proof.
  intros Hv. unfold klog_emit_int, int_text, u32. destruct (value <? 0) eqn:Es; bool_props.
  - rewrite (Z.mod_small (- (value + 1))) by lia. rewrite Z.mod_small by lia.
    replace (- (value + 1) + 1) with (- value) by lia. cbn [emit_bytes]. unfold kbind.
    destruct (klog_emit_char env ctx 45 s); try done. apply emit_uint_emits; lia.
  - rewrite Z.mod_small by lia. apply emit_uint_emits; lia.
Qed.

Lemma klog_emit_int64_text ctx value s :
  - 2 ^ 63 <= value < 2 ^ 63 -> klog_emit_int64 env ctx value s = emit_bytes env ctx (int_text value) s.
Proof.
  intros Hv. unfold klog_emit_int64, int_text, u64. destruct (value <? 0) eqn:Es; bool_props.
  - rewrite (Z.mod_small (- (value + 1))) by lia. rewrite Z.mod_small by lia.
    replace (- (value + 1) + 1) with (- value) by lia. cbn [emit_bytes]. unfold kbind.
    destruct (klog_emit_char env ctx 45 s); try done. apply emit_uint_emits; lia.
  - rewrite Z.mod_small by lia. apply emit_uint_emits; lia.
Qed.

Lemma word_int_range w : - 2 ^ 31 <= word_int w < 2 ^ 31.
Proof. unfold word_int, signed, u32. repeat case_goal; bool_props; dlia. Qed.
Lemma word_int64_range w : - 2 ^ 63 <= word_int64 w < 2 ^ 63.
Proof. unfold word_int64, signed, u64. repeat case_goal; bool_props; dlia. Qed.
Lemma word_uint_range w : 0 <= word_uint w < 2 ^ 64.
Proof. unfold word_uint, u32. pose proof (Z.mod_pos_bound w (2 ^ 32)). lia. Qed.
Lemma word_uint64_range w : 0 <= word_uint64 w < 2 ^ 64.
Proof. unfold word_uint64, u64. apply Z.mod_pos_bound. lia. Qed.

Lemma with_word_emits ap k f ctx t ap' :
  (forall w s, k w s = emit_bytes env ctx (f w) s) -> word_text ap f = Some (t, ap') ->
  emits (with_word ap k) ctx t ap'.
Proof.
  intros Hk Hw s. unfold with_word, word_text in *. destruct (va_word ap) as [[w ap0]|]; [|done].
  simplify_eq. unfold kbind, kret. by rewrite Hk.
Qed.

(** A conversion that also says where the format goes on. *)
Definition converts (m : K (klog_emit_ctx * list va * option bytes)) (ctx : klog_emit_ctx)
    (r : bytes * list va * option bytes) : Prop :=
  let '(t, ap', next) := r in
  forall s, m s = kbind (emit_bytes env ctx t) (fun ctx => kret (ctx, ap', next)) s.

Lemma converts_word ap k f ctx rest r :
  (forall w s, k w s = emit_bytes env ctx (f w) s) -> then_rest (word_text ap f) rest = Some r ->
  converts (kbind (with_word ap k) (fun r => kret (r, Some rest))) ctx r.
Proof.
  intros Hk Hr. destruct (word_text ap f) as [[t ap']|] eqn:Ew; [|done]. simplify_eq/=.
  intros s. unfold kbind. rewrite (with_word_emits _ _ _ _ _ _ Hk Ew). unfold kbind, kret.
  by destruct (emit_bytes env ctx t s).
Qed.

Lemma converts_shown ctx shown c ap rest :
  converts (kbind (emit_bytes env ctx shown) (fun ctx =>
              kbind (klog_emit_char env ctx c) (fun ctx => kret (ctx, ap, Some rest))))
    ctx (shown ++ [c], ap, Some rest).
Proof.
  intros s. unfold kbind at 3. rewrite emit_bytes_app. unfold kbind.
  destruct (emit_bytes env ctx shown s) as [ctx' s'| | |]; try done.
  rewrite emit_bytes_single. done.
Qed.

Lemma converts_long ctx shown fmt ap r :
  long_text shown fmt ap = Some r -> converts (klog_long env ctx shown fmt ap) ctx r.
Proof.
  intros Hr. unfold long_text, klog_long in *. destruct fmt as [|c rest]; [by simplify_eq|].
  repeat (case_hyp Hr; [by eapply converts_word; [|exact Hr]; intros;
    auto using klog_emit_int64_text, emit_uint_emits, word_int64_range, word_uint64_range with lia|]).
  simplify_eq. apply converts_shown.
Qed.

Lemma converts_size ctx fmt ap r :
  size_text fmt ap = Some r -> converts (klog_size env ctx fmt ap) ctx r.
Proof.
  intros Hr. unfold size_text, klog_size in *. destruct fmt as [|c rest]; [by simplify_eq|].
  repeat (case_hyp Hr; [by eapply converts_word; [|exact Hr]; intros;
    auto using emit_uint_emits, word_uint64_range with lia|]).
  simplify_eq. apply converts_shown.
Qed.

Lemma converts_char ctx c ap next :
  converts (kbind (klog_emit_char env ctx c) (fun ctx => kret (ctx, ap, next))) ctx ([c], ap, next).
Proof. intros s. unfold kbind at 1 2. rewrite emit_bytes_single. done. Qed.

Lemma converts_pointer ctx ap rest r :
  then_rest (word_text ap (fun w => B "0x" ++ uint_text (word_uint64 w) 16)) rest = Some r ->
  converts (kbind (emit_bytes env ctx (B "0x")) (fun ctx =>
              kbind (with_word ap (fun w => klog_emit_uint env ctx (word_uint64 w) 16))
                (fun r => kret (r, Some rest)))) ctx r.
Proof.
  intros Hr. destruct r as [[t ap'] next]. intros s. unfold kbind at 1. unfold word_text, with_word in *.
  destruct (va_word ap) as [[w ap0]|]; [|done]. unfold then_rest in Hr.
  assert (t = B "0x" ++ uint_text (word_uint64 w) 16) as -> by congruence.
  assert (ap' = ap0) as -> by congruence. assert (next = Some rest) as -> by congruence.
  unfold kbind. rewrite emit_bytes_app. unfold kbind, kret. destruct (emit_bytes env ctx (B "0x") s) as [ctx' s'| | |]; try done.
  rewrite emit_uint_emits by (lia || apply word_uint64_range). by destruct (emit_bytes env ctx' _ s').
Qed.

Lemma converts_conversion ctx fmt ap r :
  conversion_text fmt ap = Some r -> converts (klog_conversion env ctx fmt ap) ctx r.
Proof.
  intros Hr. unfold conversion_text, klog_conversion in *.
  destruct fmt as [|c rest]; [simplify_eq; apply converts_char|].
  case_hyp Hr; [simplify_eq; apply converts_char|].
  case_hyp Hr; [destruct (va_string ap) as [[str ap']|]; by simplify_eq|].
  case_hyp Hr; [by eapply converts_word; [|exact Hr]; intros; apply klog_emit_int_text, word_int_range|].
  case_hyp Hr; [by eapply converts_word; [|exact Hr]; intros; apply emit_uint_emits; [lia|apply word_uint_range]|].
  case_hyp Hr; [by eapply converts_word; [|exact Hr]; intros; apply emit_uint_emits; [lia|apply word_uint_range]|].
  case_hyp Hr; [by apply converts_size|].
  case_hyp Hr.
  { destruct rest as [|d rest']; [by apply converts_long|].
    destruct (d =? 108); by apply converts_long. }
  case_hyp Hr; [by apply converts_pointer|].
  simplify_eq. intros s. unfold kbind. change [37; c] with ([37] ++ [c]). rewrite emit_bytes_app.
  unfold kbind. rewrite emit_bytes_single. destruct (klog_emit_char env ctx 37 s) as [ctx' s'| | |]; try done.
  rewrite emit_bytes_single. done.
Qed.

Lemma klog_vprintf_text fuel ctx fmt ap text s :
  render fuel fmt ap = Some text -> klog_vprintf env fuel ctx fmt ap s = emit_bytes env ctx text s.
Proof.
  revert ctx fmt ap text s. induction fuel as [|f IH]; intros ctx fmt ap text s Hr;
    destruct fmt as [|c rest]; simpl in *; try done; try by simplify_eq.
  destruct (negb (c =? 37)).
  - destruct (render f rest ap) as [t|] eqn:Et; [|done]. simplify_eq. simpl. unfold kbind.
    destruct (klog_emit_char env ctx c s); try done. by apply IH.
  - destruct (conversion_text rest ap) as [[[t ap'] next]|] eqn:Ec; [|done].
    pose proof (converts_conversion ctx _ _ _ Ec) as Hc. unfold converts in Hc. unfold kbind. rewrite Hc.
    unfold kbind, kret. destruct next as [rest'|].
    + destruct (render f rest' ap') as [t'|] eqn:Et; [|done]. simplify_eq. rewrite emit_bytes_app. unfold kbind.
      destruct (emit_bytes env ctx t s) as [ctx' s'| | |]; try done. by apply IH.
    + simplify_eq. by destruct (emit_bytes env ctx text s).
Qed.

End Rendering.

(** ** Messages are delivered in chunks *)

Fixpoint chunk_loop (fuel : nat) (l : bytes) : list bytes :=
  match fuel, l with
  | _, [] => []
  | O, _ => []
  | S f, _ => firstn KLOG_CTX_BUFSIZE l :: chunk_loop f (skipn KLOG_CTX_BUFSIZE l)
  end.

(** A message cut in pieces of 128 bytes. *)
Definition chunks (l : bytes) : list bytes := chunk_loop (length l) l.

Lemma chunk_loop_fuel f g l :
  (length l <= f)%nat -> (length l <= g)%nat -> chunk_loop f l = chunk_loop g l.
Proof.
  revert g l. induction f as [|f IH]; intros g l Hf Hg.
  - destruct l; [by destruct g|simpl in *; lia].
  - destruct l as [|b l]; [by destruct g|]. destruct g as [|g]; [simpl in *; lia|].
    simpl. f_equal. apply IH; rewrite length_skipn; simpl in *; lia.
Qed.

Lemma chunks_cons l : l <> [] -> chunks l = firstn KLOG_CTX_BUFSIZE l :: chunks (skipn KLOG_CTX_BUFSIZE l).
Proof.
  intros Hl. unfold chunks. destruct l as [|b l]; [done|].
  transitivity (firstn KLOG_CTX_BUFSIZE (b :: l) :: chunk_loop (length l) (skipn KLOG_CTX_BUFSIZE (b :: l))); [done|].
  erewrite chunk_loop_fuel; [reflexivity| |done]. rewrite length_skipn. simpl. lia.
Qed.

Lemma chunk_loop_concat n : forall l, (length l <= n)%nat -> concat (chunk_loop n l) = l.
Proof.
  induction n as [|n IH]; intros [|b l] Hn; [done|simpl in Hn; lia|done|].
  change (firstn KLOG_CTX_BUFSIZE (b :: l) ++ concat (chunk_loop n (skipn KLOG_CTX_BUFSIZE (b :: l))) = b :: l).
  rewrite IH; [apply firstn_skipn|]. rewrite length_skipn. simpl in *. lia.
Qed.

Lemma chunks_concat l : concat (chunks l) = l.
Proof. by apply chunk_loop_concat. Qed.

Section Delivery.
Context (env : KlogEnv).

(** Store one piece and send it along the routes. *)
Definition deliver (level : Z) (data : bytes) : K unit :=
  klog_store env data ;> klog_route_loop env KLOG_MAX_SINKS 0 level data.

Fixpoint deliver_all (level : Z) (pieces : list bytes) : K unit :=
  match pieces with
  | [] => kret tt
  | c :: rest => deliver level c ;> deliver_all level rest
  end.

Lemma kbind_assoc {A C D} (m : K A) (k : A -> K C) (h : C -> K D) s :
  kbind (kbind m k) h s = kbind m (fun a => kbind (k a) h) s.
Proof. unfold kbind. by destruct (m s). Qed.

Lemma kbind_ext {A C} (m m' : K A) (k k' : A -> K C) s :
  m s = m' s -> (forall a s', k a s' = k' a s') -> kbind m k s = kbind m' k' s.
Proof. intros Hm Hk. unfold kbind. rewrite Hm. by destruct (m' s). Qed.

Lemma flush_deliver buf level s :
  buf <> [] ->
  klog_emit_flush env (mkCtx buf level) s = kbind (deliver level buf) (fun _ => kret (mkCtx [] level)) s.
Proof. intros Hb. destruct buf; [done|]. unfold deliver. rewrite kbind_assoc. done. Qed.

Lemma emit_flush_chunks text : forall buf level s,
  (length buf < KLOG_CTX_BUFSIZE)%nat ->
  kbind (emit_bytes env (mkCtx buf level) text) (klog_emit_flush env) s =
  kbind (deliver_all level (chunks (buf ++ text))) (fun _ => kret (mkCtx [] level)) s.
Proof.
  induction text as [|c text IH]; intros buf level s Hb.
  - rewrite app_nil_r. unfold kbind at 1. simpl emit_bytes. unfold kret at 1.
    destruct (decide (buf = [])) as [->|Hne]; [done|]. rewrite flush_deliver by done.
    rewrite chunks_cons by done. rewrite firstn_all2 by lia. rewrite skipn_all2 by lia.
    change (chunks []) with (@nil bytes). cbn [deliver_all]. rewrite kbind_assoc. unfold kbind, kret.
    by destruct (deliver level buf s).
  - cbn [emit_bytes]. rewrite kbind_assoc. unfold klog_emit_char. cbn [ctx_buf ctx_level].
    rewrite length_app. simpl length. destruct (_ =? _)%nat eqn:Efull; bool_props.
    + rewrite (kbind_ext _ _ _ _ s (flush_deliver (buf ++ [c]) level s ltac:(by destruct buf)) (fun _ _ => eq_refl)).
      assert (buf ++ c :: text = (buf ++ [c]) ++ text) as -> by (by rewrite <- app_assoc).
      assert (chunks ((buf ++ [c]) ++ text) = (buf ++ [c]) :: chunks text) as ->.
      { rewrite chunks_cons by (by destruct buf).
        assert (KLOG_CTX_BUFSIZE = length (buf ++ [c])) as Hlen by (rewrite length_app; simpl; lia).
        rewrite Hlen, take_app_length, drop_app_length. done. }
      cbn [deliver_all]. rewrite !kbind_assoc. apply kbind_ext; [done|]. intros [] s'.
      change (kbind (emit_bytes env (mkCtx [] level) text) (klog_emit_flush env) s' =
              kbind (deliver_all level (chunks text)) (fun _ => kret (mkCtx [] level)) s').
      apply (IH []). unfold KLOG_CTX_BUFSIZE; simpl; lia.
    + unfold kbind at 1. unfold kret at 1. rewrite IH by (rewrite length_app; simpl; unfold KLOG_CTX_BUFSIZE in *; lia).
      by rewrite <- app_assoc.
Qed.

(** ** The early store *)

(** What sending a message along the routes may change: routes are disabled. *)
Record emitted (s s' : KlogState) : Prop := {
  em_locks : klog_public_lock s' = klog_public_lock s /\ klog_internal_lock s' = klog_internal_lock s;
  em_emergency : klog_emergency_sink s' = klog_emergency_sink s;
  em_early : klog_early_buf s' = klog_early_buf s /\ klog_early_truncated s' = klog_early_truncated s;
  em_prod : klog_prod_buf s' = klog_prod_buf s /\ klog_prod_buf_used s' = klog_prod_buf_used s /\
            klog_prod_buf_size s' = klog_prod_buf_size s;
  em_progress : klog_in_progress s' = klog_in_progress s;
  em_store : klog_cur_store_fn s' = klog_cur_store_fn s;
  em_routes : Forall2 (fun r r' => route_sink r' = route_sink r /\ maximum_level r' = maximum_level r /\
                                   (enabled r' = true -> enabled r = true))
                (klog_routes s) (klog_routes s')
}.

Lemma emitted_refl s : emitted s s.
Proof. constructor; try done. induction (klog_routes s); by constructor. Qed.

Lemma emitted_trans s1 s2 s3 : emitted s1 s2 -> emitted s2 s3 -> emitted s1 s3.
Proof.
  intros [] []. constructor; try intuition congruence.
  revert em_routes1. generalize (klog_routes s3). induction em_routes0; intros l3 H3;
    inversion H3; subst; constructor; [intuition congruence|eauto].
Qed.

Lemma emitted_add_trace k data s : emitted s (add_trace k data s).
Proof. constructor; try done. apply (em_routes _ _ (emitted_refl s)). Qed.

Lemma emit_to_sink_emitted target data s :
  exists r s', klog_emit_to_sink env target data s = Done r s' /\ emitted s s'.
Proof.
  destruct target as [k|]; simpl; [|eauto using emitted_refl].
  destruct (sink_has_emit env k); eauto using emitted_refl, emitted_add_trace.
Qed.

Lemma emergency_write_emitted data s :
  exists s', klog_emergency_write env data s = Done tt s' /\ emitted s s'.
Proof.
  unfold klog_emergency_write, kbind, kget. destruct (klog_emergency_sink s) as [k|]; [|eauto using emitted_refl].
  destruct (emit_to_sink_emitted (Some k) data s) as (r & s' & -> & H). simpl. eauto.
Qed.

Lemma emitted_disable i route s :
  klog_routes s !! i = Some route ->
  emitted s (set_routes (<[i := mkRoute (route_sink route) (maximum_level route) false]> (klog_routes s)) s).
Proof.
  intros Hi. constructor; try done. simpl. apply Forall2_same_length_lookup.
  split; [by rewrite length_insert|]. intros j r r' Hj Hj'.
  destruct (decide (i = j)) as [<-|Hne].
  - rewrite list_lookup_insert_eq in Hj' by (by eapply lookup_lt_Some). by simplify_eq/=.
  - rewrite list_lookup_insert_ne in Hj' by done. by simplify_eq.
Qed.

Lemma route_emit_emitted level data i s :
  (i < length (klog_routes s))%nat ->
  exists s', klog_route_emit env level data i s = Done tt s' /\ emitted s s'.
Proof.
  intros Hi. apply lookup_lt_is_Some_2 in Hi as [route Hr]. unfold klog_route_emit.
  unfold kbind at 1, kget at 1. rewrite Hr. destruct (_ || _)%bool; [eauto using emitted_refl|].
  unfold kbind at 1. destruct (emit_to_sink_emitted (route_sink route) data s) as (r & s1 & -> & H1).
  destruct (bool_decide (r = FACET_OK)); [eauto|]. unfold kbind at 1, kput at 1.
  set (s2 := set_routes _ s1).
  assert (emitted s s2) as H2.
  { pose proof (Forall2_lookup_l _ _ _ i route (em_routes _ _ H1) Hr) as (r1 & Hr1 & Hs & Hm & _).
    eapply emitted_trans; [exact H1|]. pose proof (emitted_disable i r1 s1 Hr1) as Hd.
    unfold s2. by rewrite <- Hs, <- Hm. }
  unfold kbind at 1. destruct (emergency_write_emitted failure_message s2) as (s3 & -> & H3).
  unfold kbind, kget. destruct (bool_decide _); [eauto using emitted_trans|].
  destruct (emergency_write_emitted data s3) as (s4 & -> & H4). eauto using emitted_trans.
Qed.

Lemma route_loop_emitted level data n i s :
  (i + n <= length (klog_routes s))%nat ->
  exists s', klog_route_loop env n i level data s = Done tt s' /\ emitted s s'.
Proof.
  revert i s. induction n as [|n IH]; intros i s Hi; simpl; [eauto using emitted_refl|].
  unfold kbind. destruct (route_emit_emitted level data i s) as (s1 & -> & H1); [lia|].
  destruct (IH (S i) s1) as (s2 & -> & H2); [|eauto using emitted_trans].
  rewrite <- (Forall2_length _ _ _ (em_routes _ _ H1)). lia.
Qed.

(** The log is in its early phase and its data are consistent. *)
Record early (s : KlogState) : Prop := {
  early_store : klog_cur_store_fn s = Some klog_early_store;
  early_routes : length (klog_routes s) = KLOG_MAX_SINKS;
  early_bound : klog_early_buf_used s <= KLOG_EARLY_BUFSIZE
}.

(** [text] was appended to the early buffer, up to its capacity. *)
Record appended (s : KlogState) (text : bytes) (s' : KlogState) : Prop := {
  app_buf : klog_early_buf s' = firstn (Z.to_nat KLOG_EARLY_BUFSIZE) (klog_early_buf s ++ text);
  app_truncated : klog_early_truncated s' =
    (klog_early_truncated s || (KLOG_EARLY_BUFSIZE <? zlen (klog_early_buf s ++ text)))%bool;
  app_locks : klog_public_lock s' = klog_public_lock s /\ klog_internal_lock s' = klog_internal_lock s;
  app_progress : klog_in_progress s' = klog_in_progress s
}.

Lemma early_store_appended data s :
  early s -> exists s', klog_store env data s = Done tt s' /\ early s' /\ appended s data s' /\
                        klog_routes s' = klog_routes s /\ trace s' = trace s.
Proof.
  intros [Hs Hr Hb]. unfold klog_store, kbind, kget. rewrite Hs. unfold klog_early_store_fn, kput.
  eexists. split; [done|]. unfold klog_early_buf_used in *.
  destruct (_ <? zlen data) eqn:E1; bool_props.
  - split; [|split; [|done]].
    + constructor; try done. unfold klog_early_buf_used. simpl. rewrite zlen_app.
      unfold zlen in *. rewrite length_firstn. unfold KLOG_EARLY_BUFSIZE in *. lia.
    + constructor; try done; simpl.
      * rewrite firstn_app, (firstn_all2 (klog_early_buf s)) by (unfold zlen in *; lia).
        f_equal. f_equal. unfold zlen in *. lia.
      * rewrite zlen_app. destruct (_ <? _) eqn:E2; [by rewrite orb_true_r|]. bool_props. lia.
  - split; [|split; [|done]].
    + constructor; try done. unfold klog_early_buf_used. simpl. rewrite zlen_app. lia.
    + constructor; try done; simpl.
      * rewrite firstn_all2; [done|]. rewrite length_app. unfold zlen in *. lia.
      * rewrite zlen_app. destruct (_ <? _) eqn:E2; bool_props; [lia|]. by rewrite orb_false_r.
Qed.

Lemma firstn_firstn_app {A} n (a b c : list A) :
  firstn n (firstn n (a ++ b) ++ c) = firstn n (a ++ b ++ c).
Proof.
  rewrite app_assoc. generalize (a ++ b). intros l. rewrite (firstn_app n (firstn n l)), (firstn_app n l).
  rewrite firstn_firstn, Nat.min_id, length_firstn. f_equal. f_equal. lia.
Qed.

Lemma appended_trans s1 t1 s2 t2 s3 :
  appended s1 t1 s2 -> appended s2 t2 s3 -> appended s1 (t1 ++ t2) s3.
Proof.
  intros [] []. constructor; try intuition congruence.
  - rewrite app_buf1, app_buf0. apply firstn_firstn_app.
  - rewrite app_truncated1, app_truncated0, app_buf0, <- orb_assoc. f_equal.
    unfold zlen. rewrite app_assoc, !length_app, length_firstn, length_app. unfold KLOG_EARLY_BUFSIZE.
    apply eq_true_iff_eq. rewrite orb_true_iff, !Z.ltb_lt. lia.
Qed.

Lemma appended_nil s : klog_early_buf_used s <= KLOG_EARLY_BUFSIZE -> appended s [] s.
Proof.
  intros Hb. unfold klog_early_buf_used in Hb. constructor; try done; rewrite app_nil_r.
  - rewrite firstn_all2; [done|]. unfold zlen in *. lia.
  - destruct (_ <? _) eqn:E; bool_props; [lia|]. by rewrite orb_false_r.
Qed.

(** An emission after the store changes none of it. *)
Lemma appended_emitted s t s1 s2 : appended s t s1 -> emitted s1 s2 -> appended s t s2.
Proof. intros [] []. constructor; intuition congruence. Qed.

Lemma early_emitted s s' : early s -> emitted s s' -> early s'.
Proof.
  intros [] []. constructor; [congruence| |].
  - by rewrite <- (Forall2_length _ _ _ em_routes0).
  - unfold klog_early_buf_used in *. by rewrite (proj1 em_early0).
Qed.

Lemma deliver_early level data s :
  early s -> exists s', deliver level data s = Done tt s' /\ early s' /\ appended s data s'.
Proof.
  intros He. unfold deliver, kbind. destruct (early_store_appended data s He) as (s1 & -> & He1 & Ha & _).
  destruct (route_loop_emitted level data KLOG_MAX_SINKS 0 s1) as (s2 & -> & Hem).
  { by rewrite (early_routes _ He1). }
  exists s2. eauto using early_emitted, appended_emitted.
Qed.

Lemma deliver_all_early level pieces s :
  early s -> exists s', deliver_all level pieces s = Done tt s' /\ early s' /\ appended s (concat pieces) s'.
Proof.
  revert s. induction pieces as [|c pieces IH]; intros s He; simpl.
  - exists s. split; [done|]. split; [done|]. apply appended_nil, He.
  - unfold kbind. destruct (deliver_early level c s He) as (s1 & -> & He1 & Ha1).
    destruct (IH s1 He1) as (s2 & -> & He2 & Ha2). eauto using appended_trans.
Qed.

End Delivery.

(** The log may take a message: no call is in progress and the lock is free. *)
Definition idle (s : KlogState) : Prop :=
  klog_internal_lock s = false /\ klog_in_progress s = false.

(** [klog] of a message that renders to [text]. *)
Lemma klog_text env level fmt ap text s :
  idle s -> render (length fmt) fmt ap = Some text ->
  klog env level (Some fmt) ap s =
  kbind (deliver_all env (configured_level level) (chunks text))
    (fun _ => klog_unlock_internal ;> kput (set_in_progress false))
    (set_locks (klog_public_lock s) true (set_in_progress true s)).
Proof.
  intros [Hl Hp] Hr. unfold klog. unfold kbind at 1 2, kget at 1, kput at 1. rewrite Hp.
  unfold kbind at 1, klog_lock_internal. cbn [klog_internal_lock set_in_progress]. rewrite Hl.
  set (s1 := set_locks _ _ _). rewrite <- kbind_assoc.
  transitivity (kbind (fun s => kbind (emit_bytes env (mkCtx [] (configured_level level)) text) (klog_emit_flush env) s)
    (fun _ => klog_unlock_internal ;> kput (set_in_progress false)) s1).
  { apply kbind_ext; [|done]. unfold kbind. by rewrite (klog_vprintf_text env _ _ _ _ text _ Hr). }
  unfold kbind at 1. rewrite emit_flush_chunks by (unfold KLOG_CTX_BUFSIZE; simpl; lia).
  unfold kbind. simpl app. by destruct (deliver_all env _ _ s1).
Qed.

(** The unsigned printer is exact and stays inside its 64 byte buffer: for
    every 64 bit value and every base from 2 to 16 it emits a non-empty digit
    string without leading zero whose value in the base is the number. *)
Theorem klog_emit_uint_exact (env : KlogEnv) (ctx : klog_emit_ctx) (value base : Z) (s : KlogState)
    (Hbase : 2 <= base <= 16) (Hvalue : 0 <= value < 2 ^ 64) :
  exists text, klog_emit_uint env ctx value base s = emit_bytes env ctx text s /\
    number_value base text = value /\ text <> [] /\ (length text <= 64)%nat /\
    (head text = Some 48 -> value = 0).
Proof.
  exists (uint_text value base). split; [by apply klog_emit_uint_text|].
  destruct (uint_text_spec value base Hbase Hvalue) as (? & ? & ? & ? & _). auto.
Qed.

Definition ready_env : KlogEnv := mkEnv (fun _ => true) (fun _ _ _ => FACET_OK)
  (fun _ => true) (fun _ => true) false 0.

Definition ready_state : KlogState :=
  mkKlog false false (repeat zero_route KLOG_MAX_SINKS) None [] false None 0 0 false
    (Some klog_early_store) [].

Lemma klog_emit_uint_exact_witness :
  exists text, klog_emit_uint ready_env (mkCtx [] 0) 0xdeadbeef 16 ready_state =
               emit_bytes ready_env (mkCtx [] 0) text ready_state /\ number_value 16 text = 0xdeadbeef.
Proof.
  destruct (klog_emit_uint_exact ready_env (mkCtx [] 0) 0xdeadbeef 16 ready_state) as (text & H & Hv & _);
    [lia|lia|]. exists text. by split.
Defined.

(** A message logged in the early phase is retained exactly as its format
    renders, up to the capacity of the early buffer, whatever the sinks answer:
    the call returns with the lock released, the buffer holds the first 2048
    bytes of all that was logged, and the truncation flag says whether more was. *)
Theorem klog_early_message (env : KlogEnv) (level : log_level) (fmt : bytes) (ap : list va)
    (text : bytes) (s : KlogState)
    (Hearly : early s) (Hidle : idle s) (Htext : render (length fmt) fmt ap = Some text) :
  exists s', klog env level (Some fmt) ap s = Done tt s' /\ early s' /\ idle s' /\
    klog_early_buf s' = firstn (Z.to_nat KLOG_EARLY_BUFSIZE) (klog_early_buf s ++ text) /\
    klog_early_truncated s' =
      (klog_early_truncated s || (KLOG_EARLY_BUFSIZE <? zlen (klog_early_buf s ++ text)))%bool /\
    klog_public_lock s' = klog_public_lock s.
Proof.
  rewrite (klog_text env level fmt ap text s Hidle Htext). set (s1 := set_locks _ _ _).
  assert (early s1) as He1 by (destruct Hearly; by constructor).
  unfold kbind at 1. destruct (deliver_all_early env (configured_level level) (chunks text) s1 He1)
    as (s2 & -> & He2 & Ha). rewrite chunks_concat in Ha. destruct Ha.
  eexists. split; [done|]. split; [destruct He2; by constructor|]. split; [done|].
  split; [exact app_buf0|]. split; [exact app_truncated0|]. by rewrite (proj1 app_locks0).
Qed.

Definition hello_format : bytes := B "Hello %s: d=%d u=%u x=%x %%".
Definition hello_arguments : list va :=
  [VString (Some (B "FacetOS")); VWord (-123); VWord 456; VWord 0xdeadbeef].

Lemma klog_early_message_witness :
  exists s', klog ready_env LOG_DEBUG (Some hello_format) hello_arguments ready_state = Done tt s' /\
             klog_early_buf s' = B "Hello FacetOS: d=-123 u=456 x=deadbeef %".
Proof.
  destruct (klog_early_message ready_env LOG_DEBUG hello_format hello_arguments
    (B "Hello FacetOS: d=-123 u=456 x=deadbeef %") ready_state) as (s' & Hs & _ & _ & Hb & _).
  - by constructor.
  - done.
  - vm_compute. reflexivity.
  - exists s'. split; [exact Hs|]. rewrite Hb. vm_compute. reflexivity.
Defined.

(** A message logged while another is being logged is dropped: it changes
    neither store, sink, lock nor route, and in particular does not wait for the
    lock that its caller holds. *)
Theorem klog_nested_dropped (env : KlogEnv) (level : log_level) (fmt : option bytes) (ap : list va)
    (s : KlogState) (Hbusy : klog_in_progress s = true) :
  klog env level fmt ap s = Done tt s.
Proof.
  destruct fmt as [fmt|]; [|done]. unfold klog, kbind, kget, kput, kret. rewrite Hbusy.
  destruct s. simpl in *. by subst.
Qed.

Lemma klog_nested_dropped_witness :
  klog ready_env LOG_ERROR (Some hello_format) hello_arguments (set_locks true true (set_in_progress true ready_state)) =
  Done tt (set_locks true true (set_in_progress true ready_state)).
Proof. apply klog_nested_dropped. reflexivity. Defined.

(** ** Routing *)

(** The sinks that a message of a level goes to, in route order. *)
Definition active_sinks (level : Z) (routes : list KlogRoute) : list sink :=
  omap (fun r => if (enabled r && (level <=? maximum_level r))%bool then route_sink r else None) routes.

(** Every enabled route has a sink. *)
Definition routes_ok (s : KlogState) : Prop :=
  Forall (fun r => enabled r = true -> is_Some (route_sink r)) (klog_routes s).

Section Routing.
Context (env : KlogEnv).
Context (Hemit : forall k, sink_has_emit env k = true)
        (Hok : forall t k d, sink_emit env t k d = FACET_OK).

(** [s'] is [s] after more calls to sinks. *)
Definition traced (s : KlogState) (calls : list (sink * bytes)) (s' : KlogState) : Prop :=
  trace s' = trace s ++ calls /\ klog_routes s' = klog_routes s.

Lemma route_emit_ok level data i s route :
  klog_routes s !! i = Some route -> (enabled route = true -> is_Some (route_sink route)) ->
  exists s', klog_route_emit env level data i s = Done tt s' /\
    traced s (map (fun k => (k, data)) (active_sinks level [route])) s' /\ emitted s s'.
Proof.
  intros Hi Hr. unfold klog_route_emit, kbind at 1, kget at 1. rewrite Hi. unfold active_sinks, traced. simpl.
  destruct (enabled route) eqn:Een; simpl.
  - destruct (Hr eq_refl) as [k Hk]. rewrite Hk. destruct (maximum_level route <? level) eqn:El; bool_props.
    + assert ((level <=? maximum_level route) = false) as -> by lia.
      exists s. rewrite app_nil_r. auto using emitted_refl.
    + assert ((level <=? maximum_level route) = true) as -> by lia. unfold kbind, klog_emit_to_sink.
      rewrite Hemit, Hok. simpl. eauto using emitted_add_trace.
  - exists s. rewrite app_nil_r. auto using emitted_refl.
Qed.

Lemma active_sinks_app level a b : active_sinks level (a ++ b) = active_sinks level a ++ active_sinks level b.
Proof. apply omap_app. Qed.

Lemma route_loop_ok level data n i s :
  routes_ok s -> (i + n = length (klog_routes s))%nat ->
  exists s', klog_route_loop env n i level data s = Done tt s' /\ emitted s s' /\
    traced s (map (fun k => (k, data)) (active_sinks level (skipn i (klog_routes s)))) s'.
Proof.
  revert i s. induction n as [|n IH]; intros i s Hr Hi; simpl.
  - exists s. rewrite skipn_all2 by lia. split; [done|]. split; [apply emitted_refl|].
    split; [by rewrite app_nil_r|done].
  - destruct (lookup_lt_is_Some_2 (klog_routes s) i) as [route Hl]; [lia|]. unfold kbind.
    destruct (route_emit_ok level data i s route Hl) as (s1 & -> & [Ht1 Hr1] & He1).
    { by eapply Forall_lookup_1 in Hr. }
    destruct (IH (S i) s1) as (s2 & -> & He2 & Ht2 & Hr2).
    { unfold routes_ok. by rewrite Hr1. }
    { rewrite Hr1. lia. }
    exists s2. split; [done|]. split; [by eapply emitted_trans|]. split; [|congruence].
    rewrite (drop_S _ _ _ Hl). change (route :: ?l) with ([route] ++ l).
    rewrite Ht2, Ht1, Hr1, <- app_assoc. f_equal.
    rewrite <- map_app. f_equal. symmetry. apply (active_sinks_app level [route]).
Qed.

Lemma deliver_all_ok level pieces s :
  early s -> routes_ok s ->
  exists s', deliver_all env level pieces s = Done tt s' /\ early s' /\ appended s (concat pieces) s' /\
    traced s (mbind (fun c => map (fun k => (k, c)) (active_sinks level (klog_routes s))) pieces) s'.
Proof.
  revert s. induction pieces as [|c pieces IH]; intros s He Hr; simpl.
  - exists s. split; [done|]. split; [done|]. split; [apply appended_nil, He|]. split; [by rewrite app_nil_r|done].
  - unfold kbind, deliver, kbind. destruct (early_store_appended env c s He) as (s1 & -> & He1 & Ha1 & Hr1 & Ht1).
    destruct (route_loop_ok level c KLOG_MAX_SINKS 0 s1) as (s2 & -> & Hem & Ht2 & Hr2).
    { unfold routes_ok. by rewrite Hr1. }
    { by rewrite (early_routes _ He1). }
    destruct (IH s2) as (s3 & -> & He3 & Ha3 & Ht3 & Hr3).
    { by eapply early_emitted. }
    { unfold routes_ok. by rewrite Hr2, Hr1. }
    exists s3. split; [done|]. split; [done|]. split.
    { eapply appended_trans; [by eapply appended_emitted|done]. }
    split; [|congruence]. rewrite Ht3, Ht2, Ht1, Hr2, Hr1, <- app_assoc. done.
Qed.

End Routing.

(** What a sink received in a list of calls. *)
Definition received (k : sink) (calls : list (sink * bytes)) : list bytes :=
  omap (fun call => if bool_decide (fst call = k) then Some (snd call) else None) calls.

Lemma received_absent k c sinks : k ∉ sinks -> received k (map (fun j => (j, c)) sinks) = [].
Proof.
  induction sinks as [|j sinks IH]; [done|]. rewrite not_elem_of_cons. intros [Hne Hin].
  unfold received in *. simpl. rewrite bool_decide_eq_false_2 by done. by apply IH.
Qed.

Lemma received_once k c sinks :
  NoDup sinks -> k ∈ sinks -> received k (map (fun j => (j, c)) sinks) = [c].
Proof.
  induction 1 as [|j sinks Hj Hnd IH]; [by intros ?%not_elem_of_nil|].
  rewrite elem_of_cons. intros Hk. unfold received in *. simpl.
  destruct (decide (j = k)) as [->|Hne].
  - rewrite bool_decide_eq_true_2 by done. f_equal. by apply received_absent.
  - rewrite bool_decide_eq_false_2 by done. apply IH. by destruct Hk.
Qed.

Lemma received_app k a b : received k (a ++ b) = received k a ++ received k b.
Proof. apply omap_app. Qed.

Lemma received_pieces k sinks pieces :
  NoDup sinks -> k ∈ sinks ->
  received k (mbind (fun c => map (fun j => (j, c)) sinks) pieces) = pieces.
Proof.
  intros Hnd Hk. induction pieces as [|c pieces IH]; [done|].
  rewrite bind_cons, received_app, IH. by rewrite (received_once k c sinks Hnd Hk).
Qed.

(** When the sinks accept their data, an early message reaches exactly the
    enabled routes whose maximum level admits it, in order, in pieces of at most
    128 bytes, and a sink with one such route receives the whole text. *)
Theorem klog_early_routed (env : KlogEnv) (level : log_level) (fmt : bytes) (ap : list va)
    (text : bytes) (s : KlogState)
    (Hemit : forall k, sink_has_emit env k = true)
    (Hok : forall t k d, sink_emit env t k d = FACET_OK)
    (Hearly : early s) (Hidle : idle s) (Hroutes : routes_ok s)
    (Htext : render (length fmt) fmt ap = Some text) :
  let sinks := active_sinks (configured_level level) (klog_routes s) in
  exists s' calls, klog env level (Some fmt) ap s = Done tt s' /\
    trace s' = trace s ++ calls /\ klog_routes s' = klog_routes s /\
    Forall (fun call => fst call ∈ sinks /\ (length (snd call) <= 128)%nat) calls /\
    (NoDup sinks -> forall k, k ∈ sinks -> concat (received k calls) = text).
Proof.
  intros sinks. rewrite (klog_text env level fmt ap text s Hidle Htext). set (s1 := set_locks _ _ _).
  assert (early s1) as He1 by (destruct Hearly; by constructor).
  unfold kbind at 1. destruct (deliver_all_ok env Hemit Hok (configured_level level) (chunks text) s1 He1 Hroutes)
    as (s2 & -> & _ & _ & Ht & Hr).
  eexists _, _. split; [done|]. split; [exact Ht|]. split; [exact Hr|]. split.
  - apply Forall_forall. intros [k c] Hin. apply list_elem_of_bind in Hin as (p & Hin & Hp).
    apply list_elem_of_fmap in Hin as (k' & [= -> ->] & Hk). split; [exact Hk|].
    assert (forall n l, (p ∈ chunk_loop n l) -> (length p <= 128)%nat) as Hlen.
    { induction n as [|n IH]; intros [|b l] Hin; try by apply not_elem_of_nil in Hin.
      change (p ∈ firstn KLOG_CTX_BUFSIZE (b :: l) :: chunk_loop n (skipn KLOG_CTX_BUFSIZE (b :: l))) in Hin.
      apply elem_of_cons in Hin as [->|Hin]; [rewrite length_firstn; unfold KLOG_CTX_BUFSIZE; lia|].
      by eapply IH. }
    by eapply Hlen.
  - intros Hnd k Hk. rewrite received_pieces by done. apply chunks_concat.
Qed.

Lemma klog_early_routed_witness :
  exists s' calls,
    klog ready_env LOG_INFO (Some hello_format) hello_arguments
      (set_routes (<[0%nat := mkRoute (Some 3%nat) LogLevel_Info true]> (repeat zero_route KLOG_MAX_SINKS)) ready_state)
    = Done tt s' /\ trace s' = calls /\ concat (received 3%nat calls) = B "Hello FacetOS: d=-123 u=456 x=deadbeef %".
Proof.
  destruct (klog_early_routed ready_env LOG_INFO hello_format hello_arguments
    (B "Hello FacetOS: d=-123 u=456 x=deadbeef %")
    (set_routes (<[0%nat := mkRoute (Some 3%nat) LogLevel_Info true]> (repeat zero_route KLOG_MAX_SINKS)) ready_state))
    as (s' & calls & Hs & Ht & _ & _ & Hc).
  - reflexivity.
  - reflexivity.
  - constructor; [reflexivity|reflexivity|vm_compute; discriminate].
  - split; reflexivity.
  - repeat constructor; try discriminate. intros _. by exists 3%nat.
  - vm_compute. reflexivity.
  - exists s', calls. split; [exact Hs|]. split; [exact Ht|]. apply Hc; vm_compute; [apply NoDup_singleton|left].
Defined.

(** ** The dynamic store *)

(** The dynamic buffer: [used] bytes and a NUL inside a block of [size] bytes. *)
Record prod_ok (s : KlogState) (stored : bytes) : Prop := {
  prod_block : exists block, klog_prod_buf s = Some block /\ zlen block = klog_prod_buf_size s /\
                             firstn (length stored) block = stored;
  prod_used : klog_prod_buf_used s = zlen stored;
  prod_room : klog_prod_buf_used s + 1 <= klog_prod_buf_size s < 2 ^ 63
}.

Lemma block_write_at block stored data :
  firstn (length stored) block = stored -> zlen stored + zlen data <= zlen block ->
  block_write block (zlen stored) data =
  Some (stored ++ data ++ skipn (length stored + length data) block).
Proof.
  intros Hs Hl. pose proof (zlen_nonneg stored). unfold block_write.
  destruct (_ && _)%bool eqn:E; [|lia]. unfold zlen. by rewrite Nat2Z.id, Hs.
Qed.

Lemma block_write_out block offset data :
  0 <= offset -> zlen block < offset + zlen data -> block_write block offset data = None.
Proof. intros H0 Hl. unfold block_write. destruct (_ && _)%bool eqn:E; [lia|done]. Qed.

Lemma prod_write_ok block data stored s :
  firstn (length stored) block = stored -> zlen block = klog_prod_buf_size s ->
  zlen stored + zlen data + 1 <= klog_prod_buf_size s < 2 ^ 63 ->
  exists s', klog_prod_write block (zlen stored) data s = Done tt s' /\ prod_ok s' (stored ++ data) /\
    klog_early_buf s' = klog_early_buf s /\ trace s' = trace s /\ klog_routes s' = klog_routes s /\
    klog_cur_store_fn s' = klog_cur_store_fn s /\
    klog_internal_lock s' = klog_internal_lock s /\ klog_in_progress s' = klog_in_progress s /\
    klog_public_lock s' = klog_public_lock s /\
    klog_prod_buf_size s' = klog_prod_buf_size s /\ klog_prod_buf_used s' = zlen stored + zlen data.
Proof.
  intros Hst Hlen Hroom. pose proof (zlen_nonneg stored). pose proof (zlen_nonneg data).
  unfold klog_prod_write. rewrite block_write_at by (done || lia). rewrite <- zlen_app.
  set (block1 := stored ++ data ++ _).
  assert (zlen block1 = zlen block) as Hl1.
  { unfold block1, zlen in *. rewrite !length_app, length_skipn. lia. }
  rewrite (block_write_at _ (stored ++ data)); [|by unfold block1; rewrite app_assoc, take_app_length|].
  2: { rewrite Hl1, zlen_app. change (zlen [0]) with 1. lia. }
  eexists. split; [done|]. split; [|done]. constructor; simpl.
  - eexists. split; [done|]. split; [|by rewrite take_app_length].
    clearbody block1. unfold zlen in *. rewrite length_app. simpl length at 2.
    rewrite length_skipn, length_app. simpl. lia.
  - done.
  - rewrite zlen_app. lia.
Qed.

Lemma resize_block_ok env block stored size :
  firstn (length stored) block = stored -> zlen stored <= size ->
  zlen (resize_block env block size) = size /\
  firstn (length stored) (resize_block env block size) = stored.
Proof.
  intros Hst Hs. pose proof (zlen_nonneg stored). assert (length stored <= length block)%nat as Hle.
  { rewrite <- Hst, length_firstn. lia. }
  unfold resize_block. split.
  - rewrite zlen_app. unfold zlen in *. rewrite length_firstn, repeat_length. lia.
  - rewrite firstn_app, firstn_firstn, Nat.min_l by (unfold zlen in *; lia).
    rewrite Hst, length_firstn. replace (length stored - _)%nat with 0%nat by (unfold zlen in *; lia).
    by rewrite app_nil_r.
Qed.

Lemma prod_store_appends (env : KlogEnv) (data stored : bytes) (s : KlogState)
    (Hs : prod_ok s stored) (Hsize : zlen stored + zlen data + 1 < 2 ^ 63)
    (Hrealloc : krealloc_ok env (zlen stored + zlen data + 1) = true)
    (Hfill : zlen data <> klog_prod_buf_size s - klog_prod_buf_used s) :
  exists s', klog_prod_store_fn env data s = Done tt s' /\
    prod_ok s' (if (kmalloc_is_in_progress env &&
                    (klog_prod_buf_size s - klog_prod_buf_used s <? zlen data))%bool
                then stored else stored ++ data) /\
    klog_early_buf s' = klog_early_buf s /\ trace s' = trace s /\ klog_routes s' = klog_routes s /\
    klog_cur_store_fn s' = klog_cur_store_fn s /\
    klog_internal_lock s' = klog_internal_lock s /\ klog_in_progress s' = klog_in_progress s /\
    klog_public_lock s' = klog_public_lock s /\
    (kmalloc_is_in_progress env = false ->
     klog_prod_buf_size s - klog_prod_buf_used s < zlen data ->
     klog_prod_buf_size s' = klog_prod_buf_used s' + 1).
Proof.
  pose proof Hs as [(block & Hb & Hlen & Hst) Hu Hroom].
  pose proof (zlen_nonneg stored) as H0. pose proof (zlen_nonneg data) as H1.
  unfold klog_prod_store_fn, kbind, kget. rewrite Hb, Hu in *. unfold u64, SIZE_MAX.
  rewrite (Z.mod_small (klog_prod_buf_size s - zlen stored)) by lia.
  rewrite (Z.mod_small (2 ^ 64 - 1 - zlen stored - 1)) by lia.
  destruct (_ <? zlen data) eqn:E1; bool_props.
  - rewrite andb_true_r. destruct (kmalloc_is_in_progress env); [exists s; split_and!; done|].
    destruct (_ <? zlen data) eqn:E2; [lia|]. rewrite Hrealloc.
    destruct (resize_block_ok env block stored (zlen stored + zlen data + 1) Hst) as [Hn1 Hn2]; [lia|].
    destruct (prod_write_ok _ data stored
      (set_prod (Some (resize_block env block (zlen stored + zlen data + 1))) (zlen stored)
         (zlen stored + zlen data + 1) s) Hn2 Hn1 ltac:(simpl; lia))
      as (s' & Hw & ? & ? & ? & ? & ? & ? & ? & ? & Hsz & Hus).
    exists s'. split; [exact Hw|]. split_and!; try done. intros _ _. by rewrite Hsz, Hus.
  - rewrite andb_false_r.
    destruct (prod_write_ok block data stored s Hst Hlen ltac:(lia))
      as (s' & Hw & ? & ? & ? & ? & ? & ? & ? & ? & _).
    exists s'. split_and!; try done. intros _ Hlt. lia.
Qed.

(** The dynamic store appends a piece when there is room for it and its NUL,
    grows the block to fit it exactly otherwise, and drops it while the allocator
    is at work; in each case what was stored before is kept. *)
Theorem klog_prod_store_appends (env : KlogEnv) (data stored : bytes) (s : KlogState)
    (Hs : prod_ok s stored) (Hsize : zlen stored + zlen data + 1 < 2 ^ 63)
    (Hrealloc : krealloc_ok env (zlen stored + zlen data + 1) = true)
    (Hfill : zlen data <> klog_prod_buf_size s - klog_prod_buf_used s) :
  exists s', klog_prod_store_fn env data s = Done tt s' /\
    prod_ok s' (if (kmalloc_is_in_progress env &&
                    (klog_prod_buf_size s - klog_prod_buf_used s <? zlen data))%bool
                then stored else stored ++ data) /\
    klog_early_buf s' = klog_early_buf s /\ trace s' = trace s /\ klog_routes s' = klog_routes s.
Proof.
  destruct (prod_store_appends env data stored s Hs Hsize Hrealloc Hfill) as (s' & ? & ? & ? & ? & ? & _).
  eauto 10.
Qed.

Definition switched_state : KlogState :=
  set_store (Some klog_prod_store) (set_prod (Some (B "boot" ++ [0])) 4 5 ready_state).

Lemma klog_prod_store_appends_witness :
  exists s', klog_prod_store_fn ready_env (B "ab") switched_state = Done tt s' /\ prod_ok s' (B "bootab").
Proof.
  destruct (klog_prod_store_appends ready_env (B "ab") (B "boot") switched_state) as (s' & H & Hok & _).
  - constructor; [by exists (B "boot" ++ [0])|done|simpl; lia].
  - vm_compute. reflexivity.
  - reflexivity.
  - vm_compute. discriminate.
  - exists s'. split; [exact H|exact Hok].
Defined.

(** The dynamic store writes one byte past its block when a piece fills the
    block exactly: the test for room forgets the NUL that is stored after the
    data.  Since the block is always left with room for the NUL only, this is
    every piece of one byte. *)
Theorem klog_prod_store_exact_fill_overflows (env : KlogEnv) (data stored : bytes) (s : KlogState)
    (Hs : prod_ok s stored)
    (Hfill : zlen data = klog_prod_buf_size s - klog_prod_buf_used s) :
  klog_prod_store_fn env data s = Fault.
Proof.
  destruct Hs as [(block & Hb & Hlen & Hst) Hu Hroom].
  pose proof (zlen_nonneg stored). unfold klog_prod_store_fn, kbind, kget. rewrite Hb, Hu in *.
  unfold u64. rewrite Z.mod_small by lia. destruct (_ <? zlen data) eqn:E1; [lia|].
  unfold klog_prod_write. rewrite block_write_at by (done || lia).
  rewrite block_write_out; [done|lia|]. change (zlen [0]) with 1.
  rewrite !zlen_app. unfold zlen in *. rewrite length_skipn. lia.
Qed.

Lemma klog_prod_store_exact_fill_overflows_witness :
  klog_prod_store_fn ready_env (B "x") switched_state = Fault.
Proof.
  apply (klog_prod_store_exact_fill_overflows ready_env (B "x") (B "boot") switched_state).
  - constructor; [by exists (B "boot" ++ [0])|done|simpl; lia].
  - reflexivity.
Defined.

(** ** Configured routes *)

Definition names_match (c : Sink) (b : KlogSinkBinding) : bool :=
  klog_string_equal (sink_name c) (binding_name b).

Lemma klog_match_found name bs j f :
  klog_match name bs j (Some f) =
  if existsb (fun b => klog_string_equal name (binding_name b)) bs then None else Some f.
Proof.
  revert j. induction bs as [|b bs IH]; intros j; simpl; [done|].
  destruct (klog_string_equal _ _); simpl; [done|apply IH].
Qed.

(** The search finds the index of the only binding that matches. *)
Lemma klog_match_spec name bs j k :
  klog_match name bs j None = Some k <->
  exists i b, k = (j + i)%nat /\ bs !! i = Some b /\ klog_string_equal name (binding_name b) = true /\
    forall i' b', bs !! i' = Some b' -> klog_string_equal name (binding_name b') = true -> i' = i.
Proof.
  revert j. induction bs as [|b bs IH]; intros j; simpl.
  - split; [done|]. by intros (i & b & _ & Hi & _).
  - destruct (klog_string_equal name (binding_name b)) eqn:Eb.
    + rewrite klog_match_found. destruct (existsb _ bs) eqn:Ex.
      * split; [done|]. intros (i & b' & -> & Hi & Hb' & Hu). apply existsb_exists in Ex as (x & Hx & Hxe).
        apply list_elem_of_In, list_elem_of_lookup in Hx as [n Hn].
        pose proof (Hu 0%nat b eq_refl Eb). pose proof (Hu (S n) x Hn Hxe). lia.
      * split.
        -- intros [= <-]. exists 0%nat, b. split_and!; [lia|done|done|]. intros [|i'] b' Hi' Hb'; [done|].
           exfalso. apply not_true_iff_false in Ex. apply Ex, existsb_exists. exists b'. split; [|done].
           apply list_elem_of_In, list_elem_of_lookup. by exists i'.
        -- intros (i & b' & -> & Hi & Hb' & Hu). pose proof (Hu 0%nat b eq_refl Eb) as <-. f_equal. lia.
    + rewrite IH. split.
      * intros (i & b' & -> & Hi & Hb' & Hu). exists (S i), b'. split_and!; [lia|done|done|].
        intros [|i'] b2 Hi2 Hb2; [simpl in Hi2; congruence|]. f_equal. by eapply Hu.
      * intros (i & b' & -> & Hi & Hb' & Hu). destruct i as [|i]; [simpl in Hi; congruence|].
        exists i, b'. split_and!; [lia|done|done|]. intros i' b2 Hi2 Hb2.
        pose proof (Hu (S i') b2 Hi2 Hb2). lia.
Qed.

(** The route of a configured sink: its level is one of the levels, exactly one
    binding has its name, and it is off when that binding has no sink or the
    level is none. *)
Definition configured_route (bindings : list KlogSinkBinding) (c : Sink) (route : KlogRoute) : Prop :=
  klog_valid_maximum_level (sink_level c) = true /\
  exists j b, bindings !! j = Some b /\ names_match c b = true /\
    (forall j' b', bindings !! j' = Some b' -> names_match c b' = true -> j' = j) /\
    route = match binding_sink b with
            | Some k => if sink_level c =? LogLevel_None then zero_route
                        else mkRoute (Some k) (sink_level c) true
            | None => zero_route
            end.

(** The routes that the configuration selects: the builder answers exactly
    when every configured sink has a valid level and one and only one binding of
    its name, and then gives each its route in order. *)
Theorem klog_build_routes_correct (configured : list Sink) (bindings : list KlogSinkBinding)
    (routes : list KlogRoute) :
  klog_build_routes configured bindings = Some routes <->
  Forall2 (configured_route bindings) configured routes.
Proof.
  revert routes. induction configured as [|c configured IH]; intros routes; simpl.
  { split; [intros [= <-]; constructor|by inversion 1]. }
  split.
  - destruct (klog_valid_maximum_level _) eqn:Ev; simpl; [|done].
    destruct (klog_match _ _ _ _) as [j|] eqn:Em; [|done].
    apply klog_match_spec in Em as (i & b & -> & Hi & Hb & Hu). simpl. rewrite Hi.
    destruct (klog_build_routes configured bindings) as [rest|]; [|done]. intros [= <-].
    constructor; [|by apply IH]. split; [done|]. by exists i, b.
  - inversion 1 as [|? route ? rest (Hv & j & b & Hj & Hb & Hu & ->) Hrest]; subst. rewrite Hv. simpl.
    assert (klog_match (sink_name c) bindings 0 None = Some j) as -> by (apply klog_match_spec; eauto 10).
    rewrite Hj, (proj2 (IH rest) Hrest). done.
Qed.

(** ** The switch *)

Lemma emitted_prod_ok s s' stored : prod_ok s stored -> emitted s s' -> prod_ok s' stored.
Proof.
  intros [(block & ? & ? & ?) ? ?] []. destruct em_prod0 as (E1 & E2 & E3).
  constructor; [exists block; split_and!; congruence|congruence|by rewrite E2, E3].
Qed.

(** The dynamic store is in use, holds [stored], and has room for the NUL only. *)
Record switched (s : KlogState) (stored : bytes) : Prop := {
  sw_store : klog_cur_store_fn s = Some klog_prod_store;
  sw_routes : length (klog_routes s) = KLOG_MAX_SINKS;
  sw_prod : prod_ok s stored;
  sw_tight : klog_prod_buf_size s = klog_prod_buf_used s + 1
}.

Lemma deliver_prod env level data stored s :
  switched s stored -> 2 <= zlen data -> zlen stored + zlen data + 1 < 2 ^ 63 ->
  krealloc_ok env (zlen stored + zlen data + 1) = true -> kmalloc_is_in_progress env = false ->
  exists s', deliver env level data s = Done tt s' /\ switched s' (stored ++ data) /\
    klog_public_lock s' = klog_public_lock s.
Proof.
  intros [Hf Hr Hp Ht] Hd Hsz Hre Hk. unfold deliver, kbind, klog_store, kbind, kget. rewrite Hf.
  destruct (prod_store_appends env data stored s Hp Hsz Hre ltac:(lia))
    as (s1 & -> & Hp1 & _ & _ & Hr1 & Hf1 & _ & _ & Hl1 & Ht1).
  rewrite Hk in Hp1. simpl in Hp1. specialize (Ht1 Hk ltac:(lia)).
  destruct (route_loop_emitted env level data KLOG_MAX_SINKS 0 s1) as (s2 & -> & Hem); [by rewrite Hr1, Hr|].
  exists s2. split; [done|]. pose proof Hem as []. split; [constructor|].
  - congruence.
  - rewrite <- (Forall2_length _ _ _ em_routes0). congruence.
  - by eapply emitted_prod_ok.
  - destruct em_prod0 as (_ & -> & ->). exact Ht1.
  - destruct em_locks0. congruence.
Qed.

(** A message of one piece after the switch. *)
Lemma klog_switched_message env level fmt stored s :
  switched s stored -> idle s -> render (length fmt) fmt [] = Some fmt -> chunks fmt = [fmt] ->
  2 <= zlen fmt -> zlen stored + zlen fmt + 1 < 2 ^ 63 ->
  krealloc_ok env (zlen stored + zlen fmt + 1) = true -> kmalloc_is_in_progress env = false ->
  exists s', klog env level (Some fmt) [] s = Done tt s' /\ switched s' (stored ++ fmt) /\ idle s' /\
    klog_public_lock s' = klog_public_lock s.
Proof.
  intros Hs Hi Hr Hc Hlen Hsz Hre Hk. rewrite (klog_text env level fmt [] fmt s Hi Hr), Hc. cbn [deliver_all].
  set (s1 := set_locks _ _ _). assert (switched s1 stored) as Hs1 by (destruct Hs as [? ? [] ?]; by constructor).
  destruct (deliver_prod env (configured_level level) fmt stored s1 Hs1 Hlen Hsz Hre Hk) as (s2 & Hd & Hs2 & Hl2).
  unfold kbind. rewrite Hd. eexists. split; [done|]. split; [|by split].
  destruct Hs2 as [? ? [] ?]; by constructor.
Qed.

Definition truncated_notice : bytes := B "..." ++ [10] ++ B "(early logbuf truncated)" ++ [10].
Definition switch_notice : bytes := B "Switched to dynamic log buffer!" ++ [10].

Lemma klog_switch_keeps env routes s :
  idle s -> klog_public_lock s = false -> length routes = KLOG_MAX_SINKS ->
  klog_early_buf_used s <= KLOG_EARLY_BUFSIZE ->
  (forall n, 0 <= n < 2 ^ 62 -> krealloc_ok env n = true) -> kmalloc_is_in_progress env = false ->
  exists s', klog_switch env routes s = Done tt s' /\
    switched s' (klog_early_buf s ++ (if klog_early_truncated s then truncated_notice else []) ++ switch_notice) /\
    idle s' /\ klog_public_lock s' = false.
Proof.
  intros [Hl Hp] Hpub Hr Hb Hre Hk. unfold klog_early_buf_used, KLOG_EARLY_BUFSIZE in Hb.
  pose proof (zlen_nonneg (klog_early_buf s)).
  unfold klog_switch, klog_lock, kbind at 1. rewrite Hpub. unfold kbind at 1, klog_lock_internal.
  cbn [klog_internal_lock set_locks]. rewrite Hl. unfold kbind at 1, kput at 1. unfold kbind at 1, klog_unlock_internal.
  set (s1 := set_locks _ false _). unfold kbind at 1, kget.
  assert (switched s1 (klog_early_buf s)) as Hs1.
  { constructor; try done. constructor; try done; [|unfold s1, klog_early_buf_used; simpl; lia].
    exists (klog_early_buf s ++ [0]). split_and!; [done|by rewrite zlen_app|by rewrite take_app_length]. }
  change (klog_early_truncated s1) with (klog_early_truncated s).
  assert (exists s2, (if klog_early_truncated s then klog env LOG_INFO (Some truncated_notice) [] else kret tt) s1 = Done tt s2 /\
    switched s2 (klog_early_buf s ++ (if klog_early_truncated s then truncated_notice else [])) /\ idle s2) as (s2 & H2 & Hs2 & Hi2).
  { destruct (klog_early_truncated s); [|exists s1; rewrite app_nil_r; split; [done|]; split; [exact Hs1|done]].
    destruct (klog_switched_message env LOG_INFO truncated_notice (klog_early_buf s) s1 Hs1) as (s2 & ? & ? & ? & _);
      [by split|reflexivity|reflexivity|done|change (zlen truncated_notice) with 29; lia| |done|eauto].
    change (zlen truncated_notice) with 29. apply Hre. lia. }
  unfold kbind at 1. unfold truncated_notice in H2 at 1. rewrite H2.
  assert (zlen (if klog_early_truncated s then truncated_notice else []) <= 29) as Hn by (by destruct (klog_early_truncated s)).
  destruct (klog_switched_message env LOG_INFO switch_notice _ s2 Hs2) as (s3 & H3 & Hs3 & Hi3 & _);
    [done|reflexivity|reflexivity|done|..|done|].
  1, 2: rewrite zlen_app; change (zlen switch_notice) with 32; try apply Hre;
    pose proof (zlen_nonneg (if klog_early_truncated s then truncated_notice else [])); lia.
  unfold kbind at 1. unfold switch_notice in H3 at 1. rewrite H3. eexists. split; [done|].
  rewrite app_assoc. split; [destruct Hs3 as [? ? [] ?]; constructor; try done; by constructor|].
  destruct Hi3. by repeat split.
Qed.

(** A refused logging configuration changes nothing: whenever the switch to
    configured routes answers -1, the log is as it was. *)
Theorem klog_init_postboot_refused (env : KlogEnv) (config : option ILoggingConfig)
    (bindings : option (list KlogSinkBinding)) (binding_count : nat) (s s' : KlogState)
    (Hrefused : klog_init_postboot env config bindings binding_count s = Done (-1) s') :
  s' = s.
Proof.
  unfold klog_init_postboot in Hrefused.
  destruct config as [[[[[result data] count]|]]|]; [|by injection Hrefused|by injection Hrefused].
  repeat (case_hyp Hrefused; [by injection Hrefused|]).
  destruct (klog_build_routes _ _) as [routes|]; [|by injection Hrefused].
  unfold kbind at 1, kget in Hrefused. case_hyp Hrefused; [by injection Hrefused|].
  unfold kbind in Hrefused. destruct (klog_switch _ _ s); try done.
Qed.

Lemma klog_init_postboot_refused_witness :
  klog_init_postboot ready_env
    (Some (mkLoggingConfig (Some (FACET_OK, Some [mkConfigured (mkString (Some (B "k")) 1) LogLevel_Info], 1%nat))))
    None 0 ready_state = Done (-1) ready_state.
Proof.
  destruct (klog_init_postboot ready_env
    (Some (mkLoggingConfig (Some (FACET_OK, Some [mkConfigured (mkString (Some (B "k")) 1) LogLevel_Info], 1%nat))))
    None 0 ready_state) as [r s'| | |] eqn:E; try discriminate E.
  assert (r = -1) as -> by (vm_compute in E; congruence).
  rewrite (klog_init_postboot_refused _ _ _ _ _ _ E). reflexivity.
Defined.

(** The switch to the dynamic buffer loses nothing of the early log: with an
    accepted configuration, memory for the buffer and free locks, it answers 0,
    the dynamic buffer holds the early bytes followed by the notices, and both
    locks are free again. *)
Theorem klog_init_postboot_keeps_early_log (env : KlogEnv) (configured : list Sink)
    (bindings : list KlogSinkBinding) (routes : list KlogRoute) (s : KlogState)
    (Hidle : idle s) (Hpublic : klog_public_lock s = false)
    (Hbound : klog_early_buf_used s <= KLOG_EARLY_BUFSIZE)
    (Hcount : (length configured <= KLOG_MAX_SINKS)%nat)
    (Hroutes : klog_build_routes configured bindings = Some routes)
    (Hmalloc : forall n, 0 <= n < 2 ^ 62 -> kmalloc_ok env n = true)
    (Hrealloc : forall n, 0 <= n < 2 ^ 62 -> krealloc_ok env n = true)
    (Hprogress : kmalloc_is_in_progress env = false) :
  exists s',
    klog_init_postboot env (Some (mkLoggingConfig (Some (FACET_OK, Some configured, length configured))))
      (Some bindings) (length bindings) s = Done 0 s' /\
    prod_ok s' (klog_early_buf s ++ (if klog_early_truncated s then truncated_notice else []) ++ switch_notice) /\
    klog_cur_store_fn s' = Some klog_prod_store /\ idle s' /\ klog_public_lock s' = false.
Proof.
  assert (length routes = length configured) as Hlen.
  { clear Hcount. revert routes Hroutes. induction configured as [|c configured IH]; simpl; intros routes Hr; [by simplify_eq|].
    break Hr. f_equal. by apply IH. }
  unfold klog_init_postboot. rewrite (bool_decide_eq_false_2 (Some bindings = None)) by done. cbn [andb].
  destruct (_ || _)%bool eqn:Eg.
  { exfalso. apply orb_true_iff in Eg as [[Eg|Eg]%orb_true_iff|Eg]; [done| |done].
    apply Nat.ltb_lt in Eg. lia. }
  cbn [default]. unfold id. rewrite !firstn_all, Hroutes. unfold kbind at 1, kget.
  unfold klog_early_buf_used, KLOG_EARLY_BUFSIZE in Hbound. pose proof (zlen_nonneg (klog_early_buf s)).
  rewrite Hmalloc by (unfold klog_early_buf_used; lia). simpl negb. cbv iota.
  destruct (klog_switch_keeps env (routes ++ repeat zero_route (KLOG_MAX_SINKS - length routes)) s)
    as (s' & Hs & [] & Hi & Hl); try done.
  { rewrite length_app, repeat_length. lia. }
  unfold kbind. cbn [negb]. rewrite Hs. exists s'. split; [done|]. split; [done|]. by split.
Qed.

Lemma klog_init_postboot_keeps_early_log_witness :
  exists s',
    klog_init_postboot ready_env (Some (mkLoggingConfig (Some (FACET_OK, Some [], 0%nat)))) (Some []) 0
      (set_early (B "boot") false ready_state) = Done 0 s' /\
    prod_ok s' (B "boot" ++ switch_notice).
Proof.
  destruct (klog_init_postboot_keeps_early_log ready_env [] [] [] (set_early (B "boot") false ready_state))
    as (s' & Hs & Hp & _); [by split|reflexivity|vm_compute; discriminate|simpl; lia|reflexivity| | |reflexivity|].
  - intros n _. reflexivity.
  - intros n _. reflexivity.
  - exists s'. split; [exact Hs|exact Hp].
Defined.

(** The overflow of the dynamic store is reached by ordinary use: after the
    switch, logging a message of a single byte writes outside the block. *)
Theorem klog_one_byte_message_faults :
  match klog_init_postboot ready_env (Some (mkLoggingConfig (Some (FACET_OK, Some [], 0%nat)))) (Some []) 0
          ready_state with
  | Done _ s => klog ready_env LOG_INFO (Some [10]) [] s = Fault
  | _ => False
  end.
Proof. vm_compute. reflexivity. Qed.

