(* ===== verification/Klock.v ===== *)
(** The spin lock of dominit0 (src/src/dominit0/klock.c): threads that interleave
    their atomic operations on one lock word.

    A thread is at one point of [klock_lock], [klock_trylock] or [klock_unlock]
    ([Point]); [step] runs one atomic operation of one thread.  The memory is
    sequentially consistent: the acquire and release orders of the code concern the
    data that the lock protects, not the lock word. *)
From stdpp Require Import gmap.
From S2P Require Import Prelude.

(** Where a thread is: outside, before the exchange of [klock_lock], in its waiting
    loop, before the exchange of [klock_trylock], or holding the lock. *)
Inductive Point := Outside | Exchange | Waiting | TryExchange | Holding.

#[global] Instance Point_eq : EqDecision Point.
Proof. solve_decision. Defined.

Record Klock := mkKlock {
  locked : Z;
  threads : gmap nat Point
}.

Definition at_point (t : nat) (p : Point) (word : Z) (k : Klock) : Klock :=
  mkKlock word (<[t := p]> (threads k)).

(** [__atomic_exchange_n(&lock->locked, 1, ...)]: the old value. *)
Definition exchange (k : Klock) : bool := negb (locked k =? 0).

(** The calls that a thread may begin. *)
Inductive KlockCall := klock_lock | klock_trylock | klock_unlock.

(** A thread begins a call: it unlocks only what it holds, as the callers do. *)
Definition begin_call (c : KlockCall) (t : nat) (k : Klock) : option Klock :=
  match threads k !! t, c with
  | Some Outside, klock_lock => Some (at_point t Exchange (locked k) k)
  | Some Outside, klock_trylock => Some (at_point t TryExchange (locked k) k)
  | Some Holding, klock_unlock => Some (at_point t Outside 0 k)
  | _, _ => None
  end.

(** The next atomic operation of a thread inside a call. *)
Definition klock_advance (t : nat) (k : Klock) : option Klock :=
  match threads k !! t with
  | Some Exchange => Some (at_point t (if exchange k then Waiting else Holding) 1 k)
  | Some Waiting => Some (at_point t (if locked k =? 0 then Exchange else Waiting) (locked k) k)
  | Some TryExchange => Some (at_point t (if exchange k then Outside else Holding) 1 k)
  | _ => None
  end.

Inductive step : Klock -> Klock -> Prop :=
  | step_begin c t k k' : begin_call c t k = Some k' -> step k k'
  | step_advance t k k' : klock_advance t k = Some k' -> step k k'.

(** [klock_init]: a free lock, and nobody at it. *)
Definition klock_init (ts : list nat) : Klock := mkKlock 0 (list_to_map ((fun t => (t, Outside)) <$> ts)).

(** ** Mutual exclusion *)

(** The word is 1 exactly if some thread holds the lock, and then only one. *)
Record klock_ok (k : Klock) : Prop := {
  word_bit : locked k = 0 \/ locked k = 1;
  word_held : locked k = 1 <-> exists t, threads k !! t = Some Holding;
  held_once : forall t u, threads k !! t = Some Holding -> threads k !! u = Some Holding -> t = u
}.

Lemma klock_init_ok ts : klock_ok (klock_init ts).
Proof.
  assert (Hno : forall t, threads (klock_init ts) !! t <> Some Holding).
  { intros t Ht. simpl in Ht. apply elem_of_list_to_map_2, list_elem_of_fmap in Ht as (u & Hu & _). done. }
  split; [by left| |]; simpl in *.
  - split; [done|]. intros [t Ht]. by destruct (Hno t).
  - intros t u Ht. by destruct (Hno t).
Qed.

(** A thread that moves between two points where it does not hold the lock. *)
Lemma klock_ok_move t p k :
  klock_ok k -> threads k !! t <> Some Holding -> p <> Holding -> klock_ok (at_point t p (locked k) k).
Proof.
  intros [Hb Hw Ho] Ht Hp.
  assert (Hsame : forall u, <[t := p]> (threads k) !! u = Some Holding <-> threads k !! u = Some Holding).
  { intros u. destruct (decide (t = u)) as [->|Hne]; [rewrite lookup_insert_eq|by rewrite lookup_insert_ne].
    split; [congruence|done]. }
  split; simpl; [done| |].
  - rewrite Hw. by setoid_rewrite Hsame.
  - intros u v Hu Hv. rewrite Hsame in Hu, Hv. by apply Ho.
Qed.

(** A thread that takes a free lock. *)
Lemma klock_ok_take t k : klock_ok k -> locked k = 0 -> klock_ok (at_point t Holding 1 k).
Proof.
  intros [Hb Hw Ho] Hfree.
  assert (Hno : forall u, threads k !! u <> Some Holding).
  { intros u Hu. enough (locked k = 1) by lia. apply Hw. by exists u. }
  assert (Honly : forall u, <[t := Holding]> (threads k) !! u = Some Holding -> u = t).
  { intros u. destruct (decide (t = u)) as [->|Hne]; [done|]. rewrite lookup_insert_ne by done. intros Hu. by destruct (Hno u). }
  split; simpl; [by right| |].
  - split; [|done]. intros _. exists t. apply lookup_insert_eq.
  - intros u v Hu%Honly Hv%Honly. congruence.
Qed.

Lemma klock_ok_release t k : klock_ok k -> threads k !! t = Some Holding -> klock_ok (at_point t Outside 0 k).
Proof.
  intros [Hb Hw Ho] Ht.
  assert (Hno : forall u, <[t := Outside]> (threads k) !! u <> Some Holding).
  { intros u. destruct (decide (t = u)) as [->|Hne]; [by rewrite lookup_insert_eq|]. rewrite lookup_insert_ne by done.
    intros Hu. by destruct Hne; apply Ho. }
  split; simpl; [by left| |].
  - split; [done|]. intros [u Hu]. by destruct (Hno u).
  - intros u v Hu. by destruct (Hno u).
Qed.

Lemma klock_ok_exchange t p k :
  klock_ok k -> threads k !! t <> Some Holding -> p <> Holding ->
  klock_ok (at_point t (if exchange k then p else Holding) 1 k).
Proof.
  intros Hk Ht Hp. unfold exchange. destruct (Z.eqb_spec (locked k) 0) as [H0|H1]; simpl.
  - by apply klock_ok_take.
  - destruct (word_bit k Hk) as [|<-]; [done|]. by apply klock_ok_move.
Qed.

Lemma klock_ok_step k k' : klock_ok k -> step k k' -> klock_ok k'.
Proof.
  intros Hk Hs. destruct Hs as [c t k k' Hb|t k k' Ha].
  - unfold begin_call in Hb. destruct (threads k !! t) as [[]|] eqn:Et; destruct c; try done; injection Hb as <-.
    1, 2: apply klock_ok_move; congruence.
    by apply klock_ok_release.
  - unfold klock_advance in Ha. destruct (threads k !! t) as [[]|] eqn:Et; try done; injection Ha as <-.
    1, 3: apply klock_ok_exchange; congruence.
    apply klock_ok_move; [done|congruence|]. by destruct (_ =? _).
Qed.

Lemma klock_ok_reachable k k' : klock_ok k -> rtc step k k' -> klock_ok k'.
Proof. intros Hk Hr. induction Hr as [|k1 k2 k3 Hs _ IH]; [done|]. apply IH. by eapply klock_ok_step. Qed.

(** C19: Mutual exclusion of the spin lock: however the atomic operations of any
    number of threads interleave, starting from an initialised lock, at most one
    thread holds the lock; and while one does, the exchange of every other thread
    fails, whether it locks or tries to. *)
Theorem klock_mutual_exclusion ts k t u :
  rtc step (klock_init ts) k -> threads k !! t = Some Holding ->
  (threads k !! u = Some Holding -> u = t) /\
  (threads k !! u = Some Exchange -> exists k', klock_advance u k = Some k' /\ threads k' !! u = Some Waiting) /\
  (threads k !! u = Some TryExchange -> exists k', klock_advance u k = Some k' /\ threads k' !! u = Some Outside).
Proof.
  intros Hr Ht. pose proof (klock_ok_reachable _ _ (klock_init_ok ts) Hr) as Hk.
  assert (Hx : exchange k = true).
  { unfold exchange. assert (locked k = 1) as -> by (apply Hk; by exists t). done. }
  split_and!.
  - intros Hu. by apply (held_once k Hk).
  - intros Hu. unfold klock_advance. rewrite Hu, Hx. eexists. split; [done|]. apply lookup_insert_eq.
  - intros Hu. unfold klock_advance. rewrite Hu, Hx. eexists. split; [done|]. apply lookup_insert_eq.
Qed.

(** Run steps that are given by the calls and the threads. *)
Definition do_step (c : option KlockCall) (t : nat) (k : Klock) : Klock :=
  default k (match c with Some c => begin_call c t k | None => klock_advance t k end).

Lemma do_step_step c t k : match c with Some c => begin_call c t k | None => klock_advance t k end <> None -> step k (do_step c t k).
Proof.
  unfold do_step. destruct c as [c|].
  - destruct (begin_call c t k) eqn:E; [|done]. intros _. by eapply step_begin.
  - destruct (klock_advance t k) eqn:E; [|done]. intros _. by eapply step_advance.
Qed.

(** Thread 1 locks while thread 2 has begun to. *)
Definition sample_klock : Klock :=
  do_step None 1 (do_step (Some klock_lock) 2 (do_step (Some klock_lock) 1 (klock_init [1; 2]%nat))).

Lemma klock_mutual_exclusion_witness :
  threads sample_klock !! 1%nat = Some Holding /\
  exists k', klock_advance 2 sample_klock = Some k' /\ threads k' !! 2%nat = Some Waiting.
Proof.
  split; [vm_compute; reflexivity|].
  apply (klock_mutual_exclusion [1; 2]%nat sample_klock 1%nat 2%nat); [|vm_compute; reflexivity|vm_compute; reflexivity].
  unfold sample_klock. eapply rtc_l; [apply (do_step_step (Some klock_lock) 1); vm_compute; discriminate|].
  eapply rtc_l; [apply (do_step_step (Some klock_lock) 2); vm_compute; discriminate|].
  eapply rtc_l; [apply (do_step_step None 1); vm_compute; discriminate|]. apply rtc_refl.
Defined.

(** A thread that waits gets a free lock with its next two operations, if no other
    thread comes between them. *)
Lemma klock_free_taken k t :
  locked k = 0 -> threads k !! t = Some Waiting ->
  exists k1 k2, klock_advance t k = Some k1 /\ klock_advance t k1 = Some k2 /\ threads k2 !! t = Some Holding.
Proof.
  intros H0 Ht. unfold klock_advance. rewrite Ht, H0. simpl. eexists _, _. split; [done|].
  simpl. rewrite lookup_insert_eq. unfold exchange. simpl. split; [done|]. apply lookup_insert_eq.
Qed.
