(* ===== verification/Logging.v ===== *)
(** The log records of the domains (src/src/dominit0/logging.c): how a record is put
    together in its buffer and which sinks receive it.

    The platform's sinks and what they answer are those of the kernel log
    ([KlogEnv]); [LoggingState] holds the static variables of the file.  The lock
    that serialises emitters is the spin lock of klock.c; one emitter is modelled. *)
From S2P Require Import Prelude ConfigTypes Klog KlogFacts.

Definition DOMAIN_LOG_MAX_RECORD : nat := 512.

Record LoggingState := mkLogging {
  logging_bindings : list KlogSinkBinding;
  logging_initialized : bool
}.

Definition string_equal (left right : FacetString) : bool :=
  ((fs_length left =? fs_length right)%nat &&
   ((fs_length left =? 0)%nat ||
    match fs_data left, fs_data right with
    | Some l, Some r => firstn (fs_length left) l =b firstn (fs_length left) r
    | _, _ => false
    end))%bool.

Definition valid_level (level : Z) : bool :=
  ((level =? LogLevel_None) || (level =? LogLevel_Fatal) || (level =? LogLevel_Error) ||
   (level =? LogLevel_Warning) || (level =? LogLevel_Info) || (level =? LogLevel_Debug) ||
   (level =? LogLevel_Trace))%bool.

(** ** The record *)

(** The bytes in use; [None] is the failure of the C function. *)
Definition append_char (buffer : bytes) (value : Z) : option bytes :=
  if (length buffer =? DOMAIN_LOG_MAX_RECORD)%nat then None else Some (buffer ++ [value]).

Definition append_string (buffer : bytes) (value : FacetString) : option bytes :=
  if ((negb (fs_length value =? 0)%nat && bool_decide (fs_data value = None)) ||
      (DOMAIN_LOG_MAX_RECORD - length buffer <? fs_length value)%nat)%bool then None
  else Some (buffer ++ firstn (fs_length value) (default [] (fs_data value))).

(** The digits, least significant first. *)
Fixpoint decimal_digits (room : nat) (value : Z) : bytes :=
  match room with
  | O => []
  | S n => (48 + value mod 10) :: (if value / 10 =? 0 then [] else decimal_digits n (value / 10))
  end.

(** The loop over the digits, most significant first.  Its condition is that a digit
    could not be appended, so that it ends after the first digit that could. *)
Definition append_digits (buffer ds : bytes) : option bytes :=
  match ds with
  | [] => Some buffer
  | d :: _ => append_char buffer d
  end.

Definition append_uint (buffer : bytes) (value : Z) : option bytes :=
  append_digits buffer (rev (decimal_digits 24 value)).

Definition literal (s : bytes) : FacetString := mkString (Some s) (length s).

Definition log_record (domain_id : Z) (component message : FacetString) : option bytes :=
  buffer ← append_string [] (literal (B "[domain "));
  buffer ← append_uint buffer domain_id;
  buffer ← append_string buffer (literal (B "] "));
  buffer ← append_string buffer component;
  buffer ← append_string buffer (literal (B ": "));
  buffer ← append_string buffer message;
  append_char buffer 10.

(** ** Emission *)

Section Logging.
Context (env : KlogEnv).

(** The first binding of the name that has a sink. *)
Definition bound_sink (name : FacetString) (bindings : list KlogSinkBinding) : option sink :=
  match find (fun b => string_equal name (binding_name b) && bool_decide (is_Some (binding_sink b)))%bool bindings with
  | Some b => binding_sink b
  | None => None
  end.

Definition call_emit (k : sink) (output : bytes) : K FacetResult := fun s =>
  if sink_has_emit env k then Done (sink_emit env (trace s) k output) (add_trace k output s) else Fault.

Fixpoint emit_routes (bindings : list KlogSinkBinding) (routes : list Sink) (level : Z) (output : bytes)
    (result : FacetResult) : K FacetResult :=
  match routes with
  | [] => kret result
  | r :: rest =>
      if ((sink_level r <? level) || (sink_level r =? LogLevel_None))%bool
      then emit_routes bindings rest level output result
      else match bound_sink (Klog.sink_name r) bindings with
           | None => emit_routes bindings rest level output result
           | Some k =>
               do code <- call_emit k output;
               emit_routes bindings rest level output (if bool_decide (code = FACET_OK) then result else FACET_ERROR)
           end
  end.

Definition dominit0_logging_emit (l : LoggingState) (config : option ILoggingConfig) (domain_id level : Z)
    (component message : FacetString) : K FacetResult :=
  match config with
  | Some (mkLoggingConfig (Some (code, data, count))) =>
      if (negb (logging_initialized l) || negb (valid_level level) ||
          (negb (fs_length component =? 0)%nat && bool_decide (fs_data component = None)) ||
          (negb (fs_length message =? 0)%nat && bool_decide (fs_data message = None)))%bool
      then kret FACET_INVALID_ARGUMENT
      else match log_record domain_id component message with
           | None => kret FACET_BUFFER_TOO_SMALL
           | Some output =>
               if negb (bool_decide (code = FACET_OK)) then kret FACET_ERROR
               else emit_routes (logging_bindings l) (firstn count (default [] data)) level output FACET_OK
           end
  | _ => kret FACET_INVALID_ARGUMENT
  end.

(** ** Start *)

Context (platform_get_logging_sink : option bytes -> option sink) (calloc_ok : bool).

(** [None] is a required sink that the platform does not have. *)
Fixpoint bind_sinks (definitions : list FacetConfigLoggingSinkDefinition) : K (option (list KlogSinkBinding)) :=
  match definitions with
  | [] => kret (Some [])
  | d :: rest =>
      match ConfigTypes.sink_name d with
      | None => fault
      | Some name =>
          let bound k := do bs <- bind_sinks rest;
                         kret ((fun bs => mkBinding (mkString (Some name) (length name)) k :: bs) <$> bs) in
          match platform_get_logging_sink (sink_type d) with
          | Some k => bound (Some k)
          | None =>
              if sink_required d then
                klog env LOG_ERROR (Some (B "Required logging sink %s (%s) is unavailable" ++ [10]))
                  [VString (Some name); VString (sink_type d)] ;> kret None
              else
                klog env LOG_WARN (Some (B "Optional logging sink %s (%s) is unavailable; disabling it" ++ [10]))
                  [VString (Some name); VString (sink_type d)] ;> bound None
          end
      end
  end.

(** The part of the system configuration that logging reads. *)
Record LoggingSystem := mkLoggingSystem {
  ls_domain_count : nat;
  ls_root_index : nat;
  ls_sinks : list FacetConfigLoggingSinkDefinition;
  ls_root_config : ILoggingConfig
}.

(** The bindings are those of a start that succeeds; without one nothing reads them. *)
Definition dominit0_logging_initialize (system : option LoggingSystem) (l : LoggingState) : K (Z * LoggingState) :=
  match system with
  | None => kret (-1, l)
  | Some system =>
      if (logging_initialized l || (ls_domain_count system =? 0)%nat ||
          (ls_domain_count system <=? ls_root_index system)%nat ||
          (negb (length (ls_sinks system) =? 0)%nat && negb calloc_ok))%bool then kret (-1, l)
      else
        do bindings <- bind_sinks (ls_sinks system);
        match bindings with
        | None => kret (-1, l)
        | Some bindings =>
            do code <- klog_init_postboot env (Some (ls_root_config system))
                         (if (length bindings =? 0)%nat then None else Some bindings) (length bindings);
            if negb (code =? 0) then
              klog env LOG_ERROR (Some (B "Domain 0 logging configuration could not be activated" ++ [10])) [] ;>
              kret (-1, l)
            else kret (0, mkLogging bindings true)
        end
  end.

End Logging.

(** ** What the sinks receive *)

Lemma append_string_literal buffer s :
  append_string buffer (literal s) =
  if (length s <=? DOMAIN_LOG_MAX_RECORD - length buffer)%nat then Some (buffer ++ s) else None.
Proof.
  unfold append_string, literal. cbn [fs_data fs_length]. rewrite bool_decide_false, andb_false_r by done.
  cbn [orb default]. unfold id.
  rewrite firstn_all, Nat.leb_antisym. by destruct (_ <? _)%nat.
Qed.

(** The digit that [append_uint] writes. *)
Definition leading_digit (value : Z) : Z := List.last (decimal_digits 24 value) 48.

Lemma append_uint_digit buffer value : append_uint buffer value = append_char buffer (leading_digit value).
Proof.
  unfold append_uint, leading_digit. destruct (decimal_digits 24 value) as [|d ds] eqn:E; [done|].
  destruct (exists_last (l := d :: ds)) as (front & x & ->); [done|].
  rewrite rev_app_distr, last_last. done.
Qed.

(** The text of a record. *)
Definition record_text (domain_id : Z) (component message : bytes) : bytes :=
  B "[domain " ++ [leading_digit domain_id] ++ B "] " ++ component ++ B ": " ++ message ++ [10].

Lemma log_record_text domain_id component message :
  log_record domain_id (literal component) (literal message) =
  if (length component + length message + 14 <=? DOMAIN_LOG_MAX_RECORD)%nat
  then Some (record_text domain_id component message) else None.
Proof.
  set (head := B "[domain " ++ [leading_digit domain_id] ++ B "] ").
  assert (H1 : append_string [] (literal (B "[domain ")) = Some (B "[domain ")) by reflexivity.
  assert (H2 : append_uint (B "[domain ") domain_id = Some (B "[domain " ++ [leading_digit domain_id]))
    by (rewrite append_uint_digit; reflexivity).
  assert (H3 : append_string (B "[domain " ++ [leading_digit domain_id]) (literal (B "] ")) = Some head) by reflexivity.
  unfold log_record, record_text. rewrite H1. cbn [mbind option_bind]. rewrite H2. cbn [mbind option_bind].
  rewrite H3. cbn [mbind option_bind]. clear H1 H2 H3.
  assert (Hh : length head = 11%nat) by done.
  rewrite append_string_literal, Hh. unfold DOMAIN_LOG_MAX_RECORD.
  destruct (Nat.leb_spec (length component) (512 - 11)); cbn [mbind option_bind];
    [|rewrite (proj2 (Nat.leb_gt _ _)) by lia; done].
  rewrite append_string_literal, length_app, Hh. simpl (length (B ": ")). unfold DOMAIN_LOG_MAX_RECORD.
  destruct (Nat.leb_spec 2 (512 - (11 + length component))); cbn [mbind option_bind];
    [|rewrite (proj2 (Nat.leb_gt _ _)) by lia; done].
  rewrite append_string_literal, !length_app, Hh. simpl (length (B ": ")). unfold DOMAIN_LOG_MAX_RECORD.
  destruct (Nat.leb_spec (length message) (512 - (11 + length component + 2))); cbn [mbind option_bind];
    [|rewrite (proj2 (Nat.leb_gt _ _)) by lia; done].
  unfold append_char. rewrite !length_app, Hh. simpl (length (B ": ")). unfold DOMAIN_LOG_MAX_RECORD.
  destruct (Nat.eqb_spec (11 + length component + 2 + length message) 512).
  - rewrite (proj2 (Nat.leb_gt _ _)) by lia. done.
  - rewrite (proj2 (Nat.leb_le _ _)) by lia. unfold head. by rewrite <- !app_assoc.
Qed.

Section Delivery.
Context (env : KlogEnv).

(** The sinks of the routes that admit a level, in order. *)
Definition targets (bindings : list KlogSinkBinding) (routes : list Sink) (level : Z) : list sink :=
  omap (fun r => if ((sink_level r <? level) || (sink_level r =? LogLevel_None))%bool then None
                 else bound_sink (Klog.sink_name r) bindings) routes.

Definition deliver (output : bytes) (ks : list sink) (s : KlogState) : KlogState :=
  fold_left (fun s k => add_trace k output s) ks s.

Lemma deliver_trace output ks s : trace (deliver output ks s) = trace s ++ map (fun k => (k, output)) ks.
Proof.
  revert s. induction ks as [|k ks IH]; intros s; simpl; [by rewrite app_nil_r|].
  rewrite IH. simpl. by rewrite <- app_assoc.
Qed.

(** Every sink accepts the record, each after the ones before it. *)
Definition all_accept (tr : list (sink * bytes)) (output : bytes) (ks : list sink) : Prop :=
  forall i k, ks !! i = Some k ->
    sink_emit env (tr ++ map (fun k => (k, output)) (firstn i ks)) k output = FACET_OK.

Lemma all_accept_cons tr output k ks :
  all_accept tr output (k :: ks) <->
  sink_emit env tr k output = FACET_OK /\ all_accept (tr ++ [(k, output)]) output ks.
Proof.
  split.
  - intros H. split; [specialize (H 0%nat k eq_refl); by rewrite app_nil_r in H|].
    intros i j Hi. specialize (H (S i) j Hi). simpl in H. by rewrite <- app_assoc.
  - intros [H1 H2] [|i] j Hi; simpl in Hi; [injection Hi as <-; by rewrite app_nil_r|].
    specialize (H2 i j Hi). simpl. by rewrite <- app_assoc in H2.
Qed.

Lemma emit_routes_deliver bindings routes level output result s :
  (forall k, sink_has_emit env k = true) -> result = FACET_OK \/ result = FACET_ERROR ->
  exists code, emit_routes env bindings routes level output result s =
    Done code (deliver output (targets bindings routes level) s) /\ (code = FACET_OK \/ code = FACET_ERROR) /\
    (code = FACET_OK <-> result = FACET_OK /\ all_accept (trace s) output (targets bindings routes level)).
Proof.
  intros Hemit. revert result s. induction routes as [|r routes IH]; intros result s Hr.
  { exists result. split_and!; [done|done|]. split; [|by intros []]. intros ->. split; [done|]. by intros i k. }
  unfold targets. simpl. fold (targets bindings routes level). destruct (_ || _)%bool; [by apply IH|].
  destruct (bound_sink _ _) as [k|]; [|by apply IH]. unfold kbind, call_emit. rewrite Hemit.
  set (code := sink_emit env (trace s) k output).
  destruct (IH (if bool_decide (code = FACET_OK) then result else FACET_ERROR) (add_trace k output s))
    as (last & H1 & H2 & H3); [case_bool_decide; auto|].
  exists last. split_and!; [done|done|]. rewrite H3. simpl trace. rewrite all_accept_cons. fold code.
  case_bool_decide; naive_solver.
Qed.

(** C35: A record of a domain reaches every sink that the domain's routes admit at
    its level, in the order of the routes and in one piece, and no other sink, even
    if some of them fail; the call reports success exactly if they all accept the
    record.  A record that does not fit the buffer is refused as a whole. *)
Theorem logging_emit_delivers l code sinks domain_id level component message s :
  (forall k, sink_has_emit env k = true) -> logging_initialized l = true -> valid_level level = true ->
  code = FACET_OK ->
  let ks := targets (logging_bindings l) sinks level in
  let output := record_text domain_id component message in
  let emit := dominit0_logging_emit env l (Some (mkLoggingConfig (Some (code, Some sinks, length sinks)))) domain_id level
                (literal component) (literal message) s in
  if (length component + length message + 14 <=? DOMAIN_LOG_MAX_RECORD)%nat
  then exists result, emit = Done result (deliver output ks s) /\
    trace (deliver output ks s) = trace s ++ map (fun k => (k, output)) ks /\
    (result = FACET_OK <-> all_accept (trace s) output ks)
  else emit = Done FACET_BUFFER_TOO_SMALL s.
Proof.
  intros Hemit Hi Hl -> ks output emit. unfold emit, dominit0_logging_emit. rewrite Hi, Hl, log_record_text.
  simpl fs_data. rewrite !bool_decide_false, !andb_false_r by done. simpl orb.
  destruct (_ <=? _)%nat; [|done]. rewrite bool_decide_true by done. simpl default. unfold id. rewrite firstn_all. simpl negb.
  destruct (emit_routes_deliver (logging_bindings l) sinks level output FACET_OK s Hemit) as (result & H1 & _ & H3); [by left|].
  exists result. split_and!; [exact H1|apply deliver_trace|]. rewrite H3. naive_solver.
Qed.

End Delivery.

(** *** The number of the domain *)

Lemma decimal_room n value :
  0 <= value < 10 ^ Z.of_nat n -> (0 < n)%nat -> decimal_digits (S n) value = decimal_digits n value.
Proof.
  revert value. induction n as [|n IH]; intros value Hv Hn; [lia|].
  change (decimal_digits (S (S n)) value) with
    ((48 + value mod 10) :: (if value / 10 =? 0 then [] else decimal_digits (S n) (value / 10))).
  change (decimal_digits (S n) value) with
    ((48 + value mod 10) :: (if value / 10 =? 0 then [] else decimal_digits n (value / 10))).
  f_equal. destruct (Z.eqb_spec (value / 10) 0) as [|Hne]; [done|].
  rewrite Nat2Z.inj_succ, Z.pow_succ_r in Hv by lia.
  apply IH; [dlia|]. destruct n; [simpl in Hv; dlia|lia].
Qed.

Lemma leading_digit_drops value : 10 <= value < 2 ^ 64 -> leading_digit value = leading_digit (value / 10).
Proof.
  intros Hv. unfold leading_digit. rewrite (decimal_room 23 (value / 10)).
  - change (decimal_digits 24 value) with
      ((48 + value mod 10) :: (if value / 10 =? 0 then [] else decimal_digits 23 (value / 10))).
    rewrite (proj2 (Z.eqb_neq (value / 10) 0)) by dlia. done.
  - change (10 ^ Z.of_nat 23) with (10 ^ 23). dlia.
  - lia.
Qed.

(** The records of different domains cannot be told apart: only the first digit
    of the number of a domain is printed, so that dropping the last digit of a
    number of two digits or more does not change what any sink receives. *)
Theorem logging_confuses_domains env l config domain_id level component message s :
  10 <= domain_id < 2 ^ 64 ->
  dominit0_logging_emit env l config domain_id level (literal component) (literal message) s =
  dominit0_logging_emit env l config (domain_id / 10) level (literal component) (literal message) s.
Proof.
  intros Hd. unfold dominit0_logging_emit. rewrite !log_record_text. unfold record_text.
  by rewrite (leading_digit_drops domain_id Hd).
Qed.

Definition sample_env : KlogEnv := mkEnv (fun _ => true) (fun _ _ _ => FACET_OK) (fun _ => true) (fun _ => true) false 0.
Definition sample_klog : KlogState := mkKlog false false [] None [] false None 0 0 false None [].
Definition sample_logging : LoggingState :=
  mkLogging [mkBinding (literal (B "serial")) (Some 4%nat); mkBinding (literal (B "screen")) (Some 5%nat)] true.

Lemma logging_emit_delivers_witness :
  exists result, dominit0_logging_emit sample_env sample_logging
      (Some (mkLoggingConfig (Some (FACET_OK, Some [mkConfigured (literal (B "screen")) 40; mkConfigured (literal (B "serial")) 60], 2%nat))))
      7 50 (literal (B "dominit")) (literal (B "up")) sample_klog =
    Done result (deliver (B "[domain 7] dominit: up" ++ [10]) [4%nat] sample_klog).
Proof.
  destruct (logging_emit_delivers sample_env sample_logging FACET_OK
    [mkConfigured (literal (B "screen")) 40; mkConfigured (literal (B "serial")) 60] 7 50 (B "dominit") (B "up") sample_klog)
    as (result & H & _ & _); [reflexivity|reflexivity|reflexivity|reflexivity|].
  exists result. exact H.
Defined.

Lemma logging_confuses_domains_witness :
  record_text 12 (B "dominit") (B "up") = record_text 1 (B "dominit") (B "up") /\
  dominit0_logging_emit sample_env sample_logging None 12 50 (literal (B "dominit")) (literal (B "up")) sample_klog =
  dominit0_logging_emit sample_env sample_logging None 1 50 (literal (B "dominit")) (literal (B "up")) sample_klog.
Proof.
  split; [vm_compute; reflexivity|].
  apply (logging_confuses_domains sample_env sample_logging None 12 50 (B "dominit") (B "up") sample_klog). lia.
Defined.
