(* ===== verification/Kmalloc.v ===== *)
(** The bootstrap heap of dominit0 (src/src/dominit0/kmalloc.c): a bump allocator
    over a static array that can give back or resize its most recent block.

    Pointers into the heap are offsets, the null pointer is [None].  The ghost
    list of live blocks of [heap_step] is what the callers still use; the
    invariant says that those blocks are aligned, inside the heap and disjoint. *)
From Stdlib Require Import Sorting.Sorted.
From S2P Require Import Prelude.

Definition KMALLOC_BOOTSTRAP_HEAP_SIZE : Z := 90 * 1024 * 1024.
Definition KMALLOC_ALIGNMENT : Z := 8.

Record Heap := mkHeap {
  bootstrap_heap_used : Z;
  bootstrap_last_ptr : option Z;
  bootstrap_last_size : Z;
  bootstrap_last_old_used : Z
}.

Definition bootstrap_heap : Heap := mkHeap 0 None 0 0.

(** [(x + KMALLOC_ALIGNMENT - 1) & ~(KMALLOC_ALIGNMENT - 1)] on [size_t]. *)
Definition align_up (x : Z) : Z :=
  Z.land (u64 (x + KMALLOC_ALIGNMENT - 1)) (Z.lxor SIZE_MAX (KMALLOC_ALIGNMENT - 1)).

Definition kmalloc_impl_early (size : Z) (h : Heap) : option Z * Heap :=
  let old_used := bootstrap_heap_used h in
  let pos := align_up (bootstrap_heap_used h) in
  if ((KMALLOC_BOOTSTRAP_HEAP_SIZE <? pos) ||
      (KMALLOC_BOOTSTRAP_HEAP_SIZE - pos <? size))%bool then (None, h)
  else (Some pos, mkHeap (pos + size) (Some pos) size old_used).

Definition kfree_impl_early (p : option Z) (h : Heap) : Heap :=
  if bool_decide (p <> bootstrap_last_ptr h) then h
  else mkHeap (bootstrap_last_old_used h) None 0 0.

Definition krealloc_impl_early (p : option Z) (size : Z) (h : Heap) : option Z * Heap :=
  match p with
  | None => kmalloc_impl_early size h
  | Some pos =>
      if size =? 0 then (None, kfree_impl_early p h)
      else if bool_decide (p <> bootstrap_last_ptr h) then (None, h)
      else if u64 (KMALLOC_BOOTSTRAP_HEAP_SIZE - pos) <? size then (None, h)
      else (p, mkHeap (pos + size) (bootstrap_last_ptr h) size (bootstrap_last_old_used h))
  end.

(** The wrappers in the early phase: [kmalloc] panics when the heap is exhausted. *)
Definition kmalloc (size : Z) (h : Heap) : option (Z * Heap) :=
  match kmalloc_impl_early size h with
  | (Some p, h') => Some (p, h')
  | (None, _) => None
  end.
Definition kfree (p : option Z) (h : Heap) : Heap := kfree_impl_early p h.
Definition krealloc (p : option Z) (size : Z) (h : Heap) : option Z * Heap :=
  krealloc_impl_early p size h.

(** [free] and [calloc] of the C library on this heap; the memory is zeroed. *)
Definition free (p : option Z) (h : Heap) : Heap :=
  match p with Some _ => kfree p h | None => h end.

(** The null pointer for an overflowing product, else the block or a panic. *)
Definition calloc (count size : Z) (h : Heap) : option (option Z * Heap) :=
  if (negb (size =? 0) && (SIZE_MAX / size <? count))%bool then Some (None, h)
  else match kmalloc (count * size) h with
    | Some (p, h') => Some (Some p, h')
    | None => None
    end.

(** ** The heap in use *)

Definition block := (Z * Z)%type.   (** position and size *)

(** One operation of a caller, with the blocks live before and after it.  Every call of
    the three functions is a step but two: an allocation of no bytes and a free of the
    null pointer. *)
Inductive heap_step : Heap * list block -> Heap * list block -> Prop :=
  | step_alloc size h live p h' :
      0 < size <= SIZE_MAX -> kmalloc_impl_early size h = (Some p, h') ->
      heap_step (h, live) (h', (p, size) :: live)
  | step_exhausted size h live h' :
      0 <= size <= SIZE_MAX -> kmalloc_impl_early size h = (None, h') ->
      heap_step (h, live) (h', live)
  | step_free p size h before after :
      heap_step (h, before ++ (p, size) :: after) (kfree_impl_early (Some p) h, before ++ after)
  | step_realloc p size size' h before after h' :
      0 < size' <= SIZE_MAX -> krealloc_impl_early (Some p) size' h = (Some p, h') ->
      heap_step (h, before ++ (p, size) :: after) (h', before ++ (p, size') :: after)
  | step_realloc_null size h live p h' :
      0 < size <= SIZE_MAX -> krealloc_impl_early None size h = (Some p, h') ->
      heap_step (h, live) (h', (p, size) :: live)
  | step_realloc_null_exhausted size h live h' :
      0 <= size <= SIZE_MAX -> krealloc_impl_early None size h = (None, h') ->
      heap_step (h, live) (h', live)
  | step_realloc_zero p size h before after q h' :
      krealloc_impl_early (Some p) 0 h = (q, h') ->
      heap_step (h, before ++ (p, size) :: after) (h', before ++ after)
  | step_realloc_refused p size size' h before after h' :
      0 < size' <= SIZE_MAX -> krealloc_impl_early (Some p) size' h = (None, h') ->
      heap_step (h, before ++ (p, size) :: after) (h', before ++ (p, size) :: after).

Inductive heap_reachable : Heap * list block -> Prop :=
  | reach_start : heap_reachable (bootstrap_heap, [])
  | reach_step s s' : heap_reachable s -> heap_step s s' -> heap_reachable s'.

Definition block_ok (b : block) : Prop :=
  0 <= fst b /\ 0 < snd b /\ fst b mod KMALLOC_ALIGNMENT = 0 /\
  fst b + snd b <= KMALLOC_BOOTSTRAP_HEAP_SIZE.

(** [a] ends before [b] starts. *)
Definition below (a b : block) : Prop := fst a + snd a <= fst b.

(** The invariant: live blocks, the most recent first, lie one above the other
    below [used]; the block of [last_ptr], if live, is the most recent one. *)
Record heap_inv (h : Heap) (live : list block) : Prop := {
  hi_used : 0 <= bootstrap_heap_used h <= KMALLOC_BOOTSTRAP_HEAP_SIZE;
  hi_blocks : Forall block_ok live;
  hi_order : StronglySorted (fun a b => below b a) live;
  hi_top : Forall (fun b => fst b + snd b <= bootstrap_heap_used h) live;
  hi_last : forall p, bootstrap_last_ptr h = Some p ->
    exists rest, live = (p, bootstrap_last_size h) :: rest /\
      bootstrap_heap_used h = p + bootstrap_last_size h /\
      0 <= bootstrap_last_old_used h <= p /\
      Forall (fun b => fst b + snd b <= bootstrap_last_old_used h) rest
}.

Lemma align_up_spec x :
  0 <= x <= KMALLOC_BOOTSTRAP_HEAP_SIZE ->
  x <= align_up x < x + KMALLOC_ALIGNMENT /\ align_up x mod KMALLOC_ALIGNMENT = 0.
Proof.
  intros Hx. unfold KMALLOC_BOOTSTRAP_HEAP_SIZE in Hx. unfold align_up, KMALLOC_ALIGNMENT, u64.
  rewrite Z.mod_small by lia. change (8 - 1) with (Z.ones 3). rewrite land_clear_low by lia.
  change (2 ^ 3) with 8. dlia.
Qed.

Lemma heap_inv_alloc size h live p h' :
  heap_inv h live -> 0 < size -> kmalloc_impl_early size h = (Some p, h') ->
  heap_inv h' ((p, size) :: live).
Proof.
  intros [] Hs Ha. unfold kmalloc_impl_early in Ha. destruct (_ || _)%bool eqn:Eg; [done|].
  injection Ha as <- <-. destruct (align_up_spec _ hi_used0) as [Hal Hmod]. bool_props.
  constructor; simpl.
  - lia.
  - constructor; [|done]. unfold block_ok. simpl. split_and!; [lia|lia|done|lia].
  - constructor; [done|]. eapply Forall_impl; [exact hi_top0|]. unfold below. simpl. lia.
  - constructor; [simpl; lia|]. eapply Forall_impl; [exact hi_top0|]. simpl. lia.
  - intros q [= <-]. exists live. split_and!; [done|done|lia|lia|done].
Qed.

Lemma heap_inv_exhausted size h live h' :
  heap_inv h live -> kmalloc_impl_early size h = (None, h') -> heap_inv h' live.
Proof. intros Hi Ha. unfold kmalloc_impl_early in Ha. by destruct (_ || _)%bool; simplify_eq. Qed.

(** A live block with the address of the last one is the last one. *)
Lemma last_is_head h before p size after q size' rest :
  heap_inv h (before ++ (p, size) :: after) -> before ++ (p, size) :: after = (q, size') :: rest ->
  p = q -> before = [] /\ size = size' /\ after = rest.
Proof.
  intros [] He ->. destruct before as [|b before]; simpl in He; [by simplify_eq|]. exfalso. simplify_eq.
  simpl in hi_order0. inversion hi_order0 as [|? ? _ Hall]; subst. rewrite Forall_forall in Hall.
  specialize (Hall (q, size)). inversion hi_blocks0 as [|? ? _ Hb]; subst.
  rewrite Forall_forall in Hb. specialize (Hb (q, size)). unfold below, block_ok in *. simpl in *.
  assert ((q, size) ∈ before ++ (q, size) :: after) as Hin.
  { apply elem_of_app. right. left. }
  specialize (Hall Hin). specialize (Hb Hin). lia.
Qed.

Lemma StronglySorted_remove {A} (R : A -> A -> Prop) before x after :
  StronglySorted R (before ++ x :: after) -> StronglySorted R (before ++ after).
Proof.
  induction before as [|b before IH]; simpl; intros H; inversion H as [|? ? Hs Hf]; subst; [done|].
  constructor; [by apply IH|]. rewrite Forall_app, Forall_cons in Hf. apply Forall_app. tauto.
Qed.

Lemma Forall_remove {A} (P : A -> Prop) before x after :
  Forall P (before ++ x :: after) -> Forall P (before ++ after).
Proof. rewrite !Forall_app, Forall_cons. tauto. Qed.

Lemma heap_inv_free h before p size after :
  heap_inv h (before ++ (p, size) :: after) ->
  heap_inv (kfree_impl_early (Some p) h) (before ++ after).
Proof.
  intros Hi. pose proof Hi as []. unfold kfree_impl_early. destruct (bool_decide _) eqn:El; bool_props.
  - constructor; try done; try (by eapply Forall_remove); [by eapply StronglySorted_remove|].
    intros q Hq. destruct (hi_last0 q Hq) as (rest & He & Hu & Ho & Hr).
    destruct before as [|b before]; simpl in He; [exfalso; congruence|]. injection He as -> <-.
    exists (before ++ after). split_and!; try done; try lia. by eapply Forall_remove.
  - apply dec_stable in El. symmetry in El. destruct (hi_last0 p El) as (rest & He & Hu & Ho & Hr).
    destruct (last_is_head _ _ _ _ _ _ _ _ Hi He eq_refl) as (-> & -> & ->). simpl.
    constructor; simpl; try done.
    + inversion hi_blocks0 as [|? ? [? [? [? ?]]] _]; subst. simpl in *. lia.
    + by inversion hi_blocks0.
    + by inversion hi_order0.
Qed.

Lemma heap_inv_realloc h before p size after size' h' :
  heap_inv h (before ++ (p, size) :: after) -> 0 < size' ->
  krealloc_impl_early (Some p) size' h = (Some p, h') ->
  heap_inv h' (before ++ (p, size') :: after).
Proof.
  intros Hi Hs Hr. pose proof Hi as []. unfold krealloc_impl_early in Hr.
  destruct (size' =? 0); [done|]. destruct (bool_decide _) eqn:El; [done|].
  destruct (_ <? size') eqn:Esz; [done|]. injection Hr as <-. bool_props. apply dec_stable in El. symmetry in El.
  destruct (hi_last0 p El) as (rest & He & Hu & Ho & Hrest).
  destruct (last_is_head _ _ _ _ _ _ _ _ Hi He eq_refl) as (-> & -> & ->). simpl in *.
  inversion hi_blocks0 as [|? ? [Hp [Hp2 [Hm Hle]]] Hb]; subst. simpl in *.
  assert (u64 (KMALLOC_BOOTSTRAP_HEAP_SIZE - p) = KMALLOC_BOOTSTRAP_HEAP_SIZE - p) as Hw.
  { unfold u64. apply Z.mod_small. unfold KMALLOC_BOOTSTRAP_HEAP_SIZE in *. lia. }
  inversion hi_order0 as [|? ? Hord Hbel]; subst.
  constructor; simpl; try lia.
  - constructor; [|done]. unfold block_ok. simpl. split_and!; [lia|lia|done|lia].
  - constructor; [done|]. eapply Forall_impl; [exact Hbel|]. unfold below. done.
  - constructor; [simpl; lia|]. eapply Forall_impl; [exact Hrest|]. simpl. lia.
  - intros q Hq. rewrite El in Hq. simplify_eq. exists rest. split_and!; try done; lia.
Qed.

Lemma heap_inv_realloc_refused h live p size' h' :
  heap_inv h live -> 0 < size' -> krealloc_impl_early (Some p) size' h = (None, h') -> heap_inv h' live.
Proof.
  intros Hi Hs Hr. unfold krealloc_impl_early in Hr. destruct (size' =? 0) eqn:E0; bool_props; [lia|].
  repeat case_hyp Hr; by simplify_eq.
Qed.

Lemma heap_reachable_inv s : heap_reachable s -> heap_inv (fst s) (snd s).
Proof.
  induction 1 as [|s s' _ IH Hstep].
  - constructor; simpl; try constructor; try done.
  - destruct Hstep; simpl in *.
    + eapply heap_inv_alloc; [exact IH|lia|done].
    + by eapply heap_inv_exhausted.
    + by eapply heap_inv_free.
    + eapply heap_inv_realloc; [exact IH|lia|done].
    + eapply heap_inv_alloc; [exact IH|lia|done].
    + by eapply heap_inv_exhausted.
    + match goal with H : (None, _) = (_, _) |- _ => injection H as _ <- end. by eapply heap_inv_free.
    + eapply heap_inv_realloc_refused; [exact IH| |done]. lia.
Qed.

(** C14: Whatever sequence of allocations, resizes (also from the null pointer and to
    nothing) and frees of their blocks the callers make, as long as they allocate at
    least one byte and do not free the null pointer, the blocks they hold are aligned,
    inside the bootstrap heap and pairwise disjoint, and the next block starts above
    all of them.  Both conditions are needed: [kfree_null_aliases_live_block] and
    [kmalloc_zero_aliases_live_block] hand out a live block again. *)
Theorem bootstrap_heap_blocks_disjoint (h : Heap) (live : list block)
    (Hreach : heap_reachable (h, live)) :
  Forall block_ok live /\
  (forall i j a b, (i < j)%nat -> live !! i = Some a -> live !! j = Some b -> below b a) /\
  (forall size p h', 0 < size -> kmalloc_impl_early size h = (Some p, h') ->
     block_ok (p, size) /\ Forall (fun b => below b (p, size)) live).
Proof.
  apply heap_reachable_inv in Hreach. simpl in Hreach. pose proof Hreach as []. split; [done|]. split.
  - intros i j a b Hij Ha Hb. clear - hi_order0 Hij Ha Hb. revert i j Hij Ha Hb.
    induction hi_order0 as [|x l Hs IH Hall]; intros i j Hij Ha Hb; [done|].
    destruct j as [|j]; [lia|]. destruct i as [|i]; simpl in *.
    + simplify_eq. by eapply Forall_lookup_1 in Hall.
    + eapply (IH i j); [lia|done|done].
  - intros size p h' Hs Ha. destruct (heap_inv_alloc _ _ _ _ _ Hreach Hs Ha) as [_ Hb Ho _ _].
    inversion Hb; inversion Ho; by subst.
Qed.

Lemma bootstrap_heap_blocks_disjoint_witness :
  Forall block_ok [(24, 8); (0, 24)].
Proof.
  assert (heap_reachable (mkHeap 32 (Some 24) 8 24, [(24, 8); (0, 24)])) as Hr.
  { eapply reach_step; [eapply reach_step; [apply reach_start|]|].
    - apply (step_alloc 24 _ _ 0 (mkHeap 24 (Some 0) 24 0)); [unfold SIZE_MAX; lia|reflexivity].
    - apply (step_alloc 8); [unfold SIZE_MAX; lia|reflexivity]. }
  apply (bootstrap_heap_blocks_disjoint _ _ Hr).
Defined.

(** Freeing the null pointer corrupts the bootstrap heap when no block is the
    most recent one: after two allocations and a free of the second,
    [kfree(NULL)] takes the null [bootstrap_last_ptr] for a match and resets the
    heap, so that the next allocation returns the address of a live block. *)
Theorem kfree_null_aliases_live_block :
  let '(p, h1) := kmalloc_impl_early 16 bootstrap_heap in
  let '(q, h2) := kmalloc_impl_early 16 h1 in
  let h3 := kfree q h2 in
  bootstrap_heap_used h3 = 16 /\ bootstrap_heap_used (kfree None h3) = 0 /\
  fst (kmalloc_impl_early 16 (kfree None h3)) = p.
Proof. vm_compute. auto. Qed.

(** A block of no bytes has the address of the next one: freeing it gives back the
    block of another caller. *)
Theorem kmalloc_zero_aliases_live_block :
  let '(p, h1) := kmalloc_impl_early 0 bootstrap_heap in
  let '(q, h2) := kmalloc_impl_early 16 h1 in
  p = q /\ fst (kmalloc_impl_early 16 (kfree p h2)) = q.
Proof. vm_compute. auto. Qed.

(** [calloc] never multiplies past [size_t]: it returns a block of exactly
    [count * size] bytes, or the null pointer when the product does not fit. *)
Theorem calloc_no_overflow (count size : Z) (h h' : Heap) (p : option Z)
    (Hcount : 0 <= count <= SIZE_MAX) (Hsize : 0 <= size <= SIZE_MAX)
    (Hcalloc : calloc count size h = Some (p, h')) :
  match p with
  | Some _ => 0 <= count * size <= SIZE_MAX /\ kmalloc_impl_early (count * size) h = (p, h')
  | None => SIZE_MAX < count * size /\ h' = h
  end.
Proof.
  unfold calloc in Hcalloc. destruct (_ && _)%bool eqn:Eo; bool_props.
  - simplify_eq. split; [|done]. apply Z.lt_nge. intros Hc.
    assert (count <= SIZE_MAX / size) by (apply Z.div_le_lower_bound; lia). lia.
  - unfold kmalloc in Hcalloc. destruct (kmalloc_impl_early (count * size) h) as [[q|] hq]; [|done].
    simplify_eq. split; [|done]. apply andb_false_iff in Eo as [Eo|Eo]; bool_props; [subst; unfold SIZE_MAX; lia|].
    split; [nia|]. destruct (decide (size = 0)) as [->|]; [unfold SIZE_MAX; lia|].
    pose proof (Z.mul_div_le SIZE_MAX size ltac:(lia)). nia.
Qed.

Lemma calloc_no_overflow_witness :
  SIZE_MAX < 2 ^ 63 * 2 /\ calloc (2 ^ 63) 2 bootstrap_heap = Some (None, bootstrap_heap).
Proof.
  split; [|reflexivity].
  exact (proj1 (calloc_no_overflow (2 ^ 63) 2 bootstrap_heap bootstrap_heap None
    ltac:(unfold SIZE_MAX; lia) ltac:(unfold SIZE_MAX; lia) eq_refl)).
Defined.
