(* ===== verification/Effects.v ===== *)
(** Effects shared by the service models: a computation threads a state and ends
    with a value, with a result code of libfacet or with a [Fault], which stands for
    undefined behaviour such as a null dereference or an access outside a buffer. *)
From S2P Require Import Prelude.

Inductive result (A : Type) := Ok (a : A) | Err (code : FacetResult) | Fault.
Arguments Ok {A}.
Arguments Err {A}.
Arguments Fault {A}.

Definition Eff (S A : Type) := S -> result A * S.

Definition fret {S A} (a : A) : Eff S A := fun s => (Ok a, s).
Definition ferr {S A} (code : FacetResult) : Eff S A := fun s => (Err code, s).
Definition ffault {S A} : Eff S A := fun s => (Fault, s).
Definition fbind {S A C} (m : Eff S A) (k : A -> Eff S C) : Eff S C := fun s =>
  match m s with
  | (Ok a, s') => k a s'
  | (Err code, s') => (Err code, s')
  | (Fault, s') => (Fault, s')
  end.

(** Run a step and keep its result code, as [result = step(...)] does. *)
Definition fcatch {S A} (m : Eff S A) : Eff S FacetResult := fun s =>
  match m s with
  | (Ok _, s') => (Ok FACET_OK, s')
  | (Err code, s') => (Ok code, s')
  | (Fault, s') => (Fault, s')
  end.

Definition fget {S A} (f : S -> A) : Eff S A := fun s => (Ok (f s), s).
Definition fput {S} (f : S -> S) : Eff S unit := fun s => (Ok tt, f s).

(** A pure step that may fail. *)
Definition flift {S A} (r : result A) : Eff S A := fun s => (r, s).

Notation "'run' x <- m ; k" := (fbind m (fun x => k))
  (at level 10, x name, m at level 100, k at level 200) : facet_scope.
Notation "m ;; k" := (fbind m (fun _ => k)) (at level 100, right associativity) : facet_scope.

Lemma fbind_eq {S A C} (m : Eff S A) (k : A -> Eff S C) s :
  fbind m k s = match m s with
                | (Ok a, s') => k a s'
                | (Err code, s') => (Err code, s')
                | (Fault, s') => (Fault, s')
                end.
Proof. done. Qed.

Lemma fcatch_eq {S A} (m : Eff S A) s :
  fcatch m s = match m s with
               | (Ok _, s') => (Ok FACET_OK, s')
               | (Err code, s') => (Ok code, s')
               | (Fault, s') => (Fault, s')
               end.
Proof. done. Qed.

(** The result of a step that returns only a code. *)
Definition of_code (code : FacetResult) : result unit :=
  match code with FACET_OK => Ok tt | _ => Err code end.

(** What a successful sequence went through. *)
Lemma fbind_ok {S A C} (m : Eff S A) (k : A -> Eff S C) s c s' :
  fbind m k s = (Ok c, s') -> exists a s1, m s = (Ok a, s1) /\ k a s1 = (Ok c, s').
Proof. unfold fbind. destruct (m s) as [[a|code|] s1]; [eauto|done..]. Qed.

(** Continue with the value of a step, or handle its failure. *)
Definition ftry {S A C} (m : Eff S A) (k : A -> Eff S C) (handler : Eff S C) : Eff S C := fun s =>
  match m s with
  | (Ok a, s') => k a s'
  | (Err _, s') => handler s'
  | (Fault, s') => (Fault, s')
  end.

(** Clean up after a step, whatever its result is. *)
Definition ffinally {S A} (m : Eff S A) (cleanup : S -> S) : Eff S A := fun s =>
  match m s with (r, s') => (r, cleanup s') end.

(** ** Weakest preconditions: the step does not fault, and its value or its error
    code and the state after it are as described *)

Section Awp.
Context {S : Type}.

Definition awp {A} (m : Eff S A) (s : S) (Q : A -> S -> Prop) (E : FacetResult -> S -> Prop) : Prop :=
  match m s with
  | (Ok a, s') => Q a s'
  | (Err c, s') => E c s'
  | (Fault, _) => False
  end.

Lemma awp_mono {A} (m : Eff S A) s (Q Q' : A -> S -> Prop) (E E' : FacetResult -> S -> Prop) :
  awp m s Q E -> (forall a s', Q a s' -> Q' a s') -> (forall c s', E c s' -> E' c s') -> awp m s Q' E'.
Proof. unfold awp. destruct (m s) as [[a|c|] s']; auto. Qed.

(** What a run that ended with a value shows. *)
Lemma awp_ok {A} (m : Eff S A) s Q E a : awp m s Q E -> fst (m s) = Ok a -> Q a (snd (m s)).
Proof. unfold awp. destruct (m s) as [r s']. simpl. by intros Hm ->. Qed.

Lemma awp_ret {A} (a : A) s (Q : A -> S -> Prop) (E : FacetResult -> S -> Prop) : Q a s -> awp (fret a) s Q E.
Proof. done. Qed.

Lemma awp_err {A} c s (Q : A -> S -> Prop) (E : FacetResult -> S -> Prop) : E c s -> awp (ferr c) s Q E.
Proof. done. Qed.

Lemma awp_get {A} (f : S -> A) s (Q : A -> S -> Prop) (E : FacetResult -> S -> Prop) : Q (f s) s -> awp (fget f) s Q E.
Proof. done. Qed.

Lemma awp_put (f : S -> S) s (Q : unit -> S -> Prop) (E : FacetResult -> S -> Prop) : Q tt (f s) -> awp (fput f) s Q E.
Proof. done. Qed.

Lemma awp_bind {A C} (m : Eff S A) (k : A -> Eff S C) s Q E :
  awp m s (fun a s' => awp (k a) s' Q E) E -> awp (fbind m k) s Q E.
Proof. unfold awp, fbind. destruct (m s) as [[a|c|] s']; auto. Qed.

Lemma awp_catch {A} (m : Eff S A) s Q E :
  awp m s (fun _ s' => Q FACET_OK s') (fun c s' => Q c s') -> awp (fcatch m) s Q E.
Proof. unfold awp, fcatch. destruct (m s) as [[a|c|] s']; auto. Qed.

Lemma awp_try {A C} (m : Eff S A) (k : A -> Eff S C) handler s Q E :
  awp m s (fun a s' => awp (k a) s' Q E) (fun _ s' => awp handler s' Q E) -> awp (ftry m k handler) s Q E.
Proof. unfold awp, ftry. destruct (m s) as [[a|c|] s']; auto. Qed.

Lemma awp_finally {A} (m : Eff S A) cleanup s Q E :
  awp m s (fun a s' => Q a (cleanup s')) (fun c s' => E c (cleanup s')) -> awp (ffinally m cleanup) s Q E.
Proof. unfold awp, ffinally. destruct (m s) as [[a|c|] s']; auto. Qed.

Lemma awp_assoc {A C D} (m : Eff S A) (f : A -> Eff S C) (k : C -> Eff S D) s Q E :
  awp (fbind (fbind m f) k) s Q E -> awp (fbind m (fun x => fbind (f x) k)) s Q E.
Proof. unfold awp, fbind. destruct (m s) as [[a|c|] s']; auto. Qed.

End Awp.

(** ** The same with a condition under which the step may fault *)

Section Fwp.
Context {S : Type}.

Definition fwp {A} (m : Eff S A) (s : S) (Q : A -> S -> Prop) (E : FacetResult -> S -> Prop) (F : Prop) : Prop :=
  match m s with
  | (Ok a, s') => Q a s'
  | (Err c, s') => E c s'
  | (Fault, _) => F
  end.

Lemma fwp_mono {A} (m : Eff S A) s (Q Q' : A -> S -> Prop) (E E' : FacetResult -> S -> Prop) (F F' : Prop) :
  fwp m s Q E F -> (forall a s', Q a s' -> Q' a s') -> (forall c s', E c s' -> E' c s') -> (F -> F') -> fwp m s Q' E' F'.
Proof. unfold fwp. destruct (m s) as [[a|c|] s']; auto. Qed.

Lemma awp_fwp {A} (m : Eff S A) s (Q : A -> S -> Prop) (E : FacetResult -> S -> Prop) (F : Prop) :
  awp m s Q E -> fwp m s Q E F.
Proof. unfold awp, fwp. destruct (m s) as [[a|c|] s']; tauto. Qed.

Lemma fwp_bind {A C} (m : Eff S A) (k : A -> Eff S C) s Q E F :
  fwp m s (fun a s' => fwp (k a) s' Q E F) E F -> fwp (fbind m k) s Q E F.
Proof. unfold fwp, fbind. destruct (m s) as [[a|c|] s']; auto. Qed.

Lemma fwp_catch {A} (m : Eff S A) s Q E F :
  fwp m s (fun _ s' => Q FACET_OK s') (fun c s' => Q c s') F -> fwp (fcatch m) s Q E F.
Proof. unfold fwp, fcatch. destruct (m s) as [[a|c|] s']; auto. Qed.

End Fwp.

(** ** What holds if a step ends with a value *)

Section Pwp.
Context {S : Type}.

Definition pwp {A} (m : Eff S A) (s : S) (Q : A -> S -> Prop) : Prop :=
  match m s with (Ok a, s') => Q a s' | _ => True end.

Lemma pwp_mono {A} (m : Eff S A) s (Q Q' : A -> S -> Prop) :
  pwp m s Q -> (forall a s', Q a s' -> Q' a s') -> pwp m s Q'.
Proof. unfold pwp. destruct (m s) as [[a|c|] s']; auto. Qed.

Lemma pwp_and {A} (m : Eff S A) s (Q Q' : A -> S -> Prop) :
  pwp m s Q -> pwp m s Q' -> pwp m s (fun a s' => Q a s' /\ Q' a s').
Proof. unfold pwp. destruct (m s) as [[a|c|] s']; auto. Qed.

Lemma pwp_bind {A C} (m : Eff S A) (k : A -> Eff S C) s Q :
  pwp m s (fun a s' => pwp (k a) s' Q) -> pwp (fbind m k) s Q.
Proof. unfold pwp, fbind. destruct (m s) as [[a|c|] s']; auto. Qed.

Lemma pwp_try {A C} (m : Eff S A) (k : A -> Eff S C) handler s Q :
  pwp m s (fun a s' => pwp (k a) s' Q) -> (forall s', pwp handler s' Q) -> pwp (ftry m k handler) s Q.
Proof. intros Hm Hh. unfold pwp, ftry in *. destruct (m s) as [[a|c|] s']; [done|apply Hh|done]. Qed.

Lemma pwp_true {A} (m : Eff S A) s (Q : A -> S -> Prop) : (forall a s', Q a s') -> pwp m s Q.
Proof. intros HQ. unfold pwp. by destruct (m s) as [[a|c|] s']. Qed.

Lemma pwp_assoc {A C D} (m : Eff S A) (f : A -> Eff S C) (g : C -> Eff S D) s Q :
  pwp (fbind (fbind m f) g) s Q -> pwp (fbind m (fun a => fbind (f a) g)) s Q.
Proof. unfold pwp, fbind. by destruct (m s) as [[a|c|] s']. Qed.

(** Another code for a failure. *)
Lemma pwp_rename {A C} (m : Eff S A) c (k : A -> Eff S C) s Q :
  pwp (fbind m k) s Q -> pwp (fbind (ftry m fret (ferr c)) k) s Q.
Proof. unfold pwp, fbind, ftry. by destruct (m s) as [[a|e|] s']. Qed.

Lemma pwp_ret {A} (a : A) s (Q : A -> S -> Prop) : Q a s -> pwp (fret a) s Q.
Proof. done. Qed.

Lemma pwp_err {A} c s (Q : A -> S -> Prop) : pwp (ferr c : Eff S A) s Q.
Proof. done. Qed.

Lemma pwp_put (f : S -> S) s (Q : unit -> S -> Prop) : Q tt (f s) -> pwp (fput f) s Q.
Proof. done. Qed.

Lemma pwp_get {A} (f : S -> A) s (Q : A -> S -> Prop) : Q (f s) s -> pwp (fget f) s Q.
Proof. done. Qed.

End Pwp.
