(* ===== verification/Initrd.v ===== *)
(** The read-only boot file system (src/src/dominit0/initrd.c): the newc CPIO
    parser, path resolution, lookup, reads, directory listing and the execute
    check.

    The image is a list of bytes and an entry keeps the slice of it that holds the
    file.  A read outside the image is the outcome [OutOfBounds].  Exporting an
    interface belongs to the RPC platform: [export_interface] is a parameter that
    gives the handle of the n-th export, and [malloc_ok] answers the n-th
    allocation. *)
From S2P Require Import Prelude.

Definition CPIO_HEADER_SIZE : Z := 110.
Definition CPIO_MAX_ENTRIES : Z := 1024.
Definition FACET_PATH_MAX : Z := 4096.

(** A handle is null or a platform object. *)
Definition Handle := option Z.

Record InitrdEntry := mkInitrdEntry {
  entry_path : bytes;
  entry_data : bytes;
  entry_size : Z;
  entry_directory : bool;
  entry_mode : Z;
  entry_uid : Z;
  entry_gid : Z;
  file_handle : Handle;
  directory_handle : Handle;
  unix_metadata_handle : Handle
}.

Record FacetInitrd := mkInitrd {
  initrd_entries : list InitrdEntry;
  store_handle : Handle;
  initrd_exports : nat      (** the interfaces exported so far *)
}.

Definition set_file_handle (h : Handle) (e : InitrdEntry) : InitrdEntry :=
  mkInitrdEntry (entry_path e) (entry_data e) (entry_size e) (entry_directory e) (entry_mode e)
    (entry_uid e) (entry_gid e) h (directory_handle e) (unix_metadata_handle e).
Definition set_directory_handle (h : Handle) (e : InitrdEntry) : InitrdEntry :=
  mkInitrdEntry (entry_path e) (entry_data e) (entry_size e) (entry_directory e) (entry_mode e)
    (entry_uid e) (entry_gid e) (file_handle e) h (unix_metadata_handle e).
Definition set_metadata_handle (h : Handle) (e : InitrdEntry) : InitrdEntry :=
  mkInitrdEntry (entry_path e) (entry_data e) (entry_size e) (entry_directory e) (entry_mode e)
    (entry_uid e) (entry_gid e) (file_handle e) (directory_handle e) h.
Definition set_entries (l : list InitrdEntry) (i : FacetInitrd) : FacetInitrd :=
  mkInitrd l (store_handle i) (initrd_exports i).
Definition count_export (i : FacetInitrd) : FacetInitrd :=
  mkInitrd (initrd_entries i) (store_handle i) (S (initrd_exports i)).
Definition set_store_handle (h : Handle) (i : FacetInitrd) : FacetInitrd :=
  mkInitrd (initrd_entries i) h (initrd_exports i).

(** ** Parsing the archive *)

Definition align4 (value : Z) : Z := Z.land (u64 (value + 3)) (Z.lxor SIZE_MAX 3).

Definition initrd_hex_digit (c : Z) : option Z :=
  if ((48 <=? c) && (c <=? 57))%bool then Some (c - 48)
  else if ((97 <=? c) && (c <=? 102))%bool then Some (c - 97 + 10)
  else if ((65 <=? c) && (c <=? 70))%bool then Some (c - 65 + 10)
  else None.

Fixpoint hex_loop (text : bytes) (value : Z) : option Z :=
  match text with
  | [] => Some value
  | c :: rest =>
      match initrd_hex_digit c with
      | None => None
      | Some digit =>
          if (SIZE_MAX - digit) / 16 <? value then None
          else hex_loop rest (u64 (value * 16 + digit))
      end
  end.

Definition hex_field (text : bytes) : option Z := hex_loop text 0.

(** [while (length >= 2 && name[0] == '.' && name[1] == '/')]. *)
Fixpoint skip_dot_slash (name : bytes) : bytes :=
  match name with
  | a :: b :: rest => if ((a =? 46) && (b =? 47))%bool then skip_dot_slash rest else name
  | _ => name
  end.

Fixpoint skip_slashes (name : bytes) : bytes :=
  match name with
  | c :: rest => if c =? 47 then skip_slashes rest else name
  | [] => []
  end.

Definition starts_with (c : Z) (l : bytes) : bool := bool_decide (head l = Some c).

(** The loop that refuses NUL, empty and parent components; [first] says that the
    position starts a component. *)
Fixpoint path_refused (first : bool) (name : bytes) : bool :=
  match name with
  | [] => false
  | c :: rest =>
      ((c =? 0) || ((c =? 47) && starts_with 47 rest) ||
       ((c =? 46) && starts_with 46 rest && first &&
        (bool_decide (tail rest = []) || starts_with 47 (tail rest))) ||
       path_refused (c =? 47) rest)%bool
  end.

Definition canonical_path (name : bytes) : option bytes :=
  let name := skip_slashes (skip_dot_slash name) in
  if ((length name =? 0)%nat || (name =b [46]))%bool then None
  else if path_refused true name then None
  else Some (47 :: name).

(** The bytes [offset, offset + count) of the image. *)
Definition slice (data : bytes) (offset count : Z) : option bytes :=
  if ((0 <=? offset) && (0 <=? count) && (offset + count <=? zlen data))%bool
  then Some (firstn (Z.to_nat count) (skipn (Z.to_nat offset) data))
  else None.

Inductive parsed :=
  | Parsed (entries : list InitrdEntry)
  | Refused
  | OutOfBounds
  | OutOfFuel.

Definition S_IFMT : Z := 0xF000.
Definition S_IFREG : Z := 0x8000.
Definition S_IFDIR : Z := 0x4000.

(** One archive member: the next offset and the entry, if it has one; [None] for
    the trailer. *)
Inductive member :=
  | Trailer
  | Member (next : Z) (entry : option InitrdEntry)
  | MemberRefused
  | MemberOutOfBounds.

Definition new_entry (path contents : bytes) (size mode uid gid : Z) : InitrdEntry :=
  mkInitrdEntry path contents size (Z.land mode S_IFMT =? S_IFDIR) (u32 mode) (u32 uid) (u32 gid)
    None None None.

Definition magic_ok (header : bytes) : bool :=
  ((firstn 6 header =b B "070701") || (firstn 6 header =b B "070702"))%bool.

Section Create.
Context (malloc_ok : nat -> bool).

Definition parse_member (data : bytes) (offset : Z) (count : nat) : member :=
  let size := zlen data in
  match slice data offset CPIO_HEADER_SIZE with
  | None => MemberOutOfBounds
  | Some header =>
      if negb (magic_ok header) then MemberRefused
      else
        let field at_ := hex_field (firstn 8 (skipn at_ header)) in
        match field 14%nat, field 22%nat, field 30%nat, field 54%nat, field 94%nat with
        | Some mode, Some uid, Some gid, Some file_size, Some name_size =>
            if name_size =? 0 then MemberRefused
            else
              let name_offset := u64 (offset + CPIO_HEADER_SIZE) in
              if ((size <? name_offset) || (u64 (size - name_offset) <? name_size))%bool
              then MemberRefused
              else
                match slice data name_offset name_size with
                | None => MemberOutOfBounds
                | Some name =>
                    if negb (bool_decide (last name = Some 0)) then MemberRefused
                    else
                      let data_offset := align4 (name_offset + name_size) in
                      if ((size <? data_offset) || (u64 (size - data_offset) <? file_size))%bool
                      then MemberRefused
                      else if cstring name =b B "TRAILER!!!" then Trailer
                      else
                        let next := align4 (data_offset + file_size) in
                        if cstring name =b B "." then Member next None
                        else if (negb (Z.land mode S_IFMT =? S_IFREG) &&
                                 negb (Z.land mode S_IFMT =? S_IFDIR))%bool then MemberRefused
                        else if Z.of_nat count =? CPIO_MAX_ENTRIES then MemberRefused
                        else
                          match canonical_path (removelast name), slice data data_offset file_size with
                          | None, _ => MemberRefused
                          | _, None => MemberOutOfBounds
                          | Some path, Some contents =>
                              Member next (Some (new_entry path contents file_size mode uid gid))
                          end
                end
        | _, _, _, _, _ => MemberRefused
        end
  end.

(** Each member takes one allocation for its path and one for the grown array. *)
Fixpoint create_loop (fuel : nat) (data : bytes) (offset : Z) (entries : list InitrdEntry)
    (allocations : nat) : parsed :=
  if u64 (offset + CPIO_HEADER_SIZE) <=? zlen data then
    match fuel with
    | O => OutOfFuel
    | S f =>
        match parse_member data offset (length entries) with
        | MemberOutOfBounds => OutOfBounds
        | MemberRefused => Refused
        | Trailer => Parsed entries
        | Member next None => create_loop f data next entries allocations
        | Member next (Some entry) =>
            if negb (malloc_ok allocations) then Refused
            else if existsb (fun e => entry_path entry =b entry_path e) entries then Refused
            else if negb (malloc_ok (S allocations)) then Refused
            else create_loop f data next (entries ++ [entry]) (S (S allocations))
        end
    end
  else Parsed entries.

Definition root_entry : InitrdEntry := mkInitrdEntry [47] [] 0 true 0x41ED 0 0 None None None.

Definition facet_initrd_create (data : option bytes) : parsed :=
  match data with
  | None => Refused
  | Some data =>
      if zlen data <? CPIO_HEADER_SIZE then Refused
      else if negb (malloc_ok 0 && malloc_ok 1 && malloc_ok 2)%bool then Refused
      else create_loop (length data) data 0 [root_entry] 3
  end.

End Create.

(** ** Lookup *)

Definition find_entry_index (entries : list InitrdEntry) (path : bytes) (directory : bool)
  : option nat :=
  if negb (starts_with 47 path) then None
  else index_of (fun e => (bool_decide (entry_directory e = directory) && (entry_path e =b path))%bool)
         entries.

Definition find_entry (entries : list InitrdEntry) (path : bytes) (directory : bool)
  : option InitrdEntry :=
  match find_entry_index entries path directory with
  | Some i => entries !! i
  | None => None
  end.

(** The component at the end of a path. *)
Fixpoint last_component (acc path : bytes) : bytes :=
  match path with
  | [] => acc
  | c :: rest => if c =? 47 then last_component [] rest else last_component (acc ++ [c]) rest
  end.

Definition path_requires_directory (path : bytes) : bool :=
  (bool_decide (last path = Some 47) ||
   (last_component [] path =b [46]) || (last_component [] path =b [46; 46]))%bool.

(** ** Path resolution *)

Definition drop_slashes (l : bytes) : bytes := skip_slashes l.

Fixpoint take_component (l : bytes) : bytes * bytes :=
  match l with
  | [] => ([], [])
  | c :: rest =>
      if c =? 47 then ([], l)
      else let (component, rest') := take_component rest in (c :: component, rest')
  end.

(** The output length after the last component is removed, before the slash:
    [while (output_length > 1 && output[output_length - 1] != '/') output_length--]. *)
Fixpoint unwind (output : bytes) (length : nat) : nat :=
  match length with
  | S (S n as m) => if bool_decide (output !! m = Some 47) then length else unwind output m
  | _ => length
  end.

Definition pop_component (output : bytes) : bytes :=
  if (1 <? length output)%nat then
    let n := unwind output (length output) in
    firstn (if (1 <? n)%nat then n - 1 else n) output
  else output.

Definition push_component (output component : bytes) : option bytes :=
  let separator := if (length output =? 1)%nat then 0 else 1 in
  if ((FACET_PATH_MAX <? zlen output + separator) ||
      (FACET_PATH_MAX - (zlen output + separator) <? zlen component))%bool then None
  else Some ((if separator =? 0 then output else output ++ [47]) ++ component).

Fixpoint resolve_loop (fuel : nat) (path output : bytes) : option bytes :=
  match path with
  | [] => Some output
  | _ :: _ =>
      match fuel with
      | O => None
      | S f =>
          let (component, rest) := take_component (drop_slashes path) in
          if ((length component =? 0)%nat || (component =b [46]))%bool then resolve_loop f rest output
          else if component =b [46; 46] then resolve_loop f rest (pop_component output)
          else match push_component output component with
            | None => None
            | Some output' => resolve_loop f rest output'
            end
      end
  end.

(** The result code, the resolved path and whether it names a directory; [malloc]
    says whether the output buffer can be allocated. *)
Definition resolve_path (malloc : bool) (base path : option bytes)
  : FacetResult * option (bytes * bool) :=
  match base, path with
  | Some base, Some path =>
      if (negb (starts_with 47 base) || (length path =? 0)%nat ||
          (FACET_PATH_MAX <? zlen path) || bool_decide (0 ∈ path))%bool
      then (FACET_INVALID_ARGUMENT, None)
      else if negb malloc then (FACET_OUT_OF_MEMORY, None)
      else
        let start := if starts_with 47 path then Some [47]
                     else if FACET_PATH_MAX <? zlen base then None else Some base in
        match start with
        | None => (FACET_INVALID_ARGUMENT, None)
        | Some output =>
            match resolve_loop (length path) path output with
            | None => (FACET_INVALID_ARGUMENT, None)
            | Some resolved => (FACET_OK, Some (resolved, path_requires_directory path))
            end
        end
  | _, _ => (FACET_INVALID_ARGUMENT, None)
  end.

(** ** Objects and handles *)

Section Handles.
Context (export_interface : nat -> FacetResult * Handle) (malloc : bool).

Definition return_handle (handle : Handle) : FacetResult * Handle :=
  match handle with
  | None => (FACET_INVALID_HANDLE, None)
  | Some _ => (FACET_OK, handle)
  end.

(** Export an interface of the [index]-th entry unless it has a handle. *)
Definition ensure_exported (get : InitrdEntry -> Handle) (set : Handle -> InitrdEntry -> InitrdEntry)
    (initrd : FacetInitrd) (index : nat) : FacetResult * FacetInitrd :=
  match initrd_entries initrd !! index with
  | None => (FACET_NOT_FOUND, initrd)
  | Some entry =>
      match get entry with
      | Some _ => (FACET_OK, initrd)
      | None =>
          let (result, handle) := export_interface (initrd_exports initrd) in
          let initrd := count_export initrd in
          if bool_decide (result = FACET_OK)
          then (FACET_OK, set_entries (alter (set handle) index (initrd_entries initrd)) initrd)
          else (result, initrd)
      end
  end.

Definition entry_handle (get : InitrdEntry -> Handle) (initrd : FacetInitrd) (index : nat) : Handle :=
  match initrd_entries initrd !! index with Some e => get e | None => None end.

(** Open the entry of a path: its handle and the store after the export. *)
Definition open_entry (directory : bool) (initrd : FacetInitrd) (path : bytes)
  : FacetResult * Handle * FacetInitrd :=
  let get := if directory then directory_handle else file_handle in
  let set := if directory then set_directory_handle else set_file_handle in
  match find_entry_index (initrd_entries initrd) path directory with
  | None => (FACET_NOT_FOUND, None, initrd)
  | Some index =>
      let (result, initrd') := ensure_exported get set initrd index in
      if negb (bool_decide (result = FACET_OK)) then (FACET_OUT_OF_MEMORY, None, initrd')
      else let (r, h) := return_handle (entry_handle get initrd' index) in (r, h, initrd')
  end.

Definition store_open_file (initrd : FacetInitrd) (path : option bytes)
  : FacetResult * Handle * FacetInitrd :=
  match resolve_path malloc (Some [47]) path with
  | (FACET_OK, Some (resolved, requires_directory)) =>
      if requires_directory then (FACET_NOT_FOUND, None, initrd)
      else open_entry false initrd resolved
  | (result, _) => (result, None, initrd)
  end.

Definition store_open_directory (initrd : FacetInitrd) (path : option bytes)
  : FacetResult * Handle * FacetInitrd :=
  match resolve_path malloc (Some [47]) path with
  | (FACET_OK, Some (resolved, _)) => open_entry true initrd resolved
  | (result, _) => (result, None, initrd)
  end.

(** Opens relative to a directory object. *)
Definition directory_open_file (initrd : FacetInitrd) (directory : InitrdEntry) (path : option bytes)
  : FacetResult * Handle * FacetInitrd :=
  match resolve_path malloc (Some (entry_path directory)) path with
  | (FACET_OK, Some (resolved, requires_directory)) =>
      if requires_directory then (FACET_NOT_FOUND, None, initrd)
      else store_open_file initrd (Some resolved)
  | (result, _) => (result, None, initrd)
  end.

Definition directory_open_directory (initrd : FacetInitrd) (directory : InitrdEntry)
    (path : option bytes) : FacetResult * Handle * FacetInitrd :=
  match resolve_path malloc (Some (entry_path directory)) path with
  | (FACET_OK, Some (resolved, _)) => store_open_directory initrd (Some resolved)
  | (result, _) => (result, None, initrd)
  end.

Definition facet_initrd_node_metadata_handle (initrd : FacetInitrd) (index : nat)
  : FacetResult * Handle * FacetInitrd :=
  let (result, initrd') := ensure_exported unix_metadata_handle set_metadata_handle initrd index in
  if bool_decide (result = FACET_OK)
  then let (r, h) := return_handle (entry_handle unix_metadata_handle initrd' index) in (r, h, initrd')
  else (result, None, initrd').

Definition facet_initrd_export (initrd : FacetInitrd) : FacetResult * Handle * FacetInitrd :=
  match store_handle initrd with
  | Some _ => let (r, h) := return_handle (store_handle initrd) in (r, h, initrd)
  | None =>
      let (result, handle) := export_interface (initrd_exports initrd) in
      let initrd := count_export initrd in
      if bool_decide (result = FACET_OK) then
        let (r, h) := return_handle handle in (r, h, set_store_handle handle initrd)
      else (result, None, initrd)
  end.

End Handles.

(** ** Reads and listings *)

(** The bytes that a read returns; [offset] is 64 bits, [maximum] 32 bits. *)
Definition file_read_at (entry : InitrdEntry) (offset maximum : Z) : FacetResult * option bytes :=
  if entry_size entry <? offset then (FACET_INVALID_ARGUMENT, None)
  else
    let remaining := entry_size entry - offset in
    let count := if remaining <? maximum then remaining else maximum in
    (FACET_OK, slice (entry_data entry) offset count).

Definition facet_initrd_node_read (node : option InitrdEntry) (offset maximum : Z)
  : FacetResult * option bytes :=
  match node with
  | None => (FACET_INVALID_ARGUMENT, None)
  | Some e => if entry_directory e then (FACET_INVALID_ARGUMENT, None) else file_read_at e offset maximum
  end.

Definition facet_initrd_node_size (node : option InitrdEntry) : FacetResult * option Z :=
  match node with
  | Some e => if entry_directory e then (FACET_INVALID_ARGUMENT, None)
              else (FACET_OK, Some (entry_size e))
  | None => (FACET_INVALID_ARGUMENT, None)
  end.

(** The name below a directory, if the path is an immediate child of it. *)
Definition immediate_child (directory path : bytes) : option bytes :=
  let prefix :=
    if directory =b [47] then
      if (starts_with 47 path && negb (length path =? 1)%nat)%bool then Some 1%nat else None
    else
      let n := length directory in
      if ((firstn n path =b directory) && bool_decide (path !! n = Some 47) &&
          negb (S n =? length path)%nat)%bool then Some (S n) else None in
  match prefix with
  | None => None
  | Some n =>
      let name := skipn n path in
      if bool_decide (47 ∈ name) then None else Some name
  end.

Inductive EntryType := EntryType_File | EntryType_Directory.

(** The loop of [directory_list]: the entries found and whether the end was seen. *)
Fixpoint list_loop (directory : bytes) (cursor maximum : Z) (entries : list InitrdEntry)
    (seen count : Z) : list (bytes * EntryType) * bool :=
  match entries with
  | [] => ([], true)
  | e :: rest =>
      match immediate_child directory (entry_path e) with
      | None => list_loop directory cursor maximum rest seen count
      | Some name =>
          if seen <? cursor then list_loop directory cursor maximum rest (seen + 1) count
          else if count =? maximum then ([], false)
          else
            let (found, end_) := list_loop directory cursor maximum rest (seen + 1) (count + 1) in
            ((name, if entry_directory e then EntryType_Directory else EntryType_File) :: found, end_)
      end
  end.

(** The entries, the next cursor and the end flag. *)
Definition directory_list (entries : list InitrdEntry) (directory : InitrdEntry)
    (cursor maximum : Z) (calloc : bool)
  : FacetResult * (list (bytes * EntryType) * Z * bool) :=
  if zlen entries <? cursor then (FACET_INVALID_ARGUMENT, ([], cursor, true))
  else if (negb (maximum =? 0) && negb calloc)%bool then (FACET_OUT_OF_MEMORY, ([], cursor, true))
  else
    let (found, end_) := list_loop (entry_path directory) cursor maximum entries 0 0 in
    (FACET_OK, (found, cursor + zlen found, end_)).

Definition facet_initrd_node_list (entries : list InitrdEntry) (node : option InitrdEntry)
    (cursor maximum : Z) (calloc : bool)
  : FacetResult * (list (bytes * EntryType) * Z * bool) :=
  match node with
  | Some d => if entry_directory d then directory_list entries d cursor maximum calloc
              else (FACET_INVALID_ARGUMENT, ([], cursor, true))
  | None => (FACET_INVALID_ARGUMENT, ([], cursor, true))
  end.

(** ** Trusted lookup and the execute check *)

Definition facet_initrd_find_file (entries : list InitrdEntry) (path : bytes)
  : FacetResult * option (bytes * Z) :=
  if ((length path =? 0)%nat || (FACET_PATH_MAX <? zlen path) || negb (starts_with 47 path))%bool
  then (FACET_NOT_FOUND, None)
  else match find_entry entries path false with
    | None => (FACET_NOT_FOUND, None)
    | Some e => (FACET_OK, Some (entry_data e, entry_size e))
    end.

Definition entry_allows (entry : InitrdEntry) (uid gid : Z) (admin : bool) (requested : Z) : bool :=
  if (admin || (uid =? 0))%bool then
    negb (negb (Z.land requested 1 =? 0) && (Z.land (entry_mode entry) 0x49 =? 0))%bool
  else
    let granted := if uid =? entry_uid entry then Z.land (Z.shiftr (entry_mode entry) 6) 7
                   else if gid =? entry_gid entry then Z.land (Z.shiftr (entry_mode entry) 3) 7
                   else Z.land (entry_mode entry) 7 in
    Z.land granted requested =? requested.

(** The offset after the slashes at [i], and the end of the component there. *)
Definition component_end (path : bytes) (i : nat) : nat :=
  let rest := drop_slashes (skipn i path) in
  (length path - length rest + length (fst (take_component rest)))%nat.

(** The loop over the directories on the way. *)
Fixpoint check_loop (fuel : nat) (entries : list InitrdEntry) (path : bytes) (uid gid : Z)
    (admin : bool) (i : nat) : option FacetResult :=
  if (i <? length path)%nat then
    match fuel with
    | O => None
    | S f =>
        let end_ := component_end path i in
        if (end_ =? length path)%nat then Some FACET_OK
        else match find_entry entries (firstn end_ path) true with
          | None => Some FACET_NOT_FOUND
          | Some directory =>
              if negb (entry_allows directory uid gid admin 1) then Some FACET_ACCESS_DENIED
              else check_loop f entries path uid gid admin end_
          end
    end
  else Some FACET_OK.

(** [None] when the loop does not finish. *)
Definition facet_initrd_check_execute (entries : list InitrdEntry) (path : bytes) (uid gid : Z)
    (admin malloc : bool) : option FacetResult :=
  if negb (starts_with 47 path) then Some FACET_INVALID_ARGUMENT
  else if FACET_PATH_MAX <? zlen path then Some FACET_INVALID_ARGUMENT
  else match find_entry entries [47] true with
    | None => Some FACET_ACCESS_DENIED
    | Some root =>
        if negb (entry_allows root uid gid admin 1) then Some FACET_ACCESS_DENIED
        else if negb malloc then Some FACET_OUT_OF_MEMORY
        else match check_loop (length path) entries path uid gid admin 1 with
          | Some FACET_OK =>
              match find_entry entries path false with
              | None => Some FACET_NOT_FOUND
              | Some file => if entry_allows file uid gid admin 1 then Some FACET_OK
                             else Some FACET_ACCESS_DENIED
              end
          | r => r
          end
    end.

Definition facet_initrd_open_node (malloc : bool) (entries : list InitrdEntry) (base path : option bytes)
    (directory : bool) : FacetResult * option nat :=
  match resolve_path malloc base path with
  | (FACET_OK, Some (resolved, requires_directory)) =>
      match (if (requires_directory && negb directory)%bool then None
             else find_entry_index entries resolved directory) with
      | None => (FACET_NOT_FOUND, None)
      | Some index => (FACET_OK, Some index)
      end
  | (result, _) => (result, None)
  end.
