(* ===== verification/InitrdFacts.v ===== *)
(** The boot file system: the archive parser is total and stays inside the image,
    its entries are well formed, paths resolve to their canonical form, reads and
    listings return what they should, and the execute check is exact. *)
From stdpp Require Import sets.
From S2P Require Import Prelude Initrd.

(** ** Machine arithmetic of the parser *)

Lemma align4_spec v : 0 <= v < 2 ^ 63 -> v <= align4 v <= v + 3 /\ align4 v mod 4 = 0.
Proof.
  intros Hv. unfold align4, u64. rewrite Z.mod_small by lia. change (Z.lxor SIZE_MAX 3) with (Z.lxor SIZE_MAX (Z.ones 2)).
  rewrite land_clear_low by lia. change (2 ^ 2) with 4. dlia.
Qed.

(** The value of a hexadecimal field. *)
Definition hex_value (text : bytes) : Z :=
  fold_left (fun a c => a * 16 + default 0 (initrd_hex_digit c)) text 0.

Lemma initrd_hex_digit_range c d : initrd_hex_digit c = Some d -> 0 <= d < 16.
Proof. unfold initrd_hex_digit. intros H. repeat case_hyp H; bool_props; simplify_eq; lia. Qed.

Lemma hex_loop_spec text value r :
  0 <= value -> value * 16 ^ zlen text + 16 ^ zlen text <= 2 ^ 64 -> hex_loop text value = Some r ->
  r = fold_left (fun a c => a * 16 + default 0 (initrd_hex_digit c)) text value /\
  value * 16 ^ zlen text <= r < value * 16 ^ zlen text + 16 ^ zlen text.
Proof.
  revert value. induction text as [|c text IH]; intros value Hv Hb H; simpl in H.
  - simplify_eq. simpl. unfold zlen. simpl. split; [done|lia].
  - destruct (initrd_hex_digit c) as [d|] eqn:Ed; [|done]. apply initrd_hex_digit_range in Ed as Hd.
    destruct (_ <? value); [done|].
    assert (16 ^ zlen (c :: text) = 16 * 16 ^ zlen text) as Hp.
    { unfold zlen. simpl length. rewrite Nat2Z.inj_succ, Z.pow_succ_r by lia. done. }
    rewrite Hp in *. assert (0 < 16 ^ zlen text) as Hpos by (apply Z.pow_pos_nonneg; [lia|apply zlen_nonneg]).
    assert (u64 (value * 16 + d) = value * 16 + d) as Hu by (unfold u64; apply Z.mod_small; nia).
    rewrite Hu in H. apply IH in H; [|lia|nia]. simpl. rewrite Ed. simpl. destruct H as [-> Hr]. split; [done|nia].
Qed.

Lemma hex_field_range text v : length text = 8%nat -> hex_field text = Some v -> 0 <= v < 2 ^ 32.
Proof.
  intros Hl H. apply hex_loop_spec in H; [|lia|]; unfold zlen in *; rewrite Hl in *; [|done].
  change (16 ^ Z.of_nat 8) with (2 ^ 32) in *. lia.
Qed.

Lemma slice_ok data offset count :
  0 <= offset -> 0 <= count -> offset + count <= zlen data ->
  exists l, slice data offset count = Some l /\ zlen l = count.
Proof.
  intros H0 H1 H2. unfold slice. destruct (_ && _)%bool eqn:E; [|lia]. eexists. split; [done|].
  unfold zlen in *. rewrite length_firstn, length_skipn. lia.
Qed.

(** ** Members *)

(** An entry whose file lies in the image. *)
Definition entry_ok (data : bytes) (e : InitrdEntry) : Prop :=
  zlen (entry_data e) = entry_size e /\
  (exists offset, slice data offset (entry_size e) = Some (entry_data e)) /\
  0 <= entry_mode e < 2 ^ 32 /\ 0 <= entry_uid e < 2 ^ 32 /\ 0 <= entry_gid e < 2 ^ 32.

Lemma parse_member_ok data offset count :
  zlen data < 2 ^ 62 -> 0 <= offset -> offset + CPIO_HEADER_SIZE <= zlen data ->
  match parse_member data offset count with
  | MemberOutOfBounds => False
  | Member next entry => offset < next < 2 ^ 63 /\
      forall e, entry = Some e -> entry_ok data e /\ Z.of_nat count <> CPIO_MAX_ENTRIES /\
        exists name, canonical_path name = Some (entry_path e) /\
                     file_handle e = None /\ directory_handle e = None /\ unix_metadata_handle e = None
  | _ => True
  end.
Proof.
  intros Hsz H0 Hh. unfold parse_member, CPIO_HEADER_SIZE in *.
  destruct (slice_ok data offset 110) as (header & -> & Hl); [lia..|].
  destruct (negb (magic_ok header)); [done|].
  destruct (hex_field (firstn 8 (skipn 14 header))) as [mode|]; [|done].
  destruct (hex_field (firstn 8 (skipn 22 header))) as [uid|]; [|done].
  destruct (hex_field (firstn 8 (skipn 30 header))) as [gid|]; [|done].
  destruct (hex_field (firstn 8 (skipn 54 header))) as [fsize|] eqn:Ef; [|done].
  destruct (hex_field (firstn 8 (skipn 94 header))) as [nsize|] eqn:En; [|done].
  assert (forall k, (k + 8 <= 110)%nat -> length (firstn 8 (skipn k header)) = 8%nat) as Hf.
  { intros k Hk. unfold zlen in Hl. rewrite length_firstn, length_skipn. lia. }
  apply hex_field_range in Ef; [|apply Hf; lia]. apply hex_field_range in En; [|apply Hf; lia].
  destruct (nsize =? 0) eqn:E0; [done|].
  assert (u64 (offset + 110) = offset + 110) as -> by (unfold u64; apply Z.mod_small; lia).
  destruct (_ || _)%bool eqn:Eg; [done|]. apply orb_false_iff in Eg as [Eg1 Eg2].
  unfold u64 in Eg2. rewrite Z.mod_small in Eg2 by lia. bool_props.
  destruct (slice_ok data (offset + 110) nsize) as (name & -> & Hnl); [lia..|].
  destruct (negb _); [done|]. destruct (align4_spec (offset + 110 + nsize)) as [Ha _]; [lia|].
  set (doff := align4 (offset + 110 + nsize)) in *.
  destruct (_ || _)%bool eqn:Eg; [done|]. apply orb_false_iff in Eg as [Eg3 Eg4].
  unfold u64 in Eg4. rewrite Z.mod_small in Eg4 by lia. bool_props.
  destruct (cstring name =b _); [done|].
  destruct (align4_spec (doff + fsize)) as [Hn _]; [lia|].
  destruct (cstring name =b _); [split; [lia|done]|]. destruct (_ && _)%bool; [done|].
  destruct (Z.of_nat count =? _) eqn:Ec; [done|]. bool_props.
  destruct (canonical_path (removelast name)) as [path|] eqn:Ep; [|done].
  destruct (slice_ok data doff fsize) as (contents & Hs & Hcl); [lia..|]. rewrite Hs.
  split; [lia|]. intros e [= <-]. split; [|split; [done|by exists (removelast name)]].
  split_and!; simpl; [done|by exists doff|..]; unfold u32; apply Z.mod_pos_bound; lia.
Qed.

(** ** Canonical archive names *)

(** The components of a path: the pieces between slashes. *)
Fixpoint split_path (acc l : bytes) : list bytes :=
  match l with
  | [] => [acc]
  | c :: rest => if c =? 47 then acc :: split_path [] rest else split_path (acc ++ [c]) rest
  end.

Definition parent : bytes := [46; 46].

(** What the scan of [path_refused] still has to find for a component read so far. *)
Definition pending (acc l : bytes) : Prop :=
  (acc = [46] -> starts_with 46 l = true ->
   tail l <> [] /\ starts_with 47 (tail l) = false) /\
  (acc = parent -> l <> [] /\ starts_with 47 l = false).

Lemma starts_with_cons c d l : starts_with c (d :: l) = (d =? c).
Proof.
  unfold starts_with. simpl. apply eq_true_iff_eq. rewrite bool_decide_eq_true, Z.eqb_eq.
  split; [by intros [= ->]|by intros ->].
Qed.

Lemma path_refused_sound l acc :
  path_refused (bool_decide (acc = [])) l = false -> pending acc l ->
  parent ∉ split_path acc l /\ 0 ∉ l.
Proof.
  revert acc. induction l as [|c l IH]; intros acc Hr [Hp1 Hp2].
  - split; [|by intros ?%not_elem_of_nil]. simpl. intros Hin%list_elem_of_singleton.
    destruct (Hp2 (eq_sym Hin)) as [? _]. done.
  - simpl in Hr. apply orb_false_iff in Hr as [Hr Hrest]. apply orb_false_iff in Hr as [Hr Hdd].
    apply orb_false_iff in Hr as [Hz Hss]. bool_props. simpl. destruct (c =? 47) eqn:Ec; bool_props.
    + subst c. destruct (IH [] Hrest) as [H1 H2]; [split; intros [=]|].
      split; [|rewrite not_elem_of_cons; split; [lia|done]].
      apply not_elem_of_cons. split; [|exact H1]. intros Heq. destruct (Hp2 (eq_sym Heq)) as [_ Hs].
      rewrite starts_with_cons in Hs. done.
    + destruct (IH (acc ++ [c])) as [H1 H2].
      * by destruct acc.
      * split.
        -- intros Ha Hs. destruct acc as [|a acc]; [|destruct acc; done]. simpl in Ha. simplify_eq.
           rewrite bool_decide_eq_true_2 in Hdd by done. rewrite Hs in Hdd. simpl in Hdd.
           apply orb_false_iff in Hdd as [Hd1 Hd2]. bool_props. done.
        -- intros Ha. unfold parent in Ha. destruct acc as [|a [|a2 acc]]; [done| |by destruct acc].
           simpl in Ha. simplify_eq.
           destruct Hp1 as [Ht Hs]; [done|apply starts_with_cons|]. simpl in Ht, Hs. done.
      * split; [done|]. rewrite not_elem_of_cons. split; [lia|done].
Qed.

(** A name as the parser stores it: absolute, without NUL or parent components,
    and not the root. *)
Definition stored_path (path : bytes) : Prop :=
  exists name, path = 47 :: name /\ name <> [] /\ 0 ∉ name /\ parent ∉ split_path [] name /\
               starts_with 47 name = false.

Lemma skip_slashes_head l : starts_with 47 (skip_slashes l) = false.
Proof.
  induction l as [|c l IH]; [done|]. simpl. destruct (c =? 47) eqn:Ec; [done|].
  by rewrite starts_with_cons.
Qed.

Lemma canonical_path_stored name path : canonical_path name = Some path -> stored_path path.
Proof.
  unfold canonical_path. intros H. case_hyp H; [done|]. case_hyp H; [done|]. simplify_eq.
  apply orb_false_iff in Heqb as [Hne _].
  exists (skip_slashes (skip_dot_slash name)). split; [done|].
  split; [by destruct (skip_slashes (skip_dot_slash name))|].
  destruct (path_refused_sound _ [] Heqb0) as [? ?]; [split; intros [=]|]. auto using skip_slashes_head.
Qed.

(** ** The archive *)

Record initrd_wf (data : bytes) (entries : list InitrdEntry) : Prop := {
  wf_root_entry : entries !! 0%nat = Some root_entry;
  wf_paths_unique : NoDup (map entry_path entries);
  wf_members : Forall (fun e => stored_path (entry_path e) /\ entry_ok data e) (tail entries);
  wf_count : zlen entries <= CPIO_MAX_ENTRIES;
  wf_unexported : Forall (fun e => file_handle e = None /\ directory_handle e = None /\
                                   unix_metadata_handle e = None) entries
}.

Lemma initrd_wf_snoc data entries e :
  initrd_wf data entries -> stored_path (entry_path e) -> entry_ok data e ->
  entry_path e ∉ map entry_path entries -> zlen entries <> CPIO_MAX_ENTRIES ->
  file_handle e = None -> directory_handle e = None -> unix_metadata_handle e = None ->
  initrd_wf data (entries ++ [e]).
Proof.
  intros [] Hp He Hn Hc Hf Hd Hm. destruct entries as [|root members]; [done|]. constructor.
  - done.
  - rewrite map_app. apply NoDup_app. split; [done|]. split; [|apply NoDup_singleton].
    intros x Hx ->%list_elem_of_singleton. done.
  - simpl in *. apply Forall_app_2; [done|]. by apply Forall_singleton.
  - rewrite zlen_app. unfold CPIO_MAX_ENTRIES, zlen in *. simpl length at 2. lia.
  - apply Forall_app_2; [done|]. by apply Forall_singleton.
Qed.

Lemma create_loop_ok malloc_ok data fuel offset entries allocations :
  zlen data < 2 ^ 62 -> 0 <= offset < 2 ^ 63 -> zlen data - offset <= Z.of_nat fuel ->
  initrd_wf data entries ->
  match create_loop malloc_ok fuel data offset entries allocations with
  | Parsed entries' => initrd_wf data entries'
  | Refused => True
  | _ => False
  end.
Proof.
  revert offset entries allocations.
  induction fuel as [|f IH]; intros offset entries allocations Hsz Ho Hf Hwf; simpl;
    assert (u64 (offset + CPIO_HEADER_SIZE) = offset + CPIO_HEADER_SIZE) as ->
      by (unfold u64, CPIO_HEADER_SIZE; apply Z.mod_small; lia);
    (destruct (_ <=? zlen data) eqn:El; [|done]); bool_props; unfold CPIO_HEADER_SIZE in *; [lia|].
  pose proof (parse_member_ok data offset (length entries) Hsz ltac:(lia) El) as Hm.
  destruct (parse_member data offset (length entries)) as [|next entry| |]; try done.
  destruct Hm as [Hn He]. destruct entry as [e|]; [|apply IH; [done|lia|lia|done]].
  destruct (He e eq_refl) as (Hok & Hc & name & Hp & Hfh & Hdh & Hmh).
  destruct (negb _); [done|]. destruct (existsb _ entries) eqn:Ex; [done|]. destruct (negb _); [done|].
  apply IH; [done|lia|lia|]. apply initrd_wf_snoc; try done; [by eapply canonical_path_stored|].
  intros Hin. apply list_elem_of_fmap in Hin as (x & Hx & Hin). apply not_true_iff_false in Ex.
  apply Ex, existsb_exists. exists x. split; [by apply list_elem_of_In|]. by apply bytes_eqb_eq.
Qed.

Lemma initrd_wf_root data : initrd_wf data [root_entry].
Proof.
  constructor; simpl; try done.
  - apply NoDup_singleton.
  - by repeat constructor.
Qed.

(** C11: The CPIO parser is total and memory safe: for every image it stops after
    at most one step per byte, never reads outside the image, and either refuses
    it or returns entries that start with the root directory, have pairwise
    distinct absolute names without NUL or parent components, number at most
    1024, and whose contents are slices of the image. *)
Theorem facet_initrd_create_safe (malloc_ok : nat -> bool) (data : bytes)
    (Hsize : zlen data < 2 ^ 62) :
  match facet_initrd_create malloc_ok (Some data) with
  | Parsed entries => initrd_wf data entries
  | Refused => True
  | OutOfBounds | OutOfFuel => False
  end.
Proof.
  simpl. destruct (_ <? CPIO_HEADER_SIZE); [done|]. destruct (negb _); [done|].
  apply create_loop_ok; [done|lia|unfold zlen; lia|apply initrd_wf_root].
Qed.

(** A two-member archive used by the witnesses: a directory /bin (mode 755) and a
    file /bin/sh (mode 755) that holds four bytes. *)
Definition sample_archive : bytes :=
  B "07070100000001000041ED00000000000000000000000100000000" ++
  B "00000000000000000000000000000000000000000000000400000000" ++ B "bin" ++ [0; 0; 0] ++
  B "07070100000002000081ED00000000000000000000000100000000" ++
  B "00000004000000000000000000000000000000000000000700000000" ++ B "bin/sh" ++ [0; 0; 0; 0] ++
  [127; 69; 76; 70].

Definition sample_entries : list InitrdEntry := Eval vm_compute in
  match facet_initrd_create (fun _ => true) (Some sample_archive) with
  | Parsed entries => entries
  | _ => []
  end.

Lemma facet_initrd_create_safe_witness :
  facet_initrd_create (fun _ => true) (Some sample_archive) = Parsed sample_entries /\
  length sample_entries = 3%nat /\ initrd_wf sample_archive sample_entries.
Proof.
  assert (facet_initrd_create (fun _ => true) (Some sample_archive) = Parsed sample_entries) as H
    by (vm_compute; reflexivity).
  split; [exact H|]. split; [reflexivity|].
  pose proof (facet_initrd_create_safe (fun _ => true) sample_archive ltac:(vm_compute; reflexivity)) as W.
  rewrite H in W. exact W.
Defined.

(** ** Path resolution *)

(** The components of a path that matter: neither empty nor the dot. *)
Definition components (path : bytes) : list bytes :=
  filter (fun c => c <> [] /\ c <> [46]) (split_path [] path).

(** The absolute path of a list of components. *)
Definition render_path (stack : list bytes) : bytes :=
  match stack with [] => [47] | _ => concat (map (cons 47) stack) end.

(** Walk the components from a directory: the parent of the root is the root, and
    no intermediate path may be longer than [FACET_PATH_MAX]. *)
Fixpoint walk (stack comps : list bytes) : option (list bytes) :=
  match comps with
  | [] => Some stack
  | c :: rest =>
      if c =b parent then walk (removelast stack) rest
      else if zlen (render_path (stack ++ [c])) <=? FACET_PATH_MAX then walk (stack ++ [c]) rest
      else None
  end.

Definition plain (c : bytes) : Prop := c <> [] /\ 47 ∉ c.

(** A component that names an entry: not the dot and not the parent. *)
Definition ordinary (c : bytes) : Prop := plain c /\ c <> [46] /\ c <> parent.

Lemma render_path_snoc stack c : render_path (stack ++ [c]) = concat (map (cons 47) stack) ++ 47 :: c.
Proof.
  assert (render_path (stack ++ [c]) = concat (map (cons 47) (stack ++ [c]))) as -> by (by destruct stack).
  rewrite map_app, concat_app. simpl. by rewrite app_nil_r.
Qed.

Lemma render_path_cons stack c : render_path (c :: stack) = concat (map (cons 47) (c :: stack)).
Proof. done. Qed.

Lemma unwind_SS output n :
  unwind output (S (S n)) =
  if bool_decide (output !! S n = Some 47) then S (S n) else unwind output (S n).
Proof. done. Qed.

Lemma unwind_spec pre c k :
  47 ∉ c -> (k <= length c)%nat -> unwind (pre ++ 47 :: c) (length pre + 1 + k) = (length pre + 1)%nat.
Proof.
  intros Hc. induction k as [|k IH]; intros Hk.
  - rewrite Nat.add_0_r, Nat.add_1_r. destruct pre as [|a pre]; [done|].
    simpl length. rewrite unwind_SS, bool_decide_eq_true_2; [done|].
    by rewrite lookup_app_r, Nat.sub_diag by (simpl; lia).
  - replace (length pre + 1 + S k)%nat with (S (S (length pre + k))) by lia.
    rewrite unwind_SS, bool_decide_eq_false_2.
    + replace (S (length pre + k)) with (length pre + 1 + k)%nat by lia. apply IH. lia.
    + rewrite lookup_app_r by lia. replace (S (length pre + k) - length pre)%nat with (S k) by lia. simpl.
      intros H%list_elem_of_lookup_2. done.
Qed.

Lemma pop_component_render stack :
  Forall plain stack -> pop_component (render_path stack) = render_path (removelast stack).
Proof.
  induction stack as [|c stack _] using rev_ind; [done|]. intros [_ Hc]%Forall_app.
  apply Forall_singleton in Hc as [Hne Hc].
  rewrite render_path_snoc, removelast_last. set (pre := concat (map (cons 47) stack)).
  unfold pop_component. destruct (_ <? _)%nat eqn:E1.
  - replace (length (pre ++ 47 :: c)) with (length pre + 1 + length c)%nat
      by (rewrite length_app; simpl; lia). rewrite unwind_spec by done.
    destruct (1 <? length pre + 1)%nat eqn:E2.
    + rewrite Nat.add_sub, take_app_length. destruct stack; [done|]. by rewrite render_path_cons.
    + destruct stack as [|d stack]; [done|]. subst pre. simpl in E2.
      apply Nat.ltb_ge in E2. lia.
  - rewrite length_app in E1. simpl in E1. apply Nat.ltb_ge in E1.
    destruct c; [done|]. simpl in E1. lia.
Qed.

Lemma push_component_render stack c :
  Forall plain stack ->
  push_component (render_path stack) c =
  if zlen (render_path (stack ++ [c])) <=? FACET_PATH_MAX then Some (render_path (stack ++ [c])) else None.
Proof.
  intros Hs. rewrite render_path_snoc. unfold push_component.
  assert (length (render_path stack) = 1%nat <-> stack = []) as Hl.
  { destruct stack as [|d stack]; [done|]. split; [|done]. apply Forall_cons in Hs as [[Hd _] _].
    destruct d; [done|]. rewrite render_path_cons. simpl. lia. }
  destruct (length (render_path stack) =? 1)%nat eqn:E1; bool_props.
  - apply Hl in E1 as ->. simpl. unfold zlen, FACET_PATH_MAX. simpl length.
    repeat case_goal; bool_props; try done; lia.
  - assert (render_path stack = concat (map (cons 47) stack)) as ->.
    { destruct stack; [|done]. by destruct E1. }
    rewrite zlen_app, zlen_cons. simpl. rewrite <- app_assoc. simpl.
    pose proof (zlen_nonneg c).
    destruct (_ || _)%bool eqn:E2; case_goal; bool_props; try done; lia.
Qed.

(** Splitting a path at its first component. *)
Lemma take_component_spec l c rest :
  take_component l = (c, rest) -> l = c ++ rest /\ 47 ∉ c /\ (rest = [] \/ exists r, rest = 47 :: r).
Proof.
  revert c rest. induction l as [|x l IH]; intros c rest H; simpl in H.
  - simplify_eq. split_and!; [done|apply not_elem_of_nil|by left].
  - destruct (x =? 47) eqn:Ex; bool_props.
    + simplify_eq. split_and!; [done|apply not_elem_of_nil|right; by eexists].
    + destruct (take_component l) as [c' r']. simplify_eq. destruct (IH _ _ eq_refl) as (-> & Hc & Hr).
      split_and!; [done| |done]. apply not_elem_of_cons. done.
Qed.

Lemma split_path_app acc c l : 47 ∉ c -> split_path acc (c ++ l) = split_path (acc ++ c) l.
Proof.
  revert acc. induction c as [|x c IH]; intros acc Hc; simpl; [by rewrite app_nil_r|].
  apply not_elem_of_cons in Hc as [Hx Hc]. destruct (x =? 47) eqn:E; bool_props; [congruence|].
  rewrite IH, <- app_assoc by done. done.
Qed.

Lemma components_slash l : components (47 :: l) = components l.
Proof. unfold components. simpl. rewrite filter_cons_False; [done|]. intros []. done. Qed.

Lemma components_skip l : components (skip_slashes l) = components l.
Proof.
  induction l as [|x l IH]; [done|]. simpl. destruct (x =? 47) eqn:E; bool_props; [|done].
  subst x. by rewrite components_slash.
Qed.

Lemma components_take l c rest :
  take_component l = (c, rest) ->
  components l = filter (fun c => c <> [] /\ c <> [46]) [c] ++ components rest.
Proof.
  intros (-> & Hc & Hr)%take_component_spec. unfold components at 1. rewrite split_path_app by done. simpl app.
  destruct Hr as [->|[r ->]].
  - rewrite app_nil_r. done.
  - rewrite components_slash. cbn [split_path]. change (47 =? 47) with true. cbn iota.
    change (c :: split_path [] r) with ([c] ++ split_path [] r). by rewrite filter_app.
Qed.

Lemma components_plain path : Forall (fun c => plain c /\ c <> [46]) (components path).
Proof.
  unfold components. assert (forall acc, 47 ∉ acc -> Forall (fun c => 47 ∉ c) (split_path acc path)) as H.
  { induction path as [|x l IH]; intros acc Ha; simpl; [by constructor|].
    destruct (x =? 47) eqn:E; bool_props.
    - constructor; [done|]. apply IH, not_elem_of_nil.
    - apply IH. rewrite not_elem_of_app, not_elem_of_cons. split_and!; [done|congruence|apply not_elem_of_nil]. }
  apply Forall_forall. intros c [[? ?] Hin]%list_elem_of_filter. split; [|done]. split; [done|].
  specialize (H [] (not_elem_of_nil _)). rewrite Forall_forall in H. auto.
Qed.

Lemma Forall_removelast {A} (P : A -> Prop) l : Forall P l -> Forall P (removelast l).
Proof.
  induction l as [|x l _] using rev_ind; [done|]. rewrite removelast_last. intros [H _]%Forall_app. done.
Qed.

Lemma skip_slashes_length l : (length (skip_slashes l) <= length l)%nat.
Proof. induction l as [|x l IH]; simpl; [done|]. case_goal; simpl; lia. Qed.

Lemma resolve_loop_walk fuel path stack :
  (length path <= fuel)%nat -> Forall plain stack ->
  resolve_loop fuel path (render_path stack) = render_path <$> walk stack (components path).
Proof.
  revert path stack. induction fuel as [|f IH]; intros path stack Hf Hs.
  { destruct path; [done|simpl in Hf; lia]. }
  destruct path as [|x path]; [done|]. rewrite <- (components_skip (x :: path)).
  cbn [resolve_loop]. unfold drop_slashes.
  destruct (take_component (skip_slashes (x :: path))) as [c rest] eqn:Et.
  rewrite (components_take _ _ _ Et). apply take_component_spec in Et as (Heq & Hc & Hr).
  assert (length rest <= f)%nat as Hlen.
  { pose proof (skip_slashes_length (x :: path)) as Hl. rewrite Heq, length_app in Hl.
    destruct c as [|y c]; [|simpl in *; lia]. destruct Hr as [->|[r ->]]; [simpl; lia|].
    pose proof (skip_slashes_head (x :: path)) as Hh. rewrite Heq in Hh. simpl in Hh.
    by rewrite starts_with_cons in Hh. }
  destruct (_ || _)%bool eqn:Ec.
  { rewrite IH by done. rewrite filter_cons_False; [done|]. intros [H1 H2].
    apply orb_true_iff in Ec as [Ec|Ec]; bool_props; [by destruct c|done]. }
  apply orb_false_iff in Ec as [Ec1 Ec2]. bool_props.
  assert (c <> []) as Hne by (by destruct c).
  rewrite filter_cons_True by done. simpl. change [46; 46] with parent. destruct (c =b parent).
  - rewrite pop_component_render, IH by (try done; by apply Forall_removelast). done.
  - rewrite push_component_render by done. destruct (_ <=? FACET_PATH_MAX); [|done].
    rewrite IH; [done|done|]. apply Forall_app_2; [done|]. by apply Forall_singleton.
Qed.

Lemma walk_ordinary comps stack stack' :
  Forall (fun c => plain c /\ c <> [46]) comps -> Forall ordinary stack ->
  zlen (render_path stack) <= FACET_PATH_MAX -> walk stack comps = Some stack' ->
  Forall ordinary stack' /\ zlen (render_path stack') <= FACET_PATH_MAX.
Proof.
  revert stack. induction comps as [|c comps IH]; intros stack Hc Hs Hl H; simpl in H; [by simplify_eq|].
  apply Forall_cons in Hc as [[Hp Hd] Hc]. destruct (c =b parent) eqn:Ec; bool_props.
  - eapply IH; [done|by apply Forall_removelast| |done].
    destruct stack as [|d stack _] using rev_ind; [done|]. rewrite removelast_last.
    rewrite render_path_snoc, zlen_app, zlen_cons in Hl. pose proof (zlen_nonneg d).
    destruct stack; [done|]. rewrite render_path_cons. lia.
  - destruct (_ <=? _) eqn:El; bool_props; [|done]. eapply IH; [done| |done|done].
    apply Forall_app_2; [done|]. by apply Forall_singleton.
Qed.

Lemma resolve_path_walk (stack : list bytes) (path : bytes)
    (Hstack : Forall ordinary stack) (Hbase : zlen (render_path stack) <= FACET_PATH_MAX)
    (Hpath : path <> []) (Hlen : zlen path <= FACET_PATH_MAX) (Hnul : 0 ∉ path) :
  match walk (if starts_with 47 path then [] else stack) (components path) with
  | Some result =>
      resolve_path true (Some (render_path stack)) (Some path) =
        (FACET_OK, Some (render_path result, path_requires_directory path)) /\
      Forall ordinary result /\ zlen (render_path result) <= FACET_PATH_MAX
  | None => resolve_path true (Some (render_path stack)) (Some path) = (FACET_INVALID_ARGUMENT, None)
  end.
Proof.
  set (start := if starts_with 47 path then [] else stack).
  assert (Forall ordinary start /\ zlen (render_path start) <= FACET_PATH_MAX) as [Ho Hl].
  { subst start. case_match; [|done]. by split. }
  assert (resolve_path true (Some (render_path stack)) (Some path) =
          match render_path <$> walk start (components path) with
          | None => (FACET_INVALID_ARGUMENT, None)
          | Some resolved => (FACET_OK, Some (resolved, path_requires_directory path))
          end) as ->.
  { rewrite <- (resolve_loop_walk (length path)); [|done|by eapply Forall_impl; [exact Ho|intros c []]].
    unfold resolve_path. rewrite (proj2 (Z.ltb_ge _ _) Hbase), (proj2 (Z.ltb_ge _ _) Hlen).
    rewrite (bool_decide_eq_false_2 (0 ∈ path)) by done. subst start.
    assert (starts_with 47 (render_path stack) = true) as -> by (by destruct stack).
    destruct path as [|x path]; [done|]. simpl. by destruct (starts_with 47 (x :: path)). }
  destruct (walk start (components path)) as [result|] eqn:Ew; [|done]. split; [done|].
  eapply walk_ordinary; [apply components_plain|done..].
Qed.

(** C12: Path resolution computes the canonical path, from a directory with ordinary
    components and for every request.  An empty request, one that is longer than
    [FACET_PATH_MAX] or that holds a NUL is invalid; then the memory for the result is
    needed; then a relative request from a directory whose own path is too long is
    invalid.  In all other cases the components of the request are walked (an absolute
    request starts at the root, empty components and dots are skipped, the parent of
    the root is the root), and the request is invalid only if an intermediate path
    does not fit.  The answer is the absolute rendering of ordinary components and
    fits [FACET_PATH_MAX]. *)
Theorem resolve_path_correct (malloc : bool) (stack : list bytes) (path : bytes) (Hstack : Forall ordinary stack) :
  let start := if starts_with 47 path then [] else stack in
  let walked := walk start (components path) in
  resolve_path malloc (Some (render_path stack)) (Some path) =
    (if ((length path =? 0)%nat || (FACET_PATH_MAX <? zlen path) || bool_decide (0 ∈ path))%bool
     then (FACET_INVALID_ARGUMENT, None)
     else if negb malloc then (FACET_OUT_OF_MEMORY, None)
     else if FACET_PATH_MAX <? zlen (render_path start) then (FACET_INVALID_ARGUMENT, None)
     else match walked with
          | Some result => (FACET_OK, Some (render_path result, path_requires_directory path))
          | None => (FACET_INVALID_ARGUMENT, None)
          end) /\
  (zlen (render_path start) <= FACET_PATH_MAX ->
   forall result, walked = Some result -> Forall ordinary result /\ zlen (render_path result) <= FACET_PATH_MAX).
Proof.
  intros start walked.
  assert (Forall ordinary start) as Ho by (subst start; by case_match). split.
  - unfold resolve_path. assert (starts_with 47 (render_path stack) = true) as -> by (by destruct stack). cbn [negb orb].
    destruct (_ || _)%bool; [done|]. destruct malloc; [|done]. cbn [negb].
    assert ((if starts_with 47 path then Some [47] else if FACET_PATH_MAX <? zlen (render_path stack) then None
             else Some (render_path stack)) = if FACET_PATH_MAX <? zlen (render_path start) then None else Some (render_path start)) as ->.
    { subst start. by destruct (starts_with 47 path). }
    destruct (FACET_PATH_MAX <? zlen (render_path start)); [done|].
    rewrite resolve_loop_walk; [|done|by eapply Forall_impl; [exact Ho|intros c []]].
    fold walked. destruct walked; done.
  - intros Hl result Hw. eapply walk_ordinary; [apply components_plain|done..].
Qed.

Lemma resolve_path_correct_witness :
  resolve_path true (Some (B "/usr/bin")) (Some (B "./../../..//lib/./x/")) =
    (FACET_OK, Some (B "/lib/x", true)).
Proof.
  destruct (resolve_path_correct true [B "usr"; B "bin"] (B "./../../..//lib/./x/") ltac:(by_decide)) as [H _]. exact H.
Defined.

(** ** Reads *)

Lemma slice_take data offset count :
  0 <= offset -> 0 <= count -> offset + count <= zlen data ->
  slice data offset count = Some (firstn (Z.to_nat count) (skipn (Z.to_nat offset) data)).
Proof. intros. unfold slice. destruct (_ && _)%bool eqn:E; [done|lia]. Qed.

(** The bytes that a read of some contents may return. *)
Definition window (contents : bytes) (offset maximum : Z) : bytes :=
  take (Z.to_nat maximum) (drop (Z.to_nat offset) contents).

Lemma window_min contents offset maximum :
  0 <= offset <= zlen contents -> 0 <= maximum ->
  firstn (Z.to_nat (Z.min (zlen contents - offset) maximum)) (skipn (Z.to_nat offset) contents) =
  window contents offset maximum.
Proof.
  intros Ho Hm. unfold window.
  destruct (Z.min_spec (zlen contents - offset) maximum) as [[Hlt ->]|[Hle ->]]; [|done].
  rewrite !take_ge; [done|rewrite length_drop; unfold zlen in *; lia..].
Qed.

Lemma file_read_at_window e offset maximum :
  zlen (entry_data e) = entry_size e -> 0 <= offset -> 0 <= maximum ->
  file_read_at e offset maximum =
  if decide (offset <= zlen (entry_data e)) then (FACET_OK, Some (window (entry_data e) offset maximum))
  else (FACET_INVALID_ARGUMENT, None).
Proof.
  intros Hs Ho Hm. unfold file_read_at. rewrite <- Hs.
  destruct (zlen (entry_data e) <? offset) eqn:E; destruct (decide _); bool_props; try done; try lia.
  destruct (_ <? maximum) eqn:Em; bool_props; rewrite slice_take by lia; [|done].
  rewrite <- window_min by lia. by rewrite Z.min_l by lia.
Qed.

(** A read of a file of a parsed archive returns exactly the bytes of the
    contents from the offset, at most the requested number of them, and an offset
    past the end is refused; nothing outside the contents is ever returned. *)
Theorem facet_initrd_node_read_exact (data : bytes) (entry : InitrdEntry) (offset maximum : Z)
    (Hentry : entry_ok data entry) (Hfile : entry_directory entry = false)
    (Hoffset : 0 <= offset) (Hmaximum : 0 <= maximum) :
  facet_initrd_node_read (Some entry) offset maximum =
  if decide (offset <= zlen (entry_data entry))
  then (FACET_OK, Some (take (Z.to_nat maximum) (drop (Z.to_nat offset) (entry_data entry))))
  else (FACET_INVALID_ARGUMENT, None).
Proof. destruct Hentry as [Hsize _]. simpl. rewrite Hfile. by apply file_read_at_window. Qed.

Definition sample_file : InitrdEntry := Eval vm_compute in nth 2 sample_entries root_entry.

Lemma sample_file_ok : entry_ok sample_archive sample_file.
Proof. split_and!; [done|exists 236; vm_compute; reflexivity|vm_compute; done..]. Qed.

Lemma facet_initrd_node_read_exact_witness :
  sample_entries !! 2%nat = Some sample_file /\
  facet_initrd_node_read (Some sample_file) 1 2 = (FACET_OK, Some [69; 76]).
Proof.
  split; [reflexivity|].
  exact (facet_initrd_node_read_exact sample_archive sample_file 1 2 sample_file_ok eq_refl
    ltac:(lia) ltac:(lia)).
Defined.

(** ** Listings *)

(** The immediate children of a directory, in archive order. *)
Definition children (directory : bytes) (entries : list InitrdEntry) : list (bytes * EntryType) :=
  omap (fun e => name ← immediate_child directory (entry_path e);
                 Some (name, if entry_directory e then EntryType_Directory else EntryType_File)) entries.

Lemma children_cons directory e entries :
  children directory (e :: entries) =
  match immediate_child directory (entry_path e) with
  | Some name =>
      (name, if entry_directory e then EntryType_Directory else EntryType_File)
      :: children directory entries
  | None => children directory entries
  end.
Proof. unfold children. simpl. by destruct (immediate_child _ _). Qed.

Lemma list_loop_spec directory cursor maximum entries seen count :
  0 <= seen -> 0 <= count <= maximum -> (cursor <= seen \/ count = 0) ->
  list_loop directory cursor maximum entries seen count =
  let later := drop (Z.to_nat (cursor - seen)) (children directory entries) in
  (take (Z.to_nat (maximum - count)) later, bool_decide (zlen later <= maximum - count)).
Proof.
  revert seen count. induction entries as [|e entries IH]; intros seen count Hs Hc Hor.
  - simpl. rewrite drop_nil, take_nil, bool_decide_eq_true_2 by (rewrite zlen_nil; lia). done.
  - cbn [list_loop]. rewrite children_cons.
    destruct (immediate_child directory (entry_path e)) as [name|]; [|by apply IH].
    destruct (seen <? cursor) eqn:Ec; bool_props.
    + destruct Hor as [?| ->]; [lia|]. rewrite IH by lia.
      replace (Z.to_nat (cursor - seen)) with (S (Z.to_nat (cursor - (seen + 1)))) by lia. done.
    + replace (Z.to_nat (cursor - seen)) with 0%nat by lia. rewrite drop_0. simpl.
      destruct (count =? maximum) eqn:Em; bool_props.
      * subst count. rewrite Z.sub_diag, bool_decide_eq_false_2; [done|]. rewrite zlen_cons.
        pose proof (zlen_nonneg (children directory entries)). lia.
      * rewrite IH by lia. replace (Z.to_nat (cursor - (seen + 1))) with 0%nat by lia. rewrite drop_0. simpl.
        replace (Z.to_nat (maximum - count)) with (S (Z.to_nat (maximum - (count + 1)))) by lia. simpl.
        f_equal. apply bool_decide_ext. rewrite zlen_cons. lia.
Qed.

Lemma directory_list_page entries directory cursor maximum :
  0 <= cursor <= zlen entries -> 0 <= maximum ->
  let all := children (entry_path directory) entries in
  let page := take (Z.to_nat maximum) (drop (Z.to_nat cursor) all) in
  directory_list entries directory cursor maximum true =
    (FACET_OK, (page, cursor + zlen page, bool_decide (zlen all <= cursor + maximum))).
Proof.
  intros Hc Hm all page. unfold directory_list. rewrite (proj2 (Z.ltb_ge _ _) (proj2 Hc)), andb_false_r.
  rewrite list_loop_spec by lia. cbv zeta. rewrite !Z.sub_0_r. fold all page. do 2 f_equal.
  apply bool_decide_ext. unfold zlen. rewrite length_drop. lia.
Qed.

(** A client that asks for pages until the end flag is set. *)
Fixpoint list_pages (fuel : nat) (entries : list InitrdEntry) (directory : InitrdEntry)
    (cursor maximum : Z) : option (list (bytes * EntryType)) :=
  match fuel with
  | O => None
  | S f =>
      match facet_initrd_node_list entries (Some directory) cursor maximum true with
      | (FACET_OK, (page, next, true)) => Some page
      | (FACET_OK, (page, next, false)) => app page <$> list_pages f entries directory next maximum
      | _ => None
      end
  end.

Lemma children_length directory entries : zlen (children directory entries) <= zlen entries.
Proof.
  induction entries as [|e entries IH]; [done|]. rewrite children_cons.
  destruct (immediate_child _ _); rewrite !zlen_cons; lia.
Qed.

Lemma list_pages_complete fuel entries directory cursor maximum :
  entry_directory directory = true -> 0 < maximum ->
  0 <= cursor <= zlen (children (entry_path directory) entries) ->
  zlen (children (entry_path directory) entries) - cursor < Z.of_nat fuel ->
  list_pages fuel entries directory cursor maximum =
    Some (drop (Z.to_nat cursor) (children (entry_path directory) entries)).
Proof.
  intros Hd Hm. revert cursor. induction fuel as [|f IH]; intros cursor Hc Hf.
  { exfalso. lia. }
  pose proof (children_length (entry_path directory) entries) as Hl.
  simpl. rewrite Hd, directory_list_page by lia. set (all := children (entry_path directory) entries) in *.
  destruct (bool_decide _) eqn:E; bool_props.
  - rewrite take_ge; [done|]. rewrite length_drop. unfold zlen in *. lia.
  - assert (zlen (take (Z.to_nat maximum) (drop (Z.to_nat cursor) all)) = maximum) as ->.
    { unfold zlen in *. rewrite length_take, length_drop. lia. }
    rewrite IH by lia. simpl. f_equal.
    replace (Z.to_nat (cursor + maximum)) with (Z.to_nat cursor + Z.to_nat maximum)%nat by lia.
    rewrite <- drop_drop. apply take_drop.
Qed.

(** Listing a directory by pages is complete: whatever the page size, following
    the returned cursors until the end flag is set terminates and collects every
    immediate child of the directory exactly once, in archive order. *)
Theorem facet_initrd_list_complete (entries : list InitrdEntry) (directory : InitrdEntry) (maximum : Z)
    (Hdirectory : entry_directory directory = true) (Hmaximum : 0 < maximum) :
  list_pages (S (length entries)) entries directory 0 maximum =
    Some (children (entry_path directory) entries).
Proof.
  pose proof (zlen_nonneg entries).
  pose proof (children_length (entry_path directory) entries).
  rewrite list_pages_complete; [done|done|done|split; [done|apply zlen_nonneg]|unfold zlen in *; lia].
Qed.

Lemma facet_initrd_list_complete_witness :
  list_pages 4 sample_entries root_entry 0 1 = Some [(B "bin", EntryType_Directory)].
Proof. exact (facet_initrd_list_complete sample_entries root_entry 1 eq_refl ltac:(lia)). Defined.

(** ** The execute check *)

(** The execute permission of one entry, bit by bit. *)
Definition may_execute (entry : InitrdEntry) (uid gid : Z) (admin : bool) : bool :=
  let bit := Z.testbit (entry_mode entry) in
  if (admin || (uid =? 0))%bool then bit 0 || bit 3 || bit 6
  else if uid =? entry_uid entry then bit 6
  else if gid =? entry_gid entry then bit 3
  else bit 0.

Lemma land7_odd m n : 0 <= n -> (Z.land (Z.land (Z.shiftr m n) 7) 1 =? 1) = Z.testbit m n.
Proof.
  intros Hn. rewrite <- Z.land_assoc. change (Z.land 7 1) with (Z.ones 1). rewrite Z.land_ones by lia.
  rewrite <- (Z.add_0_l n) at 2. rewrite <- Z.shiftr_spec, Z.bit0_odd, Zmod_odd by lia.
  by destruct (Z.odd _).
Qed.

Lemma land_x_bits m :
  (Z.land m 0x49 =? 0) = negb (Z.testbit m 0 || Z.testbit m 3 || Z.testbit m 6).
Proof.
  apply eq_true_iff_eq. rewrite Z.eqb_eq, negb_true_iff, !orb_false_iff. split.
  - intros H. assert (forall k, Z.testbit m k && Z.testbit 0x49 k = false)%bool as Hk.
    { intros k. by rewrite <- Z.land_spec, H, Z.bits_0. }
    pose proof (Hk 0) as H0. pose proof (Hk 3) as H3. pose proof (Hk 6) as H6.
    change (Z.testbit 0x49 0) with true in H0. change (Z.testbit 0x49 3) with true in H3.
    change (Z.testbit 0x49 6) with true in H6. by rewrite andb_true_r in *.
  - intros [[H0 H3] H6]. apply Z.bits_inj'. intros n Hn. rewrite Z.land_spec, Z.bits_0.
    destruct (decide (n < 7)).
    + assert (n = 0 \/ n = 1 \/ n = 2 \/ n = 3 \/ n = 4 \/ n = 5 \/ n = 6)
        as [->|[->|[->|[->|[->|[->| ->]]]]]] by lia;
        try apply andb_false_r; by rewrite ?H0, ?H3, ?H6.
    + rewrite (Z.bits_above_log2 0x49) by (simpl; lia). apply andb_false_r.
Qed.

Lemma entry_allows_execute entry uid gid admin :
  entry_allows entry uid gid admin 1 = may_execute entry uid gid admin.
Proof.
  unfold entry_allows, may_execute. destruct (admin || _)%bool.
  - change (Z.land 1 1 =? 0) with false. simpl negb at 2. rewrite andb_true_l, land_x_bits.
    apply negb_involutive.
  - destruct (uid =? entry_uid entry); [by apply land7_odd|].
    destruct (gid =? entry_gid entry); [by apply land7_odd|].
    rewrite <- (land7_odd _ 0), Z.shiftr_0_r by done. done.
Qed.

(** Whether a list of directories can be searched. *)
Fixpoint search_all (entries : list InitrdEntry) (uid gid : Z) (admin : bool)
    (directories : list bytes) : FacetResult :=
  match directories with
  | [] => FACET_OK
  | d :: rest =>
      match find_entry entries d true with
      | None => FACET_NOT_FOUND
      | Some e => if may_execute e uid gid admin then search_all entries uid gid admin rest
                  else FACET_ACCESS_DENIED
      end
  end.

Definition execute_file (entries : list InitrdEntry) (uid gid : Z) (admin : bool) (file : bytes)
  : FacetResult :=
  match find_entry entries file false with
  | None => FACET_NOT_FOUND
  | Some e => if may_execute e uid gid admin then FACET_OK else FACET_ACCESS_DENIED
  end.

(** The directories strictly between the root and the file [stack ++ comps]. *)
Fixpoint ancestors (stack comps : list bytes) : list bytes :=
  match comps with
  | [] | [_] => []
  | c :: rest => render_path (stack ++ [c]) :: ancestors (stack ++ [c]) rest
  end.

Lemma take_component_app c rest :
  47 ∉ c -> (rest = [] \/ exists r, rest = 47 :: r) -> take_component (c ++ rest) = (c, rest).
Proof.
  intros Hc Hr. induction c as [|x c IH].
  - by destruct Hr as [->|[r ->]].
  - apply not_elem_of_cons in Hc as [Hx Hc]. simpl. rewrite IH by done.
    destruct (x =? 47) eqn:E; bool_props; congruence.
Qed.

Lemma component_end_spec pre slash c rest :
  (slash = [] \/ slash = [47]) -> plain c -> (rest = [] \/ exists r, rest = 47 :: r) ->
  component_end (pre ++ slash ++ c ++ rest) (length pre) = (length pre + length slash + length c)%nat.
Proof.
  intros Hs [Hne Hc] Hr. unfold component_end, drop_slashes. rewrite drop_app_length.
  assert (skip_slashes (slash ++ c ++ rest) = c ++ rest) as ->.
  { assert (skip_slashes (c ++ rest) = c ++ rest) as H.
    { destruct c as [|x c]; [done|]. apply not_elem_of_cons in Hc as [Hx _]. simpl.
      destruct (x =? 47) eqn:E; bool_props; congruence. }
    by destruct Hs as [->| ->]. }
  rewrite take_component_app by done. simpl. rewrite !length_app. lia.
Qed.

Lemma concat_slash_plain stack : Forall plain stack -> stack <> [] -> (2 <= length (concat (map (cons 47%Z) stack)))%nat.
Proof.
  intros Hs Hne. destruct stack as [|c stack]; [done|]. apply Forall_cons in Hs as [[Hc _] _].
  destruct c; [done|]. simpl. lia.
Qed.

Lemma check_position stack c todo :
  Forall plain stack -> plain c ->
  let path := concat (map (cons 47) (stack ++ c :: todo)) in
  let i := Nat.max 1 (length (concat (map (cons 47) stack))) in
  (i < length path)%nat /\
  component_end path i = length (render_path (stack ++ [c])) /\
  firstn (length (render_path (stack ++ [c]))) path = render_path (stack ++ [c]) /\
  (length (render_path (stack ++ [c])) = length path <-> todo = []).
Proof.
  intros Hs Hc. rewrite render_path_snoc, map_app, concat_app. simpl.
  set (pre := concat (map (cons 47) stack)). set (rest := concat (map (cons 47) todo)).
  assert (rest = [] \/ exists r, rest = 47 :: r) as Hr by (destruct todo; [by left|right; by eexists]).
  assert (rest = [] <-> todo = []) as Ht by (by destruct todo).
  assert (0 < length c)%nat by (destruct Hc as [? _]; destruct c; [done|simpl; lia]).
  rewrite !length_app. simpl. rewrite length_app. split_and!.
  - lia.
  - destruct (decide (stack = [])) as [->|Hne].
    + subst pre. simpl. apply (component_end_spec [47] [] c rest); auto.
    + pose proof (concat_slash_plain stack Hs Hne). fold pre in H0.
      replace (Nat.max 1 (length pre)) with (length pre) by lia.
      change (pre ++ 47 :: c ++ rest) with (pre ++ [47] ++ c ++ rest).
      rewrite component_end_spec by auto. simpl. lia.
  - change (pre ++ 47 :: c ++ rest) with (pre ++ (47 :: c) ++ rest). rewrite (assoc_L (++)).
    rewrite take_app_le by (rewrite length_app; simpl; lia). apply take_ge. rewrite length_app. simpl. lia.
  - rewrite <- Ht. split; [|intros ->; simpl; lia]. intros. destruct rest; [done|]. simpl in *. lia.
Qed.

Lemma check_loop_search fuel entries stack c todo uid gid admin :
  Forall plain stack -> Forall plain (c :: todo) -> (length todo < fuel)%nat ->
  check_loop fuel entries (concat (map (cons 47) (stack ++ c :: todo))) uid gid admin
    (Nat.max 1 (length (concat (map (cons 47) stack)))) =
  Some (search_all entries uid gid admin (ancestors stack (c :: todo))).
Proof.
  revert stack c todo. induction fuel as [|f IH]; intros stack c todo Hs Hc Hf; [lia|].
  apply Forall_cons in Hc as [Hc Ht].
  destruct (check_position stack c todo Hs Hc) as (Hi & He & Hp & Hl). cbn [check_loop].
  rewrite (proj2 (Nat.ltb_lt _ _) Hi), He, Hp. destruct todo as [|d todo].
  - rewrite (proj2 (Nat.eqb_eq _ _)) by (by apply Hl). done.
  - rewrite (proj2 (Nat.eqb_neq _ _)) by (by rewrite Hl).
    change (ancestors stack (c :: d :: todo))
      with (render_path (stack ++ [c]) :: ancestors (stack ++ [c]) (d :: todo)). cbn [search_all].
    destruct (find_entry _ _ true) as [e|]; [|done]. rewrite entry_allows_execute.
    destruct (may_execute e uid gid admin); [|done]. simpl negb. cbn iota.
    specialize (IH (stack ++ [c]) d todo). rewrite <- app_assoc in IH. rewrite <- IH.
    + f_equal. rewrite render_path_snoc, map_app, concat_app. simpl. rewrite app_nil_r, !length_app. simpl. lia.
    + apply Forall_app_2; [done|by apply Forall_singleton].
    + done.
    + simpl in Hf. lia.
Qed.

(** C13: The execute check is exact on the canonical path of anything but the root
    directory, for every table of entries.  It always answers.  A path that is longer
    than [FACET_PATH_MAX] is invalid.  Access is denied if the root directory does not
    exist or may not be searched; then memory is needed.  After that the answer is
    success precisely when every directory on the way exists and can be searched and
    the file exists and is executable for the user; the first failing step decides
    between not found and access denied. *)
Theorem facet_initrd_check_execute_exact (entries : list InitrdEntry) (comps : list bytes)
    (uid gid : Z) (admin malloc : bool) (Hcomps : Forall plain comps) (Hne : comps <> []) :
  facet_initrd_check_execute entries (render_path comps) uid gid admin malloc =
  Some (if FACET_PATH_MAX <? zlen (render_path comps) then FACET_INVALID_ARGUMENT
        else match find_entry entries [47] true with
             | None => FACET_ACCESS_DENIED
             | Some root =>
                 if negb (may_execute root uid gid admin) then FACET_ACCESS_DENIED
                 else if negb malloc then FACET_OUT_OF_MEMORY
                 else match search_all entries uid gid admin (ancestors [] comps) with
                      | FACET_OK => execute_file entries uid gid admin (render_path comps)
                      | failure => failure
                      end
             end).
Proof.
  destruct comps as [|c todo]; [done|]. unfold facet_initrd_check_execute.
  assert (starts_with 47 (render_path (c :: todo)) = true) as -> by done. cbn [negb].
  destruct (FACET_PATH_MAX <? zlen (render_path (c :: todo))); [done|].
  destruct (find_entry entries [47] true) as [root|]; [|done]. rewrite entry_allows_execute.
  destruct (may_execute root uid gid admin); [|done]. destruct malloc; [|done]. cbn [negb]. rewrite render_path_cons.
  assert (length todo < length (concat (map (cons 47%Z) (c :: todo))))%nat as Hf.
  { clear. revert c. induction todo as [|d todo IH]; intros c; simpl; [lia|].
    specialize (IH d). simpl in IH. rewrite length_app. simpl. lia. }
  pose proof (check_loop_search _ entries [] c todo uid gid admin ltac:(by constructor) Hcomps Hf) as H.
  change (1 `max` length (concat (map (cons 47%Z) [])))%nat with 1%nat in H. simpl app in H. rewrite H.
  destruct (search_all _ _ _ _ _); try done. unfold execute_file. destruct (find_entry _ _ false); [|done].
  rewrite entry_allows_execute. by case_goal.
Qed.

Lemma facet_initrd_check_execute_exact_witness :
  facet_initrd_check_execute sample_entries (B "/bin/sh") 1000 100 false true = Some FACET_OK.
Proof.
  exact (facet_initrd_check_execute_exact sample_entries [B "bin"; B "sh"] 1000 100 false true
    ltac:(by_decide) ltac:(discriminate)).
Defined.
