(* ===== verification/Codec.v ===== *)
(** The value codec of the RPC runtime (src/libfacet/src/common/runtime.c, first
    part): growing buffer, little-endian integers, strings, arrays and structs.

    A value is the tree that the C memory of its type holds: a struct is the list of
    its fields in metadata order, an array is its data pointer and count, a string
    is its data pointer and length.  The encoder reads a [bool] through a pointer to
    [int]: the value of a [bool] carries the three bytes that follow it in memory.
    [malloc_ok] answers the n-th allocation; [codec_live] counts the heap blocks
    that decoded values own and that have not been freed. *)
From S2P Require Import Prelude Effects.

Inductive FacetType :=
  | FACET_TYPE_U8 | FACET_TYPE_U16 | FACET_TYPE_U32 | FACET_TYPE_U64
  | FACET_TYPE_I8 | FACET_TYPE_I16 | FACET_TYPE_I32 | FACET_TYPE_I64
  | FACET_TYPE_BOOL | FACET_TYPE_UUID | FACET_TYPE_HANDLE | FACET_TYPE_STRING
  | FACET_TYPE_BYTES | FACET_TYPE_LOCAL_PTR | FACET_TYPE_ENUM | FACET_TYPE_STRUCT | FACET_TYPE_ARRAY.

#[global] Instance FacetType_eq_dec : EqDecision FacetType.
Proof. solve_decision. Defined.

(** The metadata fields that the codec reads. *)
Inductive FacetTypeMeta := mkMeta {
  meta_kind : FacetType;
  meta_underlying_kind : FacetType;
  meta_size : Z;
  meta_element_type : option FacetTypeMeta;
  meta_element_kind : FacetType;
  meta_struct_fields : list (FacetType * option FacetTypeMeta)
}.

Inductive value :=
  | VInt (n : Z)
  | VBool (b : bool) (after : Z)
  | VUuid (uuid : bytes)
  | VString (data : option bytes) (length : Z)
  | VArray (data : option (list value)) (count : Z)
  | VStruct (fields : list value).

Record FacetRpcCodec := mkCodec {
  codec_data : bytes;          (** the first [size] bytes of the block *)
  codec_capacity : Z;
  codec_offset : Z;
  codec_allocations : nat;
  codec_live : Z
}.

Definition codec_size (c : FacetRpcCodec) : Z := zlen (codec_data c).

Definition set_codec_data (data : bytes) (capacity : Z) (c : FacetRpcCodec) : FacetRpcCodec :=
  mkCodec data capacity (codec_offset c) (codec_allocations c) (codec_live c).
Definition set_codec_offset (offset : Z) (c : FacetRpcCodec) : FacetRpcCodec :=
  mkCodec (codec_data c) (codec_capacity c) offset (codec_allocations c) (codec_live c).
Definition add_live (n : Z) (c : FacetRpcCodec) : FacetRpcCodec :=
  mkCodec (codec_data c) (codec_capacity c) (codec_offset c) (codec_allocations c) (codec_live c + n).
Definition count_allocation (c : FacetRpcCodec) : FacetRpcCodec :=
  mkCodec (codec_data c) (codec_capacity c) (codec_offset c) (S (codec_allocations c)) (codec_live c).

Definition Codec (A : Type) := Eff FacetRpcCodec A.

(** The kind that an enumeration is stored as. *)
Definition storage_kind (type : FacetType) (metadata : option FacetTypeMeta) : FacetType :=
  match type, metadata with
  | FACET_TYPE_ENUM, Some m => meta_underlying_kind m
  | _, _ => type
  end.

Definition codec_type_size (type : FacetType) (metadata : option FacetTypeMeta) : Z :=
  match storage_kind type metadata with
  | FACET_TYPE_U8 | FACET_TYPE_I8 => 1
  | FACET_TYPE_U16 | FACET_TYPE_I16 => 2
  | FACET_TYPE_U32 | FACET_TYPE_I32 => 4
  | FACET_TYPE_U64 | FACET_TYPE_I64 => 8
  | FACET_TYPE_BOOL => 1
  | FACET_TYPE_UUID => 16
  | FACET_TYPE_STRING => 16
  | FACET_TYPE_ARRAY => 16
  | FACET_TYPE_STRUCT => match metadata with Some m => meta_size m | None => 0 end
  | _ => 0
  end.

(** Element kind and element metadata of an array. *)
Definition array_element (metadata : option FacetTypeMeta) : FacetType * option FacetTypeMeta :=
  match metadata with
  | None => (FACET_TYPE_BYTES, None)
  | Some m =>
      (match meta_element_type m with Some e => meta_kind e | None => meta_element_kind m end,
       meta_element_type m)
  end.

Section Codec.
Context (malloc_ok : nat -> bool).

Definition codec_alloc : Codec bool := fun c =>
  (Ok (malloc_ok (codec_allocations c)), count_allocation c).

(** A new codec: 256 bytes unless another capacity is asked for. *)
Definition facet_rpc_codec_init (capacity : Z) (allocations : nat) : FacetResult * FacetRpcCodec :=
  let c := mkCodec [] (if capacity =? 0 then 256 else capacity) 0 (S allocations) 0 in
  (if malloc_ok allocations then FACET_OK else FACET_OUT_OF_MEMORY, c).

(** [while (capacity < needed)]: [None] when doubling would overflow. *)
Fixpoint grow_to (fuel : nat) (capacity needed : Z) : option Z :=
  if capacity <? needed then
    match fuel with
    | O => None
    | S f => if SIZE_MAX / 2 <? capacity then None else grow_to f (capacity * 2) needed
    end
  else Some capacity.

(** Append bytes; [data] is null when there is nothing at the pointer. *)
Definition codec_write (data : option bytes) (size : Z) : Codec unit :=
  match (if size =? 0 then Some [] else data) with
  | None => ferr FACET_INVALID_ARGUMENT
  | Some bytes =>
      run used <- fget codec_size;
      run capacity <- fget codec_capacity;
      if SIZE_MAX - used <? size then ferr FACET_BUFFER_TOO_SMALL
      else
        match (if capacity <? used + size
               then grow_to 64 (if capacity =? 0 then 256 else capacity) (used + size)
               else Some capacity) with
        | None => ferr FACET_BUFFER_TOO_SMALL
        | Some capacity' =>
            run ok <- (if capacity <? used + size then codec_alloc else fret true);
            if negb ok then ferr FACET_OUT_OF_MEMORY
            else if zlen bytes <? size then ffault
            else fput (fun c => set_codec_data (codec_data c ++ firstn (Z.to_nat size) bytes) capacity' c)
        end
  end.

(** The [i]-th byte is [value >> (8 * i)]. *)
Fixpoint le_bytes (n : nat) (value : Z) : bytes :=
  match n with
  | O => []
  | S m => u8 value :: le_bytes m (Z.shiftr value 8)
  end.

Fixpoint le_value (l : bytes) : Z :=
  match l with
  | [] => 0
  | b :: rest => Z.lor b (Z.shiftl (le_value rest) 8)
  end.

Definition codec_write_uint (v size : Z) : Codec unit :=
  if 8 <? size then ferr FACET_INVALID_ARGUMENT
  else codec_write (Some (le_bytes (Z.to_nat size) v)) size.

Definition codec_read (size : Z) : Codec bytes :=
  run offset <- fget codec_offset;
  run data <- fget codec_data;
  if ((zlen data <? offset) || (zlen data - offset <? size))%bool then ferr FACET_PROTOCOL_ERROR
  else
    run _ <- fput (set_codec_offset (offset + size));
    fret (firstn (Z.to_nat size) (skipn (Z.to_nat offset) data)).

Definition codec_read_uint (size : Z) : Codec Z :=
  if 8 <? size then ferr FACET_INVALID_ARGUMENT
  else run data <- codec_read size; fret (le_value data).

(** ** Encoding *)

(** The 64 bit word that stands for a scalar in memory. *)
Definition scalar_word (type : FacetType) (v : value) : option Z :=
  match type, v with
  | FACET_TYPE_U8, VInt n | FACET_TYPE_U16, VInt n | FACET_TYPE_U32, VInt n | FACET_TYPE_U64, VInt n => Some n
  | FACET_TYPE_I8, VInt n | FACET_TYPE_I16, VInt n | FACET_TYPE_I32, VInt n | FACET_TYPE_I64, VInt n =>
      Some (u64 n)
  | FACET_TYPE_BOOL, VBool b after => Some (if ((if b then 1 else 0) + after * 256 =? 0) then 0 else 1)
  | _, _ => None
  end.

(** The loops over the elements of an array and over the fields of a struct. *)
Fixpoint encode_elements (enc : value -> Codec unit) (count : nat) (data : list value) : Codec unit :=
  match count, data with
  | O, _ => fret tt
  | S n, v :: rest => enc v ;; encode_elements enc n rest
  | S _, [] => ffault
  end.

Fixpoint encode_fields (enc : FacetType -> option FacetTypeMeta -> value -> Codec unit)
    (fields : list (FacetType * option FacetTypeMeta)) (data : list value) : Codec unit :=
  match fields, data with
  | [], _ => fret tt
  | (kind, metadata) :: rest, v :: vs => enc kind metadata v ;; encode_fields enc rest vs
  | _ :: _, [] => ffault
  end.

Definition encode_string (v : value) : Codec unit :=
  match v with
  | VString data length =>
      if UINT32_MAX <? length then ferr FACET_INVALID_ARGUMENT
      else codec_write_uint length 4 ;; codec_write data length
  | _ => ffault
  end.

(** [enc] encodes one element. *)
Definition encode_array (enc : value -> Codec unit) (element_size : Z) (v : value) : Codec unit :=
  match v with
  | VArray data count =>
      if UINT32_MAX <? count then ferr FACET_INVALID_ARGUMENT
      else
        run result <- fcatch (codec_write_uint count 4);
        if ((element_size =? 0) && negb (count =? 0))%bool then ferr FACET_NOT_SUPPORTED
        else if (negb (count =? 0) && bool_decide (data = None))%bool then ferr FACET_INVALID_ARGUMENT
        else if bool_decide (result = FACET_OK) then encode_elements enc (Z.to_nat count) (default [] data)
        else ferr result
  | _ => ffault
  end.

Definition encode_scalar (kind : FacetType) (v : value) : Codec unit :=
  match scalar_word kind v with
  | Some word => codec_write_uint word (codec_type_size kind None)
  | None => ffault
  end.

(** [codec_value] with [decoding = 0]; a value of another shape is a fault, and the
    fuel bounds the nesting of the metadata. *)
Fixpoint encode (fuel : nat) (type : FacetType) (metadata : option FacetTypeMeta) (v : value) : Codec unit :=
  match fuel with
  | O => ffault
  | S f =>
      match storage_kind type metadata with
      | FACET_TYPE_STRING => encode_string v
      | FACET_TYPE_ARRAY =>
          let (element_kind, element) := array_element metadata in
          encode_array (encode f element_kind element) (codec_type_size element_kind element) v
      | FACET_TYPE_STRUCT =>
          match metadata, v with
          | None, _ => ferr FACET_INVALID_ARGUMENT
          | Some m, VStruct fields => encode_fields (encode f) (meta_struct_fields m) fields
          | Some _, _ => ffault
          end
      | FACET_TYPE_HANDLE | FACET_TYPE_LOCAL_PTR | FACET_TYPE_BYTES | FACET_TYPE_ENUM => ferr FACET_NOT_SUPPORTED
      | FACET_TYPE_UUID => match v with VUuid uuid => codec_write (Some uuid) 16 | _ => ffault end
      | kind => encode_scalar kind v
      end
  end.

(** ** Releasing *)

(** The kinds whose memory owns heap blocks. *)
Definition owning (kind : FacetType) : bool :=
  match kind with FACET_TYPE_STRING | FACET_TYPE_ARRAY | FACET_TYPE_STRUCT => true | _ => false end.

Definition sum_Z (l : list Z) : Z := fold_right Z.add 0 l.

(** The number of blocks that [codec_release_value] frees. *)
Fixpoint release_count (fuel : nat) (type : FacetType) (metadata : option FacetTypeMeta) (v : value) : Z :=
  match fuel with
  | O => 0
  | S f =>
      match type, v with
      | FACET_TYPE_STRING, VString data _ => match data with Some _ => 1 | None => 0 end
      | FACET_TYPE_ARRAY, VArray data count =>
          let element_kind := match metadata with Some m => meta_element_kind m | None => FACET_TYPE_BYTES end in
          let element := match metadata with Some m => meta_element_type m | None => None end in
          match data with
          | None => 0
          | Some l =>
              (if (negb (codec_type_size element_kind element =? 0) && owning element_kind)%bool
               then sum_Z (map (release_count f element_kind element) (firstn (Z.to_nat count) l)) else 0) + 1
          end
      | FACET_TYPE_STRUCT, VStruct fields =>
          match metadata with
          | Some m =>
              sum_Z (zip_with (fun (field : FacetType * option FacetTypeMeta) x =>
                                 if owning (fst field) then release_count f (fst field) (snd field) x else 0)
                       (meta_struct_fields m) fields)
          | None => 0
          end
      | _, _ => 0
      end
  end.

Definition codec_release_value (fuel : nat) (type : FacetType) (metadata : option FacetTypeMeta) (v : value)
  : Codec unit :=
  fput (add_live (- release_count fuel type metadata v)).

(** ** Decoding *)

(** Zeroed memory of a type. *)
Fixpoint zero_value (fuel : nat) (type : FacetType) (metadata : option FacetTypeMeta) : value :=
  match fuel with
  | O => VInt 0
  | S f =>
      match storage_kind type metadata with
      | FACET_TYPE_STRING => VString None 0
      | FACET_TYPE_ARRAY => VArray None 0
      | FACET_TYPE_STRUCT =>
          VStruct (match metadata with
                   | Some m => map (fun field => zero_value f (fst field) (snd field)) (meta_struct_fields m)
                   | None => []
                   end)
      | FACET_TYPE_BOOL => VBool false 0
      | FACET_TYPE_UUID => VUuid (repeat 0 16)
      | _ => VInt 0
      end
  end.

(** What a scalar output holds after [word] is stored in it. *)
Definition scalar_value (kind : FacetType) (word : Z) : option value :=
  match kind with
  | FACET_TYPE_U8 => Some (VInt (u8 word))
  | FACET_TYPE_U16 => Some (VInt (u16 word))
  | FACET_TYPE_U32 => Some (VInt (u32 word))
  | FACET_TYPE_U64 => Some (VInt word)
  | FACET_TYPE_I8 => Some (VInt (signed 8 word))
  | FACET_TYPE_I16 => Some (VInt (signed 16 word))
  | FACET_TYPE_I32 => Some (VInt (signed 32 word))
  | FACET_TYPE_I64 => Some (VInt (signed 64 word))
  | FACET_TYPE_BOOL => Some (VBool (negb (word =? 0)) 0)
  | _ => None
  end.

(** Run a step for its code and its value. *)
Definition fattempt {A} (m : Codec A) : Codec (FacetResult * option A) := fun c =>
  match m c with
  | (Ok a, c') => (Ok (FACET_OK, Some a), c')
  | (Err code, c') => (Ok (code, None), c')
  | (Fault, c') => (Fault, c')
  end.

(** Decoders return the code and the output memory, which was zeroed before. *)
Definition decode_string : Codec (FacetResult * value) :=
  run r <- fattempt (codec_read_uint 4);
  run size <- fget codec_size;
  run offset <- fget codec_offset;
  match r with
  | (FACET_OK, Some decoded_length) =>
      let length := u32 decoded_length in
      if ((size <? offset) || (size - offset <? length))%bool then fret (FACET_PROTOCOL_ERROR, VString None 0)
      else
        run ok <- codec_alloc;
        if negb ok then fret (FACET_OUT_OF_MEMORY, VString None 0)
        else
          fput (add_live 1) ;;
          run data <- fattempt (codec_read length);
          match data with
          | (FACET_OK, Some data) => fret (FACET_OK, VString (Some data) length)
          | (code, _) => fput (add_live (-1)) ;; fret (code, VString None 0)
          end
  | _ => fret (FACET_PROTOCOL_ERROR, VString None 0)
  end.

(** The elements one after the other: the memory of all of them. *)
Fixpoint decode_elements (dec : Codec (FacetResult * value)) (zero : value) (count : nat)
  : Codec (FacetResult * list value) :=
  match count with
  | O => fret (FACET_OK, [])
  | S n =>
      run r <- dec;
      if bool_decide (fst r = FACET_OK) then
        run rest <- decode_elements dec zero n;
        fret (fst rest, snd r :: snd rest)
      else fret (fst r, snd r :: repeat zero n)
  end.

Definition decode_array (dec : Codec (FacetResult * value)) (zero : value) (element_size : Z)
    (release : value -> Codec unit) : Codec (FacetResult * value) :=
  run r <- fattempt (codec_read_uint 4);
  match r with
  | (FACET_OK, Some decoded_count) =>
      let count := u32 decoded_count in
      if ((element_size =? 0) && negb (count =? 0))%bool then fret (FACET_PROTOCOL_ERROR, VArray None 0)
      else if (negb (count =? 0) && (SIZE_MAX / element_size <? count))%bool
      then fret (FACET_PROTOCOL_ERROR, VArray None 0)
      else if count =? 0 then fret (FACET_OK, VArray None 0)
      else
        run ok <- codec_alloc;
        if negb ok then fret (FACET_OUT_OF_MEMORY, VArray None 0)
        else
          fput (add_live 1) ;;
          run elements <- decode_elements dec zero (Z.to_nat count);
          if bool_decide (fst elements = FACET_OK) then fret (FACET_OK, VArray (Some (snd elements)) count)
          else
            release (default zero (head (snd elements))) ;;
            fput (add_live (-1)) ;;
            fret (fst elements, VArray None 0)
  | (code, _) => fret (code, VArray None 0)
  end.

(** The fields one after the other; the fields after a failure stay zero. *)
Fixpoint decode_fields (dec : FacetType -> option FacetTypeMeta -> Codec (FacetResult * value))
    (zero : FacetType -> option FacetTypeMeta -> value) (fields : list (FacetType * option FacetTypeMeta))
  : Codec (FacetResult * list value) :=
  match fields with
  | [] => fret (FACET_OK, [])
  | (kind, metadata) :: rest =>
      run r <- dec kind metadata;
      if bool_decide (fst r = FACET_OK) then
        run others <- decode_fields dec zero rest;
        fret (fst others, snd r :: snd others)
      else fret (fst r, snd r :: map (fun field => zero (fst field) (snd field)) rest)
  end.

Definition decode_scalar (kind : FacetType) (zero : value) : Codec (FacetResult * value) :=
  run r <- fattempt (codec_read_uint (codec_type_size kind None));
  match r with
  | (FACET_OK, Some word) =>
      match scalar_value kind word with
      | Some v => fret (FACET_OK, v)
      | None => fret (FACET_NOT_SUPPORTED, zero)
      end
  | (code, _) => fret (code, zero)
  end.

(** [codec_value] with [decoding = 1]. *)
Fixpoint decode (fuel : nat) (type : FacetType) (metadata : option FacetTypeMeta) : Codec (FacetResult * value) :=
  match fuel with
  | O => ffault
  | S f =>
      let zero := zero_value fuel type metadata in
      match storage_kind type metadata with
      | FACET_TYPE_STRING => decode_string
      | FACET_TYPE_ARRAY =>
          let (element_kind, element) := array_element metadata in
          decode_array (decode f element_kind element) (zero_value f element_kind element)
            (codec_type_size element_kind element) (codec_release_value f element_kind element)
      | FACET_TYPE_STRUCT =>
          match metadata with
          | None => fret (FACET_INVALID_ARGUMENT, zero)
          | Some m =>
              run r <- decode_fields (decode f) (zero_value f) (meta_struct_fields m);
              fret (fst r, VStruct (snd r))
          end
      | FACET_TYPE_HANDLE | FACET_TYPE_LOCAL_PTR | FACET_TYPE_BYTES | FACET_TYPE_ENUM =>
          fret (FACET_NOT_SUPPORTED, zero)
      | FACET_TYPE_UUID =>
          run r <- fattempt (codec_read 16);
          match r with
          | (FACET_OK, Some uuid) => fret (FACET_OK, VUuid uuid)
          | (code, _) => fret (code, zero)
          end
      | kind => decode_scalar kind zero
      end
  end.

(** The nesting of metadata, which bounds the recursion of the codec. *)
Fixpoint meta_depth (m : FacetTypeMeta) : nat :=
  S (Nat.max (match meta_element_type m with Some e => meta_depth e | None => 0 end)
       (fold_right (fun field n => Nat.max (match snd field with Some e => meta_depth e | None => 0 end) n) 0%nat
          (meta_struct_fields m))).

Definition codec_fuel (metadata : option FacetTypeMeta) : nat :=
  S (match metadata with Some m => meta_depth m | None => 0 end).

Definition facet_rpc_encode_value (type : FacetType) (metadata : option FacetTypeMeta) (v : value) : Codec unit :=
  encode (codec_fuel metadata) type metadata v.

Definition facet_rpc_decode_value (type : FacetType) (metadata : option FacetTypeMeta)
  : Codec (FacetResult * value) :=
  decode (codec_fuel metadata) type metadata.

Definition facet_rpc_release_value (type : FacetType) (metadata : option FacetTypeMeta) (v : value) : Codec unit :=
  codec_release_value (codec_fuel metadata) type metadata v.

End Codec.
