(* ===== verification/CodecFacts.v ===== *)
(** The RPC value codec: encoding appends the wire form of a typed value, decoding
    reads it back, decoding of arbitrary bytes is memory safe and accounts for every
    block it allocates when it succeeds. *)
From S2P Require Import Prelude Effects Codec.

(** ** Little-endian integers *)

Lemma le_bytes_length n v : length (le_bytes n v) = n.
Proof. revert v. induction n as [|n IH]; intros v; simpl; [done|]. by rewrite IH. Qed.

Lemma zlen_le_bytes n v : zlen (le_bytes n v) = Z.of_nat n.
Proof. unfold zlen. by rewrite le_bytes_length. Qed.

Lemma pow256_S n : 2 ^ (8 * Z.of_nat (S n)) = 256 * 2 ^ (8 * Z.of_nat n).
Proof.
  replace (8 * Z.of_nat (S n)) with (8 + 8 * Z.of_nat n) by lia. rewrite Z.pow_add_r by lia. done.
Qed.

Lemma le_value_bytes n v : le_value (le_bytes n v) = v mod 2 ^ (8 * Z.of_nat n).
Proof.
  revert v. induction n as [|n IH]; intros v; [simpl; by rewrite Z.mod_1_r|]. cbn [le_bytes le_value].
  rewrite IH, pow256_S, Z.lor_comm.
  assert (0 < 2 ^ (8 * Z.of_nat n)) as Hp by (apply Z.pow_pos_nonneg; lia).
  rewrite lor_shiftl_add; [|lia|apply Z.mod_pos_bound; lia].
  unfold u8. change (2 ^ 8) with 256. rewrite Z.shiftr_div_pow2 by lia. change (2 ^ 8) with 256.
  rewrite (Z.rem_mul_r v 256 (2 ^ (8 * Z.of_nat n))) by lia. lia.
Qed.

Lemma le_value_range l : bytes_ok l -> 0 <= le_value l < 2 ^ (8 * zlen l).
Proof.
  induction l as [|b l IH]; intros Hb; [done|]. apply Forall_cons in Hb as [Hb Hl]. specialize (IH Hl).
  unfold zlen in *. cbn [length]. rewrite pow256_S. cbn [le_value]. rewrite Z.lor_comm. unfold byte_ok in Hb.
  rewrite lor_shiftl_add by lia. change (2 ^ 8) with 256. lia.
Qed.

Lemma le_bytes_value l : bytes_ok l -> le_bytes (length l) (le_value l) = l.
Proof.
  induction l as [|b l IH]; intros Hb; [done|]. apply Forall_cons in Hb as [Hb Hl].
  cbn [length le_bytes le_value]. unfold byte_ok in Hb. rewrite Z.lor_comm, lor_shiftl_add by lia.
  change (2 ^ 8) with 256. unfold u8. change (2 ^ 8) with 256.
  rewrite Z.add_comm, Z.mod_add, Z.mod_small by lia. f_equal. etransitivity; [|by apply IH]. f_equal.
  rewrite Z.shiftr_div_pow2 by lia. change (2 ^ 8) with 256. rewrite Z.div_add, Z.div_small by lia. lia.
Qed.

(** ** The growing buffer *)

Lemma grow_to_ok fuel capacity needed :
  0 < capacity -> needed < 2 ^ 63 -> needed <= capacity * 2 ^ Z.of_nat fuel ->
  exists capacity', grow_to fuel capacity needed = Some capacity' /\ needed <= capacity' /\
    capacity <= capacity' /\ (capacity < 2 ^ 64 -> capacity' < 2 ^ 64).
Proof.
  revert capacity. induction fuel as [|f IH]; intros capacity Hc Hn Hf; cbn [grow_to].
  - rewrite Z.pow_0_r in Hf. destruct (_ <? needed) eqn:E; bool_props; [lia|]. eexists. split; [done|lia].
  - destruct (_ <? needed) eqn:E; bool_props; [|eexists; split; [done|lia]].
    rewrite (proj2 (Z.ltb_ge (SIZE_MAX / 2) capacity)) by (unfold SIZE_MAX; change ((2 ^ 64 - 1) / 2) with (2 ^ 63 - 1); lia).
    destruct (IH (capacity * 2)) as (c & Hg & H1 & H2 & H3); [lia|lia|..].
    + rewrite Nat2Z.inj_succ, Z.pow_succ_r in Hf by lia. lia.
    + exists c. split; [done|]. split; [done|]. split; [lia|]. intros _. apply H3. lia.
Qed.

Lemma grow_to_Some fuel capacity needed capacity' :
  grow_to fuel capacity needed = Some capacity' -> 0 < capacity < 2 ^ 64 ->
  needed <= capacity' < 2 ^ 64.
Proof.
  revert capacity. induction fuel as [|f IH]; intros capacity H Hc; cbn [grow_to] in H;
    destruct (_ <? needed) eqn:E; bool_props; simplify_eq; [lia| |lia].
  destruct (SIZE_MAX / 2 <? capacity) eqn:E2; [done|]. bool_props. unfold SIZE_MAX in E2.
  change ((2 ^ 64 - 1) / 2) with (2 ^ 63 - 1) in E2. apply IH in H; lia.
Qed.

Definition codec_ok (c : FacetRpcCodec) : Prop :=
  codec_size c <= codec_capacity c < 2 ^ 64 /\ 0 <= codec_offset c.

(** ** The wire form of typed values *)

(** What the receiver of a value gets: a [bool] is true if it or one of the three bytes
    after it is not zero, a null string becomes an empty one, and an array without
    elements has no data. *)
Fixpoint received (v : value) : value :=
  match v with
  | VBool b after => VBool (b || negb (after =? 0)) 0
  | VString data length => VString (Some (default [] data)) length
  | VArray data count =>
      if count =? 0 then VArray None 0
      else VArray (match data with Some l => Some (map received l) | None => None end) count
  | VStruct fields => VStruct (map received fields)
  | VInt _ | VUuid _ => v
  end.

(** The values that arrive as they are. *)
Fixpoint faithful (v : value) : bool :=
  match v with
  | VBool _ after => after =? 0
  | VString data _ => bool_decide (data <> None)
  | VArray data count =>
      if count =? 0 then bool_decide (data = None) else match data with Some l => forallb faithful l | None => true end
  | VStruct fields => forallb faithful fields
  | VInt _ | VUuid _ => true
  end.

(** The values that a scalar kind can hold; [after] is three bytes. *)
Definition scalar_ok (kind : FacetType) (v : value) : Prop :=
  match kind, v with
  | FACET_TYPE_U8, VInt n => 0 <= n < 2 ^ 8
  | FACET_TYPE_U16, VInt n => 0 <= n < 2 ^ 16
  | FACET_TYPE_U32, VInt n => 0 <= n < 2 ^ 32
  | FACET_TYPE_U64, VInt n => 0 <= n < 2 ^ 64
  | FACET_TYPE_I8, VInt n => - 2 ^ 7 <= n < 2 ^ 7
  | FACET_TYPE_I16, VInt n => - 2 ^ 15 <= n < 2 ^ 15
  | FACET_TYPE_I32, VInt n => - 2 ^ 31 <= n < 2 ^ 31
  | FACET_TYPE_I64, VInt n => - 2 ^ 63 <= n < 2 ^ 63
  | FACET_TYPE_BOOL, VBool _ after => 0 <= after < 2 ^ 24
  | _, _ => False
  end.

Lemma signed_of_word w n :
  0 < w <= 64 -> - 2 ^ (w - 1) <= n < 2 ^ (w - 1) -> signed w (u64 n mod 2 ^ w) = n.
Proof.
  intros Hw Hn. unfold signed, u64.
  assert (2 ^ w = 2 * 2 ^ (w - 1)) as E by (rewrite <- Z.pow_succ_r by lia; f_equal; lia).
  assert (0 < 2 ^ (w - 1)) by (apply Z.pow_pos_nonneg; lia).
  assert (n mod 2 ^ 64 mod 2 ^ w = n mod 2 ^ w) as ->.
  { symmetry. apply Znumtheory.Zmod_div_mod; [lia|lia|]. exists (2 ^ (64 - w)). rewrite <- Z.pow_add_r by lia. f_equal. lia. }
  rewrite Z.mod_mod by lia. destruct (decide (0 <= n)).
  - rewrite Z.mod_small by lia. rewrite (proj2 (Z.ltb_lt _ _)) by lia. done.
  - assert (n mod 2 ^ w = n + 2 ^ w) as ->.
    { symmetry. apply Z.mod_unique with (-1); lia. }
    rewrite (proj2 (Z.ltb_ge _ _)) by lia. lia.
Qed.

(** A scalar survives its word, cut to its width. *)
Lemma scalar_roundtrip kind v :
  scalar_ok kind v -> exists word n, scalar_word kind v = Some word /\
    codec_type_size kind None = Z.of_nat n /\ (0 < n <= 8)%nat /\
    scalar_value kind (word mod 2 ^ (8 * Z.of_nat n)) = Some (received v).
Proof.
  intros H. destruct kind, v; try done; simpl in H; cbn [scalar_word scalar_value codec_type_size storage_kind].
  - exists n, 1%nat. split_and!; try done; [lia..|]. change (8 * Z.of_nat 1) with 8. unfold u8. by rewrite !(Z.mod_small n) by lia.
  - exists n, 2%nat. split_and!; try done; [lia..|]. change (8 * Z.of_nat 2) with 16. unfold u16. by rewrite !(Z.mod_small n) by lia.
  - exists n, 4%nat. split_and!; try done; [lia..|]. change (8 * Z.of_nat 4) with 32. unfold u32. by rewrite !(Z.mod_small n) by lia.
  - exists n, 8%nat. split_and!; try done; [lia..|]. change (8 * Z.of_nat 8) with 64. by rewrite !(Z.mod_small n) by lia.
  - exists (u64 n), 1%nat. split_and!; try done; [lia..|]. change (8 * Z.of_nat 1) with 8. by rewrite signed_of_word by (lia || exact H).
  - exists (u64 n), 2%nat. split_and!; try done; [lia..|]. change (8 * Z.of_nat 2) with 16. by rewrite signed_of_word by (lia || exact H).
  - exists (u64 n), 4%nat. split_and!; try done; [lia..|]. change (8 * Z.of_nat 4) with 32. by rewrite signed_of_word by (lia || exact H).
  - exists (u64 n), 8%nat. split_and!; try done; [lia..|]. change (8 * Z.of_nat 8) with 64. by rewrite signed_of_word by (lia || exact H).
  - eexists _, 1%nat. split_and!; try done; [lia..|]. cbn [received]. change (8 * Z.of_nat 1) with 8.
    destruct b; cbn [orb]; [rewrite (proj2 (Z.eqb_neq (1 + after * 256) 0)) by lia; done|].
    destruct (after =? 0) eqn:E; bool_props; [by subst|]. by rewrite (proj2 (Z.eqb_neq (0 + after * 256) 0)) by lia.
Qed.

(** [wire type metadata v b]: [v] is a value of the type and [b] is its wire form. *)
Inductive wire : FacetType -> option FacetTypeMeta -> value -> bytes -> Prop :=
  | wire_scalar type metadata v word n :
      scalar_ok (storage_kind type metadata) v -> scalar_word (storage_kind type metadata) v = Some word ->
      codec_type_size (storage_kind type metadata) None = Z.of_nat n ->
      wire type metadata v (le_bytes n word)
  | wire_uuid type metadata uuid :
      storage_kind type metadata = FACET_TYPE_UUID -> zlen uuid = 16 -> wire type metadata (VUuid uuid) uuid
  | wire_string type metadata data :
      storage_kind type metadata = FACET_TYPE_STRING -> zlen data <= UINT32_MAX ->
      wire type metadata (VString (Some data) (zlen data)) (le_bytes 4 (zlen data) ++ data)
  | wire_null_string type metadata :
      storage_kind type metadata = FACET_TYPE_STRING -> wire type metadata (VString None 0) (le_bytes 4 0)
  | wire_empty_array type metadata data :
      storage_kind type metadata = FACET_TYPE_ARRAY -> wire type metadata (VArray data 0) (le_bytes 4 0)
  | wire_array type metadata elements b :
      storage_kind type metadata = FACET_TYPE_ARRAY -> elements <> [] -> zlen elements <= UINT32_MAX ->
      codec_type_size (fst (array_element metadata)) (snd (array_element metadata)) <> 0 ->
      zlen elements <= SIZE_MAX / codec_type_size (fst (array_element metadata)) (snd (array_element metadata)) ->
      wire_elements (fst (array_element metadata)) (snd (array_element metadata)) elements b ->
      wire type metadata (VArray (Some elements) (zlen elements)) (le_bytes 4 (zlen elements) ++ b)
  | wire_struct type m fields b :
      storage_kind type (Some m) = FACET_TYPE_STRUCT -> wire_fields (meta_struct_fields m) fields b ->
      wire type (Some m) (VStruct fields) b
with wire_elements : FacetType -> option FacetTypeMeta -> list value -> bytes -> Prop :=
  | wire_no_elements kind metadata : wire_elements kind metadata [] []
  | wire_more_elements kind metadata v vs b bs :
      wire kind metadata v b -> wire_elements kind metadata vs bs ->
      wire_elements kind metadata (v :: vs) (b ++ bs)
with wire_fields : list (FacetType * option FacetTypeMeta) -> list value -> bytes -> Prop :=
  | wire_no_fields : wire_fields [] [] []
  | wire_more_fields kind metadata rest v vs b bs :
      wire kind metadata v b -> wire_fields rest vs bs ->
      wire_fields ((kind, metadata) :: rest) (v :: vs) (b ++ bs).

Scheme wire_mut := Induction for wire Sort Prop
  with wire_elements_mut := Induction for wire_elements Sort Prop
  with wire_fields_mut := Induction for wire_fields Sort Prop.

Lemma codec_fuel_element metadata :
  metadata <> None -> (codec_fuel (snd (array_element metadata)) < codec_fuel metadata)%nat.
Proof.
  destruct metadata as [[]|]; [|done]. intros _. unfold codec_fuel. simpl. destruct meta_element_type; lia.
Qed.

Lemma codec_fuel_field m kind metadata :
  (kind, metadata) ∈ meta_struct_fields m -> (codec_fuel metadata < codec_fuel (Some m))%nat.
Proof.
  unfold codec_fuel. intros Hin.
  assert (match metadata with Some e => meta_depth e | None => 0 end <=
    fold_right (fun field n => Nat.max (match snd field with Some e => meta_depth e | None => 0 end) n) 0
      (meta_struct_fields m))%nat as H.
  { induction (meta_struct_fields m) as [|x l IH]; [by apply elem_of_nil in Hin|]. simpl.
    apply elem_of_cons in Hin as [<-|Hin]; simpl; [lia|]. specialize (IH Hin). lia. }
  destruct m. simpl in *. lia.
Qed.

Lemma received_list (l : list value) :
  Forall (fun v => faithful v = true -> received v = v) l -> forallb faithful l = true -> map received l = l.
Proof.
  induction 1 as [|v l Hv _ IH]; [done|]. simpl. intros [H1 H2]%andb_true_iff. by rewrite Hv, IH.
Qed.

(** Induction on values through their lists. *)
Lemma value_list_ind (P : value -> Prop) :
  (forall n, P (VInt n)) -> (forall b after, P (VBool b after)) -> (forall uuid, P (VUuid uuid)) ->
  (forall data length, P (VString data length)) -> (forall count, P (VArray None count)) ->
  (forall l count, Forall P l -> P (VArray (Some l) count)) -> (forall l, Forall P l -> P (VStruct l)) -> forall v, P v.
Proof.
  intros Hi Hb Hu Hs Hn Ha Ht. fix IH 1. intros [n|b after|uuid|data length|[l|] count|l];
    [apply Hi|apply Hb|apply Hu|apply Hs|apply Ha|apply Hn|apply Ht];
    induction l as [|v l IHl]; constructor; [apply IH|exact IHl|apply IH|exact IHl].
Qed.

Lemma received_faithful v : faithful v = true -> received v = v.
Proof.
  induction v as [n|b after|uuid|data length|count|l count IH|l IH] using value_list_ind; simpl; intros H; bool_props; try done.
  - subst after. by destruct b.
  - by destruct data.
  - destruct (count =? 0) eqn:E; [|done]. bool_props. by subst.
  - destruct (count =? 0); bool_props; [done|]. by rewrite received_list.
  - by rewrite received_list.
Qed.

(** ** What release frees *)

(** Metadata as the interface compiler generates it: the element kind repeats the
    kind of the element type, and enumerations are stored as integers. *)
Fixpoint wf_meta (m : FacetTypeMeta) : Prop :=
  owning (meta_underlying_kind m) = false /\
  match meta_element_type m with
  | Some e => meta_element_kind m = meta_kind e /\ wf_meta e
  | None => True
  end /\
  fold_right (fun field P => match snd field with Some e => wf_meta e | None => True end /\ P) True
    (meta_struct_fields m).

Definition wf_metadata (metadata : option FacetTypeMeta) : Prop :=
  match metadata with Some m => wf_meta m | None => True end.

Lemma wf_metadata_fields m :
  wf_meta m -> Forall (fun field => wf_metadata (snd field)) (meta_struct_fields m).
Proof.
  destruct m as [k u sz el ek fields]. simpl. intros (_ & _ & H). induction fields as [|x fields IH]; [done|].
  simpl in H. destruct H as [H1 H2]. constructor; [done|auto].
Qed.

Lemma wf_metadata_element metadata :
  wf_metadata metadata -> wf_metadata (snd (array_element metadata)) /\
  match metadata with Some m => meta_element_kind m | None => FACET_TYPE_BYTES end = fst (array_element metadata).
Proof.
  destruct metadata as [m|]; [|done]. simpl. destruct m as [k u sz el ek fields]. simpl. intros (_ & H & _).
  destruct el; [|done]. destruct H as [-> ?]. done.
Qed.

Lemma sum_Z_nonneg l : Forall (fun x => 0 <= x) l -> 0 <= sum_Z l.
Proof. induction 1; unfold sum_Z in *; simpl; lia. Qed.

Lemma release_count_nonneg fuel type metadata v : 0 <= release_count fuel type metadata v.
Proof.
  revert type metadata v. induction fuel as [|f IH]; intros type metadata v; [done|]. cbn [release_count].
  destruct type, v; try lia.
  - destruct data; lia.
  - destruct metadata as [m|]; [|done]. apply sum_Z_nonneg. generalize (meta_struct_fields m).
    intros fields0. revert fields. induction fields0 as [|x l IHl]; intros [|v fields]; simpl; constructor; [|auto].
    case_match; [apply IH|lia].
  - destruct data as [l|]; [|lia].
    assert (0 <= sum_Z (map (release_count f (match metadata with Some m => meta_element_kind m | None => FACET_TYPE_BYTES end)
      (match metadata with Some m => meta_element_type m | None => None end)) (firstn (Z.to_nat count) l))).
    { apply sum_Z_nonneg, Forall_fmap, Forall_forall. intros x _. apply IH. }
    destruct (_ && _)%bool; lia.
Qed.

Lemma release_not_owning fuel type metadata v : owning type = false -> release_count fuel type metadata v = 0.
Proof. destruct fuel; [done|]. by destruct type. Qed.

Lemma release_zero fuel type metadata : release_count fuel type metadata (zero_value fuel type metadata) = 0.
Proof.
  revert type metadata. induction fuel as [|f IH]; intros type metadata; [done|].
  destruct (owning type) eqn:Eo; [|by apply release_not_owning]. destruct type; try done.
  destruct metadata as [m|]; [|done]. cbn [release_count zero_value storage_kind].
  induction (meta_struct_fields m) as [|x l IHl]; [done|]. simpl. rewrite IHl. case_match; [by rewrite IH|done].
Qed.

(** The positions of a decoder: inside the data. *)
Definition codec_in (c : FacetRpcCodec) : Prop := 0 <= codec_offset c <= codec_size c.

(** A decoder that never faults, stays inside the data, and whose output memory
    [a] owns [rel a] of the blocks it allocated, all of them when it succeeds. *)
Definition accounts {A} (m : Codec (FacetResult * A)) (rel : A -> Z) : Prop :=
  forall c, codec_in c -> exists code a c', m c = (Ok (code, a), c') /\ codec_in c' /\
    codec_data c' = codec_data c /\ codec_offset c <= codec_offset c' /\
    codec_live c + rel a <= codec_live c' /\ (code = FACET_OK -> codec_live c' = codec_live c + rel a).

Lemma accounts_ret {A} code (a : A) rel : rel a = 0 -> accounts (fret (code, a)) rel.
Proof. intros H c Hc. exists code, a, c. rewrite H, Z.add_0_r. split_and!; try done; lia. Qed.

(** A step that only moves the position. *)
Definition moves {A} (m : Codec A) : Prop :=
  forall c, codec_in c -> exists a c', m c = (Ok a, c') /\ codec_in c' /\
    codec_data c' = codec_data c /\ codec_offset c <= codec_offset c' /\ codec_live c' = codec_live c.

Lemma accounts_after {A C} (m : Codec A) (k : A -> Codec (FacetResult * C)) rel :
  moves m -> (forall a, accounts (k a) rel) -> accounts (fbind m k) rel.
Proof.
  intros Hm Hk c Hc. destruct (Hm c Hc) as (a & c1 & E & H1 & H2 & H3 & H4).
  destruct (Hk a c1 H1) as (code & x & c2 & E2 & H5 & H6 & H7 & H8 & H9). exists code, x, c2.
  rewrite fbind_eq, E, E2. split_and!; [done|done|congruence|lia|lia|]. intros Hok. rewrite H9 by done. lia.
Qed.

Lemma moves_get {A} (f : FacetRpcCodec -> A) : moves (fget f).
Proof. intros c Hc. exists (f c), c. split_and!; try done; lia. Qed.

Lemma moves_read size : 0 <= size -> moves (fattempt (codec_read size)).
Proof.
  intros Hs c Hc. unfold fattempt, codec_read, fbind, fget, fput, fret, ferr. unfold codec_in, codec_size in *.
  destruct (_ || _)%bool eqn:E.
  - eexists _, _. split; [reflexivity|]. split_and!; try done; lia.
  - bool_props. eexists _, _. split; [reflexivity|]. simpl. split_and!; try done; lia.
Qed.

Lemma moves_read_uint size : 0 <= size -> moves (fattempt (codec_read_uint size)).
Proof.
  intros Hs c Hc. destruct (moves_read size Hs c Hc) as (a & c' & E & Hrest).
  unfold fattempt, codec_read_uint in *. destruct (8 <? size).
  - unfold ferr. eexists _, c. split; [reflexivity|]. split_and!; try done; lia.
  - rewrite fbind_eq. destruct (codec_read size c) as [r c1]. destruct r; simplify_eq; eexists _, _; (split; [reflexivity|done]).
Qed.

Section Facts.
Context (malloc_ok : nat -> bool).

(** Every allocation succeeds. *)
Definition memory : Prop := forall n, malloc_ok n = true.

(** A step that appends [b], unless memory or the address space runs out. *)
Definition appends (m : Codec unit) (b : bytes) : Prop :=
  forall c, codec_ok c -> exists r c', m c = (r, c') /\ codec_ok c' /\
    codec_offset c' = codec_offset c /\ codec_live c' = codec_live c /\
    match r with
    | Ok _ => codec_data c' = codec_data c ++ b
    | Err code => code = FACET_OUT_OF_MEMORY \/ code = FACET_BUFFER_TOO_SMALL
    | Fault => False
    end /\
    (memory -> codec_size c + zlen b < 2 ^ 63 -> r = Ok tt).

Lemma appends_nil : appends (fret tt) [].
Proof. intros c Hc. exists (Ok tt), c. rewrite app_nil_r. done. Qed.

Lemma appends_bind m1 b1 (k : unit -> Codec unit) b2 :
  appends m1 b1 -> appends (k tt) b2 -> appends (fbind m1 k) (b1 ++ b2).
Proof.
  intros H1 H2 c Hc. destruct (H1 c Hc) as (r1 & c1 & E1 & Hok1 & Ho1 & Hl1 & Hr1 & Hm1). rewrite fbind_eq, E1.
  destruct r1 as [[]|code|]; [|exists (Err code), c1|done].
  - destruct (H2 c1 Hok1) as (r2 & c2 & E2 & Hok2 & Ho2 & Hl2 & Hr2 & Hm2). exists r2, c2.
    split_and!; [done|done|congruence|congruence| |].
    + destruct r2; [|done|done]. by rewrite Hr2, Hr1, app_assoc.
    + intros Hm Hs. rewrite zlen_app in Hs. apply Hm2; [done|]. unfold codec_size in *. rewrite Hr1, zlen_app.
      pose proof (zlen_nonneg b2). lia.
  - split_and!; try done. intros Hm Hs. exfalso. rewrite zlen_app in Hs. pose proof (zlen_nonneg b2).
    specialize (Hm1 Hm ltac:(lia)). done.
Qed.

Lemma codec_write_appends b size : zlen b = size -> appends (codec_write malloc_ok (Some b) size) b.
Proof.
  intros Hsz c Hc. destruct Hc as [Hcap Hoff]. pose proof (zlen_nonneg b) as Hb. unfold codec_size in *.
  assert ((if size =? 0 then Some [] else Some b) = Some b) as E.
  { destruct (size =? 0) eqn:E0; [|done]. bool_props. by destruct b; [|unfold zlen in *; simpl in *; lia]. }
  unfold codec_write. rewrite E. unfold fbind at 1, fget. unfold fbind at 1. cbv beta iota. unfold codec_size.
  destruct (SIZE_MAX - zlen (codec_data c) <? size) eqn:E1; bool_props; unfold SIZE_MAX in E1.
  { exists (Err FACET_BUFFER_TOO_SMALL), c. split_and!; try done; [by right|]. intros. lia. }
  destruct (codec_capacity c <? zlen (codec_data c) + size) eqn:E2; bool_props.
  - set (cap := if codec_capacity c =? 0 then 256 else codec_capacity c).
    assert (0 < cap < 2 ^ 64) as Hcap'.
    { pose proof (zlen_nonneg (codec_data c)). subst cap. destruct (codec_capacity c =? 0) eqn:Ez; bool_props; lia. }
    destruct (grow_to 64 cap (zlen (codec_data c) + size)) as [cap'|] eqn:Eg.
    + pose proof (grow_to_Some _ _ _ _ Eg Hcap') as Hg. unfold fbind, codec_alloc. cbv beta iota.
      destruct (malloc_ok (codec_allocations c)) eqn:Em; simpl negb; cbv iota.
      * rewrite (proj2 (Z.ltb_ge _ _)) by lia. exists (Ok tt), (set_codec_data (codec_data c ++ b) cap' (count_allocation c)).
        unfold fput. cbn. rewrite firstn_all2 by (unfold zlen in *; lia).
        split_and!; try done. split; [|done]. unfold codec_size. cbn. rewrite zlen_app. lia.
      * eexists _, _. split; [done|]. split_and!; try done; [by left|]. intros Hm. by rewrite Hm in Em.
    + exists (Err FACET_BUFFER_TOO_SMALL), c. split_and!; try done; [by right|]. intros _ Hs. exfalso.
      destruct (grow_to_ok 64 cap (zlen (codec_data c) + size)) as (x & Hx & _); [lia|lia| |congruence].
      change (2 ^ Z.of_nat 64) with (2 ^ 64). nia.
  - unfold fbind, fret. cbn. rewrite (proj2 (Z.ltb_ge _ _)) by lia.
    exists (Ok tt), (set_codec_data (codec_data c ++ b) (codec_capacity c) c). unfold fput.
    rewrite firstn_all2 by (unfold zlen in *; lia). split_and!; try done. split; [|done].
    unfold codec_size. cbn. rewrite zlen_app. lia.
Qed.

Lemma codec_write_uint_appends v n :
  (n <= 8)%nat -> appends (codec_write_uint malloc_ok v (Z.of_nat n)) (le_bytes n v).
Proof.
  intros Hn. unfold codec_write_uint. rewrite (proj2 (Z.ltb_ge _ _)) by lia. rewrite Nat2Z.id.
  apply codec_write_appends, zlen_le_bytes.
Qed.

(** ** Encoding *)

Lemma appends_fault_free m b c : appends m b -> codec_ok c -> fst (m c) <> Fault.
Proof. intros H Hc. destruct (H c Hc) as (r & c' & -> & _ & _ & _ & Hr & _). by destruct r. Qed.

(** [result = m1; if (result == FACET_OK) m2] appends both. *)
Lemma appends_catch m1 b1 (m2 : Codec unit) b2 (k : FacetResult -> Codec unit) :
  appends m1 b1 -> appends m2 b2 ->
  (forall r, k r = if bool_decide (r = FACET_OK) then m2 else ferr r) ->
  appends (fbind (fcatch m1) k) (b1 ++ b2).
Proof.
  intros H1 H2 Hk c Hc. destruct (appends_bind m1 b1 (fun _ => m2) b2 H1 H2 c Hc) as (r & c' & E & Hrest).
  exists r, c'. split; [|done]. rewrite <- E. rewrite !fbind_eq, fcatch_eq.
  destruct (H1 c Hc) as (r1 & c1 & E1 & _ & _ & _ & Hr1 & _). rewrite E1. destruct r1 as [[]|code|]; [| |done].
  - by rewrite Hk.
  - rewrite Hk. by destruct Hr1 as [->| ->].
Qed.

Lemma encode_scalar_appends kind v word n :
  scalar_ok kind v -> scalar_word kind v = Some word -> codec_type_size kind None = Z.of_nat n ->
  appends (encode_scalar malloc_ok kind v) (le_bytes n word).
Proof.
  intros Hok Hw Hn. unfold encode_scalar. rewrite Hw, Hn. apply codec_write_uint_appends.
  destruct (scalar_roundtrip kind v Hok) as (? & m & _ & Hm & ? & _). lia.
Qed.

Lemma scalar_ok_dispatch {A} kind v (s a t u d e : A) :
  scalar_ok kind v ->
  match kind with
  | FACET_TYPE_STRING => s
  | FACET_TYPE_ARRAY => a
  | FACET_TYPE_STRUCT => t
  | FACET_TYPE_HANDLE | FACET_TYPE_LOCAL_PTR | FACET_TYPE_BYTES | FACET_TYPE_ENUM => e
  | FACET_TYPE_UUID => u
  | _ => d
  end = d.
Proof. by destruct kind, v. Qed.

Lemma encode_appends type metadata v b :
  wire type metadata v b ->
  forall fuel, (codec_fuel metadata <= fuel)%nat -> appends (encode malloc_ok fuel type metadata v) b.
Proof.
  intros H. induction H using wire_mut with
    (P0 := fun kind metadata vs b _ => forall fuel, (codec_fuel metadata <= fuel)%nat ->
             appends (encode_elements (encode malloc_ok fuel kind metadata) (length vs) vs) b)
    (P1 := fun fields vs b _ => forall fuel,
             Forall (fun field => (codec_fuel (snd field) <= fuel)%nat) fields ->
             appends (encode_fields (encode malloc_ok fuel) fields vs) b).
  - intros [|f] Hf; [unfold codec_fuel in Hf; lia|]. cbn [encode].
    pose proof (encode_scalar_appends _ _ _ _ s e e0) as Ha.
    destruct (storage_kind type metadata), v; done.
  - intros [|f] Hf; [unfold codec_fuel in Hf; lia|]. cbn [encode]. rewrite e. by apply codec_write_appends.
  - intros [|f] Hf; [unfold codec_fuel in Hf; lia|]. cbn [encode]. rewrite e. unfold encode_string.
    rewrite (proj2 (Z.ltb_ge _ _)) by done.
    apply appends_bind; [by apply (codec_write_uint_appends _ 4); lia|by apply codec_write_appends].
  - intros [|f] Hf; [unfold codec_fuel in Hf; lia|]. cbn [encode]. rewrite e. unfold encode_string.
    change (UINT32_MAX <? 0) with false. cbv iota. rewrite <- (app_nil_r (le_bytes 4 0)).
    apply appends_bind; [by apply (codec_write_uint_appends _ 4); lia|exact (codec_write_appends [] 0 eq_refl)].
  - intros [|f] Hf; [unfold codec_fuel in Hf; lia|]. cbn [encode]. rewrite e. destruct (array_element metadata) as [ek em].
    unfold encode_array. change (UINT32_MAX <? 0) with false. cbv iota. rewrite <- (app_nil_r (le_bytes 4 0)).
    eapply appends_catch; [by apply (codec_write_uint_appends _ 4); lia|apply appends_nil|].
    intros r. rewrite andb_false_r. done.
  - intros [|f] Hf; [unfold codec_fuel in Hf; lia|]. cbn [encode]. rewrite e. 
    assert (metadata <> None) as Hmd by (intros ->; done). pose proof (codec_fuel_element metadata Hmd) as Hfu.
    destruct (array_element metadata) as [ek em]. cbn [fst snd] in *. unfold encode_array.
    rewrite (proj2 (Z.ltb_ge _ _)) by done.
    assert (zlen elements =? 0 = false) as Hz by (apply Z.eqb_neq; unfold zlen; destruct elements; [done|simpl; lia]).
    eapply appends_catch; [by apply (codec_write_uint_appends _ 4); lia|apply (IHwire f); lia|].
    intros r. rewrite Hz, (proj2 (Z.eqb_neq _ _)) by done. simpl. unfold zlen. by rewrite Nat2Z.id.
  - intros [|f] Hf; [unfold codec_fuel in Hf; lia|]. cbn [encode]. rewrite e. apply IHwire.
    apply Forall_forall. intros [kind md] Hin. apply codec_fuel_field in Hin. simpl. lia.
  - intros fuel Hf. apply appends_nil.
  - intros fuel Hf. simpl. apply appends_bind; auto.
  - intros fuel Hf. apply appends_nil.
  - intros fuel Hf. apply Forall_cons in Hf as [Hf1 Hf2]. simpl. apply appends_bind; auto.
Qed.

(** ** Decoding what was encoded *)

(** A decoder that, at a wire form [b] in the buffer, yields [v] and steps over it. *)
Definition parses {A} (m : Codec A) (b : bytes) (a : A) : Prop :=
  forall c pre post, codec_data c = pre ++ b ++ post -> codec_offset c = zlen pre -> memory ->
    exists c', m c = (Ok a, c') /\ codec_data c' = codec_data c /\ codec_offset c' = zlen (pre ++ b).

Lemma parses_bind {A C} (m : Codec A) b1 a (k : A -> Codec C) b2 x :
  parses m b1 a -> parses (k a) b2 x -> parses (fbind m k) (b1 ++ b2) x.
Proof.
  intros H1 H2 c pre post Hd Ho Hm. destruct (H1 c pre (b2 ++ post)) as (c1 & E1 & Hd1 & Ho1);
    [by rewrite Hd, <- app_assoc|done|done|].
  destruct (H2 c1 (pre ++ b1) post) as (c2 & E2 & Hd2 & Ho2);
    [by rewrite Hd1, Hd, <- !app_assoc|done|done|].
  exists c2. rewrite fbind_eq, E1, E2. split; [done|]. split; [congruence|]. by rewrite Ho2, <- app_assoc.
Qed.

Lemma parses_pure {A C} (m : Codec A) b a (k : A -> Codec C) x :
  parses m b a -> parses (k a) [] x -> parses (fbind m k) b x.
Proof. intros H1 H2. rewrite <- (app_nil_r b). by eapply parses_bind. Qed.

Lemma parses_ret {A} (a : A) : parses (fret a) [] a.
Proof. intros c pre post Hd Ho _. exists c. rewrite app_nil_r. done. Qed.

Lemma parses_read b size : zlen b = size -> parses (codec_read size) b b.
Proof.
  intros Hsz c pre post Hd Ho _. unfold codec_read, fbind, fget, fput, fret. rewrite Ho, Hd.
  pose proof (zlen_nonneg b). pose proof (zlen_nonneg post). rewrite !zlen_app.
  rewrite (proj2 (Z.ltb_ge _ _)) by lia. rewrite (proj2 (Z.ltb_ge _ _)) by lia. cbn [orb].
  exists (set_codec_offset (zlen pre + size) c). split; [|split; [exact Hd|simpl; by rewrite Hsz]].
  f_equal. f_equal. unfold zlen. rewrite Nat2Z.id, drop_app_length. rewrite <- Hsz. unfold zlen. by rewrite Nat2Z.id, take_app_length.
Qed.

Lemma parses_read_uint n v :
  (n <= 8)%nat -> parses (codec_read_uint (Z.of_nat n)) (le_bytes n v) (v mod 2 ^ (8 * Z.of_nat n)).
Proof.
  intros Hn. unfold codec_read_uint. rewrite (proj2 (Z.ltb_ge _ _)) by lia.
  eapply parses_pure; [apply parses_read, zlen_le_bytes|]. rewrite le_value_bytes. apply parses_ret.
Qed.

Lemma parses_attempt {A} (m : Codec A) b a : parses m b a -> parses (fattempt m) b (FACET_OK, Some a).
Proof.
  intros H c pre post Hd Ho Hm. destruct (H c pre post Hd Ho Hm) as (c' & E & H1 & H2).
  exists c'. unfold fattempt. by rewrite E.
Qed.

Lemma parses_put f : (forall c, codec_data (f c) = codec_data c /\ codec_offset (f c) = codec_offset c) ->
  parses (fput f) [] tt.
Proof.
  intros Hf c pre post Hd Ho _. exists (f c). destruct (Hf c) as [H1 H2]. rewrite app_nil_r.
  split; [done|]. by rewrite H1, H2.
Qed.

Lemma parses_alloc : parses (codec_alloc malloc_ok) [] true.
Proof.
  intros c pre post Hd Ho Hm. eexists. unfold codec_alloc. rewrite Hm, app_nil_r. split; [reflexivity|]. done.
Qed.

(** The remaining bytes hold what is about to be read. *)
Lemma parses_fits {A} (m1 m2 : Codec A) length b x :
  length = zlen b -> parses m2 b x ->
  parses (run size <- fget codec_size; run offset <- fget codec_offset;
          if ((size <? offset) || (size - offset <? length))%bool then m1 else m2) b x.
Proof.
  intros -> H c pre post Hd Ho Hm. unfold fbind, fget, codec_size. rewrite Ho, Hd, !zlen_app.
  pose proof (zlen_nonneg post). pose proof (zlen_nonneg b).
  rewrite (proj2 (Z.ltb_ge _ _)) by lia. rewrite (proj2 (Z.ltb_ge _ _)) by lia. cbn [orb].
  rewrite <- Hd, <- zlen_app. exact (H c pre post Hd Ho Hm).
Qed.

Lemma u32_word v : 0 <= v <= UINT32_MAX -> u32 (v mod 2 ^ (8 * Z.of_nat 4)) = v.
Proof. intros H. unfold UINT32_MAX in H. unfold u32. change (8 * Z.of_nat 4) with 32. by rewrite !(Z.mod_small v) by lia. Qed.

Lemma parses_string data :
  zlen data <= UINT32_MAX ->
  parses (decode_string malloc_ok) (le_bytes 4 (zlen data) ++ data)
    (FACET_OK, VString (Some data) (zlen data)).
Proof.
  intros Hl. pose proof (zlen_nonneg data). unfold decode_string.
  eapply parses_bind; [apply parses_attempt, (parses_read_uint 4); lia|]. cbv beta iota zeta.
  rewrite u32_word by done. apply parses_fits; [done|].
  rewrite <- (app_nil_l data) at 1. eapply parses_bind; [apply parses_alloc|]. cbn [negb]. cbv iota.
  rewrite <- (app_nil_l data) at 1. eapply parses_bind; [by apply parses_put|].
  eapply parses_pure; [by apply parses_attempt, parses_read|]. apply parses_ret.
Qed.

Lemma parses_elements (dec : Codec (FacetResult * value)) zero vs bs :
  Forall2 (fun v b => parses dec b (FACET_OK, v)) vs bs ->
  parses (decode_elements dec zero (length vs)) (concat bs) (FACET_OK, vs).
Proof.
  induction 1 as [|v b vs bs Hv _ IH]; simpl; [apply parses_ret|].
  eapply parses_bind; [exact Hv|]. cbn [fst snd]. rewrite bool_decide_eq_true_2 by done.
  eapply parses_pure; [exact IH|]. apply parses_ret.
Qed.

Lemma parses_array dec zero size release elements b :
  elements <> [] -> zlen elements <= UINT32_MAX -> size <> 0 -> zlen elements <= SIZE_MAX / size ->
  parses (decode_elements dec zero (length elements)) b (FACET_OK, elements) ->
  parses (decode_array malloc_ok dec zero size release) (le_bytes 4 (zlen elements) ++ b)
    (FACET_OK, VArray (Some elements) (zlen elements)).
Proof.
  intros Hne Hl Hsz Hfit H. pose proof (zlen_nonneg elements). unfold decode_array.
  assert (zlen elements =? 0 = false) as Hz by (apply Z.eqb_neq; unfold zlen; destruct elements; [done|simpl; lia]).
  eapply parses_bind; [apply parses_attempt, (parses_read_uint 4); lia|]. cbv beta iota zeta.
  rewrite u32_word by done. rewrite Hz, (proj2 (Z.eqb_neq size 0)) by done.
  rewrite (proj2 (Z.ltb_ge _ _)) by done. cbn [negb andb]. cbv iota.
  rewrite <- (app_nil_l b). eapply parses_bind; [apply parses_alloc|]. cbn [negb]. cbv iota.
  rewrite <- (app_nil_l b). eapply parses_bind; [by apply parses_put|].
  eapply parses_pure.
  - replace (Z.to_nat (zlen elements)) with (length elements) by (unfold zlen; lia). exact H.
  - cbn [fst snd]. rewrite bool_decide_eq_true_2 by done. apply parses_ret.
Qed.

Lemma decode_parses type metadata v b :
  wire type metadata v b ->
  forall fuel, (codec_fuel metadata <= fuel)%nat ->
    parses (decode malloc_ok fuel type metadata) b (FACET_OK, received v).
Proof.
  intros H. induction H using wire_mut with
    (P0 := fun kind metadata vs b _ => forall fuel zero, (codec_fuel metadata <= fuel)%nat ->
             parses (decode_elements (decode malloc_ok fuel kind metadata) zero (length vs)) b (FACET_OK, map received vs))
    (P1 := fun fields vs b _ => forall fuel zero,
             Forall (fun field => (codec_fuel (snd field) <= fuel)%nat) fields ->
             parses (decode_fields (decode malloc_ok fuel) zero fields) b (FACET_OK, map received vs)).
  - intros [|f] Hf; [unfold codec_fuel in Hf; lia|]. cbn [decode].
    destruct (scalar_roundtrip _ _ s) as (word' & n' & Hw & Hn & Hle & Hv).
    assert (word' = word) as -> by congruence. assert (n' = n) as -> by lia.
    assert (parses (decode_scalar (storage_kind type metadata) (zero_value (S f) type metadata)) (le_bytes n word)
              (FACET_OK, received v)) as Hp.
    { unfold decode_scalar. rewrite e0. eapply parses_pure; [apply parses_attempt, parses_read_uint; lia|].
      cbv beta iota. rewrite Hv. apply parses_ret. }
    destruct (storage_kind type metadata), v; done.
  - intros [|f] Hf; [unfold codec_fuel in Hf; lia|]. cbn [decode]. rewrite e.
    eapply parses_pure; [by apply parses_attempt, parses_read|]. apply parses_ret.
  - intros [|f] Hf; [unfold codec_fuel in Hf; lia|]. cbn [decode]. rewrite e. by apply parses_string.
  - intros [|f] Hf; [unfold codec_fuel in Hf; lia|]. cbn [decode]. rewrite e. by apply (parses_string []).
  - intros [|f] Hf; [unfold codec_fuel in Hf; lia|]. cbn [decode]. rewrite e.
    destruct (array_element metadata) as [ek em]. unfold decode_array.
    eapply parses_pure; [apply parses_attempt, (parses_read_uint 4); lia|]. cbv beta iota zeta.
    rewrite u32_word by done. cbn [negb andb Z.eqb]. rewrite andb_false_r. apply parses_ret.
  - intros [|f] Hf; [unfold codec_fuel in Hf; lia|]. cbn [decode]. rewrite e.
    assert (metadata <> None) as Hmd by (intros ->; done). pose proof (codec_fuel_element metadata Hmd) as Hfu.
    destruct (array_element metadata) as [ek em]. cbn [fst snd] in *.
    cbn [received]. rewrite (proj2 (Z.eqb_neq (zlen elements) 0)) by (unfold zlen; destruct elements; [done|simpl; lia]).
    assert (zlen elements = zlen (map received elements)) as Hlen by (unfold zlen; by rewrite length_map).
    rewrite Hlen in *. apply parses_array; try done; [by destruct elements|]. rewrite length_map. apply IHwire. lia.
  - intros [|f] Hf; [unfold codec_fuel in Hf; lia|]. cbn [decode]. rewrite e.
    eapply parses_pure; [apply IHwire|apply parses_ret].
    apply Forall_forall. intros [kind md] Hin. apply codec_fuel_field in Hin. simpl. lia.
  - intros fuel zero Hf. apply parses_ret.
  - intros fuel zero Hf. simpl. eapply parses_bind; [by apply IHwire|]. cbn [fst snd].
    rewrite bool_decide_eq_true_2 by done. eapply parses_pure; [by apply IHwire0|]. apply parses_ret.
  - intros fuel zero Hf. apply parses_ret.
  - intros fuel zero Hf. apply Forall_cons in Hf as [Hf1 Hf2]. simpl.
    eapply parses_bind; [by apply IHwire|]. cbn [fst snd].
    rewrite bool_decide_eq_true_2 by done. eapply parses_pure; [by apply IHwire0|]. apply parses_ret.
Qed.

(** ** Decoding arbitrary bytes *)

Lemma moves_alloc : moves (codec_alloc malloc_ok).
Proof. intros c Hc. eexists _, _. unfold codec_alloc. split; [reflexivity|]. split_and!; try done; simpl; lia. Qed.

Definition string_blocks (v : value) : Z :=
  match v with VString (Some _) _ => 1 | _ => 0 end.

Lemma accounts_string : accounts (decode_string malloc_ok) string_blocks.
Proof.
  apply accounts_after; [by apply moves_read_uint|]. intros [code decoded].
  intros c Hc. rewrite fbind_eq. unfold fget at 1. rewrite fbind_eq. unfold fget at 1. cbv beta iota.
  assert (accounts (fret (FACET_PROTOCOL_ERROR, VString None 0)) string_blocks) as Hbad by (by apply accounts_ret).
  destruct code; try exact (Hbad c Hc). destruct decoded as [decoded|]; [|exact (Hbad c Hc)]. cbv zeta.
  assert (0 <= u32 decoded) as Hu by (unfold u32; apply Z.mod_pos_bound; lia). set (n := u32 decoded) in *.
  destruct (_ || _)%bool eqn:Eg; [exact (Hbad c Hc)|]. bool_props.
  rewrite fbind_eq. unfold codec_alloc. destruct (malloc_ok _); cbn [negb]; cbv iota.
  2: { eexists _, _, _. split; [reflexivity|]. split_and!; try done; simpl; lia. }
  unfold fbind at 1, fput at 1. unfold fbind, fattempt, codec_read, fbind, fget, fput, fret. 
  unfold codec_size in *. cbn [codec_data codec_offset add_live count_allocation].
  rewrite (proj2 (Z.ltb_ge _ _)) by done. rewrite (proj2 (Z.ltb_ge _ _)) by done. cbn [orb].
  eexists _, _, _. split; [reflexivity|]. unfold codec_in, codec_size in *. simpl.
  split_and!; try done; lia.
Qed.

Lemma accounts_elements dec zero rel count :
  accounts dec rel -> rel zero = 0 -> (forall v, 0 <= rel v) ->
  accounts (decode_elements dec zero count) (fun l => sum_Z (map rel l)).
Proof.
  intros Hd Hz Hn. induction count as [|n IH]; [by apply accounts_ret|]. intros c Hc. cbn [decode_elements].
  destruct (Hd c Hc) as (code & v & c1 & E & H1 & H2 & H3 & H4 & H5). rewrite fbind_eq, E. cbn [fst snd].
  case_bool_decide as Hok.
  - destruct (IH c1 H1) as (code2 & l & c2 & E2 & H6 & H7 & H8 & H9 & H10). rewrite fbind_eq, E2. cbn [fst snd].
    exists code2, (v :: l), c2. specialize (H5 Hok). unfold sum_Z in *. simpl.
    split_and!; try done; [congruence|lia|lia|]. intros Hok2. rewrite H10 by done. lia.
  - eexists code, _, c1. split; [reflexivity|].
    assert (sum_Z (map rel (v :: repeat zero n)) = rel v) as ->.
    { unfold sum_Z. simpl. assert (fold_right Z.add 0 (map rel (repeat zero n)) = 0) as ->; [|lia].
      clear -Hz. induction n; simpl; [done|]. lia. }
    split_and!; try done.
Qed.

Lemma decode_elements_length dec zero n c code l c' :
  decode_elements dec zero n c = (Ok (code, l), c') -> length l = n.
Proof.
  revert c code l c'. induction n as [|n IH]; intros c code l c' H; cbn [decode_elements] in H.
  - unfold fret in H. by simplify_eq.
  - apply fbind_ok in H as ([code1 v] & c1 & _ & H). cbn [fst snd] in H. case_bool_decide.
    + apply fbind_ok in H as ([code2 l2] & c2 & E2 & H). unfold fret in H. simplify_eq/=. f_equal. eauto.
    + unfold fret in H. simplify_eq/=. by rewrite repeat_length.
Qed.

Lemma sum_Z_head (rel : value -> Z) l zero :
  (forall v, 0 <= rel v) -> rel zero = 0 -> rel (default zero (head l)) <= sum_Z (map rel l).
Proof.
  intros Hn Hz. destruct l as [|v l]; simpl; [unfold sum_Z; simpl; lia|].
  assert (0 <= sum_Z (map rel l)) by (apply sum_Z_nonneg, Forall_fmap, Forall_forall; intros; apply Hn).
  unfold sum_Z in *. simpl. lia.
Qed.

Lemma accounts_fields (dec : FacetType -> option FacetTypeMeta -> Codec (FacetResult * value)) zero
    (rel : FacetType -> option FacetTypeMeta -> value -> Z) fields :
  Forall (fun field => accounts (dec (fst field) (snd field)) (rel (fst field) (snd field))) fields ->
  (forall kind metadata, rel kind metadata (zero kind metadata) = 0) ->
  accounts (decode_fields dec zero fields)
    (fun l => sum_Z (zip_with (fun field => rel (fst field) (snd field)) fields l)).
Proof.
  intros Hd Hz. induction Hd as [|[kind metadata] fields Hdec _ IH]; [by apply accounts_ret|].
  intros c Hc. cbn [decode_fields fst snd] in *.
  destruct (Hdec c Hc) as (code & v & c1 & E & H1 & H2 & H3 & H4 & H5). rewrite fbind_eq, E. cbn [fst snd].
  case_bool_decide as Hok.
  - destruct (IH c1 H1) as (code2 & l & c2 & E2 & H6 & H7 & H8 & H9 & H10). rewrite fbind_eq, E2. cbn [fst snd].
    exists code2, (v :: l), c2. specialize (H5 Hok). unfold sum_Z in *. simpl.
    split_and!; try done; [congruence|lia|lia|]. intros Hok2. rewrite H10 by done. lia.
  - eexists code, _, c1. split; [reflexivity|]. unfold sum_Z. simpl.
    assert (fold_right Z.add 0 (zip_with (fun field => rel (fst field) (snd field)) fields
              (map (fun field => zero (fst field) (snd field)) fields)) = 0) as ->.
    { clear -Hz. induction fields as [|x l IH]; simpl; [done|]. rewrite Hz, IH. done. }
    rewrite Z.add_0_r. split_and!; try done.
Qed.

Lemma accounts_array dec zero size kind metadata f (rel : value -> Z) :
  (size <> 0 -> accounts dec (release_count f kind metadata)) -> release_count f kind metadata zero = 0 ->
  rel (VArray None 0) = 0 ->
  (forall l, size <> 0 -> rel (VArray (Some l) (zlen l)) = sum_Z (map (release_count f kind metadata) l) + 1) ->
  accounts (decode_array malloc_ok dec zero size (codec_release_value f kind metadata)) rel.
Proof.
  intros Hd Hz H0 Hrel. apply accounts_after; [by apply moves_read_uint|]. intros [code decoded].
  assert (forall code, accounts (fret (code, VArray None 0)) rel) as Hbad by (intros; by apply accounts_ret).
  destruct code; try apply Hbad. destruct decoded as [decoded|]; [|apply Hbad]. cbv zeta.
  assert (0 <= u32 decoded) as Hu by (unfold u32; apply Z.mod_pos_bound; lia). set (n := u32 decoded) in *.
  destruct ((size =? 0) && _)%bool eqn:E1; [apply Hbad|]. destruct (negb (n =? 0) && _)%bool; [apply Hbad|].
  destruct (n =? 0) eqn:E2; [apply Hbad|]. bool_props.
  assert (size <> 0) as Hsize by (intros ->; done).
  apply accounts_after; [apply moves_alloc|]. intros [|]; cbn [negb]; [|apply Hbad].
  intros c Hc. rewrite fbind_eq. unfold fput at 1.
  destruct (accounts_elements dec zero (release_count f kind metadata) (Z.to_nat n) (Hd Hsize) Hz
    (release_count_nonneg f kind metadata) (add_live 1 c) Hc) as (code & l & c1 & E & H1 & H2 & H3 & H4 & H5).
  rewrite fbind_eq, E. cbn [fst snd]. simpl in H2, H3, H4, H5. case_bool_decide as Hok.
  - subst code. specialize (H5 eq_refl). apply decode_elements_length in E as Hlen.
    assert (n = zlen l) as -> by (unfold zlen; lia). eexists _, _, c1. split; [reflexivity|].
    rewrite Hrel by done.
    split_and!; try done; lia.
  - pose proof (sum_Z_head (release_count f kind metadata) l zero (release_count_nonneg f kind metadata) Hz).
    unfold codec_release_value, fbind, fput, fret. eexists _, _, _. split; [reflexivity|].
    unfold codec_in, codec_size in *. cbn [codec_offset codec_live codec_data add_live] in *. rewrite H0.
    split_and!; try done; lia.
Qed.

(** Decoding any bytes, for any well-formed metadata. *)
Lemma decode_accounts fuel type metadata :
  (codec_fuel metadata <= fuel)%nat -> wf_metadata metadata ->
  accounts (decode malloc_ok fuel type metadata) (release_count fuel type metadata).
Proof.
  revert type metadata. induction fuel as [|f IH]; intros type metadata Hf Hwf; [unfold codec_fuel in Hf; lia|].
  cbn [decode]. pose proof (release_zero (S f) type metadata) as Hzero.
  set (zero := zero_value (S f) type metadata) in *.
  assert (forall code, accounts (fret (code, zero)) (release_count (S f) type metadata)) as Hbad
    by (intros; by apply accounts_ret).
  destruct (owning (storage_kind type metadata)) eqn:Eo.
  - assert (storage_kind type metadata = type) as Hst.
    { destruct type; try done. destruct metadata as [[]|]; [|done]. simpl in Eo, Hwf. destruct Hwf as [Hu _]. congruence. }
    rewrite Hst in *. destruct type; try done.
    + exact accounts_string.
    + destruct metadata as [m|]; [|apply Hbad].
      pose proof (wf_metadata_fields m Hwf) as Hfields.
      assert (accounts (decode_fields (decode malloc_ok f) (zero_value f) (meta_struct_fields m))
        (fun l => sum_Z (zip_with (fun field => release_count f (fst field) (snd field)) (meta_struct_fields m) l))) as Ha.
      { apply (accounts_fields _ _ (release_count f)); [|intros; apply release_zero]. apply Forall_forall. intros [kind md] Hin.
        rewrite Forall_forall in Hfields. specialize (Hfields _ Hin). apply codec_fuel_field in Hin.
        apply IH; [simpl; lia|done]. }
      intros c Hc. destruct (Ha c Hc) as (code & l & c1 & E & Hrest). exists code, (VStruct l), c1.
      rewrite fbind_eq, E. split; [done|]. cbn [release_count].
      assert (zip_with (fun (field : FacetType * option FacetTypeMeta) x =>
                if owning (fst field) then release_count f (fst field) (snd field) x else 0) (meta_struct_fields m) l
              = zip_with (fun field => release_count f (fst field) (snd field)) (meta_struct_fields m) l) as ->; [|done].
      apply zip_with_ext; [|done|done]. intros field x. destruct (owning (fst field)) eqn:Ef; [done|].
      by rewrite release_not_owning.
    + destruct (wf_metadata_element metadata Hwf) as [Hwe Hke].
      destruct metadata as [m|].
      2: { apply accounts_array; try done. apply release_not_owning; done. }
      pose proof (codec_fuel_element (Some m) ltac:(done)) as Hfu.
      destruct (array_element (Some m)) as [ek em] eqn:Ea. cbn [fst snd] in *.
      apply accounts_array; [intros _; apply IH; [lia|done]|apply release_zero|done|].
      intros l Hsz. cbn [release_count]. rewrite Hke. injection Ea as _ Hem. rewrite Hem.
      unfold zlen. rewrite Nat2Z.id, firstn_all. rewrite (proj2 (Z.eqb_neq _ _) Hsz). cbn [negb andb].
      destruct (owning ek) eqn:Eok; [done|]. f_equal. symmetry. 
      clear -Eok. induction l as [|v l IH]; [done|]. unfold sum_Z in *. simpl. rewrite IH, release_not_owning by done. done.
  - assert (forall v, release_count (S f) type metadata v = 0) as Hno.
    { intros v. apply release_not_owning. destruct type; try done; by destruct metadata. }
    assert (forall kind, accounts (decode_scalar kind zero) (release_count (S f) type metadata)) as Hsc.
    { intros kind. apply accounts_after.
      - apply moves_read_uint. by destruct kind.
      - intros [code word]. destruct code; try apply Hbad. destruct word; [|apply Hbad].
        destruct (scalar_value kind _); [|apply Hbad]. by apply accounts_ret. }
    destruct (storage_kind type metadata); try done; try apply Hbad; try apply Hsc.
    apply accounts_after; [by apply moves_read|]. intros [code uuid]. destruct code; try apply Hbad.
    destruct uuid; [|apply Hbad]. by apply accounts_ret.
Qed.

End Facts.

(** C36: The codec round-trips.  Encoding a value of its type (an enumeration by its
    underlying kind, strings and arrays of at most 2^32-1 elements, a null string or
    array only if it is empty, no handles) appends its wire form and leaves the rest of
    the codec alone; it fails only for lack of memory or address space, and never when
    both suffice.  Decoding at that place, whatever bytes come before and after and if
    no allocation is refused, succeeds and stops where encoding stopped.  It gives the
    value back, but for three cases that [received] spells out: a bool that is followed
    in memory by a byte other than zero arrives as true, because the encoder reads it as
    an int, a null string arrives as an empty one, and an array without elements arrives
    without data. *)
Theorem codec_roundtrip (malloc_ok : nat -> bool) (type : FacetType) (metadata : option FacetTypeMeta)
    (v : value) (b : bytes) (c c' : FacetRpcCodec) (r : result unit)
    (Hwire : wire type metadata v b) (Hok : codec_ok c)
    (Hencode : facet_rpc_encode_value malloc_ok type metadata v c = (r, c')) :
  match r with
  | Ok _ =>
      codec_data c' = codec_data c ++ b /\
      forall d post, codec_data d = codec_data c' ++ post -> codec_offset d = codec_size c ->
        (forall n, malloc_ok n = true) ->
        exists d', facet_rpc_decode_value malloc_ok type metadata d = (Ok (FACET_OK, received v), d') /\
                   codec_offset d' = codec_size c' /\ (faithful v = true -> received v = v)
  | Err code => (code = FACET_OUT_OF_MEMORY \/ code = FACET_BUFFER_TOO_SMALL) /\
                ((forall n, malloc_ok n = true) -> 2 ^ 63 <= codec_size c + zlen b)
  | Fault => False
  end.
Proof.
  destruct (encode_appends malloc_ok _ _ _ _ Hwire (codec_fuel metadata) (le_n _) c Hok)
    as (r' & c1 & E & _ & _ & _ & Hr & Hm).
  unfold facet_rpc_encode_value in Hencode. rewrite Hencode in E. simplify_eq. destruct r' as [[]|code|]; [| |done].
  - split; [done|]. intros d post Hd Ho Hmem. rewrite Hr, <- app_assoc in Hd.
    destruct (decode_parses malloc_ok _ _ _ _ Hwire (codec_fuel metadata) (le_n _) d (codec_data c) post Hd Ho Hmem)
      as (d' & Ed & _ & Ho'). exists d'. unfold facet_rpc_decode_value. rewrite Ed. split; [done|].
    split; [unfold codec_size; by rewrite Hr, Ho'|apply received_faithful].
  - split; [done|]. intros Hmem. destruct (decide (2 ^ 63 <= codec_size c + zlen b)); [done|].
    specialize (Hm Hmem ltac:(lia)). done.
Qed.

(** Metadata of an array of strings and of a struct with an enumeration, a list of
    names and a flag. *)
Definition strings_meta : FacetTypeMeta :=
  mkMeta FACET_TYPE_ARRAY FACET_TYPE_U8 16 None FACET_TYPE_STRING [].
Definition kind_meta : FacetTypeMeta :=
  mkMeta FACET_TYPE_ENUM FACET_TYPE_I32 4 None FACET_TYPE_U8 [].
Definition record_meta : FacetTypeMeta :=
  mkMeta FACET_TYPE_STRUCT FACET_TYPE_U8 32 None FACET_TYPE_U8
    [(FACET_TYPE_ENUM, Some kind_meta); (FACET_TYPE_ARRAY, Some strings_meta); (FACET_TYPE_BOOL, None)].

Definition record_value : value :=
  VStruct [VInt (-7); VArray (Some [VString (Some (B "tty1")) 4; VString (Some []) 0]) 2; VBool true 0].

Definition new_codec : FacetRpcCodec := mkCodec [] 256 0 0 0.
Definition plenty (n : nat) : bool := true.

Lemma record_wire : exists b, wire FACET_TYPE_STRUCT (Some record_meta) record_value b.
Proof.
  eexists. apply wire_struct; [reflexivity|]. cbn [meta_struct_fields record_meta].
  eapply wire_more_fields; [|eapply wire_more_fields; [|eapply wire_more_fields; [|apply wire_no_fields]]].
  - eapply (wire_scalar _ _ _ _ 4); [vm_compute; done|reflexivity|reflexivity].
  - apply (wire_array _ _ [VString (Some (B "tty1")) 4; VString (Some []) 0]); try (vm_compute; done).
    eapply wire_more_elements; [|eapply wire_more_elements; [|apply wire_no_elements]].
    + apply (wire_string _ _ (B "tty1")); [reflexivity|vm_compute; discriminate].
    + apply (wire_string _ _ []); [reflexivity|vm_compute; discriminate].
  - eapply (wire_scalar _ _ _ _ 1); [by vm_compute|reflexivity|reflexivity].
Qed.

(** The codec after the record is encoded. *)
Definition record_codec : FacetRpcCodec := Eval vm_compute in
  snd (facet_rpc_encode_value plenty FACET_TYPE_STRUCT (Some record_meta) record_value new_codec).

Lemma record_encoded :
  facet_rpc_encode_value plenty FACET_TYPE_STRUCT (Some record_meta) record_value new_codec = (Ok tt, record_codec).
Proof. vm_compute. reflexivity. Qed.

Lemma new_codec_ok : codec_ok new_codec.
Proof. vm_compute. repeat split; discriminate. Qed.

Lemma codec_roundtrip_witness :
  exists d', facet_rpc_decode_value plenty FACET_TYPE_STRUCT (Some record_meta) record_codec =
    (Ok (FACET_OK, record_value), d').
Proof.
  destruct record_wire as [b Hb].
  destruct (codec_roundtrip plenty _ _ _ b new_codec record_codec (Ok tt) Hb new_codec_ok record_encoded) as [_ H].
  destruct (H record_codec [] (eq_sym (app_nil_r _)) eq_refl (fun _ => eq_refl)) as (d' & Hdec & _).
  exists d'. exact Hdec.
Defined.

(** C37: Decoding untrusted bytes is memory safe: for any buffer contents, any type and
    any generated metadata, and whichever allocations fail, the decoder terminates
    without a fault, never moves outside the received bytes, and what a later
    release of the output frees is at most what was allocated, and exactly that
    when decoding succeeded (no leak and no double free). *)
Theorem codec_decode_safe (malloc_ok : nat -> bool) (type : FacetType) (metadata : option FacetTypeMeta)
    (c : FacetRpcCodec) (Hmeta : wf_metadata metadata) (Hpos : 0 <= codec_offset c <= codec_size c) :
  exists code v c', facet_rpc_decode_value malloc_ok type metadata c = (Ok (code, v), c') /\
    codec_data c' = codec_data c /\ codec_offset c <= codec_offset c' <= codec_size c /\
    (exists c2, facet_rpc_release_value type metadata v c' = (Ok tt, c2) /\
       codec_live c <= codec_live c2 /\ (code = FACET_OK -> codec_live c2 = codec_live c)).
Proof.
  destruct (decode_accounts malloc_ok (codec_fuel metadata) type metadata (le_n _) Hmeta c Hpos)
    as (code & v & c' & E & Hin & Hd & Ho & Hl & Hlok).
  exists code, v, c'. split; [done|]. split; [done|]. unfold codec_in, codec_size in *. rewrite Hd in Hin.
  split; [lia|]. eexists. split; [reflexivity|]. cbn [codec_live add_live]. split; [lia|]. intros Hok. specialize (Hlok Hok). lia.
Qed.

Lemma codec_decode_safe_witness :
  exists code v c', facet_rpc_decode_value plenty FACET_TYPE_ARRAY (Some strings_meta)
    (mkCodec [255; 255; 0; 0; 9; 0; 0; 0; 65] 9 0 0 0) = (Ok (code, v), c') /\ codec_offset c' <= 9.
Proof.
  destruct (codec_decode_safe plenty FACET_TYPE_ARRAY (Some strings_meta)
    (mkCodec [255; 255; 0; 0; 9; 0; 0; 0; 65] 9 0 0 0) ltac:(vm_compute; repeat split)
    ltac:(vm_compute; split; discriminate)) as (code & v & c' & E & _ & [_ Ho] & _).
  exists code, v, c'. split; [exact E|exact Ho].
Defined.

(** A failed decode leaks: in a message whose third string is cut off, the two
    strings already decoded are allocated but only the first is freed with the
    array, so a peer can make the receiver lose memory with every such message. *)
Theorem codec_failed_decode_leaks :
  exists c', facet_rpc_decode_value plenty FACET_TYPE_ARRAY (Some strings_meta)
      (mkCodec (le_bytes 4 3 ++ le_bytes 4 1 ++ [97] ++ le_bytes 4 1 ++ [98] ++ le_bytes 4 1) 18 0 0 0) =
      (Ok (FACET_PROTOCOL_ERROR, VArray None 0), c') /\ codec_live c' = 1.
Proof. eexists. split; vm_compute; reflexivity. Qed.

(** The encoder reads a [bool] as an [int]: in an array of two flags stored as the
    bytes 0 and 1, the first flag is sent as true, because the read of the first
    element sees the second. *)
Theorem codec_bool_array_corrupted :
  let flags := Some (mkMeta FACET_TYPE_ARRAY FACET_TYPE_U8 16 None FACET_TYPE_BOOL []) in
  let sent := facet_rpc_encode_value plenty FACET_TYPE_ARRAY flags
                (VArray (Some [VBool false 1; VBool true 0]) 2) new_codec in
  fst sent = Ok tt /\
  fst (facet_rpc_decode_value plenty FACET_TYPE_ARRAY flags (snd sent)) =
    Ok (FACET_OK, VArray (Some [VBool true 0; VBool true 0]) 2).
Proof. vm_compute. split; reflexivity. Qed.
