(* ===== verification/FileView.v ===== *)
(** The credential file view (src/src/dominit0/file_view.c): the file store that a
    domain sees, which checks the permissions of the boot file system for one user
    and adds the synthetic directory /posix/etc.

    A node refers to its boot entry by index and belongs to one store.  Operations
    thread the counters of allocations and exports and the list of nodes of the
    store; [malloc_ok], [export_interface] and [handle_clone] answer for the
    allocator and the RPC platform.  A result is a value, an error code or a
    [Fault] (a null dereference or a write outside a buffer).  Output pointers are
    taken to be valid. *)
From S2P Require Import Prelude ConfigTypes Effects Initrd.

Inductive SyntheticNode :=
  | SYNTHETIC_NONE | SYNTHETIC_ETC_DIRECTORY | SYNTHETIC_PASSWD | SYNTHETIC_SHADOW | SYNTHETIC_FSTAB.

#[global] Instance SyntheticNode_eq_dec : EqDecision SyntheticNode.
Proof. solve_decision. Defined.

Definition default_passwd : bytes :=
  QL "root:x:0:0:root:/home/root:/bin/sh" ++ QL "user:x:1000:1000:user:/home/user:/bin/sh".
Definition default_shadow : bytes :=
  QL "root:$5$facet$j7FgoXidvJl10CTaW0nguGP3ZnvKnqS3/IHmDVliPQ9:::::::" ++
  QL "user:$5$facet$j7FgoXidvJl10CTaW0nguGP3ZnvKnqS3/IHmDVliPQ9:::::::".
Definition default_fstab : bytes := QL "initrd / initrd ro 0 0".

Record CredentialNode := mkNode {
  backing : option nat;
  synthetic : SyntheticNode;
  node_directory : bool;
  node_handle : Handle
}.

Record Dominit0CredentialFileStore := mkStore {
  cs_address : nat;
  cs_handle : Handle;
  cs_initrd : nat;
  cs_uid : Z;
  cs_gid : Z;
  cs_admin : bool;
  virtual_passwd : option bytes;
  virtual_shadow : option bytes;
  references : Z;
  nodes : list CredentialNode
}.

(** ** Results and effects *)

Record FvState := mkFv { fv_allocations : nat; fv_exports : nat; fv_nodes : list CredentialNode }.

Definition F (A : Type) := Eff FvState A.

(** ** Synthetic nodes *)

Definition synthetic_path (node : SyntheticNode) : option bytes :=
  match node with
  | SYNTHETIC_ETC_DIRECTORY => Some (B "/posix/etc")
  | SYNTHETIC_PASSWD => Some (B "/posix/etc/passwd")
  | SYNTHETIC_SHADOW => Some (B "/posix/etc/shadow")
  | SYNTHETIC_FSTAB => Some (B "/posix/etc/fstab")
  | SYNTHETIC_NONE => None
  end.

Definition synthetic_contents (store : Dominit0CredentialFileStore) (node : SyntheticNode)
  : option bytes :=
  match node with
  | SYNTHETIC_PASSWD => virtual_passwd store
  | SYNTHETIC_SHADOW => virtual_shadow store
  | SYNTHETIC_FSTAB => Some default_fstab
  | _ => None
  end.

Definition synthetic_for_path (path : bytes) (directory : bool) : SyntheticNode :=
  if (directory && (path =b B "/posix/etc"))%bool then SYNTHETIC_ETC_DIRECTORY
  else if (negb directory && (path =b B "/posix/etc/passwd"))%bool then SYNTHETIC_PASSWD
  else if (negb directory && (path =b B "/posix/etc/shadow"))%bool then SYNTHETIC_SHADOW
  else if (negb directory && (path =b B "/posix/etc/fstab"))%bool then SYNTHETIC_FSTAB
  else SYNTHETIC_NONE.

Definition mode_allows (mode owner group uid gid : Z) (admin : bool) (requested : Z) : bool :=
  if (admin || (uid =? 0))%bool then
    negb (negb (Z.land requested 1 =? 0) && (Z.land mode 0x49 =? 0))%bool
  else
    let granted := if uid =? owner then Z.land (Z.shiftr mode 6) 7
                   else if gid =? group then Z.land (Z.shiftr mode 3) 7
                   else Z.land mode 7 in
    Z.land granted requested =? requested.

(** ** Path normalisation in place

    The candidate buffer of [directory_open] is rewritten while it is read:
    [scan] and [write] are offsets into it, and a byte outside it is a fault. *)

(** The first offset from [i] on whose byte is not a slash. *)
Fixpoint skip_at (fuel : nat) (buffer : bytes) (i : nat) : nat :=
  match fuel with
  | O => i
  | S f => if bool_decide (buffer !! i = Some 47) then skip_at f buffer (S i) else i
  end.

(** The first offset from [i] on that holds a slash or the terminator. *)
Fixpoint component_at (fuel : nat) (buffer : bytes) (i : nat) : nat :=
  match fuel with
  | O => i
  | S f =>
      match buffer !! i with
      | None => i
      | Some c => if ((c =? 0) || (c =? 47))%bool then i else component_at f buffer (S i)
      end
  end.

(** [for (i = 0; i < n; i++) write[i] = part[i]], on the same buffer. *)
Fixpoint copy_bytes (n : nat) (buffer : bytes) (write part : nat) : option bytes :=
  match n with
  | O => Some buffer
  | S m =>
      match buffer !! part, buffer !! write with
      | Some c, Some _ => copy_bytes m (<[write := c]> buffer) (S write) (S part)
      | _, _ => None
      end
  end.

Definition put_byte (buffer : bytes) (i : nat) (c : Z) : option bytes :=
  match buffer !! i with Some _ => Some (<[i := c]> buffer) | None => None end.

Definition pop_write (buffer : bytes) (write : nat) : nat :=
  let write := unwind buffer write in
  if (1 <? write)%nat then (write - 1)%nat else write.

(** One component: the buffer and the write offset after it; [None] is a fault. *)
Definition normalise_component (buffer : bytes) (part n write : nat) : option (bytes * nat) :=
  let name := firstn n (skipn part buffer) in
  if name =b [46] then Some (buffer, write)
  else if name =b [46; 46] then Some (buffer, pop_write buffer write)
  else
    let slash := ((write =? 0)%nat || negb (bool_decide (buffer !! (write - 1)%nat = Some 47)))%bool in
    match (if slash then put_byte buffer write 47 else Some buffer) with
    | None => None
    | Some buffer =>
        let write := if slash then S write else write in
        match copy_bytes n buffer write part with
        | None => None
        | Some buffer => Some (buffer, (write + n)%nat)
        end
    end.

Fixpoint normalise_loop (fuel : nat) (buffer : bytes) (scan write : nat) : option (bytes * nat) :=
  match fuel with
  | O => None
  | S f =>
      match buffer !! scan with
      | None => None
      | Some c =>
          if c =? 0 then Some (buffer, write)
          else
            let part := skip_at (length buffer) buffer scan in
            match buffer !! part with
            | None => None
            | Some d =>
                if d =? 0 then Some (buffer, write)
                else
                  let stop := component_at (length buffer) buffer part in
                  match normalise_component buffer part (stop - part) write with
                  | None => None
                  | Some (buffer, write) => normalise_loop f buffer stop write
                  end
            end
      end
  end.

(** The rewritten candidate as a C string; [candidate] ends with its terminator. *)
Definition normalise_path (candidate : bytes) : option bytes :=
  match normalise_loop (S (length candidate)) candidate 0 0 with
  | None => None
  | Some (buffer, write) =>
      match (if (write =? 0)%nat then put_byte buffer 0 47 else Some buffer) with
      | None => None
      | Some buffer =>
          let write := if (write =? 0)%nat then 1%nat else write in
          match put_byte buffer write 0 with
          | None => None
          | Some buffer => Some (cstring buffer)
          end
      end
  end.

(** ** Nodes and the store *)

Inductive iid :=
  | IID_IGenericObject | IID_IFile | IID_IDirectory | IID_IUnixMetadata | IID_IFileStore | IID_other.

#[global] Instance iid_eq_dec : EqDecision iid.
Proof. solve_decision. Defined.

(** What [getInterface] hands out: a clone of a handle, or the metadata object of a
    boot entry ([facet_initrd_node_metadata_handle]). *)
Inductive answer := Cloned (h : Handle) | BackingMetadata (node : option nat).

Section View.
Context (malloc_ok : nat -> bool) (export_interface : nat -> FacetResult * Handle)
  (handle_clone : Handle -> FacetResult * Handle).
Context (entries : list InitrdEntry) (store : Dominit0CredentialFileStore).

Definition alloc : F bool := fun s =>
  (Ok (malloc_ok (fv_allocations s)), mkFv (S (fv_allocations s)) (fv_exports s) (fv_nodes s)).

(** An allocation whose failure is [FACET_OUT_OF_MEMORY]. *)
Definition alloc_or_fail : F unit :=
  run ok <- alloc; if ok then fret tt else ferr FACET_OUT_OF_MEMORY.

Fixpoint alloc_times (n : nat) : F unit :=
  match n with O => fret tt | S m => fbind alloc_or_fail (fun _ => alloc_times m) end.

Definition clone_handle (handle : Handle) : F Handle :=
  match handle with
  | None => ferr FACET_INVALID_HANDLE
  | Some _ =>
      match handle_clone handle with
      | (FACET_OK, h) => fret h
      | (code, _) => ferr code
      end
  end.

Definition entry_at (node : option nat) : option InitrdEntry :=
  match node with Some i => entries !! i | None => None end.

Definition facet_initrd_node_path (node : option nat) : option bytes :=
  entry_path <$> entry_at node.

Definition node_path_of (node : CredentialNode) : option bytes :=
  match synthetic node with
  | SYNTHETIC_NONE => facet_initrd_node_path (backing node)
  | s => synthetic_path s
  end.

Definition open_node (base path : bytes) (directory : bool) : F nat :=
  run ok <- alloc;
  match facet_initrd_open_node ok entries (Some base) (Some path) directory with
  | (FACET_OK, Some i) => fret i
  | (code, _) => ferr code
  end.

Definition check_access (node : option nat) (requested : Z) : F unit :=
  match entry_at node with
  | None => ferr FACET_INVALID_ARGUMENT
  | Some e =>
      if mode_allows (entry_mode e) (entry_uid e) (entry_gid e) (cs_uid store) (cs_gid store)
           (cs_admin store) requested
      then fret tt else ferr FACET_ACCESS_DENIED
  end.

Definition check_directory (path : bytes) : F unit :=
  run directory <- open_node [47] path true; check_access (Some directory) 1.

Fixpoint search_loop (fuel : nat) (path : bytes) (include_target : bool) (i : nat) : F unit :=
  if (i <? length path)%nat then
    match fuel with
    | O => ffault
    | S f =>
        let end_ := component_end path i in
        if ((end_ =? length path)%nat && negb include_target)%bool then fret tt
        else fbind (check_directory (firstn end_ path)) (fun _ => search_loop f path include_target end_)
    end
  else fret tt.

Definition check_search (path : option bytes) (include_target : bool) : F unit :=
  match path with
  | None => ferr FACET_INVALID_ARGUMENT
  | Some path =>
      if negb (starts_with 47 path) then ferr FACET_INVALID_ARGUMENT
      else
        run result <- fcatch (check_directory [47]);
        run ok <- alloc;
        if negb ok then ferr FACET_OUT_OF_MEMORY
        else if bool_decide (result = FACET_OK) then search_loop (length path) path include_target 1
        else ferr result
  end.

Definition node_get_interface (node : CredentialNode) (requested : iid) : F answer :=
  if (bool_decide (requested = IID_IGenericObject) ||
      (negb (node_directory node) && bool_decide (requested = IID_IFile)) ||
      (node_directory node && bool_decide (requested = IID_IDirectory)))%bool
  then run h <- clone_handle (node_handle node); fret (Cloned h)
  else if (bool_decide (synthetic node = SYNTHETIC_NONE) && bool_decide (requested = IID_IUnixMetadata))%bool
  then fret (BackingMetadata (backing node))
  else ferr FACET_NO_INTERFACE.

Definition node_path (node : CredentialNode) : F bytes :=
  match node_path_of node with
  | None => ferr FACET_INVALID_HANDLE
  | Some path => fret path
  end.

Definition file_size (node : CredentialNode) : F Z :=
  match synthetic_contents store (synthetic node) with
  | Some contents => fret (zlen contents)
  | None =>
      match facet_initrd_node_size (entry_at (backing node)) with
      | (FACET_OK, Some size) => fret size
      | (code, _) => ferr code
      end
  end.

Definition file_read (node : CredentialNode) (offset maximum : Z) : F bytes :=
  match synthetic_contents store (synthetic node) with
  | Some contents =>
      if (bool_decide (synthetic node = SYNTHETIC_SHADOW) && negb (cs_admin store))%bool
      then ferr FACET_ACCESS_DENIED
      else if zlen contents <=? offset then fret []
      else
        let count := Z.min (zlen contents - offset) maximum in
        run ok <- alloc;
        if (negb ok && negb (count =? 0))%bool then ferr FACET_OUT_OF_MEMORY
        else match slice contents offset count with
          | None => ffault
          | Some data => fret data
          end
  | None =>
      fbind (check_access (backing node) 4) (fun _ =>
        match facet_initrd_node_read (entry_at (backing node)) offset maximum with
        | (FACET_OK, Some data) => fret data
        | (FACET_OK, None) => ffault
        | (code, _) => ferr code
        end)
  end.

(** The files are read only: nothing is written. *)
Definition file_write (node : CredentialNode) (offset : Z) (data : bytes) : F Z :=
  ferr FACET_NOT_SUPPORTED.

Definition etc_names : list bytes := [B "fstab"; B "passwd"; B "shadow"].

Definition etc_list (cursor maximum : Z) : F (list (bytes * EntryType) * Z * bool) :=
  if ((zlen etc_names <=? cursor) || (maximum =? 0))%bool
  then fret ([], cursor, zlen etc_names <=? cursor)
  else
    let count := Z.min (zlen etc_names - cursor) maximum in
    fbind alloc_or_fail (fun _ =>
    fbind (alloc_times (Z.to_nat count)) (fun _ =>
    let page := firstn (Z.to_nat count) (skipn (Z.to_nat cursor) etc_names) in
    fret (map (fun name => (name, EntryType_File)) page, cursor + count,
          cursor + count =? zlen etc_names))).

Definition directory_list (node : CredentialNode) (cursor maximum : Z)
  : F (list (bytes * EntryType) * Z * bool) :=
  if bool_decide (synthetic node = SYNTHETIC_ETC_DIRECTORY) then etc_list cursor maximum
  else
    fbind (check_access (backing node) 5) (fun _ =>
    run ok <- alloc;
    match facet_initrd_node_list entries (entry_at (backing node)) cursor maximum ok with
    | (FACET_OK, (found, next, end_)) =>
        if (negb (cursor =? 0) || negb end_ || (maximum <=? zlen found) ||
            negb (bool_decide (facet_initrd_node_path (backing node) = Some (B "/posix"))))%bool
        then fret (found, next, end_)
        else
          fbind (alloc_times 2) (fun _ => fret (found ++ [(B "etc", EntryType_Directory)], next, end_))
    | (code, _) => ferr code
    end).

Definition same_node (path : option bytes) (directory : bool) (candidate : CredentialNode) : bool :=
  match path, node_path_of candidate with
  | Some path, Some candidate_path =>
      (bool_decide (node_directory candidate = directory) && (path =b candidate_path))%bool
  | _, _ => false
  end.

Definition export : F Handle := fun s =>
  let '(code, h) := export_interface (fv_exports s) in
  let s' := mkFv (fv_allocations s) (S (fv_exports s)) (fv_nodes s) in
  match code with FACET_OK => (Ok h, s') | _ => (Err code, s') end.

Definition push_node (node : CredentialNode) : F unit := fun s =>
  (Ok tt, mkFv (fv_allocations s) (fv_exports s) (node :: fv_nodes s)).

Definition get_nodes : F (list CredentialNode) := fun s => (Ok (fv_nodes s), s).

Definition wrap_node (backing : option nat) (synthetic : SyntheticNode) (directory : bool) : F Handle :=
  let path := node_path_of (mkNode backing synthetic directory None) in
  run existing <- get_nodes;
  match find (same_node path directory) existing with
  | Some candidate => clone_handle (node_handle candidate)
  | None =>
      fbind alloc_or_fail (fun _ =>
      run handle <- export;
      fbind (push_node (mkNode backing synthetic directory handle)) (fun _ => clone_handle handle))
  end.

(** The last step of both open operations. *)
Definition open_checked (base path : bytes) (directory : bool) : F Handle :=
  run opened <- open_node base path directory;
  fbind (check_search (facet_initrd_node_path (Some opened)) directory) (fun _ =>
  wrap_node (Some opened) SYNTHETIC_NONE directory).

Definition directory_open (node : CredentialNode) (path : option bytes) (directory : bool) : F Handle :=
  match path with
  | None | Some [] => ferr FACET_INVALID_ARGUMENT
  | Some path =>
      match node_path_of node with
      | None => ffault
      | Some base =>
          fbind alloc_or_fail (fun _ =>
          let candidate := (if starts_with 47 path then path else base ++ 47 :: path) ++ [0] in
          match normalise_path candidate with
          | None => ffault
          | Some candidate =>
              match synthetic_for_path candidate directory with
              | SYNTHETIC_NONE => open_checked [47] candidate directory
              | synthetic => wrap_node None synthetic directory
              end
          end)
      end
  end.

Definition directory_open_file (node : CredentialNode) (path : option bytes) : F Handle :=
  directory_open node path false.
Definition directory_open_directory (node : CredentialNode) (path : option bytes) : F Handle :=
  directory_open node path true.

Definition store_get_interface (requested : iid) : F Handle :=
  if (negb (bool_decide (requested = IID_IGenericObject)) &&
      negb (bool_decide (requested = IID_IFileStore)))%bool
  then ferr FACET_NO_INTERFACE
  else clone_handle (cs_handle store).

(** [strndup] stops at a NUL byte. *)
Definition store_open (path : option bytes) (directory : bool) : F Handle :=
  match path with
  | None | Some [] => ferr FACET_INVALID_ARGUMENT
  | Some path =>
      fbind alloc_or_fail (fun _ =>
      match synthetic_for_path (cstring path) directory with
      | SYNTHETIC_NONE => open_checked [47] path directory
      | synthetic => wrap_node None synthetic directory
      end)
  end.

Definition store_open_file (path : option bytes) : F Handle := store_open path false.
Definition store_open_directory (path : option bytes) : F Handle := store_open path true.

End View.

(** ** The virtual credential files *)

(** [%u] of [snprintf]. *)
Fixpoint decimal_loop (fuel : nat) (v : Z) : bytes :=
  match fuel with
  | O => []
  | S f => (if v <? 10 then [] else decimal_loop f (v / 10)) ++ [48 + v mod 10]
  end.
Definition decimal (v : Z) : bytes := decimal_loop 20 v.

(** The text that the two calls of [snprintf] produce for a user. *)
Definition passwd_line (name home shell : bytes) (u g : Z) : bytes :=
  name ++ B ":x:" ++ decimal u ++ B ":" ++ decimal g ++ B ":" ++ name ++ B ":" ++ home ++ B ":" ++
  shell ++ [10].
Definition shadow_line (name hash : bytes) : bytes := name ++ B ":" ++ hash ++ B ":::::::" ++ [10].

(** The sizes of the two buffers; [None] when a string is null. *)
Fixpoint credential_sizes (users : list FacetConfigUser) (passwd_size shadow_size : Z) : option (Z * Z) :=
  match users with
  | [] => Some (passwd_size, shadow_size)
  | user :: rest =>
      match user_name user, home_path user, posix_shell user, password_hash user with
      | Some name, Some home, Some shell, Some hash =>
          credential_sizes rest (u64 (passwd_size + (zlen name + zlen home + zlen shell + 48)))
            (u64 (shadow_size + (zlen name + zlen hash + 16)))
      | _, _, _, _ => None
      end
  end.

(** The loop that prints the users; [Err] is the return value -1.  [snprintf]
    returns an [int] and a line that does not fit is refused. *)
Fixpoint print_users (users : list FacetConfigUser) (passwd_size shadow_size : Z)
    (passwd shadow : bytes) : result (bytes * bytes) :=
  match users with
  | [] => Ok (passwd, shadow)
  | user :: rest =>
      match user_name user, home_path user, posix_shell user, password_hash user with
      | Some name, Some home, Some shell, Some hash =>
          let line := passwd_line name home shell (uid user) (gid user) in
          let written := signed 32 (zlen line) in
          if ((written <? 0) || (u64 (passwd_size - zlen passwd) <=? written))%bool then Err FACET_ERROR
          else
            let line' := shadow_line name hash in
            let written := signed 32 (zlen line') in
            if ((written <? 0) || (u64 (shadow_size - zlen shadow) <=? written))%bool then Err FACET_ERROR
            else print_users rest passwd_size shadow_size (passwd ++ line) (shadow ++ line')
      | _, _, _, _ => Fault
      end
  end.

(** The two files for the users of the system configuration, [None] when there is
    no configuration; [memory] says whether both buffers can be allocated. *)
Definition render_virtual_credentials (memory : bool) (system : option (list FacetConfigUser))
  : result (bytes * bytes) :=
  match system with
  | None | Some [] => if memory then Ok (default_passwd, default_shadow) else Err FACET_ERROR
  | Some users =>
      match credential_sizes users 1 1 with
      | None => Fault
      | Some (passwd_size, shadow_size) =>
          if memory then print_users users passwd_size shadow_size [] [] else Err FACET_ERROR
      end
  end.

(** ** The stores of the system *)

Record Stores := mkStores {
  credential_stores : list Dominit0CredentialFileStore;
  next_address : nat;
  stores_exports : nat;
  unexported : list Handle
}.

Definition add_reference (s : Dominit0CredentialFileStore) : Dominit0CredentialFileStore :=
  mkStore (cs_address s) (cs_handle s) (cs_initrd s) (cs_uid s) (cs_gid s) (cs_admin s)
    (virtual_passwd s) (virtual_shadow s) (references s + 1) (nodes s).
Definition drop_reference (s : Dominit0CredentialFileStore) : Dominit0CredentialFileStore :=
  mkStore (cs_address s) (cs_handle s) (cs_initrd s) (cs_uid s) (cs_gid s) (cs_admin s)
    (virtual_passwd s) (virtual_shadow s) (references s - 1) (nodes s).

Definition same_credentials (initrd : nat) (u g : Z) (a : bool) (s : Dominit0CredentialFileStore) : bool :=
  ((cs_initrd s =? initrd)%nat && (cs_uid s =? u) && (cs_gid s =? g) && Bool.eqb (cs_admin s) a)%bool.

Section Stores.
Context (export_interface : nat -> FacetResult * Handle) (system : option (list FacetConfigUser)).

(** The address of the store, or null; [memory] and [text_memory] answer for the
    store and for its two texts. *)
Definition dominit0_credential_file_store_create (memory text_memory : bool) (initrd : option nat)
    (u g : Z) (a : bool) (w : Stores) : result (option nat) * Stores :=
  match initrd with
  | None => (Ok None, w)
  | Some initrd =>
      match index_of (same_credentials initrd u g a) (credential_stores w) with
      | Some i =>
          (Ok (cs_address <$> credential_stores w !! i),
           mkStores (alter add_reference i (credential_stores w)) (next_address w) (stores_exports w)
             (unexported w))
      | None =>
          if negb memory then (Ok None, w)
          else match render_virtual_credentials text_memory system with
            | Fault => (Fault, w)
            | Err _ => (Ok None, w)
            | Ok (passwd, shadow) =>
                match export_interface (stores_exports w) with
                | (FACET_OK, handle) =>
                    let store := mkStore (next_address w) handle initrd u g a (Some passwd)
                                   (Some shadow) 1 [] in
                    (Ok (Some (next_address w)),
                     mkStores (store :: credential_stores w) (S (next_address w))
                       (S (stores_exports w)) (unexported w))
                | _ => (Ok None, mkStores (credential_stores w) (S (next_address w))
                                   (S (stores_exports w)) (unexported w))
                end
            end
      end
  end.

(** Handles that are given back with a store: its nodes, then its own. *)
Definition store_handles (s : Dominit0CredentialFileStore) : list Handle :=
  filter (fun h => h <> None) (map node_handle (nodes s) ++ [cs_handle s]).

Definition dominit0_credential_file_store_destroy (address : option nat) (w : Stores) : Stores :=
  match address with
  | None => w
  | Some address =>
      match index_of (fun s => (cs_address s =? address)%nat) (credential_stores w) with
      | None => w
      | Some i =>
          match credential_stores w !! i with
          | None => w
          | Some store =>
              if 1 <? references store
              then mkStores (alter drop_reference i (credential_stores w)) (next_address w)
                     (stores_exports w) (unexported w)
              else mkStores (delete i (credential_stores w)) (next_address w) (stores_exports w)
                     (unexported w ++ store_handles store)
          end
      end
  end.

End Stores.
