(* ===== verification/FileViewFacts.v ===== *)
(** The credential file view: the in-place path normalisation is correct, opened
    nodes are reachable for the credentials of the store, reads are authorised,
    equal nodes are shared, the virtual credential files are exact, and stores are
    shared and released by reference count. *)
From stdpp Require Import sets.
From S2P Require Import Prelude ConfigTypes ConfigParse ConfigParseFacts Effects Initrd InitrdFacts FileView.

(** ** Path normalisation *)

(** The walk along components without a length limit. *)
Fixpoint normalise (stack comps : list bytes) : list bytes :=
  match comps with
  | [] => stack
  | c :: rest => if c =b parent then normalise (removelast stack) rest else normalise (stack ++ [c]) rest
  end.

Abbreviation joined stack := (concat (map (cons 47) stack)).

(** The written part of the buffer for a stack of components: at the start it is
    empty, and back at the root it is the slash. *)
Definition written (stack : list bytes) (out : bytes) : Prop :=
  Forall plain stack /\ (out = joined stack \/ (stack = [] /\ out = [47])).

Lemma unwind_app out more n : (n <= length out)%nat -> unwind (out ++ more) n = unwind out n.
Proof.
  induction n as [|[|n] IH]; intros Hn; [done..|]. rewrite !unwind_SS, lookup_app_l by lia.
  case_bool_decide; [done|]. apply IH. lia.
Qed.

Lemma unwind_le out n : (unwind out n <= n)%nat.
Proof. induction n as [|[|n] IH]; [done..|]. rewrite unwind_SS. case_bool_decide; lia. Qed.

Lemma written_render stack out : written stack out -> out <> [] -> out = render_path stack.
Proof. intros [_ [->|[-> ->]]] Hne; [by destruct stack|done]. Qed.

Lemma pop_write_spec stack out more :
  written stack out -> (pop_write (out ++ more) (length out) <= length out)%nat /\
  written (removelast stack) (take (pop_write (out ++ more) (length out)) out).
Proof.
  intros Hw. unfold pop_write. rewrite unwind_app by done.
  destruct (decide (length out <= 1)%nat) as [Hl|Hl].
  - assert (unwind out (length out) = length out) as -> by (destruct out as [|? [|]]; simpl in *; done || lia).
    rewrite (proj2 (Nat.ltb_ge 1 (length out))) by lia. split; [done|]. rewrite take_ge by done.
    destruct Hw as [Hp [->|[-> ->]]]; [|split; [done|by right]].
    destruct (decide (stack = [])) as [->|Hne]; [by split; [|left]|].
    pose proof (concat_slash_plain stack Hp Hne). lia.
  - assert (out = render_path stack) as Hr by (apply written_render; [done|by intros ->; simpl in Hl; lia]).
    destruct Hw as [Hp _]. pose proof (pop_component_render stack Hp) as Hpop. rewrite <- Hr in Hpop.
    unfold pop_component in Hpop. rewrite (proj2 (Nat.ltb_lt 1 (length out))) in Hpop by lia.
    set (n := unwind out (length out)) in *.
    assert (n <= length out)%nat as Hn.
    { apply unwind_le. }
    set (w := if (1 <? n)%nat then (n - 1)%nat else n) in *.
    assert (w <= length out)%nat by (subst w; case_match; lia). split; [done|]. rewrite Hpop.
    split; [by apply Forall_removelast|]. destruct (removelast stack); [by right|by left].
Qed.

Lemma copy_bytes_spec c out gap rest :
  exists gap', length gap' = length gap /\
    copy_bytes (length c) (out ++ gap ++ c ++ rest) (length out) (length out + length gap) =
      Some (out ++ c ++ gap' ++ rest).
Proof.
  revert out gap. induction c as [|x c IH]; intros out gap; [by exists gap|]. cbn [length copy_bytes].
  assert ((out ++ gap ++ (x :: c) ++ rest) !! (length out + length gap)%nat = Some x) as ->.
  { rewrite lookup_app_r by lia. rewrite lookup_app_r by lia.
    by replace (length out + length gap - length out - length gap)%nat with 0%nat by lia. }
  destruct gap as [|y gap].
  - rewrite Nat.add_0_r. change ([] ++ (x :: c) ++ rest) with (x :: c ++ rest).
    rewrite lookup_app_r, Nat.sub_diag by lia. cbn. rewrite insert_app_r_alt, Nat.sub_diag by lia. cbn.
    destruct (IH (out ++ [x]) []) as (g & Hg & H). exists g. split; [done|].
    rewrite length_app in H. cbn in H. rewrite <- !app_assoc in H. cbn in H.
    by rewrite Nat.add_0_r, Nat.add_1_r in H.
  - rewrite lookup_app_r, Nat.sub_diag by lia. cbn. rewrite insert_app_r_alt, Nat.sub_diag by lia. cbn.
    destruct (IH (out ++ [x]) (gap ++ [x])) as (g & Hg & H). exists g. rewrite length_app in Hg. cbn in Hg.
    split; [lia|]. rewrite !length_app in H. cbn in H. rewrite <- !app_assoc in H. cbn in H.
    replace (length out + S (length gap))%nat with (length out + (length gap + 1))%nat by lia.
    replace (S (length out)) with (length out + 1)%nat by lia.
    by replace (S (length out + (length gap + 1)))%nat with (length out + 1 + (length gap + 1))%nat by lia.
Qed.

Lemma skip_at_spec fuel pre k more :
  (k < fuel)%nat -> starts_with 47 more = false ->
  skip_at fuel (pre ++ repeat 47 k ++ more) (length pre) = (length pre + k)%nat.
Proof.
  revert pre k. induction fuel as [|f IH]; intros pre k Hk Hm; [lia|]. cbn [skip_at].
  rewrite lookup_app_r, Nat.sub_diag by lia. destruct k as [|k].
  - simpl. case_bool_decide as Hb; [|lia]. unfold starts_with in Hm. destruct more; [done|].
    simpl in *. by rewrite bool_decide_eq_true_2 in Hm.
  - simpl. specialize (IH (pre ++ [47]) k).
    rewrite length_app, <- app_assoc in IH. simpl in IH.
    replace (S (length pre)) with (length pre + 1)%nat by lia. rewrite IH by (done || lia). lia.
Qed.

Lemma component_at_spec fuel pre c d more :
  (length c < fuel)%nat -> 47 ∉ c -> 0 ∉ c -> d = 0 \/ d = 47 ->
  component_at fuel (pre ++ c ++ d :: more) (length pre) = (length pre + length c)%nat.
Proof.
  revert pre c. induction fuel as [|f IH]; intros pre c Hk H1 H2 Hd; [lia|]. cbn [component_at].
  rewrite lookup_app_r, Nat.sub_diag by lia. destruct c as [|x c].
  - simpl. rewrite Nat.add_0_r. by destruct Hd as [->| ->].
  - apply not_elem_of_cons in H1 as [Hx1 H1]. apply not_elem_of_cons in H2 as [Hx2 H2]. simpl.
    destruct (_ || _)%bool eqn:E.
    { apply orb_true_iff in E as [E|E]; bool_props; congruence. }
    specialize (IH (pre ++ [x]) c). rewrite length_app, <- app_assoc in IH. simpl in IH.
    replace (S (length pre)) with (length pre + 1)%nat by lia. simpl in Hk. rewrite IH by (done || lia). lia.
Qed.

Lemma written_slash stack out more :
  written stack out ->
  ((length out =? 0)%nat || negb (bool_decide ((out ++ more) !! (length out - 1)%nat = Some 47)))%bool =
  negb (out =b [47]).
Proof.
  intros [Hp Hw]. destruct (decide (out = [47])) as [->|Hne]; [done|].
  rewrite (proj2 (bytes_eqb_neq _ _) Hne). simpl. destruct Hw as [Hw|[_ ?]]; [|done].
  destruct (decide (out = [])) as [->|Hout]; [done|].
  assert (0 < length out)%nat by (destruct out; [done|simpl; lia]).
  rewrite (proj2 (Nat.eqb_neq (length out) 0)) by lia. simpl. apply negb_true_iff, bool_decide_eq_false.
  rewrite lookup_app_l by lia. induction stack as [|c stack _] using rev_ind; [done|].
  apply Forall_app in Hp as [_ Hc]. apply Forall_singleton in Hc as [Hcn Hc47].
  rewrite map_app, concat_app in Hw. simpl in Hw. rewrite app_nil_r in Hw. subst out.
  induction c as [|x c _] using rev_ind; [done|]. intros Hl. apply Hc47, elem_of_app. right.
  apply list_elem_of_singleton.
  change (47 :: c ++ [x]) with ((47 :: c) ++ [x]) in Hl. rewrite (assoc_L (++)) in Hl.
  rewrite lookup_app_r in Hl by (rewrite !length_app; simpl; lia).
  rewrite (length_app _ [x]) in Hl. simpl in Hl.
  replace (_ + 1 - 1 - _)%nat with 0%nat in Hl by lia. simpl in Hl. congruence.
Qed.

Lemma written_push stack out c :
  written stack out -> plain c -> written (stack ++ [c]) ((if out =b [47] then out else out ++ [47]) ++ c).
Proof.
  intros [Hp Hw] Hc. split; [apply Forall_app_2; [done|by apply Forall_singleton]|]. left.
  rewrite map_app, concat_app. simpl. rewrite app_nil_r. destruct (out =b [47]) eqn:E; bool_props.
  - subst out. destruct Hw as [Hw|[-> _]]; [|done]. destruct stack as [|d stack]; [done|].
    apply Forall_cons in Hp as [[Hd _] _]. by destruct d.
  - destruct Hw as [->|[_ ?]]; [|done]. by rewrite <- app_assoc.
Qed.

Lemma take_part (out gap c rest : bytes) :
  firstn (length c) (skipn (length out + length gap) (out ++ gap ++ c ++ rest)) = c.
Proof. rewrite <- drop_drop, drop_app_length, drop_app_length. apply take_app_length. Qed.

(** What one component does to the buffer. *)
Lemma normalise_component_spec stack out gap c rest :
  written stack out -> plain c -> c <> [46] -> (0 < length gap)%nat ->
  exists buffer write gap',
    normalise_component (out ++ gap ++ c ++ rest) (length out + length gap) (length c) (length out) =
      Some (buffer, write) /\
    length buffer = length (out ++ gap ++ c ++ rest) /\
    exists out', buffer = out' ++ gap' ++ rest /\ write = length out' /\
      written (normalise stack [c]) out' /\ (forall b, b ∈ out' -> b ∈ out \/ b ∈ c \/ b = 47).
Proof.
  intros Hw Hc Hdot Hgap. unfold normalise_component.
  rewrite take_part.
  rewrite (proj2 (bytes_eqb_neq c [46]) Hdot). change [46; 46] with parent. simpl normalise.
  destruct (c =b parent) eqn:Ep.
  - destruct (pop_write_spec stack out (gap ++ c ++ rest) Hw) as [Hle Hw'].
    set (n := pop_write (out ++ gap ++ c ++ rest) (length out)) in *.
    exists (out ++ gap ++ c ++ rest), n, (drop n out ++ gap ++ c). split; [done|]. split; [done|].
    exists (take n out). rewrite <- !(assoc_L (++)), (assoc_L (++) (take n out)), take_drop.
    split; [done|]. split; [rewrite length_take; lia|]. split; [done|].
    intros b Hb. left. rewrite <- (take_drop n out). apply elem_of_app. by left.
  - rewrite (written_slash stack) by done.
    pose proof (written_push stack out c Hw Hc) as Hw'. destruct (out =b [47]) eqn:E47; simpl negb; cbn iota.
    + destruct (copy_bytes_spec c out gap rest) as (g & Hg & ->).
      exists (out ++ c ++ g ++ rest), (length out + length c)%nat, g. split; [done|].
      split; [rewrite !length_app; lia|]. exists (out ++ c). rewrite <- !(assoc_L (++)), length_app.
      split_and!; [done..|]. intros b. rewrite elem_of_app. tauto.
    + destruct gap as [|y gap]; [simpl in Hgap; lia|]. unfold put_byte.
      rewrite lookup_app_r, Nat.sub_diag by lia. cbn [lookup list_lookup app].
      rewrite insert_app_r_alt, Nat.sub_diag by lia. cbn [insert list_insert app].
      destruct (copy_bytes_spec c (out ++ [47]) gap rest) as (g & Hg & Hcopy).
      rewrite length_app in Hcopy. simpl in Hcopy. rewrite <- !(assoc_L (++)) in Hcopy. simpl in Hcopy.
      replace (length out + length (y :: gap))%nat with (length out + 1 + length gap)%nat by (simpl; lia).
      replace (S (length out)) with (length out + 1)%nat by lia. rewrite Hcopy.
      exists (out ++ 47 :: c ++ g ++ rest), (length out + 1 + length c)%nat, g. split; [done|].
      split; [rewrite !length_app; simpl; rewrite !length_app; lia|]. exists ((out ++ [47]) ++ c).
      rewrite <- !(assoc_L (++)). rewrite !length_app. simpl.
      split_and!; [done|lia|by rewrite <- (assoc_L (++)) in Hw'|].
      intros b. rewrite elem_of_app, elem_of_cons. tauto.
Qed.

Lemma slash_prefix l : exists k, l = repeat 47 k ++ skip_slashes l.
Proof.
  induction l as [|x l [k IH]]; [by exists 0%nat|]. simpl. destruct (x =? 47) eqn:E; bool_props.
  - exists (S k). subst x. simpl. by rewrite <- IH.
  - by exists 0%nat.
Qed.

(** The pieces of a non-empty rest: slashes, a component and what follows. *)
Lemma rest_pieces r :
  exists k c rest', 47 :: r = repeat 47 k ++ c ++ rest' /\ (0 < k)%nat /\ 47 ∉ c /\
    (rest' = [] \/ exists r', rest' = 47 :: r') /\ (c = [] -> rest' = []) /\
    starts_with 47 (c ++ rest') = false /\
    components (47 :: r) = filter (fun c => c <> [] /\ c <> [46]) [c] ++ components rest'.
Proof.
  destruct (slash_prefix (47 :: r)) as [k Hk]. destruct (take_component (skip_slashes (47 :: r))) as [c rest'] eqn:Et.
  pose proof (components_take _ _ _ Et) as Hcomp. rewrite components_skip in Hcomp.
  pose proof (skip_slashes_head (47 :: r)) as Hh.
  apply take_component_spec in Et as (Heq & Hc & Hr). rewrite Heq in Hk, Hh. exists k, c, rest'.
  split_and!; try done.
  - destruct k; [|lia]. simpl in Hk. rewrite <- Hk in Hh. by rewrite starts_with_cons in Hh.
  - intros ->. destruct Hr as [->|[r' ->]]; [done|]. simpl in Hh. by rewrite starts_with_cons in Hh.
Qed.

Lemma normalise_app stack l1 l2 : normalise stack (l1 ++ l2) = normalise (normalise stack l1) l2.
Proof. revert stack. induction l1 as [|c l1 IH]; intros stack; simpl; [done|]. by case_match. Qed.

(** The component after the slashes, whatever it is. *)
Lemma normalise_step_spec stack out gap c rest :
  written stack out -> 0 ∉ out -> 47 ∉ c -> 0 ∉ c -> c <> [] -> (0 < length gap)%nat ->
  exists out' gap',
    normalise_component (out ++ gap ++ c ++ rest) (length out + length gap) (length c) (length out) =
      Some (out' ++ gap' ++ rest, length out') /\
    (length out' + length gap' = length out + length gap + length c)%nat /\
    written (normalise stack (filter (fun c => c <> [] /\ c <> [46]) [c])) out' /\ 0 ∉ out'.
Proof.
  intros Hw H0 Hc Hc0 Hne Hgap. destruct (decide (c = [46])) as [->|Hdot].
  - exists out, (gap ++ [46]). rewrite <- !(assoc_L (++)), length_app.
    split; [|simpl; split_and!; [lia|done..]]. unfold normalise_component. by rewrite take_part.
  - destruct (normalise_component_spec stack out gap c rest Hw) as (b & w & g & -> & Hl & o & -> & -> & Hw' & Hb);
      [done..|]. rewrite filter_cons_True by done. exists o, g. rewrite !length_app in Hl.
    split; [done|]. split; [lia|]. split; [done|].
    intros [?|[?|?]]%Hb; [by apply H0|by apply Hc0|done].
Qed.

Lemma normalise_loop_spec fuel stack out gap rest more :
  written stack out -> 0 ∉ out -> 0 ∉ rest -> (rest = [] \/ exists r, rest = 47 :: r) ->
  (length rest < fuel)%nat ->
  exists out' more',
    normalise_loop fuel (out ++ gap ++ rest ++ 0 :: more) (length out + length gap) (length out) =
      Some (out' ++ more', length out') /\ more' <> [] /\
    length (out' ++ more') = length (out ++ gap ++ rest ++ 0 :: more) /\
    written (normalise stack (components rest)) out' /\ 0 ∉ out'.
Proof.
  revert stack out gap rest. induction fuel as [|f IH]; intros stack out gap rest Hw H0 Hr0 Hr Hf; [lia|].
  assert (forall b l, (out ++ gap ++ b :: l) !! (length out + length gap)%nat = Some b) as Hat.
  { intros b l. rewrite lookup_app_r by lia. rewrite lookup_app_r by lia.
    by replace (length out + length gap - length out - length gap)%nat with 0%nat by lia. }
  cbn [normalise_loop]. destruct Hr as [->|[r ->]].
  { simpl app. rewrite Hat. simpl. exists out, (gap ++ 0 :: more). split_and!; try done. by destruct gap. }
  assert ((47 :: r) ++ 0 :: more = 47 :: r ++ 0 :: more) as E by done. rewrite E, Hat, <- E. simpl Z.eqb. cbn iota.
  destruct (rest_pieces r) as (k & c & rest' & Heq & Hk & Hc & Hr' & Hce & Hh & Hcomp). rewrite Heq in *.
  assert (0 ∉ c /\ 0 ∉ rest') as [Hc0 Hr0'] by (rewrite !not_elem_of_app in Hr0; tauto).
  assert (exists d l, rest' ++ 0 :: more = d :: l /\ (d = 0 \/ d = 47)) as (d & l & Hdl & Hd).
  { destruct Hr' as [->|[r' ->]]; eauto. }
  set (gap2 := gap ++ repeat 47 k).
  assert (skip_at (length (out ++ gap ++ (repeat 47 k ++ c ++ rest') ++ 0 :: more))
            (out ++ gap ++ (repeat 47 k ++ c ++ rest') ++ 0 :: more) (length out + length gap) =
          (length out + length gap2)%nat) as ->.
  { subst gap2. rewrite <- !(assoc_L (++)), Hdl. rewrite (assoc_L (++) out), <- length_app.
    rewrite skip_at_spec; [rewrite !length_app, repeat_length; lia|rewrite !length_app, repeat_length; simpl; lia|].
    destruct c as [|x c]; simpl in Hh |- *; rewrite starts_with_cons in *; [|done].
    rewrite (Hce eq_refl) in Hdl. simpl in Hdl. by simplify_eq. }
  assert (gap ++ (repeat 47 k ++ c ++ rest') ++ 0 :: more = gap2 ++ c ++ rest' ++ 0 :: more) as Hbuf
    by (subst gap2; by rewrite <- !(assoc_L (++))). rewrite Hbuf.
  assert (0 < length gap2)%nat as Hg2 by (subst gap2; rewrite length_app, repeat_length; lia).
  assert (length (c ++ rest') < f)%nat as Hf' by (rewrite length_app, repeat_length in Hf; lia).
  destruct c as [|x c].
  { rewrite (Hce eq_refl) in *. exists out, (gap2 ++ 0 :: more). simpl app.
    rewrite lookup_app_r by lia. rewrite lookup_app_r by lia.
    replace (length out + length gap2 - length out - length gap2)%nat with 0%nat by lia.
    split_and!; try done; [by destruct gap2|]. simpl app in Hcomp. by rewrite Hcomp. }
  assert ((out ++ gap2 ++ (x :: c) ++ rest' ++ 0 :: more) !! (length out + length gap2)%nat = Some x) as ->.
  { rewrite lookup_app_r by lia. rewrite lookup_app_r by lia.
    by replace (length out + length gap2 - length out - length gap2)%nat with 0%nat by lia. }
  assert (x <> 0) as Hx by (apply not_elem_of_cons in Hc0; intros ->; tauto).
  rewrite (proj2 (Z.eqb_neq x 0) Hx).
  assert (component_at (length (out ++ gap2 ++ (x :: c) ++ rest' ++ 0 :: more))
            (out ++ gap2 ++ (x :: c) ++ rest' ++ 0 :: more) (length out + length gap2) =
          (length out + length gap2 + length (x :: c))%nat) as ->.
  { rewrite Hdl, (assoc_L (++) out), <- (length_app out). apply component_at_spec; try done.
    rewrite !length_app. simpl. lia. }
  replace (length out + length gap2 + length (x :: c) - (length out + length gap2))%nat
    with (length (x :: c)) by lia.
  destruct (normalise_step_spec stack out gap2 (x :: c) (rest' ++ 0 :: more)) as (o & g & -> & Hlen & Hw' & Ho);
    [done..|]. rewrite <- Hlen, Hcomp, normalise_app.
  destruct (IH _ o g rest' Hw' Ho Hr0' Hr') as (o' & m' & -> & Hm & Hl & Hw2 & Ho2).
  { rewrite length_app in Hf'. simpl in Hf'. lia. }
  exists o', m'. split_and!; try done. rewrite Hl, !length_app. simpl length in *. lia.
Qed.

Definition path_start (path : bytes) : Prop := starts_with 47 path = true.

Lemma cstring_split l : 0 ∉ cstring l /\ exists more, l ++ [0] = cstring l ++ 0 :: more.
Proof.
  induction l as [|x l [H (more & Hm)]]; simpl; [split; [apply not_elem_of_nil|by exists []]|].
  destruct (x =? 0) eqn:E; bool_props.
  - subst x. split; [apply not_elem_of_nil|by exists (l ++ [0])].
  - split; [apply not_elem_of_cons; split; [congruence|done]|]. exists more. simpl. by rewrite Hm.
Qed.

Lemma normalise_path_eq (candidate : bytes) (Hstart : path_start candidate) :
  normalise_path (candidate ++ [0]) =
    Some (render_path (normalise [] (components (cstring candidate)))).
Proof.
  destruct (cstring_split candidate) as [Hn (more & Heq)]. rewrite Heq.
  assert (exists r, cstring candidate = 47 :: r) as [r Hr].
  { destruct candidate as [|x l]; [done|]. unfold path_start in Hstart. rewrite starts_with_cons in Hstart.
    bool_props. subst x. simpl. by eexists. }
  destruct (normalise_loop_spec (S (length (cstring candidate ++ 0 :: more))) [] [] [] (cstring candidate) more)
    as (out & m & Hloop & Hm & Hl & Hw & H0); [by split; [|left]|apply not_elem_of_nil|done|by right; exists r|
      rewrite length_app; lia|].
  unfold normalise_path. cbn [length Nat.add app] in Hloop. rewrite Hloop. destruct m as [|y m]; [done|].
  destruct out as [|z out].
  - destruct m as [|y2 m]; [rewrite Hr in Hl; simpl in Hl; rewrite length_app in Hl; simpl in Hl; lia|]. simpl.
    destruct Hw as [_ [Hj|[Hs _]]]; [|by rewrite Hs].
    destruct (normalise [] (components (cstring candidate))); [done|]. done.
  - simpl length. cbn [Nat.eqb]. unfold put_byte.
    rewrite lookup_app_r, Nat.sub_diag by done. simpl lookup. cbn iota.
    rewrite insert_app_r_alt, Nat.sub_diag by done. cbn [insert list_insert].
    rewrite cstring_app by done. f_equal. apply written_render; done.
Qed.

(** The path normalisation of the directory view, which rewrites the candidate
    buffer in place while it reads it, never leaves the buffer, terminates, and
    produces the canonical path: empty and dot components are dropped, the parent
    component removes the last one, the parent of the root is the root.  It reads
    the candidate up to its first NUL byte. *)
Theorem normalise_path_correct (candidate : bytes) (Hstart : path_start candidate) :
  normalise_path (candidate ++ [0]) =
    Some (render_path (normalise [] (components (cstring candidate)))).
Proof. by apply normalise_path_eq. Qed.

Lemma normalise_path_correct_witness :
  normalise_path (B "/posix/bin/.././/etc/passwd" ++ [0]) = Some (B "/posix/etc/passwd").
Proof. exact (normalise_path_correct (B "/posix/bin/.././/etc/passwd") eq_refl). Defined.

(** ** Opening through the boot file system *)

Lemma components_render comps : Forall ordinary comps -> components (render_path comps) = comps.
Proof.
  intros Hc. assert (forall l, Forall ordinary l -> components (joined l) = l) as H.
  { induction l as [|c l IH]; intros Hl; [done|]. apply Forall_cons in Hl as [[[Hne H47] [Hd _]] Hl].
    simpl. rewrite components_slash. rewrite (components_take _ c (joined l)).
    - rewrite filter_cons_True by done. simpl. by rewrite IH.
    - apply take_component_app; [done|]. destruct l; [by left|right; by eexists]. }
  destruct comps as [|c comps]; [done|]. rewrite render_path_cons. by apply H.
Qed.

Lemma render_prefix_length comps more :
  zlen (render_path comps) <= zlen (render_path (comps ++ more)).
Proof.
  destruct more as [|c more]; [rewrite app_nil_r; lia|].
  destruct comps as [|d comps].
  - simpl app. rewrite render_path_cons. simpl. unfold zlen. simpl. lia.
  - simpl app. rewrite !render_path_cons. change (d :: comps ++ c :: more) with ((d :: comps) ++ c :: more).
    rewrite map_app, concat_app, zlen_app. pose proof (zlen_nonneg (joined (c :: more))). lia.
Qed.

Lemma walk_ordinary_all stack comps :
  Forall ordinary comps -> zlen (render_path (stack ++ comps)) <= FACET_PATH_MAX ->
  walk stack comps = Some (stack ++ comps).
Proof.
  revert stack. induction comps as [|c comps IH]; intros stack Hc Hl; simpl; [by rewrite app_nil_r|].
  apply Forall_cons in Hc as [[_ [_ Hp]] Hc]. rewrite (proj2 (bytes_eqb_neq _ _) Hp).
  assert (stack ++ c :: comps = (stack ++ [c]) ++ comps) as E by (by rewrite <- app_assoc).
  rewrite E in Hl |- *. pose proof (render_prefix_length (stack ++ [c]) comps).
  rewrite (proj2 (Z.leb_le _ _)) by lia. by apply IH.
Qed.

Lemma walk_Forall (P : bytes -> Prop) stack comps result :
  Forall P stack -> Forall P comps -> walk stack comps = Some result -> Forall P result.
Proof.
  revert stack. induction comps as [|c comps IH]; intros stack Hs Hc H; simpl in H; [by simplify_eq|].
  apply Forall_cons in Hc as [Hc Hcs]. destruct (c =b parent).
  - apply (IH (removelast stack)); [by apply Forall_removelast|done|done].
  - case_match; [|done]. eapply IH; [|done|done]. apply Forall_app_2; [done|by apply Forall_singleton].
Qed.

Lemma split_path_bytes acc path c b : c ∈ split_path acc path -> b ∈ c -> b ∈ acc \/ b ∈ path.
Proof.
  revert acc. induction path as [|x path IH]; intros acc Hc Hb; simpl in Hc.
  - apply list_elem_of_singleton in Hc as ->. by left.
  - case_match.
    + apply elem_of_cons in Hc as [->|Hc]; [by left|].
      destruct (IH [] Hc Hb) as [H1|]; [by apply elem_of_nil in H1|]. right. by apply elem_of_cons; right.
    + destruct (IH _ Hc Hb) as [H1|]; [|right; by apply elem_of_cons; right].
      apply elem_of_app in H1 as [?|H1]; [by left|]. right. apply list_elem_of_singleton in H1 as ->.
      apply elem_of_cons. by left.
Qed.

Lemma components_no_nul path : 0 ∉ path -> Forall (fun c => 0 ∉ c) (components path).
Proof.
  intros Hn. apply Forall_forall. intros c [_ Hc]%list_elem_of_filter Hb.
  destruct (split_path_bytes _ _ _ _ Hc Hb) as [H|H]; [by apply elem_of_nil in H|done].
Qed.

Lemma render_no_nul comps : Forall (fun c => 0 ∉ c) comps -> 0 ∉ render_path comps.
Proof.
  intros Hc. assert (0 ∉ joined comps) as H.
  { induction Hc as [|c l Hc _ IH]; [apply not_elem_of_nil|]. simpl.
    apply not_elem_of_cons. split; [done|]. by apply not_elem_of_app. }
  destruct comps; [|done]. simpl. apply not_elem_of_cons. split; [done|apply not_elem_of_nil].
Qed.

(** The components of a path that a request can resolve to. *)
Definition canonical (comps : list bytes) : Prop :=
  Forall ordinary comps /\ Forall (fun c => 0 ∉ c) comps /\ zlen (render_path comps) <= FACET_PATH_MAX.

Lemma canonical_prefix comps more : canonical (comps ++ more) -> canonical comps.
Proof.
  intros ([H1 _]%Forall_app & [H2 _]%Forall_app & H3). split_and!; [done|done|].
  pose proof (render_prefix_length comps more). lia.
Qed.

(** A resolved lookup finds an entry with a canonical path. *)
Lemma find_entry_index_Some entries path directory i :
  find_entry_index entries path directory = Some i ->
  exists e, entries !! i = Some e /\ entry_path e = path /\ entry_directory e = directory.
Proof.
  unfold find_entry_index. intros H. case_match; [done|]. apply index_of_Some in H as (e & He & Hp & _).
  exists e. bool_props. done.
Qed.

Lemma find_entry_of_index entries path directory i :
  find_entry_index entries path directory = Some i -> find_entry entries path directory = entries !! i.
Proof. unfold find_entry. by intros ->. Qed.

Lemma open_node_found ok entries path directory i :
  facet_initrd_open_node ok entries (Some [47]) (Some path) directory = (FACET_OK, Some i) ->
  exists comps e, canonical comps /\ walk [] (components path) = Some comps /\
    entries !! i = Some e /\ entry_path e = render_path comps /\ entry_directory e = directory.
Proof.
  unfold facet_initrd_open_node. intros H. destruct ok.
  2: { unfold resolve_path in H. repeat case_match; simplify_eq. }
  destruct (decide (path <> [] /\ zlen path <= FACET_PATH_MAX /\ 0 ∉ path)) as [(Hne & Hl & Hn)|Hbad].
  - pose proof (resolve_path_walk [] path ltac:(constructor) ltac:(vm_compute; discriminate) Hne Hl Hn) as Hr.
    assert ((if starts_with 47 path then [] else ([] : list bytes)) = []) as E by (by destruct (starts_with _ _)).
    rewrite E in Hr. destruct (walk [] (components path)) as [comps|] eqn:Ew.
    + destruct Hr as (Hres & Ho & Hlen). change (render_path []) with [47] in Hres. rewrite Hres in H.
      destruct (_ && _)%bool; [done|]. destruct (find_entry_index _ _ _) as [k|] eqn:Ef; [|done]. simplify_eq.
      apply find_entry_index_Some in Ef as (e & He & Hp & Hd). exists comps, e.
      split; [|done].
      split_and!; try done. eapply walk_Forall; [constructor|by apply components_no_nul|done].
    + change (render_path []) with [47] in Hr. by rewrite Hr in H.
  - unfold resolve_path in H. destruct (_ || _)%bool eqn:Eb; [done|]. exfalso. apply Hbad.
    apply orb_false_iff in Eb as [Eb E4]. apply orb_false_iff in Eb as [Eb E3].
    apply orb_false_iff in Eb as [_ E2]. bool_props. split_and!; [by intros ->|done|done].
Qed.

(** Opening a canonical path as a directory looks it up. *)
Lemma open_canonical entries comps :
  canonical comps ->
  facet_initrd_open_node true entries (Some [47]) (Some (render_path comps)) true =
  match find_entry_index entries (render_path comps) true with
  | Some i => (FACET_OK, Some i)
  | None => (FACET_NOT_FOUND, None)
  end.
Proof.
  intros (Ho & Hn & Hl). unfold facet_initrd_open_node.
  pose proof (resolve_path_walk [] (render_path comps) ltac:(constructor) ltac:(vm_compute; discriminate)
    ltac:(by destruct comps) Hl (render_no_nul _ Hn)) as Hr.
  assert ((if starts_with 47 (render_path comps) then [] else ([] : list bytes)) = []) as E by (by destruct (starts_with _ _)).
  rewrite E, components_render, walk_ordinary_all in Hr by done. destruct Hr as [Hr _].
  change (render_path []) with [47] in Hr. simpl app in Hr. rewrite Hr, andb_false_r. done.
Qed.

(** ** The permission checks *)

Lemma mode_allows_entry e u g a requested :
  mode_allows (entry_mode e) (entry_uid e) (entry_gid e) u g a requested = entry_allows e u g a requested.
Proof. done. Qed.

(** The directories on the way to a path, with the target itself when it is asked for. *)
Fixpoint way (stack comps : list bytes) (include_target : bool) : list bytes :=
  match comps with
  | [] => []
  | [c] => if include_target then [render_path (stack ++ [c])] else []
  | c :: rest => render_path (stack ++ [c]) :: way (stack ++ [c]) rest include_target
  end.

Section ViewFacts.
Context (malloc_ok : nat -> bool) (export_interface : nat -> FacetResult * Handle)
  (handle_clone : Handle -> FacetResult * Handle).
Context (entries : list InitrdEntry) (store : Dominit0CredentialFileStore).

(** An allocation failed. *)
Definition starved : Prop := exists n, malloc_ok n = false.

(** A check leaves the nodes alone and, unless memory ran out, gives the code. *)
Definition checks (m : F unit) (code : FacetResult) : Prop :=
  forall s, exists r s', m s = (r, s') /\ fv_nodes s' = fv_nodes s /\
    (r = of_code code \/ (r = Err FACET_OUT_OF_MEMORY /\ starved)).

Abbreviation search := (search_all entries (cs_uid store) (cs_gid store) (cs_admin store)).

Lemma check_directory_checks comps :
  canonical comps -> checks (check_directory malloc_ok entries store (render_path comps)) (search [render_path comps]).
Proof.
  intros Hc s. unfold check_directory, open_node, alloc, fbind.
  destruct (malloc_ok (fv_allocations s)) eqn:Em.
  2: { unfold facet_initrd_open_node. unfold resolve_path. destruct Hc as (Ho & Hn & Hl).
       assert (starts_with 47 (render_path comps) = true) as Hs by (by destruct comps).
       assert (length (render_path comps) =? 0 = false)%nat as Hz by (by destruct comps).
       rewrite Hs, Hz, (proj2 (Z.ltb_ge _ _) Hl), (bool_decide_eq_false_2 (0 ∈ _)) by (by apply render_no_nul).
       simpl. eexists _, _. split_and!; [done|done|]. right. split; [done|]. by eexists. }
  rewrite open_canonical by done. simpl. destruct (find_entry_index _ _ _) as [i|] eqn:Ef.
  - rewrite (find_entry_of_index _ _ _ _ Ef). apply find_entry_index_Some in Ef as (e & He & _ & _).
    unfold check_access, entry_at. simpl. rewrite He, mode_allows_entry, entry_allows_execute.
    destruct (may_execute _ _ _ _); eexists _, _; split; [done|split; [done|by left]|done|split; [done|by left]].
  - unfold find_entry. rewrite Ef. eexists _, _. simpl. split_and!; auto.
Qed.

Lemma checks_seq m1 c1 m2 c2 :
  checks m1 c1 -> (c1 = FACET_OK -> checks m2 c2) ->
  checks (fbind m1 (fun _ => m2)) (if bool_decide (c1 = FACET_OK) then c2 else c1).
Proof.
  intros H1 H2 s. destruct (H1 s) as (r & s' & E & Hn & Hr). unfold fbind. rewrite E.
  destruct Hr as [->|[-> Hs]].
  - case_bool_decide as Hb.
    + subst c1. simpl. destruct (H2 eq_refl s') as (r2 & s2 & E2 & Hn2 & Hr2). eexists _, _.
      split; [exact E2|]. split; [congruence|done].
    + destruct c1; try done; eexists _, _; (split; [done|split; [done|by left]]).
  - eexists _, _. split_and!; auto.
Qed.

Lemma checks_seq_ok m1 c1 m2 :
  checks m1 c1 -> (c1 = FACET_OK -> checks m2 FACET_OK) -> checks (fbind m1 (fun _ => m2)) c1.
Proof.
  intros H1 H2. pose proof (checks_seq m1 c1 m2 FACET_OK H1 H2) as H. by case_bool_decide; subst.
Qed.

Lemma search_app l1 l2 :
  search (l1 ++ l2) = if bool_decide (search l1 = FACET_OK) then search l2 else search l1.
Proof.
  induction l1 as [|d l1 IH]; [done|]. simpl. destruct (find_entry _ _ _); [|done].
  destruct (may_execute _ _ _ _); [|done]. by rewrite IH.
Qed.

Lemma search_loop_checks fuel stack c todo include_target :
  canonical (stack ++ c :: todo) -> (S (length todo) < fuel)%nat ->
  checks (search_loop malloc_ok entries store fuel (joined (stack ++ c :: todo)) include_target
            (Nat.max 1 (length (joined stack)))) (search (way stack (c :: todo) include_target)).
Proof.
  revert stack c todo. induction fuel as [|f IH]; intros stack c todo Hcan Hf; [lia|].
  assert (Forall plain (stack ++ c :: todo)) as Hp.
  { destruct Hcan as [Ho _]. eapply Forall_impl; [exact Ho|]. by intros ? []. }
  apply Forall_app in Hp as [Hs Hc]. apply Forall_cons in Hc as [Hc Ht].
  destruct (check_position stack c todo Hs Hc) as (Hi & He & Hpre & Hl). cbn [search_loop].
  rewrite (proj2 (Nat.ltb_lt _ _) Hi), He, Hpre.
  assert (canonical (stack ++ [c])) as Hcan'.
  { apply canonical_prefix with todo. by rewrite <- app_assoc. }
  destruct todo as [|d todo].
  - rewrite (proj2 (Nat.eqb_eq _ _)) by (by apply Hl). destruct include_target; simpl negb; cbn iota.
    + simpl way. apply checks_seq_ok; [by apply check_directory_checks|]. intros _ s.
      assert (length (render_path (stack ++ [c])) = length (joined (stack ++ [c]))) as E by (by apply Hl).
      destruct f as [|f]; [simpl in Hf; lia|]. cbn [search_loop]. rewrite E, Nat.ltb_irrefl. eexists _, _. eauto.
    + intros s. simpl. eexists _, _. eauto.
  - rewrite (proj2 (Nat.eqb_neq _ _)) by (by rewrite Hl). simpl andb. cbn iota.
    change (way stack (c :: d :: todo) include_target)
      with ([render_path (stack ++ [c])] ++ way (stack ++ [c]) (d :: todo) include_target).
    rewrite search_app. apply checks_seq; [by apply check_directory_checks|]. intros _.
    specialize (IH (stack ++ [c]) d todo). rewrite <- app_assoc in IH. simpl app in IH.
    replace (length (render_path (stack ++ [c]))) with (Nat.max 1 (length (joined (stack ++ [c])))).
    + apply IH; [done|]. simpl in Hf. lia.
    + rewrite render_path_snoc, map_app, concat_app. simpl. rewrite app_nil_r, !length_app. simpl. lia.
Qed.

Lemma canonical_nil : canonical [].
Proof. split_and!; [constructor|constructor|vm_compute; discriminate]. Qed.

Lemma joined_length c todo : Forall plain (c :: todo) -> (S (length todo) < length (joined (c :: todo)))%nat.
Proof.
  revert c. induction todo as [|d todo IH]; intros c Hc; apply Forall_cons in Hc as [[Hne _] Hc].
  - destruct c; [done|]. simpl. lia.
  - specialize (IH d Hc). destruct c; [done|]. simpl in *. rewrite length_app. simpl. lia.
Qed.

(** The search check of a canonical path is the search of the directories on its way. *)
Lemma check_search_checks comps include_target :
  canonical comps ->
  checks (check_search malloc_ok entries store (Some (render_path comps)) include_target)
    (search ([47] :: way [] comps include_target)).
Proof.
  intros Hcan s. unfold check_search. assert (starts_with 47 (render_path comps) = true) as -> by (by destruct comps).
  change (negb true) with false. cbn iota.
  destruct (check_directory_checks [] canonical_nil s) as (r & s1 & E & Hn1 & Hr).
  change (render_path []) with [47] in E, Hr. rewrite fbind_eq, fcatch_eq, E.
  assert (exists code, (match r with Ok _ => (Ok FACET_OK, s1) | Err c => (Ok c, s1) | Fault => (Fault, s1) end)
            = (Ok code, s1) /\ (code = search [[47]] \/ (code = FACET_OUT_OF_MEMORY /\ starved))) as (code & -> & Hcode).
  { destruct Hr as [->|[-> Hs]]; [|by eexists; split; [done|right]].
    destruct (search [[47]]); eexists; (split; [done|by left]). }
  unfold fbind, alloc. destruct (malloc_ok (fv_allocations s1)) eqn:Em; unfold negb; cbn iota.
  2: { eexists _, _. split_and!; [done|done|]. right. split; [done|]. by eexists. }
  set (s2 := mkFv _ _ _).
  change ([47] :: way [] comps include_target) with ([[47]] ++ way [] comps include_target). rewrite search_app.
  destruct (decide (code = FACET_OK)) as [->|Hne].
  - rewrite bool_decide_eq_true_2 by done. destruct Hcode as [Hcode|[? _]]; [|done].
    rewrite (bool_decide_eq_true_2 (search [[47]] = FACET_OK)) by done. destruct comps as [|c todo].
    + simpl. eexists _, _. split_and!; [done|done|by left].
    + assert (Forall plain (c :: todo)) as Hp.
      { destruct Hcan as [Ho _]. eapply Forall_impl; [exact Ho|]. by intros ? []. }
      destruct (search_loop_checks (length (joined (c :: todo))) [] c todo include_target Hcan
        (joined_length c todo Hp) s2) as (r2 & s3 & E2 & Hn3 & Hr2).
      eexists _, _. split; [exact E2|]. split; [by rewrite Hn3|done].
  - rewrite bool_decide_eq_false_2 by done. eexists _, _. split; [done|]. split; [done|].
    destruct Hcode as [->|[-> Hs]]; [|by right]. left. rewrite bool_decide_eq_false_2 by done.
    by destruct (search [[47]]).
Qed.

(** ** The nodes of a view *)

(** A path that the credentials of the store can reach. *)
Definition reachable_path (path : bytes) (directory : bool) : Prop :=
  exists comps, canonical comps /\ path = render_path comps /\
    search ([47] :: way [] comps directory) = FACET_OK.

Definition node_authorised (node : CredentialNode) : Prop :=
  match synthetic node with
  | SYNTHETIC_NONE =>
      exists i e, backing node = Some i /\ entries !! i = Some e /\
        entry_directory e = node_directory node /\ reachable_path (entry_path e) (node_directory node)
  | s => backing node = None /\
      synthetic_for_path (default [] (synthetic_path s)) (node_directory node) = s
  end.

Definition node_key (node : CredentialNode) : option bytes * bool :=
  (node_path_of entries node, node_directory node).

Record view_ok (l : list CredentialNode) : Prop := {
  vo_authorised : Forall node_authorised l;
  vo_shared : NoDup (map node_key l)
}.

Lemma node_authorised_path node : node_authorised node -> exists path, node_path_of entries node = Some (47 :: path).
Proof.
  unfold node_authorised, node_path_of. destruct (synthetic node); try (intros _; by eexists).
  intros (i & e & Hb & He & _ & comps & _ & Hp & _). rewrite Hb. unfold facet_initrd_node_path, entry_at.
  rewrite He. simpl. rewrite Hp. destruct comps; by eexists.
Qed.

Lemma clone_handle_nodes h s r s' : clone_handle handle_clone h s = (r, s') -> s' = s /\ r <> Fault.
Proof. unfold clone_handle, ferr, fret. intros H. repeat case_match; by simplify_eq. Qed.

Lemma same_node_key path directory n :
  same_node entries (Some path) directory n = false -> is_Some (node_path_of entries n) ->
  node_key n <> (Some path, directory).
Proof.
  unfold same_node, node_key. intros H [p Hp]. rewrite Hp in *. intros [= Hpath Hdir]. subst p.
  rewrite Hdir, bool_decide_eq_true_2, bytes_eqb_refl in H by done. done.
Qed.

Lemma wrap_node_ok b syn directory s r s' :
  wrap_node malloc_ok export_interface handle_clone entries b syn directory s = (r, s') ->
  (forall h, node_authorised (mkNode b syn directory h)) -> view_ok (fv_nodes s) ->
  view_ok (fv_nodes s') /\ r <> Fault.
Proof.
  unfold wrap_node. intros H Hauth [Ha Hn]. unfold fbind at 1, get_nodes in H. cbn iota in H.
  destruct (node_authorised_path _ (Hauth None)) as [p Hp]. rewrite Hp in H.
  destruct (find _ (fv_nodes s)) as [n|] eqn:Ef.
  { apply clone_handle_nodes in H as [-> ?]. done. }
  unfold fbind, alloc_or_fail, alloc, fret, ferr, fbind in H. destruct (malloc_ok _); [|by simplify_eq].
  unfold export in H. simpl in H. destruct (export_interface (fv_exports s)) as [code h] eqn:Ee.
  destruct code; simplify_eq; try done. simpl in H. apply clone_handle_nodes in H as [-> ?]. split; [|done]. simpl.
  split; [by constructor|]. simpl. apply NoDup_cons. split; [|done].
  intros Hin. apply list_elem_of_fmap in Hin as (n & Hk & Hin).
  assert (node_path_of entries (mkNode b syn directory h) = Some (47 :: p)) as Hp' by done.
  unfold node_key at 1 in Hk. rewrite Hp' in Hk. simpl in Hk.
  apply (same_node_key (47 :: p) directory n); [| |done].
  - apply list_elem_of_In in Hin. by apply (find_none _ _ Ef) in Hin.
  - rewrite Forall_forall in Ha. destruct (node_authorised_path n) as [q Hq]; [by apply Ha|]. by exists (47 :: q).
Qed.

Lemma open_checked_ok path directory s r s' :
  open_checked malloc_ok export_interface handle_clone entries store [47] path directory s = (r, s') ->
  view_ok (fv_nodes s) -> view_ok (fv_nodes s') /\ r <> Fault.
Proof.
  unfold open_checked. intros H Hok. unfold fbind at 1 in H. unfold open_node, alloc in H. unfold fbind at 1 in H.
  cbn iota in H. destruct (facet_initrd_open_node _ _ _ _ _) as [code oi] eqn:Eo.
  destruct code; try (unfold ferr in H; by simplify_eq). destruct oi as [i|]; [|unfold ferr in H; by simplify_eq].
  apply open_node_found in Eo as (comps & e & Hcan & _ & He & Hp & Hd). simpl in H.
  assert (facet_initrd_node_path entries (Some i) = Some (render_path comps)) as Hnp.
  { unfold facet_initrd_node_path, entry_at. rewrite He. simpl. by rewrite Hp. }
  rewrite Hnp in H. unfold fbind in H.
  destruct (check_search_checks comps directory Hcan (mkFv (S (fv_allocations s)) (fv_exports s) (fv_nodes s)))
    as (r1 & s1 & E1 & Hn1 & Hr1). rewrite E1 in H. simpl in Hn1. rewrite <- Hn1 in Hok.
  destruct r1 as [[]|code|]; [|by simplify_eq| ].
  - apply wrap_node_ok in H; [done| |done]. intros h. unfold node_authorised. simpl.
    exists i, e. split_and!; try done. exists comps. split_and!; try done.
    destruct Hr1 as [Hr1|[? _]]; [|done]. by destruct (search _).
  - destruct Hr1 as [Hr1|[? _]]; [|done]. by destruct (search _).
Qed.

(** What a client of the view can do: open through the store or through a directory
    it has, read and list. *)
Inductive view_step : FvState -> FvState -> Prop :=
  | step_store_open path directory s r s' :
      store_open malloc_ok export_interface handle_clone entries store path directory s = (r, s') ->
      view_step s s'
  | step_directory_open node path directory s r s' :
      node ∈ fv_nodes s ->
      directory_open malloc_ok export_interface handle_clone entries store node path directory s = (r, s') ->
      view_step s s'
  | step_read node offset maximum s r s' :
      node ∈ fv_nodes s -> file_read malloc_ok entries store node offset maximum s = (r, s') ->
      view_step s s'
  | step_list node cursor maximum s r s' :
      node ∈ fv_nodes s -> directory_list malloc_ok entries store node cursor maximum s = (r, s') ->
      view_step s s'.

Inductive view_reachable : FvState -> Prop :=
  | view_start allocations exports : view_reachable (mkFv allocations exports [])
  | view_next s s' : view_reachable s -> view_step s s' -> view_reachable s'.

Lemma alloc_times_nodes n s r s' : alloc_times malloc_ok n s = (r, s') -> fv_nodes s' = fv_nodes s.
Proof.
  revert s. induction n as [|n IH]; intros s H; simpl in H; [unfold fret in H; by simplify_eq|].
  unfold fbind, alloc_or_fail, fbind, alloc, fret, ferr in H. destruct (malloc_ok _); [|by simplify_eq].
  by apply IH in H.
Qed.

Lemma synthetic_node_authorised path directory h :
  synthetic_for_path path directory <> SYNTHETIC_NONE ->
  node_authorised (mkNode None (synthetic_for_path path directory) directory h).
Proof.
  intros Hne. unfold node_authorised. simpl. unfold synthetic_for_path in *.
  destruct directory; simpl in *; repeat (destruct (path =b _); [split; [done|vm_compute; reflexivity]|]); done.
Qed.

(** The common end of both open operations. *)
Lemma open_candidate_ok requested path directory s r s' :
  (match synthetic_for_path requested directory with
   | SYNTHETIC_NONE => open_checked malloc_ok export_interface handle_clone entries store [47] path directory
   | syn => wrap_node malloc_ok export_interface handle_clone entries None syn directory
   end) s = (r, s') ->
  view_ok (fv_nodes s) -> view_ok (fv_nodes s') /\ r <> Fault.
Proof.
  intros H Hok. pose proof (synthetic_node_authorised requested directory) as Hs.
  destruct (synthetic_for_path requested directory); [by apply open_checked_ok in H|..];
    apply wrap_node_ok in H; auto.
Qed.

Lemma store_open_ok path directory s r s' :
  store_open malloc_ok export_interface handle_clone entries store path directory s = (r, s') ->
  view_ok (fv_nodes s) -> view_ok (fv_nodes s') /\ r <> Fault.
Proof.
  unfold store_open. intros H Hok. destruct path as [[|x path]|]; try (unfold ferr in H; by simplify_eq).
  unfold fbind, alloc_or_fail, fbind, alloc, fret, ferr in H. destruct (malloc_ok _); [|by simplify_eq].
  by apply open_candidate_ok in H.
Qed.

Lemma directory_open_ok node path directory s r s' :
  node_authorised node ->
  directory_open malloc_ok export_interface handle_clone entries store node path directory s = (r, s') ->
  view_ok (fv_nodes s) -> view_ok (fv_nodes s') /\ r <> Fault.
Proof.
  unfold directory_open. intros Hnode H Hok. destruct path as [[|x path]|]; try (unfold ferr in H; by simplify_eq).
  destruct (node_authorised_path node Hnode) as [base Hbase]. rewrite Hbase in H.
  unfold fbind, alloc_or_fail, fbind, alloc, fret, ferr in H. destruct (malloc_ok _); [|by simplify_eq].
  rewrite normalise_path_eq in H.
  - by apply open_candidate_ok in H.
  - unfold path_start. destruct (starts_with 47 (x :: path)) eqn:E; done.
Qed.

Lemma file_read_nodes node offset maximum s r s' :
  file_read malloc_ok entries store node offset maximum s = (r, s') -> fv_nodes s' = fv_nodes s.
Proof.
  unfold file_read, check_access, fbind, alloc, fret, ferr, ffault. intros H.
  repeat case_match; simplify_eq/=; done.
Qed.

Lemma directory_list_nodes node cursor maximum s r s' :
  directory_list malloc_ok entries store node cursor maximum s = (r, s') -> fv_nodes s' = fv_nodes s.
Proof.
  unfold directory_list, etc_list. intros H. case_match.
  - case_match; [unfold fret in H; by simplify_eq|]. unfold alloc_or_fail, fbind, alloc, fret, ferr in H.
    destruct (malloc_ok _); [|by simplify_eq].
    destruct (alloc_times malloc_ok _ _) as [r1 s1] eqn:E. apply alloc_times_nodes in E. simpl in E.
    destruct r1; by simplify_eq.
  - unfold check_access, fbind, alloc, fret, ferr in H.
    destruct (entry_at _ _); [|by simplify_eq]. destruct (mode_allows _ _ _ _ _ _ _); [|by simplify_eq].
    cbv beta iota in H. destruct (facet_initrd_node_list _ _ _ _ _) as [code [[found next] end_]].
    destruct code; try by simplify_eq. destruct (_ || _)%bool; [by simplify_eq|].
    cbv beta in H. destruct (alloc_times malloc_ok 2 _) as [r1 s1] eqn:E. apply alloc_times_nodes in E. simpl in E.
    destruct r1; by simplify_eq.
Qed.

Lemma view_reachable_ok s : view_reachable s -> view_ok (fv_nodes s).
Proof.
  induction 1 as [a x|s s' _ IH Hstep]; [split; constructor|]. destruct Hstep as [? ? ? ? ? H|n ? ? ? ? ? Hn H|? ? ? ? ? ? _ H|? ? ? ? ? ? _ H].
  - by apply store_open_ok in H as [? _].
  - apply directory_open_ok in H as [? _]; [done| |done]. destruct IH as [Ha _]. rewrite Forall_forall in Ha. auto.
  - by rewrite (file_read_nodes _ _ _ _ _ _ H).
  - by rewrite (directory_list_nodes _ _ _ _ _ _ H).
Qed.

End ViewFacts.

(** A view of the sample archive for an ordinary user. *)
Definition sample_store : Dominit0CredentialFileStore :=
  mkStore 0 (Some 7) 0 1000 100 false (Some default_passwd) (Some default_shadow) 1 [].

Definition sample_open : F Handle :=
  store_open (fun _ => true) (fun n => (FACET_OK, Some (100 + Z.of_nat n))) (fun h => (FACET_OK, h))
    sample_entries sample_store (Some (B "/bin/./sh")) false.

Definition sample_view : FvState := Eval vm_compute in snd (sample_open (mkFv 0 0 [])).

Lemma sample_view_reachable :
  view_reachable (fun _ => true) (fun n => (FACET_OK, Some (100 + Z.of_nat n))) (fun h => (FACET_OK, h))
    sample_entries sample_store sample_view.
Proof.
  apply view_next with (mkFv 0 0 []); [constructor|].
  apply step_store_open with (Some (B "/bin/./sh")) false (fst (sample_open (mkFv 0 0 []))).
  vm_compute. reflexivity.
Qed.

(** C38: Complete mediation: whatever sequence of opens, reads and listings a client
    performs, every node of its view is either one of the synthetic files of
    /posix/etc or an entry of the boot file system of the right kind whose every
    ancestor directory (and the directory itself) can be searched with the
    credentials of the view; and no two nodes stand for the same path and kind, so
    repeated opens share one exported object. *)
Theorem view_nodes_authorised (malloc_ok : nat -> bool) (export_interface : nat -> FacetResult * Handle)
    (handle_clone : Handle -> FacetResult * Handle) (entries : list InitrdEntry)
    (store : Dominit0CredentialFileStore) (s : FvState)
    (Hreach : view_reachable malloc_ok export_interface handle_clone entries store s) :
  Forall (node_authorised entries store) (fv_nodes s) /\ NoDup (map (node_key entries) (fv_nodes s)).
Proof. by destruct (view_reachable_ok _ _ _ _ _ _ Hreach). Qed.

Lemma view_nodes_authorised_witness :
  map node_handle (fv_nodes sample_view) = [Some 100] /\
  Forall (node_authorised sample_entries sample_store) (fv_nodes sample_view).
Proof.
  split; [reflexivity|]. exact (proj1 (view_nodes_authorised _ _ _ _ _ _ sample_view_reachable)).
Defined.

(** Opening is memory safe in every reachable view: neither the store nor a
    directory of the view ever dereferences a null path or writes outside its
    buffers, whatever the requested path and whichever allocations fail. *)
Theorem view_open_safe (malloc_ok : nat -> bool) (export_interface : nat -> FacetResult * Handle)
    (handle_clone : Handle -> FacetResult * Handle) (entries : list InitrdEntry)
    (store : Dominit0CredentialFileStore) (s : FvState) (path : option bytes) (directory : bool)
    (Hreach : view_reachable malloc_ok export_interface handle_clone entries store s) :
  fst (store_open malloc_ok export_interface handle_clone entries store path directory s) <> Fault /\
  forall node, node ∈ fv_nodes s ->
    fst (directory_open malloc_ok export_interface handle_clone entries store node path directory s) <> Fault.
Proof.
  pose proof (view_reachable_ok _ _ _ _ _ _ Hreach) as Hok. split.
  - destruct (store_open _ _ _ _ _ _ _ _) as [r s'] eqn:E. by apply store_open_ok in E as [_ ?].
  - intros node Hin. destruct (directory_open _ _ _ _ _ _ _ _ _) as [r s'] eqn:E.
    assert (node_authorised entries store node) as Hn
      by (destruct Hok as [Ha _]; rewrite Forall_forall in Ha; auto).
    by apply directory_open_ok in E as [_ ?].
Qed.

Lemma view_open_safe_witness :
  fst (store_open (fun _ => true) (fun n => (FACET_OK, Some (100 + Z.of_nat n))) (fun h => (FACET_OK, h))
         sample_entries sample_store (Some (B "/bin")) true sample_view) <> Fault.
Proof. exact (proj1 (view_open_safe _ _ _ _ _ _ (Some (B "/bin")) true sample_view_reachable)). Defined.

(** ** Reads *)

(** The read permission of one entry, bit by bit. *)
Definition may_read (entry : InitrdEntry) (u g : Z) (a : bool) : bool :=
  if (a || (u =? 0))%bool then true
  else Z.testbit (entry_mode entry)
         (if u =? entry_uid entry then 8 else if g =? entry_gid entry then 5 else 2).

Lemma land7_four m n : 0 <= n -> (Z.land (Z.land (Z.shiftr m n) 7) 4 =? 4) = Z.testbit m (n + 2).
Proof.
  intros Hn. rewrite <- Z.land_assoc. change (Z.land 7 4) with 4. change 4 with (2 ^ 2).
  replace (n + 2) with (2 + n) by lia. rewrite <- Z.shiftr_spec by lia. set (k := Z.shiftr m n).
  destruct (Z.testbit k 2) eqn:E.
  - apply Z.eqb_eq, Z.bits_inj'. intros i Hi. rewrite Z.land_spec. destruct (decide (i = 2)) as [->|Hne].
    + by rewrite E.
    + rewrite Z.pow2_bits_false by lia. apply andb_false_r.
  - apply Z.eqb_neq. intros H. apply (f_equal (fun x => Z.testbit x 2)) in H.
    rewrite Z.land_spec, E in H. done.
Qed.

Lemma entry_allows_read entry u g a : entry_allows entry u g a 4 = may_read entry u g a.
Proof.
  unfold entry_allows, may_read. destruct (a || _)%bool; [done|].
  destruct (u =? entry_uid entry); [by apply (land7_four _ 6)|].
  destruct (g =? entry_gid entry); [by apply (land7_four _ 3)|].
  rewrite <- (land7_four _ 0) by done. by rewrite Z.shiftr_0_r.
Qed.

(** C39: Reads are authorised and exact: when a read through a reachable view returns
    bytes, they are the requested window of a synthetic file, and of the shadow
    file only for an administrator, or the window of a boot file whose directories
    the credentials can search and which they can read. *)
Theorem view_read_authorised (malloc_ok : nat -> bool) (export_interface : nat -> FacetResult * Handle)
    (handle_clone : Handle -> FacetResult * Handle) (entries : list InitrdEntry)
    (store : Dominit0CredentialFileStore) (s s' : FvState) (node : CredentialNode)
    (offset maximum : Z) (data : bytes)
    (Hreach : view_reachable malloc_ok export_interface handle_clone entries store s)
    (Hentries : Forall (fun e => zlen (entry_data e) = entry_size e) entries)
    (Hnode : node ∈ fv_nodes s) (Hrange : 0 <= offset /\ 0 <= maximum)
    (Hread : file_read malloc_ok entries store node offset maximum s = (Ok data, s')) :
  (exists contents, synthetic_contents store (synthetic node) = Some contents /\
     (synthetic node = SYNTHETIC_SHADOW -> cs_admin store = true) /\
     data = window contents offset maximum) \/
  (exists e, entry_at entries (backing node) = Some e /\ reachable_path entries store (entry_path e) false /\
     may_read e (cs_uid store) (cs_gid store) (cs_admin store) = true /\
     data = window (entry_data e) offset maximum).
Proof.
  destruct (view_reachable_ok _ _ _ _ _ _ Hreach) as [Ha _]. rewrite Forall_forall in Ha.
  specialize (Ha _ Hnode). unfold file_read in Hread.
  destruct (synthetic_contents store (synthetic node)) as [contents|] eqn:Ec.
  - left. exists contents. split; [done|].
    destruct (_ && _)%bool eqn:Es; [by unfold ferr in Hread|]. split.
    { intros Hsh. rewrite Hsh in Es. by destruct (cs_admin store). }
    destruct (zlen contents <=? offset) eqn:El; bool_props.
    + unfold fret in Hread. simplify_eq. unfold window. rewrite drop_ge by (unfold zlen in *; lia). by rewrite take_nil.
    + unfold fbind, alloc, ferr, fret, ffault in Hread. cbv beta iota in Hread.
      rewrite slice_take in Hread by lia. rewrite window_min in Hread by lia. by case_hyp Hread; simplify_eq.
  - right. unfold check_access, fbind, ferr, fret, ffault in Hread.
    destruct (entry_at entries (backing node)) as [e|] eqn:Ee; [|done]. exists e. split; [done|].
    destruct (mode_allows _ _ _ _ _ _ _) eqn:Em; [|done]. rewrite mode_allows_entry, entry_allows_read in Em.
    cbv beta iota in Hread. simpl in Hread.
    destruct (entry_directory e) eqn:Ed; [done|]. unfold node_authorised in Ha.
    assert (synthetic node = SYNTHETIC_NONE) as Hs.
    { destruct (synthetic node); [done|..]; destruct Ha as [Hb _]; by rewrite Hb in Ee. }
    rewrite Hs in Ha. destruct Ha as (i & e' & Hb & He & Hdir & Hp).
    rewrite Hb in Ee. simpl in Ee. assert (e' = e) as -> by congruence. rewrite Ed in Hdir. rewrite <- Hdir in Hp.
    split; [done|]. split; [done|].
    assert (zlen (entry_data e) = entry_size e) as Hsz.
    { rewrite Forall_forall in Hentries. apply Hentries. by apply list_elem_of_lookup_2 with i. }
    destruct (file_read_at e offset maximum) as [code d] eqn:Er. rewrite file_read_at_window in Er by (done || lia).
    by repeat case_match; simplify_eq.
Qed.

Lemma view_read_authorised_witness :
  exists e, reachable_path sample_entries sample_store (entry_path e) false /\
    may_read e 1000 100 false = true /\ [69; 76] = window (entry_data e) 1 2.
Proof.
  destruct (view_read_authorised (fun _ => true) (fun n => (FACET_OK, Some (100 + Z.of_nat n)))
    (fun h => (FACET_OK, h)) sample_entries sample_store sample_view sample_view
    (mkNode (Some 2%nat) SYNTHETIC_NONE false (Some 100)) 1 2 [69; 76] sample_view_reachable
    ltac:(by_decide) ltac:(vm_compute; left) ltac:(lia) ltac:(vm_compute; reflexivity))
    as [(contents & Hc & _)|(e & _ & Hr & Hm & Hd)]; [discriminate|]. exists e. auto.
Defined.

(** ** The virtual credential files *)

(** The four strings of a user, all present. *)
Definition user_strings (user : FacetConfigUser) : option (bytes * bytes * bytes * bytes) :=
  match user_name user, home_path user, posix_shell user, password_hash user with
  | Some name, Some home, Some shell, Some hash => Some (name, home, shell, hash)
  | _, _, _, _ => None
  end.

Lemma user_strings_Some user name home shell hash :
  user_strings user = Some (name, home, shell, hash) ->
  user_name user = Some name /\ home_path user = Some home /\ posix_shell user = Some shell /\
  password_hash user = Some hash.
Proof. unfold user_strings. intros H. by repeat (case_hyp H; try done); simplify_eq. Qed.

Definition user_passwd (user : FacetConfigUser) : bytes :=
  match user_strings user with
  | Some (name, home, shell, _) => passwd_line name home shell (uid user) (gid user)
  | None => []
  end.

Definition user_shadow (user : FacetConfigUser) : bytes :=
  match user_strings user with Some (name, _, _, hash) => shadow_line name hash | None => [] end.

(** The bytes reserved for a user. *)
Definition passwd_room (user : FacetConfigUser) : Z :=
  match user_strings user with
  | Some (name, home, shell, _) => zlen name + zlen home + zlen shell + 48
  | None => 0
  end.
Definition shadow_room (user : FacetConfigUser) : Z :=
  match user_strings user with Some (name, _, _, hash) => zlen name + zlen hash + 16 | None => 0 end.

Definition total (f : FacetConfigUser -> Z) (users : list FacetConfigUser) : Z :=
  fold_right (fun user n => f user + n) 0 users.

(** The line of a user fits what is reserved for it: the name is printed twice but
    counted once, so it is the name and the two numbers that matter. *)
Definition user_fits (user : FacetConfigUser) : Prop :=
  is_Some (user_strings user) /\
  zlen (default [] (user_name user)) + zlen (decimal (uid user)) + zlen (decimal (gid user)) <= 40.

Lemma zlen_passwd_line name home shell u g :
  zlen (passwd_line name home shell u g) =
  2 * zlen name + zlen home + zlen shell + zlen (decimal u) + zlen (decimal g) + 8.
Proof.
  unfold passwd_line. rewrite !zlen_app. change (zlen (B ":x:")) with 3. change (zlen (B ":")) with 1.
  change (zlen [10]) with 1. lia.
Qed.

Lemma zlen_shadow_line name hash : zlen (shadow_line name hash) = zlen name + zlen hash + 9.
Proof.
  unfold shadow_line. rewrite !zlen_app. change (zlen (B ":")) with 1. change (zlen (B ":::::::")) with 7.
  change (zlen [10]) with 1. lia.
Qed.

Lemma user_fits_lines user :
  user_fits user -> zlen (user_passwd user) <= passwd_room user /\ zlen (user_shadow user) <= shadow_room user.
Proof.
  intros [[[[[name home] shell] hash] Hs] Hl]. unfold user_passwd, user_shadow, passwd_room, shadow_room.
  rewrite Hs, zlen_passwd_line, zlen_shadow_line. apply user_strings_Some in Hs as (Hn & _). rewrite Hn in Hl.
  simpl in Hl. lia.
Qed.

Lemma total_nonneg f users : (forall u, 0 <= f u) -> 0 <= total f users.
Proof. intros Hf. induction users as [|u users IH]; simpl; [done|]. specialize (Hf u). lia. Qed.

Lemma passwd_room_nonneg u : 0 <= passwd_room u.
Proof. unfold passwd_room. repeat case_match; unfold zlen; lia. Qed.
Lemma shadow_room_nonneg u : 0 <= shadow_room u.
Proof. unfold shadow_room. repeat case_match; unfold zlen; lia. Qed.

Lemma credential_sizes_spec users p q :
  Forall user_fits users -> 0 <= p -> 0 <= q ->
  p + total passwd_room users < 2 ^ 31 -> q + total shadow_room users < 2 ^ 31 ->
  credential_sizes users p q = Some (p + total passwd_room users, q + total shadow_room users).
Proof.
  intros Hu. revert p q. induction Hu as [|user users [[[[[name home] shell] hash] Hs] _] _ IH];
    intros p q Hp Hq Hpt Hqt; simpl in *; [by rewrite !Z.add_0_r|].
  pose proof (total_nonneg passwd_room users passwd_room_nonneg).
  pose proof (total_nonneg shadow_room users shadow_room_nonneg).
  assert (passwd_room user = zlen name + zlen home + zlen shell + 48) as Er by (unfold passwd_room; by rewrite Hs).
  assert (shadow_room user = zlen name + zlen hash + 16) as Eq by (unfold shadow_room; by rewrite Hs).
  apply user_strings_Some in Hs as (Hn & Hh & Hsh & Hhash). rewrite Hn, Hh, Hsh, Hhash.
  pose proof (passwd_room_nonneg user). pose proof (shadow_room_nonneg user).
  rewrite <- Er, <- Eq. unfold u64. rewrite !Z.mod_small by lia. rewrite IH by lia. do 2 f_equal; lia.
Qed.

Lemma print_users_spec users p q passwd shadow :
  Forall user_fits users -> zlen passwd + total passwd_room users < p -> p < 2 ^ 31 ->
  zlen shadow + total shadow_room users < q -> q < 2 ^ 31 ->
  print_users users p q passwd shadow =
    Ok (passwd ++ concat (map user_passwd users), shadow ++ concat (map user_shadow users)).
Proof.
  intros Hu. revert passwd shadow. induction Hu as [|user users Huser _ IH]; intros passwd shadow Hp Hp2 Hq Hq2;
    simpl in *; [by rewrite !app_nil_r|].
  destruct (user_fits_lines user Huser) as [Hl1 Hl2]. destruct Huser as [[[[[name home] shell] hash] Hs] _].
  pose proof (total_nonneg passwd_room users passwd_room_nonneg).
  pose proof (total_nonneg shadow_room users shadow_room_nonneg).
  assert (user_passwd user = passwd_line name home shell (uid user) (gid user)) as E1
    by (unfold user_passwd; by rewrite Hs).
  assert (user_shadow user = shadow_line name hash) as E2 by (unfold user_shadow; by rewrite Hs).
  apply user_strings_Some in Hs as (Hn & Hh & Hsh & Hhash). rewrite Hn, Hh, Hsh, Hhash, <- E1, <- E2.
  pose proof (zlen_nonneg passwd). pose proof (zlen_nonneg shadow).
  pose proof (zlen_nonneg (user_passwd user)). pose proof (zlen_nonneg (user_shadow user)).
  rewrite !signed_small by lia. unfold u64. rewrite !Z.mod_small by lia.
  case_goal; [lia|]. case_goal; [lia|].
  rewrite IH by (rewrite ?zlen_app; lia). by rewrite <- !app_assoc.
Qed.

(** The virtual credential files are exact: for configured users whose strings are
    present and whose name and numbers take at most forty characters together, the
    passwd and shadow files are the lines of the users in configuration order; no
    line is cut and no buffer is exceeded. *)
Theorem render_virtual_credentials_exact (users : list FacetConfigUser)
    (Husers : users <> []) (Hfits : Forall user_fits users)
    (Hpasswd : 1 + total passwd_room users < 2 ^ 31) (Hshadow : 1 + total shadow_room users < 2 ^ 31) :
  render_virtual_credentials true (Some users) =
    Ok (concat (map user_passwd users), concat (map user_shadow users)).
Proof.
  unfold render_virtual_credentials. destruct users as [|user users]; [done|].
  rewrite credential_sizes_spec by (done || lia). rewrite print_users_spec; try done; rewrite zlen_nil; lia.
Qed.

Definition sample_user (name : bytes) (shell : option bytes) : FacetConfigUser :=
  mkUser (Some name) (Some (B "$5$facet$j7FgoXidvJl10CTaW0nguGP3ZnvKnqS3/IHmDVliPQ9")) false 1000 1000
    (Some (B "/home/user")) None shell 0.

Lemma render_virtual_credentials_exact_witness :
  render_virtual_credentials true (Some [sample_user (B "user") (Some (B "/bin/sh"))]) =
    Ok (QL "user:x:1000:1000:user:/home/user:/bin/sh",
        QL "user:$5$facet$j7FgoXidvJl10CTaW0nguGP3ZnvKnqS3/IHmDVliPQ9:::::::").
Proof.
  exact (render_virtual_credentials_exact [sample_user (B "user") (Some (B "/bin/sh"))]
    ltac:(discriminate)
    ltac:(repeat constructor; [eexists; reflexivity|vm_compute; discriminate])
    ltac:(vm_compute; reflexivity) ltac:(vm_compute; reflexivity)).
Defined.

(** A long user name makes the rendering fail: a user whose name and numbers take
    more than forty characters does not fit the buffer sized for it, because the
    name is counted once and printed twice. *)
Theorem render_virtual_credentials_long_name (name home shell hash : bytes) (u g : Z) (a : bool)
    (native : option bytes) (present : Z)
    (Hlong : 40 < zlen name + zlen (decimal u) + zlen (decimal g))
    (Hsmall : zlen name + zlen home + zlen shell + zlen (decimal u) + zlen (decimal g) < 2 ^ 29)
    (Hhash : zlen hash < 2 ^ 29) :
  render_virtual_credentials true
    (Some [mkUser (Some name) (Some hash) a u g (Some home) native (Some shell) present]) = Err FACET_ERROR.
Proof.
  pose proof (zlen_nonneg name). pose proof (zlen_nonneg home). pose proof (zlen_nonneg shell).
  pose proof (zlen_nonneg hash). pose proof (zlen_nonneg (decimal u)). pose proof (zlen_nonneg (decimal g)).
  unfold render_virtual_credentials. cbn [credential_sizes print_users user_name home_path posix_shell password_hash
    ConfigTypes.uid ConfigTypes.gid]. change (zlen (@nil Z)) with 0. rewrite zlen_passwd_line.
  rewrite (signed_small 32 (2 * _ + _ + _ + _ + _ + _)) by lia. unfold u64.
  rewrite (Z.mod_small (1 + (_ + _ + _ + 48))) by lia. rewrite Z.mod_small by lia. case_goal; [done|lia].
Qed.

Lemma render_virtual_credentials_long_name_witness :
  render_virtual_credentials true
    (Some [sample_user (B "a_service_account_with_a_long_name") (Some (B "/bin/sh"))]) = Err FACET_ERROR.
Proof.
  exact (render_virtual_credentials_long_name (B "a_service_account_with_a_long_name") (B "/home/user") (B "/bin/sh")
    (B "$5$facet$j7FgoXidvJl10CTaW0nguGP3ZnvKnqS3/IHmDVliPQ9") 1000 1000 false None 0
    ltac:(vm_compute; reflexivity) ltac:(vm_compute; reflexivity) ltac:(vm_compute; reflexivity)).
Defined.

(** The parser and the view disagree on optional fields: the parser accepts a
    configuration whose users name no posix shell, and rendering the credential
    files of that accepted configuration dereferences the null string. *)
Theorem accepted_configuration_faults_view :
  exists c, facet_config_parse (fun _ => true) (Some sourceless_document) (length sourceless_document)
              (Some zero_config) None = (ConfigTypes.Ok tt, Some c, None) /\
    map user_name (users c) = [Some (B "root")] /\ map posix_shell (users c) = [None] /\
    render_virtual_credentials true (Some (users c)) = Fault.
Proof. eexists. split; [vm_compute; reflexivity|]. split_and!; vm_compute; reflexivity. Qed.

(** ** Shared stores *)

Inductive store_event := Acquire (address : nat) | Release (address : nat).

(** The references that the events leave with the clients. *)
Fixpoint held (events : list store_event) (address : nat) : Z :=
  match events with
  | [] => 0
  | Acquire a :: rest => held rest address + (if decide (a = address) then 1 else 0)
  | Release a :: rest => held rest address - (if decide (a = address) then 1 else 0)
  end.

Definition no_stores : Stores := mkStores [] 0 0 [].

(** Histories in which a client only destroys a store that it holds. *)
Inductive store_history (export_interface : nat -> FacetResult * Handle)
    (system : option (list FacetConfigUser)) : list store_event -> Stores -> Prop :=
  | history_start : store_history export_interface system [] no_stores
  | history_create events w memory text_memory initrd u g a address w' :
      store_history export_interface system events w ->
      dominit0_credential_file_store_create export_interface system memory text_memory initrd u g a w =
        (Ok (Some address), w') ->
      store_history export_interface system (Acquire address :: events) w'
  | history_null events w memory text_memory initrd u g a w' :
      store_history export_interface system events w ->
      dominit0_credential_file_store_create export_interface system memory text_memory initrd u g a w =
        (Ok None, w') ->
      store_history export_interface system events w'
  | history_destroy events w address :
      store_history export_interface system events w -> 0 < held events address ->
      store_history export_interface system (Release address :: events)
        (dominit0_credential_file_store_destroy (Some address) w).

Definition credentials (s : Dominit0CredentialFileStore) : nat * Z * Z * bool :=
  (cs_initrd s, cs_uid s, cs_gid s, cs_admin s).

Definition references_of (address : nat) (l : list Dominit0CredentialFileStore) : Z :=
  fold_right (fun s n => (if decide (cs_address s = address) then references s else 0) + n) 0 l.

Record stores_ok (events : list store_event) (w : Stores) : Prop := {
  so_addresses : NoDup (map cs_address (credential_stores w));
  so_credentials : NoDup (map credentials (credential_stores w));
  so_positive : Forall (fun s => 0 < references s) (credential_stores w);
  so_fresh : Forall (fun s => (cs_address s < next_address w)%nat) (credential_stores w);
  so_counts : forall a, references_of a (credential_stores w) = held events a
}.

Lemma references_of_alter f i s l a :
  l !! i = Some s -> cs_address (f s) = cs_address s ->
  references_of a (alter f i l) =
  references_of a l + (if decide (cs_address s = a) then references (f s) - references s else 0).
Proof.
  revert i. induction l as [|t l IH]; intros [|i] Hi Hf; simplify_eq/=.
  - rewrite Hf. destruct (decide _); lia.
  - rewrite (IH i Hi Hf). lia.
Qed.

Lemma references_of_delete i s l a :
  l !! i = Some s ->
  references_of a (delete i l) = references_of a l - (if decide (cs_address s = a) then references s else 0).
Proof.
  revert i. induction l as [|t l IH]; intros [|i] Hi; simplify_eq/=; [lia|]. rewrite (IH i Hi). lia.
Qed.

Lemma map_alter_same {A C} (g : A -> C) f i (l : list A) :
  (forall x, g (f x) = g x) -> map g (alter f i l) = map g l.
Proof.
  intros Hf. revert i. induction l as [|x l IH]; intros [|i]; simpl; [done|done|by rewrite Hf|].
  f_equal. apply IH.
Qed.

Lemma references_of_absent a l :
  references_of a l <> 0 -> exists s, s ∈ l /\ cs_address s = a.
Proof.
  induction l as [|t l IH]; simpl; [done|]. destruct (decide (cs_address t = a)) as [<-|Hne].
  - intros _. exists t. split; [apply elem_of_cons; by left|done].
  - intros H. destruct IH as (s & Hs & Ha); [lia|]. exists s. split; [apply elem_of_cons; by right|done].
Qed.

Lemma references_of_present s l :
  NoDup (map cs_address l) -> s ∈ l -> references_of (cs_address s) l = references s.
Proof.
  induction l as [|t l IH]; intros Hn Hs; [by apply elem_of_nil in Hs|]. simpl in *.
  apply NoDup_cons in Hn as [Ht Hn]. apply elem_of_cons in Hs as [->|Hs].
  - rewrite decide_True by done. destruct (decide (references_of (cs_address t) l = 0)) as [->|Hne]; [lia|].
    apply references_of_absent in Hne as (s & Hs & Ha). destruct Ht. rewrite <- Ha.
    apply list_elem_of_fmap. by exists s.
  - rewrite decide_False; [by rewrite IH|]. intros Heq. apply Ht. rewrite Heq. apply list_elem_of_fmap. by exists s.
Qed.

Lemma same_credentials_eq i u g a s : same_credentials i u g a s = true <-> credentials s = (i, u, g, a).
Proof.
  unfold same_credentials, credentials. rewrite !andb_true_iff, Nat.eqb_eq, !Z.eqb_eq, eqb_true_iff.
  split; [intros [[[-> ->] ->] ->]; done|by intros [= -> -> -> ->]].
Qed.

Lemma stores_ok_create export_interface system events w memory text_memory initrd u g a r w' :
  stores_ok events w ->
  dominit0_credential_file_store_create export_interface system memory text_memory initrd u g a w = (Ok r, w') ->
  stores_ok (match r with Some address => Acquire address :: events | None => events end) w'.
Proof.
  intros [] H. unfold dominit0_credential_file_store_create in H. destruct initrd as [initrd|]; [|by simplify_eq].
  destruct (index_of _ _) as [i|] eqn:Ei.
  - apply index_of_Some in Ei as (s & Hs & _ & _). rewrite Hs in H. simplify_eq/=. constructor; simpl.
    + by rewrite map_alter_same.
    + by rewrite map_alter_same.
    + apply Forall_alter; [done|]. intros x Hx Hpos. simpl. lia.
    + apply Forall_alter; [done|]. intros x Hx Hpos. done.
    + intros b. rewrite (references_of_alter _ _ s) by done. simpl. rewrite so_counts0.
      destruct (decide _); lia.
  - apply index_of_None in Ei. destruct (negb memory); [by simplify_eq|].
    destruct (render_virtual_credentials _ _) as [[passwd shadow]|code|]; [|by simplify_eq|done].
    destruct (export_interface (stores_exports w)) as [code h].
    assert (Forall (fun s => (cs_address s < S (next_address w))%nat) (credential_stores w)) as Hmono
      by (eapply Forall_impl; [exact so_fresh0|intros; simpl in *; lia]).
    destruct code; simplify_eq/=; try by constructor. constructor; simpl.
    + apply NoDup_cons. split; [|done]. intros (s & Heq & Hin)%list_elem_of_fmap.
      rewrite Forall_forall in so_fresh0. specialize (so_fresh0 s Hin). lia.
    + apply NoDup_cons. split; [|done]. intros (s & Heq & Hin)%list_elem_of_fmap.
      rewrite Forall_forall in Ei. specialize (Ei s Hin).
      rewrite (proj2 (same_credentials_eq _ _ _ _ _)) in Ei; [done|]. by rewrite <- Heq.
    + by constructor.
    + constructor; [simpl; lia|done].
    + intros b. rewrite so_counts0. lia.
Qed.

Lemma NoDup_map_delete {A C} (g : A -> C) i (l : list A) : NoDup (map g l) -> NoDup (map g (delete i l)).
Proof.
  intros H. assert (map g (delete i l) = delete i (map g l)) as -> by apply list_fmap_delete.
  eapply sublist_NoDup; [exact H|apply sublist_delete].
Qed.

Lemma stores_ok_destroy events w address :
  stores_ok events w -> 0 < held events address ->
  stores_ok (Release address :: events) (dominit0_credential_file_store_destroy (Some address) w).
Proof.
  intros [] Hheld. unfold dominit0_credential_file_store_destroy.
  destruct (index_of _ _) as [i|] eqn:Ei.
  2: { apply index_of_None in Ei. destruct (references_of_absent address (credential_stores w)) as (s & Hs & Ha).
       { rewrite so_counts0. lia. }
       rewrite Forall_forall in Ei. specialize (Ei s Hs). bool_props. done. }
  apply index_of_Some in Ei as (s & Hs & Ha & _). bool_props. rewrite Hs.
  assert (0 < references s) as Hpos
    by (rewrite Forall_forall in so_positive0; by apply so_positive0, list_elem_of_lookup_2 with i).
  destruct (1 <? references s) eqn:Er; bool_props; constructor; simpl.
  - by rewrite map_alter_same.
  - by rewrite map_alter_same.
  - apply Forall_alter; [done|]. intros x Hx _. simpl. assert (x = s) as -> by congruence. lia.
  - apply Forall_alter; [done|]. done.
  - intros b. rewrite (references_of_alter _ _ s), so_counts0, Ha by done. simpl. destruct (decide _); lia.
  - by apply NoDup_map_delete.
  - by apply NoDup_map_delete.
  - by apply Forall_delete.
  - by apply Forall_delete.
  - intros b. rewrite (references_of_delete _ s), so_counts0, Ha by done. destruct (decide _); lia.
Qed.

Lemma store_history_ok export_interface system events w :
  store_history export_interface system events w -> stores_ok events w.
Proof.
  induction 1 as [| | |].
  - constructor; simpl; [constructor..|done].
  - by eapply (stores_ok_create _ _ _ _ _ _ _ _ _ _ (Some address)).
  - by eapply (stores_ok_create _ _ _ _ _ _ _ _ _ _ None).
  - by apply stores_ok_destroy.
Qed.

(** Credential stores are reference counted: after any history of creations and
    destructions in which clients only release what they hold, a store exists
    exactly when some client holds it, its count is the number of references held,
    and stores with the same credentials are one store. *)
Theorem credential_stores_counted (export_interface : nat -> FacetResult * Handle)
    (system : option (list FacetConfigUser)) (events : list store_event) (w : Stores)
    (Hhistory : store_history export_interface system events w) :
  (forall s, s ∈ credential_stores w -> references s = held events (cs_address s) /\ 0 < references s) /\
  (forall address, held events address <> 0 -> exists s, s ∈ credential_stores w /\ cs_address s = address) /\
  NoDup (map credentials (credential_stores w)).
Proof.
  destruct (store_history_ok _ _ _ _ Hhistory). split_and!; [| |done].
  - intros s Hs. split; [by rewrite <- so_counts0, references_of_present|].
    rewrite Forall_forall in so_positive0. auto.
  - intros a Ha. apply references_of_absent. by rewrite so_counts0.
Qed.

Definition sample_create (w : Stores) : result (option nat) * Stores :=
  dominit0_credential_file_store_create (fun _ => (FACET_OK, Some 9)) None true true (Some 0%nat) 1000 100 false w.

Lemma credential_stores_counted_witness :
  exists w, store_history (fun _ => (FACET_OK, Some 9)) None [Release 0; Acquire 0; Acquire 0] w /\
    exists s, s ∈ credential_stores w /\ references s = 1.
Proof.
  set (w1 := snd (sample_create no_stores)). set (w2 := snd (sample_create w1)).
  assert (store_history (fun _ => (FACET_OK, Some 9)) None [Release 0; Acquire 0; Acquire 0]
            (dominit0_credential_file_store_destroy (Some 0%nat) w2)) as Hw.
  { apply history_destroy; [|vm_compute; reflexivity].
    apply (history_create _ _ [Acquire 0] w1 true true (Some 0%nat) 1000 100 false 0); [|vm_compute; reflexivity].
    apply (history_create _ _ [] no_stores true true (Some 0%nat) 1000 100 false 0); [constructor|].
    vm_compute; reflexivity. }
  eexists. split; [exact Hw|].
  destruct (credential_stores_counted _ _ _ _ Hw) as (Hs & Hh & _).
  destruct (Hh 0%nat) as (s & Hin & Ha); [vm_compute; discriminate|]. exists s. split; [exact Hin|].
  destruct (Hs s Hin) as [Hr _]. rewrite Hr, Ha. reflexivity.
Defined.
