(* ===== verification/Rpc.v ===== *)
(** Remote procedure calls (src/libfacet/src/common/runtime.c, second part): the
    client proxy, the request and reply messages, the method dispatch, the interface
    registry, and the server stub that src/src/facet-idlc/generator.c emits for a
    method.

    A handle is the pointer in a [FacetHandle], 0 being null.  The blocks that a call
    allocates are counted; [malloc_ok] answers the n-th allocation.  A [realloc] that
    grows a block moves it. *)
From S2P Require Import Prelude Effects Codec.

Definition FACET_RPC_PROTOCOL_VERSION : Z := 1.
Definition FACET_RPC_MAX_WORDS : Z := 64.
Definition FACET_RPC_MAX_ATTACHMENTS : Z := 8.
Definition FACET_RPC_MAX_INLINE_PAYLOAD : Z := 512.
Definition FACET_MAX_REGISTERED_INTERFACES : Z := 64.

Inductive FacetParamDirection := FACET_PARAM_IN | FACET_PARAM_OUT | FACET_PARAM_INOUT.

#[global] Instance FacetParamDirection_eq_dec : EqDecision FacetParamDirection.
Proof. solve_decision. Defined.

Record FacetParamMeta := mkParam {
  param_type : FacetType;
  param_direction : FacetParamDirection;
  param_metadata : option FacetTypeMeta
}.

Inductive FacetRpcAttachmentKind := FACET_RPC_ATTACHMENT_HANDLE | FACET_RPC_ATTACHMENT_BUFFER.

#[global] Instance FacetRpcAttachmentKind_eq_dec : EqDecision FacetRpcAttachmentKind.
Proof. solve_decision. Defined.

Record FacetRpcAttachment := mkAttachment {
  attachment_kind : FacetRpcAttachmentKind;
  attachment_handle : Z;
  attachment_size : Z
}.

(** [word_count] and [attachment_count] are the lengths of the lists. *)
Record FacetRpcMessage := mkMessage {
  protocol_version : Z;
  method_id : Z;
  flags : Z;
  words : list Z;
  payload : option bytes;
  payload_size : Z;
  payload_capacity : Z;
  attachments : list FacetRpcAttachment
}.

Definition word_count (m : FacetRpcMessage) : Z := zlen (words m).
Definition attachment_count (m : FacetRpcMessage) : Z := zlen (attachments m).

Definition set_words (l : list Z) (m : FacetRpcMessage) : FacetRpcMessage :=
  mkMessage (protocol_version m) (method_id m) (flags m) l (payload m) (payload_size m) (payload_capacity m)
    (attachments m).
Definition set_payload (data : option bytes) (size capacity : Z) (m : FacetRpcMessage) : FacetRpcMessage :=
  mkMessage (protocol_version m) (method_id m) (flags m) (words m) data size capacity (attachments m).
Definition set_attachments (l : list FacetRpcAttachment) (m : FacetRpcMessage) : FacetRpcMessage :=
  mkMessage (protocol_version m) (method_id m) (flags m) (words m) (payload m) (payload_size m)
    (payload_capacity m) l.

Definition set_flags (f : Z) (m : FacetRpcMessage) : FacetRpcMessage :=
  mkMessage (protocol_version m) (method_id m) f (words m) (payload m) (payload_size m) (payload_capacity m)
    (attachments m).
Definition set_method_id (id : Z) (m : FacetRpcMessage) : FacetRpcMessage :=
  mkMessage (protocol_version m) id (flags m) (words m) (payload m) (payload_size m) (payload_capacity m)
    (attachments m).

(** What an argument of a method holds. *)
Inductive argument := AValue (v : value) | AHandle (handle : Z) | APointer (p : Z).

Definition payload_type (type : FacetType) : bool := owning type.

(** The words that a [uuid_t] fills, and the [uuid_t] that they fill. *)
Definition uuid_words (uuid : bytes) : Z * Z := (le_value (firstn 8 uuid), le_value (skipn 8 uuid)).
Definition words_uuid (first second : Z) : bytes := le_bytes 8 first ++ le_bytes 8 second.

(** What the platform layer offers to the runtime; [W] is everything outside. *)
Class Platform (W : Type) := {
  libfacet_platform_call : Z -> FacetRpcMessage -> Eff W FacetRpcMessage;
  libfacet_platform_handle_release : Z -> W -> W
}.

(** The state of a client call: the request under construction, whether its payload
    pointer is stale because the block was moved, and the heap. *)
Record Call (W : Type) := mkCall {
  request : FacetRpcMessage;
  stale : bool;
  heap_allocations : nat;
  heap_live : Z;
  world : W
}.
Arguments mkCall {W}.
Arguments request {W}.
Arguments stale {W}.
Arguments heap_allocations {W}.
Arguments heap_live {W}.
Arguments world {W}.

Section Messages.
Context {W : Type} (malloc_ok : nat -> bool).

Definition set_request (f : FacetRpcMessage -> FacetRpcMessage) (s : Call W) : Call W :=
  mkCall (f (request s)) (stale s) (heap_allocations s) (heap_live s) (world s).
Definition free_blocks (n : Z) (s : Call W) : Call W :=
  mkCall (request s) (stale s) (heap_allocations s) (heap_live s - n) (world s).

Definition append_word (word : Z) : Eff (Call W) unit :=
  run m <- fget request;
  if FACET_RPC_MAX_WORDS <=? word_count m then ferr FACET_ERROR
  else fput (set_request (set_words (words m ++ [word]))).

Definition append_uuid (uuid : bytes) : Eff (Call W) unit :=
  append_word (fst (uuid_words uuid)) ;; append_word (snd (uuid_words uuid)).

Definition append_handle (handle : Z) : Eff (Call W) unit :=
  run m <- fget request;
  if FACET_RPC_MAX_ATTACHMENTS <=? attachment_count m then ferr FACET_ERROR
  else fput (set_request (set_attachments
         (attachments m ++ [mkAttachment FACET_RPC_ATTACHMENT_HANDLE handle 0]))).

(** [facet_rpc_encode_value] on the memory at a pointer, which may be null. *)
Definition encode_at (p : FacetParamMeta) (a : option argument) : Codec unit :=
  match a with
  | Some (AValue v) => facet_rpc_encode_value malloc_ok (param_type p) (param_metadata p) v
  | Some _ => ffault
  | None => match param_type p with
            | FACET_TYPE_STRUCT => facet_rpc_encode_value malloc_ok FACET_TYPE_STRUCT (param_metadata p) (VStruct [])
            | _ => ferr FACET_INVALID_ARGUMENT
            end
  end.

(** Encode at the end of the payload, which the first such parameter allocates. *)
Definition append_payload (p : FacetParamMeta) (a : option argument) : Eff (Call W) unit := fun s =>
  let m := request s in
  let fresh := bool_decide (payload m = None) in
  let codec := if fresh then snd (facet_rpc_codec_init malloc_ok 256 (heap_allocations s))
               else mkCodec (default [] (payload m)) (payload_capacity m) 0 (heap_allocations s) 0 in
  if (fresh && negb (malloc_ok (heap_allocations s)))%bool
  then (Err FACET_ERROR, mkCall m (stale s) (codec_allocations codec) (heap_live s) (world s))
  else
    let live := if fresh then heap_live s + 1 else heap_live s in
    match encode_at p a codec with
    | (Ok _, c) =>
        (Ok tt, mkCall (set_payload (Some (codec_data c)) (codec_size c) (codec_capacity c) m) (stale s)
                  (codec_allocations c) live (world s))
    | (Err _, c) =>
        (Err FACET_ERROR,
         mkCall m (stale s || negb fresh && negb (codec_capacity c =? payload_capacity m))%bool
           (codec_allocations c) live (world s))
    | (Fault, _) => (Fault, s)
    end.

(** The word of an [INOUT] parameter, read from the caller's variable. *)
Definition variable_word (type : FacetType) (a : argument) : option Z :=
  match type, a with
  | FACET_TYPE_U8, AValue (VInt n) | FACET_TYPE_U16, AValue (VInt n) | FACET_TYPE_U32, AValue (VInt n)
  | FACET_TYPE_U64, AValue (VInt n) => Some n
  | FACET_TYPE_BOOL, AValue (VBool b _) => Some (if b then 1 else 0)
  | FACET_TYPE_ENUM, AValue (VInt n) | FACET_TYPE_I8, AValue (VInt n) | FACET_TYPE_I16, AValue (VInt n)
  | FACET_TYPE_I32, AValue (VInt n) | FACET_TYPE_I64, AValue (VInt n) => Some (u64 n)
  | FACET_TYPE_LOCAL_PTR, APointer p => Some p
  | _, _ => None
  end.

(** The word of an [IN] parameter, read from the variable arguments. *)
Definition argument_word (type : FacetType) (a : argument) : option Z :=
  match type, a with
  | FACET_TYPE_U8, AValue (VInt n) | FACET_TYPE_U16, AValue (VInt n) | FACET_TYPE_U32, AValue (VInt n)
  | FACET_TYPE_ENUM, AValue (VInt n) => Some (u32 n)
  | FACET_TYPE_BOOL, AValue (VBool b _) => Some (if b then 1 else 0)
  | FACET_TYPE_U64, AValue (VInt n) => Some n
  | FACET_TYPE_I8, AValue (VInt n) | FACET_TYPE_I16, AValue (VInt n) | FACET_TYPE_I32, AValue (VInt n)
  | FACET_TYPE_I64, AValue (VInt n) => Some (u64 n)
  | _, _ => None
  end.

(** Append a word of an argument; an argument of another type is a fault. *)
Definition append_scalar (w : option Z) : Eff (Call W) unit :=
  match w with Some word => append_word word | None => ffault end.

Definition append_input_value (p : FacetParamMeta) (a : option argument) : Eff (Call W) unit :=
  if payload_type (param_type p) then append_payload p a
  else
    match param_type p, a with
    | FACET_TYPE_BYTES, _ => ferr FACET_ERROR
    | _, None => ffault
    | FACET_TYPE_HANDLE, Some (AHandle handle) => append_handle handle
    | FACET_TYPE_UUID, Some (AValue (VUuid uuid)) => append_uuid uuid
    | type, Some a => append_scalar (variable_word type a)
    end.

Definition append_input (p : FacetParamMeta) (a : option argument) : Eff (Call W) unit :=
  if payload_type (param_type p) then append_payload p a
  else
    match param_type p, a with
    | FACET_TYPE_LOCAL_PTR, _ | FACET_TYPE_BYTES, _ => ferr FACET_ERROR
    | _, None => ffault
    | FACET_TYPE_HANDLE, Some (AHandle handle) => append_handle handle
    | FACET_TYPE_UUID, Some (AValue (VUuid uuid)) => append_uuid uuid
    | type, Some a => append_scalar (argument_word type a)
    end.

(** [free(request.payload)] *)
Definition free_request : Eff (Call W) unit := fun s =>
  if stale s then (Fault, s)
  else (Ok tt, free_blocks (if payload (request s) then 1 else 0) s).

(** Append a parameter; when that fails the payload is freed and the call ends. *)
Definition append_or_fail (m : Eff (Call W) unit) : Eff (Call W) unit :=
  run code <- fcatch m;
  if bool_decide (code = FACET_OK) then fret tt
  else free_request ;; ferr FACET_NOT_SUPPORTED.

(** The loop over the parameters; it collects the output pointers. *)
Fixpoint gather (params : list FacetParamMeta) (args outputs : list (option argument))
  : Eff (Call W) (list (option argument)) :=
  match params, args with
  | [], _ => fret outputs
  | p :: ps, a :: rest =>
      match param_direction p with
      | FACET_PARAM_IN => append_or_fail (append_input p a) ;; gather ps rest outputs
      | direction =>
          if FACET_RPC_MAX_WORDS <=? zlen outputs then ferr FACET_INVALID_ARGUMENT
          else
            (if bool_decide (direction = FACET_PARAM_INOUT) then append_or_fail (append_input_value p a)
             else fret tt) ;;
            gather ps rest (outputs ++ [a])
      end
  | _ :: _, [] => ffault
  end.

End Messages.

(** ** Reading a message *)

(** Positions in the words, the attachments and the payload of a message. *)
Record Reader := mkReader { next_word : nat; next_handle : nat; reader_codec : FacetRpcCodec }.

Definition output_params (params : list FacetParamMeta) : list FacetParamMeta :=
  List.filter (fun p => negb (bool_decide (param_direction p = FACET_PARAM_IN))) params.

Section Reading.
Context (malloc_ok : nat -> bool).

(** Store a word in a variable of a type. *)
Definition word_argument (type : FacetType) (word : Z) : option argument :=
  match type with
  | FACET_TYPE_ENUM => Some (AValue (VInt (signed 32 word)))
  | FACET_TYPE_LOCAL_PTR => Some (APointer word)
  | _ => AValue <$> scalar_value type word
  end.

Definition take_handle (m : FacetRpcMessage) : Eff Reader argument :=
  run k <- fget next_handle;
  match attachments m !! k with
  | Some (mkAttachment FACET_RPC_ATTACHMENT_HANDLE handle _) =>
      fput (fun r => mkReader (next_word r) (S k) (reader_codec r)) ;; fret (AHandle handle)
  | _ => ferr FACET_ERROR
  end.

(** The codec that reads the payload of a message. *)
Definition payload_codec (m : FacetRpcMessage) (allocations : nat) (live : Z) : FacetRpcCodec :=
  mkCodec (default (repeat 0 (Z.to_nat (payload_size m))) (payload m)) (payload_size m) 0 allocations live.

(** [facet_rpc_decode_value] into zeroed memory; its blocks stay counted.  Reading a
    byte of a payload whose pointer is null is a fault. *)
Definition take_payload (p : FacetParamMeta) (m : FacetRpcMessage) : Eff Reader argument := fun r =>
  match facet_rpc_decode_value malloc_ok (param_type p) (param_metadata p) (reader_codec r) with
  | (x, c) =>
      let r' := mkReader (next_word r) (next_handle r) c in
      if (bool_decide (payload m = None) && negb (codec_offset c =? codec_offset (reader_codec r)))%bool
      then (Fault, r')
      else match x with
           | Ok (FACET_OK, v) => (Ok (AValue v), r')
           | Ok _ | Err _ => (Err FACET_ERROR, r')
           | Fault => (Fault, r')
           end
  end.

Definition take_words (n : nat) : Eff Reader unit :=
  fput (fun r => mkReader (next_word r + n) (next_handle r) (reader_codec r)).

Definition assign_output (p : FacetParamMeta) (destination : option argument) (reply : FacetRpcMessage)
  : Eff Reader argument :=
  if bool_decide (destination = None) then ferr FACET_ERROR
  else if bool_decide (param_type p = FACET_TYPE_HANDLE) then take_handle reply
  else if payload_type (param_type p) then take_payload p reply
  else
    run k <- fget next_word;
    if bool_decide (param_type p = FACET_TYPE_UUID) then
      match words reply !! k, words reply !! S k with
      | Some first, Some second => take_words 2 ;; fret (AValue (VUuid (words_uuid first second)))
      | _, _ => ferr FACET_ERROR
      end
    else
      match words reply !! k with
      | None => ferr FACET_ERROR
      | Some word =>
          take_words 1 ;;
          match word_argument (param_type p) word with
          | Some a => fret a
          | None => ferr FACET_ERROR
          end
      end.

(** The outputs one after the other: whether all could be read, and those read. *)
Fixpoint assign_outputs (params : list FacetParamMeta) (outputs : list (option argument))
    (reply : FacetRpcMessage) : Eff Reader (bool * list argument) :=
  match params, outputs with
  | p :: ps, destination :: rest => fun r =>
      match assign_output p destination reply r with
      | (Ok a, r1) =>
          match assign_outputs ps rest reply r1 with
          | (Ok (done, l), r2) => (Ok (done, a :: l), r2)
          | other => other
          end
      | (Err _, r1) => (Ok (false, []), r1)
      | (Fault, r1) => (Fault, r1)
      end
  | _, _ => fret (true, [])
  end.

(** The blocks that [release_decoded_outputs] frees. *)
Definition argument_blocks (p : FacetParamMeta) (a : argument) : Z :=
  match a with
  | AValue v => if payload_type (param_type p)
                then release_count (codec_fuel (param_metadata p)) (param_type p) (param_metadata p) v else 0
  | _ => 0
  end.

Definition release_decoded_outputs (params : list FacetParamMeta) (outputs : list argument) : Z :=
  sum_Z (zip_with argument_blocks params outputs).

End Reading.

(** ** The client call *)

Record FacetMethodMeta := mkMethod {
  method_method_id : Z;
  method_parameters : list FacetParamMeta
}.

Section Client.
Context {W : Type} `{Platform W} (malloc_ok : nat -> bool).

Definition free_reply (reply : FacetRpcMessage) : Eff (Call W) unit :=
  fput (free_blocks (if payload reply then 1 else 0)).

Definition release_attachments (l : list FacetRpcAttachment) (w : W) : W :=
  fold_left (fun w a => if (bool_decide (attachment_kind a = FACET_RPC_ATTACHMENT_HANDLE)
                            && negb (attachment_handle a =? 0))%bool
                        then libfacet_platform_handle_release (attachment_handle a) w else w) l w.

Definition release_reply_attachments (reply : FacetRpcMessage) : Eff (Call W) unit := fput (fun s =>
  mkCall (request s) (stale s) (heap_allocations s) (heap_live s) (release_attachments (attachments reply) (world s))).

(** Send the request; the reply brings a payload block of its own. *)
Definition send (handle : Z) : Eff (Call W) FacetRpcMessage := fun s =>
  match libfacet_platform_call handle (request s) (world s) with
  | (Ok reply, w) =>
      (Ok reply, mkCall (request s) (stale s) (heap_allocations s)
                   (heap_live s + if payload reply then 1 else 0) w)
  | (Err code, w) =>
      (free_request ;; ferr code) (mkCall (request s) (stale s) (heap_allocations s) (heap_live s) w)
  | (Fault, w) => (Fault, s)
  end.

(** Run a reader of the reply on the heap of the call. *)
Definition reading (reply : FacetRpcMessage) {A} (m : Eff Reader A) : Eff (Call W) A := fun s =>
  match m (mkReader 1 0 (payload_codec reply (heap_allocations s) (heap_live s))) with
  | (x, r) => (x, mkCall (request s) (stale s) (codec_allocations (reader_codec r))
                    (codec_live (reader_codec r)) (world s))
  end.

(** The ways a call ends after the reply has arrived. *)
Definition give_up_call {A} (reply : FacetRpcMessage) (code : FacetResult) : Eff (Call W) A :=
  free_request ;; free_reply reply ;; release_reply_attachments reply ;; ferr code.

Definition empty_request (id : Z) : FacetRpcMessage :=
  mkMessage FACET_RPC_PROTOCOL_VERSION id 0 [] None 0 0 [].

Definition proxy_call (handle : Z) (method : FacetMethodMeta) (args : list (option argument))
  : Eff (Call W) (list argument) :=
  run outputs <- gather malloc_ok (method_parameters method) args [];
  run reply <- send handle;
  match words reply with
  | [] => give_up_call reply FACET_PROTOCOL_ERROR
  | word :: _ =>
      let code := result_of_code (signed 32 word) in
      if negb (bool_decide (code = FACET_OK)) then give_up_call reply code
      else
        run r <- reading reply (assign_outputs malloc_ok (output_params (method_parameters method)) outputs reply);
        if fst r then free_request ;; free_reply reply ;; fret (snd r)
        else
          fput (free_blocks (release_decoded_outputs (output_params (method_parameters method)) (snd r))) ;;
          give_up_call reply FACET_PROTOCOL_ERROR
  end.

(** [self] is the handle of a proxy, if it is one. *)
Definition libfacet_proxy_client_call (self : option Z) (method : option FacetMethodMeta)
    (args : list (option argument)) (allocations : nat) (live : Z) (w : W) : result (list argument) * Call W :=
  match self, method with
  | Some handle, Some method =>
      proxy_call handle method args (mkCall (empty_request (method_method_id method)) false allocations live w)
  | _, _ => (Err FACET_INVALID_ARGUMENT, mkCall (empty_request 0) false allocations live w)
  end.

End Client.

(** ** The server side *)

(** The state of a server method: the reply, its payload codec if one was made,
    whether the reply's payload pointer is stale, the heap, and the rest. *)
Record Serving (W : Type) := mkServing {
  reply : FacetRpcMessage;
  reply_codec : option FacetRpcCodec;
  reply_stale : bool;
  serving_allocations : nat;
  serving_live : Z;
  serving_world : W
}.
Arguments mkServing {W}.
Arguments reply {W}.
Arguments reply_codec {W}.
Arguments reply_stale {W}.
Arguments serving_allocations {W}.
Arguments serving_live {W}.
Arguments serving_world {W}.

Section Server.
Context {W : Type} (malloc_ok : nat -> bool).

(** A method of the implementation: the arguments of all parameters, and the result
    with the outputs. *)
Definition Method := list argument -> W -> (FacetResult * list argument) * W.

(** The words that the input parameters take. *)
Definition input_words (params : list FacetParamMeta) : Z :=
  sum_Z (map (fun p =>
    if (bool_decide (param_direction p = FACET_PARAM_OUT) || payload_type (param_type p)
        || bool_decide (param_type p = FACET_TYPE_HANDLE))%bool then 0
    else if bool_decide (param_type p = FACET_TYPE_UUID) then 2 else 1) params).

(** The local variable of an output parameter. *)
Definition zero_argument (p : FacetParamMeta) : argument :=
  match param_type p with
  | FACET_TYPE_HANDLE => AHandle 0
  | FACET_TYPE_LOCAL_PTR => APointer 0
  | type => AValue (zero_value (codec_fuel (param_metadata p)) type (param_metadata p))
  end.

(** The local variable of a parameter, read from the request. *)
Definition server_input (p : FacetParamMeta) (m : FacetRpcMessage) : Eff Reader argument :=
  if bool_decide (param_direction p = FACET_PARAM_OUT) then fret (zero_argument p)
  else if bool_decide (param_type p = FACET_TYPE_HANDLE) then take_handle m
  else if payload_type (param_type p) then take_payload malloc_ok p m
  else
    run k <- fget next_word;
    if bool_decide (param_type p = FACET_TYPE_UUID) then
      match words m !! k, words m !! S k with
      | Some first, Some second => take_words 2 ;; fret (AValue (VUuid (words_uuid first second)))
      | _, _ => ffault
      end
    else
      match words m !! k with
      | None => ffault
      | Some word =>
          take_words 1 ;;
          match word_argument (param_type p) word with
          | Some a => fret a
          | None => ffault
          end
      end.

Fixpoint server_inputs (params : list FacetParamMeta) (m : FacetRpcMessage) : Eff Reader (list argument) :=
  match params with
  | [] => fret []
  | p :: ps => run a <- server_input p m; run rest <- server_inputs ps m; fret (a :: rest)
  end.

Definition set_reply (f : FacetRpcMessage -> FacetRpcMessage) (s : Serving W) : Serving W :=
  mkServing (f (reply s)) (reply_codec s) (reply_stale s) (serving_allocations s) (serving_live s) (serving_world s).

(** Encode an output at the end of the reply payload. *)
Definition reply_payload (p : FacetParamMeta) (a : argument) : Eff (Serving W) unit := fun s =>
  let fresh := bool_decide (reply_codec s = None) in
  let codec := default (snd (facet_rpc_codec_init malloc_ok 256 (serving_allocations s))) (reply_codec s) in
  let codec := if fresh then codec
               else mkCodec (codec_data codec) (codec_capacity codec) 0 (serving_allocations s) 0 in
  if (fresh && negb (malloc_ok (serving_allocations s)))%bool
  then (Err FACET_OUT_OF_MEMORY,
        mkServing (reply s) (reply_codec s) (reply_stale s) (codec_allocations codec) (serving_live s) (serving_world s))
  else
    let live := if fresh then serving_live s + 1 else serving_live s in
    match encode_at malloc_ok p (Some a) codec with
    | (Ok _, c) =>
        (Ok tt, mkServing (set_payload (Some (codec_data c)) (codec_size c) (payload_capacity (reply s)) (reply s))
                  (Some c) (reply_stale s) (codec_allocations c) live (serving_world s))
    | (Err _, c) =>
        (Err FACET_PROTOCOL_ERROR,
         mkServing (reply s) (Some c)
           (reply_stale s || negb fresh && negb (codec_capacity c =? codec_capacity codec))%bool
           (codec_allocations c) live (serving_world s))
    | (Fault, _) => (Fault, s)
    end.

Definition server_output (p : FacetParamMeta) (a : argument) : Eff (Serving W) unit :=
  if payload_type (param_type p) then reply_payload p a
  else
    run m <- fget reply;
    match param_type p, a with
    | FACET_TYPE_HANDLE, AHandle handle =>
        if FACET_RPC_MAX_ATTACHMENTS <=? attachment_count m then ferr FACET_BUFFER_TOO_SMALL
        else fput (set_reply (set_attachments
               (attachments m ++ [mkAttachment FACET_RPC_ATTACHMENT_HANDLE handle 0])))
    | FACET_TYPE_UUID, AValue (VUuid uuid) =>
        if FACET_RPC_MAX_WORDS - 2 <? word_count m then ferr FACET_BUFFER_TOO_SMALL
        else fput (set_reply (set_words
               (words m ++ [fst (uuid_words uuid); snd (uuid_words uuid)])))
    | type, a =>
        match variable_word type a with
        | Some word =>
            if FACET_RPC_MAX_WORDS <=? word_count m then ffault
            else fput (set_reply (set_words (words m ++ [word])))
        | None => ffault
        end
    end.

Fixpoint server_outputs (params : list FacetParamMeta) (outputs : list argument) : Eff (Serving W) unit :=
  match params, outputs with
  | p :: ps, a :: rest => server_output p a ;; server_outputs ps rest
  | [], _ => fret tt
  | _ :: _, [] => ffault
  end.

(** Run a reader of the request on the heap of the server. *)
Definition serving_read {A} (m : FacetRpcMessage) (rd : Eff Reader A) : Eff (Serving W) A := fun s =>
  match rd (mkReader 0 0 (payload_codec m (serving_allocations s) (serving_live s))) with
  | (x, r) => (x, mkServing (reply s) (reply_codec s) (reply_stale s)
                    (codec_allocations (reader_codec r)) (codec_live (reader_codec r)) (serving_world s))
  end.

(** Call the implementation: it sees every variable and may set the outputs. *)
Definition call_method (impl : Method) (args : list argument) : Eff (Serving W) (FacetResult * list argument) :=
  fun s =>
  let '(x, w) := impl args (serving_world s) in
  (Ok x, mkServing (reply s) (reply_codec s) (reply_stale s) (serving_allocations s) (serving_live s) w).

(** The values that the stub releases at its end: the inputs, an [INOUT] variable as
    the implementation left it. *)
Fixpoint released_inputs (params : list FacetParamMeta) (args outputs : list argument) : Z :=
  match params, args with
  | p :: ps, a :: rest =>
      match param_direction p with
      | FACET_PARAM_IN => argument_blocks p a + released_inputs ps rest outputs
      | FACET_PARAM_OUT => released_inputs ps rest (tail outputs)
      | FACET_PARAM_INOUT => argument_blocks p (default a (head outputs)) + released_inputs ps rest (tail outputs)
      end
  | _, _ => 0
  end.

(** The stub of a method, as the interface compiler emits it. *)
Definition server_method (params : list FacetParamMeta) (impl : Method) (m : FacetRpcMessage)
  : Eff (Serving W) FacetResult :=
  if negb (word_count m =? input_words params) then fret FACET_PROTOCOL_ERROR
  else fun s =>
    match serving_read m (server_inputs params m) s with
    | (Ok args, s1) =>
        (run r <- call_method impl args;
         fput (set_reply (set_words [u64 (code_of_result (fst r))])) ;;
         run code <- fcatch (server_outputs (output_params params) (snd r));
         if bool_decide (code = FACET_OK) then
           fput (fun s => mkServing (reply s) (reply_codec s) (reply_stale s) (serving_allocations s)
                            (serving_live s - released_inputs params args (snd r)) (serving_world s)) ;;
           fret FACET_OK
         else fret code) s1
    | (Err _, s1) => (Ok FACET_PROTOCOL_ERROR, s1)
    | (Fault, s1) => (Fault, s1)
    end.

Definition find_method (methods : list (FacetMethodMeta * option Method)) (id : Z)
  : option (FacetMethodMeta * option Method) :=
  find (fun e => method_method_id (fst e) =? id) methods.

Definition common_dispatch (methods : list (FacetMethodMeta * option Method)) (m : FacetRpcMessage)
  : Eff (Serving W) FacetResult :=
  match find_method methods (method_id m) with
  | Some (meta, Some impl) => server_method (method_parameters meta) impl m
  | _ => fret FACET_NO_SUCH_METHOD
  end.

(** A call on the server: a reply without words gets the result of the dispatch. *)
Definition serve (methods : list (FacetMethodMeta * option Method)) (m : FacetRpcMessage)
    (allocations : nat) (live : Z) (w : W) : result unit * Serving W :=
  let start := mkServing (mkMessage FACET_RPC_PROTOCOL_VERSION 0 0 [] None 0 0 []) None false allocations live w in
  match common_dispatch methods m start with
  | (Ok code, s) =>
      if reply_stale s then (Fault, s)
      else (Ok tt, if bool_decide (words (reply s) = []) then set_reply (set_words [u64 (code_of_result code)]) s else s)
  | (Err code, s) => (Err code, s)
  | (Fault, s) => (Fault, s)
  end.

End Server.

(** ** The interface registry *)

Record FacetInterfaceMeta := mkInterface {
  interface_iid : bytes;
  interface_size : Z;
  interface_has_initializer : bool;
  interface_methods : list FacetMethodMeta
}.

Record Registry := mkRegistry {
  generic_metadata : option FacetInterfaceMeta;
  registered_interfaces : list FacetInterfaceMeta
}.

Definition uuid_matches (left right : bytes) : bool := left =b right.

Definition libfacet_register_interface_metadata (metadata : option FacetInterfaceMeta) : Eff Registry unit :=
  match metadata with
  | None => ferr FACET_INVALID_ARGUMENT
  | Some m =>
      run l <- fget registered_interfaces;
      match index_of (fun e => uuid_matches (interface_iid e) (interface_iid m)) l with
      | Some i => fput (fun r => mkRegistry (generic_metadata r) (<[i := m]> l))
      | None =>
          if FACET_MAX_REGISTERED_INTERFACES <=? zlen l then ferr FACET_BUFFER_TOO_SMALL
          else fput (fun r => mkRegistry (generic_metadata r) (l ++ [m]))
      end
  end.

Definition libfacet_register_generic_metadata (metadata : option FacetInterfaceMeta) : Eff Registry unit :=
  match metadata with
  | None => ferr FACET_INVALID_ARGUMENT
  | Some m =>
      fput (fun r => mkRegistry (Some m) (registered_interfaces r)) ;;
      libfacet_register_interface_metadata (Some m)
  end.
