(* ===== verification/RpcFacts.v ===== *)
(** Remote procedure calls: a call through a proxy, a transport and a server stub is
    a call of the implementation with the same arguments, and every block and handle
    of the call is accounted for. *)
From S2P Require Import Prelude Effects Codec CodecFacts Rpc.

(** ** What a parameter puts into a message *)

(** What the receiver gets for an argument, but for the names of handles. *)
Definition arrived (a : argument) : argument :=
  match a with
  | AValue (VBool b _) => AValue (VBool b 0)
  | AValue v => AValue (received v)
  | _ => a
  end.

Section Contributions.
Context (word_of : FacetType -> argument -> option Z).

(** The words, payload bytes and handles of an argument of a parameter's type. *)
Inductive contributes (p : FacetParamMeta) : argument -> list Z -> bytes -> list Z -> Prop :=
  | contributes_payload v b :
      payload_type (param_type p) = true -> wf_metadata (param_metadata p) ->
      wire (param_type p) (param_metadata p) v b -> contributes p (AValue v) [] b []
  | contributes_handle h : param_type p = FACET_TYPE_HANDLE -> contributes p (AHandle h) [] [] [h]
  | contributes_uuid uuid :
      param_type p = FACET_TYPE_UUID -> bytes_ok uuid -> zlen uuid = 16 ->
      contributes p (AValue (VUuid uuid)) [fst (uuid_words uuid); snd (uuid_words uuid)] [] []
  | contributes_word a w :
      payload_type (param_type p) = false -> word_of (param_type p) a = Some w ->
      word_argument (param_type p) w = Some (arrived a) -> contributes p a [w] [] [].

End Contributions.

(** The contributions of the inputs and of the outputs, in order. *)
Inductive inputs_sent : list FacetParamMeta -> list argument -> list Z -> bytes -> list Z -> Prop :=
  | sent_none : inputs_sent [] [] [] [] []
  | sent_in p ps a l ws b hs ws' b' hs' :
      param_direction p = FACET_PARAM_IN -> contributes argument_word p a ws b hs ->
      inputs_sent ps l ws' b' hs' -> inputs_sent (p :: ps) (a :: l) (ws ++ ws') (b ++ b') (hs ++ hs')
  | sent_inout p ps a l ws b hs ws' b' hs' :
      param_direction p = FACET_PARAM_INOUT -> contributes variable_word p a ws b hs ->
      inputs_sent ps l ws' b' hs' -> inputs_sent (p :: ps) (a :: l) (ws ++ ws') (b ++ b') (hs ++ hs')
  | sent_out p ps a l ws b hs :
      param_direction p = FACET_PARAM_OUT -> inputs_sent ps l ws b hs ->
      inputs_sent (p :: ps) (a :: l) ws b hs.

Inductive outputs_sent : list FacetParamMeta -> list argument -> list Z -> bytes -> list Z -> Prop :=
  | returned_none : outputs_sent [] [] [] [] []
  | returned_more p ps a l ws b hs ws' b' hs' :
      contributes variable_word p a ws b hs -> outputs_sent ps l ws' b' hs' ->
      outputs_sent (p :: ps) (a :: l) (ws ++ ws') (b ++ b') (hs ++ hs').

Lemma signed_u64 w n : 0 < w <= 64 -> - 2 ^ (w - 1) <= n < 2 ^ (w - 1) -> signed w (u64 n) = n.
Proof.
  intros Hw Hn. rewrite <- (signed_of_word w n Hw Hn) at 2. unfold signed. by rewrite Z.mod_mod by lia.
Qed.

(** Storing the word of a scalar gives the scalar. *)
Lemma scalar_word_stored type v w :
  scalar_ok type v -> argument_word type (AValue v) = Some w \/ variable_word type (AValue v) = Some w ->
  word_argument type w = Some (arrived (AValue v)).
Proof.
  intros H Hw. destruct type, v; try done; cbn in H, Hw; destruct Hw as [Hw|Hw]; simplify_eq; unfold word_argument; cbn [scalar_value].
  1-6: unfold u8, u16, u32 in *; rewrite !Z.mod_small by (rewrite ?Z.mod_small by lia; lia); reflexivity.
  1,2: reflexivity.
  1-8: rewrite signed_u64 by lia; reflexivity.
  all: by destruct b.
Qed.

(** Every scalar in range contributes a word, as an argument and as a variable. *)
Lemma scalar_contributes p v :
  scalar_ok (param_type p) v ->
  exists w w', contributes argument_word p (AValue v) [w] [] [] /\ contributes variable_word p (AValue v) [w'] [] [].
Proof.
  intros H. destruct (argument_word (param_type p) (AValue v)) as [w|] eqn:E1;
    [|exfalso; by destruct (param_type p), v].
  destruct (variable_word (param_type p) (AValue v)) as [w'|] eqn:E2; [|exfalso; by destruct (param_type p), v].
  exists w, w'. assert (payload_type (param_type p) = false) by (by destruct (param_type p), v).
  split; (apply contributes_word; [done|done|]); eapply scalar_word_stored; eauto.
Qed.

(** ** Building the request *)

Definition payload_bytes (m : FacetRpcMessage) : bytes := default [] (payload m).
Definition handle_attachment (h : Z) : FacetRpcAttachment := mkAttachment FACET_RPC_ATTACHMENT_HANDLE h 0.
Definition payload_blocks (m : FacetRpcMessage) : Z := if payload m then 1 else 0.

(** A message with these words, payload bytes and handles. *)
Record contents (m : FacetRpcMessage) (ws : list Z) (b : bytes) (hs : list Z) : Prop := {
  contents_words : words m = ws;
  contents_payload : payload_bytes m = b;
  contents_size : payload_size m = zlen b;
  contents_handles : attachments m = map handle_attachment hs;
  contents_flags : flags m = 0;
  contents_version : protocol_version m = FACET_RPC_PROTOCOL_VERSION
}.

(** A request under construction in a consistent state of the heap. *)
Record built {W} (s : Call W) (ws : list Z) (b : bytes) (hs : list Z) (live : Z) (mid : Z) (w : W) : Prop := {
  built_contents : contents (request s) ws b hs;
  built_capacity : payload (request s) <> None -> zlen b <= payload_capacity (request s) < 2 ^ 64;
  built_stale : stale s = false;
  built_live : heap_live s = live + payload_blocks (request s);
  built_id : method_id (request s) = mid;
  built_world : world s = w
}.

Section Calls.
Context {W : Type} (malloc_ok : nat -> bool) (Hmem : memory malloc_ok).

Lemma encode_at_ok p v b c :
  wire (param_type p) (param_metadata p) v b -> codec_ok c -> codec_size c + zlen b < 2 ^ 63 ->
  exists c', encode_at malloc_ok p (Some (AValue v)) c = (Ok tt, c') /\ codec_ok c' /\
    codec_data c' = codec_data c ++ b.
Proof.
  intros Hw Hc Hb. destruct (encode_appends malloc_ok _ _ _ _ Hw (codec_fuel (param_metadata p)) (le_n _) c Hc)
    as (r & c' & E & Hok & _ & _ & Hr & Hm).
  rewrite (Hm Hmem Hb) in *. exists c'. done.
Qed.

Lemma append_payload_ok p v b (s : Call W) ws b0 hs live mid w :
  wire (param_type p) (param_metadata p) v b -> built s ws b0 hs live mid w -> zlen b0 + zlen b < 2 ^ 63 ->
  exists s', append_payload malloc_ok p (Some (AValue v)) s = (Ok tt, s') /\ built s' ws (b0 ++ b) hs live mid w.
Proof.
  intros Hw [[H1 H2 H3 H4 H5 H6] Hcap Hst Hl Hid Hwd] Hb. unfold append_payload. unfold payload_bytes in H2.
  destruct (payload (request s)) as [data|] eqn:Ep.
  - simpl in H2. subst data. rewrite bool_decide_false by done. cbv zeta. cbn [andb negb from_option id].
    destruct (encode_at_ok p v b (mkCodec b0 (payload_capacity (request s)) 0 (heap_allocations s) 0) Hw)
      as (c & E & [Hc1 Hc2] & Hd); [split; simpl; [apply Hcap; done|lia]|done|].
    rewrite E. eexists. split; [reflexivity|].
    unfold codec_size in *. rewrite Hd in *. split; [split|..]; try done.
    + rewrite Hl. unfold payload_blocks. by rewrite Ep.
  - simpl in H2. subst b0. rewrite bool_decide_true by done. rewrite Hmem. cbv zeta. cbn [andb negb].
    destruct (encode_at_ok p v b (snd (facet_rpc_codec_init malloc_ok 256 (heap_allocations s))) Hw)
      as (c & E & [Hc1 Hc2] & Hd); [split; vm_compute; [split; [discriminate|reflexivity]|discriminate]|done|].
    rewrite E. eexists. split; [reflexivity|]. simpl in Hd.
    unfold codec_size in *. rewrite Hd in *. split; [split|..]; try done.
    + rewrite Hl. unfold payload_blocks. rewrite Ep. simpl. lia.
Qed.

Lemma append_word_ok word (s : Call W) ws b hs live mid w :
  built s ws b hs live mid w -> zlen ws < FACET_RPC_MAX_WORDS ->
  exists s', append_word word s = (Ok tt, s') /\ built s' (ws ++ [word]) b hs live mid w.
Proof.
  intros [[H1 H2 H3 H4 H5 H6] Hcap Hst Hl Hid Hwd] Hn. unfold append_word. rewrite fbind_eq. cbn [fget fst].
  unfold word_count. rewrite H1, (proj2 (Z.leb_gt _ _)) by lia. eexists. split; [reflexivity|].
  split; [split|..]; done.
Qed.

Lemma append_handle_ok h (s : Call W) ws b hs live mid w :
  built s ws b hs live mid w -> zlen hs < FACET_RPC_MAX_ATTACHMENTS ->
  exists s', append_handle h s = (Ok tt, s') /\ built s' ws b (hs ++ [h]) live mid w.
Proof.
  intros [[H1 H2 H3 H4 H5 H6] Hcap Hst Hl Hid Hwd] Hn. unfold append_handle. rewrite fbind_eq. cbn [fget fst].
  unfold attachment_count. rewrite H4. unfold zlen in *. rewrite length_map, (proj2 (Z.leb_gt _ _)) by lia.
  eexists. split; [reflexivity|]. split; [split|..]; try done. simpl. by rewrite map_app.
Qed.

Definition fits_request (ws : list Z) (b : bytes) (hs : list Z) : Prop :=
  zlen ws <= FACET_RPC_MAX_WORDS /\ zlen b < 2 ^ 63 /\ zlen hs <= FACET_RPC_MAX_ATTACHMENTS.

(** A step that appends a contribution to a request. *)
Definition appends_input (m : Eff (Call W) unit) (ws : list Z) (b : bytes) (hs : list Z) : Prop :=
  forall s ws0 b0 hs0 live mid w, built s ws0 b0 hs0 live mid w ->
    fits_request (ws0 ++ ws) (b0 ++ b) (hs0 ++ hs) ->
    exists s', m s = (Ok tt, s') /\ built s' (ws0 ++ ws) (b0 ++ b) (hs0 ++ hs) live mid w.

Lemma appends_uuid uuid : appends_input (append_uuid uuid) [fst (uuid_words uuid); snd (uuid_words uuid)] [] [].
Proof.
  intros s ws0 b0 hs0 live mid w Hs (Hw & _ & _). rewrite zlen_app in Hw. change (zlen [_; _]) with 2 in Hw.
  destruct (append_word_ok (fst (uuid_words uuid)) s _ _ _ _ _ _ Hs) as (s1 & E1 & H1); [lia|].
  destruct (append_word_ok (snd (uuid_words uuid)) s1 _ _ _ _ _ _ H1) as (s2 & E2 & H2).
  { rewrite zlen_app. change (zlen [_]) with 1. lia. }
  exists s2. unfold append_uuid. rewrite fbind_eq, E1, E2. split; [done|]. by rewrite !app_nil_r, <- app_assoc in *.
Qed.

Lemma appends_contribution word_of p a ws b hs (m : Eff (Call W) unit) :
  contributes word_of p a ws b hs ->
  (forall v, payload_type (param_type p) = true -> a = AValue v -> m = append_payload malloc_ok p (Some a)) ->
  (forall h, param_type p = FACET_TYPE_HANDLE -> a = AHandle h -> m = append_handle h) ->
  (forall uuid, param_type p = FACET_TYPE_UUID -> a = AValue (VUuid uuid) -> m = append_uuid uuid) ->
  (forall w, word_of (param_type p) a = Some w -> m = append_word w) ->
  appends_input m ws b hs.
Proof.
  intros Hc Hp Hh Hu Hw. destruct Hc as [v b Ht Hwf Hwire|h Ht|uuid Ht Hb Hl|a w Ht Hword _].
  - rewrite (Hp v) by done. intros s ws0 b0 hs0 live mid w Hs (_ & Hf & _). rewrite zlen_app in Hf.
    destruct (append_payload_ok p v b s _ _ _ _ _ _ Hwire Hs Hf) as (s' & E & Hs'). exists s'. by rewrite !app_nil_r.
  - rewrite (Hh h) by done. intros s ws0 b0 hs0 live mid w Hs (_ & _ & Hf). rewrite zlen_app in Hf.
    change (zlen [_]) with 1 in Hf. rewrite !app_nil_r. apply append_handle_ok; [done|lia].
  - rewrite (Hu uuid) by done. apply appends_uuid.
  - rewrite (Hw w) by done. intros s ws0 b0 hs0 live mid w' Hs (Hf & _ & _). rewrite zlen_app in Hf.
    change (zlen [_]) with 1 in Hf. rewrite !app_nil_r. apply append_word_ok; [done|lia].
Qed.

Lemma append_input_appends p a ws b hs :
  contributes argument_word p a ws b hs -> appends_input (append_input malloc_ok p (Some a)) ws b hs.
Proof.
  intros Hc. apply (appends_contribution _ _ _ _ _ _ _ Hc); unfold append_input.
  - intros v -> ->. done.
  - intros h -> ->. done.
  - intros u -> ->. done.
  - intros w E. destruct (param_type p) eqn:Et; try done; destruct a as [[]| |]; try done;
      cbn [payload_type owning]; rewrite E; done.
Qed.

Lemma append_input_value_appends p a ws b hs :
  contributes variable_word p a ws b hs -> appends_input (append_input_value malloc_ok p (Some a)) ws b hs.
Proof.
  intros Hc. apply (appends_contribution _ _ _ _ _ _ _ Hc); unfold append_input_value.
  - intros v -> ->. done.
  - intros h -> ->. done.
  - intros u -> ->. done.
  - intros w E. destruct (param_type p) eqn:Et; try done; destruct a as [[]| |]; try done;
      cbn [payload_type owning]; rewrite E; done.
Qed.

Lemma append_or_fail_ok (m : Eff (Call W) unit) s s' : m s = (Ok tt, s') -> append_or_fail m s = (Ok tt, s').
Proof. intros E. unfold append_or_fail. rewrite fbind_eq, fcatch_eq, E. done. Qed.

Lemma fits_request_prefix ws ws' b b' hs hs' :
  fits_request (ws ++ ws') (b ++ b') (hs ++ hs') -> fits_request ws b hs.
Proof.
  unfold fits_request. rewrite !zlen_app. pose proof (zlen_nonneg ws'). pose proof (zlen_nonneg b').
  pose proof (zlen_nonneg hs'). lia.
Qed.

Lemma output_params_cons p ps :
  output_params (p :: ps) =
    if bool_decide (param_direction p = FACET_PARAM_IN) then output_params ps else p :: output_params ps.
Proof. unfold output_params. simpl. by case_bool_decide. Qed.

Lemma gather_ok params args ws b hs :
  inputs_sent params args ws b hs ->
  forall (s : Call W) ws0 b0 hs0 live mid w outs, built s ws0 b0 hs0 live mid w ->
    fits_request (ws0 ++ ws) (b0 ++ b) (hs0 ++ hs) -> zlen outs + zlen (output_params params) <= FACET_RPC_MAX_WORDS ->
    exists outs', length outs' = length (output_params params) /\ Forall (fun x => x <> None) outs' /\
    exists s', gather malloc_ok params (map Some args) outs s = (Ok (outs ++ outs'), s') /\
      built s' (ws0 ++ ws) (b0 ++ b) (hs0 ++ hs) live mid w.
Proof.
  intros H. induction H as [|p ps a l ws b hs ws' b' hs' Hd Hc H IH|p ps a l ws b hs ws' b' hs' Hd Hc H IH|p ps a l ws b hs Hd H IH];
    intros s ws0 b0 hs0 live mid w outs Hs Hf Hn; rewrite ?output_params_cons in *; rewrite ?Hd in *; cbn [map gather].
  - exists []. rewrite !app_nil_r. split; [done|]. split; [done|]. by exists s.
  - rewrite Hd. rewrite bool_decide_true in * by done.
    destruct (append_input_appends _ _ _ _ _ Hc s ws0 b0 hs0 live mid w Hs) as (s1 & E & Hs1).
    { rewrite !app_assoc in Hf. by eapply fits_request_prefix. }
    destruct (IH s1 _ _ _ _ _ _ outs Hs1) as (outs' & Hlen & Hall & s' & E' & Hs'); [by rewrite <- !app_assoc|done|].
    exists outs'. split; [done|]. split; [done|]. exists s'. rewrite fbind_eq, (append_or_fail_ok _ _ _ E), !app_assoc.
    done.
  - rewrite Hd. rewrite bool_decide_false in * by done. rewrite zlen_cons in Hn. pose proof (zlen_nonneg (output_params ps)).
    rewrite (proj2 (Z.leb_gt _ _)) by lia. rewrite bool_decide_true by done.
    destruct (append_input_value_appends _ _ _ _ _ Hc s ws0 b0 hs0 live mid w Hs) as (s1 & E & Hs1).
    { rewrite !app_assoc in Hf. by eapply fits_request_prefix. }
    destruct (IH s1 _ _ _ _ _ _ (outs ++ [Some a]) Hs1) as (outs' & Hlen & Hall & s' & E' & Hs');
      [by rewrite <- !app_assoc|rewrite zlen_app; change (zlen [_]) with 1; lia|].
    exists (Some a :: outs'). split; [simpl; by rewrite Hlen|]. split; [by constructor|]. exists s'.
    rewrite fbind_eq, (append_or_fail_ok _ _ _ E), !app_assoc. rewrite <- app_assoc in E'. done.
  - rewrite Hd. rewrite bool_decide_false in * by done. rewrite zlen_cons in Hn. pose proof (zlen_nonneg (output_params ps)).
    rewrite (proj2 (Z.leb_gt _ _)) by lia. rewrite bool_decide_false by done.
    destruct (IH s _ _ _ _ _ _ (outs ++ [Some a]) Hs) as (outs' & Hlen & Hall & s' & E' & Hs');
      [done|rewrite zlen_app; change (zlen [_]) with 1; lia|].
    exists (Some a :: outs'). split; [simpl; by rewrite Hlen|]. split; [by constructor|]. exists s'.
    rewrite fbind_eq. cbn [fret]. rewrite <- app_assoc in E'. done.
Qed.

(** ** Reading a message *)

(** The words, payload bytes and handles after the positions of a reader. *)
Record remaining (m : FacetRpcMessage) (r : Reader) (ws : list Z) (b : bytes) (hs : list Z) : Prop := {
  remaining_words : skipn (next_word r) (words m) = ws;
  remaining_bytes : skipn (Z.to_nat (codec_offset (reader_codec r))) (codec_data (reader_codec r)) = b;
  remaining_in : codec_in (reader_codec r);
  remaining_handles : skipn (next_handle r) (attachments m) = map handle_attachment hs;
  remaining_null : payload m = None -> b = []
}.

(** A step that reads a contribution and allocates [blocks] for it. *)
Definition reads {A} (m : FacetRpcMessage) (rd : Eff Reader A) (a : A) (ws : list Z) (b : bytes) (hs : list Z)
    (blocks : Z) : Prop :=
  forall r ws' b' hs', remaining m r (ws ++ ws') (b ++ b') (hs ++ hs') ->
    exists r', rd r = (Ok a, r') /\ remaining m r' ws' b' hs' /\
      codec_live (reader_codec r') = codec_live (reader_codec r) + blocks.

Lemma skipn_lookup {A} k (l : list A) x rest : skipn k l = x :: rest -> l !! k = Some x /\ skipn (S k) l = rest.
Proof.
  intros H. split.
  - rewrite <- (Nat.add_0_r k), <- lookup_drop, H. done.
  - replace (S k) with (1 + k)%nat by lia. rewrite <- skipn_skipn, H. done.
Qed.

Lemma reads_handle m h : reads m (take_handle m) (AHandle h) [] [] [h] 0.
Proof.
  intros r ws' b' hs' [Hw Hb Hin Hh Hn]. simpl in Hh. destruct (skipn_lookup _ _ _ _ Hh) as [E1 E2].
  eexists. unfold take_handle. rewrite fbind_eq. cbn [fget]. rewrite E1. split; [reflexivity|].
  split; [split; done|]. simpl. lia.
Qed.

Lemma reads_payload p m v b :
  wf_metadata (param_metadata p) -> wire (param_type p) (param_metadata p) v b ->
  reads m (take_payload malloc_ok p m) (AValue (received v)) [] b []
    (release_count (codec_fuel (param_metadata p)) (param_type p) (param_metadata p) (received v)).
Proof.
  intros Hwf Hw r ws' b' hs' [Hws Hb Hin Hh Hn]. unfold take_payload, facet_rpc_decode_value.
  set (c := reader_codec r) in *. set (pre := firstn (Z.to_nat (codec_offset c)) (codec_data c)).
  assert (zlen pre = codec_offset c) as Hpre.
  { unfold pre, zlen, codec_in, codec_size, zlen in *. rewrite length_firstn. lia. }
  assert (codec_data c = pre ++ b ++ b') as Hd by (rewrite <- Hb; unfold pre; by rewrite firstn_skipn).
  destruct (decode_parses malloc_ok _ _ _ _ Hw (codec_fuel (param_metadata p)) (le_n _) c pre b' Hd (eq_sym Hpre) Hmem)
    as (c' & E & Hd' & Ho').
  destruct (decode_accounts malloc_ok (codec_fuel (param_metadata p)) (param_type p) _ (le_n _) Hwf c Hin)
    as (code & v' & c2 & E2 & Hin' & _ & _ & _ & Hl). rewrite E in E2. simplify_eq. rewrite E.
  eexists. split; [|split].
  - destruct (payload m) as [data|] eqn:Ep; [by rewrite bool_decide_false by done|].
    specialize (Hn eq_refl). apply app_nil in Hn as [-> ->]. rewrite app_nil_r in Ho'.
    rewrite Ho', Hpre, Z.eqb_refl. rewrite andb_false_r. reflexivity.
  - split; simpl; try done.
    + rewrite Ho', Hd', Hd. unfold zlen. rewrite Nat2Z.id, app_assoc. apply drop_app_length.
    + intros Hnull. specialize (Hn Hnull). by apply app_nil in Hn as [_ ->].
  - simpl. by apply Hl.
Qed.

Lemma arrived_payload type metadata v b :
  payload_type type = true -> wire type metadata v b -> arrived (AValue v) = AValue (received v).
Proof.
  intros Ht Hw. destruct v; try done. inversion Hw as [t md v word n Hs| | | | | |]; subst. by destruct type.
Qed.

Lemma uuid_roundtrip uuid :
  bytes_ok uuid -> zlen uuid = 16 -> words_uuid (fst (uuid_words uuid)) (snd (uuid_words uuid)) = uuid.
Proof.
  intros Hb Hl. unfold words_uuid, uuid_words, zlen in *. simpl fst. simpl snd.
  pose proof (le_bytes_value (firstn 8 uuid) (Forall_take _ _ _ Hb)) as H1.
  pose proof (le_bytes_value (skipn 8 uuid) (Forall_drop _ _ _ Hb)) as H2.
  rewrite length_firstn, Nat.min_l in H1 by lia. rewrite length_skipn in H2.
  replace (length uuid - 8)%nat with 8%nat in H2 by lia. rewrite H1, H2. apply firstn_skipn.
Qed.

Lemma reads_uuid m uuid (bad : Eff Reader argument) :
  bytes_ok uuid -> zlen uuid = 16 ->
  reads m (run k <- fget next_word;
           match words m !! k, words m !! S k with
           | Some first, Some second => take_words 2 ;; fret (AValue (VUuid (words_uuid first second)))
           | _, _ => bad
           end) (AValue (VUuid uuid)) [fst (uuid_words uuid); snd (uuid_words uuid)] [] [] 0.
Proof.
  intros Hb Hl r ws' b' hs' [Hw Hby Hin Hh Hn]. simpl in Hw. rewrite fbind_eq. cbn [fget].
  destruct (skipn_lookup _ _ _ _ Hw) as [E1 Hw1]. destruct (skipn_lookup _ _ _ _ Hw1) as [E2 Hw2].
  rewrite E1, E2. rewrite fbind_eq. cbn [take_words fput]. pose proof (uuid_roundtrip uuid Hb Hl) as Hu.
  unfold uuid_words in Hu. simpl in Hu. rewrite Hu. eexists. split; [reflexivity|]. split; [|simpl; lia].
  split; try done. simpl. by replace (next_word r + 2)%nat with (S (S (next_word r))) by lia.
Qed.

Lemma reads_word m type a w (bad bad' : Eff Reader argument) :
  word_argument type w = Some a ->
  reads m (run k <- fget next_word;
           match words m !! k with
           | None => bad
           | Some word => take_words 1 ;; match word_argument type word with Some a => fret a | None => bad' end
           end) a [w] [] [] 0.
Proof.
  intros Ha r ws' b' hs' [Hw Hby Hin Hh Hn]. simpl in Hw. rewrite fbind_eq. cbn [fget].
  destruct (skipn_lookup _ _ _ _ Hw) as [E1 Hw1]. rewrite E1. rewrite fbind_eq. cbn [take_words fput]. rewrite Ha.
  eexists. split; [reflexivity|]. split; [|simpl; lia]. split; try done. simpl.
  by replace (next_word r + 1)%nat with (S (next_word r)) by lia.
Qed.

(** Both the server stub and the client read an argument back. *)
Lemma reads_argument word_of p m a ws b hs (rd : Eff Reader argument) bad bad' bad'' :
  contributes word_of p a ws b hs ->
  rd = (if bool_decide (param_type p = FACET_TYPE_HANDLE) then take_handle m
        else if payload_type (param_type p) then take_payload malloc_ok p m
        else
          run k <- fget next_word;
          if bool_decide (param_type p = FACET_TYPE_UUID) then
            match words m !! k, words m !! S k with
            | Some first, Some second => take_words 2 ;; fret (AValue (VUuid (words_uuid first second)))
            | _, _ => bad
            end
          else
            match words m !! k with
            | None => bad'
            | Some word =>
                take_words 1 ;; match word_argument (param_type p) word with Some a => fret a | None => bad'' end
            end) ->
  reads m rd (arrived a) ws b hs (argument_blocks p (arrived a)).
Proof.
  intros Hc ->. destruct Hc as [v b Ht Hwf Hwire|h Ht|uuid Ht Hb Hl|a w Ht Hword Hback].
  - rewrite bool_decide_false by (by intros E; rewrite E in Ht). rewrite Ht.
    rewrite (arrived_payload _ _ _ _ Ht Hwire). unfold argument_blocks. rewrite Ht. by apply reads_payload.
  - rewrite bool_decide_true by done. apply reads_handle.
  - rewrite Ht. rewrite bool_decide_false by done. cbn [payload_type owning]. rewrite bool_decide_true by done.
    cbn [arrived received]. unfold argument_blocks. rewrite Ht. cbn [payload_type owning]. by apply reads_uuid.
  - assert (param_type p <> FACET_TYPE_HANDLE) by (intros E; rewrite E in Hback; done).
    assert (param_type p <> FACET_TYPE_UUID) by (intros E; rewrite E in Hback; done).
    rewrite bool_decide_false by done. rewrite Ht. rewrite bool_decide_false by done.
    replace (argument_blocks p (arrived a)) with 0; [by apply reads_word|]. unfold argument_blocks. rewrite Ht.
    by destruct (arrived a).
Qed.

Lemma assign_output_reads p m a ws b hs destination :
  contributes variable_word p a ws b hs -> destination <> None ->
  reads m (assign_output malloc_ok p destination m) (arrived a) ws b hs (argument_blocks p (arrived a)).
Proof.
  intros Hc Hd. eapply reads_argument; [done|]. unfold assign_output. rewrite (bool_decide_false (destination = None)) by done. reflexivity.
Qed.

Lemma server_input_reads word_of p m a ws b hs :
  contributes word_of p a ws b hs -> param_direction p <> FACET_PARAM_OUT ->
  reads m (server_input malloc_ok p m) (arrived a) ws b hs (argument_blocks p (arrived a)).
Proof.
  intros Hc Hd. eapply reads_argument; [done|]. unfold server_input. rewrite (bool_decide_false (param_direction p = _)) by done. reflexivity.
Qed.

Lemma reads_more {A B C} m (rd : Eff Reader A) a ws b hs n (rd' : Eff Reader B) x ws' b' hs' n' (f : A -> B -> C) :
  reads m rd a ws b hs n -> reads m rd' x ws' b' hs' n' ->
  reads m (run u <- rd; run v <- rd'; fret (f u v)) (f a x) (ws ++ ws') (b ++ b') (hs ++ hs') (n + n').
Proof.
  intros H1 H2 r ws2 b2 hs2 Hr. rewrite <- !app_assoc in Hr. destruct (H1 r _ _ _ Hr) as (r1 & E1 & Hr1 & Hl1).
  destruct (H2 r1 _ _ _ Hr1) as (r2 & E2 & Hr2 & Hl2). exists r2. rewrite fbind_eq, E1, fbind_eq, E2.
  split; [done|]. split; [done|]. lia.
Qed.

Lemma reads_nothing {A} m (a : A) : reads m (fret a) a [] [] [] 0.
Proof. intros r ws b hs Hr. exists r. split; [done|]. split; [done|lia]. Qed.

(** The local variables of the stub, and the blocks they own. *)
Definition server_args (params : list FacetParamMeta) (args : list argument) : list argument :=
  zip_with (fun p a => if bool_decide (param_direction p = FACET_PARAM_OUT) then zero_argument p else a) params args.

Definition input_blocks (params : list FacetParamMeta) (args : list argument) : Z :=
  sum_Z (zip_with (fun p a => if bool_decide (param_direction p = FACET_PARAM_OUT) then 0 else argument_blocks p a)
           params args).

Lemma server_inputs_reads m params args ws b hs :
  inputs_sent params args ws b hs ->
  reads m (server_inputs malloc_ok params m) (server_args params (map arrived args)) ws b hs (input_blocks params (map arrived args)).
Proof.
  intros H. induction H as [|p ps a l ws b hs ws' b' hs' Hd Hc H IH|p ps a l ws b hs ws' b' hs' Hd Hc H IH|p ps a l ws b hs Hd H IH].
  - apply reads_nothing.
  - unfold server_args, input_blocks. simpl. rewrite Hd, !bool_decide_false by done.
    apply (reads_more _ _ _ _ _ _ _ _ _ _ _ _ _ cons); [|done].
    eapply server_input_reads; [done|by rewrite Hd].
  - unfold server_args, input_blocks. simpl. rewrite Hd, !bool_decide_false by done.
    apply (reads_more _ _ _ _ _ _ _ _ _ _ _ _ _ cons); [|done].
    eapply server_input_reads; [done|by rewrite Hd].
  - unfold server_args, input_blocks. simpl. rewrite Hd, !bool_decide_true by done.
    apply (reads_more _ _ _ [] [] [] 0 _ _ _ _ _ _ cons); [|done].
    unfold server_input. rewrite Hd, bool_decide_true by done. apply reads_nothing.
Qed.

Lemma assign_outputs_reads m params outs ws b hs :
  outputs_sent params outs ws b hs -> forall destinations,
  length destinations = length params -> Forall (fun x => x <> None) destinations ->
  reads m (assign_outputs malloc_ok params destinations m) (true, map arrived outs) ws b hs
    (release_decoded_outputs params (map arrived outs)).
Proof.
  intros H. induction H as [|p ps a l ws b hs ws' b' hs' Hc H IH]; intros [|d ds] Hlen Hall; try done.
  - apply reads_nothing.
  - apply Forall_cons in Hall as [Hd Hds]. simpl in Hlen. specialize (IH ds ltac:(lia) Hds).
    intros r ws2 b2 hs2 Hr. rewrite <- !app_assoc in Hr.
    destruct (assign_output_reads _ m _ _ _ _ d Hc Hd r _ _ _ Hr) as (r1 & E1 & Hr1 & Hl1).
    destruct (IH r1 _ _ _ Hr1) as (r2 & E2 & Hr2 & Hl2). exists r2. cbn [assign_outputs]. rewrite E1, E2.
    split; [done|]. split; [done|]. unfold release_decoded_outputs in *. simpl. lia.
Qed.

(** The reader of a received message is at its beginning. *)
Lemma remaining_start m ws b hs k n live :
  contents m ws b hs ->
  remaining m (mkReader k 0 (payload_codec m n live)) (skipn k ws) b hs.
Proof.
  intros [Hw Hb Hs Hh _ _]. unfold payload_bytes in Hb.
  assert (codec_data (payload_codec m n live) = b) as Hd.
  { unfold payload_codec. simpl. destruct (payload m); simpl in *; [done|]. rewrite Hs, <- Hb. done. }
  split; cbn [next_word next_handle reader_codec]; rewrite ?Hd; try done.
  - by rewrite Hw.
  - unfold codec_in, codec_size. rewrite Hd. simpl. pose proof (zlen_nonneg b). lia.
  - intros E. by rewrite E in Hb.
Qed.

End Calls.

(** ** Building the reply *)

(** A reply under construction in a consistent state of the heap. *)
Record replying {W} (s : Serving W) (ws : list Z) (b : bytes) (hs : list Z) (live : Z) (w : W) : Prop := {
  replying_contents : contents (reply s) ws b hs;
  replying_codec : match reply_codec s with
                   | Some c => codec_ok c /\ codec_data c = b /\ payload (reply s) = Some b
                   | None => payload (reply s) = None
                   end;
  replying_stale : reply_stale s = false;
  replying_live : serving_live s = live + payload_blocks (reply s);
  replying_world : serving_world s = w
}.

Section Replies.
Context {W : Type} (malloc_ok : nat -> bool) (Hmem : memory malloc_ok).

Lemma reply_payload_ok p v b (s : Serving W) ws b0 hs live w :
  wire (param_type p) (param_metadata p) v b -> replying s ws b0 hs live w -> zlen b0 + zlen b < 2 ^ 63 ->
  exists s', reply_payload malloc_ok p (AValue v) s = (Ok tt, s') /\ replying s' ws (b0 ++ b) hs live w.
Proof.
  intros Hw [[H1 H2 H3 H4 H5 H6] Hc Hst Hl Hwd] Hb. unfold reply_payload. unfold payload_bytes in H2.
  destruct (reply_codec s) as [c|].
  - destruct Hc as (Hok & Hd & Hp). rewrite bool_decide_false by done. cbv zeta. cbn [andb negb from_option id].
    destruct (encode_at_ok malloc_ok Hmem p v b (mkCodec (codec_data c) (codec_capacity c) 0 (serving_allocations s) 0) Hw)
      as (c' & E & Hok' & Hd'); [split; [apply Hok|simpl; lia]|unfold codec_size; simpl; by rewrite Hd|].
    rewrite E. eexists. split; [reflexivity|]. simpl in Hd'. rewrite Hd in Hd'.
    split; [split|..]; simpl; try done; unfold payload_bytes, codec_size, payload_blocks in *; simpl; rewrite ?Hd'; try done.
    rewrite Hl, Hp. done.
  - rewrite bool_decide_true by done. rewrite Hmem. cbv zeta. cbn [andb negb from_option].
    rewrite Hc in H2. simpl in H2. subst b0.
    destruct (encode_at_ok malloc_ok Hmem p v b (snd (facet_rpc_codec_init malloc_ok 256 (serving_allocations s))) Hw)
      as (c' & E & Hok' & Hd'); [split; vm_compute; [split; [discriminate|reflexivity]|discriminate]|done|].
    rewrite E. eexists. split; [reflexivity|]. simpl in Hd'.
    split; [split|..]; simpl; try done; unfold payload_bytes, codec_size, payload_blocks in *; simpl; rewrite ?Hd'; try done.
    rewrite Hl, Hc. simpl. lia.
Qed.

Definition fits_reply (ws : list Z) (b : bytes) (hs : list Z) : Prop :=
  zlen ws <= FACET_RPC_MAX_WORDS /\ zlen b < 2 ^ 63 /\ zlen hs <= FACET_RPC_MAX_ATTACHMENTS.

Lemma server_output_ok p a ws b hs (s : Serving W) ws0 b0 hs0 live w :
  contributes variable_word p a ws b hs -> replying s ws0 b0 hs0 live w ->
  fits_reply (ws0 ++ ws) (b0 ++ b) (hs0 ++ hs) ->
  exists s', server_output malloc_ok p a s = (Ok tt, s') /\ replying s' (ws0 ++ ws) (b0 ++ b) (hs0 ++ hs) live w.
Proof.
  unfold fits_reply. rewrite !zlen_app. intros Hc Hs (Hfw & Hfb & Hfh). unfold server_output.
  destruct Hc as [v b Ht Hwf Hwire|h Ht|uuid Ht Hb Hl|a wd Ht Hword Hback].
  - rewrite Ht, !app_nil_r. by apply reply_payload_ok.
  - rewrite Ht, !app_nil_r. cbn [payload_type owning]. destruct Hs as [[H1 H2 H3 H4 H5 H6] Hc Hst Hl Hwd].
    rewrite fbind_eq. cbn [fget]. unfold attachment_count. rewrite H4. change (zlen [h]) with 1 in Hfh.
    unfold zlen in *. rewrite length_map, (proj2 (Z.leb_gt _ _)) by lia. eexists. split; [reflexivity|].
    split; [split|..]; try done. simpl. by rewrite map_app.
  - rewrite Ht, !app_nil_r. cbn [payload_type owning]. destruct Hs as [[H1 H2 H3 H4 H5 H6] Hc Hst Hl' Hwd].
    rewrite fbind_eq. cbn [fget]. unfold word_count. rewrite H1. change (zlen [_; _]) with 2 in Hfw.
    rewrite (proj2 (Z.ltb_ge _ _)) by lia. eexists. split; [reflexivity|]. split; [split|..]; done.
  - rewrite Ht, !app_nil_r. destruct Hs as [[H1 H2 H3 H4 H5 H6] Hc Hst Hl Hwd].
    rewrite fbind_eq. cbn [fget]. change (zlen [_]) with 1 in Hfw.
    assert (exists s', (if FACET_RPC_MAX_WORDS <=? word_count (reply s) then ffault
                        else fput (set_reply (set_words (words (reply s) ++ [wd])))) s = (Ok tt, s') /\
      replying s' (ws0 ++ [wd]) b0 hs0 live w) as Hdone.
    { unfold word_count. rewrite H1. rewrite (proj2 (Z.leb_gt _ _)) by lia. eexists. split; [reflexivity|].
      split; [split|..]; done. }
    destruct (param_type p) eqn:Et; try done; destruct a as [[]| |]; try done; rewrite Hword; exact Hdone.
Qed.

Lemma server_outputs_ok params outs ws b hs :
  outputs_sent params outs ws b hs -> forall (s : Serving W) ws0 b0 hs0 live w, replying s ws0 b0 hs0 live w ->
  fits_reply (ws0 ++ ws) (b0 ++ b) (hs0 ++ hs) ->
  exists s', server_outputs malloc_ok params outs s = (Ok tt, s') /\
    replying s' (ws0 ++ ws) (b0 ++ b) (hs0 ++ hs) live w.
Proof.
  intros H. induction H as [|p ps a l ws b hs ws' b' hs' Hc H IH]; intros s ws0 b0 hs0 live w Hs Hf.
  - exists s. by rewrite !app_nil_r.
  - rewrite !app_assoc in *. destruct (server_output_ok p a ws b hs s ws0 b0 hs0 live w Hc Hs) as (s1 & E & Hs1).
    { by eapply fits_request_prefix. }
    destruct (IH s1 _ _ _ _ _ Hs1 Hf) as (s' & E' & Hs'). exists s'. cbn [server_outputs]. rewrite fbind_eq, E. done.
Qed.

Lemma contributes_words word_of p a ws b hs :
  contributes word_of p a ws b hs ->
  zlen ws = if (payload_type (param_type p) || bool_decide (param_type p = FACET_TYPE_HANDLE))%bool then 0
            else if bool_decide (param_type p = FACET_TYPE_UUID) then 2 else 1.
Proof.
  intros [v b' Ht _ _|h Ht|uuid Ht _ _|a' w Ht _ Hback]; rewrite Ht; try done.
  rewrite !bool_decide_false; [done|..]; by intros E; rewrite E in Hback.
Qed.

Lemma inputs_sent_words params args ws b hs : inputs_sent params args ws b hs -> zlen ws = input_words params.
Proof.
  intros H. induction H as [|p ps a l ws b hs ws' b' hs' Hd Hc H IH|p ps a l ws b hs ws' b' hs' Hd Hc H IH|p ps a l ws b hs Hd H IH];
    [done|..]; unfold input_words in *; cbn [map sum_Z fold_right]; fold (sum_Z); rewrite Hd;
    rewrite ?zlen_app, ?(contributes_words _ _ _ _ _ _ Hc), IH; unfold sum_Z.
  - rewrite (bool_decide_false (FACET_PARAM_IN = FACET_PARAM_OUT)) by done. done.
  - rewrite (bool_decide_false (FACET_PARAM_INOUT = FACET_PARAM_OUT)) by done. done.
  - rewrite (bool_decide_true (FACET_PARAM_OUT = FACET_PARAM_OUT)) by done. done.
Qed.

(** A request that carries the arguments makes the stub call the implementation with
    them, and the reply carries the result and the outputs. *)
Lemma serve_ok methods m id params (impl : Method (W := W)) args ws b hs code outs ows ob ohs n live w w' :
  find_method methods (method_id m) = Some (mkMethod id params, Some impl) ->
  contents m ws b hs -> inputs_sent params args ws b hs ->
  impl (server_args params (map arrived args)) w = ((code, outs), w') ->
  outputs_sent (output_params params) outs ows ob ohs ->
  fits_reply (u64 (code_of_result code) :: ows) ob ohs ->
  exists s, serve malloc_ok methods m n live w = (Ok tt, s) /\
    contents (reply s) (u64 (code_of_result code) :: ows) ob ohs /\ serving_world s = w' /\
    serving_live s = live + input_blocks params (map arrived args) - released_inputs params (server_args params (map arrived args)) outs
                     + payload_blocks (reply s).
Proof.
  intros Hfind Hm Hin Himpl Hout Hfit. unfold serve, common_dispatch. rewrite Hfind. cbn [method_parameters].
  assert (word_count m = input_words params) as Hwords.
  { unfold word_count. rewrite (contents_words _ _ _ _ Hm). by eapply inputs_sent_words. }
  unfold server_method. rewrite Hwords, Z.eqb_refl. cbn [negb].
  set (start := mkServing _ _ _ _ _ _).
  pose proof (remaining_start m ws b hs 0 n live Hm) as Hr. cbn [skipn] in Hr.
  rewrite <- (app_nil_r ws), <- (app_nil_r b), <- (app_nil_r hs) in Hr.
  destruct (server_inputs_reads malloc_ok Hmem m _ _ _ _ _ Hin _ _ _ _ Hr) as (r & E & _ & Hl).
  unfold serving_read. cbn [serving_allocations serving_live start]. rewrite E.
  rewrite fbind_eq. unfold call_method. cbn [serving_world start]. rewrite Himpl. rewrite fbind_eq. cbn [fput fst snd].
  rewrite fbind_eq, fcatch_eq. set (s0 := set_reply _ _).
  destruct (server_outputs_ok _ _ _ _ _ Hout s0 [u64 (code_of_result code)] [] [] (live + input_blocks params (map arrived args)) w')
    as (s1 & E1 & Hs1); [|done|].
  { split; [split|..]; try done. simpl. unfold payload_blocks. simpl in *. lia. }
  rewrite E1. rewrite bool_decide_true by done. rewrite fbind_eq. cbn [fput fret].
  destruct Hs1 as [[H1 H2 H3 H4 H5 H6] Hc Hst Hl1 Hw1]. cbn [reply_stale]. rewrite Hst.
  rewrite bool_decide_false by (cbn [reply]; by rewrite H1).
  eexists. split; [reflexivity|]. cbn [reply serving_world serving_live]. split; [by split|]. split; [done|].
  rewrite Hl1. lia.
Qed.

End Replies.

(** ** The call *)

(** What lies behind a transport: the heap of the server and its implementation. *)
Record Remote (V : Type) := mkRemote { remote_allocations : nat; remote_live : Z; remote_world : V }.
Arguments mkRemote {V}.
Arguments remote_allocations {V}.
Arguments remote_live {V}.
Arguments remote_world {V}.

(** After a call the payload of the reply has left the server. *)
Definition remote_after {V} (s : Serving V) : Remote V :=
  mkRemote (serving_allocations s) (serving_live s - payload_blocks (reply s)) (serving_world s).

(** A message arrives with its contents; handles get new names. *)
Definition delivered (f : Z -> Z) (m m' : FacetRpcMessage) : Prop :=
  forall ws b hs, contents m ws b hs -> contents m' ws b (map f hs).

(** A reply arrives with its words and its payload; its handles get new names, unless
    one of them is null, which a transport need not carry. *)
Definition replied (f : Z -> Z) (m m' : FacetRpcMessage) : Prop :=
  forall ws b hs, contents m ws b hs ->
    exists hs', contents m' ws b hs' /\ (Forall (fun h => h <> 0) hs -> hs' = map f hs).

(** The contract of a transport between a handle and the object with these methods:
    messages of acceptable size arrive, requests with handles renamed by [g] and
    replies with handles renamed by [f]. *)
Definition transports {V} `{Platform (Remote V)} (server_malloc : nat -> bool) (handle : Z)
    (methods : list (FacetMethodMeta * option (Method (W := V)))) (f g : Z -> Z)
    (request_fits reply_fits : FacetRpcMessage -> Prop) : Prop :=
  forall m r, request_fits m -> exists m', method_id m' = method_id m /\ delivered g m m' /\
    forall s, serve server_malloc methods m' (remote_allocations r) (remote_live r) (remote_world r) = (Ok tt, s) ->
      reply_fits (reply s) ->
      exists m'', replied f (reply s) m'' /\ libfacet_platform_call handle m r = (Ok m'', remote_after s).

Definition rename (f : Z -> Z) (a : argument) : argument :=
  match a with AHandle h => AHandle (f h) | _ => a end.

Lemma contributes_rename f word_of p a ws b hs :
  (forall type a w, word_of type a = Some w -> rename f a = a) ->
  contributes word_of p a ws b hs -> contributes word_of p (rename f a) ws b (map f hs).
Proof.
  intros Hf [v b' Ht Hwf Hw|h Ht|uuid Ht Hb Hl|a' w Ht Hw Hback].
  - by apply contributes_payload.
  - by apply contributes_handle.
  - by apply contributes_uuid.
  - rewrite (Hf _ _ _ Hw). by apply contributes_word.
Qed.

Lemma argument_word_rename f type a w : argument_word type a = Some w -> rename f a = a.
Proof. by destruct type, a. Qed.

Lemma variable_word_rename f type a w : variable_word type a = Some w -> rename f a = a.
Proof. by destruct type, a. Qed.

Lemma inputs_sent_rename f params args ws b hs :
  inputs_sent params args ws b hs -> inputs_sent params (map (rename f) args) ws b (map f hs).
Proof.
  intros H. induction H; cbn [map]; rewrite ?map_app.
  - constructor.
  - apply sent_in; [done| |done]. eapply contributes_rename; [|done]. apply argument_word_rename.
  - apply sent_inout; [done| |done]. eapply contributes_rename; [|done]. apply variable_word_rename.
  - by apply sent_out.
Qed.

Lemma outputs_sent_rename f params outs ws b hs :
  outputs_sent params outs ws b hs -> outputs_sent params (map (rename f) outs) ws b (map f hs).
Proof.
  intros H. induction H; cbn [map]; rewrite ?map_app; constructor; [|done].
  eapply contributes_rename; [|done]. apply variable_word_rename.
Qed.

(** What the other side gets for an argument: handles have the names of the transport. *)
Definition passed (f : Z -> Z) (a : argument) : argument := arrived (rename f a).

Lemma map_passed f l : map arrived (map (rename f) l) = map (passed f) l.
Proof. by rewrite map_map. Qed.

(** The codes that travel: 32 bit numbers, named by their names. *)
Definition code_ok (code : FacetResult) : Prop :=
  - 2 ^ 31 <= code_of_result code < 2 ^ 31 /\ result_of_code (code_of_result code) = code.

Lemma code_roundtrip code : code_ok code -> result_of_code (signed 32 (u64 (code_of_result code))) = code.
Proof. intros [Hr Hn]. rewrite signed_u64 by lia. done. Qed.

Lemma named_code_ok code : (forall c, code <> FACET_OTHER c) -> code_ok code.
Proof.
  intros H. destruct code; [..|by destruct (H code)].
  all: split; [vm_compute; split; [discriminate|reflexivity]|vm_compute; reflexivity].
Qed.

Lemma free_request_eq {W} (s : Call W) :
  stale s = false -> free_request s = (Ok tt, free_blocks (payload_blocks (request s)) s).
Proof. intros E. unfold free_request. by rewrite E. Qed.

Section Refinement.
Context {V : Type} `{P : Platform (Remote V)} (client_malloc server_malloc : nat -> bool).
Context (Hclient : memory client_malloc) (Hserver : memory server_malloc).
Context (handle : Z) (methods : list (FacetMethodMeta * option (Method (W := V)))) (f g : Z -> Z).
Context (request_fits reply_fits : FacetRpcMessage -> Prop).
Context (Htransport : transports server_malloc handle methods f g request_fits reply_fits).

(** Sending a finished request: the reply carries the result and the outputs. *)
Lemma send_ok id params (impl : Method (W := V)) args ws b hs code outs ows ob ohs live r w' (s : Call (Remote V)) :
  find_method methods id = Some (mkMethod id params, Some impl) ->
  inputs_sent params args ws b hs ->
  impl (server_args params (map (passed g) args)) (remote_world r) = ((code, outs), w') ->
  outputs_sent (output_params params) outs ows ob ohs ->
  fits_reply (u64 (code_of_result code) :: ows) ob ohs ->
  (forall m, contents m ws b hs -> method_id m = id -> request_fits m) ->
  (forall m, contents m (u64 (code_of_result code) :: ows) ob ohs -> reply_fits m) ->
  built s ws b hs live id r ->
  exists m s' ohs', send handle s = (Ok m, s') /\
    contents m (u64 (code_of_result code) :: ows) ob ohs' /\ (Forall (fun h => h <> 0) ohs -> ohs' = map f ohs) /\
    heap_live s' = heap_live s + payload_blocks m /\ stale s' = false /\ request s' = request s /\
    remote_world (world s') = w' /\
    remote_live (world s') =
      remote_live r + input_blocks params (map (passed g) args) - released_inputs params (server_args params (map (passed g) args)) outs.
Proof.
  intros Hfind Hin Himpl Hout Hfit Hreq Hrep [Hc Hcap Hst Hl Hid Hw].
  destruct (Htransport (request s) r (Hreq _ Hc Hid)) as (m' & Hmid & Hdel & Hserve).
  pose proof (Hdel _ _ _ Hc) as Hc'. apply (inputs_sent_rename g) in Hin as Hin'.
  destruct (serve_ok server_malloc Hserver methods m' id params impl (map (rename g) args) ws b (map g hs) code outs ows ob ohs
    (remote_allocations r) (remote_live r) (remote_world r) w') as (sv & E & Hcv & Hwv & Hlv); try done;
    [by rewrite Hmid, Hid|by rewrite map_passed|]. rewrite map_passed in Hlv.
  destruct (Hserve sv E (Hrep _ Hcv)) as (m'' & Hdel' & Ecall).
  destruct (Hdel' _ _ _ Hcv) as (ohs' & Hcr & Hohs).
  exists m''. unfold send. rewrite Hw, Ecall. eexists _, ohs'. split; [reflexivity|]. cbn [heap_live stale request world].
  split_and!; try done. cbn [remote_after remote_live]. rewrite Hlv. lia.
Qed.

(** Reading the outputs of a reply that carries them. *)
Lemma reading_ok params outs m code ows ob ohs destinations (s : Call (Remote V)) :
  contents m (code :: ows) ob ohs -> outputs_sent params outs ows ob ohs ->
  length destinations = length params -> Forall (fun x => x <> None) destinations ->
  exists s', reading m (assign_outputs client_malloc params destinations m) s = (Ok (true, map arrived outs), s') /\
    heap_live s' = heap_live s + release_decoded_outputs params (map arrived outs) /\ stale s' = stale s /\
    request s' = request s /\ world s' = world s.
Proof.
  intros Hm Hout Hlen Hall. pose proof (remaining_start m _ ob ohs 1 (heap_allocations s) (heap_live s) Hm) as Hr.
  cbn [skipn] in Hr. rewrite <- (app_nil_r ows), <- (app_nil_r ob), <- (app_nil_r ohs) in Hr.
  destruct (assign_outputs_reads client_malloc Hclient m _ _ _ _ _ Hout destinations Hlen Hall _ _ _ _ Hr)
    as (r & E & _ & Hl). unfold reading. rewrite E. eexists. split; [reflexivity|]. done.
Qed.

Lemma proxy_call_ok id params (impl : Method (W := V)) args ws b hs code outs ows ob ohs n live r w' :
  find_method methods id = Some (mkMethod id params, Some impl) ->
  inputs_sent params args ws b hs -> fits_request ws b hs ->
  zlen (output_params params) <= FACET_RPC_MAX_WORDS ->
  impl (server_args params (map (passed g) args)) (remote_world r) = ((code, outs), w') ->
  outputs_sent (output_params params) outs ows ob ohs ->
  fits_reply (u64 (code_of_result code) :: ows) ob ohs -> code_ok code ->
  (forall m, contents m ws b hs -> method_id m = id -> request_fits m) ->
  (forall m, contents m (u64 (code_of_result code) :: ows) ob ohs -> reply_fits m) ->
  (code = FACET_OK -> Forall (fun h => h <> 0) ohs) ->
  exists s, libfacet_proxy_client_call client_malloc (Some handle) (Some (mkMethod id params)) (map Some args) n live r =
      (if bool_decide (code = FACET_OK) then Ok (map (passed f) outs) else Err code, s) /\
    heap_live s = live + (if bool_decide (code = FACET_OK) then release_decoded_outputs (output_params params) (map (passed f) outs) else 0) /\
    exists r' ohs', remote_world r' = w' /\
      remote_live r' = remote_live r + input_blocks params (map (passed g) args)
                       - released_inputs params (server_args params (map (passed g) args)) outs /\
      (Forall (fun h => h <> 0) ohs -> ohs' = map f ohs) /\
      world s = if bool_decide (code = FACET_OK) then r'
                else release_attachments (map handle_attachment ohs') r'.
Proof.
  intros Hfind Hin Hfits Hn Himpl Hout Hfit Hcode Hreq Hrep Hnull.
  unfold libfacet_proxy_client_call, proxy_call. cbn [method_parameters method_method_id].
  set (s0 := mkCall _ _ _ _ _). assert (built s0 [] [] [] live id r) as Hs0.
  { split; [split|..]; try done. unfold payload_blocks. simpl. lia. }
  destruct (gather_ok client_malloc Hclient _ _ _ _ _ Hin s0 [] [] [] live id r [] Hs0 Hfits)
    as (outs' & Hlen & Hall & s1 & E1 & Hs1); [exact Hn|].
  rewrite fbind_eq, E1. rewrite fbind_eq.
  destruct (send_ok _ _ impl args _ _ _ code outs ows ob ohs live r w' s1 Hfind Hin Himpl Hout Hfit Hreq Hrep Hs1)
    as (m & s2 & ohs' & E2 & Hm & Hohs & Hl2 & Hst2 & Hreq2 & Hw2 & Hrl2).
  rewrite E2. destruct Hs1 as [_ _ _ Hl1 _ _]. rewrite (contents_words _ _ _ _ Hm). cbv zeta.
  rewrite code_roundtrip by done. destruct (bool_decide (code = FACET_OK)) eqn:Eok; cbn [negb].
  - apply bool_decide_eq_true in Eok. rewrite (Hohs (Hnull Eok)) in Hm.
    destruct (reading_ok (output_params params) (map (rename f) outs) m _ ows ob (map f ohs) outs' s2 Hm) as (s3 & E3 & Hl3 & Hst3 & Hreq3 & Hw3);
      [by apply outputs_sent_rename|done|done|].
    rewrite map_passed in E3, Hl3. rewrite app_nil_l, fbind_eq, E3. cbn [fst snd]. rewrite fbind_eq, free_request_eq by congruence.
    rewrite fbind_eq. unfold free_reply. cbn [fput fret]. eexists. split; [reflexivity|].
    cbn [heap_live free_blocks world]. rewrite Hl3, Hl2, Hl1, Hreq3, Hreq2.
    split; [unfold payload_blocks; lia|]. exists (world s2), ohs'. rewrite Hw3. done.
  - unfold give_up_call. rewrite fbind_eq, free_request_eq by congruence. rewrite fbind_eq. unfold free_reply.
    cbn [fput]. rewrite fbind_eq. unfold release_reply_attachments. cbn [fput ferr]. eexists. split; [reflexivity|].
    cbn [heap_live free_blocks world]. rewrite Hl2, Hl1, Hreq2, (contents_handles _ _ _ _ Hm).
    split; [unfold payload_blocks; lia|]. exists (world s2), ohs'. done.
Qed.

End Refinement.

(** ** Hostile peers *)

(** A payload pointer that covers the announced size. *)
Definition payload_ok (m : FacetRpcMessage) : Prop := payload_size m = zlen (payload_bytes m).

(** The reader of such a message stays inside it. *)
Definition reader_ok (m : FacetRpcMessage) (r : Reader) : Prop :=
  codec_in (reader_codec r) /\ (payload m = None -> codec_data (reader_codec r) = []).

Definition params_ok (params : list FacetParamMeta) : Prop :=
  Forall (fun p => wf_metadata (param_metadata p)) params.

(** A step that never faults and counts what it allocates. *)
Definition survives {A} (m : FacetRpcMessage) (rd : Eff Reader A) (blocks : A -> Z) : Prop :=
  forall r, reader_ok m r -> exists x r', rd r = (x, r') /\ reader_ok m r' /\
    match x with
    | Ok a => codec_live (reader_codec r') = codec_live (reader_codec r) + blocks a
    | Err _ => codec_live (reader_codec r) <= codec_live (reader_codec r')
    | Fault => False
    end.

Section Hostile.
Context (malloc_ok : nat -> bool).

Lemma reader_start m k n live : payload_ok m -> reader_ok m (mkReader k 0 (payload_codec m n live)).
Proof.
  unfold payload_ok, payload_bytes, reader_ok, payload_codec. cbn [reader_codec codec_data]. intros Hp. split.
  - unfold codec_in, codec_size. simpl. pose proof (zlen_nonneg (default (repeat 0 (Z.to_nat (payload_size m))) (payload m))). lia.
  - intros E. rewrite E in *. simpl in *. by rewrite Hp.
Qed.

Lemma survives_handle m p : survives m (take_handle m) (argument_blocks p).
Proof.
  intros r Hr. unfold take_handle. rewrite fbind_eq. cbn [fget].
  destruct (attachments m !! next_handle r) as [[[] h size]|]; eexists _, _; (split; [reflexivity|]); (split; [exact Hr|]); simpl; lia.
Qed.

Lemma survives_payload p m :
  wf_metadata (param_metadata p) -> payload_type (param_type p) = true ->
  survives m (take_payload malloc_ok p m) (argument_blocks p).
Proof.
  intros Hwf Ht r [Hin Hnull]. unfold take_payload, facet_rpc_decode_value.
  destruct (decode_accounts malloc_ok (codec_fuel (param_metadata p)) (param_type p) _ (le_n _) Hwf (reader_codec r) Hin)
    as (code & v & c & E & Hin' & Hd & Ho & Hle & Hl). rewrite E.
  assert ((bool_decide (payload m = None) && negb (codec_offset c =? codec_offset (reader_codec r)))%bool = false) as ->.
  { destruct (payload m) eqn:Ep; [done|]. specialize (Hnull eq_refl). unfold codec_in, codec_size in *.
    rewrite Hd, Hnull in Hin'. rewrite Hnull in Hin. change (zlen []) with 0 in *.
    rewrite (proj2 (Z.eqb_eq _ _)) by lia. apply andb_false_r. }
  pose proof (release_count_nonneg (codec_fuel (param_metadata p)) (param_type p) (param_metadata p) v).
  destruct (decide (code = FACET_OK)) as [->|Hne].
  - eexists _, _. split; [reflexivity|]. split; [split; [done|]; intros Hn; simpl; rewrite Hd; by apply Hnull|].
    simpl. unfold argument_blocks. rewrite Ht. by apply Hl.
  - eexists (Err FACET_ERROR), _. split; [by destruct code|].
    split; [split; [done|]; intros Hn; simpl; rewrite Hd; by apply Hnull|]. simpl. lia.
Qed.

Lemma assign_output_survives p m destination :
  wf_metadata (param_metadata p) -> survives m (assign_output malloc_ok p destination m) (argument_blocks p).
Proof.
  intros Hwf. unfold assign_output. destruct (bool_decide (destination = None)).
  { intros r Hr. eexists _, _. split; [reflexivity|]. split; [done|]. simpl. lia. }
  destruct (bool_decide (param_type p = FACET_TYPE_HANDLE)); [apply survives_handle|].
  destruct (payload_type (param_type p)) eqn:Ht; [by apply survives_payload|].
  intros r Hr. rewrite fbind_eq. cbn [fget].
  assert (forall a, argument_blocks p a = 0) as Hz by (intros []; unfold argument_blocks; rewrite ?Ht; done).
  destruct (bool_decide (param_type p = FACET_TYPE_UUID)).
  - destruct (words m !! next_word r), (words m !! S (next_word r)); eexists _, _; (split; [reflexivity|]); (split; [exact Hr|]);
      rewrite ?Hz; simpl; lia.
  - destruct (words m !! next_word r) as [w|]; [|eexists _, _; split; [reflexivity|]; split; [exact Hr|]; simpl; lia].
    rewrite fbind_eq. cbn [take_words fput].
    destruct (word_argument (param_type p) w); eexists _, _; (split; [reflexivity|]); (split; [exact Hr|]); rewrite ?Hz; simpl; lia.
Qed.

(** Whatever the reply holds, reading the outputs ends without a fault. *)
Lemma assign_outputs_survives m params destinations :
  params_ok params -> forall r, reader_ok m r ->
  exists done outs r', assign_outputs malloc_ok params destinations m r = (Ok (done, outs), r') /\
    codec_live (reader_codec r) + release_decoded_outputs params outs <= codec_live (reader_codec r') /\
    (done = true -> codec_live (reader_codec r') = codec_live (reader_codec r) + release_decoded_outputs params outs /\
       (length destinations = length params -> length outs = length params)).
Proof.
  unfold params_ok. revert destinations. induction params as [|p ps IH]; intros destinations Hps r Hr.
  { exists true, [], r. split; [done|]. unfold release_decoded_outputs. simpl. split; [lia|]. intros _. split; [lia|done]. }
  destruct destinations as [|d ds].
  { exists true, [], r. split; [done|]. unfold release_decoded_outputs. simpl. split; [lia|]. intros _. split; [lia|done]. }
  apply Forall_cons in Hps as [Hp Hps]. cbn [assign_outputs].
  destruct (assign_output_survives p m d Hp r Hr) as (x & r1 & E & Hr1 & Hx). rewrite E.
  destruct x as [a|code|]; [|exists false, [], r1; split; [done|]; unfold release_decoded_outputs; simpl; split; [lia|done]|done].
  destruct (IH ds Hps r1 Hr1) as (ok & outs & r2 & E2 & Hle & Hok). rewrite E2.
  exists ok, (a :: outs), r2. split; [done|]. unfold release_decoded_outputs in *. simpl. split; [lia|]. intros Ht.
  destruct (Hok Ht) as [Hl Hlen]. split; [lia|]. intros Hd. f_equal. apply Hlen. lia.
Qed.

End Hostile.

(** A transport inside one process: the dispatch runs on the request itself. *)
Definition loopback {V} (server_malloc : nat -> bool) (methods : list (FacetMethodMeta * option (Method (W := V))))
  : Platform (Remote V) := {|
  libfacet_platform_call := fun _ m r =>
    match serve server_malloc methods m (remote_allocations r) (remote_live r) (remote_world r) with
    | (Ok _, s) => (Ok (reply s), remote_after s)
    | (Err code, s) => (Err code, remote_after s)
    | (Fault, s) => (Fault, remote_after s)
    end;
  libfacet_platform_handle_release := fun _ r => r
|}.

Lemma delivered_id m : delivered id m m.
Proof. intros ws b hs H. by rewrite map_id. Qed.

Lemma delivered_replied f m m' : delivered f m m' -> replied f m m'.
Proof. intros H ws b hs Hc. exists (map f hs). split; [by apply H|done]. Qed.

Lemma loopback_transports {V} server_malloc (methods : list (FacetMethodMeta * option (Method (W := V)))) handle :
  transports (H := loopback server_malloc methods) server_malloc handle methods id id (fun _ => True) (fun _ => True).
Proof.
  intros m r _. exists m. split; [done|]. split; [apply delivered_id|]. intros s E _. exists (reply s).
  split; [apply delivered_replied, delivered_id|].
  simpl. by rewrite E.
Qed.

(** C5: A call through a proxy refines a call of the implementation.  The conditions:
    the transport keeps its contract (messages of acceptable size arrive); memory
    lasts on both sides; the arguments have the types of the parameters and fit a
    message; so do the outputs of the implementation, also when it fails; and a
    successful implementation returns no null handle.  Then the implementation is
    called exactly once with the caller's arguments as the message carries them
    ([passed]: handles renamed by the transport, a null string as an empty one, a bool
    inside an array or a structure that non-zero bytes follow in memory as true, and
    otherwise the same value), the caller gets the result code, or when it is
    FACET_OK the outputs carried back in the same way, the caller's heap holds
    nothing but these outputs and the server's heap what the stub decoded and did
    not release. *)
Theorem rpc_call_refines {V} {P : Platform (Remote V)} (client_malloc server_malloc : nat -> bool) (handle : Z)
    (methods : list (FacetMethodMeta * option (Method (W := V)))) (f g : Z -> Z)
    (request_fits reply_fits : FacetRpcMessage -> Prop)
    (id : Z) (params : list FacetParamMeta) (impl : Method (W := V)) (args outs : list argument)
    (ws ows : list Z) (b ob : bytes) (hs ohs : list Z) (code : FacetResult) (n : nat) (live : Z) (r : Remote V) (w' : V)
    (Hclient : memory client_malloc) (Hserver : memory server_malloc)
    (Htransport : transports server_malloc handle methods f g request_fits reply_fits)
    (Hfind : find_method methods id = Some (mkMethod id params, Some impl))
    (Hin : inputs_sent params args ws b hs) (Hfits : fits_request ws b hs)
    (Hn : zlen (output_params params) <= FACET_RPC_MAX_WORDS)
    (Himpl : impl (server_args params (map (passed g) args)) (remote_world r) = ((code, outs), w'))
    (Hout : outputs_sent (output_params params) outs ows ob ohs)
    (Hfit : fits_reply (u64 (code_of_result code) :: ows) ob ohs) (Hcode : code_ok code)
    (Hreq : forall m, contents m ws b hs -> method_id m = id -> request_fits m)
    (Hrep : forall m, contents m (u64 (code_of_result code) :: ows) ob ohs -> reply_fits m)
    (Hnull : code = FACET_OK -> Forall (fun h => h <> 0) ohs) :
  exists s, libfacet_proxy_client_call client_malloc (Some handle) (Some (mkMethod id params)) (map Some args) n live r =
      (if bool_decide (code = FACET_OK) then Ok (map (passed f) outs) else Err code, s) /\
    heap_live s = live + (if bool_decide (code = FACET_OK) then release_decoded_outputs (output_params params) (map (passed f) outs) else 0) /\
    exists r' ohs', remote_world r' = w' /\
      remote_live r' = remote_live r + input_blocks params (map (passed g) args)
                       - released_inputs params (server_args params (map (passed g) args)) outs /\
      (Forall (fun h => h <> 0) ohs -> ohs' = map f ohs) /\
      world s = if bool_decide (code = FACET_OK) then r'
                else release_attachments (map handle_attachment ohs') r'.
Proof. eapply proxy_call_ok; eassumption. Qed.

(** A method [lookup(in string name, out u32 id, out handle object)] whose world
    counts the calls. *)
Definition lookup_params : list FacetParamMeta :=
  [mkParam FACET_TYPE_STRING FACET_PARAM_IN None; mkParam FACET_TYPE_U32 FACET_PARAM_OUT None;
   mkParam FACET_TYPE_HANDLE FACET_PARAM_OUT None].

Definition lookup_method : Method (W := nat) := fun args calls =>
  ((FACET_OK, [AValue (VInt 7); AHandle 41]), S calls).

Definition lookup_methods : list (FacetMethodMeta * option (Method (W := nat))) :=
  [(mkMethod 3 lookup_params, Some lookup_method)].

Definition lookup_args : list argument :=
  [AValue (VString (Some (B "tty1")) 4); AValue (VInt 0); AHandle 0].

Lemma lookup_inputs : inputs_sent lookup_params lookup_args [] (le_bytes 4 4 ++ B "tty1") [].
Proof.
  rewrite <- (app_nil_r (le_bytes 4 4 ++ B "tty1")).
  apply (sent_in _ _ _ _ [] (le_bytes 4 4 ++ B "tty1") [] [] [] []); [done| |].
  - apply contributes_payload; [done|done|]. apply (wire_string _ _ (B "tty1")); [done|vm_compute; discriminate].
  - apply sent_out; [done|]. apply sent_out; [done|]. apply sent_none.
Qed.

Lemma lookup_outputs :
  outputs_sent (output_params lookup_params) [AValue (VInt 7); AHandle 41] [7] [] [41].
Proof.
  apply (returned_more _ _ _ _ [7] [] [] [] [] [41]).
  - by apply contributes_word.
  - apply (returned_more _ _ _ _ [] [] [41] [] [] []); [by apply contributes_handle|apply returned_none].
Qed.

Lemma rpc_call_refines_witness :
  exists s, libfacet_proxy_client_call (H := loopback plenty lookup_methods) plenty (Some 1) (Some (mkMethod 3 lookup_params))
      (map Some lookup_args) 0 0 (mkRemote 0 0 0%nat) = (Ok [AValue (VInt 7); AHandle 41], s) /\
    heap_live s = 0 /\ remote_world (world s) = 1%nat.
Proof.
  destruct (rpc_call_refines (P := loopback plenty lookup_methods) plenty plenty 1 lookup_methods Datatypes.id Datatypes.id
    (fun _ => True) (fun _ => True) 3 lookup_params lookup_method lookup_args
    [AValue (VInt 7); AHandle 41] [] [7] (le_bytes 4 4 ++ B "tty1") [] [] [41] FACET_OK 0 0 (mkRemote 0 0 0%nat) 1%nat
    (fun _ => eq_refl) (fun _ => eq_refl) (loopback_transports _ _ _) eq_refl lookup_inputs
    ltac:(vm_compute; repeat split; discriminate) ltac:(vm_compute; discriminate) eq_refl lookup_outputs
    ltac:(vm_compute; repeat split; discriminate) ltac:(by apply named_code_ok) (fun _ _ _ => I) (fun _ _ => I)
    ltac:(intros _; constructor; [discriminate|constructor])) as (s & E & Hl & r' & ohs' & Hw & _ & _ & Hs).
  exists s. split; [exact E|]. split; [exact Hl|]. rewrite bool_decide_true in Hs by done. by rewrite Hs.
Defined.

(** Giving up a call frees both payloads. *)
Lemma give_up_call_ok {W A} {P : Platform W} m code (s : Call W) :
  stale s = false -> exists s', give_up_call (A := A) m code s = (Err code, s') /\
    heap_live s' = heap_live s - payload_blocks (request s) - payload_blocks m.
Proof.
  intros E. unfold give_up_call. rewrite fbind_eq, free_request_eq by done. eexists. split; reflexivity.
Qed.

(** Whatever the reply, the rest of a call ends without a fault. *)
Lemma after_reply_survives {W} {P : Platform W} client_malloc params destinations m (s : Call W) live :
  payload_ok m -> params_ok params -> length destinations = length params -> stale s = false ->
  heap_live s = live + payload_blocks (request s) + payload_blocks m ->
  exists x s',
    match words m with
    | [] => give_up_call m FACET_PROTOCOL_ERROR
    | word :: _ =>
        let code := result_of_code (signed 32 word) in
        if negb (bool_decide (code = FACET_OK)) then give_up_call m code
        else
          run r <- reading m (assign_outputs client_malloc params destinations m);
          if fst r then free_request ;; free_reply m ;; fret (snd r)
          else fput (free_blocks (release_decoded_outputs params (snd r))) ;; give_up_call m FACET_PROTOCOL_ERROR
    end s = (x, s') /\
    match x with
    | Ok outs => length outs = length params /\ heap_live s' = live + release_decoded_outputs params outs
    | Err _ => live <= heap_live s'
    | Fault => False
    end.
Proof.
  intros Hp Hps Hlen Hst Hl.
  assert (forall code (s2 : Call W), stale s2 = false -> request s2 = request s -> heap_live s <= heap_live s2 ->
    exists x s', give_up_call m code s2 = (x, s') /\
      match x with
      | Ok outs => length outs = length params /\ heap_live s' = live + release_decoded_outputs params outs
      | Err _ => live <= heap_live s' | Fault => False end) as Hgive.
  { intros code s2 H1 H2 H3. destruct (give_up_call_ok (A := list argument) m code s2 H1) as (s' & E & Hl').
    exists (Err code), s'. split; [done|]. rewrite Hl', H2. lia. }
  destruct (words m) as [|word rest]; [apply Hgive; try done; lia|]. cbv zeta.
  destruct (negb _); [apply Hgive; try done; lia|]. rewrite fbind_eq. unfold reading.
  destruct (assign_outputs_survives client_malloc m params destinations Hps _
    (reader_start m 1 (heap_allocations s) (heap_live s) Hp)) as (ok & outs & r & E & Hle & Hok).
  rewrite E. cbn [fst snd reader_codec codec_live payload_codec] in *. destruct ok.
  - destruct (Hok eq_refl) as [Hlive Hl']. rewrite fbind_eq, free_request_eq by done. eexists _, _. split; [reflexivity|].
    split; [auto|]. cbn [heap_live free_blocks request]. unfold payload_blocks in *. lia.
  - rewrite fbind_eq. cbn [fput]. apply Hgive; try done. cbn [heap_live free_blocks]. lia.
Qed.

(** A hostile server cannot corrupt its caller: whatever reply comes back, as
    long as its payload pointer covers the announced size, a call with typed
    arguments returns without a fault; when it succeeds every output has been read
    and the caller's heap holds exactly the blocks of the outputs besides what it
    held before. *)
Theorem rpc_client_survives {W} {P : Platform W} (client_malloc : nat -> bool) (handle id : Z)
    (params : list FacetParamMeta) (args : list argument) (ws : list Z) (b : bytes) (hs : list Z) (n : nat) (live : Z) (w : W)
    (Hclient : memory client_malloc) (Hin : inputs_sent params args ws b hs) (Hfits : fits_request ws b hs)
    (Hn : zlen (output_params params) <= FACET_RPC_MAX_WORDS) (Hparams : params_ok (output_params params))
    (Hpeer : forall m, match fst (libfacet_platform_call handle m w) with
                       | Ok reply => payload_ok reply | Err _ => True | Fault => False end) :
  exists x s, libfacet_proxy_client_call client_malloc (Some handle) (Some (mkMethod id params)) (map Some args) n live w =
      (x, s) /\
    match x with
    | Ok outs => length outs = length (output_params params) /\
                 heap_live s = live + release_decoded_outputs (output_params params) outs
    | Err _ => live <= heap_live s
    | Fault => False
    end.
Proof.
  unfold libfacet_proxy_client_call, proxy_call. cbn [method_parameters method_method_id].
  set (s0 := mkCall _ _ _ _ _). assert (built s0 [] [] [] live id w) as Hs0.
  { split; [split|..]; try done. unfold payload_blocks. simpl. lia. }
  destruct (gather_ok client_malloc Hclient _ _ _ _ _ Hin s0 [] [] [] live id w [] Hs0 Hfits)
    as (outs' & Hlen & Hall & s1 & E1 & [_ _ Hst Hl1 _ Hw1]); [exact Hn|].
  rewrite fbind_eq, E1, fbind_eq. unfold send. rewrite Hw1. specialize (Hpeer (request s1)).
  destruct (libfacet_platform_call handle (request s1) w) as [[m|code|] w2]; [| |done]; cbn [fst] in Hpeer.
  - destruct (after_reply_survives client_malloc (output_params params) outs' m
      (mkCall (request s1) (stale s1) (heap_allocations s1) (heap_live s1 + payload_blocks m) w2) live)
      as (x & s2 & E & Hx); try done; [cbn [heap_live]; rewrite Hl1; cbn [request]; lia|].
    exists x, s2. split; [exact E|]. destruct x; [|done|done]. destruct Hx as [Hlo Hlv]. by rewrite Hlo.
  - rewrite fbind_eq. rewrite free_request_eq by done. cbn [ferr]. eexists (Err code), _. split; [reflexivity|].
    cbn [heap_live free_blocks request]. rewrite Hl1. lia.
Qed.

(** A server that answers every request with one word too few and a truncated string. *)
Definition hostile : Platform nat := {|
  libfacet_platform_call := fun _ _ w => (Ok (mkMessage 1 0 0 [0] (Some [9; 0; 0; 0; 65]) 5 5 []), S w);
  libfacet_platform_handle_release := fun _ w => w
|}.

Lemma rpc_client_survives_witness :
  exists x s, libfacet_proxy_client_call (H := hostile) plenty (Some 1) (Some (mkMethod 3 lookup_params))
      (map Some lookup_args) 0 0 0%nat = (x, s) /\ x <> Fault.
Proof.
  destruct (rpc_client_survives (P := hostile) plenty 1 3 lookup_params lookup_args [] (le_bytes 4 4 ++ B "tty1") [] 0 0 0%nat
    (fun _ => eq_refl) lookup_inputs ltac:(vm_compute; repeat split; discriminate) ltac:(vm_compute; discriminate)
    ltac:(repeat constructor) ltac:(intros m; reflexivity)) as (x & s & E & Hx).
  exists x, s. split; [exact E|]. destruct x; [done|done|destruct Hx].
Defined.

(** A failed encoding can free the request twice: when an argument makes the
    payload grow before it turns out to be invalid, the message still points to the
    block that the growth released, and the error path frees it again. *)
Theorem rpc_request_freed_twice :
  fst (libfacet_proxy_client_call (H := hostile) plenty (Some 1)
         (Some (mkMethod 3 [mkParam FACET_TYPE_STRING FACET_PARAM_IN None; mkParam FACET_TYPE_STRING FACET_PARAM_IN None]))
         [Some (AValue (VString (Some (repeat 65 250)) 250)); Some (AValue (VString None 5))] 0 0 0%nat) = Fault.
Proof. vm_compute. reflexivity. Qed.

(** ** Hostile clients *)

(** Parameters that the interface compiler generates code for. *)
Definition supported (p : FacetParamMeta) : Prop := param_type p <> FACET_TYPE_BYTES.

Lemma supported_word p w :
  supported p -> payload_type (param_type p) = false -> param_type p <> FACET_TYPE_HANDLE ->
  param_type p <> FACET_TYPE_UUID -> exists a, word_argument (param_type p) w = Some a.
Proof. unfold supported. destruct (param_type p); intros; try done; eexists; reflexivity. Qed.

Section HostileClients.
Context {W : Type} (malloc_ok : nat -> bool) (Hmem : memory malloc_ok).

Lemma server_inputs_survive m params :
  params_ok params -> Forall supported params -> forall r, reader_ok m r ->
  Z.of_nat (next_word r) + input_words params = word_count m ->
  exists x r', server_inputs malloc_ok params m r = (x, r') /\ x <> Fault.
Proof.
  unfold params_ok. induction params as [|p ps IH]; intros Hps Hsup r Hr Hcount.
  { eexists _, _. split; [reflexivity|done]. }
  apply Forall_cons in Hps as [Hp Hps]. apply Forall_cons in Hsup as [Hs Hsup].
  unfold input_words in Hcount. cbn [map sum_Z fold_right] in Hcount. fold (sum_Z) in Hcount.
  change (fold_right Z.add 0) with sum_Z in Hcount. fold (input_words ps) in Hcount.
  cbn [server_inputs].
  assert (forall (rd : Eff Reader argument) (k : nat),
    (exists x r', rd r = (x, r') /\ match x with
       | Ok _ => reader_ok m r' /\ Z.of_nat (next_word r') + input_words ps = word_count m
       | Err _ => True | Fault => False end) ->
    exists x r', (run a <- rd; run rest <- server_inputs malloc_ok ps m; fret (a :: rest)) r = (x, r') /\ x <> Fault) as Hstep.
  { intros rd _ (x & r1 & E & Hx). rewrite fbind_eq, E. destruct x as [a|code|]; [|eexists _, _; split; [reflexivity|done]|done].
    destruct Hx as [Hr1 Hc1]. destruct (IH Hps Hsup r1 Hr1 Hc1) as (y & r2 & E2 & Hy). rewrite fbind_eq, E2.
    destruct y; [|eexists _, _; split; [reflexivity|done]|done]. eexists _, _. split; [reflexivity|done]. }
  apply (Hstep _ 0%nat). clear Hstep IH. unfold server_input.
  destruct (bool_decide (param_direction p = FACET_PARAM_OUT)) eqn:Ed; cbn [orb] in Hcount.
  { eexists _, _. split; [reflexivity|]. split; [done|lia]. }
  destruct (bool_decide (param_type p = FACET_TYPE_HANDLE)) eqn:Eh.
  { rewrite orb_true_r in Hcount. unfold take_handle. rewrite fbind_eq. cbn [fget].
    destruct (attachments m !! next_handle r) as [[[] h size]|]; eexists _, _; (split; [reflexivity|]); [|done|done].
    split; [exact Hr|]. simpl. lia. }
  destruct (payload_type (param_type p)) eqn:Et; cbn [orb] in Hcount.
  { destruct (survives_payload malloc_ok p m Hp Et r Hr) as (x & r1 & E & Hr1 & Hx). eexists _, _. split; [exact E|].
    destruct x; [|done|done]. split; [done|].
    assert (next_word r1 = next_word r) as ->; [|lia].
    unfold take_payload in E. destruct (facet_rpc_decode_value _ _ _ _) as [y c]. destruct (_ && _)%bool; simplify_eq.
    destruct y as [[[] ?]| |]; by simplify_eq. }
  rewrite fbind_eq. cbn [fget]. pose proof (sum_Z_nonneg (map (fun p =>
    if (bool_decide (param_direction p = FACET_PARAM_OUT) || payload_type (param_type p)
        || bool_decide (param_type p = FACET_TYPE_HANDLE))%bool then 0
    else if bool_decide (param_type p = FACET_TYPE_UUID) then 2 else 1) ps)) as Hnn.
  fold (input_words ps) in Hnn. specialize (Hnn ltac:(apply Forall_map, Forall_true; intros; simpl; repeat case_match; lia)).
  unfold word_count, zlen in Hcount.
  destruct (bool_decide (param_type p = FACET_TYPE_UUID)) eqn:Eu.
  - destruct (lookup_lt_is_Some_2 (words m) (next_word r)) as [w1 E1]; [lia|].
    destruct (lookup_lt_is_Some_2 (words m) (S (next_word r))) as [w2 E2]; [lia|].
    rewrite E1, E2. eexists _, _. split; [reflexivity|]. split; [exact Hr|]. simpl. unfold word_count, zlen. lia.
  - destruct (lookup_lt_is_Some_2 (words m) (next_word r)) as [w1 E1]; [lia|]. rewrite E1. rewrite fbind_eq.
    cbn [take_words fput]. bool_props. destruct (supported_word p w1 Hs Et Eh Eu) as [a Ea]. rewrite Ea.
    eexists _, _. split; [reflexivity|]. split; [exact Hr|]. simpl. unfold word_count, zlen. lia.
Qed.

(** Every call of an implementation yields outputs of the declared types that fit. *)
Definition implements (params : list FacetParamMeta) (impl : Method (W := W)) : Prop :=
  forall args w, exists ows ob ohs,
    outputs_sent (output_params params) (snd (fst (impl args w))) ows ob ohs /\
    fits_reply (u64 (code_of_result (fst (fst (impl args w)))) :: ows) ob ohs.

Definition object_ok (methods : list (FacetMethodMeta * option (Method (W := W)))) : Prop :=
  Forall (fun e => params_ok (method_parameters (fst e)) /\ Forall supported (method_parameters (fst e)) /\
            match snd e with Some impl => implements (method_parameters (fst e)) impl | None => True end) methods.

Lemma server_method_survives params impl m (s : Serving W) :
  payload_ok m -> params_ok params -> Forall supported params -> implements params impl ->
  words (reply s) = [] -> payload (reply s) = None -> payload_size (reply s) = 0 -> attachments (reply s) = [] ->
  flags (reply s) = 0 -> protocol_version (reply s) = FACET_RPC_PROTOCOL_VERSION ->
  reply_codec s = None -> reply_stale s = false ->
  exists code s', server_method malloc_ok params impl m s = (Ok code, s') /\ reply_stale s' = false /\
    (serving_world s' = serving_world s \/ exists args, serving_world s' = snd (impl args (serving_world s))).
Proof.
  intros Hm Hps Hsup Himpl Hw Hp Hsz Ha Hfl Hver Hc Hst. unfold server_method.
  destruct (word_count m =? input_words params) eqn:Ew; cbn [negb]; [|eexists _, _; split; [reflexivity|]; by auto].
  bool_props. unfold serving_read.
  destruct (server_inputs_survive m params Hps Hsup _ (reader_start m 0 (serving_allocations s) (serving_live s) Hm))
    as (x & r & E & Hx); [simpl; lia|]. rewrite E.
  destruct x as [args|code|]; [|eexists _, _; split; [reflexivity|]; by auto|done].
  rewrite fbind_eq. unfold call_method. cbn [serving_world]. destruct (Himpl args (serving_world s)) as (ows & ob & ohs & Hout & Hfit).
  destruct (impl args (serving_world s)) as [[code outs] w'] eqn:Ei. cbn [fst snd] in *.
  rewrite fbind_eq. cbn [fput]. rewrite fbind_eq, fcatch_eq. set (s0 := set_reply _ _).
  destruct (server_outputs_ok malloc_ok Hmem _ _ _ _ _ Hout s0 [u64 (code_of_result code)] [] []
    (codec_live (reader_codec r)) w') as (s1 & E1 & [_ _ Hst1 _ Hw1]); [|done|].
  { split; [split|..]; try done; unfold payload_bytes, payload_blocks; cbn; rewrite ?Hp, ?Hc; try done. simpl. lia. }
  rewrite E1. rewrite bool_decide_true by done. rewrite fbind_eq. cbn [fput fret]. eexists _, _. split; [reflexivity|].
  split; [done|]. right. exists args. cbn [serving_world]. by rewrite Ei, Hw1.
Qed.

End HostileClients.

(** C17: A hostile client cannot crash a server whose own side behaves: when no
    allocation of the server fails and every method of the object returns outputs of
    the declared types that fit a reply, then whatever words, payload bytes,
    attachments and method number a request has, as long as its payload pointer covers
    the announced size, the server produces a reply without a fault and has called at
    most one method of the object, at most once.  Memory is a real condition:
    [rpc_reply_used_after_free] is a fault of a server that runs out of it. *)
Theorem rpc_server_survives {W} (malloc_ok : nat -> bool) (methods : list (FacetMethodMeta * option (Method (W := W))))
    (m : FacetRpcMessage) (n : nat) (live : Z) (w : W)
    (Hmem : memory malloc_ok) (Hobject : object_ok methods) (Hm : payload_ok m) :
  exists s, serve malloc_ok methods m n live w = (Ok tt, s) /\ words (reply s) <> [] /\
    (serving_world s = w \/
     exists meta impl args, (meta, Some impl) ∈ methods /\ method_method_id meta = method_id m /\
       serving_world s = snd (impl args w)).
Proof.
  unfold serve, common_dispatch. set (start := mkServing _ _ _ _ _ _).
  assert (forall code (s : Serving W), reply_stale s = false ->
    exists s', (if reply_stale s then (Fault, s)
      else (Ok tt, if bool_decide (words (reply s) = []) then set_reply (set_words [u64 (code_of_result code)]) s else s)) = (Ok tt, s') /\
      words (reply s') <> [] /\ serving_world s' = serving_world s) as Hend.
  { intros code s Hs. rewrite Hs. eexists. split; [reflexivity|]. case_bool_decide; [split; done|split; done]. }
  destruct (find_method methods (method_id m)) as [[meta [impl|]]|] eqn:Ef.
  - apply find_some in Ef as [Hin Hid]. apply list_elem_of_In in Hin. bool_props. cbn [fst] in Hid.
    unfold object_ok in Hobject. rewrite Forall_forall in Hobject. destruct (Hobject _ Hin) as (Hps & Hsup & Himpl). cbn [fst snd] in *.
    destruct (server_method_survives malloc_ok Hmem (method_parameters meta) impl m start Hm Hps Hsup Himpl)
      as (code & s & E & Hst & Hw); try done. rewrite E. destruct (Hend code s Hst) as (s' & -> & Hne & Hw').
    exists s'. split; [done|]. split; [done|]. rewrite Hw'. destruct Hw as [Hw|[args Hw]]; [by left|right].
    exists meta, impl, args. done.
  - destruct (Hend FACET_NO_SUCH_METHOD start eq_refl) as (s' & Es & Hne & Hw'). exists s'. split; [exact Es|]. split; [done|]. by left.
  - destruct (Hend FACET_NO_SUCH_METHOD start eq_refl) as (s' & Es & Hne & Hw'). exists s'. split; [exact Es|]. split; [done|]. by left.
Qed.

Lemma rpc_server_survives_witness :
  exists s, serve plenty lookup_methods (mkMessage 1 3 77 [] (Some [255; 255; 255; 255]) 4 4 []) 0 0 0%nat = (Ok tt, s) /\
    words (reply s) <> [].
Proof.
  destruct (rpc_server_survives plenty lookup_methods (mkMessage 1 3 77 [] (Some [255; 255; 255; 255]) 4 4 []) 0 0 0%nat
    (fun _ => eq_refl)) as (s & E & Hw & _); [|reflexivity|exists s; split; [exact E|exact Hw]].
  constructor; [|constructor]. split; [repeat constructor|]. split; [repeat constructor; discriminate|].
  intros args w. exists [7], [], [41]. split; [exact lookup_outputs|]. vm_compute. repeat split; discriminate.
Defined.

(** A server that runs out of memory uses a freed reply: an output that makes the
    payload grow before an allocation fails leaves the reply with a pointer to the
    block that the growth released, and the reply is still sent. *)
Theorem rpc_reply_used_after_free :
  fst (serve (fun n => negb (n =? 2)%nat)
         [(mkMethod 3 [mkParam FACET_TYPE_STRING FACET_PARAM_OUT None; mkParam FACET_TYPE_STRING FACET_PARAM_OUT None],
           Some (fun _ (w : nat) => ((FACET_OK, [AValue (VString (Some (repeat 65 250)) 250);
                                                 AValue (VString (Some (repeat 65 300)) 300)]), w)))]
         (mkMessage 1 3 0 [] None 0 0 []) 0 0 0%nat) = Fault.
Proof. vm_compute. reflexivity. Qed.
