(* ===== verification/Wire.v ===== *)
(** The message transport over seL4 IPC: the layout of requests and replies in the
    message registers, written and read by three files of src/libfacet/src/platform/sel4:
    platform.c (both sides), client.c (calling processes) and service.c (serving
    processes).

    A register write outside the IPC buffer is a fault.  [seL4_MsgMaxLength] and
    [seL4_MsgMaxExtraCaps] come from the kernel's headers; [endpoint] is the capability
    behind a handle of the sender, [received] the handle that the receiver makes of it;
    [malloc_ok], [frame_ok] and [map_ok] answer allocations and mappings. *)
From S2P Require Import Prelude Effects Codec Rpc.

Definition FACET_SEL4_FLAG_SHARED_PAYLOAD : Z := 2 ^ 31.
Definition FACET_SEL4_BUFFER_COUNT_SHIFT : Z := 24.
Definition FACET_SEL4_BUFFER_COUNT_MASK : Z := 127.
Definition FACET_SEL4_MAX_ATTACHMENTS : Z := 1.
Definition page_size : Z := 4096.

Inductive cap := CapNull | CapEndpoint (endpoint : Z) | CapFrame (contents : bytes).

#[global] Instance cap_eq_dec : EqDecision cap.
Proof. solve_decision. Defined.

Record MessageInfo := mkInfo { info_extra_caps : Z; info_length : Z }.

(** The IPC buffer of a thread. *)
Record Ipc := mkIpc { mrs : list Z; ipc_caps : list cap }.

Definition wire_word_count (size : Z) : Z :=
  if SIZE_MAX - 7 <? size then SIZE_MAX else (size + 7) / 8.

(** [service.c]: the same without the check. *)
Definition wire_words (size : Z) : Z := u64 (size + 7) / 8.

(** The [i]-th word of a payload, its missing bytes zero. *)
Definition payload_word (data : bytes) (i : nat) : Z := le_value (firstn 8 (skipn (8 * i) data)).

Definition payload_words (data : bytes) (n : Z) : list Z := map (payload_word data) (seq 0 (Z.to_nat n)).

Definition shared (flags : Z) : bool := negb (Z.land flags FACET_SEL4_FLAG_SHARED_PAYLOAD =? 0).

Definition buffer_count_of (flags : Z) : Z :=
  if shared flags then Z.land (Z.shiftr flags FACET_SEL4_BUFFER_COUNT_SHIFT) FACET_SEL4_BUFFER_COUNT_MASK else 0.

(** ** The IPC buffer *)

Definition set_mr (i : nat) (w : Z) : Eff Ipc unit := fun s =>
  if bool_decide (i < length (mrs s))%nat then (Ok tt, mkIpc (<[i := w]> (mrs s)) (ipc_caps s)) else (Fault, s).

Definition set_cap (i : nat) (c : cap) : Eff Ipc unit := fun s =>
  if bool_decide (i < length (ipc_caps s))%nat then (Ok tt, mkIpc (mrs s) (<[i := c]> (ipc_caps s))) else (Fault, s).

Fixpoint set_mrs (i : nat) (l : list Z) : Eff Ipc unit :=
  match l with [] => fret tt | w :: rest => set_mr i w ;; set_mrs (S i) rest end.

Fixpoint set_caps (i : nat) (l : list cap) : Eff Ipc unit :=
  match l with [] => fret tt | c :: rest => set_cap i c ;; set_caps (S i) rest end.

Definition get_mr (i : nat) : Eff Ipc Z := fun s =>
  match mrs s !! i with Some w => (Ok w, s) | None => (Fault, s) end.

Fixpoint get_mrs (i n : nat) : Eff Ipc (list Z) :=
  match n with
  | O => fret []
  | S k => run w <- get_mr i; run rest <- get_mrs (S i) k; fret (w :: rest)
  end.

(** The bytes of payload words, cut to the announced size. *)
Definition words_payload (l : list Z) (size : Z) : bytes := firstn (Z.to_nat size) (concat (map (le_bytes 8) l)).

Section Transport.
Context (seL4_MsgMaxLength seL4_MsgMaxExtraCaps : Z) (endpoint received : Z -> Z).
Context (malloc_ok frame_ok map_ok handle_ok : bool).

(** The capability behind an attachment; [frames] are the payload pages. *)
Definition attachment_cap (frames : list bytes) (a : FacetRpcAttachment) : cap :=
  match attachment_kind a with
  | FACET_RPC_ATTACHMENT_HANDLE =>
      if attachment_handle a =? 0 then CapNull else CapEndpoint (endpoint (attachment_handle a))
  | FACET_RPC_ATTACHMENT_BUFFER => match frames with f :: _ => CapFrame f | [] => CapNull end
  end.

(** The payload that [memcpy] reads: as many bytes as announced. *)
Definition payload_data (m : FacetRpcMessage) : Eff Ipc bytes :=
  match payload m with
  | Some data => if zlen data <? payload_size m then ffault else fret (firstn (Z.to_nat (payload_size m)) data)
  | None => fret []
  end.

(** ** Requests *)

(** A payload that does not fit inline goes into a page that is sent along; the
    pages are returned, the message is changed in place. *)
Definition bulk_prepare : Eff FacetRpcMessage (list bytes) := fun m =>
  if (negb (payload_size m =? 0) && bool_decide (payload m = None))%bool then (Err FACET_INVALID_ARGUMENT, m)
  else if payload_size m <=? FACET_RPC_MAX_INLINE_PAYLOAD then (Ok [], m)
  else
    let pages := if SIZE_MAX - page_size + 1 <? payload_size m then SIZE_MAX
                 else (payload_size m + page_size - 1) / page_size in
    if ((pages =? SIZE_MAX) || (FACET_SEL4_MAX_ATTACHMENTS <? pages)
        || (FACET_SEL4_MAX_ATTACHMENTS - pages <? attachment_count m))%bool then (Err FACET_BUFFER_TOO_SMALL, m)
    else
      let flags := Z.lor (Z.land (Z.lor (flags m) FACET_SEL4_FLAG_SHARED_PAYLOAD)
                            (u32 (Z.lnot (Z.shiftl FACET_SEL4_BUFFER_COUNT_MASK FACET_SEL4_BUFFER_COUNT_SHIFT))))
                     (Z.shiftl pages FACET_SEL4_BUFFER_COUNT_SHIFT) in
      let flagged := set_flags flags m in
      let data := default [] (payload m) in
      if negb frame_ok then (Err FACET_OUT_OF_MEMORY, flagged)
      else if negb map_ok then (Err FACET_ERROR, flagged)
      else if zlen data <? payload_size m then (Fault, flagged)
      else
        (Ok [firstn (Z.to_nat (payload_size m)) data ++ repeat 0 (Z.to_nat (page_size - payload_size m))],
         set_attachments (attachments m ++ [mkAttachment FACET_RPC_ATTACHMENT_BUFFER 0 (payload_size m)]) flagged).

Definition message_from_request (m : FacetRpcMessage) (frames : list bytes) : Eff Ipc MessageInfo :=
  let n := if shared (flags m) then 0 else wire_word_count (payload_size m) in
  if ((FACET_RPC_MAX_WORDS <? word_count m) || (n =? SIZE_MAX) || (SIZE_MAX - n - 3 <? word_count m)
      || (seL4_MsgMaxLength <? word_count m + n + 3) || (FACET_SEL4_MAX_ATTACHMENTS <? attachment_count m)
      || negb (payload_size m =? 0) && bool_decide (payload m = None))%bool
  then ferr FACET_INVALID_ARGUMENT
  else
    set_mrs 0 [method_id m; protocol_version m; flags m; payload_size m] ;;
    set_mrs 4 (words m) ;;
    run data <- payload_data m;
    set_mrs (4 + length (words m)) (payload_words data n) ;;
    set_caps 0 (map (attachment_cap frames) (attachments m)) ;;
    fret (mkInfo (attachment_count m) (word_count m + n + 4)).

(** [remote_call] up to the system call. *)
Definition platform_send (method : Z) (m : FacetRpcMessage) : Eff Ipc MessageInfo :=
  let m := if method =? 0 then m else set_method_id method m in
  match bulk_prepare m with
  | (Ok frames, m') => message_from_request m' frames
  | (Err code, _) => ferr code
  | (Fault, _) => ffault
  end.

(** [client.c]: [libfacet_platform_call] up to the system call. *)
Definition client_send (m : FacetRpcMessage) : Eff Ipc MessageInfo :=
  let n := wire_word_count (payload_size m) in
  if (negb (payload_size m =? 0) && bool_decide (payload m = None)
      || (FACET_RPC_MAX_ATTACHMENTS <? attachment_count m) || (seL4_MsgMaxExtraCaps <? attachment_count m)
      || (n =? SIZE_MAX) || (FACET_RPC_MAX_INLINE_PAYLOAD <? payload_size m)
      || (FACET_RPC_MAX_WORDS <? word_count m) || (seL4_MsgMaxLength - 4 <? word_count m)
      || (seL4_MsgMaxLength - 4 - word_count m <? n))%bool
  then ferr FACET_NOT_SUPPORTED
  else if existsb (fun a => negb (bool_decide (attachment_kind a = FACET_RPC_ATTACHMENT_HANDLE))
                            || (attachment_handle a =? 0))%bool (attachments m)
  then ferr FACET_NOT_SUPPORTED
  else
    set_caps 0 (map (attachment_cap []) (attachments m)) ;;
    set_mrs 4 (words m) ;;
    set_mrs 0 [method_id m; protocol_version m; flags m; payload_size m] ;;
    run data <- payload_data m;
    set_mrs (4 + length (words m)) (payload_words data n) ;;
    fret (mkInfo (attachment_count m) (4 + word_count m + n)).

(** A received payload, in a block of its own when it is not empty. *)
Definition received_payload (i : nat) (n size : Z) : Eff Ipc (option bytes) :=
  run l <- get_mrs i (Z.to_nat n);
  if size =? 0 then fret None
  else if negb malloc_ok then ferr FACET_OUT_OF_MEMORY
  else fret (Some (words_payload l size)).

Definition request_from_message (info : MessageInfo) : Eff Ipc FacetRpcMessage :=
  run id <- get_mr 0;
  run version <- get_mr 1;
  run fl <- get_mr 2;
  run size <- get_mr 3;
  if negb (u32 version =? FACET_RPC_PROTOCOL_VERSION) then ferr FACET_PROTOCOL_ERROR
  else
    let is_shared := shared (u32 fl) in
    let n := if is_shared then 0 else wire_word_count size in
    if n =? SIZE_MAX then ferr FACET_PROTOCOL_ERROR
    else
      let available := if 4 <=? info_length info then info_length info - 4 else 0 in
      if ((available <? n) || (seL4_MsgMaxLength - 4 <? n))%bool then ferr FACET_PROTOCOL_ERROR
      else if (negb is_shared && (seL4_MsgMaxLength * 8 <? size))%bool then ferr FACET_PROTOCOL_ERROR
      else
        let count := available - n in
        if FACET_RPC_MAX_WORDS <? count then ferr FACET_PROTOCOL_ERROR
        else
          run ws <- get_mrs 4 (Z.to_nat count);
          run data <- (if is_shared then fret None else received_payload (4 + Z.to_nat count) n size);
          fret (mkMessage (u32 version) (u32 id) (u32 fl) ws data size
                  (match data with Some _ => size | None => 0 end) []).

(** Copy a payload out of the pages that were sent along. *)
Definition bulk_read_received (m : FacetRpcMessage) (first_buffer buffer_count : Z) (caps : list cap)
  : result FacetRpcMessage :=
  if negb (shared (flags m)) then Ok m
  else if ((buffer_count =? 0) || (payload_size m =? 0) || (FACET_SEL4_MAX_ATTACHMENTS <? buffer_count)
           || (attachment_count m <? first_buffer + buffer_count))%bool then Err FACET_PROTOCOL_ERROR
  else if buffer_count * page_size <? payload_size m then Err FACET_PROTOCOL_ERROR
  else if negb malloc_ok then Err FACET_OUT_OF_MEMORY
  else match caps with
       | CapFrame page :: _ =>
           if negb map_ok then Err FACET_ERROR
           else Ok (set_payload (Some (firstn (Z.to_nat (payload_size m)) page)) (payload_size m) (payload_size m) m)
       | _ => Err FACET_ERROR
       end.

(** The attachment that a received capability becomes. *)
Definition received_attachment (is_buffer : bool) (c : cap) : FacetRpcAttachment :=
  if (is_buffer || negb handle_ok)%bool then mkAttachment FACET_RPC_ATTACHMENT_BUFFER 0 0
  else mkAttachment FACET_RPC_ATTACHMENT_HANDLE (match c with CapEndpoint e => received e | _ => received 0 end) 0.

(** [facet_sel4_server_entry] up to the dispatch; [caps] are the capabilities that
    the kernel delivered. *)
Definition server_receive (info : MessageInfo) (caps : list cap) : Eff Ipc FacetRpcMessage :=
  run m <- request_from_message info;
  let extra := Z.min (info_extra_caps info) FACET_SEL4_MAX_ATTACHMENTS in
  let buffers := buffer_count_of (flags m) in
  if extra <? buffers then ferr FACET_PROTOCOL_ERROR
  else
    let m := set_attachments (map (received_attachment (negb (buffers =? 0))) (firstn (Z.to_nat extra) caps)) m in
    if buffers =? 0 then fret m
    else flift (bulk_read_received m (extra - buffers) buffers caps).

(** [service.c]: [decode_request]. *)
Definition decode_request (info : MessageInfo) (caps : list cap) : Eff Ipc FacetRpcMessage :=
  if info_length info <? 4 then ferr FACET_PROTOCOL_ERROR
  else
    run id <- get_mr 0;
    run version <- get_mr 1;
    run fl <- get_mr 2;
    run size <- get_mr 3;
    if (negb (u32 version =? FACET_RPC_PROTOCOL_VERSION) || (FACET_RPC_MAX_INLINE_PAYLOAD <? size))%bool
    then ferr FACET_PROTOCOL_ERROR
    else
      let n := wire_words size in
      if info_length info - 4 <? n then ferr FACET_PROTOCOL_ERROR
      else
        let count := info_length info - 4 - n in
        if FACET_RPC_MAX_WORDS <? count then ferr FACET_PROTOCOL_ERROR
        else
          run ws <- get_mrs 4 (Z.to_nat count);
          run data <- received_payload (4 + Z.to_nat count) n size;
          if 1 <? info_extra_caps info then ferr FACET_PROTOCOL_ERROR
          else
            let m := mkMessage (u32 version) (u32 id) (u32 fl) ws data size
                       (match data with Some _ => size | None => 0 end) [] in
            if info_extra_caps info =? 1 then
              if negb handle_ok then ferr FACET_OUT_OF_MEMORY
              else fret (set_attachments (map (received_attachment false) (firstn 1 caps)) m)
            else fret m.

(** ** Replies *)

Definition error_reply (code : FacetResult) : Eff Ipc MessageInfo :=
  set_mrs 0 [u32 (code_of_result code); FACET_RPC_PROTOCOL_VERSION; 0; 0] ;; fret (mkInfo 0 4).

Definition reply_to_message (m : FacetRpcMessage) (frames : list bytes) : Eff Ipc MessageInfo :=
  let n := wire_word_count (payload_size m) in
  let len := u64 (word_count m + n + 3) in
  if ((n =? SIZE_MAX) || (len <? word_count m) || (seL4_MsgMaxLength <? len)
      || negb (payload_size m =? 0) && bool_decide (payload m = None))%bool then error_reply FACET_BUFFER_TOO_SMALL
  else if FACET_SEL4_MAX_ATTACHMENTS <? attachment_count m then error_reply FACET_BUFFER_TOO_SMALL
  else
    set_mrs 0 [default 0 (head (words m)); FACET_RPC_PROTOCOL_VERSION; flags m; payload_size m] ;;
    set_mrs 4 (tail (words m)) ;;
    run data <- payload_data m;
    set_mrs (length (words m) + 3) (payload_words data n) ;;
    set_caps 0 (map (attachment_cap frames) (attachments m)) ;;
    fret (mkInfo (attachment_count m) len).

(** [facet_sel4_server_entry] after the dispatch. *)
Definition server_reply (m : FacetRpcMessage) : Eff Ipc MessageInfo :=
  match bulk_prepare m with
  | (Ok frames, m') => reply_to_message m' frames
  | (Err _, m') => reply_to_message
      (set_words [u64 (code_of_result FACET_BUFFER_TOO_SMALL)] (set_attachments [] (set_payload None 0 0 m'))) []
  | (Fault, _) => ffault
  end.

(** [service.c]: [encode_reply], for a reply that has its result word. *)
Definition encode_reply (m : FacetRpcMessage) : Eff Ipc MessageInfo :=
  let n := wire_words (payload_size m) in
  let refuse := ((FACET_RPC_MAX_INLINE_PAYLOAD <? payload_size m) || (word_count m =? 0)
                 || (FACET_RPC_MAX_WORDS <? word_count m - 1) || (seL4_MsgMaxLength <? 4 + word_count m - 1 + n)
                 || (1 <? attachment_count m))%bool in
  let m := if refuse then set_words [u64 (code_of_result FACET_BUFFER_TOO_SMALL)]
                            (set_attachments [] (set_payload (payload m) 0 (payload_capacity m) m)) else m in
  let n := if refuse then 0 else n in
  set_mrs 0 [default 0 (head (words m)); FACET_RPC_PROTOCOL_VERSION; flags m; payload_size m] ;;
  set_mrs 4 (tail (words m)) ;;
  run data <- payload_data m;
  set_mrs (3 + length (words m)) (payload_words data n) ;;
  set_caps 0 (map (attachment_cap []) (attachments m)) ;;
  fret (mkInfo (attachment_count m) (3 + word_count m + n)).

(** [remote_call] after the system call. *)
Definition platform_reply (info : MessageInfo) (caps : list cap) : Eff Ipc FacetRpcMessage :=
  run version <- get_mr 1;
  run fl <- get_mr 2;
  run size <- get_mr 3;
  if negb (u32 version =? FACET_RPC_PROTOCOL_VERSION) then ferr FACET_PROTOCOL_ERROR
  else
    let is_shared := shared (u32 fl) in
    let n := if is_shared then 0 else wire_word_count size in
    if n =? SIZE_MAX then ferr FACET_PROTOCOL_ERROR
    else
      let available := if 4 <=? info_length info then info_length info - 4 else 0 in
      let count := 1 + (if n <=? available then available - n else 0) in
      if FACET_RPC_MAX_WORDS <? count then ferr FACET_PROTOCOL_ERROR
      else
        run first <- get_mr 0;
        run rest <- get_mrs 4 (Z.to_nat (count - 1));
        run data <- (if (negb is_shared && negb (size =? 0) && (n <=? available))%bool
                     then received_payload (4 + Z.to_nat count - 1) n size else fret None);
        let extra := Z.min (info_extra_caps info) FACET_SEL4_MAX_ATTACHMENTS in
        let buffers := buffer_count_of (u32 fl) in
        if extra <? buffers then ferr FACET_PROTOCOL_ERROR
        else if ((buffers =? 0) && negb (extra =? 0) && negb handle_ok)%bool then ferr FACET_OUT_OF_MEMORY
        else
          let m := mkMessage (u32 version) 0 (u32 fl) (first :: rest) data size
                     (match data with Some _ => size | None => 0 end)
                     (map (received_attachment (negb (buffers =? 0))) (firstn (Z.to_nat extra) caps)) in
          if buffers =? 0 then fret m else flift (bulk_read_received m (extra - buffers) buffers caps).

(** [client.c]: [libfacet_platform_call] after the system call. *)
Definition client_reply (info : MessageInfo) (caps : list cap) : Eff Ipc FacetRpcMessage :=
  if (1 <? info_extra_caps info) || (info_length info <? 4) then ferr FACET_PROTOCOL_ERROR
  else
    run version <- get_mr 1;
    run fl <- get_mr 2;
    run size <- get_mr 3;
    if (shared (u32 fl) || (FACET_RPC_MAX_INLINE_PAYLOAD <? size))%bool then ferr FACET_NOT_SUPPORTED
    else
      let n := wire_word_count size in
      let available := info_length info - 4 in
      if ((n =? SIZE_MAX) || (available <? n))%bool then ferr FACET_PROTOCOL_ERROR
      else
        let count := 1 + available - n in
        if FACET_RPC_MAX_WORDS <? count then ferr FACET_PROTOCOL_ERROR
        else
          run first <- get_mr 0;
          run rest <- get_mrs 4 (Z.to_nat (count - 1));
          if negb (u32 version =? FACET_RPC_PROTOCOL_VERSION) then ferr FACET_PROTOCOL_ERROR
          else
            run data <- received_payload (4 + Z.to_nat count - 1) n size;
            if (negb (info_extra_caps info =? 0) && negb handle_ok)%bool then ferr FACET_OUT_OF_MEMORY
            else fret (mkMessage (u32 version) 0 (u32 fl) (first :: rest) data size
                         (match data with Some _ => size | None => 0 end)
                         (map (received_attachment false) (firstn (Z.to_nat (info_extra_caps info)) caps))).

End Transport.
