(* ===== verification/WireFacts.v ===== *)
(** The transport keeps its contract: the three implementations write and read the
    same registers, so a message sent by either client arrives at either server and
    its reply comes back; what the readers accept from arbitrary registers; and the
    messages that the transport loses. *)
From S2P Require Import Prelude Effects Codec CodecFacts Rpc RpcFacts Wire.

(** ** Registers *)

Lemma set_mrs_at l s pre old post :
  mrs s = pre ++ old ++ post -> length old = length l ->
  set_mrs (length pre) l s = (Ok tt, mkIpc (pre ++ l ++ post) (ipc_caps s)).
Proof.
  revert s pre old. induction l as [|w l IH]; intros s pre old Hs Hlen.
  - destruct old; [|done]. simpl. unfold fret. destruct s as [r c]. simpl in *. by rewrite Hs.
  - destruct old as [|o old]; [done|]. cbn [set_mrs]. rewrite fbind_eq. unfold set_mr.
    rewrite bool_decide_true by (rewrite Hs, length_app; simpl; lia).
    rewrite Hs, insert_app_r_alt by lia. rewrite Nat.sub_diag. cbn [app]. simpl (<[0%nat := w]> _).
    replace (S (length pre)) with (length (pre ++ [w])) by (rewrite length_app; simpl; lia).
    rewrite (IH _ (pre ++ [w]) old); [|simpl; by rewrite <- app_assoc|simpl in Hlen; lia].
    simpl. by rewrite <- app_assoc.
Qed.

Lemma set_mrs_start l s old post :
  mrs s = old ++ post -> length old = length l -> set_mrs 0 l s = (Ok tt, mkIpc (l ++ post) (ipc_caps s)).
Proof. apply (set_mrs_at l s []). Qed.

Lemma set_caps_at l s pre old post :
  ipc_caps s = pre ++ old ++ post -> length old = length l ->
  set_caps (length pre) l s = (Ok tt, mkIpc (mrs s) (pre ++ l ++ post)).
Proof.
  revert s pre old. induction l as [|w l IH]; intros s pre old Hs Hlen.
  - destruct old; [|done]. simpl. unfold fret. destruct s as [r c]. simpl in *. by rewrite Hs.
  - destruct old as [|o old]; [done|]. cbn [set_caps]. rewrite fbind_eq. unfold set_cap.
    rewrite bool_decide_true by (rewrite Hs, length_app; simpl; lia).
    rewrite Hs, insert_app_r_alt by lia. rewrite Nat.sub_diag. cbn [app]. simpl (<[0%nat := w]> _).
    replace (S (length pre)) with (length (pre ++ [w])) by (rewrite length_app; simpl; lia).
    rewrite (IH _ (pre ++ [w]) old); [|simpl; by rewrite <- app_assoc|simpl in Hlen; lia].
    simpl. by rewrite <- app_assoc.
Qed.

Lemma get_mr_at s pre w post i : mrs s = pre ++ w :: post -> i = length pre -> get_mr i s = (Ok w, s).
Proof. intros Hs ->. unfold get_mr. by rewrite Hs, list_lookup_middle. Qed.

Lemma get_mrs_at s pre l post i n :
  mrs s = pre ++ l ++ post -> i = length pre -> n = length l -> get_mrs i n s = (Ok l, s).
Proof.
  revert pre i n. induction l as [|w l IH]; intros pre i n Hs -> ->; [done|]. cbn [length get_mrs].
  rewrite fbind_eq, (get_mr_at _ pre w (l ++ post)) by done. rewrite fbind_eq.
  rewrite (IH (pre ++ [w])); [done|by rewrite Hs, <- app_assoc|rewrite length_app; simpl; lia|done].
Qed.

(** Four parts of a buffer that is long enough. *)
Lemma split_three {A} (l : list A) n1 n2 n3 :
  (n1 + n2 + n3 <= length l)%nat ->
  exists a b c d, l = a ++ b ++ c ++ d /\ length a = n1 /\ length b = n2 /\ length c = n3.
Proof.
  intros H. exists (firstn n1 l), (firstn n2 (skipn n1 l)), (firstn n3 (skipn n2 (skipn n1 l))), (skipn n3 (skipn n2 (skipn n1 l))).
  rewrite !firstn_skipn. rewrite !length_firstn, !length_skipn. repeat split; lia.
Qed.

(** ** Payload words *)

Lemma le_bytes_pad n c : bytes_ok c -> (length c <= n)%nat -> le_bytes n (le_value c) = c ++ repeat 0 (n - length c).
Proof.
  revert c. induction n as [|n IH]; intros c Hc Hn; [by destruct c; [|simpl in Hn; lia]|].
  destruct c as [|x c].
  - simpl. f_equal. specialize (IH [] ltac:(done) ltac:(simpl; lia)). simpl in IH. rewrite Nat.sub_0_r in IH. exact IH.
  - apply Forall_cons in Hc as [Hx Hc]. simpl in Hn. cbn [le_bytes le_value length app].
    unfold byte_ok in Hx. rewrite Z.lor_comm, lor_shiftl_add by lia. unfold u8. change (2 ^ 8) with 256.
    rewrite Z.add_comm, Z.mod_add, Z.mod_small by lia. f_equal. rewrite Z.shiftr_div_pow2 by lia. change (2 ^ 8) with 256.
    rewrite Z.div_add, Z.div_small by lia. by apply IH; [|lia].
Qed.

Lemma payload_words_cons data n :
  payload_words data (Z.of_nat (S n)) = payload_word data 0 :: payload_words (skipn 8 data) (Z.of_nat n).
Proof.
  unfold payload_words. rewrite !Nat2Z.id. cbn [seq map]. f_equal. rewrite <- seq_shift, map_map. apply map_ext.
  intros i. unfold payload_word. rewrite skipn_skipn. by replace (8 * S i)%nat with (8 * i + 8)%nat by lia.
Qed.

Lemma words_payload_roundtrip data n :
  bytes_ok data -> zlen data <= 8 * Z.of_nat n -> words_payload (payload_words data (Z.of_nat n)) (zlen data) = data.
Proof.
  unfold words_payload, zlen. rewrite Nat2Z.id. revert data. induction n as [|n IH]; intros data Hb Hl.
  - destruct data; [done|simpl in Hl; lia].
  - rewrite payload_words_cons. cbn [map concat]. unfold payload_word. rewrite Nat.mul_0_r, drop_0.
    rewrite le_bytes_pad; [|by apply Forall_take|rewrite length_firstn; lia]. rewrite length_firstn.
    destruct (decide (length data <= 8)%nat) as [Hle|Hgt].
    + rewrite (firstn_all2 data) by lia. rewrite <- app_assoc. apply take_app_length.
    + rewrite (Nat.min_l 8 (length data)) by lia. cbn [Nat.sub repeat]. rewrite app_nil_r. rewrite firstn_app, length_firstn, Nat.min_l by lia.
      rewrite firstn_firstn, Nat.min_r by lia. specialize (IH (skipn 8 data) (Forall_drop _ _ _ Hb)).
      rewrite length_skipn in IH. rewrite IH by lia. apply firstn_skipn.
Qed.

Lemma payload_words_length data n : 0 <= n -> zlen (payload_words data n) = n.
Proof. intros Hn. unfold payload_words, zlen. rewrite length_map, length_seq. lia. Qed.

Lemma words_count_small size : 0 <= size <= 4096 -> wire_word_count size = (size + 7) / 8 /\ wire_words size = (size + 7) / 8.
Proof.
  intros Hs. unfold wire_word_count, wire_words, SIZE_MAX, u64. rewrite (proj2 (Z.ltb_ge _ _)) by lia.
  rewrite Z.mod_small by lia. done.
Qed.

Lemma words_cover size : 0 <= size -> size <= 8 * ((size + 7) / 8) /\ 0 <= (size + 7) / 8.
Proof. intros Hs. dlia. Qed.

Lemma inline_words_bound size : 0 <= size <= 512 -> 0 <= (size + 7) / 8 <= 64.
Proof. intros Hs. dlia. Qed.

(** Decide the size checks of a writer or reader from the context. *)
Ltac refute_checks := repeat (rewrite (proj2 (Z.ltb_ge _ _)) by lia); repeat (rewrite (proj2 (Z.eqb_neq _ _)) by lia).

(** ** Writing *)

Section Interop.
Context (seL4_MsgMaxLength seL4_MsgMaxExtraCaps : Z) (endpoint received : Z -> Z).
Context (Hcaps : 1 <= seL4_MsgMaxExtraCaps).

Definition message_words (m : FacetRpcMessage) : list Z := payload_words (payload_bytes m) ((payload_size m + 7) / 8).

(** The registers of a request and of a reply. *)
Definition request_image (m : FacetRpcMessage) : list Z :=
  [method_id m; protocol_version m; flags m; payload_size m] ++ words m ++ message_words m.
Definition reply_image (m : FacetRpcMessage) : list Z :=
  [default 0 (head (words m)); FACET_RPC_PROTOCOL_VERSION; flags m; payload_size m] ++ tail (words m) ++ message_words m.

(** Messages that travel inline: at most 512 payload bytes and one handle. *)
Record inline_ok (m : FacetRpcMessage) : Prop := {
  inline_words : word_count m <= FACET_RPC_MAX_WORDS;
  inline_payload : payload_ok m;
  inline_bytes : bytes_ok (payload_bytes m);
  inline_size : payload_size m <= FACET_RPC_MAX_INLINE_PAYLOAD;
  inline_flags : flags m = 0;
  inline_version : protocol_version m = FACET_RPC_PROTOCOL_VERSION;
  inline_handles : exists hs, attachments m = map handle_attachment hs /\ zlen hs <= 1
}.

Definition request_fits (m : FacetRpcMessage) : Prop :=
  inline_ok m /\ (0 <= method_id m < 2 ^ 32 /\ Forall (fun a => attachment_handle a <> 0) (attachments m)) /\
  4 + word_count m + (payload_size m + 7) / 8 <= seL4_MsgMaxLength.

Definition reply_fits (m : FacetRpcMessage) : Prop :=
  inline_ok m /\ words m <> [] /\ 3 + word_count m + (payload_size m + 7) / 8 <= seL4_MsgMaxLength.

Definition buffer_ok (s : Ipc) : Prop :=
  zlen (mrs s) = seL4_MsgMaxLength /\ zlen (ipc_caps s) = seL4_MsgMaxExtraCaps.

(** The buffer after a message has been written. *)
Definition written (m : FacetRpcMessage) (image : list Z) (s : Ipc) : Prop :=
  (exists post, mrs s = image ++ post) /\
  (exists post, ipc_caps s = map (attachment_cap endpoint []) (attachments m) ++ post).

Definition writes_requests (send : FacetRpcMessage -> Eff Ipc MessageInfo) : Prop :=
  forall m s, request_fits m -> buffer_ok s ->
    exists s', send m s = (Ok (mkInfo (attachment_count m) (4 + word_count m + (payload_size m + 7) / 8)), s') /\
      written m (request_image m) s'.

Definition writes_replies (send : FacetRpcMessage -> Eff Ipc MessageInfo) : Prop :=
  forall m s, reply_fits m -> buffer_ok s ->
    exists s', send m s = (Ok (mkInfo (attachment_count m) (3 + word_count m + (payload_size m + 7) / 8)), s') /\
      written m (reply_image m) s'.

Lemma payload_data_ok m s : payload_ok m -> payload_data m s = (Ok (payload_bytes m), s).
Proof.
  unfold payload_ok, payload_bytes, payload_data. destruct (payload m) as [data|]; [|done]. simpl. intros E.
  rewrite E, (proj2 (Z.ltb_ge _ _)) by lia. unfold zlen. by rewrite Nat2Z.id, firstn_all.
Qed.

Lemma payload_size_nonneg m : payload_ok m -> 0 <= payload_size m.
Proof. unfold payload_ok. intros ->. apply zlen_nonneg. Qed.

Lemma payload_not_null m : payload_ok m -> (negb (payload_size m =? 0) && bool_decide (payload m = None))%bool = false.
Proof.
  unfold payload_ok, payload_bytes. destruct (payload m); [by rewrite andb_false_r|]. simpl. intros ->. done.
Qed.

Lemma not_shared : shared 0 = false.
Proof. reflexivity. Qed.

Lemma message_words_length m : payload_ok m -> Z.of_nat (length (message_words m)) = (payload_size m + 7) / 8.
Proof.
  intros Hp. apply payload_words_length. pose proof (payload_size_nonneg m Hp). apply words_cover. done.
Qed.

Lemma set_caps_all m caps : inline_ok m -> zlen caps = seL4_MsgMaxExtraCaps ->
  exists post, zlen (map (attachment_cap endpoint []) (attachments m) ++ post) = seL4_MsgMaxExtraCaps /\
    forall regs, set_caps 0 (map (attachment_cap endpoint []) (attachments m)) (mkIpc regs caps) =
      (Ok tt, mkIpc regs (map (attachment_cap endpoint []) (attachments m) ++ post)).
Proof.
  intros Hm Hc. destruct (inline_handles m Hm) as (hs & Ha & Hl).
  assert (length (attachments m) <= length caps)%nat as Hle.
  { rewrite Ha, length_map. unfold zlen in *. lia. }
  exists (skipn (length (attachments m)) caps). split.
  - unfold zlen in *. rewrite length_app, length_map, length_skipn. lia.
  - intros regs. apply (set_caps_at _ (mkIpc regs caps) [] (firstn (length (attachments m)) caps)); simpl.
    + by rewrite firstn_skipn.
    + rewrite length_map, length_firstn. lia.
Qed.

(** A buffer with room for a header, words and payload words. *)
Lemma buffer_split s n2 n3 :
  buffer_ok s -> 4 + Z.of_nat n2 + Z.of_nat n3 <= seL4_MsgMaxLength ->
  exists a b c d, mrs s = a ++ b ++ c ++ d /\ length a = 4%nat /\ length b = n2 /\ length c = n3.
Proof. intros [Hm _] Hn. apply split_three. unfold zlen in Hm. lia. Qed.

(** Header, words and payload words written in order. *)
Lemma write_in_order s header ws ps :
  buffer_ok s -> length header = 4%nat -> 4 + zlen ws + zlen ps <= seL4_MsgMaxLength ->
  exists s1 s2 d, set_mrs 0 header s = (Ok tt, s1) /\ set_mrs 4 ws s1 = (Ok tt, s2) /\
    set_mrs (4 + length ws) ps s2 = (Ok tt, mkIpc (header ++ ws ++ ps ++ d) (ipc_caps s)).
Proof.
  intros Hs Hh Hn. destruct (buffer_split s (length ws) (length ps) Hs Hn) as (a & b & c & d & E & Ha & Hb & Hc).
  exists (mkIpc (header ++ b ++ c ++ d) (ipc_caps s)), (mkIpc (header ++ ws ++ c ++ d) (ipc_caps s)), d.
  split; [apply (set_mrs_start header s a); congruence|]. split.
  - rewrite <- Hh. by apply (set_mrs_at ws (mkIpc (header ++ b ++ c ++ d) (ipc_caps s)) header b (c ++ d)).
  - replace (4 + length ws)%nat with (length (header ++ ws)) by (rewrite length_app; lia).
    rewrite (set_mrs_at ps _ (header ++ ws) c d); cbn [mrs ipc_caps]; rewrite <- ?app_assoc; done.
Qed.

(** The same with the words before the header. *)
Lemma write_words_first s header ws ps :
  buffer_ok s -> length header = 4%nat -> 4 + zlen ws + zlen ps <= seL4_MsgMaxLength ->
  exists s1 s2 d, set_mrs 4 ws s = (Ok tt, s1) /\ set_mrs 0 header s1 = (Ok tt, s2) /\
    set_mrs (4 + length ws) ps s2 = (Ok tt, mkIpc (header ++ ws ++ ps ++ d) (ipc_caps s)).
Proof.
  intros Hs Hh Hn. destruct (buffer_split s (length ws) (length ps) Hs Hn) as (a & b & c & d & E & Ha & Hb & Hc).
  exists (mkIpc (a ++ ws ++ c ++ d) (ipc_caps s)), (mkIpc (header ++ ws ++ c ++ d) (ipc_caps s)), d.
  split; [rewrite <- Ha; by apply (set_mrs_at ws s a b (c ++ d))|]. split.
  - apply (set_mrs_start header (mkIpc (a ++ ws ++ c ++ d) (ipc_caps s)) a); cbn [mrs]; congruence.
  - replace (4 + length ws)%nat with (length (header ++ ws)) by (rewrite length_app; lia).
    rewrite (set_mrs_at ps _ (header ++ ws) c d); cbn [mrs ipc_caps]; rewrite <- ?app_assoc; done.
Qed.

(** What the checks of the writers see of a message that fits. *)
Lemma inline_checks m : inline_ok m ->
  wire_word_count (payload_size m) = (payload_size m + 7) / 8 /\
  wire_words (payload_size m) = (payload_size m + 7) / 8 /\
  0 <= payload_size m <= 512 /\ 0 <= (payload_size m + 7) / 8 <= 64 /\
  0 <= word_count m <= 64 /\ 0 <= attachment_count m <= 1 /\ zlen (message_words m) = (payload_size m + 7) / 8.
Proof.
  intros Hm. pose proof (payload_size_nonneg m (inline_payload m Hm)) as H0. pose proof (inline_size m Hm) as H1.
  unfold FACET_RPC_MAX_INLINE_PAYLOAD in H1. destruct (words_count_small (payload_size m)) as [E1 E2]; [lia|].
  destruct (inline_handles m Hm) as (hs & Ha & Hl). pose proof (inline_words m Hm) as Hw.
  unfold attachment_count, word_count, FACET_RPC_MAX_WORDS in *. rewrite Ha. pose proof (zlen_nonneg hs).
  pose proof (zlen_nonneg (words m)). split; [done|]. split; [done|].
  split; [lia|]. split; [apply inline_words_bound; lia|]. split; [lia|]. split; [unfold zlen in *; rewrite length_map; lia|].
  apply (message_words_length m (inline_payload m Hm)).
Qed.

Lemma bulk_prepare_inline frame_ok map_ok m : inline_ok m -> bulk_prepare frame_ok map_ok m = (Ok [], m).
Proof.
  intros Hm. unfold bulk_prepare. rewrite payload_not_null by apply Hm. rewrite (proj2 (Z.leb_le _ _)) by apply Hm. done.
Qed.

Lemma platform_send_writes frame_ok map_ok :
  writes_requests (platform_send seL4_MsgMaxLength endpoint frame_ok map_ok 0).
Proof.
  intros m s (Hm & Hid & Hfit) Hs. destruct (inline_checks m Hm) as (E1 & _ & Hsz & Hn & Hw & Ha & Hl).
  unfold platform_send. cbn [Z.eqb]. cbv zeta. rewrite bulk_prepare_inline by done. unfold message_from_request.
  rewrite (inline_flags m Hm), not_shared, E1, payload_not_null by apply Hm.
  unfold FACET_RPC_MAX_WORDS, FACET_SEL4_MAX_ATTACHMENTS, SIZE_MAX. refute_checks. cbn [orb].
  destruct (write_in_order s [method_id m; protocol_version m; 0; payload_size m] (words m) (message_words m) Hs eq_refl)
    as (s1 & s2 & d & W1 & W2 & W3); [rewrite Hl; unfold word_count in *; lia|].
  rewrite fbind_eq, W1, fbind_eq, W2, fbind_eq, payload_data_ok by apply Hm. fold (message_words m). rewrite fbind_eq, W3.
  destruct (set_caps_all m (ipc_caps s) Hm (proj2 Hs)) as (post & _ & Ec). rewrite fbind_eq, Ec. cbn [fret].
  rewrite (Z.add_comm _ 4), Z.add_assoc. eexists. split; [reflexivity|]. unfold request_image. rewrite (inline_flags m Hm).
  split; [exists d; cbn [mrs]; by rewrite <- !app_assoc|by exists post].
Qed.

Lemma client_checks_handles m : inline_ok m -> Forall (fun a => attachment_handle a <> 0) (attachments m) ->
  existsb (fun a => negb (bool_decide (attachment_kind a = FACET_RPC_ATTACHMENT_HANDLE))
                    || (attachment_handle a =? 0))%bool (attachments m) = false.
Proof.
  intros Hm. destruct (inline_handles m Hm) as (hs & -> & _). induction hs as [|h hs IH]; [done|].
  intros [Hh Hall]%Forall_cons. simpl in *. by rewrite (IH Hall), (proj2 (Z.eqb_neq _ _)).
Qed.

Lemma client_send_writes : writes_requests (client_send seL4_MsgMaxLength seL4_MsgMaxExtraCaps endpoint).
Proof.
  intros m s (Hm & [Hid Hnz] & Hfit) Hs. destruct (inline_checks m Hm) as (E1 & _ & Hsz & Hn & Hw & Ha & Hl).
  unfold client_send. rewrite E1, payload_not_null, client_checks_handles by (done || apply Hm).
  unfold FACET_RPC_MAX_WORDS, FACET_RPC_MAX_ATTACHMENTS, FACET_RPC_MAX_INLINE_PAYLOAD, SIZE_MAX. refute_checks. cbn [orb].
  destruct (set_caps_all m (ipc_caps s) Hm (proj2 Hs)) as (post & Hpost & Ec).
  destruct s as [regs caps]. cbn [ipc_caps] in *. rewrite fbind_eq, Ec.
  destruct (write_words_first (mkIpc regs (map (attachment_cap endpoint []) (attachments m) ++ post))
    [method_id m; protocol_version m; flags m; payload_size m] (words m) (message_words m))
    as (s1 & s2 & d & W1 & W2 & W3); [by split; [apply Hs|]|done|rewrite Hl; unfold word_count in *; lia|].
  rewrite fbind_eq, W1, fbind_eq, W2, fbind_eq, payload_data_ok by apply Hm. fold (message_words m).
  rewrite fbind_eq, W3. cbn [fret]. eexists. split; [reflexivity|].
  split; [exists d; cbn [mrs]; unfold request_image; by rewrite <- !app_assoc|by exists post].
Qed.

(** The registers of a reply: the result word is in the header. *)
Lemma words_head_tail m : words m <> [] -> zlen (tail (words m)) = word_count m - 1 /\
  length (words m) = S (length (tail (words m))).
Proof. unfold word_count. destruct (words m) as [|w l]; [done|]. intros _. rewrite zlen_cons. simpl. split; lia. Qed.

Lemma write_reply m s :
  reply_fits m -> buffer_ok s ->
  exists s1 s2 s3, set_mrs 0 [default 0 (head (words m)); FACET_RPC_PROTOCOL_VERSION; flags m; payload_size m] s = (Ok tt, s1) /\
    set_mrs 4 (tail (words m)) s1 = (Ok tt, s2) /\
    set_mrs (3 + length (words m)) (message_words m) s2 = (Ok tt, s3) /\
    exists s4, set_caps 0 (map (attachment_cap endpoint []) (attachments m)) s3 = (Ok tt, s4) /\
      written m (reply_image m) s4.
Proof.
  intros (Hm & Hne & Hfit) Hs. destruct (inline_checks m Hm) as (E1 & _ & Hsz & Hn & Hw & Ha & Hl).
  destruct (words_head_tail m Hne) as [Ht1 Ht2].
  destruct (write_in_order s [default 0 (head (words m)); FACET_RPC_PROTOCOL_VERSION; flags m; payload_size m]
    (tail (words m)) (message_words m) Hs eq_refl) as (s1 & s2 & d & W1 & W2 & W3); [lia|].
  exists s1, s2. eexists. split; [exact W1|]. split; [exact W2|]. split; [rewrite Ht2; exact W3|].
  destruct (set_caps_all m (ipc_caps s) Hm (proj2 Hs)) as (post & _ & Ec). eexists. split; [apply Ec|].
  split; [exists d; cbn [mrs]; unfold reply_image; by rewrite <- !app_assoc|by exists post].
Qed.

Lemma server_reply_writes frame_ok map_ok :
  writes_replies (server_reply seL4_MsgMaxLength endpoint frame_ok map_ok).
Proof.
  intros m s Hf Hs. pose proof Hf as (Hm & Hne & Hfit). destruct (inline_checks m Hm) as (E1 & _ & Hsz & Hn & Hw & Ha & Hl).
  unfold server_reply. rewrite bulk_prepare_inline by done. unfold reply_to_message. rewrite E1, payload_not_null by apply Hm.
  unfold FACET_SEL4_MAX_ATTACHMENTS, SIZE_MAX, u64. rewrite Z.mod_small by lia. refute_checks. cbn [orb].
  destruct (write_reply m s Hf Hs) as (s1 & s2 & s3 & W1 & W2 & W3 & s4 & W4 & Hw4).
  rewrite fbind_eq, W1, fbind_eq, W2, fbind_eq, payload_data_ok by apply Hm. fold (message_words m).
  rewrite Nat.add_comm. rewrite fbind_eq, W3, fbind_eq, W4. cbn [fret]. rewrite (Z.add_comm _ 3), Z.add_assoc. exists s4. done.
Qed.

Lemma encode_reply_writes : writes_replies (encode_reply seL4_MsgMaxLength endpoint).
Proof.
  intros m s Hf Hs. pose proof Hf as (Hm & Hne & Hfit). destruct (inline_checks m Hm) as (_ & E2 & Hsz & Hn & Hw & Ha & Hl).
  assert (word_count m <> 0) by (unfold word_count; destruct (words m); [done|rewrite zlen_cons; pose proof (zlen_nonneg l); lia]).
  unfold encode_reply. rewrite E2. unfold FACET_RPC_MAX_INLINE_PAYLOAD, FACET_RPC_MAX_WORDS. refute_checks. cbn [orb].
  destruct (write_reply m s Hf Hs) as (s1 & s2 & s3 & W1 & W2 & W3 & s4 & W4 & Hw4).
  rewrite fbind_eq, W1, fbind_eq, W2, fbind_eq, payload_data_ok by apply Hm. fold (message_words m).
  rewrite fbind_eq, W3, fbind_eq, W4. cbn [fret]. exists s4. done.
Qed.

(** ** Reading *)

(** The name that a handle gets on the other side. *)
Definition renamed (h : Z) : Z := received (endpoint h).

Definition reads_requests (recv : MessageInfo -> list cap -> Eff Ipc FacetRpcMessage) : Prop :=
  forall m s post, request_fits m -> mrs s = request_image m ++ post ->
    exists m', recv (mkInfo (attachment_count m) (4 + word_count m + (payload_size m + 7) / 8))
                 (map (attachment_cap endpoint []) (attachments m)) s = (Ok m', s) /\
      method_id m' = method_id m /\ delivered renamed m m'.

(** The handle that the receiver makes of a capability. *)
Definition cap_handle (c : cap) : Z := match c with CapEndpoint e => received e | _ => received 0 end.

(** A reply is read with the capabilities that the kernel delivered, which may be fewer
    than were sent. *)
Definition reads_replies (recv : MessageInfo -> list cap -> Eff Ipc FacetRpcMessage) : Prop :=
  forall m s post caps, reply_fits m -> mrs s = reply_image m ++ post -> zlen caps <= attachment_count m ->
    exists m', recv (mkInfo (zlen caps) (3 + word_count m + (payload_size m + 7) / 8)) caps s = (Ok m', s) /\
      forall ws b hs, contents m ws b hs -> contents m' ws b (map cap_handle caps).

(** The payload as it arrives. *)
Definition arrived (m : FacetRpcMessage) : option bytes :=
  if payload_size m =? 0 then None else Some (payload_bytes m).

(** A message put together from what was read has the words and the payload of the
    message that was sent, and the handles of the delivered capabilities. *)
Lemma rebuilt_contents m id data capacity caps ws b hs :
  inline_ok m -> data = arrived m -> contents m ws b hs ->
  contents (mkMessage FACET_RPC_PROTOCOL_VERSION id 0 (words m) data (payload_size m) capacity
    (map (received_attachment received true false) caps)) ws b (map cap_handle caps).
Proof.
  unfold arrived. intros Hm -> [Hw Hb Hs Hh Hf Hv]. split; cbn [words payload payload_size attachments flags protocol_version]; try done.
  - unfold payload_bytes in *. cbn [payload]. pose proof (inline_payload m Hm) as Hp. unfold payload_ok in Hp.
    destruct (payload_size m =? 0) eqn:E; bool_props; [|done]. simpl. unfold zlen in *. destruct b; [done|simpl in Hs; lia].
  - by rewrite map_map.
Qed.

(** Handles that are not null get their new names. *)
Lemma cap_handles m ws b hs : contents m ws b hs -> Forall (fun h => h <> 0) hs ->
  map cap_handle (map (attachment_cap endpoint []) (attachments m)) = map renamed hs.
Proof.
  intros [_ _ _ -> _ _] Hnz. rewrite !map_map. induction Hnz as [|h hs Hne Hnz IH]; [done|]. cbn [map]. rewrite IH. f_equal.
  unfold attachment_cap, handle_attachment. cbn. by rewrite (proj2 (Z.eqb_neq _ _)).
Qed.

Lemma contents_not_null m ws b hs :
  contents m ws b hs -> Forall (fun a => attachment_handle a <> 0) (attachments m) <-> Forall (fun h => h <> 0) hs.
Proof. intros [_ _ _ -> _ _]. by rewrite Forall_map. Qed.

Lemma rebuilt_delivered m id data capacity :
  inline_ok m -> Forall (fun a => attachment_handle a <> 0) (attachments m) -> data = arrived m ->
  delivered renamed m (mkMessage FACET_RPC_PROTOCOL_VERSION id 0 (words m) data (payload_size m) capacity
    (map (received_attachment received true false) (map (attachment_cap endpoint []) (attachments m)))).
Proof.
  intros Hm Hnz Hd ws b hs Hc. rewrite <- (cap_handles m ws b hs Hc) by by eapply contents_not_null.
  by apply rebuilt_contents with (hs := hs).
Qed.

Lemma received_payload_ok m s pre post i :
  inline_ok m -> mrs s = pre ++ message_words m ++ post -> i = length pre ->
  received_payload true i ((payload_size m + 7) / 8) (payload_size m) s =
    (Ok (arrived m), s).
Proof.
  unfold arrived. intros Hm Hs Hi. destruct (inline_checks m Hm) as (_ & _ & Hsz & Hn & _ & _ & Hl). unfold received_payload.
  rewrite fbind_eq, (get_mrs_at s pre (message_words m) post) by (try done; unfold zlen in Hl; lia).
  destruct (payload_size m =? 0); [done|]. cbn [negb fret]. unfold fret. do 3 f_equal. unfold message_words.
  rewrite (inline_payload m Hm). destruct (words_cover (zlen (payload_bytes m))) as [H1 H2]; [apply zlen_nonneg|].
  rewrite <- (Z2Nat.id ((zlen (payload_bytes m) + 7) / 8)) by done.
  apply words_payload_roundtrip; [apply Hm|rewrite Z2Nat.id by done; exact H1].
Qed.

(** The header of a request. *)
Lemma request_header m s post : mrs s = request_image m ++ post ->
  get_mr 0 s = (Ok (method_id m), s) /\ get_mr 1 s = (Ok (protocol_version m), s) /\
  get_mr 2 s = (Ok (flags m), s) /\ get_mr 3 s = (Ok (payload_size m), s) /\
  get_mrs 4 (Z.to_nat (word_count m)) s = (Ok (words m), s) /\
  mrs s = ([method_id m; protocol_version m; flags m; payload_size m] ++ words m) ++ message_words m ++ post.
Proof.
  intros Hs. unfold request_image in Hs. rewrite <- !app_assoc in Hs. unfold get_mr. rewrite Hs. repeat (split; [done|]).
  split; [|by rewrite <- !app_assoc]. eapply (get_mrs_at s [_; _; _; _] (words m)); [exact Hs|done|].
  unfold word_count, zlen. lia.
Qed.

Lemma reply_header m s post : words m <> [] -> mrs s = reply_image m ++ post ->
  get_mr 0 s = (Ok (default 0 (head (words m))), s) /\ get_mr 1 s = (Ok FACET_RPC_PROTOCOL_VERSION, s) /\
  get_mr 2 s = (Ok (flags m), s) /\ get_mr 3 s = (Ok (payload_size m), s) /\
  get_mrs 4 (Z.to_nat (word_count m - 1)) s = (Ok (tail (words m)), s) /\
  default 0 (head (words m)) :: tail (words m) = words m /\
  mrs s = ([default 0 (head (words m)); FACET_RPC_PROTOCOL_VERSION; flags m; payload_size m] ++ tail (words m)) ++
          message_words m ++ post.
Proof.
  intros Hne Hs. unfold reply_image in Hs. rewrite <- !app_assoc in Hs. unfold get_mr. rewrite Hs. repeat (split; [done|]).
  split; [|split; [by destruct (words m)|by rewrite <- !app_assoc]].
  eapply (get_mrs_at s [_; _; _; _] (tail (words m))); [exact Hs|done|].
  destruct (words_head_tail m Hne) as [H1 H2]. unfold zlen in H1. lia.
Qed.

Lemma u32_small x : 0 <= x < 2 ^ 32 -> u32 x = x.
Proof. apply Z.mod_small. Qed.

Lemma decode_request_reads : reads_requests (decode_request received true true).
Proof.
  intros m s post (Hm & [Hid Hnz] & Hfit) Hs. destruct (inline_checks m Hm) as (_ & E2 & Hsz & Hn & Hw & Ha & Hl).
  destruct (request_header m s post Hs) as (G0 & G1 & G2 & G3 & G4 & Hrest).
  unfold decode_request. cbn [info_length info_extra_caps]. rewrite (proj2 (Z.ltb_ge _ _)) by lia.
  rewrite fbind_eq, G0, fbind_eq, G1, fbind_eq, G2, fbind_eq, G3, (inline_version m Hm), (inline_flags m Hm), E2.
  unfold FACET_RPC_MAX_INLINE_PAYLOAD, FACET_RPC_MAX_WORDS. cbn [u32 Z.eqb negb orb]. rewrite (u32_small (method_id m)) by done.
  replace (4 + word_count m + (payload_size m + 7) / 8 - 4 - (payload_size m + 7) / 8) with (word_count m) by lia.
  change (negb (u32 FACET_RPC_PROTOCOL_VERSION =? FACET_RPC_PROTOCOL_VERSION)) with false. refute_checks. cbn [orb].
  rewrite fbind_eq, G4, fbind_eq, (received_payload_ok m s _ post _ Hm Hrest)
    by (rewrite length_app; unfold word_count, zlen; simpl; lia).
  destruct (attachment_count m =? 1) eqn:Eatt; bool_props; cbn [negb fret]; eexists; (split; [reflexivity|]); (split; [done|]).
  - rewrite firstn_all2 by (rewrite length_map; unfold attachment_count, zlen in Eatt; lia).
    apply (rebuilt_delivered m (method_id m) (arrived m)); done.
  - assert (attachments m = []) as Hnil by (unfold attachment_count, zlen in *; destruct (attachments m); [done|simpl in *; lia]).
    pose proof (rebuilt_delivered m (method_id m) (arrived m) (match arrived m with Some _ => payload_size m | None => 0 end) Hm Hnz eq_refl) as Hd.
    rewrite Hnil in Hd. exact Hd.
Qed.

Lemma server_receive_reads :
  reads_requests (fun info caps => server_receive seL4_MsgMaxLength received true true true info caps).
Proof.
  intros m s post (Hm & [Hid Hnz] & Hfit) Hs. destruct (inline_checks m Hm) as (E1 & _ & Hsz & Hn & Hw & Ha & Hl).
  destruct (request_header m s post Hs) as (G0 & G1 & G2 & G3 & G4 & Hrest).
  unfold server_receive, request_from_message. cbn [info_length info_extra_caps].
  rewrite fbind_eq, fbind_eq, G0, fbind_eq, G1, fbind_eq, G2, fbind_eq, G3, (inline_version m Hm), (inline_flags m Hm).
  change (negb (u32 FACET_RPC_PROTOCOL_VERSION =? FACET_RPC_PROTOCOL_VERSION)) with false. change (shared (u32 0)) with false.
  cbv zeta. cbn [negb andb]. rewrite E1, (u32_small (method_id m)) by done. rewrite (proj2 (Z.leb_le 4 _)) by lia.
  replace (4 + word_count m + (payload_size m + 7) / 8 - 4 - (payload_size m + 7) / 8) with (word_count m) by lia.
  destruct (words_cover (payload_size m)) as [Hcover _]; [lia|].
  unfold SIZE_MAX, FACET_RPC_MAX_WORDS. refute_checks. cbn [orb].
  rewrite fbind_eq, G4, fbind_eq, (received_payload_ok m s _ post _ Hm Hrest)
    by (rewrite length_app; unfold word_count, zlen; simpl; lia).
  cbn [fret flags]. change (buffer_count_of (u32 0)) with 0. unfold FACET_SEL4_MAX_ATTACHMENTS. rewrite Z.min_l by lia.
  rewrite (proj2 (Z.ltb_ge _ _)) by lia. cbn [Z.eqb negb]. eexists. split; [reflexivity|]. split; [done|].
  rewrite firstn_all2 by (rewrite length_map; unfold attachment_count, zlen; lia).
  apply (rebuilt_delivered m (method_id m) (arrived m)); done.
Qed.

Lemma client_reply_reads : reads_replies (client_reply received true true).
Proof.
  intros m s post caps (Hm & Hne & Hfit) Hs Hcap. pose proof (zlen_nonneg caps) as Hcap0. destruct (inline_checks m Hm) as (E1 & _ & Hsz & Hn & Hw & Ha & Hl).
  destruct (reply_header m s post Hne Hs) as (G0 & G1 & G2 & G3 & G4 & Hwords & Hrest).
  destruct (words_head_tail m Hne) as [Ht1 Ht2]. pose proof (zlen_nonneg (tail (words m))) as Ht0.
  unfold client_reply. cbn [info_length info_extra_caps]. refute_checks. cbn [orb].
  rewrite fbind_eq, G1, fbind_eq, G2, fbind_eq, G3, (inline_flags m Hm). change (shared (u32 0)) with false.
  rewrite E1. unfold FACET_RPC_MAX_INLINE_PAYLOAD, SIZE_MAX, FACET_RPC_MAX_WORDS. cbv zeta. refute_checks. cbn [orb].
  replace (1 + (3 + word_count m + (payload_size m + 7) / 8 - 4) - (payload_size m + 7) / 8) with (word_count m) by lia.
  refute_checks. rewrite fbind_eq, G0, fbind_eq, G4.
  change (negb (u32 FACET_RPC_PROTOCOL_VERSION =? FACET_RPC_PROTOCOL_VERSION)) with false. cbv iota.
  rewrite fbind_eq, (received_payload_ok m s _ post _ Hm Hrest)
    by (rewrite length_app; unfold word_count, zlen in *; simpl; lia).
  cbn [negb]. rewrite andb_false_r. rewrite Hwords. cbn [fret]. eexists. split; [reflexivity|].
  intros ws b hs Hc. rewrite firstn_all2 by (unfold attachment_count, zlen in *; lia).
  by apply (rebuilt_contents m 0 (arrived m)) with (hs := hs).
Qed.

Lemma platform_reply_reads : reads_replies (platform_reply received true true true).
Proof.
  intros m s post caps (Hm & Hne & Hfit) Hs Hcap. pose proof (zlen_nonneg caps) as Hcap0. destruct (inline_checks m Hm) as (E1 & _ & Hsz & Hn & Hw & Ha & Hl).
  destruct (reply_header m s post Hne Hs) as (G0 & G1 & G2 & G3 & G4 & Hwords & Hrest).
  destruct (words_head_tail m Hne) as [Ht1 Ht2]. pose proof (zlen_nonneg (tail (words m))) as Ht0.
  unfold platform_reply. cbn [info_length info_extra_caps].
  rewrite fbind_eq, G1, fbind_eq, G2, fbind_eq, G3, (inline_flags m Hm). change (shared (u32 0)) with false.
  change (negb (u32 FACET_RPC_PROTOCOL_VERSION =? FACET_RPC_PROTOCOL_VERSION)) with false.
  rewrite E1. unfold SIZE_MAX, FACET_RPC_MAX_WORDS. cbv zeta. refute_checks. rewrite (proj2 (Z.leb_le 4 _)) by lia.
  rewrite (proj2 (Z.leb_le ((payload_size m + 7) / 8) _)) by lia.
  replace (1 + (3 + word_count m + (payload_size m + 7) / 8 - 4 - (payload_size m + 7) / 8)) with (word_count m) by lia.
  refute_checks. rewrite fbind_eq, G0, fbind_eq, G4. rewrite andb_true_r. cbn [negb andb].
  assert ((if negb (payload_size m =? 0)
     then received_payload true (4 + Z.to_nat (word_count m) - 1) ((payload_size m + 7) / 8) (payload_size m)
     else fret None) s = (Ok (arrived m), s)) as Hdata.
  { unfold arrived. destruct (payload_size m =? 0) eqn:E0; [done|]. cbn [negb].
    rewrite (received_payload_ok m s _ post _ Hm Hrest) by (rewrite length_app; unfold word_count, zlen in *; simpl; lia).
    unfold arrived. by rewrite E0. }
  rewrite fbind_eq, Hdata. change (buffer_count_of (u32 0)) with 0. unfold FACET_SEL4_MAX_ATTACHMENTS. rewrite Z.min_l by lia.
  rewrite (proj2 (Z.ltb_ge _ _)) by lia. cbn [Z.eqb negb andb]. rewrite andb_false_r. rewrite Hwords. cbn [fret].
  eexists. split; [reflexivity|].
  intros ws b hs Hc. rewrite firstn_all2 by (unfold attachment_count, zlen in *; lia).
  by apply (rebuilt_contents m 0 (arrived m)) with (hs := hs).
Qed.

Lemma request_image_length m : inline_ok m -> zlen (request_image m) = 4 + word_count m + (payload_size m + 7) / 8.
Proof.
  intros Hm. destruct (inline_checks m Hm) as (_ & _ & _ & _ & _ & _ & Hl). unfold request_image, word_count.
  rewrite !zlen_app, Hl. change (zlen [_; _; _; _]) with 4. lia.
Qed.

Lemma reply_image_length m :
  inline_ok m -> words m <> [] -> zlen (reply_image m) = 3 + word_count m + (payload_size m + 7) / 8.
Proof.
  intros Hm Hne. destruct (inline_checks m Hm) as (_ & _ & _ & _ & _ & _ & Hl). destruct (words_head_tail m Hne) as [Ht _].
  unfold reply_image. rewrite !zlen_app, Hl, Ht. change (zlen [_; _; _; _]) with 4. lia.
Qed.

End Interop.

(** ** The transport as a platform *)

Section WirePlatform.
Context {V : Type} (seL4_MsgMaxLength seL4_MsgMaxExtraCaps : Z).
Context (client_endpoint client_received server_endpoint server_received : Z -> Z).
(** The kernel copies the announced registers into the buffer of the receiver and
    transfers the capabilities; it tells the receiver how many it transferred. *)
Context (kernel : MessageInfo -> Ipc -> Ipc) (transfer : list cap -> list cap).
Context (send send_reply : FacetRpcMessage -> Eff Ipc MessageInfo).
Context (recv recv_reply : MessageInfo -> list cap -> Eff Ipc FacetRpcMessage).
Context (client_buffer server_buffer : Ipc).
Context (server_malloc : nat -> bool) (methods : list (FacetMethodMeta * option (Method (W := V)))).

Definition kernel_copies : Prop :=
  forall info s, 0 <= info_length info <= seL4_MsgMaxLength ->
    firstn (Z.to_nat (info_length info)) (mrs (kernel info s)) = firstn (Z.to_nat (info_length info)) (mrs s).

(** Capabilities arrive in order; one that does not exist is not transferred. *)
Definition kernel_transfers : Prop :=
  forall l, zlen (transfer l) <= zlen l /\ (Forall (fun c => c <> CapNull) l -> transfer l = l).

Definition sent_caps (info : MessageInfo) (s : Ipc) : list cap :=
  firstn (Z.to_nat (info_extra_caps info)) (ipc_caps s).

Definition delivered_caps (info : MessageInfo) (s : Ipc) : list cap := transfer (sent_caps info s).

Definition delivered_info (info : MessageInfo) (caps : list cap) : MessageInfo :=
  mkInfo (zlen caps) (info_length info).

(** What the server does with what it received. *)
Definition wire_serve (received : result FacetRpcMessage) (r : Remote V) : result unit * Serving V :=
  let refused code := mkServing (mkMessage FACET_RPC_PROTOCOL_VERSION 0 0 [u64 (code_of_result code)] None 0 0 [])
                        None false (remote_allocations r) (remote_live r) (remote_world r) in
  match received with
  | Ok m => serve server_malloc methods m (remote_allocations r) (remote_live r) (remote_world r)
  | Err code => (Ok tt, refused code)
  | Fault => (Fault, refused FACET_ERROR)
  end.

(** A call: request, kernel, server, reply, kernel. *)
Definition wire_call (m : FacetRpcMessage) : Eff (Remote V) FacetRpcMessage := fun r =>
  match send m client_buffer with
  | (Ok info, s1) =>
      let caps := delivered_caps info s1 in
      match wire_serve (fst (recv (delivered_info info caps) caps (kernel info s1))) r with
      | (Ok _, sv) =>
          match send_reply (reply sv) server_buffer with
          | (Ok info', s2) =>
              let caps' := delivered_caps info' s2 in
              (fst (recv_reply (delivered_info info' caps') caps' (kernel info' s2)), remote_after sv)
          | (Err code, _) => (Err code, remote_after sv)
          | (Fault, _) => (Fault, remote_after sv)
          end
      | (Err code, sv) => (Err code, remote_after sv)
      | (Fault, sv) => (Fault, remote_after sv)
      end
  | (Err code, _) => (Err code, r)
  | (Fault, _) => (Fault, r)
  end.

Definition wire_platform : Platform (Remote V) := {|
  libfacet_platform_call := fun _ => wire_call;
  libfacet_platform_handle_release := fun _ r => r
|}.

Lemma written_received endpoint m image info s :
  kernel_copies -> info_length info = zlen image -> info_length info <= seL4_MsgMaxLength ->
  info_extra_caps info = attachment_count m -> written endpoint m image s ->
  (exists post, mrs (kernel info s) = image ++ post) /\
  delivered_caps info s = transfer (map (attachment_cap endpoint []) (attachments m)).
Proof.
  intros Hk Hlen Hmax Hcaps [[post Hm] [post' Hc]]. split.
  - exists (skipn (length image) (mrs (kernel info s))).
    pose proof (zlen_nonneg image). specialize (Hk info s ltac:(lia)). rewrite Hlen in Hk. unfold zlen in Hk.
    rewrite Nat2Z.id, Hm, take_app_length in Hk. rewrite <- Hk at 1. by rewrite firstn_skipn.
  - unfold delivered_caps, sent_caps. rewrite Hcaps, Hc. f_equal. unfold attachment_count, zlen. rewrite Nat2Z.id.
    rewrite <- (length_map (attachment_cap endpoint []) (attachments m)). apply take_app_length.
Qed.

Lemma caps_not_null endpoint m :
  inline_ok m -> Forall (fun a => attachment_handle a <> 0) (attachments m) ->
  Forall (fun c => c <> CapNull) (map (attachment_cap endpoint []) (attachments m)).
Proof.
  intros Hm. destruct (inline_handles m Hm) as (hs & -> & _). rewrite !Forall_map. intros H. eapply Forall_impl; [exact H|]. intros h Hh.
  unfold attachment_cap, handle_attachment in *. cbn in *. by rewrite (proj2 (Z.eqb_neq _ _)).
Qed.

Lemma reply_replied m m' :
  inline_ok m -> kernel_transfers ->
  (forall ws b hs, contents m ws b hs ->
     contents m' ws b (map (cap_handle client_received) (transfer (map (attachment_cap server_endpoint []) (attachments m))))) ->
  replied (renamed server_endpoint client_received) m m'.
Proof.
  intros Hm Ht H ws b hs Hc. eexists. split; [by eapply H|]. intros Hnz. apply (contents_not_null m _ _ _ Hc) in Hnz as Hnz'.
  rewrite (proj2 (Ht _)) by by apply caps_not_null. by eapply cap_handles.
Qed.

Lemma wire_transports_lemma handle :
  1 <= seL4_MsgMaxExtraCaps -> kernel_copies -> kernel_transfers ->
  buffer_ok seL4_MsgMaxLength seL4_MsgMaxExtraCaps client_buffer ->
  buffer_ok seL4_MsgMaxLength seL4_MsgMaxExtraCaps server_buffer ->
  writes_requests seL4_MsgMaxLength seL4_MsgMaxExtraCaps client_endpoint send ->
  reads_requests seL4_MsgMaxLength client_endpoint server_received recv ->
  writes_replies seL4_MsgMaxLength seL4_MsgMaxExtraCaps server_endpoint send_reply ->
  reads_replies seL4_MsgMaxLength client_received recv_reply ->
  transports (H := wire_platform) server_malloc handle methods
    (renamed server_endpoint client_received) (renamed client_endpoint server_received)
    (request_fits seL4_MsgMaxLength) (reply_fits seL4_MsgMaxLength).
Proof.
  intros Hcaps Hk Ht Hcb Hsb Hsend Hrecv Hsendr Hrecvr m r Hfit.
  destruct (Hsend m client_buffer Hfit Hcb) as (s1 & E1 & W1). pose proof Hfit as (Hm & [_ Hnz] & Hmax).
  set (info := mkInfo (attachment_count m) (4 + word_count m + (payload_size m + 7) / 8)) in *.
  destruct (written_received client_endpoint m (request_image m) info s1 Hk (eq_sym (request_image_length m Hm)) Hmax eq_refl W1)
    as [[post Hp] Hc]. rewrite (proj2 (Ht _)) in Hc by by apply caps_not_null.
  destruct (Hrecv m (kernel info s1) post Hfit Hp) as (m' & E2 & Hid & Hdel).
  assert (delivered_info info (delivered_caps info s1) = info) as Hinfo.
  { unfold delivered_info. rewrite Hc. unfold zlen. rewrite length_map. done. }
  exists m'. split; [done|]. split; [done|]. intros sv Hserve Hrfit. pose proof Hrfit as (Hrm & Hne & Hrmax).
  destruct (Hsendr (reply sv) server_buffer Hrfit Hsb) as (s2 & E3 & W2).
  set (info' := mkInfo (attachment_count (reply sv)) (3 + word_count (reply sv) + (payload_size (reply sv) + 7) / 8)) in *.
  destruct (written_received server_endpoint (reply sv) (reply_image (reply sv)) info' s2 Hk
    (eq_sym (reply_image_length (reply sv) Hrm Hne)) Hrmax eq_refl W2) as [[post2 Hp2] Hc2].
  destruct (Hrecvr (reply sv) (kernel info' s2) post2 (delivered_caps info' s2) Hrfit Hp2) as (m'' & E4 & Hdel2).
  { rewrite Hc2. etrans; [apply Ht|]. unfold zlen, attachment_count. rewrite length_map. done. }
  exists m''. rewrite Hc2 in Hdel2. split; [by apply reply_replied|]. cbn [libfacet_platform_call wire_platform].
  unfold wire_call. rewrite E1. cbv zeta. rewrite Hinfo, Hc. fold info in E2. rewrite E2. cbn [fst wire_serve].
  unfold wire_serve. rewrite Hserve, E3. unfold delivered_info at 1. cbn [info_length info']. rewrite E4. done.
Qed.

End WirePlatform.

(** ** The whole stack *)

Section Stack.
Context (seL4_MsgMaxLength seL4_MsgMaxExtraCaps : Z).

(** The two clients and the two servers, each a writer and a reader of registers. *)
Inductive client_stack (endpoint received : Z -> Z)
  : (FacetRpcMessage -> Eff Ipc MessageInfo) -> (MessageInfo -> list cap -> Eff Ipc FacetRpcMessage) -> Prop :=
  | platform_client frame_ok map_ok :
      client_stack endpoint received (platform_send seL4_MsgMaxLength endpoint frame_ok map_ok 0)
        (platform_reply received true true true)
  | process_client :
      client_stack endpoint received (client_send seL4_MsgMaxLength seL4_MsgMaxExtraCaps endpoint)
        (client_reply received true true).

Inductive server_stack (endpoint received : Z -> Z)
  : (MessageInfo -> list cap -> Eff Ipc FacetRpcMessage) -> (FacetRpcMessage -> Eff Ipc MessageInfo) -> Prop :=
  | platform_server frame_ok map_ok :
      server_stack endpoint received (server_receive seL4_MsgMaxLength received true true true)
        (server_reply seL4_MsgMaxLength endpoint frame_ok map_ok)
  | process_server :
      server_stack endpoint received (decode_request received true true) (encode_reply seL4_MsgMaxLength endpoint).

Lemma client_stack_writes endpoint received send recv_reply :
  1 <= seL4_MsgMaxExtraCaps -> client_stack endpoint received send recv_reply ->
  writes_requests seL4_MsgMaxLength seL4_MsgMaxExtraCaps endpoint send /\
  reads_replies seL4_MsgMaxLength received recv_reply.
Proof.
  intros Hc [frame_ok map_ok|]; split.
  - by apply platform_send_writes.
  - apply platform_reply_reads.
  - by apply client_send_writes.
  - apply client_reply_reads.
Qed.

Lemma server_stack_reads endpoint received recv send_reply :
  1 <= seL4_MsgMaxExtraCaps -> server_stack endpoint received recv send_reply ->
  (forall client_endpoint, reads_requests seL4_MsgMaxLength client_endpoint received recv) /\
  writes_replies seL4_MsgMaxLength seL4_MsgMaxExtraCaps endpoint send_reply.
Proof.
  intros Hc [frame_ok map_ok|]; split.
  - intros e. apply server_receive_reads.
  - by apply server_reply_writes.
  - intros e. apply decode_request_reads.
  - by apply encode_reply_writes.
Qed.

(** Contents that travel inline beside the header registers. *)
Definition inline_fits (ws : list Z) (b : bytes) (hs : list Z) : Prop :=
  zlen ws <= FACET_RPC_MAX_WORDS /\ bytes_ok b /\ zlen b <= FACET_RPC_MAX_INLINE_PAYLOAD /\
  zlen hs <= 1.

Lemma contents_inline m ws b hs : contents m ws b hs -> inline_fits ws b hs -> inline_ok m.
Proof.
  intros [Hw Hb Hs Hh Hf Hv] (H1 & H2 & H3 & H4). split; try done.
  - unfold word_count. by rewrite Hw.
  - unfold payload_ok. by rewrite Hb.
  - by rewrite Hb.
  - by rewrite Hs.
  - by exists hs.
Qed.

Lemma contents_request_fits m ws b hs :
  contents m ws b hs -> inline_fits ws b hs -> 4 + zlen ws + (zlen b + 7) / 8 <= seL4_MsgMaxLength ->
  0 <= method_id m < 2 ^ 32 -> Forall (fun h => h <> 0) hs -> request_fits seL4_MsgMaxLength m.
Proof.
  intros Hc Hi Hn Hid Hnz. split; [by eapply contents_inline|]. split; [split; [done|by eapply contents_not_null]|]. destruct Hc as [Hw Hb Hs _ _ _].
  unfold word_count. by rewrite Hw, Hs.
Qed.

Lemma contents_reply_fits m w ws b hs :
  contents m (w :: ws) b hs -> inline_fits (w :: ws) b hs -> 4 + zlen ws + (zlen b + 7) / 8 <= seL4_MsgMaxLength ->
  reply_fits seL4_MsgMaxLength m.
Proof.
  intros Hc Hi Hn. split; [by eapply contents_inline|]. destruct Hc as [Hw Hb Hs _ _ _]. unfold word_count.
  rewrite Hw, Hs. split; [done|]. rewrite zlen_cons. lia.
Qed.

Lemma inline_fits_message ws b hs : inline_fits ws b hs -> fits_request ws b hs.
Proof.
  intros (H1 & _ & H3 & H4). unfold FACET_RPC_MAX_INLINE_PAYLOAD in H3. split; [done|].
  split; [lia|]. unfold FACET_RPC_MAX_ATTACHMENTS. lia.
Qed.

End Stack.

(** C4: A remote call over seL4 IPC refines a call of the implementation, from either
    client (dominit0 and dominit, or an application) to either server.  The conditions:
    memory, slots for received capabilities and mappings last on both sides; the kernel
    copies the announced registers and transfers capabilities that exist; the arguments
    and the outputs (also those of a method that fails) have the declared types and fit
    the message registers with 64 words, 512 payload bytes and one handle; no handle
    argument is null, and a method that succeeds returns no null handle (one that fails
    may).  Then the method runs once on the caller's arguments as the message carries
    them ([passed]: handles renamed by the capability transfer, a null string empty, a
    bool inside an array or a structure that non-zero bytes follow true), the caller
    gets its result code, or its outputs carried back in the same way when that is
    FACET_OK, and no block of the caller is lost. *)
Theorem sel4_call_refines {V} (seL4_MsgMaxLength seL4_MsgMaxExtraCaps : Z)
    (client_endpoint client_received server_endpoint server_received : Z -> Z)
    (kernel : MessageInfo -> Ipc -> Ipc) (transfer : list cap -> list cap)
    (send send_reply : FacetRpcMessage -> Eff Ipc MessageInfo)
    (recv recv_reply : MessageInfo -> list cap -> Eff Ipc FacetRpcMessage) (client_buffer server_buffer : Ipc)
    (client_malloc server_malloc : nat -> bool) (handle : Z)
    (methods : list (FacetMethodMeta * option (Method (W := V))))
    (id : Z) (params : list FacetParamMeta) (impl : Method (W := V)) (args outs : list argument)
    (ws ows : list Z) (b ob : bytes) (hs ohs : list Z) (code : FacetResult) (n : nat) (live : Z) (r : Remote V) (w' : V)
    (Hcaps : 1 <= seL4_MsgMaxExtraCaps) (Hkernel : kernel_copies seL4_MsgMaxLength kernel)
    (Htransfer : kernel_transfers transfer)
    (Hbuffers : buffer_ok seL4_MsgMaxLength seL4_MsgMaxExtraCaps client_buffer /\
                buffer_ok seL4_MsgMaxLength seL4_MsgMaxExtraCaps server_buffer)
    (Hclient : client_stack seL4_MsgMaxLength seL4_MsgMaxExtraCaps client_endpoint client_received send recv_reply)
    (Hserver : server_stack seL4_MsgMaxLength server_endpoint server_received recv send_reply)
    (Hmemory : memory client_malloc /\ memory server_malloc)
    (Hfind : find_method methods id = Some (mkMethod id params, Some impl)) (Hid : 0 <= id < 2 ^ 32)
    (Hin : inputs_sent params args ws b hs) (Hfits : inline_fits ws b hs) (Hargs : Forall (fun h => h <> 0) hs)
    (Hregs : 4 + zlen ws + (zlen b + 7) / 8 <= seL4_MsgMaxLength)
    (Hn : zlen (output_params params) <= FACET_RPC_MAX_WORDS)
    (Himpl : impl (server_args params (map (passed (renamed client_endpoint server_received)) args)) (remote_world r) =
             ((code, outs), w'))
    (Hout : outputs_sent (output_params params) outs ows ob ohs)
    (Hfit : inline_fits (u64 (code_of_result code) :: ows) ob ohs)
    (Houts : code = FACET_OK -> Forall (fun h => h <> 0) ohs)
    (Hregs' : 4 + zlen ows + (zlen ob + 7) / 8 <= seL4_MsgMaxLength) (Hcode : code_ok code) :
  exists s, libfacet_proxy_client_call
      (H := wire_platform kernel transfer send send_reply recv recv_reply client_buffer server_buffer server_malloc methods)
      client_malloc (Some handle) (Some (mkMethod id params)) (map Some args) n live r =
      (if bool_decide (code = FACET_OK) then Ok (map (passed (renamed server_endpoint client_received)) outs) else Err code, s) /\
    remote_world (world s) = w' /\
    heap_live s = live + (if bool_decide (code = FACET_OK)
      then release_decoded_outputs (output_params params) (map (passed (renamed server_endpoint client_received)) outs) else 0).
Proof.
  destruct Hmemory as [Hm1 Hm2], Hbuffers as [Hb1 Hb2].
  destruct (client_stack_writes _ _ _ _ _ _ Hcaps Hclient) as [Hw Hrr].
  destruct (server_stack_reads _ _ _ _ _ _ Hcaps Hserver) as [Hr Hwr].
  pose proof (wire_transports_lemma _ _ client_endpoint client_received server_endpoint server_received kernel transfer send
    send_reply recv recv_reply client_buffer server_buffer server_malloc methods handle Hcaps Hkernel Htransfer Hb1 Hb2 Hw (Hr _)
    Hwr Hrr) as Ht.
  destruct (proxy_call_ok client_malloc server_malloc Hm1 Hm2 handle methods _ _ _ _ Ht id params impl args ws b hs code outs
    ows ob ohs n live r w' Hfind Hin (inline_fits_message _ _ _ Hfits) Hn Himpl Hout (inline_fits_message _ _ _ Hfit) Hcode)
    as (s & E & Hl & r' & ohs' & Hw' & _ & _ & Hs); [..|exact Houts|].
  - intros m Hc Hmid. eapply contents_request_fits; try done. by rewrite Hmid.
  - intros m Hc. by eapply contents_reply_fits.
  - exists s. split; [exact E|]. split; [|exact Hl]. rewrite Hs. destruct (bool_decide _); [done|].
    clear -Hw'. unfold release_attachments. cbn [libfacet_platform_handle_release wire_platform].
    induction (map handle_attachment _) as [|a l IH]; [done|]. simpl. by destruct (_ && _)%bool.
Qed.

(** The sizes of the x86-64 kernel, and a kernel that hands over the sender's buffer. *)
Definition sel4_registers : Z := 120.
Definition empty_buffer : Ipc := mkIpc (repeat 0 120) (repeat CapNull 3).

Lemma lookup_inline : inline_fits [] (le_bytes 4 4 ++ B "tty1") [].
Proof. split; [vm_compute; discriminate|]. split; [by_decide|]. split; vm_compute; discriminate. Qed.

Lemma lookup_inline_reply : inline_fits [u64 (code_of_result FACET_OK); 7] [] [41].
Proof.
  split; [vm_compute; discriminate|]. split; [constructor|]. split; vm_compute; discriminate.
Qed.

(** The capability transfer of seL4 ends at the first capability that does not exist. *)
Fixpoint stop_at_null (l : list cap) : list cap :=
  match l with c :: rest => if bool_decide (c = CapNull) then [] else c :: stop_at_null rest | [] => [] end.

Lemma stop_at_null_transfers : kernel_transfers stop_at_null.
Proof.
  intros l. split.
  - induction l as [|c l IH]; [done|]. cbn [stop_at_null]. destruct (bool_decide _); rewrite ?zlen_cons; [|lia].
    change (zlen []) with 0. pose proof (zlen_nonneg l). lia.
  - induction 1 as [|c l Hc H IH]; [done|]. cbn [stop_at_null]. by rewrite bool_decide_false, IH.
Qed.

Lemma empty_buffer_ok : buffer_ok sel4_registers 3 empty_buffer.
Proof. split; vm_compute; reflexivity. Qed.

Lemma sel4_call_refines_witness :
  exists s, libfacet_proxy_client_call
      (H := wire_platform (fun _ s => s) stop_at_null (client_send sel4_registers 3 (Z.add 1000)) (server_reply sel4_registers (Z.add 1000) true true)
              (server_receive sel4_registers (Z.add 5000) true true true) (client_reply (Z.add 5000) true true)
              empty_buffer empty_buffer plenty lookup_methods)
      plenty (Some 1) (Some (mkMethod 3 lookup_params)) (map Some lookup_args) 0 0 (mkRemote 0 0 0%nat) =
      (Ok [AValue (VInt 7); AHandle 6041], s) /\ remote_world (world s) = 1%nat.
Proof.
  destruct (sel4_call_refines sel4_registers 3 (Z.add 1000) (Z.add 5000) (Z.add 1000) (Z.add 5000) (fun _ s => s) stop_at_null
    (client_send sel4_registers 3 (Z.add 1000)) (server_reply sel4_registers (Z.add 1000) true true)
    (server_receive sel4_registers (Z.add 5000) true true true) (client_reply (Z.add 5000) true true)
    empty_buffer empty_buffer plenty plenty 1 lookup_methods 3 lookup_params lookup_method lookup_args
    [AValue (VInt 7); AHandle 41] [] [7] (le_bytes 4 4 ++ B "tty1") [] [] [41] FACET_OK 0 0 (mkRemote 0 0 0%nat) 1%nat
    ltac:(lia) (fun _ _ _ => eq_refl) stop_at_null_transfers (conj empty_buffer_ok empty_buffer_ok)
    (process_client sel4_registers 3 _ _) (platform_server sel4_registers _ _ true true)
    (conj (fun _ => eq_refl) (fun _ => eq_refl)) eq_refl ltac:(lia) lookup_inputs lookup_inline ltac:(constructor)
    ltac:(vm_compute; discriminate) ltac:(vm_compute; discriminate) eq_refl lookup_outputs lookup_inline_reply
    ltac:(intros _; constructor; [discriminate|constructor])
    ltac:(vm_compute; discriminate) ltac:(by apply named_code_ok)) as (s & E & Hw & _).
  exists s. split; [exact E|exact Hw].
Defined.

(** ** Arbitrary registers *)

Section Untrusted.
Context (seL4_MsgMaxLength : Z) (received : Z -> Z) (malloc_ok handle_ok : bool).
Context (Hmax : 4 <= seL4_MsgMaxLength < 2 ^ 32).

(** A buffer of the kernel's size that holds words, and a message that fits in it. *)
Definition registers_ok (s : Ipc) : Prop :=
  zlen (mrs s) = seL4_MsgMaxLength /\ Forall (fun w => 0 <= w < 2 ^ 64) (mrs s).

Lemma get_mr_ok s i : registers_ok s -> Z.of_nat i < seL4_MsgMaxLength ->
  exists w, get_mr i s = (Ok w, s) /\ 0 <= w < 2 ^ 64.
Proof.
  intros [Hl Hall] Hi. unfold get_mr, zlen in *. destruct (lookup_lt_is_Some_2 (mrs s) i) as [w E]; [lia|]. rewrite E.
  exists w. split; [done|]. rewrite Forall_lookup in Hall. eauto.
Qed.

Lemma get_mrs_ok s n i : registers_ok s -> Z.of_nat i + Z.of_nat n <= seL4_MsgMaxLength ->
  exists l, get_mrs i n s = (Ok l, s) /\ length l = n.
Proof.
  intros Hs. revert i. induction n as [|n IH]; intros i Hi; [by exists []|]. cbn [get_mrs].
  destruct (get_mr_ok s i Hs) as (w & E & _); [lia|]. destruct (IH (S i)) as (l & El & Hl); [lia|].
  exists (w :: l). rewrite fbind_eq, E, fbind_eq, El. split; [done|]. simpl. lia.
Qed.

Lemma words_payload_length l size : 0 <= size <= 8 * zlen l -> zlen (words_payload l size) = size.
Proof.
  intros Hs. unfold words_payload, zlen in *. rewrite length_firstn.
  assert (length (concat (map (le_bytes 8) l)) = 8 * length l)%nat as ->; [|lia].
  clear. induction l as [|w l IH]; [done|]. cbn [map concat length]. rewrite length_app, le_bytes_length, IH. lia.
Qed.

Lemma received_payload_safe s i n size :
  registers_ok s -> 0 <= n -> Z.of_nat i + n <= seL4_MsgMaxLength -> 0 <= size <= 8 * n ->
  exists x, received_payload malloc_ok i n size s = (x, s) /\
    match x with Ok data => zlen (default [] data) = size | Err _ => True | Fault => False end.
Proof.
  intros Hs Hn Hi Hsize. unfold received_payload. destruct (get_mrs_ok s (Z.to_nat n) i Hs) as (l & E & Hl); [lia|].
  rewrite fbind_eq, E. destruct (size =? 0) eqn:E0; bool_props; [eexists; split; [reflexivity|]; by rewrite E0|].
  destruct (negb malloc_ok); eexists; (split; [reflexivity|]); [done|]. simpl. apply words_payload_length.
  unfold zlen. rewrite Hl. lia.
Qed.

Definition well_formed (m : FacetRpcMessage) : Prop :=
  payload_ok m /\ word_count m <= FACET_RPC_MAX_WORDS /\ attachment_count m <= 1.

(** A reader that never faults and accepts only well-formed messages. *)
Definition guards (recv : MessageInfo -> list cap -> Eff Ipc FacetRpcMessage) : Prop :=
  forall info caps s, registers_ok s -> 0 <= info_length info <= seL4_MsgMaxLength -> 0 <= info_extra_caps info ->
    exists x, recv info caps s = (x, s) /\
      match x with Ok m => well_formed m | Err _ => True | Fault => False end.

Ltac refused := eexists; (split; [reflexivity|done]).

Lemma decode_request_guards : guards (decode_request received malloc_ok handle_ok).
Proof.
  intros info caps s Hs Hlen Hex. unfold decode_request. destruct (info_length info <? 4) eqn:E4; [refused|]. bool_props.
  destruct (get_mr_ok s 0 Hs) as (id & E0 & _); [lia|]. destruct (get_mr_ok s 1 Hs) as (v & E1 & _); [lia|].
  destruct (get_mr_ok s 2 Hs) as (fl & E2 & _); [lia|]. destruct (get_mr_ok s 3 Hs) as (size & E3 & Hsize); [lia|].
  rewrite fbind_eq, E0, fbind_eq, E1, fbind_eq, E2, fbind_eq, E3.
  destruct (_ || _)%bool eqn:Ev; [refused|]. apply orb_false_iff in Ev as [_ Ev]. bool_props.
  unfold FACET_RPC_MAX_INLINE_PAYLOAD in Ev. destruct (words_count_small size) as [_ Ew]; [lia|]. rewrite Ew.
  destruct (words_cover size) as [Hcover Hn]; [lia|].
  destruct (_ <? _) eqn:Eav; [refused|]. bool_props. destruct (FACET_RPC_MAX_WORDS <? _) eqn:Emax; [refused|]. bool_props.
  set (count := info_length info - 4 - (size + 7) / 8) in *.
  destruct (get_mrs_ok s (Z.to_nat count) 4 Hs) as (ws & Ews & Hws); [lia|]. rewrite fbind_eq, Ews, fbind_eq.
  destruct (received_payload_safe s (4 + Z.to_nat count) ((size + 7) / 8) size Hs Hn) as (x & Ex & Hx); [lia|lia|].
  rewrite Ex. destruct x as [data| |]; [|refused|done].
  destruct (1 <? info_extra_caps info) eqn:Eex; [refused|]. bool_props.
  assert (forall l, zlen l <= 1 -> well_formed (set_attachments l (mkMessage (u32 v) (u32 id) (u32 fl) ws data size
    (match data with Some _ => size | None => 0 end) []))) as Hwf.
  { intros l Hl. split; [unfold payload_ok, payload_bytes; cbn; done|]. split; [|done].
    unfold word_count, zlen. cbn. lia. }
  destruct (info_extra_caps info =? 1); [destruct (negb handle_ok); [refused|]|]; eexists; (split; [reflexivity|]).
  - apply Hwf. unfold zlen. rewrite length_map, length_firstn. lia.
  - by apply (Hwf []).
Qed.

Lemma client_reply_guards : guards (client_reply received malloc_ok handle_ok).
Proof.
  intros info caps s Hs Hlen Hex. unfold client_reply. destruct (_ || _)%bool eqn:E0; [refused|]. bool_props.
  destruct (get_mr_ok s 0 Hs) as (first & G0 & _); [lia|]. destruct (get_mr_ok s 1 Hs) as (v & G1 & _); [lia|].
  destruct (get_mr_ok s 2 Hs) as (fl & G2 & _); [lia|]. destruct (get_mr_ok s 3 Hs) as (size & G3 & Hsize); [lia|].
  rewrite fbind_eq, G1, fbind_eq, G2, fbind_eq, G3. destruct (_ || _)%bool eqn:Ev; [refused|]. bool_props.
  match goal with H : _ <= FACET_RPC_MAX_INLINE_PAYLOAD |- _ => unfold FACET_RPC_MAX_INLINE_PAYLOAD in H end.
  destruct (words_count_small size) as [Ew _]; [lia|]. cbv zeta. rewrite Ew. destruct (words_cover size) as [Hcover Hn]; [lia|].
  destruct (_ || _)%bool eqn:Eav; [refused|]. bool_props. destruct (FACET_RPC_MAX_WORDS <? _) eqn:Emax; [refused|]. bool_props.
  set (count := 1 + (info_length info - 4) - (size + 7) / 8) in *. rewrite fbind_eq, G0, fbind_eq.
  destruct (get_mrs_ok s (Z.to_nat (count - 1)) 4 Hs) as (ws & Ews & Hws); [lia|]. rewrite Ews.
  destruct (negb _); [refused|]. rewrite fbind_eq.
  destruct (received_payload_safe s (4 + Z.to_nat count - 1) ((size + 7) / 8) size Hs Hn) as (x & Ex & Hx); [lia|lia|].
  rewrite Ex. destruct x as [data| |]; [|refused|done]. destruct (_ && _)%bool; [refused|]. eexists. split; [reflexivity|].
  split; [unfold payload_ok, payload_bytes; cbn; done|]. split.
  - unfold word_count. cbn [words]. rewrite zlen_cons. unfold zlen. rewrite Hws. lia.
  - unfold attachment_count, zlen. cbn [attachments]. rewrite length_map, length_firstn. lia.
Qed.

End Untrusted.

(** C18: The readers of the application processes are robust: whatever the registers,
    the length and the capabilities of a received message, decoding a request
    (service.c) and decoding a reply (client.c) end without reading outside the IPC
    buffer, and what they accept has at most 64 words, at most one attachment and a
    payload block of exactly the announced size, which is what the server stub and
    the client proxy rely on. *)
Theorem wire_readers_safe (seL4_MsgMaxLength : Z) (received : Z -> Z) (malloc_ok handle_ok : bool)
    (Hmax : 4 <= seL4_MsgMaxLength < 2 ^ 32) :
  guards seL4_MsgMaxLength (decode_request received malloc_ok handle_ok) /\
  guards seL4_MsgMaxLength (client_reply received malloc_ok handle_ok).
Proof. split; [by apply decode_request_guards|by apply client_reply_guards]. Qed.

Lemma wire_readers_safe_witness :
  exists x s, decode_request id true true (mkInfo 7 120) [] (mkIpc (repeat 4294967295 120) []) = (x, s) /\ x <> Fault.
Proof.
  destruct (wire_readers_safe 120 id true true ltac:(lia)) as [Hd _].
  destruct (Hd (mkInfo 7 120) [] (mkIpc (repeat 4294967295 120) [])) as (x & E & Hx).
  - split; [vm_compute; reflexivity|]. by_decide.
  - vm_compute. split; discriminate.
  - vm_compute. discriminate.
  - exists x, (mkIpc (repeat 4294967295 120) []). split; [exact E|]. destruct x; [done|done|destruct Hx].
Defined.

(** ** Payloads in a page of their own *)

(** A message of dominit0 with a payload for a page. *)
Record paged_ok (m : FacetRpcMessage) : Prop := {
  paged_words : word_count m <= FACET_RPC_MAX_WORDS;
  paged_payload : payload_ok m;
  paged_size : FACET_RPC_MAX_INLINE_PAYLOAD < payload_size m <= page_size;
  paged_flags : flags m = 0;
  paged_version : protocol_version m = FACET_RPC_PROTOCOL_VERSION;
  paged_attachments : attachments m = []
}.

Definition paged_flag : Z := Z.lor FACET_SEL4_FLAG_SHARED_PAYLOAD (Z.shiftl 1 FACET_SEL4_BUFFER_COUNT_SHIFT).

Definition page_of (m : FacetRpcMessage) : bytes :=
  firstn (Z.to_nat (payload_size m)) (payload_bytes m) ++ repeat 0 (Z.to_nat (page_size - payload_size m)).

Lemma bulk_prepare_paged m : paged_ok m ->
  bulk_prepare true true m =
    (Ok [page_of m],
     set_attachments [mkAttachment FACET_RPC_ATTACHMENT_BUFFER 0 (payload_size m)] (set_flags paged_flag m)).
Proof.
  intros [Hw Hp Hs Hf Hv Ha]. unfold bulk_prepare. rewrite payload_not_null by done.
  unfold FACET_RPC_MAX_INLINE_PAYLOAD, page_size in *. rewrite (proj2 (Z.leb_gt _ _)) by lia.
  unfold SIZE_MAX. rewrite (proj2 (Z.ltb_ge _ _)) by lia.
  assert ((payload_size m + 4096 - 1) / 4096 = 1) as -> by dlia.
  unfold attachment_count, FACET_SEL4_MAX_ATTACHMENTS. rewrite Ha, Hf. cbv zeta.
  change ((1 =? 2 ^ 64 - 1) || (1 <? 1) || (1 - 1 <? zlen [])) with false. cbn [negb].
  rewrite (proj2 (Z.ltb_ge _ _)) by (unfold payload_ok, payload_bytes in Hp; lia). reflexivity.
Qed.

Section Paged.
Context (seL4_MsgMaxLength seL4_MsgMaxExtraCaps : Z) (endpoint received : Z -> Z).
Context (Hcaps : 1 <= seL4_MsgMaxExtraCaps).

(** Sending such a request writes its header, its words and the page. *)
Lemma platform_send_paged m s :
  paged_ok m -> 4 + word_count m <= seL4_MsgMaxLength -> buffer_ok seL4_MsgMaxLength seL4_MsgMaxExtraCaps s ->
  exists s' post post', platform_send seL4_MsgMaxLength endpoint true true 0 m s = (Ok (mkInfo 1 (4 + word_count m)), s') /\
    mrs s' = [method_id m; FACET_RPC_PROTOCOL_VERSION; paged_flag; payload_size m] ++ words m ++ post /\
    ipc_caps s' = CapFrame (page_of m) :: post'.
Proof.
  intros Hm Hmax Hs. unfold platform_send. cbn [Z.eqb]. cbv zeta. rewrite bulk_prepare_paged by done.
  destruct Hm as [Hw Hp Hsz Hf Hv Ha]. unfold message_from_request.
  cbn [flags set_flags set_attachments payload_size payload attachments]. change (shared paged_flag) with true. cbv zeta.
  unfold word_count, attachment_count in *. cbn [words attachments set_flags set_attachments protocol_version method_id flags payload_size].
  change (zlen [_]) with 1. rewrite payload_not_null by done. pose proof (zlen_nonneg (words m)).
  unfold FACET_RPC_MAX_WORDS, FACET_SEL4_MAX_ATTACHMENTS, SIZE_MAX in *. refute_checks. cbn [orb Z.eqb].
  destruct (write_in_order seL4_MsgMaxLength seL4_MsgMaxExtraCaps s [method_id m; protocol_version m; paged_flag; payload_size m] (words m) [] Hs eq_refl)
    as (s1 & s2 & d & W1 & W2 & W3); [rewrite zlen_nil; lia|].
  rewrite fbind_eq, W1, fbind_eq, W2, fbind_eq.
  rewrite payload_data_ok by (unfold payload_ok, payload_bytes in *; cbn; done).
  unfold payload_words. change (Z.to_nat 0) with 0%nat. cbn [seq map]. rewrite fbind_eq, W3, fbind_eq. cbn [attachment_cap attachment_kind].
  destruct Hs as [_ Hc]. destruct (ipc_caps s) as [|c caps] eqn:Ec; [rewrite zlen_nil in Hc; lia|].
  cbn [set_caps]. rewrite fbind_eq. unfold set_cap. cbn [ipc_caps length]. rewrite bool_decide_true by lia. cbn [fret].
  rewrite Z.add_0_r, (Z.add_comm _ 4). eexists _, d, caps. split; [reflexivity|]. cbn [mrs ipc_caps]. rewrite Hv. done.
Qed.

Lemma server_receive_paged m s post :
  paged_ok m -> 0 <= method_id m < 2 ^ 32 -> 4 + word_count m <= seL4_MsgMaxLength ->
  mrs s = [method_id m; FACET_RPC_PROTOCOL_VERSION; paged_flag; payload_size m] ++ words m ++ post ->
  exists m', server_receive seL4_MsgMaxLength received true true true (mkInfo 1 (4 + word_count m)) [CapFrame (page_of m)] s = (Ok m', s) /\
    method_id m' = method_id m /\ words m' = words m /\ payload m' = Some (payload_bytes m) /\ payload_ok m'.
Proof.
  intros [Hw Hp Hsz Hf Hv Ha] Hid Hmax Hs. unfold server_receive, request_from_message. cbn [info_length info_extra_caps].
  assert (get_mr 0 s = (Ok (method_id m), s) /\ get_mr 1 s = (Ok FACET_RPC_PROTOCOL_VERSION, s) /\
    get_mr 2 s = (Ok paged_flag, s) /\ get_mr 3 s = (Ok (payload_size m), s)) as (G0 & G1 & G2 & G3).
  { unfold get_mr. rewrite Hs. done. }
  assert (get_mrs 4 (Z.to_nat (word_count m)) s = (Ok (words m), s)) as G4.
  { eapply (get_mrs_at s [_; _; _; _] (words m)); [exact Hs|done|]. unfold word_count, zlen. lia. }
  pose proof (zlen_nonneg (words m)) as Hw0. unfold word_count in *. unfold FACET_RPC_MAX_INLINE_PAYLOAD, page_size in *.
  rewrite fbind_eq, fbind_eq, G0, fbind_eq, G1, fbind_eq, G2, fbind_eq, G3.
  change (negb (u32 FACET_RPC_PROTOCOL_VERSION =? FACET_RPC_PROTOCOL_VERSION)) with false.
  change (shared (u32 paged_flag)) with true. cbv zeta. cbn [negb andb]. change (0 =? SIZE_MAX) with false.
  rewrite (proj2 (Z.leb_le 4 _)) by lia. replace (4 + zlen (words m) - 4 - 0) with (zlen (words m)) by lia.
  unfold FACET_RPC_MAX_WORDS in *. refute_checks. cbn [orb]. rewrite fbind_eq, G4. rewrite fbind_eq. cbn [fret flags].
  change (buffer_count_of (u32 paged_flag)) with 1. change (Z.min 1 FACET_SEL4_MAX_ATTACHMENTS <? 1) with false. cbv iota.
  change (1 =? 0) with false. cbv iota. unfold flift, bulk_read_received. cbn [flags set_attachments payload_size attachments].
  change (negb (shared (u32 paged_flag))) with false. change (Z.to_nat (Z.min 1 FACET_SEL4_MAX_ATTACHMENTS)) with 1%nat.
  cbn [firstn map]. unfold attachment_count. cbn [attachments set_attachments]. change (zlen [_]) with 1.
  rewrite (proj2 (Z.eqb_neq (payload_size m) 0)) by lia. cbv iota.
  change (1 =? 0) with false. change (FACET_SEL4_MAX_ATTACHMENTS <? 1) with false.
  change (1 <? Z.min 1 FACET_SEL4_MAX_ATTACHMENTS - 1 + 1) with false. cbn [orb]. unfold page_size.
  rewrite (proj2 (Z.ltb_ge _ _)) by lia. cbn [negb].
  assert (firstn (Z.to_nat (payload_size m)) (page_of m) = payload_bytes m) as Hpage.
  { unfold page_of. unfold payload_ok in Hp. rewrite Hp. unfold zlen. rewrite Nat2Z.id, firstn_all.
    apply take_app_length. }
  rewrite Hpage. eexists. split; [reflexivity|]. cbn. rewrite u32_small by done.
  repeat (split; [done|]). unfold payload_ok, payload_bytes in *. cbn. done.
Qed.

End Paged.

(** A request of dominit0 with 513 to 4096 payload bytes and no handle arrives
    whole: the payload travels in a shared page, and the server of the same file
    reads back the method, the words and every payload byte. *)
Theorem large_request_roundtrip (seL4_MsgMaxLength seL4_MsgMaxExtraCaps : Z) (endpoint received : Z -> Z)
    (kernel : MessageInfo -> Ipc -> Ipc) (m : FacetRpcMessage) (s : Ipc)
    (Hcaps : 1 <= seL4_MsgMaxExtraCaps) (Hkernel : kernel_copies seL4_MsgMaxLength kernel) (Hm : paged_ok m)
    (Hid : 0 <= method_id m < 2 ^ 32) (Hmax : 4 + word_count m <= seL4_MsgMaxLength)
    (Hs : buffer_ok seL4_MsgMaxLength seL4_MsgMaxExtraCaps s) :
  exists info s' m' s'', platform_send seL4_MsgMaxLength endpoint true true 0 m s = (Ok info, s') /\
    server_receive seL4_MsgMaxLength received true true true info (sent_caps info s') (kernel info s') = (Ok m', s'') /\
    method_id m' = method_id m /\ words m' = words m /\ payload m' = Some (payload_bytes m) /\ payload_ok m'.
Proof.
  destruct (platform_send_paged _ _ endpoint Hcaps m s Hm Hmax Hs) as (s' & post & post' & E & Hregs & Hc).
  set (info := mkInfo 1 (4 + word_count m)) in *.
  assert (exists rest, mrs (kernel info s') = [method_id m; FACET_RPC_PROTOCOL_VERSION; paged_flag; payload_size m] ++ words m ++ rest)
    as [rest Hrest].
  { specialize (Hkernel info s' ltac:(cbn [info_length info]; unfold word_count; pose proof (zlen_nonneg (words m)); unfold word_count in *; lia)).
    exists (skipn (Z.to_nat (4 + word_count m)) (mrs (kernel info s'))). rewrite app_assoc.
    rewrite <- (firstn_skipn (Z.to_nat (4 + word_count m)) (mrs (kernel info s'))) at 1. f_equal.
    cbn [info_length info] in Hkernel. rewrite Hkernel, Hregs, app_assoc.
    replace (Z.to_nat (4 + word_count m)) with (length ([method_id m; FACET_RPC_PROTOCOL_VERSION; paged_flag; payload_size m] ++ words m))
      by (rewrite length_app; unfold word_count, zlen; simpl; lia). apply take_app_length. }
  destruct (server_receive_paged _ received m _ rest Hm Hid Hmax Hrest) as (m' & E' & Hrest').
  exists info, s', m', (kernel info s'). split; [done|]. split; [|done].
  unfold sent_caps. rewrite Hc. exact E'.
Qed.

Definition large_request : FacetRpcMessage := mkMessage 1 9 0 [5; 6] (Some (repeat 65 600)) 600 1024 [].

Lemma large_request_ok : paged_ok large_request.
Proof. split; vm_compute; done. Qed.

Lemma large_request_roundtrip_witness :
  exists info s' m' s'', platform_send 120 id true true 0 large_request empty_buffer = (Ok info, s') /\
    server_receive 120 id true true true info (sent_caps info s') s' = (Ok m', s'') /\
    payload m' = Some (repeat 65 600).
Proof.
  destruct (large_request_roundtrip 120 3 id id (fun _ s => s) large_request empty_buffer ltac:(lia) (fun _ _ _ => eq_refl)
    large_request_ok ltac:(vm_compute; split; [discriminate|reflexivity]) ltac:(vm_compute; discriminate) empty_buffer_ok)
    as (info & s' & m' & s'' & E & E' & _ & _ & Hp & _).
  exists info, s', m', s''. split; [exact E|]. split; [exact E'|exact Hp].
Defined.

(** ** Messages that are lost *)

(** What the caller makes of the answer: the code in its first word. *)
Definition caller_code (x : result FacetRpcMessage) : option FacetResult :=
  match x with
  | Ok m => Some (result_of_code (signed 32 (default 0 (head (words m)))))
  | Err code => Some code
  | Fault => None
  end.

Lemma bulk_prepare_large frame_ok map_ok m :
  payload_ok m -> FACET_RPC_MAX_INLINE_PAYLOAD < payload_size m -> flags m = 0 ->
  exists x m', bulk_prepare frame_ok map_ok m = (x, m') /\
    match x with
    | Ok frames => m' = set_attachments [mkAttachment FACET_RPC_ATTACHMENT_BUFFER 0 (payload_size m)] (set_flags paged_flag m)
    | Err _ => flags m' = 0 \/ flags m' = paged_flag
    | Fault => False
    end.
Proof.
  intros Hp Hs Hf. unfold bulk_prepare. rewrite payload_not_null by done. unfold FACET_RPC_MAX_INLINE_PAYLOAD in *.
  rewrite (proj2 (Z.leb_gt _ _)) by lia.
  match goal with |- context [if ?c then (Err FACET_BUFFER_TOO_SMALL, _) else _] => destruct c eqn:Ec end.
  { eexists _, m. split; [reflexivity|]. by left. }
  bool_props.
  set (pages := if SIZE_MAX - page_size + 1 <? payload_size m then SIZE_MAX else (payload_size m + page_size - 1) / page_size) in *.
  assert (1 <= pages) as Hp1.
  { unfold pages, page_size, SIZE_MAX. destruct (_ <? payload_size m); [lia|]. dlia. }
  unfold FACET_SEL4_MAX_ATTACHMENTS in *. assert (pages = 1) as Hpages by lia. rewrite Hpages in *.
  assert (attachments m = []) as Ha.
  { unfold attachment_count, zlen in *. destruct (attachments m); [done|simpl in *; lia]. }
  rewrite Hf, Ha. cbv zeta.
  change (Z.lor (Z.land (Z.lor 0 FACET_SEL4_FLAG_SHARED_PAYLOAD) (u32 (Z.lnot (Z.shiftl FACET_SEL4_BUFFER_COUNT_MASK FACET_SEL4_BUFFER_COUNT_SHIFT))))
    (Z.shiftl 1 FACET_SEL4_BUFFER_COUNT_SHIFT)) with paged_flag.
  destruct frame_ok; cbn [negb]; [|eexists _, _; split; [reflexivity|]; by right].
  destruct map_ok; cbn [negb]; [|eexists _, _; split; [reflexivity|]; by right].
  rewrite (proj2 (Z.ltb_ge _ _)) by (unfold payload_ok, payload_bytes in Hp; lia).
  eexists _, _. split; reflexivity.
Qed.

Section LargeReplies.
Context (seL4_MsgMaxLength : Z) (endpoint received : Z -> Z).
Context (Hmax : 4 <= seL4_MsgMaxLength < 2 ^ 32).

(** A reader whose registers begin with a header of a four register reply. *)
Lemma platform_reply_short code fl s post malloc_ok map_ok handle_ok caps :
  mrs s = [code; FACET_RPC_PROTOCOL_VERSION; fl; 0] ++ post -> buffer_count_of (u32 fl) = 0 \/ buffer_count_of (u32 fl) = 1 ->
  exists x, platform_reply received malloc_ok map_ok handle_ok (mkInfo 0 4) caps s = (x, s) /\
    (caller_code x = Some (result_of_code (signed 32 code)) \/ x = Err FACET_PROTOCOL_ERROR).
Proof.
  intros Hs Hb. unfold platform_reply, get_mr. rewrite !fbind_eq. rewrite Hs. cbn [app lookup list_lookup].
  rewrite !fbind_eq. rewrite Hs. cbn [app lookup list_lookup]. rewrite !fbind_eq. rewrite Hs. cbn [app lookup list_lookup].
  change (negb (u32 FACET_RPC_PROTOCOL_VERSION =? FACET_RPC_PROTOCOL_VERSION)) with false. cbv iota zeta.
  cbn [info_length info_extra_caps].
  assert ((if shared (u32 fl) then 0 else wire_word_count 0) = 0) as -> by (by destruct (shared (u32 fl))).
  change (0 =? SIZE_MAX) with false. change (4 <=? 4) with true. cbv iota. change (4 - 4) with 0. change (0 <=? 0) with true.
  cbv iota. change (FACET_RPC_MAX_WORDS <? 1 + (0 - 0)) with false. cbv iota.
  rewrite !fbind_eq. rewrite Hs. cbn [app lookup list_lookup]. change (Z.to_nat (1 + (0 - 0) - 1)) with 0%nat. cbn [get_mrs].
  rewrite !fbind_eq. cbn [fret]. change (negb (0 =? 0)) with false.
  assert (forall a b : bool, (a && false && b)%bool = false) as Hand by (by intros [] []). rewrite Hand. rewrite !fbind_eq. cbn [fret]. change (Z.min 0 FACET_SEL4_MAX_ATTACHMENTS) with 0.
  destruct Hb as [->| ->].
  - change (0 <? 0) with false. change (0 =? 0) with true. cbn [andb negb]. eexists. split; [reflexivity|]. by left.
  - change (0 <? 1) with true. cbv iota. eexists. split; [reflexivity|]. by right.
Qed.

(** Registers that the kernel has copied. *)
Lemma kernel_prefix kernel info s image post :
  kernel_copies seL4_MsgMaxLength kernel -> zlen image <= info_length info <= seL4_MsgMaxLength -> mrs s = image ++ post ->
  exists post', mrs (kernel info s) = image ++ post'.
Proof.
  intros Hk Hlen Hs. pose proof (zlen_nonneg image). specialize (Hk info s ltac:(lia)). unfold zlen in *.
  exists (skipn (length image) (mrs (kernel info s))). rewrite <- (firstn_skipn (length image) (mrs (kernel info s))) at 1. f_equal.
  apply (f_equal (firstn (length image))) in Hk. rewrite !firstn_firstn, !Nat.min_l in Hk by lia.
  rewrite Hk, Hs. apply take_app_length.
Qed.

Section Lost.
Context (seL4_MsgMaxExtraCaps : Z) (Hcaps : 1 <= seL4_MsgMaxExtraCaps).
Context (kernel : MessageInfo -> Ipc -> Ipc) (Hkernel : kernel_copies seL4_MsgMaxLength kernel).

(** The caller does not get the reply. *)
Definition lost (info : MessageInfo) (s : Ipc) : Prop :=
  exists x, platform_reply received true true true info (sent_caps info s) (kernel info s) = (x, kernel info s) /\
    (caller_code x = Some FACET_BUFFER_TOO_SMALL \/ caller_code x = Some FACET_PROTOCOL_ERROR).

Lemma short_reply_lost code fl s post :
  result_of_code (signed 32 code) = FACET_BUFFER_TOO_SMALL ->
  mrs s = [code; FACET_RPC_PROTOCOL_VERSION; fl; 0] ++ post ->
  buffer_count_of (u32 fl) = 0 \/ buffer_count_of (u32 fl) = 1 -> lost (mkInfo 0 4) s.
Proof.
  intros Hcode Hs Hb. assert (zlen [code; FACET_RPC_PROTOCOL_VERSION; fl; 0] <= 4 <= seL4_MsgMaxLength) as Hlen.
  { change (zlen [_; _; _; _]) with 4. lia. }
  destruct (kernel_prefix kernel (mkInfo 0 4) s _ post Hkernel Hlen Hs) as [post' Hs'].
  destruct (platform_reply_short code fl (kernel (mkInfo 0 4) s) post' true true true (sent_caps (mkInfo 0 4) s) Hs' Hb)
    as (x & E & Hx). exists x. split; [done|]. destruct Hx as [Hx| ->]; [left; by rewrite Hx, Hcode|by right].
Qed.

Lemma error_reply_lost s : buffer_ok seL4_MsgMaxLength seL4_MsgMaxExtraCaps s ->
  exists info s', error_reply FACET_BUFFER_TOO_SMALL s = (Ok info, s') /\ lost info s'.
Proof.
  intros Hs. unfold error_reply.
  destruct (write_in_order _ _ s [u32 (code_of_result FACET_BUFFER_TOO_SMALL); FACET_RPC_PROTOCOL_VERSION; 0; 0] [] [] Hs eq_refl)
    as (s1 & s2 & d & W1 & W2 & W3); [rewrite !zlen_nil; lia|].
  rewrite fbind_eq, W1. cbn [fret]. eexists _, s1. split; [reflexivity|].
  assert (exists d', mrs s1 = [u32 (code_of_result FACET_BUFFER_TOO_SMALL); FACET_RPC_PROTOCOL_VERSION; 0; 0] ++ d') as [d' Hd'].
  { cbn [set_mrs] in W2, W3. unfold fret in W2, W3. simplify_eq. exists d. done. }
  eapply short_reply_lost; [|exact Hd'|by left]. vm_compute. reflexivity.
Qed.

Lemma refused_reply_lost m s fl :
  flags m = fl -> buffer_count_of (u32 fl) = 0 \/ buffer_count_of (u32 fl) = 1 ->
  buffer_ok seL4_MsgMaxLength seL4_MsgMaxExtraCaps s ->
  exists info s', reply_to_message seL4_MsgMaxLength endpoint
      (set_words [u64 (code_of_result FACET_BUFFER_TOO_SMALL)] (set_attachments [] (set_payload None 0 0 m))) [] s = (Ok info, s') /\
    lost info s'.
Proof.
  intros Hfl Hb Hs. unfold reply_to_message. cbn [payload_size payload words attachments flags set_words set_attachments set_payload head tail from_option id].
  change (wire_word_count 0) with 0. unfold word_count, attachment_count. cbn [words attachments set_words set_attachments set_payload].
  change (u64 (zlen [u64 (code_of_result FACET_BUFFER_TOO_SMALL)] + 0 + 3)) with 4.
  change (0 =? SIZE_MAX) with false. change (4 <? zlen [_]) with false. change (0 =? 0) with true. rewrite (proj2 (Z.ltb_ge _ _)) by lia.
  cbn [negb andb orb]. change (FACET_SEL4_MAX_ATTACHMENTS <? zlen []) with false. cbv iota.
  destruct (write_in_order _ _ s [u64 (code_of_result FACET_BUFFER_TOO_SMALL); FACET_RPC_PROTOCOL_VERSION; flags m; 0] [] [] Hs eq_refl)
    as (s1 & s2 & d & W1 & W2 & W3); [rewrite !zlen_nil; lia|].
  rewrite fbind_eq, W1, fbind_eq, W2, fbind_eq. cbn [payload_data payload set_words set_attachments set_payload fret].
  unfold payload_words. change (Z.to_nat 0) with 0%nat. cbn [seq map set_mrs]. rewrite !fbind_eq. cbn [fret set_caps]. rewrite !fbind_eq. cbn [fret].
  change (zlen (@nil FacetRpcAttachment)) with 0. eexists _, s2. split; [reflexivity|].
  cbn [set_mrs] in W3. unfold fret in W3. simplify_eq.
  eapply (short_reply_lost _ (flags m)); [|cbn [mrs]; reflexivity|done]. vm_compute. reflexivity.
Qed.

(** A reply that announces a page but counts the payload words as well. *)
Lemma paged_reply_lost m frames s :
  payload_ok m -> FACET_RPC_MAX_INLINE_PAYLOAD < payload_size m < 2 ^ 63 -> words m <> [] -> word_count m <= FACET_RPC_MAX_WORDS ->
  buffer_ok seL4_MsgMaxLength seL4_MsgMaxExtraCaps s ->
  exists info s', reply_to_message seL4_MsgMaxLength endpoint
      (set_attachments [mkAttachment FACET_RPC_ATTACHMENT_BUFFER 0 (payload_size m)] (set_flags paged_flag m)) frames s = (Ok info, s') /\
    lost info s'.
Proof.
  intros Hp Hsz Hne Hw Hs. unfold reply_to_message. unfold word_count, attachment_count in *.
  cbn [payload_size payload words attachments flags set_flags set_attachments] in *. rewrite payload_not_null by done.
  unfold FACET_RPC_MAX_INLINE_PAYLOAD, FACET_RPC_MAX_WORDS in *.
  assert (wire_word_count (payload_size m) = (payload_size m + 7) / 8 /\ 65 <= (payload_size m + 7) / 8 < 2 ^ 61) as [En Hn].
  { unfold wire_word_count, SIZE_MAX. rewrite (proj2 (Z.ltb_ge _ _)) by lia. split; [done|dlia]. }
  cbv zeta. rewrite En. unfold u64. pose proof (zlen_nonneg (words m)) as Hw0. rewrite Z.mod_small by lia.
  match goal with |- context [if ?c then error_reply _ else _] => destruct c eqn:Ec; [by apply error_reply_lost|] end.
  bool_props. change (FACET_SEL4_MAX_ATTACHMENTS <? zlen [_]) with false. cbv iota.
  destruct (words_head_tail m Hne) as [Ht1 Ht2]. unfold word_count in Ht1.
  destruct (write_in_order _ _ s [default 0 (head (words m)); FACET_RPC_PROTOCOL_VERSION; paged_flag; payload_size m]
    (tail (words m)) (message_words m) Hs eq_refl) as (s1 & s2 & d & W1 & W2 & W3).
  { unfold message_words. rewrite payload_words_length by lia. lia. }
  rewrite fbind_eq, W1, fbind_eq, W2, fbind_eq.
  rewrite payload_data_ok by (unfold payload_ok, payload_bytes in *; cbn; done).
  change (payload_bytes (set_attachments _ (set_flags paged_flag m))) with (payload_bytes m). fold (message_words m).
  replace (length (words m) + 3)%nat with (4 + length (tail (words m)))%nat by lia. rewrite fbind_eq, W3.
  destruct Hs as [_ Hc]. destruct (ipc_caps s) as [|c caps] eqn:Ecaps; [rewrite zlen_nil in Hc; lia|].
  cbn [map set_caps]. rewrite !fbind_eq. unfold set_cap. cbn [mrs ipc_caps length]. rewrite bool_decide_true by lia. cbn [fret].
  eexists _, _. split; [reflexivity|]. set (info := mkInfo _ _).
  destruct (kernel_prefix kernel info (mkIpc ([default 0 (head (words m)); FACET_RPC_PROTOCOL_VERSION; paged_flag; payload_size m] ++
      tail (words m) ++ message_words m ++ d) (<[0%nat := attachment_cap endpoint frames (mkAttachment FACET_RPC_ATTACHMENT_BUFFER 0 (payload_size m))]> (c :: caps)))
    [default 0 (head (words m)); FACET_RPC_PROTOCOL_VERSION; paged_flag; payload_size m] (tail (words m) ++ message_words m ++ d) Hkernel)
    as [post Hpost]; [cbn [info_length info]; change (zlen [_; _; _; _]) with 4; lia|done|].
  unfold lost. match goal with |- context [kernel info ?st] => set (s' := kernel info st) in * end.
  exists (Err FACET_PROTOCOL_ERROR). split; [|by right].
  unfold platform_reply, get_mr. rewrite !fbind_eq. rewrite Hpost. cbn [app lookup list_lookup].
  rewrite !fbind_eq. rewrite Hpost. cbn [app lookup list_lookup]. rewrite !fbind_eq. rewrite Hpost. cbn [app lookup list_lookup].
  change (negb (u32 FACET_RPC_PROTOCOL_VERSION =? FACET_RPC_PROTOCOL_VERSION)) with false.
  change (shared (u32 paged_flag)) with true. cbv iota zeta. change (0 =? SIZE_MAX) with false. cbv iota.
  cbn [info_length info]. rewrite (proj2 (Z.leb_le 4 _)) by lia. rewrite (proj2 (Z.leb_le 0 _)) by lia.
  unfold FACET_RPC_MAX_WORDS. rewrite (proj2 (Z.ltb_lt _ _)) by lia. reflexivity.
Qed.

End Lost.

End LargeReplies.

(** A reply with more than 512 payload bytes never reaches its caller through
    platform.c: the writer marks the payload as sent in a page but still counts its
    words in the length, so the reader finds too many words, or the length exceeds
    the registers; the caller gets FACET_PROTOCOL_ERROR or FACET_BUFFER_TOO_SMALL
    although the method ran. *)
Theorem large_reply_lost (seL4_MsgMaxLength seL4_MsgMaxExtraCaps : Z) (endpoint received : Z -> Z) (frame_ok map_ok : bool)
    (kernel : MessageInfo -> Ipc -> Ipc) (m : FacetRpcMessage) (s : Ipc)
    (Hmax : 4 <= seL4_MsgMaxLength < 2 ^ 32) (Hcaps : 1 <= seL4_MsgMaxExtraCaps)
    (Hkernel : kernel_copies seL4_MsgMaxLength kernel) (Hs : buffer_ok seL4_MsgMaxLength seL4_MsgMaxExtraCaps s)
    (Hp : payload_ok m) (Hsize : FACET_RPC_MAX_INLINE_PAYLOAD < payload_size m < 2 ^ 63) (Hflags : flags m = 0)
    (Hne : words m <> []) (Hw : word_count m <= FACET_RPC_MAX_WORDS) :
  exists info s' x s'', server_reply seL4_MsgMaxLength endpoint frame_ok map_ok m s = (Ok info, s') /\
    platform_reply received true true true info (sent_caps info s') (kernel info s') = (x, s'') /\
    (caller_code x = Some FACET_BUFFER_TOO_SMALL \/ caller_code x = Some FACET_PROTOCOL_ERROR).
Proof.
  assert (exists info s', server_reply seL4_MsgMaxLength endpoint frame_ok map_ok m s = (Ok info, s') /\
    lost received kernel info s') as (info & s' & E & x & Ex & Hx); [|by exists info, s', x, (kernel info s')].
  unfold server_reply. destruct (bulk_prepare_large frame_ok map_ok m Hp ltac:(lia) Hflags) as (x & m' & -> & Hx).
  destruct x as [frames|code|]; [subst m'| |done].
  - by eapply paged_reply_lost.
  - eapply refused_reply_lost; try done. destruct Hx as [-> | ->]; [by left|by right].
Qed.

Definition large_reply : FacetRpcMessage := mkMessage 1 0 0 [0] (Some (repeat 65 600)) 600 0 [].

Lemma large_reply_lost_witness :
  exists info s' x s'', server_reply 120 id true true large_reply empty_buffer = (Ok info, s') /\
    platform_reply id true true true info (sent_caps info s') s' = (x, s'') /\
    (caller_code x = Some FACET_BUFFER_TOO_SMALL \/ caller_code x = Some FACET_PROTOCOL_ERROR).
Proof.
  apply (large_reply_lost 120 3 id id true true (fun _ s => s) large_reply empty_buffer ltac:(lia) ltac:(lia)
    (fun _ _ _ => eq_refl) empty_buffer_ok).
  - vm_compute. reflexivity.
  - vm_compute. split; reflexivity.
  - reflexivity.
  - discriminate.
  - vm_compute. discriminate.
Defined.

(** A request can crash dominit0: with the flag of a shared payload, no page and
    a payload size, the server of platform.c accepts a request without a payload
    block that announces bytes, and the stub of a method with a string parameter
    reads them through the null pointer. *)
Theorem shared_flag_crashes_server :
  exists m s, server_receive 120 id true true true (mkInfo 0 4) []
      (mkIpc ([3; FACET_RPC_PROTOCOL_VERSION; FACET_SEL4_FLAG_SHARED_PAYLOAD; 100] ++ repeat 0 116) []) = (Ok m, s) /\
    fst (serve plenty lookup_methods m 0 0 0%nat) = Fault.
Proof. eexists _, _. split; [vm_compute; reflexivity|vm_compute; reflexivity]. Qed.

(** A reply can crash its caller: platform.c accepts a reply of four registers
    that announces payload bytes it does not carry, and reading a string output
    follows the null payload pointer. *)
Theorem short_reply_crashes_client :
  exists m s, platform_reply id true true true (mkInfo 0 4) []
      (mkIpc ([0; FACET_RPC_PROTOCOL_VERSION; 0; 100] ++ repeat 0 116) []) = (Ok m, s) /\
    fst (take_payload plenty (mkParam FACET_TYPE_STRING FACET_PARAM_OUT None) m (mkReader 1 0 (payload_codec m 0 0))) = Fault.
Proof. eexists _, _. split; [vm_compute; reflexivity|vm_compute; reflexivity]. Qed.

(** The size check of requests in platform.c is one register short: 53 words
    and 512 payload bytes pass it and are written one register beyond the 120 of the
    IPC buffer, where client.c refuses the same message. *)
Theorem request_overruns_registers :
  let m := mkMessage 1 9 0 (repeat 1 53) (Some (repeat 65 512)) 512 512 [] in
  fst (platform_send 120 id true true 0 m empty_buffer) = Fault /\
  fst (client_send 120 3 id m empty_buffer) = Err FACET_NOT_SUPPORTED.
Proof. vm_compute. split; reflexivity. Qed.
