(* ===== verification/Auth.v ===== *)
(** The authentication authority of dominit0 (src/src/dominit0/auth.c): principals,
    password checks, proofs of authentication and sessions, and the entry point of
    [crypt] (src/src/posix/libc/crypt.c).

    A handle is a number, 0 being the null handle; [objects] is what the live handles
    denote.  Objects of other processes answer the proof interface as they like
    ([OForeign]).  [step_ok] answers the n-th operation that needs a resource: an
    allocation, an export, a clone or a remote call.  The password hash function
    [__crypt_sha256] is code of the C library outside the repository, and a
    parameter; so are the interface identifiers, which the build generates. *)
From stdpp Require Import gmap.
From S2P Require Import Prelude ConfigTypes Effects.

Record Session := mkSession {
  session_principal : Z;
  session_domain_id : Z;
  session_user : FacetConfigUser
}.

(** What a handle denotes; the numbers are the positions of an authority and of one
    of its users. *)
Inductive Object :=
  | OPrincipal (a u : nat)
  | OHuman (a u : nat)
  | OAuthenticated (a u : nat)
  | OSession (a : nat) (s : Session)
  | OService (a : nat)
  | OSecurity (a : nat)
  | OForeign (principal : option Object) (proof_domain : option Z) (name : option bytes).

Record AuthUser := mkAuthUser {
  user_config : FacetConfigUser;
  principal_handle : Z;
  human_handle : Z;
  authenticated_handle : Z
}.

(** The array of users is empty while its pointer is null. *)
Record AuthAuthority := mkAuthority {
  service_handle : Z;
  security_handle : Z;
  auth_user_count : nat;
  auth_users : list AuthUser;
  sessions : list (Z * Session);
  auth_domain_id : Z
}.

Definition zero_authority : AuthAuthority := mkAuthority 0 0 0 [] [] 0.

Record AuthState := mkAuth {
  authorities : option (list AuthAuthority);
  objects : gmap Z Object;
  next_handle : Z;
  operations : nat
}.

Definition authority_list (s : AuthState) : list AuthAuthority := default [] (authorities s).

Definition Auth (A : Type) := Eff AuthState A.

Definition set_objects (f : gmap Z Object -> gmap Z Object) (s : AuthState) : AuthState :=
  mkAuth (authorities s) (f (objects s)) (next_handle s) (operations s).

Definition update_authority (a : nat) (f : AuthAuthority -> AuthAuthority) (s : AuthState) : AuthState :=
  mkAuth (alter f a <$> authorities s) (objects s) (next_handle s) (operations s).

Definition set_users (f : list AuthUser -> list AuthUser) (x : AuthAuthority) : AuthAuthority :=
  mkAuthority (service_handle x) (security_handle x) (auth_user_count x) (f (auth_users x)) (sessions x) (auth_domain_id x).
Definition set_sessions (f : list (Z * Session) -> list (Z * Session)) (x : AuthAuthority) : AuthAuthority :=
  mkAuthority (service_handle x) (security_handle x) (auth_user_count x) (auth_users x) (f (sessions x)) (auth_domain_id x).
Definition set_service (h : Z) (x : AuthAuthority) : AuthAuthority :=
  mkAuthority h (security_handle x) (auth_user_count x) (auth_users x) (sessions x) (auth_domain_id x).
Definition set_security (h : Z) (x : AuthAuthority) : AuthAuthority :=
  mkAuthority (service_handle x) h (auth_user_count x) (auth_users x) (sessions x) (auth_domain_id x).

Definition set_principal_handle (h : Z) (u : AuthUser) : AuthUser :=
  mkAuthUser (user_config u) h (human_handle u) (authenticated_handle u).
Definition set_human_handle (h : Z) (u : AuthUser) : AuthUser :=
  mkAuthUser (user_config u) (principal_handle u) h (authenticated_handle u).
Definition set_authenticated_handle (h : Z) (u : AuthUser) : AuthUser :=
  mkAuthUser (user_config u) (principal_handle u) (human_handle u) h.

Definition update_user (a u : nat) (f : AuthUser -> AuthUser) : AuthState -> AuthState :=
  update_authority a (set_users (alter f u)).

Definition get_authority (a : nat) : Auth AuthAuthority := fun s =>
  match authority_list s !! a with Some x => (Ok x, s) | None => (Fault, s) end.

Definition get_user (a u : nat) : Auth AuthUser :=
  run x <- get_authority a;
  match auth_users x !! u with Some user => fret user | None => ffault end.

(** The users of an authority for a loop over their number; reading beyond the array,
    which is null while there is none, is a fault. *)
Definition counted_users (x : AuthAuthority) : Auth (list AuthUser) :=
  if (auth_user_count x =? length (auth_users x))%nat then fret (auth_users x) else ffault.

(** A C string that may be null. *)
Definition c_string (s : option bytes) : Auth bytes := match s with Some b => fret b | None => ffault end.

(** The bytes before the first NUL. *)
Fixpoint until_nul (s : bytes) : bytes :=
  match s with
  | [] => []
  | c :: rest => if c =? 0 then [] else c :: until_nul rest
  end.

(** [crypt.c]: only SHA-256 settings are supported. *)
Definition crypt (crypt_sha256 : bytes -> bytes -> option bytes) (key setting : bytes) : option bytes :=
  match setting with
  | 36 :: 53 :: 36 :: _ => crypt_sha256 key setting
  | _ => Some (B "*")
  end.

(** The loop over the bytes; [None] is a read outside one of the operands. *)
Fixpoint difference (left right : bytes) (size : nat) (acc : Z) {struct size} : option Z :=
  match size, left, right with
  | O, _, _ => Some acc
  | S n, a :: l, b :: r => difference l r n (Z.lor acc (Z.lxor a b))
  | S _, _, _ => None
  end.

Definition constant_time_equal (left right : bytes) (size : nat) : option bool :=
  (fun d => d =? 0) <$> difference left right size 0.

Section Authority.
Context (step_ok : nat -> bool) (crypt_sha256 : bytes -> bytes -> option bytes) (sha256 : bytes -> bytes).
Context (IID_IGenericObject IID_IPrincipal IID_IHumanUser IID_IAuthenticatedPrincipal : bytes).
Context (IID_IAuthService IID_ISession IID_ISecurityManager : bytes).

Definition step : Auth bool := fun s =>
  (Ok (step_ok (operations s)), mkAuth (authorities s) (objects s) (next_handle s) (S (operations s))).

(** A fresh handle for an object. *)
Definition new_handle (o : Object) : Auth Z := fun s =>
  (Ok (next_handle s),
   mkAuth (authorities s) (<[next_handle s := o]> (objects s)) (next_handle s + 1) (operations s)).

Definition libfacet_export_interface (o : Object) : Auth Z :=
  run ok <- step; if (ok : bool) then new_handle o else ferr FACET_OUT_OF_MEMORY.

Definition libfacet_handle_clone (h : Z) : Auth Z :=
  run l <- fget objects;
  match l !! h with
  | None => ferr FACET_INVALID_HANDLE
  | Some o => run ok <- step; if (ok : bool) then new_handle o else ferr FACET_OUT_OF_MEMORY
  end.

Definition release (h : Z) : AuthState -> AuthState := set_objects (delete h).
Definition libfacet_handle_release (h : Z) : Auth unit := fput (release h).

(** The object of an exported handle disappears for every holder. *)
Definition same_object (o o' : Object) : bool :=
  match o, o' with
  | OPrincipal a u, OPrincipal a' u' | OHuman a u, OHuman a' u' | OAuthenticated a u, OAuthenticated a' u' =>
      ((a =? a') && (u =? u'))%nat%bool
  | OService a, OService a' | OSecurity a, OSecurity a' => (a =? a')%nat
  | OSession a s, OSession a' s' => ((a =? a')%nat && (session_principal s =? session_principal s'))%bool
  | _, _ => false
  end.

Definition libfacet_unexport_interface (h : Z) : Auth unit := fput (fun s =>
  match objects s !! h with
  | Some o => set_objects (filter (fun e => same_object o (snd e) = false)) s
  | None => s
  end).

Definition clone_handle (h : Z) : Auth Z := if h =? 0 then ferr FACET_INVALID_HANDLE else libfacet_handle_clone h.

(** Clone the handle of the first interface that matches. *)
Definition get_interface (iid : bytes) (known : list (bytes * Z)) : Auth Z :=
  match find (fun e => iid =b fst e) known with
  | Some (_, h) => clone_handle h
  | None => ferr FACET_NO_INTERFACE
  end.

Definition principal_get_interface (a u : nat) (iid : bytes) : Auth Z :=
  run user <- get_user a u;
  get_interface iid [(IID_IGenericObject, principal_handle user); (IID_IPrincipal, principal_handle user);
                     (IID_IHumanUser, human_handle user)].

Definition principal_id (a u : nat) : Auth bytes :=
  run user <- get_user a u;
  run name <- c_string (user_name (user_config user));
  fret (firstn 16 (sha256 name)).

Definition principal_name (a u : nat) : Auth bytes :=
  run user <- get_user a u; c_string (user_name (user_config user)).

Definition human_get_interface (a u : nat) (iid : bytes) : Auth Z :=
  run user <- get_user a u;
  get_interface iid [(IID_IGenericObject, human_handle user); (IID_IHumanUser, human_handle user);
                     (IID_IPrincipal, principal_handle user)].

Definition human_full_name (a u : nat) : Auth bytes := principal_name a u.
Definition human_home (a u : nat) : Auth bytes := run user <- get_user a u; c_string (home_path (user_config user)).
Definition human_uid (a u : nat) : Auth Z := run user <- get_user a u; fret (uid (user_config user)).
Definition human_gid (a u : nat) : Auth Z := run user <- get_user a u; fret (gid (user_config user)).
Definition human_admin (a u : nat) : Auth bool := run user <- get_user a u; fret (admin (user_config user)).
Definition human_shell (a u : nat) : Auth bytes :=
  run user <- get_user a u; fret (default (B "/FacetOS/FacetShell") (native_shell (user_config user))).
Definition human_pronouns (a u : nat) : Auth Z := ferr FACET_NOT_FOUND.

Definition authenticated_get_interface (a u : nat) (iid : bytes) : Auth Z :=
  run user <- get_user a u;
  get_interface iid [(IID_IGenericObject, authenticated_handle user);
                     (IID_IAuthenticatedPrincipal, authenticated_handle user)].

Definition authenticated_principal (a u : nat) : Auth Z :=
  run user <- get_user a u; clone_handle (principal_handle user).

Definition authenticated_domain_id (a u : nat) : Auth Z := run x <- get_authority a; fret (auth_domain_id x).

(** Export the objects of a user once. *)
Definition export_user (a u : nat) : Auth unit :=
  run user <- get_user a u;
  if negb (authenticated_handle user =? 0) then fret tt
  else
    run p <- libfacet_export_interface (OPrincipal a u);
    fput (update_user a u (set_principal_handle p)) ;;
    run h <- libfacet_export_interface (OHuman a u);
    fput (update_user a u (set_human_handle h)) ;;
    run x <- libfacet_export_interface (OAuthenticated a u);
    fput (update_user a u (set_authenticated_handle x)).

Definition service_get_interface (a : nat) (iid : bytes) : Auth Z :=
  run x <- get_authority a;
  get_interface iid [(IID_IGenericObject, service_handle x); (IID_IAuthService, service_handle x)].

(** The password of a user whose name matched. *)
Definition check_password (password hash : bytes) : Auth bool :=
  run ok <- step;
  if negb ok then ferr FACET_OUT_OF_MEMORY
  else
    match crypt crypt_sha256 (until_nul password) hash with
    | None => fret false
    | Some actual =>
        match constant_time_equal (actual ++ [0]) hash (length hash) with
        | Some b => fret b
        | None => ffault
        end
    end.

Fixpoint authenticate_loop (a u : nat) (users : list AuthUser) (name password : bytes) : Auth Z :=
  match users with
  | [] => ferr FACET_ACCESS_DENIED
  | user :: rest =>
      run candidate <- c_string (user_name (user_config user));
      let same := if (length candidate =? length name)%nat
                  then constant_time_equal candidate name (length name) else Some false in
      match same with
      | None => ffault
      | Some false => authenticate_loop a (S u) rest name password
      | Some true =>
          run hash <- c_string (password_hash (user_config user));
          run matches <- check_password password hash;
          if negb matches then ferr FACET_ACCESS_DENIED
          else
            run code <- fcatch (export_user a u);
            if negb (bool_decide (code = FACET_OK)) then ferr FACET_OUT_OF_MEMORY
            else run fresh <- get_user a u; clone_handle (authenticated_handle fresh)
      end
  end.

(** [None] is a null string. *)
Definition authenticate (a : nat) (name password : option bytes) : Auth Z :=
  match name, password with
  | Some name, Some password =>
      if 4096 <? zlen password then ferr FACET_INVALID_ARGUMENT
      else
        run x <- get_authority a;
        run users <- counted_users x;
        authenticate_loop a 0 users name password
  | _, _ => ferr FACET_INVALID_ARGUMENT
  end.

Definition session_get_interface (handle : Z) (iid : bytes) : Auth Z :=
  get_interface iid [(IID_IGenericObject, handle); (IID_ISession, handle)].
Definition session_get_principal (s : Session) : Auth Z := clone_handle (session_principal s).
Definition session_credentials (s : Session) : Auth (Z * Z * bool) :=
  fret (uid (session_user s), gid (session_user s), admin (session_user s)).
Definition security_get_interface (a : nat) (iid : bytes) : Auth Z :=
  run x <- get_authority a;
  get_interface iid [(IID_IGenericObject, security_handle x); (IID_ISecurityManager, security_handle x)].

(** ** Calls through handles *)

(** A remote call of the object behind a handle. *)
Definition remote {A} (h : Z) (method : Object -> Auth A) : Auth A :=
  run ok <- step;
  if negb ok then ferr FACET_OUT_OF_MEMORY
  else
    run l <- fget objects;
    match l !! h with None => ferr FACET_INVALID_HANDLE | Some o => method o end.

(** [get_principal] of a proof; a session has the same method. *)
Definition remote_get_principal (h : Z) : Auth Z := remote h (fun o =>
  match o with
  | OAuthenticated a u => authenticated_principal a u
  | OSession _ s => session_get_principal s
  | OForeign (Some p) _ _ => new_handle p
  | OForeign None _ _ => ferr FACET_ERROR
  | _ => ferr FACET_PROTOCOL_ERROR
  end).

Definition remote_get_domain_id (h : Z) : Auth Z := remote h (fun o =>
  match o with
  | OAuthenticated a u => authenticated_domain_id a u
  | OSession _ s => fret (session_domain_id s)
  | OForeign _ (Some d) _ => fret d
  | OForeign _ None _ => ferr FACET_ERROR
  | _ => ferr FACET_PROTOCOL_ERROR
  end).

Definition remote_get_name (h : Z) : Auth bytes := remote h (fun o =>
  match o with
  | OPrincipal a u => principal_name a u
  | OForeign _ _ (Some name) => fret name
  | OForeign _ _ None => ferr FACET_ERROR
  | _ => ferr FACET_PROTOCOL_ERROR
  end).

(** Make a proxy for a handle, use it, free it. *)
Definition with_proxy {A} (h : Z) (use : Auth A) : Auth A :=
  ffinally (run ok <- step; if negb ok then ferr FACET_OUT_OF_MEMORY else use) (release h).

Fixpoint find_user (users : list AuthUser) (name : bytes) (u : nat) : Auth (option nat) :=
  match users with
  | [] => fret None
  | user :: rest =>
      run candidate <- c_string (user_name (user_config user));
      if negb (length candidate =? length name)%nat then find_user rest name (S u)
      else match constant_time_equal candidate name (length name) with
           | Some true => fret (Some u)
           | Some false => find_user rest name (S u)
           | None => ffault
           end
  end.

(** The answers of a proof: the principal, 0 if none was obtained, and the domain. *)
Definition ask_proof (owned : Z) : Auth (Z * option Z) := with_proxy owned
  (ftry (remote_get_principal owned)
     (fun p => ftry (remote_get_domain_id owned) (fun d => fret (p, Some d)) (fret (p, None)))
     (fret (0, None))).

(** The user whom a proof names, if the proof belongs to the domain, and the handle
    of the principal for the caller to release. *)
Definition find_authenticated_user (a : nat) (authenticated : Z) : Auth (option nat * Z) :=
  run x <- get_authority a;
  ftry (run owned <- libfacet_handle_clone authenticated; ask_proof owned)
    (fun '(p, d) =>
       if (p =? 0) || negb (bool_decide (d = Some (auth_domain_id x))) then fret (None, p)
       else
         ftry (run copy <- libfacet_handle_clone p; with_proxy copy (remote_get_name copy))
           (fun name =>
              run users <- counted_users x;
              run found <- find_user users name 0;
              fret (found, p))
           (fret (None, p)))
    (fret (None, 0)).

Definition create_session_for_user (a u : nat) : Auth Z :=
  run code <- fcatch (export_user a u);
  if negb (bool_decide (code = FACET_OK)) then ferr FACET_OUT_OF_MEMORY
  else
    run ok <- step;
    if negb ok then ferr FACET_OUT_OF_MEMORY
    else
      run user <- get_user a u;
      run x <- get_authority a;
      ftry (libfacet_handle_clone (principal_handle user))
        (fun p =>
           let session := mkSession p (auth_domain_id x) (user_config user) in
           ftry (libfacet_export_interface (OSession a session))
             (fun h => fput (update_authority a (set_sessions (cons (h, session)))) ;; clone_handle h)
             (libfacet_handle_release p ;; ferr FACET_OUT_OF_MEMORY))
        (ferr FACET_OUT_OF_MEMORY).

Definition security_create (a : nat) (authenticated : Z) : Auth Z :=
  run r <- find_authenticated_user a authenticated;
  match r with
  | (None, p) => (if p =? 0 then fret tt else libfacet_handle_release p) ;; ferr FACET_ACCESS_DENIED
  | (Some u, p) => libfacet_handle_release p ;; create_session_for_user a u
  end.

(** The position of the authority of a domain. *)
Definition authority_of (domain_id : Z) : Auth (option nat) :=
  fget (fun s => index_of (fun x => auth_domain_id x =? domain_id) (authority_list s)).

Fixpoint user_named (users : list AuthUser) (name : bytes) (u : nat) : Auth (option nat) :=
  match users with
  | [] => fret None
  | user :: rest =>
      run candidate <- c_string (user_name (user_config user));
      if candidate =b name then fret (Some u) else user_named rest name (S u)
  end.

Definition dominit0_auth_session_for_user (domain_id : Z) (name : option bytes) : Auth Z :=
  match name with
  | None => ferr FACET_INVALID_ARGUMENT
  | Some name =>
      run a <- authority_of domain_id;
      match a with
      | None => ferr FACET_NOT_FOUND
      | Some a =>
          run x <- get_authority a;
          run users <- counted_users x;
          run u <- user_named users name 0;
          match u with
          | Some u => create_session_for_user a u
          | None => ferr FACET_NOT_FOUND
          end
      end
  end.

Definition dominit0_authenticate_user (domain_id : Z) (name password : option bytes) : Auth Z :=
  run a <- authority_of domain_id;
  match a with
  | None => ferr FACET_NOT_FOUND
  | Some a =>
      run proof <- authenticate a name password;
      ffinally (security_create a proof) (release proof)
  end.

(** ** Set up and tear down *)

Definition release_if (h : Z) (drop : Z -> Auth unit) : Auth unit := if h =? 0 then fret tt else drop h.

Fixpoint destroy_sessions (l : list (Z * Session)) : Auth unit :=
  match l with
  | [] => fret tt
  | (h, s) :: rest =>
      release_if h libfacet_unexport_interface ;;
      release_if (session_principal s) libfacet_handle_release ;;
      destroy_sessions rest
  end.

Fixpoint destroy_users (l : list AuthUser) : Auth unit :=
  match l with
  | [] => fret tt
  | u :: rest =>
      release_if (authenticated_handle u) libfacet_unexport_interface ;;
      release_if (human_handle u) libfacet_unexport_interface ;;
      release_if (principal_handle u) libfacet_unexport_interface ;;
      destroy_users rest
  end.

Definition destroy_authority (a : nat) : Auth unit :=
  run x <- get_authority a;
  destroy_sessions (sessions x) ;;
  run users <- counted_users x;
  destroy_users users ;;
  release_if (security_handle x) libfacet_unexport_interface ;;
  release_if (service_handle x) libfacet_unexport_interface ;;
  fput (update_authority a (fun _ => zero_authority)).

Fixpoint destroy_all (a n : nat) : Auth unit :=
  match n with O => fret tt | S k => destroy_authority a ;; destroy_all (S a) k end.

Definition dominit0_auth_destroy : Auth unit :=
  run n <- fget (fun s => length (authority_list s));
  destroy_all 0 n ;;
  fput (fun s => mkAuth None (objects s) (next_handle s) (operations s)).

Definition initial_user (c : FacetConfigUser) : AuthUser := mkAuthUser c 0 0 0.

Definition initialize_authority (a : nat) (system : FacetSystemConfig) (domain : FacetConfigDomain) : Auth unit :=
  fput (update_authority a (fun x =>
    mkAuthority (service_handle x) (security_handle x) (length (users system ++ domain_users domain)) []
      (sessions x) (domain_id domain))) ;;
  run ok <- step;
  if negb ok then ferr FACET_ERROR
  else
    fput (update_authority a (set_users (fun _ => map initial_user (users system ++ domain_users domain)))) ;;
    run service <- libfacet_export_interface (OService a);
    fput (update_authority a (set_service service)) ;;
    run security <- libfacet_export_interface (OSecurity a);
    fput (update_authority a (set_security security)).

(** Binding a service in the environment of the domain may fail; the second one is
    bound only after the first. *)
Definition bind_services : Auth bool :=
  run auth <- step;
  if negb auth then fret false else step.

(** The loop over the domains. *)
Fixpoint initialize_domains (a : nat) (system : FacetSystemConfig) (domains : list FacetConfigDomain) : Auth unit :=
  match domains with
  | [] => fret tt
  | d :: rest =>
      if authentication_source_index d =? SIZE_MAX then initialize_domains (S a) system rest
      else
        run code <- fcatch (initialize_authority a system d);
        run bound <- if bool_decide (code = FACET_OK) then bind_services else fret false;
        if negb bound then dominit0_auth_destroy ;; ferr FACET_ERROR
        else initialize_domains (S a) system rest
  end.

Definition dominit0_auth_initialize (system : FacetSystemConfig) : Auth unit :=
  run present <- fget authorities;
  match present with
  | Some _ => ferr FACET_ERROR
  | None =>
      run ok <- step;
      if negb ok then ferr FACET_ERROR
      else
        fput (fun s => mkAuth (Some (repeat zero_authority (length (domains system)))) (objects s) (next_handle s) (operations s)) ;;
        initialize_domains 0 system (domains system)
  end.

End Authority.
