(* ===== verification/AuthFacts.v ===== *)
(** The authentication authority: logins are decided by the first user of that name
    and the hash of the password, a session belongs to the user and the domain of the
    proof it was made from, and what happens with a proof that another process
    answers for. *)
From stdpp Require Import gmap.
From S2P Require Import Prelude ConfigTypes ConfigApply ConfigValidate ConfigParse ConfigValidateFacts ConfigParseFacts.
From S2P Require Import Effects Auth.

(** ** Reference: who may log in *)

Definition named (name : bytes) (c : FacetConfigUser) : Prop := user_name c = Some name.
#[global] Instance named_dec name c : Decision (named name c).
Proof. unfold named. apply _. Defined.

(** The stored hash is the beginning of the computed one. *)
Definition password_matches (crypt_sha256 : bytes -> bytes -> option bytes) (password : bytes)
  (c : FacetConfigUser) : bool :=
  match password_hash c with
  | None => false
  | Some hash =>
      match crypt crypt_sha256 (until_nul password) hash with
      | None => false
      | Some actual => bool_decide (firstn (length hash) (actual ++ [0]) = hash)
      end
  end.

(** Only the first user of that name counts. *)
Definition login (crypt_sha256 : bytes -> bytes -> option bytes) (l : list FacetConfigUser)
  (name password : bytes) : option nat :=
  match list_find (named name) l with
  | Some (u, c) => if password_matches crypt_sha256 password c then Some u else None
  | None => None
  end.

(** ** Comparison in constant time *)

Lemma difference_zero left right size acc :
  (size <= length left)%nat -> (size <= length right)%nat ->
  exists d, difference left right size acc = Some d /\
    (d = 0 <-> acc = 0 /\ firstn size left = firstn size right).
Proof.
  revert left right acc. induction size as [|n IH]; intros left right acc Hl Hr; simpl.
  - exists acc. split; [by destruct left|]. split; [intros ->; done|intros [-> _]; done].
  - destruct left as [|a l], right as [|b r]; simpl in *; [lia..|].
    destruct (IH l r (Z.lor acc (Z.lxor a b))) as (d & Hd & Hz); [lia..|].
    exists d. split; [done|]. rewrite Hz, Z.lor_eq_0_iff, Z.lxor_eq_0_iff.
    split; [intros [[-> ->] ->]; done|]. intros [-> [= -> ->]]. done.
Qed.

Lemma constant_time_equal_spec left right size :
  (size <= length left)%nat -> (size <= length right)%nat ->
  constant_time_equal left right size = Some (bool_decide (firstn size left = firstn size right)).
Proof.
  intros Hl Hr. destruct (difference_zero left right size 0 Hl Hr) as (d & Hd & Hz).
  unfold constant_time_equal. rewrite Hd. simpl. f_equal.
  apply eq_true_iff_eq. rewrite Z.eqb_eq, bool_decide_eq_true. tauto.
Qed.

Lemma constant_time_short left right size :
  (length left < size)%nat -> constant_time_equal left right size = None.
Proof.
  unfold constant_time_equal. intros H. cut (forall acc, difference left right size acc = None).
  { intros ->. done. }
  revert left right H. induction size as [|n IH]; intros left right H acc; [lia|].
  destruct left as [|a l], right as [|b r]; simpl in *; try done. apply IH. lia.
Qed.

Definition same_name (candidate name : bytes) : option bool :=
  if (length candidate =? length name)%nat then constant_time_equal candidate name (length name) else Some false.

Lemma same_name_spec candidate name : same_name candidate name = Some (bool_decide (candidate = name)).
Proof.
  unfold same_name. destruct (Nat.eqb_spec (length candidate) (length name)) as [He|He].
  - rewrite constant_time_equal_spec by lia. f_equal. apply bool_decide_ext.
    rewrite firstn_all, <- He, firstn_all. done.
  - rewrite bool_decide_false; [done|]. intros ->. done.
Qed.

(** ** The invariant *)

Definition user_at (s : AuthState) (a u : nat) (user : AuthUser) : Prop :=
  exists x, authority_list s !! a = Some x /\ auth_users x !! u = Some user.

Definition denotes (s : AuthState) (h : Z) (o : Object) : Prop := objects s !! h = Some o.

Definition slot_ok (s : AuthState) (h : Z) (o : Object) : Prop := h = 0 \/ denotes s h o.

Record user_ok (s : AuthState) (a u : nat) (user : AuthUser) : Prop := {
  ok_principal : slot_ok s (principal_handle user) (OPrincipal a u);
  ok_human : slot_ok s (human_handle user) (OHuman a u);
  ok_authenticated : slot_ok s (authenticated_handle user) (OAuthenticated a u);
  ok_order : authenticated_handle user <> 0 -> principal_handle user <> 0;
  ok_name : is_Some (user_name (user_config user));
  ok_hash : exists hash, password_hash (user_config user) = Some hash /\ firstn 3 hash = B "$5$"
}.

(** No authority has a number of users without their array. *)
Definition counted (s : AuthState) : Prop :=
  forall a x, authority_list s !! a = Some x -> auth_user_count x = length (auth_users x).

Lemma counted_same s s' : authorities s' = authorities s -> counted s -> counted s'.
Proof. unfold counted, authority_list. by intros ->. Qed.

Lemma counted_update a f s :
  (forall x, auth_user_count (f x) = auth_user_count x /\ length (auth_users (f x)) = length (auth_users x)) ->
  counted s -> counted (update_authority a f s).
Proof.
  unfold counted, update_authority, authority_list. simpl. intros Hf H b x. destruct (authorities s) as [l|]; [|done]. simpl in *.
  destruct (decide (b = a)) as [->|Hb]; [|by rewrite list_lookup_alter_ne by done; apply H].
  rewrite list_lookup_alter_eq. intros (y & Hy & ->)%fmap_Some. destruct (Hf y) as [-> ->]. by eapply H.
Qed.

Lemma counted_users_ok s a x : counted s -> authority_list s !! a = Some x -> counted_users x = fret (auth_users x).
Proof. intros Hc Hx. unfold counted_users. by rewrite (Hc _ _ Hx), Nat.eqb_refl. Qed.

Record auth_inv (s : AuthState) : Prop := {
  inv_next : 0 < next_handle s;
  inv_fresh : forall h o, denotes s h o -> 0 < h < next_handle s;
  inv_users : forall a u user, user_at s a u user -> user_ok s a u user;
  inv_counts : counted s
}.

(** A handle that an authority keeps for one of its users. *)
Definition handle_of (user : AuthUser) (h : Z) : Prop :=
  h = principal_handle user \/ h = human_handle user \/ h = authenticated_handle user.
Definition kept (s : AuthState) (h : Z) : Prop := exists a u user, user_at s a u user /\ handle_of user h.

Definition directory (s : AuthState) : list (Z * list FacetConfigUser) :=
  map (fun x => (auth_domain_id x, map user_config (auth_users x))) (authority_list s).

(** What every operation of a running authority leaves alone: the handles that
    exist, and who may log in. *)
Record grows (s s' : AuthState) : Prop := {
  grows_next : next_handle s <= next_handle s';
  grows_objects : forall h, h < next_handle s -> objects s' !! h = objects s !! h;
  grows_kept : forall h, kept s' h -> kept s h \/ next_handle s <= h;
  grows_directory : directory s' = directory s
}.

Lemma grows_refl s : grows s s.
Proof. split; auto; lia. Qed.

Lemma grows_trans s1 s2 s3 : grows s1 s2 -> grows s2 s3 -> grows s1 s3.
Proof.
  intros [H1 H2 H3 H4] [G1 G2 G3 G4]. split.
  - lia.
  - intros h Hh. rewrite G2 by lia. auto.
  - intros h Hk. destruct (G3 h Hk) as [Hk'|]; [|right; lia]. auto.
  - congruence.
Qed.

#[export] Instance grows_preorder : PreOrder grows.
Proof. split; [exact grows_refl|exact grows_trans]. Qed.

Lemma denotes_grows s s' h o : auth_inv s -> grows s s' -> denotes s h o -> denotes s' h o.
Proof.
  intros Hi Hg Hd. unfold denotes. rewrite (grows_objects _ _ Hg); [done|].
  apply (inv_fresh _ Hi) in Hd. lia.
Qed.

Lemma directory_users s a x :
  authority_list s !! a = Some x ->
  directory s !! a = Some (auth_domain_id x, map user_config (auth_users x)).
Proof. unfold directory. intros H. rewrite list_lookup_fmap, H. done. Qed.

Lemma directory_user s a u d l c :
  directory s !! a = Some (d, l) -> l !! u = Some c ->
  exists x user, authority_list s !! a = Some x /\ auth_domain_id x = d /\
    auth_users x !! u = Some user /\ user_config user = c.
Proof.
  unfold directory. rewrite list_lookup_fmap. intros (x & Hx & [= -> ->])%fmap_Some Hu.
  rewrite list_lookup_fmap in Hu. apply fmap_Some in Hu as (user & Hu & ->). eauto 6.
Qed.

(** ** Handles *)

Section Facts.
Context (step_ok : nat -> bool) (crypt_sha256 : bytes -> bytes -> option bytes).

(** Some allocation, export, clone or remote call is refused. *)
Definition refused : Prop := exists n, step_ok n = false.

Notation step := (step step_ok).
Notation libfacet_export_interface := (libfacet_export_interface step_ok).
Notation libfacet_handle_clone := (libfacet_handle_clone step_ok).
Notation export_user := (export_user step_ok).

(** The users and the handles are those of before. *)
Record quiet (s s' : AuthState) : Prop := {
  quiet_inv : auth_inv s';
  quiet_grows : grows s s';
  quiet_authorities : authorities s' = authorities s
}.

Lemma quiet_refl s : auth_inv s -> quiet s s.
Proof. intros H. split; [done|reflexivity|done]. Qed.

Lemma quiet_trans s1 s2 s3 : quiet s1 s2 -> quiet s2 s3 -> quiet s1 s3.
Proof. intros [? H ?] [? H' ?]. split; [done|by etrans|congruence]. Qed.

Lemma user_at_same s s' a u user : authorities s' = authorities s -> user_at s' a u user <-> user_at s a u user.
Proof. intros H. unfold user_at, authority_list. rewrite H. done. Qed.

Lemma kept_same s s' h : authorities s' = authorities s -> kept s' h -> kept s h.
Proof. intros H (a & u & user & Hu & Hh). exists a, u, user. rewrite <- (user_at_same s s') by done. done. Qed.

Lemma user_ok_objects s s' a u user :
  (forall h o, handle_of user h -> denotes s h o -> denotes s' h o) ->
  user_ok s a u user -> user_ok s' a u user.
Proof.
  unfold handle_of. intros H [[] [] [] ]; split; unfold slot_ok in *; eauto 6.
Qed.

(** A step costs one operation. *)
Lemma quiet_operations s n : auth_inv s -> quiet s (mkAuth (authorities s) (objects s) (next_handle s) n).
Proof.
  intros Hi. split; [|split; [simpl; lia|done| |done]|done].
  - destruct Hi as [H1 H2 H3 H4]. split; [done|done| |done].
    intros a u user Hu. apply (user_ok_objects s); [done|]. apply H3. done.
  - intros h Hk. left. apply (kept_same s _ h) in Hk; done.
Qed.

Lemma awp_step s (Q : bool -> AuthState -> Prop) E :
  auth_inv s ->
  (forall s', quiet s s' -> Q true s') -> (forall s', quiet s s' -> refused -> Q false s') ->
  awp step s Q E.
Proof.
  intros Hi Ht Hf. unfold awp, Auth.step.
  destruct (step_ok (operations s)) eqn:H; [apply Ht|apply Hf; [|by exists (operations s)]];
    by apply quiet_operations.
Qed.

Lemma awp_new_handle o s (Q : Z -> AuthState -> Prop) E :
  auth_inv s ->
  (forall h s', quiet s s' -> next_handle s <= h < next_handle s' -> denotes s' h o -> Q h s') ->
  awp (new_handle o) s Q E.
Proof.
  intros Hi HQ. unfold awp, new_handle. apply HQ; simpl; [|lia|apply lookup_insert_eq].
  pose proof Hi as [H1 H2 H3 H4].
  assert (Hold : forall h o', denotes s h o' -> <[next_handle s := o]> (objects s) !! h = Some o').
  { intros h o' Hd. rewrite lookup_insert_ne; [done|]. apply H2 in Hd. lia. }
  split; [split|split|done]; simpl.
  - lia.
  - unfold denotes. simpl. intros h o' [[<- <-]|[Hne Hd]]%lookup_insert_Some; [lia|]. apply H2 in Hd. lia.
  - intros a u user Hu. apply (user_ok_objects s); [|by apply H3]. intros h o' _ Hd. by apply Hold.
  - done.
  - lia.
  - intros h Hh. rewrite lookup_insert_ne; [done|]. lia.
  - intros h Hk. left. by apply (kept_same s _ h) in Hk.
  - done.
Qed.

Lemma awp_export o s (Q : Z -> AuthState -> Prop) (E : FacetResult -> AuthState -> Prop) :
  auth_inv s ->
  (forall h s', quiet s s' -> next_handle s <= h < next_handle s' -> denotes s' h o -> Q h s') ->
  (forall s', quiet s s' -> refused -> E FACET_OUT_OF_MEMORY s') ->
  awp (libfacet_export_interface o) s Q E.
Proof.
  intros Hi HQ HE. apply awp_bind, awp_step; [done| |by intros; apply awp_err, HE].
  intros s1 Hq. apply awp_new_handle; [apply Hq|]. intros h s2 Hq2 Hh Hd. apply HQ; [by eapply quiet_trans| |done].
  pose proof (grows_next _ _ (quiet_grows _ _ Hq)). lia.
Qed.

Lemma awp_clone h o s (Q : Z -> AuthState -> Prop) (E : FacetResult -> AuthState -> Prop) :
  auth_inv s -> denotes s h o ->
  (forall h' s', quiet s s' -> next_handle s <= h' < next_handle s' -> denotes s' h' o -> Q h' s') ->
  (forall s', quiet s s' -> refused -> E FACET_OUT_OF_MEMORY s') ->
  awp (libfacet_handle_clone h) s Q E.
Proof.
  intros Hi Hd HQ HE. unfold Auth.libfacet_handle_clone. apply awp_bind. unfold awp at 1, fget.
  rewrite Hd. by apply awp_export.
Qed.

Lemma kept_bound s h : auth_inv s -> kept s h -> h < next_handle s.
Proof.
  intros Hi (a & u & user & Hu & Hh). pose proof (inv_next _ Hi).
  destruct (inv_users _ Hi _ _ _ Hu) as [Hp Hu' Ha _ _ _].
  destruct Hh as [-> | [-> | ->]]; [destruct Hp as [->|Hd]|destruct Hu' as [->|Hd]|destruct Ha as [->|Hd]]; try lia;
    apply (inv_fresh _ Hi) in Hd; lia.
Qed.

Lemma fresh_not_kept s s' h : auth_inv s -> quiet s s' -> next_handle s <= h -> ~ kept s' h.
Proof. intros Hi Hq Hh Hk. apply (kept_same s s') in Hk; [|apply Hq]. apply kept_bound in Hk; [lia|done]. Qed.

Lemma not_kept_grows s s' h : grows s s' -> h < next_handle s -> ~ kept s h -> ~ kept s' h.
Proof. intros Hg Hh Hn Hk. destruct (grows_kept _ _ Hg h Hk); [done|lia]. Qed.

Lemma drop_ok s0 s h :
  auth_inv s -> grows s0 s -> next_handle s0 <= h -> ~ kept s h -> auth_inv (release h s) /\ grows s0 (release h s).
Proof.
  intros [H1 H2 H3 H4] [G1 G2 G3 G4] Hh Hk. split; split; simpl; auto.
  - unfold denotes. simpl. intros h' o [_ Hd]%lookup_delete_Some. by apply (H2 h' o).
  - intros a u user Hu. apply (user_ok_objects s); [|by apply H3].
    intros h' o Hh' Hd. unfold denotes. simpl. rewrite lookup_delete_ne; [done|].
    intros <-. apply Hk. exists a, u, user. done.
  - intros h' Hh'. rewrite lookup_delete_ne by lia. auto.
Qed.

Lemma quiet_drop s0 s h : auth_inv s0 -> quiet s0 s -> next_handle s0 <= h -> quiet s0 (release h s).
Proof.
  intros Hi Hq Hh. destruct (drop_ok s0 s h) as [? ?]; [apply Hq|apply Hq|done|by eapply fresh_not_kept|].
  split; [done..|]. apply Hq.
Qed.

Lemma denotes_drop s h h' o : h <> h' -> denotes s h' o -> denotes (release h s) h' o.
Proof. intros Hne Hd. unfold denotes. simpl. by rewrite lookup_delete_ne. Qed.

(** ** Users *)

Lemma update_user_lookup s a u f b v user :
  user_at (update_user a u f s) b v user <->
  exists old, user_at s b v old /\ user = (if decide (b = a /\ v = u) then f old else old).
Proof.
  unfold user_at, update_user, update_authority, authority_list. simpl.
  destruct (authorities s) as [l|]; simpl.
  2: { split; [intros (x & H & _)|intros (x & (y & H & _) & _)]; done. }
  destruct (decide (b = a)) as [->|Hb].
  - rewrite list_lookup_alter_eq. split.
    + intros (x & (y & Hy & ->)%fmap_Some & Hu). simpl in Hu. destruct (decide (v = u)) as [->|Hv].
      * rewrite list_lookup_alter_eq in Hu. apply fmap_Some in Hu as (old & Hu & ->).
        exists old. rewrite decide_True by done. eauto.
      * rewrite list_lookup_alter_ne in Hu by done. exists user. rewrite decide_False by tauto. eauto.
    + intros (old & (y & Hy & Ho) & ->). rewrite Hy. eexists. split; [done|]. simpl.
      destruct (decide (v = u)) as [->|Hv].
      * rewrite list_lookup_alter_eq, Ho, decide_True by done. done.
      * rewrite list_lookup_alter_ne by done. rewrite decide_False by tauto. done.
  - rewrite list_lookup_alter_ne by done. split.
    + intros H. exists user. rewrite decide_False by tauto. done.
    + intros (old & H & ->). rewrite decide_False by tauto. done.
Qed.

Lemma directory_update s a f :
  (forall x, authority_list s !! a = Some x -> auth_domain_id (f x) = auth_domain_id x /\
     map user_config (auth_users (f x)) = map user_config (auth_users x)) ->
  directory (update_authority a f s) = directory s.
Proof.
  unfold directory, update_authority, authority_list. simpl. destruct (authorities s) as [l|]; [|done]. simpl.
  intros H. apply list_eq. intros b. rewrite !list_lookup_fmap. destruct (decide (b = a)) as [->|Hb].
  - rewrite list_lookup_alter_eq. destruct (l !! a) as [x|] eqn:Hx; [|done]. simpl.
    destruct (H x eq_refl) as [-> ->]. done.
  - by rewrite list_lookup_alter_ne.
Qed.

Lemma user_at_unique s a u user user' : user_at s a u user -> user_at s a u user' -> user = user'.
Proof. intros (x & Hx & Hu) (x' & Hx' & Hu'). congruence. Qed.

Lemma alter_config_same (f : AuthUser -> AuthUser) u l user :
  l !! u = Some user -> user_config (f user) = user_config user -> map user_config (alter f u l) = map user_config l.
Proof.
  intros Hl Hf. apply list_eq. intros v. rewrite !list_lookup_fmap. destruct (decide (v = u)) as [->|Hv].
  - rewrite list_lookup_alter_eq, Hl. simpl. congruence.
  - by rewrite list_lookup_alter_ne.
Qed.

Lemma update_user_ok s0 s a u user f :
  auth_inv s -> grows s0 s -> user_at s a u user -> user_config (f user) = user_config user ->
  user_ok s a u (f user) -> (forall h, handle_of (f user) h -> kept s h \/ next_handle s0 <= h) ->
  auth_inv (update_user a u f s) /\ grows s0 (update_user a u f s) /\ user_at (update_user a u f s) a u (f user).
Proof.
  intros [H1 H2 H3 H4] [G1 G2 G3 G4] Hu Hc Hok Hh. split_and!.
  - split; [done|done| |apply counted_update; [intros x; simpl; by rewrite length_alter|done]]. intros b v user' (old & Ho & ->)%update_user_lookup.
    apply (user_ok_objects s); [done|].
    destruct (decide (b = a /\ v = u)) as [[-> ->]|Hne]; [|by apply H3].
    replace old with user by (by eapply user_at_unique). done.
  - split; [done|done| |].
    + intros h (b & v & user' & (old & Ho & ->)%update_user_lookup & Hk).
      destruct (decide (b = a /\ v = u)) as [[-> ->]|Hne].
      * replace old with user in Hk by (by eapply user_at_unique). destruct (Hh h Hk); auto.
      * apply G3. exists b, v, old. done.
    + rewrite <- G4. apply directory_update. intros x Hx. split; [done|]. simpl.
      destruct Hu as (x' & Hx' & Hu). replace x' with x in * by congruence. by eapply alter_config_same.
  - apply update_user_lookup. exists user. rewrite decide_True by done. done.
Qed.

Lemma awp_get_user s a u user Q E : user_at s a u user -> Q user s -> awp (get_user a u) s Q E.
Proof.
  intros (x & Hx & Hu) HQ. unfold get_user. apply awp_bind. unfold awp at 1, get_authority. rewrite Hx, Hu. done.
Qed.

Lemma awp_get_authority s a x Q E : authority_list s !! a = Some x -> Q x s -> awp (get_authority a) s Q E.
Proof. intros Hx HQ. unfold awp, get_authority. rewrite Hx. done. Qed.

(** Export one object of a user and store its handle. *)
Lemma awp_export_slot s0 s a u user o (set : Z -> AuthUser -> AuthUser) (Q : unit -> AuthState -> Prop)
  (E : FacetResult -> AuthState -> Prop) :
  auth_inv s -> grows s0 s -> user_at s a u user ->
  (forall h, user_config (set h user) = user_config user) ->
  (forall h s', next_handle s <= h -> denotes s' h o -> user_ok s' a u user -> user_ok s' a u (set h user)) ->
  (forall h h', handle_of (set h user) h' -> handle_of user h' \/ h' = h) ->
  (forall h s', auth_inv s' -> grows s0 s' -> user_at s' a u (set h user) -> next_handle s <= h ->
     denotes s' h o -> Q tt s') ->
  (forall s', auth_inv s' -> grows s0 s' -> refused -> E FACET_OUT_OF_MEMORY s') ->
  awp (fbind (libfacet_export_interface o) (fun h => fput (update_user a u (set h)))) s Q E.
Proof.
  intros Hi Hg Hu Hc Hok Hh HQ HE. apply awp_bind, awp_export; [done| |].
  - intros h s1 [Hi1 Hg1 Ha1] Hr Hd. unfold awp, fput.
    assert (Hu1 : user_at s1 a u user) by (by apply (user_at_same s s1)).
    destruct (update_user_ok s0 s1 a u user (set h)) as (Hi2 & Hg2 & Hu2); [done|by etrans|done|done| | |].
    + apply Hok; [lia|done|]. by apply (inv_users _ Hi1).
    + intros h' [Hh'| ->]%Hh; [left; by exists a, u, user|right].
      pose proof (grows_next _ _ Hg). lia.
    + apply (HQ h); [done..|lia|done].
  - intros s1 [Hi1 Hg1 Ha1] Hr. apply HE; [done|by etrans|done].
Qed.

(** The objects of the user exist. *)
Definition exported (s : AuthState) (a u : nat) : Prop :=
  exists user, user_at s a u user /\ denotes s (principal_handle user) (OPrincipal a u) /\
    denotes s (authenticated_handle user) (OAuthenticated a u).

Lemma exported_user s a u user :
  auth_inv s -> user_at s a u user -> authenticated_handle user <> 0 -> exported s a u.
Proof.
  intros Hi Hu Hn. destruct (inv_users _ Hi _ _ _ Hu) as [[Hp|Hp] _ [Ha|Ha] Ho _ _]; try done.
  - by specialize (Ho Hn).
  - by exists user.
Qed.

Lemma exported_quiet s s' a u : auth_inv s -> quiet s s' -> exported s a u -> exported s' a u.
Proof.
  intros Hi [_ Hg Ha] (user & Hu & Hp & Hx). exists user.
  split_and!; [by apply (user_at_same s s')|by apply (denotes_grows s s')..].
Qed.

Ltac slot := intros; match goal with H : user_ok _ _ _ _ |- _ => destruct H end;
  split; simpl; auto; try (right; done); intros; lia.

Lemma awp_export_user s a u user (Q : unit -> AuthState -> Prop) (E : FacetResult -> AuthState -> Prop) :
  auth_inv s -> user_at s a u user ->
  (forall s', auth_inv s' -> grows s s' -> exported s' a u -> Q tt s') ->
  (forall s', auth_inv s' -> grows s s' -> refused -> E FACET_OUT_OF_MEMORY s') ->
  awp (export_user a u) s Q E.
Proof.
  intros Hi Hu HQ HE. apply awp_bind, (awp_get_user s a u user); [done|].
  destruct (Z.eqb_spec (authenticated_handle user) 0) as [H0|H0]; simpl.
  2: { apply awp_ret, HQ; [done|reflexivity|]. by eapply exported_user. }
  pose proof (inv_next _ Hi).
  apply awp_assoc, awp_bind, (awp_export_slot s s a u user _ set_principal_handle); try done; [slot|unfold handle_of; simpl; tauto|].
  intros p s1 Hi1 Hg1 Hu1 Hp _.
  pose proof (grows_next _ _ Hg1).
  apply awp_assoc, awp_bind, (awp_export_slot s s1 a u _ _ set_human_handle _ _ Hi1 Hg1 Hu1); try done; [slot|unfold handle_of; simpl; tauto|].
  intros h s2 Hi2 Hg2 Hu2 _ _. pose proof (grows_next _ _ Hg2).
  apply (awp_export_slot s s2 a u _ _ set_authenticated_handle _ _ Hi2 Hg2 Hu2); try done; [slot|unfold handle_of; simpl; tauto|].
  intros x s3 Hi3 Hg3 Hu3 Hx Hd. apply HQ; [done..|]. eapply exported_user; [done|exact Hu3|]. simpl. lia.
Qed.

(** ** Logging in *)

Lemma login_cons c l name password :
  login crypt_sha256 (c :: l) name password =
  if decide (named name c) then (if password_matches crypt_sha256 password c then Some 0%nat else None)
  else S <$> login crypt_sha256 l name password.
Proof.
  unfold login. simpl. destruct (decide (named name c)) as [H|H]; [done|].
  destruct (list_find (named name) l) as [[v c']|]; simpl; [|done].
  destruct (password_matches crypt_sha256 password c'); done.
Qed.

(** The hash function answers a string that is shorter than the stored hash of the
    first user of that name, as the token for a failure is. *)
Definition reads_past (l : list FacetConfigUser) (name password : bytes) : Prop :=
  exists i c hash out, list_find (named name) l = Some (i, c) /\ password_hash c = Some hash /\
    crypt_sha256 (until_nul password) hash = Some out /\ (S (length out) < length hash)%nat.

Lemma reads_past_cons c l name password : ~ named name c -> reads_past l name password -> reads_past (c :: l) name password.
Proof.
  intros Hn (i & c' & hash & out & Hf & H). exists (S i), c', hash, out. split; [|done]. simpl.
  rewrite decide_False by done. by rewrite Hf.
Qed.

Notation check_password := (check_password step_ok crypt_sha256).

Lemma fwp_check_password s password hash c (Q : bool -> AuthState -> Prop) (E : FacetResult -> AuthState -> Prop) (F : Prop) :
  auth_inv s -> password_hash c = Some hash -> firstn 3 hash = B "$5$" ->
  (forall s', quiet s s' -> Q (password_matches crypt_sha256 password c) s') ->
  (forall s', quiet s s' -> refused -> E FACET_OUT_OF_MEMORY s') ->
  (forall out, crypt_sha256 (until_nul password) hash = Some out -> (S (length out) < length hash)%nat -> F) ->
  fwp (check_password password hash) s Q E F.
Proof.
  intros Hi Hc H5 HQ HE HF. apply fwp_bind, awp_fwp, awp_step; [done| |by intros; apply HE].
  intros s1 Hq. cbn [negb]. specialize (HQ s1 Hq). unfold password_matches in HQ. rewrite Hc in HQ.
  assert (crypt crypt_sha256 (until_nul password) hash = crypt_sha256 (until_nul password) hash) as Hcr.
  { destruct hash as [|x [|y [|z rest]]]; try done. by injection H5 as -> -> ->. }
  rewrite Hcr in *. destruct (crypt_sha256 (until_nul password) hash) as [actual|]; [|done].
  destruct (decide (length hash <= S (length actual))%nat) as [Hlen|Hlen].
  - rewrite constant_time_equal_spec; [|rewrite length_app; simpl; lia|lia]. by rewrite (firstn_all hash).
  - rewrite constant_time_short by (rewrite length_app; simpl; lia). apply (HF actual); [done|lia].
Qed.

Notation authenticate_loop := (authenticate_loop step_ok crypt_sha256).

(** The outcome of a login over a list of users of which the first is the [u]-th. *)
Definition logged_in (s : AuthState) (a u : nat) (who : option nat) (h : Z) (s' : AuthState) : Prop :=
  auth_inv s' /\ grows s s' /\ next_handle s <= h < next_handle s' /\ ~ kept s' h /\
  exists i, who = Some i /\ denotes s' h (OAuthenticated a (u + i)) /\ exported s' a (u + i).
Definition not_logged_in (s : AuthState) (who : option nat) (c : FacetResult) (s' : AuthState) : Prop :=
  auth_inv s' /\ grows s s' /\
  (c = FACET_OUT_OF_MEMORY /\ refused \/ c = FACET_ACCESS_DENIED /\ who = None).

Lemma awp_clone_user s a u user : 
  auth_inv s -> user_at s a u user -> denotes s (authenticated_handle user) (OAuthenticated a u) -> 
  awp (clone_handle step_ok (authenticated_handle user)) s
     (fun h s' => quiet s s' /\ next_handle s <= h < next_handle s' /\ denotes s' h (OAuthenticated a u))
     (fun c s' => quiet s s' /\ c = FACET_OUT_OF_MEMORY /\ refused).
Proof.
  intros Hi Hu Hd. unfold clone_handle. pose proof (inv_fresh _ Hi _ _ Hd).
  rewrite (proj2 (Z.eqb_neq _ _)) by lia. by eapply awp_clone.
Qed.

Lemma fwp_authenticate_loop s a users u name password :
  auth_inv s ->
  (forall i user, users !! i = Some user -> user_at s a (u + i) user) ->
  fwp (authenticate_loop a u users name password) s
     (logged_in s a u (login crypt_sha256 (map user_config users) name password))
     (not_logged_in s (login crypt_sha256 (map user_config users) name password))
     (reads_past (map user_config users) name password).
Proof.
  intros Hi. revert u. induction users as [|user rest IH]; intros u Hat.
  { split_and!; [done|reflexivity|]. right. done. }
  assert (Hu : user_at s a u user). { specialize (Hat 0%nat user eq_refl). by rewrite Nat.add_0_r in Hat. }
  destruct (inv_users _ Hi _ _ _ Hu) as [_ _ _ _ [candidate Hn] (hash & Hh & H5)].
  simpl map. rewrite login_cons. cbn [Auth.authenticate_loop]. rewrite Hn. cbn [c_string]. apply fwp_bind.
  unfold fwp at 1. cbn [fret].
  change (if (length candidate =? length name)%nat then _ else _) with (same_name candidate name).
  rewrite same_name_spec.
  destruct (decide (candidate = name)) as [->|Hne].
  2: { rewrite bool_decide_false by done. rewrite decide_False by (unfold named; congruence).
       eapply fwp_mono; [apply IH| | |by apply reads_past_cons; unfold named; congruence].
       - intros i user' Hl. specialize (Hat (S i) user' Hl). by rewrite Nat.add_succ_r in Hat.
       - intros h s' (? & ? & ? & ? & i & -> & Hd & He). split_and!; try done; try lia. exists (S i).
         rewrite Nat.add_succ_r. done.
       - intros c s' (? & ? & [?|[? ->]]); split_and!; auto. }
  rewrite bool_decide_true by done. rewrite decide_True by done. rewrite Hh. cbn [c_string]. apply fwp_bind. unfold fwp at 1. cbn [fret].
  apply fwp_bind. eapply fwp_check_password; [done..| | |].
  2: { intros s1 [? ? _] ?. split_and!; auto. }
  2: { intros out Hout Hlen. exists 0%nat, (user_config user), hash, out. split_and!; try done. simpl. by rewrite decide_True. }
  intros s1 [Hi1 Hg1 Ha1]. destruct (password_matches _ _ _) eqn:Hm; cbn [negb].
  2: { split_and!; [done..|auto]. }
  apply awp_fwp.
  assert (Hu1 : user_at s1 a u user) by (by apply (user_at_same s s1)).
  apply awp_bind, awp_catch, (awp_export_user s1 a u user); [done|done| |].
  2: { intros s2 Hi2 Hg2 Hr. rewrite bool_decide_false by done. apply awp_err.
       split_and!; [done|by etrans|auto]. }
  intros s2 Hi2 Hg2 (user2 & Hu2 & Hp & Hx). rewrite bool_decide_true by done. simpl.
  apply awp_bind, (awp_get_user s2 a u user2); [done|].
  assert (Hg : grows s s2) by (by etrans). pose proof (grows_next _ _ Hg).
  eapply awp_mono; [by apply (awp_clone_user s2 a u)| |].
  - intros h s3 ([Hi3 Hg3 Ha3] & Hr & Hd). split_and!; [done|by etrans|lia|lia| |].
    + apply (fresh_not_kept s2); [done| |lia]. by split.
    + exists 0%nat. rewrite Nat.add_0_r. split_and!; [done..|]. apply (exported_quiet s2); [done|by split|].
      by exists user2.
  - intros c s3 ([Hi3 Hg3 Ha3] & -> & Hr). split_and!; [done|by etrans|auto].
Qed.

(** ** Sessions *)

Lemma user_at_update s a f b v user :
  (forall x, auth_users (f x) = auth_users x) -> user_at (update_authority a f s) b v user <-> user_at s b v user.
Proof.
  intros Hf. unfold user_at, update_authority, authority_list. simpl. destruct (authorities s) as [l|]; simpl; [|done].
  destruct (decide (b = a)) as [->|Hb]; [|by rewrite list_lookup_alter_ne].
  rewrite list_lookup_alter_eq. destruct (l !! a) as [x|]; simpl; [|naive_solver].
  split; [intros (y & [= <-] & H); rewrite Hf in H|intros (y & [= <-] & H)]; eauto. exists (f x). by rewrite Hf.
Qed.

(** A change of an authority that keeps its users. *)
Lemma update_authority_ok s0 s a f :
  (forall x, auth_users (f x) = auth_users x /\ auth_domain_id (f x) = auth_domain_id x /\ auth_user_count (f x) = auth_user_count x) ->
  auth_inv s -> grows s0 s -> auth_inv (update_authority a f s) /\ grows s0 (update_authority a f s).
Proof.
  intros Hf [H1 H2 H3 H4] [G1 G2 G3 G4]. split; split; try done.
  - intros b v user Hu%user_at_update; [|apply Hf]. apply (user_ok_objects s); [done|by apply H3].
  - apply counted_update; [|done]. intros x. by destruct (Hf x) as (-> & _ & ->).
  - intros h (b & v & user & Hu%user_at_update & Hh); [|apply Hf]. apply G3. by exists b, v, user.
  - rewrite <- G4. apply directory_update. intros x Hx. destruct (Hf x) as (-> & -> & _). done.
Qed.

(** The session of a user of an authority. *)
Definition session_of (s : AuthState) (low : Z) (a u : nat) (d : Z) (c : FacetConfigUser) (h : Z) (s' : AuthState) : Prop :=
  exists session, low <= h /\ denotes s' h (OSession a session) /\
    session_domain_id session = d /\ session_user session = c /\
    low <= session_principal session /\ denotes s' (session_principal session) (OPrincipal a u).

Notation create_session_for_user := (create_session_for_user step_ok).

Lemma session_of_quiet s low a u d c h s1 s2 :
  auth_inv s1 -> grows s1 s2 -> session_of s low a u d c h s1 -> session_of s low a u d c h s2.
Proof.
  intros Hi Hg (session & ? & ? & ? & ? & ? & ?). exists session. split_and!; auto; by eapply denotes_grows.
Qed.

Lemma user_config_grows s s' a u user user' :
  grows s s' -> user_at s a u user -> user_at s' a u user' -> user_config user' = user_config user.
Proof.
  intros Hg (x & Hx & Hu) (x' & Hx' & Hu'). apply directory_users in Hx, Hx'.
  rewrite (grows_directory _ _ Hg), Hx in Hx'. injection Hx' as _ He.
  apply (f_equal (fun l => l !! u)) in He. rewrite !list_lookup_fmap, Hu, Hu' in He. simpl in He. congruence.
Qed.

Lemma domain_grows s s' a x :
  grows s s' -> authority_list s !! a = Some x ->
  exists x', authority_list s' !! a = Some x' /\ auth_domain_id x' = auth_domain_id x /\
    map user_config (auth_users x') = map user_config (auth_users x).
Proof.
  intros Hg Hx. apply directory_users in Hx. rewrite <- (grows_directory _ _ Hg) in Hx.
  unfold directory in Hx. rewrite list_lookup_fmap in Hx. apply fmap_Some in Hx as (x' & Hx' & [= -> ->]).
  exists x'. done.
Qed.

(** The second half of [create_session_for_user]. *)
Lemma awp_open_session s0 s a u h0 d c (Q : Z -> AuthState -> Prop) (E : FacetResult -> AuthState -> Prop) :
  auth_inv s -> grows s0 s -> denotes s h0 (OPrincipal a u) ->
  (forall h s', auth_inv s' -> grows s0 s' -> session_of s0 (next_handle s0) a u d c h s' -> Q h s') ->
  (forall s', auth_inv s' -> grows s0 s' -> refused -> E FACET_OUT_OF_MEMORY s') ->
  awp (ftry (libfacet_handle_clone h0)
        (fun p =>
           let session := mkSession p d c in
           ftry (libfacet_export_interface (OSession a session))
             (fun h => fbind (fput (update_authority a (set_sessions (cons (h, session))))) (fun _ => clone_handle step_ok h))
             (fbind (libfacet_handle_release p) (fun _ => ferr FACET_OUT_OF_MEMORY)))
        (ferr FACET_OUT_OF_MEMORY)) s Q E.
Proof.
  intros Hi Hg Hp HQ HE. pose proof (grows_next _ _ Hg). pose proof (inv_next _ Hi).
  apply awp_try, (awp_clone h0 (OPrincipal a u)); [done|done| |].
  2: { intros s1 [Hi1 Hg1 _] Hr. apply awp_err, HE; [done|by etrans|done]. }
  intros p s1 [Hi1 Hg1 Ha1] Hr1 Hd1. cbv zeta. set (session := mkSession p d c).
  assert (Hg01 : grows s0 s1) by (by etrans).
  apply awp_try, awp_export; [done| |].
  - intros h s2 [Hi2 Hg2 Ha2] Hr2 Hd2. assert (Hg02 : grows s0 s2) by (by etrans).
    apply awp_bind. unfold awp at 1, fput.
    destruct (update_authority_ok s0 s2 a (set_sessions (cons (h, session)))) as [Hi3 Hg3]; [done..|].
    unfold clone_handle. rewrite (proj2 (Z.eqb_neq _ _)) by lia.
    apply (awp_clone h (OSession a session)); [done|done| |].
    + intros h' s4 [Hi4 Hg4 Ha4] Hr4 Hd4. apply HQ; [done|by etrans|]. exists session.
      pose proof (grows_next _ _ Hg3). simpl in *. split_and!; try done; try lia.
      apply (denotes_grows _ _ _ _ Hi3 Hg4). by apply (denotes_grows s1 s2).
    + intros s4 [Hi4 Hg4 Ha4] Hr. apply HE; [done|by etrans|done].
  - intros s2 [Hi2 Hg2 Ha2] Hr. apply awp_bind. unfold awp at 1, libfacet_handle_release, fput.
    destruct (drop_ok s0 s2 p) as [? ?]; [done|by etrans|lia| |by apply awp_err, HE].
    eapply not_kept_grows; [exact Hg2|lia|]. apply (fresh_not_kept s); [done|by split|lia].
Qed.

Lemma awp_create_session s a u user x (Q : Z -> AuthState -> Prop) (E : FacetResult -> AuthState -> Prop) :
  auth_inv s -> user_at s a u user -> authority_list s !! a = Some x ->
  (forall h s', auth_inv s' -> grows s s' ->
     session_of s (next_handle s) a u (auth_domain_id x) (user_config user) h s' -> Q h s') ->
  (forall s', auth_inv s' -> grows s s' -> refused -> E FACET_OUT_OF_MEMORY s') ->
  awp (create_session_for_user a u) s Q E.
Proof.
  intros Hi Hu Hx HQ HE. apply awp_bind, awp_catch, (awp_export_user s a u user); [done|done| |].
  2: { intros s1 Hi1 Hg1 Hr. rewrite bool_decide_false by done. by apply awp_err, HE. }
  intros s1 Hi1 Hg1 (user1 & Hu1 & Hp & _). rewrite bool_decide_true by done. simpl.
  apply awp_bind, awp_step; [done| |].
  2: { intros s2 [Hi2 Hg2 _] Hr. apply awp_err, HE; [done|by etrans|done]. }
  intros s2 [Hi2 Hg2 Ha2]. simpl.
  assert (Hg02 : grows s s2) by (by etrans).
  assert (Hu2 : user_at s2 a u user1) by (by apply (user_at_same s1 s2)).
  apply awp_bind, (awp_get_user s2 a u user1); [done|].
  destruct (domain_grows s s2 a x Hg02 Hx) as (x2 & Hx2 & Hd2 & _).
  apply awp_bind, (awp_get_authority s2 a x2); [done|]. rewrite Hd2.
  rewrite (user_config_grows s s2 a u user user1) by done.
  apply (awp_open_session s s2 a u); [done|done| |done|done]. by apply (denotes_grows s1 s2).
Qed.

(** ** What a proof says *)

(** The name that a principal gives, and the domain and the name that a proof
    gives.  An object of another process answers what it likes. *)
Inductive says_name (s : AuthState) : Object -> bytes -> Prop :=
  | name_of_user b v user name :
      user_at s b v user -> user_name (user_config user) = Some name -> says_name s (OPrincipal b v) name
  | name_of_foreign p d name : says_name s (OForeign p d (Some name)) name.

Inductive vouches (s : AuthState) : Object -> Z -> bytes -> Prop :=
  | proof_of_user b v y name :
      exported s b v -> authority_list s !! b = Some y -> says_name s (OPrincipal b v) name ->
      vouches s (OAuthenticated b v) (auth_domain_id y) name
  | proof_of_foreign p d n name : says_name s p name -> vouches s (OForeign (Some p) (Some d) n) d name.

Lemma says_name_same s s' o name : authorities s' = authorities s -> says_name s o name -> says_name s' o name.
Proof. intros Ha []; econstructor; [by apply (user_at_same s s')|done]. Qed.

Lemma says_name_quiet s s' o name : quiet s s' -> says_name s o name -> says_name s' o name.
Proof. intros [_ _ Ha]. by apply says_name_same. Qed.

Lemma vouches_quiet s s' o d name : auth_inv s -> quiet s s' -> vouches s o d name -> vouches s' o d name.
Proof.
  intros Hi Hq [b v y n He Hy Hn|]; constructor; try by eapply says_name_quiet.
  - by apply (exported_quiet s s').
  - unfold authority_list. rewrite (quiet_authorities _ _ Hq). done.
Qed.

Lemma awp_remote {A} h o (method : Object -> Auth A) s (Q : A -> AuthState -> Prop) (E : FacetResult -> AuthState -> Prop) :
  auth_inv s -> denotes s h o ->
  (forall s', quiet s s' -> awp (method o) s' Q E) ->
  (forall s', quiet s s' -> refused -> E FACET_OUT_OF_MEMORY s') ->
  awp (remote step_ok h method) s Q E.
Proof.
  intros Hi Hd HQ HE. apply awp_bind, awp_step; [done| |by intros; apply awp_err, HE].
  intros s1 Hq. simpl. apply awp_bind. unfold awp at 1, fget.
  destruct Hq as [Hi1 Hg1 Ha1] eqn:He. rewrite (denotes_grows s s1 h o Hi Hg1 Hd). by apply HQ.
Qed.

Notation with_proxy := (with_proxy step_ok).

(** A proxy for a handle made since [s0] is gone afterwards. *)
Lemma awp_with_proxy {A} s0 h (use : Auth A) s (Q : A -> AuthState -> Prop) (E : FacetResult -> AuthState -> Prop) :
  auth_inv s0 -> quiet s0 s -> next_handle s0 <= h ->
  (forall s', quiet s s' -> awp use s' (fun a s2 => Q a (release h s2)) (fun c s2 => E c (release h s2))) ->
  (forall s', quiet s0 s' -> refused -> E FACET_OUT_OF_MEMORY s') ->
  awp (with_proxy h use) s Q E.
Proof.
  intros Hi0 Hq0 Hh HQ HE. apply awp_finally, awp_bind, awp_step; [apply Hq0| |].
  - intros s1 Hq. by apply HQ.
  - intros s1 Hq Hr. apply awp_err, HE; [|done]. apply quiet_drop; [done|by eapply quiet_trans|done].
Qed.

Lemma awp_get_principal s h o d name (Q : Z -> AuthState -> Prop) (E : FacetResult -> AuthState -> Prop) :
  auth_inv s -> denotes s h o -> vouches s o d name ->
  (forall p o' s', quiet s s' -> next_handle s <= p < next_handle s' -> denotes s' p o' -> says_name s' o' name -> Q p s') ->
  (forall c s', quiet s s' -> refused -> E c s') ->
  awp (remote_get_principal step_ok h) s Q E.
Proof.
  intros Hi Hd Hv HQ HE. apply (awp_remote h o); [done..| |by auto].
  intros s1 Hq. pose proof (vouches_quiet s s1 _ _ _ Hi Hq Hv) as Hv1.
  pose proof (grows_next _ _ (quiet_grows _ _ Hq)).
  destruct Hv1 as [b v y n (user & Hu & Hp & Ha) Hy Hn|p d n name Hn]; simpl.
  - apply awp_bind, (awp_get_user s1 b v user); [done|]. unfold clone_handle.
    pose proof (inv_fresh _ (quiet_inv _ _ Hq) _ _ Hp). rewrite (proj2 (Z.eqb_neq _ _)) by lia.
    apply (awp_clone _ (OPrincipal b v)); [apply Hq|done| |].
    + intros h' s2 Hq2 Hr Hd2. eapply HQ; [by eapply quiet_trans|lia|done|by eapply says_name_quiet].
    + intros s2 Hq2 Hr. apply HE; [by eapply quiet_trans|done].
  - apply awp_new_handle; [apply Hq|].
    intros h' s2 Hq2 Hr Hd2. eapply HQ; [by eapply quiet_trans|lia|done|by eapply says_name_quiet].
Qed.

Lemma awp_get_domain_id s h o d name (Q : Z -> AuthState -> Prop) (E : FacetResult -> AuthState -> Prop) :
  auth_inv s -> denotes s h o -> vouches s o d name ->
  (forall s', quiet s s' -> Q d s') -> (forall c s', quiet s s' -> refused -> E c s') ->
  awp (remote_get_domain_id step_ok h) s Q E.
Proof.
  intros Hi Hd Hv HQ HE. apply (awp_remote h o); [done..| |by auto].
  intros s1 Hq. pose proof (vouches_quiet s s1 _ _ _ Hi Hq Hv) as Hv1. destruct Hv1 as [b v y n He Hy Hn|]; simpl.
  - apply awp_bind, (awp_get_authority s1 b y); [done|]. by apply awp_ret, HQ.
  - by apply awp_ret, HQ.
Qed.

Lemma awp_get_name s h o name (Q : bytes -> AuthState -> Prop) (E : FacetResult -> AuthState -> Prop) :
  auth_inv s -> denotes s h o -> says_name s o name ->
  (forall s', quiet s s' -> Q name s') -> (forall c s', quiet s s' -> refused -> E c s') ->
  awp (remote_get_name step_ok h) s Q E.
Proof.
  intros Hi Hd Hv HQ HE. apply (awp_remote h o); [done..| |by auto].
  intros s1 Hq. pose proof (says_name_quiet s s1 _ _ Hq Hv) as Hv1. destruct Hv1 as [b v user n Hu Hn|]; simpl.
  - apply awp_bind, (awp_get_user s1 b v user); [done|]. rewrite Hn. by apply awp_ret, HQ.
  - by apply awp_ret, HQ.
Qed.

(** The user whom the authority finds for a name. *)
Definition first_named (name : bytes) (l : list FacetConfigUser) : option nat := fst <$> list_find (named name) l.

Lemma find_user_spec s users name u :
  (forall user, user ∈ users -> is_Some (user_name (user_config user))) ->
  find_user users name u s = (Ok (Nat.add u <$> first_named name (map user_config users)), s).
Proof.
  revert u. induction users as [|user rest IH]; intros u Hn; [done|].
  destruct (Hn user) as [candidate Hc]; [left|]. simpl. rewrite Hc. unfold fbind. simpl.
  assert (same_name candidate name = Some (bool_decide (candidate = name))) as Hs by apply same_name_spec.
  unfold same_name in Hs.
  assert (IH' : find_user rest name (S u) s = (Ok (Nat.add u <$> (S <$> first_named name (map user_config rest))), s)).
  { rewrite IH by (intros user' H; apply Hn; by right).
    destruct (first_named name (map user_config rest)); simpl; [|done]. by rewrite Nat.add_succ_r. }
  unfold first_named in *. simpl.
  destruct (decide (candidate = name)) as [->|Hne].
  - rewrite decide_True by done. rewrite Nat.eqb_refl in *. simpl. rewrite Hs, bool_decide_true by done.
    simpl. by rewrite Nat.add_0_r.
  - rewrite decide_False by (unfold named; congruence).
    replace (Nat.add u <$> (fst <$> (prod_map S id <$> list_find (named name) (map user_config rest))))
      with (Nat.add u <$> (S <$> (fst <$> list_find (named name) (map user_config rest)))).
    2: { destruct (list_find (named name) (map user_config rest)) as [[v c]|]; done. }
    destruct (length candidate =? length name)%nat; simpl; [|done]. rewrite Hs, bool_decide_false by done. done.
Qed.

(** What an authority learns from a proof: all it says, or less because a resource
    was refused. *)
Definition learnt (s : AuthState) (d : Z) (name : bytes) (r : Z * option Z) (s' : AuthState) : Prop :=
  quiet s s' /\
  (refused /\ snd r = None /\ (fst r = 0 \/ next_handle s <= fst r) \/
   snd r = Some d /\ next_handle s <= fst r /\
   exists o, denotes s' (fst r) o /\ says_name s' o name).

Lemma awp_ask_proof s h o d name (Q : Z * option Z -> AuthState -> Prop) (E : FacetResult -> AuthState -> Prop) :
  auth_inv s -> denotes s h o -> vouches s o d name ->
  (forall r s', learnt s d name r s' -> Q r s') -> (forall c s', quiet s s' -> refused -> E c s') ->
  awp (fbind (libfacet_handle_clone h) (ask_proof step_ok)) s Q E.
Proof.
  intros Hi Hd Hv HQ HE. apply awp_bind, (awp_clone h o); [done|done| |by auto].
  intros owned s1 Hq1 Hr1 Hd1. apply (awp_with_proxy s); [done|done|lia| |by auto].
  intros s2 Hq2. assert (Hq02 : quiet s s2) by (by eapply quiet_trans).
  pose proof (vouches_quiet s s2 _ _ _ Hi Hq02 Hv) as Hv2.
  assert (Hd2 : denotes s2 owned o) by (eapply denotes_grows; [apply Hq1|apply Hq2|done]).
  pose proof (grows_next _ _ (quiet_grows _ _ Hq1)). pose proof (grows_next _ _ (quiet_grows _ _ Hq2)).
  apply awp_try, (awp_get_principal s2 owned o d name); [apply Hq2|done|done| |].
  2: { intros c s3 Hq3 Hr. apply awp_ret, HQ. split; [|left; auto].
       apply quiet_drop; [done|by eapply quiet_trans|lia]. }
  intros p po s3 Hq3 Hr3 Hd3 Hn3. assert (Hq03 : quiet s s3) by (by eapply quiet_trans).
  apply awp_try, (awp_get_domain_id s3 owned o d name); [apply Hq3| | | |].
  - eapply denotes_grows; [apply Hq2|apply Hq3|done].
  - by apply (vouches_quiet s).
  - intros s4 Hq4. assert (Hq : quiet s (release owned s4)).
    { apply quiet_drop; [done|by eapply quiet_trans|lia]. }
    apply awp_ret, HQ. split; [done|right]. split_and!; [done|simpl; lia|].
    exists po. split.
    + apply denotes_drop; [simpl; lia|]. eapply denotes_grows; [apply Hq3|apply Hq4|done].
    + apply (says_name_same s4); [done|]. by apply (says_name_quiet s3).
  - intros c s4 Hq4 Hr. apply awp_ret, HQ. split; [|left; split_and!; [done|done|simpl; lia]].
    apply quiet_drop; [done|by eapply quiet_trans|lia].
Qed.

Lemma inv_names s a x user : auth_inv s -> authority_list s !! a = Some x -> user ∈ auth_users x ->
  is_Some (user_name (user_config user)).
Proof.
  intros Hi Hx [u Hu]%list_elem_of_lookup. apply (ok_name s a u). apply (inv_users _ Hi). by exists x.
Qed.

(** Whom an authority makes a session for. *)
Definition admitted (x : AuthAuthority) (d : Z) (name : bytes) : option nat :=
  if d =? auth_domain_id x then first_named name (map user_config (auth_users x)) else None.

Notation find_authenticated_user := (find_authenticated_user step_ok).

Lemma awp_find_authenticated_user s a x h o d name (Q : option nat * Z -> AuthState -> Prop) E :
  auth_inv s -> authority_list s !! a = Some x -> denotes s h o -> vouches s o d name ->
  (forall found p s', quiet s s' -> (p = 0 /\ found = None) \/ next_handle s <= p ->
     (refused /\ found = None) \/ (found = admitted x d name) -> Q (found, p) s') ->
  awp (find_authenticated_user a h) s Q E.
Proof.
  intros Hi Hx Hd Hv HQ. apply awp_bind, (awp_get_authority s a x); [done|].
  pose proof (inv_next _ Hi).
  apply awp_try, (awp_ask_proof s h o d name); [done..| |].
  2: { intros c s1 Hq Hr. apply awp_ret, HQ; auto. }
  intros [p pd] s1 (Hq & [(Hr & Hpd & Hp)|(Hpd & Hp & po & Hdp & Hn)]); simpl in *; subst pd.
  { rewrite bool_decide_false by done. rewrite orb_true_r. apply awp_ret, HQ; auto. destruct Hp; auto. }
  rewrite (proj2 (Z.eqb_neq _ _)) by lia. simpl.
  destruct (Z.eqb_spec d (auth_domain_id x)) as [->|Hne].
  2: { rewrite bool_decide_false by congruence. apply awp_ret, HQ; auto. right.
       unfold admitted. by rewrite (proj2 (Z.eqb_neq _ _)). }
  rewrite bool_decide_true by done. simpl.
  apply awp_try, awp_bind, (awp_clone p po); [apply Hq|done| |].
  2: { intros s2 Hq2 Hr. apply awp_ret, HQ; auto. by eapply quiet_trans. }
  intros copy s2 Hq2 Hr2 Hd2. assert (Hq02 : quiet s s2) by (by eapply quiet_trans).
  pose proof (grows_next _ _ (quiet_grows _ _ Hq)).
  apply (awp_with_proxy s); [done|done|lia| |].
  2: { intros s3 Hq3 Hr. apply awp_ret, HQ; auto. }
  intros s3 Hq3. assert (Hq4 : forall s4, quiet s3 s4 -> quiet s (release copy s4)).
  { intros s4 Hq34. apply quiet_drop; [done| |lia]. eapply quiet_trans; [exact Hq02|by eapply quiet_trans]. }
  apply (awp_get_name s3 copy po name); [apply Hq3| | | |].
  - eapply denotes_grows; [apply Hq2|apply Hq3|done].
  - apply (says_name_quiet s2 s3); [done|]. by apply (says_name_quiet s1 s2).
  - intros s4 Hq34. rewrite (counted_users_ok s a x (inv_counts _ Hi) Hx). apply awp_bind, awp_ret, awp_bind. unfold awp at 1.
    rewrite find_user_spec by (intros user Hin; by eapply inv_names).
    apply awp_ret, HQ; [by apply Hq4|auto|right]. unfold admitted. rewrite Z.eqb_refl.
    by destruct (first_named name (map user_config (auth_users x))).
  - intros c s4 Hq34 Hr. apply awp_ret, HQ; auto.
Qed.

(** ** Sessions from proofs *)

Notation security_create := (security_create step_ok).

(** A session for the user whom the authority admits. *)
Definition session_granted (s : AuthState) (a : nat) (x : AuthAuthority) (who : option nat) (h : Z) (s' : AuthState) : Prop :=
  exists u user, who = Some u /\ auth_users x !! u = Some user /\
    auth_inv s' /\ grows s s' /\ session_of s (next_handle s) a u (auth_domain_id x) (user_config user) h s'.

(** No session, for want of resources or because nobody is admitted. *)
Definition session_denied (s : AuthState) (who : option nat) (c : FacetResult) (s' : AuthState) : Prop :=
  auth_inv s' /\ grows s s' /\
  (refused /\ (c = FACET_OUT_OF_MEMORY \/ c = FACET_ACCESS_DENIED) \/ who = None /\ c = FACET_ACCESS_DENIED).

Lemma first_named_user l name u : first_named name l = Some u -> exists c, l !! u = Some c /\ user_name c = Some name.
Proof.
  unfold first_named. intros ([v c] & Hf & ->)%fmap_Some. apply list_find_Some in Hf as (Hl & Hn & _). by exists c.
Qed.

Lemma admitted_user s a x d name u :
  authority_list s !! a = Some x -> admitted x d name = Some u ->
  exists user, auth_users x !! u = Some user /\ user_name (user_config user) = Some name /\ d = auth_domain_id x.
Proof.
  unfold admitted. intros Hx. destruct (Z.eqb_spec d (auth_domain_id x)) as [->|]; [|done].
  intros (c & Hc & Hn)%first_named_user. rewrite list_lookup_fmap in Hc.
  apply fmap_Some in Hc as (user & Hu & ->). by exists user.
Qed.

Lemma session_of_low s low s' low' a u d c h t :
  low' <= low -> session_of s low a u d c h t -> session_of s' low' a u d c h t.
Proof. intros Hl (session & ? & ? & ? & ? & ? & ?). exists session. split_and!; auto; lia. Qed.

Lemma awp_security_create s a x h o d name :
  auth_inv s -> authority_list s !! a = Some x -> denotes s h o -> vouches s o d name ->
  awp (security_create a h) s (session_granted s a x (admitted x d name)) (session_denied s (admitted x d name)).
Proof.
  intros Hi Hx Hd Hv. apply awp_bind, (awp_find_authenticated_user s a x h o d name); [done..|].
  intros found p s1 Hq Hp Hf. pose proof (inv_next _ Hi). pose proof (grows_next _ _ (quiet_grows _ _ Hq)).
  destruct found as [u|].
  - destruct Hf as [[_ ?]|Hf]; [done|]. destruct (admitted_user s a x d name u Hx) as (user & Hu & Hn & ->); [done|].
    destruct Hp as [[_ ?]|Hp]; [done|].
    assert (Hq2 : quiet s (release p s1)) by (by apply quiet_drop).
    destruct (domain_grows s (release p s1) a x) as (x2 & Hx2 & Hd2 & _); [apply Hq2|done|].
    apply awp_bind. unfold awp at 1, libfacet_handle_release, fput.
    apply (awp_create_session _ a u user x2); [apply Hq2| |done| |].
    + apply (user_at_same s _ a u user); [apply Hq2|]. by exists x.
    + intros h' s2 Hi2 Hg2 Hs. rewrite Hd2 in Hs. exists u, user. split_and!; try done.
      * etrans; [apply Hq2|done].
      * eapply session_of_low; [|exact Hs]. apply (grows_next _ _ (quiet_grows _ _ Hq2)).
    + intros s2 Hi2 Hg2 Hr. split_and!; [done|etrans; [apply Hq2|done]|auto].
  - assert (Hq2 : quiet s (if p =? 0 then s1 else release p s1)).
    { destruct (Z.eqb_spec p 0); [done|]. apply quiet_drop; [done|done|]. lia. }
    apply awp_bind. unfold awp. destruct (Z.eqb_spec p 0); simpl in *;
      (split_and!; [apply Hq2|apply Hq2|]; destruct Hf as [[Hr _]|<-]; auto).
Qed.

Notation authenticate := (authenticate step_ok crypt_sha256).

Lemma fwp_authenticate s a x name password :
  auth_inv s -> authority_list s !! a = Some x -> zlen password <= 4096 ->
  fwp (authenticate a (Some name) (Some password)) s
     (logged_in s a 0 (login crypt_sha256 (map user_config (auth_users x)) name password))
     (not_logged_in s (login crypt_sha256 (map user_config (auth_users x)) name password))
     (reads_past (map user_config (auth_users x)) name password).
Proof.
  intros Hi Hx Hlen. unfold Auth.authenticate. rewrite (proj2 (Z.ltb_ge _ _)) by done.
  apply fwp_bind, awp_fwp, (awp_get_authority s a x); [done|]. rewrite (counted_users_ok s a x (inv_counts _ Hi) Hx).
  apply fwp_bind. unfold fwp at 1. cbn [fret]. apply fwp_authenticate_loop; [done|]. intros i user Hu. by exists x.
Qed.

Lemma authenticate_too_long s a name password :
  4096 < zlen password -> authenticate a (Some name) (Some password) s = (Err FACET_INVALID_ARGUMENT, s).
Proof. intros Hlen. unfold Auth.authenticate. by rewrite (proj2 (Z.ltb_lt _ _)). Qed.


Lemma session_denied_grows s s1 who who' c s' :
  grows s s1 -> who' = None -> session_denied s1 who c s' -> who = None -> session_denied s who' c s'.
Proof. intros Hg -> (? & ? & Hc) Hw. split_and!; [done|by etrans|]. tauto. Qed.


Notation dominit0_authenticate_user := (dominit0_authenticate_user step_ok crypt_sha256).



(** ** Set up and tear down *)

(** Nothing new appears. *)
Record shrinks (s s' : AuthState) : Prop := {
  shrinks_next : next_handle s' = next_handle s;
  shrinks_objects : forall h o, denotes s' h o -> denotes s h o;
  shrinks_length : length (authority_list s') = length (authority_list s);
  shrinks_authorities : forall a x, authority_list s' !! a = Some x -> x = zero_authority \/ authority_list s !! a = Some x
}.

#[local] Instance shrinks_preorder : PreOrder shrinks.
Proof.
  split; [split; auto|]. intros s1 s2 s3 [H1 H2 H3 H4] [G1 G2 G3 G4]. split; [congruence|auto|congruence|].
  intros a x Hx. destruct (G4 a x Hx); auto.
Qed.

(** A step of the tear down that faults only under a condition. *)
Definition tame (F : Prop) (m : Auth unit) (s : AuthState) : Prop :=
  fwp m s (fun _ s' => shrinks s s') (fun _ _ => False) F.

Lemma tame_bind F m k s : tame F m s -> (forall s', shrinks s s' -> tame F k s') -> tame F (fbind m (fun _ => k)) s.
Proof.
  intros Hm Hk. apply fwp_bind. eapply fwp_mono; [exact Hm| |done|done]. intros x s1 Hs.
  eapply fwp_mono; [by apply Hk| |done|done]. intros y s2 Hs2.
  cbv beta in *. etrans; [exact Hs|exact Hs2].
Qed.

Lemma tame_release F h s : tame F (release_if h libfacet_handle_release) s.
Proof.
  unfold tame, fwp, release_if. destruct (h =? 0); [simpl; reflexivity|]. split; simpl; auto.
  unfold denotes. simpl. intros h' o [_ Hd]%lookup_delete_Some. done.
Qed.

Lemma tame_unexport F h s : tame F (release_if h libfacet_unexport_interface) s.
Proof.
  unfold tame, fwp, release_if. destruct (h =? 0); [simpl; reflexivity|].
  unfold libfacet_unexport_interface, fput. destruct (objects s !! h); [|simpl; reflexivity]. split; simpl; auto.
  unfold denotes. simpl. intros h' o' [Hd _]%map_lookup_filter_Some. done.
Qed.

Lemma tame_ret F s : tame F (fret tt) s.
Proof. unfold tame, fwp. simpl. reflexivity. Qed.

Hint Resolve tame_bind tame_release tame_unexport tame_ret : core.

Lemma tame_destroy_sessions F l s : tame F (destroy_sessions l) s.
Proof. revert s. induction l as [|[h ss] l IH]; intros s; simpl; auto 6. Qed.

Lemma tame_destroy_users F l s : tame F (destroy_users l) s.
Proof. revert s. induction l as [|user l IH]; intros s; simpl; auto 9. Qed.

Hint Resolve tame_destroy_sessions tame_destroy_users : core.

Lemma tame_zero F a s : tame F (fput (update_authority a (fun _ => zero_authority))) s.
Proof.
  unfold tame, fwp, fput. split; [done|auto| |]; unfold update_authority, authority_list; simpl;
    (destruct (authorities s) as [l|]; [|done]); simpl; [apply length_alter|].
  intros b x. destruct (decide (b = a)) as [->|Hb]; [|by rewrite list_lookup_alter_ne by done; auto].
  rewrite list_lookup_alter_eq. intros (y & _ & ->)%fmap_Some. by left.
Qed.

(** The tear down reads the users of every authority: it faults only if one has a
    number of users and no array. *)
Lemma tame_destroy_authority (F : Prop) a x s :
  authority_list s !! a = Some x -> (auth_user_count x <> length (auth_users x) -> F) -> tame F (destroy_authority a) s.
Proof.
  intros Hx HF. unfold tame, destroy_authority. apply fwp_bind, awp_fwp, (awp_get_authority s a x); [done|].
  change (tame F (fbind (destroy_sessions (sessions x)) (fun _ => fbind (counted_users x) (fun users =>
    fbind (destroy_users users) (fun _ => fbind (release_if (security_handle x) libfacet_unexport_interface) (fun _ =>
    fbind (release_if (service_handle x) libfacet_unexport_interface) (fun _ =>
    fput (update_authority a (fun _ => zero_authority)))))))) s).
  apply tame_bind; [auto|intros s1 _]. unfold counted_users. destruct (Nat.eqb_spec (auth_user_count x) (length (auth_users x))).
  - change (tame F (fbind (destroy_users (auth_users x)) (fun _ => fbind (release_if (security_handle x) libfacet_unexport_interface)
      (fun _ => fbind (release_if (service_handle x) libfacet_unexport_interface) (fun _ =>
       fput (update_authority a (fun _ => zero_authority)))))) s1).
    do 3 (apply tame_bind; [auto|intros ? _]). apply tame_zero.
  - by apply HF.
Qed.

Lemma tame_destroy_all (F : Prop) n a s :
  (a + n <= length (authority_list s))%nat ->
  (forall b x, authority_list s !! b = Some x -> auth_user_count x <> length (auth_users x) -> F) ->
  tame F (destroy_all a n) s.
Proof.
  revert a s. induction n as [|n IH]; intros a s Hn HF; simpl; [auto|].
  destruct (lookup_lt_is_Some_2 (authority_list s) a) as [x Hx]; [lia|].
  apply tame_bind; [apply (tame_destroy_authority F a x); [done|by eapply HF]|]. intros s' Hs. apply IH.
  - rewrite (shrinks_length _ _ Hs). lia.
  - intros b y Hy. destruct (shrinks_authorities _ _ Hs b y Hy) as [->|Hy']; [done|by eapply HF].
Qed.

(** The part of the invariant about handles. *)
Definition handles_ok (s : AuthState) : Prop := 0 < next_handle s /\ forall h o, denotes s h o -> 0 < h < next_handle s.

Lemma inv_handles s : auth_inv s -> handles_ok s.
Proof. by intros [H1 H2 _ _]. Qed.

Lemma fwp_destroy s (Q : unit -> AuthState -> Prop) E (F : Prop) :
  handles_ok s -> (forall b x, authority_list s !! b = Some x -> auth_user_count x <> length (auth_users x) -> F) ->
  (forall s', auth_inv s' -> authorities s' = None -> Q tt s') -> fwp dominit0_auth_destroy s Q E F.
Proof.
  intros [I1 I2] HF HQ. unfold dominit0_auth_destroy. apply fwp_bind. unfold fwp at 1, fget. apply fwp_bind.
  eapply fwp_mono; [apply (tame_destroy_all F (length (authority_list s)) 0 s); [lia|exact HF]| |done|done].
  intros [] s' [H1 H2 _ _]. apply HQ; [|done]. split; simpl; [lia| | |].
  - intros h o Hd. rewrite H1. by apply (I2 h o), H2.
  - intros b v user (x & Hx & _). done.
  - intros b x Hx. done.
Qed.

(** The users of a configuration that [facet_config_parse] accepts. *)
Definition user_configured (c : FacetConfigUser) : Prop :=
  is_Some (user_name c) /\ exists hash, password_hash c = Some hash /\ firstn 3 hash = B "$5$".

(** Who may log in to a domain; an authority without a source stays empty. *)
Definition domain_directory (system : FacetSystemConfig) (d : FacetConfigDomain) : Z * list FacetConfigUser :=
  if authentication_source_index d =? SIZE_MAX then (0, []) else (domain_id d, users system ++ domain_users d).

Notation initialize_authority := (initialize_authority step_ok).
Notation initialize_domains := (initialize_domains step_ok).
Notation dominit0_auth_initialize := (dominit0_auth_initialize step_ok).

(** The users of a fresh authority. *)
Lemma fresh_users_ok s a f l d :
  auth_inv s -> Forall user_configured l ->
  (forall x, auth_users (f x) = map initial_user l /\ auth_domain_id (f x) = d /\ auth_user_count (f x) = length l) ->
  auth_inv (update_authority a f s) /\ directory (update_authority a f s) = <[a := (d, l)]> (directory s).
Proof.
  intros Hi Hl Hf. split.
  - destruct Hi as [H1 H2 H3 H4]. split; [done|done| |].
    2: { unfold counted, authority_list, update_authority in *. simpl in *. intros b x Hx.
         destruct (authorities s) as [la|]; [|done]. simpl in *.
         destruct (decide (b = a)) as [->|Hb]; [|rewrite list_lookup_alter_ne in Hx by done; by eapply H4].
         rewrite list_lookup_alter_eq in Hx. apply fmap_Some in Hx as (y & Hy & ->).
         destruct (Hf y) as (-> & _ & ->). by rewrite length_map. }
    intros b v user (x & Hx & Hu). unfold authority_list, update_authority in Hx. simpl in Hx.
    destruct (authorities s) as [la|] eqn:Ha; [|done]. simpl in Hx.
    destruct (decide (b = a)) as [->|Hb].
    + rewrite list_lookup_alter_eq in Hx. apply fmap_Some in Hx as (y & Hy & ->).
      rewrite (proj1 (Hf y)), list_lookup_fmap in Hu. apply fmap_Some in Hu as (c & Hc & ->).
      destruct (proj1 (Forall_lookup _ _) Hl _ _ Hc) as [Hn Hh]. split; simpl; auto; by left.
    + rewrite list_lookup_alter_ne in Hx by done. apply (user_ok_objects s); [done|]. apply H3.
      exists x. unfold authority_list. by rewrite Ha.
  - unfold directory, update_authority, authority_list. simpl. destruct (authorities s) as [la|]; [|done]. simpl.
    apply list_eq. intros b. rewrite list_lookup_fmap. destruct (decide (b = a)) as [->|Hb].
    + rewrite list_lookup_alter_eq. destruct (la !! a) as [x|] eqn:Hx; simpl.
      * rewrite list_lookup_insert_eq by (rewrite length_map; by eapply lookup_lt_Some).
        destruct (Hf x) as (-> & -> & _). rewrite map_map. simpl. by rewrite map_id.
      * rewrite list_insert_ge by (rewrite length_map; by apply lookup_ge_None). by rewrite list_lookup_fmap, Hx.
    + rewrite list_lookup_alter_ne, list_lookup_insert_ne by done. by rewrite list_lookup_fmap.
Qed.

Lemma update_authority_twice a f g s : update_authority a g (update_authority a f s) = update_authority a (fun x => g (f x)) s.
Proof.
  unfold update_authority. simpl. destruct (authorities s) as [l|]; [|done]. simpl. do 2 f_equal.
  revert a. induction l as [|x l IH]; intros [|a]; try done. simpl. f_equal. apply IH.
Qed.

(** What is left when an authority could not be set up: in order, but perhaps for the
    number of users of one whose array was refused. *)
Definition half_initialized (s : AuthState) : Prop := handles_ok s /\ (counted s \/ refused).

Lemma awp_initialize_authority s a system d (Q : unit -> AuthState -> Prop) (E : FacetResult -> AuthState -> Prop) :
  auth_inv s -> Forall user_configured (users system ++ domain_users d) ->
  (forall s', auth_inv s' -> directory s' = <[a := (domain_id d, users system ++ domain_users d)]> (directory s) -> Q tt s') ->
  (forall c s', half_initialized s' -> c <> FACET_OK -> refused -> E c s') ->
  awp (initialize_authority a system d) s Q E.
Proof.
  intros Hi Hc HQ HE. unfold Auth.initialize_authority. apply awp_bind. unfold awp at 1, fput.
  set (f := fun x => mkAuthority _ _ _ _ _ _). apply awp_bind. unfold awp at 1, Auth.step. cbn [operations update_authority].
  assert (Hhalf : forall s', auth_inv s' -> half_initialized s') by (intros s' H; split; [by apply inv_handles|by left; apply H]).
  destruct (step_ok (operations s)) eqn:Hok; cbn [negb].
  2: { assert refused as Hr by (by exists (operations s)). apply awp_err, HE; [|done|done].
       split; [|by right]. destruct Hi as [H1 H2 _ _]. by split. }
  apply awp_bind. unfold awp at 1, fput.
  assert (Hq : quiet s (mkAuth (authorities s) (objects s) (next_handle s) (S (operations s)))) by by apply quiet_operations.
  set (s1 := mkAuth (authorities s) _ _ (S (operations s))) in Hq.
  match goal with |- awp _ (update_authority a ?g ?t) _ _ => change t with (update_authority a f s1); set (g' := g) end.
  rewrite update_authority_twice.
  destruct (fresh_users_ok s1 a (fun x => g' (f x)) (users system ++ domain_users d) (domain_id d)) as [Hi2 Hd2]; [apply Hq|done|done|].
  set (s2 := update_authority a _ s1) in *. clearbody s2. change (directory s1) with (directory s) in Hd2. rewrite <- Hd2 in HQ.
  apply awp_bind, awp_export; [done| |by intros s3 [? _ _] ?; apply HE; auto].
  intros service s3 [Hi3 Hg3 _] _ _. apply awp_bind. unfold awp at 1, fput.
  destruct (update_authority_ok s2 s3 a (set_service service)) as [Hi4 Hg4]; [done..|].
  apply awp_bind, awp_export; [done| |by intros s5 [? _ _] ?; apply HE; auto].
  intros security s5 [Hi5 Hg5 _] _ _. unfold awp, fput.
  destruct (update_authority_ok s2 s5 a (set_security security)) as [Hi6 Hg6]; [done|done|by etrans|].
  apply HQ; [done|]. apply (grows_directory _ _ Hg6).
Qed.

Lemma awp_bind_services s (Q : bool -> AuthState -> Prop) E :
  auth_inv s -> (forall b s', quiet s s' -> (b = false -> refused) -> Q b s') -> awp (bind_services step_ok) s Q E.
Proof.
  intros Hi HQ. apply awp_bind, awp_step; [done| |by intros; apply awp_ret, HQ].
  intros s1 Hq. simpl. apply awp_step; [apply Hq|intros s2 Hq2|intros s2 Hq2 Hr]; apply HQ; try done; by eapply quiet_trans.
Qed.

Lemma fwp_initialize_domains system rest ready s (Q : unit -> AuthState -> Prop) (E : FacetResult -> AuthState -> Prop) :
  auth_inv s -> directory s = map (domain_directory system) ready ++ repeat (0, []) (length rest) ->
  Forall user_configured (users system) -> Forall (fun d => Forall user_configured (domain_users d)) rest ->
  (forall s', auth_inv s' -> directory s' = map (domain_directory system) (ready ++ rest) -> Q tt s') ->
  (forall s', auth_inv s' -> authorities s' = None -> refused -> E FACET_ERROR s') ->
  fwp (initialize_domains (length ready) system rest) s Q E refused.
Proof.
  intros Hi Hd Hu Hr HQ HE. revert ready s Hi Hd HQ. induction Hr as [|d rest Hdu Hr IH]; intros ready s Hi Hd HQ.
  { apply HQ; [done|]. by rewrite Hd, !app_nil_r. }
  assert (Hnext : forall s', auth_inv s' ->
    directory s' = <[length ready := domain_directory system d]> (directory s) ->
    fwp (initialize_domains (S (length ready)) system rest) s' Q E refused).
  { intros s' Hi' Hd'. replace (S (length ready)) with (length (ready ++ [d])) by (rewrite length_app; simpl; lia).
    apply IH; [done| |by rewrite <- app_assoc]. rewrite Hd', Hd. simpl.
    rewrite <- (length_map (domain_directory system) ready) at 1. rewrite insert_app_r_alt by lia.
    by rewrite Nat.sub_diag, map_app, <- app_assoc. }
  simpl. unfold domain_directory in Hnext at 1. destruct (authentication_source_index d =? SIZE_MAX).
  { apply Hnext; [done|]. symmetry. apply list_insert_id. rewrite Hd.
    rewrite lookup_app_r by (rewrite length_map; lia). by rewrite length_map, Nat.sub_diag. }
  assert (Hfail : forall s', half_initialized s' -> refused ->
    fwp (dominit0_auth_destroy ;; ferr FACET_ERROR) s' Q E refused).
  { intros s' [Hh Hc] Hre. apply fwp_bind, fwp_destroy; [done|by intros|]. intros s3 Hi3 Ha3. by apply HE. }
  apply fwp_bind, awp_fwp, awp_catch, awp_initialize_authority; [done|by apply Forall_app| |].
  - intros s1 Hi1 Hd1. rewrite bool_decide_true by done. apply fwp_bind, awp_fwp, awp_bind_services; [done|].
    intros b s2 [Hi2 Hg2 _] Hb. destruct b; cbn [negb].
    + apply Hnext; [done|]. by rewrite (grows_directory _ _ Hg2).
    + apply Hfail; [split; [by apply inv_handles|by left; apply Hi2]|by apply Hb].
  - intros c s1 Hi1 Hc Hre. rewrite bool_decide_false by done. apply fwp_bind. unfold fwp at 1. cbn [fret negb].
    by apply Hfail.
Qed.

Lemma fwp_initialize s system :
  auth_inv s -> authorities s = None ->
  Forall user_configured (users system) -> Forall (fun d => Forall user_configured (domain_users d)) (domains system) ->
  fwp (dominit0_auth_initialize system) s
     (fun _ s' => auth_inv s' /\ directory s' = map (domain_directory system) (domains system))
     (fun c s' => auth_inv s' /\ authorities s' = None /\ c = FACET_ERROR /\ refused) refused.
Proof.
  intros Hi Ha Hu Hd. apply fwp_bind. unfold fwp at 1, fget. rewrite Ha. apply fwp_bind, awp_fwp, awp_step; [done| |].
  2: { intros s1 [Hi1 _ Ha1] Hr. split_and!; [done|congruence|done|done]. }
  intros s1 [Hi1 _ Ha1]. cbn [negb]. apply fwp_bind. unfold fwp at 1, fput.
  assert (Hz : forall n a x, repeat zero_authority n !! a = Some x -> x = zero_authority).
  { intros n a x Hx. apply list_elem_of_lookup_2, list_elem_of_In, repeat_spec in Hx. done. }
  apply (fwp_initialize_domains system (domains system) []); auto.
  - destruct Hi1 as [H1 H2 H3 H4]. split; [done|done| |].
    + intros b v user (x & Hx & Huser). apply Hz in Hx as ->. done.
    + intros b x Hx. by apply Hz in Hx as ->.
  - unfold directory, authority_list. simpl. induction (length (domains system)) as [|n IH]; [done|]. simpl. by rewrite IH.
Qed.

(** ** The configuration of the system *)

Lemma user_wf_configured c : user_wf c -> user_configured c.
Proof.
  intros ((name & Hn & _) & (salt & digest & Hh & _) & _). split; [by exists name|]. eexists. by split.
Qed.

(** An accepted configuration gives every domain its users, no two of one name. *)
Lemma config_users system d :
  config_wf system -> d ∈ domains system ->
  Forall user_configured (users system) /\ Forall user_configured (domain_users d) /\
  NoDup (map user_name (users system ++ domain_users d)).
Proof.
  intros Hw Hd. pose proof (proj1 (Forall_forall _ _) (wf_domains _ Hw) d Hd) as (_ & _ & _ & _ & Hu & Hn & Hdis & _).
  split_and!.
  - eapply Forall_impl; [apply (wf_users _ Hw)|]. apply user_wf_configured.
  - eapply Forall_impl; [exact Hu|]. apply user_wf_configured.
  - rewrite map_app. apply NoDup_app. split_and!; [apply (wf_user_names _ Hw)| |done].
    intros name H1 (u & -> & H2)%list_elem_of_fmap. by apply (Hdis u).
Qed.


(** C16: Authentication is decided by the first user of the given name and the hash
    of the password: the service returns a handle that proves this user's identity
    exactly when the stored hash agrees with the computed one, and denies access
    otherwise; a password of more than 4096 bytes is an invalid argument, and a
    refused resource is reported as such.  There is one fault: when the hash function
    answers a string that is shorter than the stored hash of that user, as its token
    for a failure is, the comparison reads beyond it.  Nobody's handles and directory
    change. *)
Theorem auth_authenticate_decided s a x name password :
  auth_inv s -> authority_list s !! a = Some x ->
  if 4096 <? zlen password then authenticate a (Some name) (Some password) s = (Err FACET_INVALID_ARGUMENT, s)
  else fwp (authenticate a (Some name) (Some password)) s
    (logged_in s a 0 (login crypt_sha256 (map user_config (auth_users x)) name password))
    (not_logged_in s (login crypt_sha256 (map user_config (auth_users x)) name password))
    (reads_past (map user_config (auth_users x)) name password).
Proof.
  intros Hi Hx. destruct (Z.ltb_spec 4096 (zlen password)); [by apply authenticate_too_long|by apply fwp_authenticate].
Qed.


(** A session is made from a proof for the user whom the proof names, and only if
    the proof says that it belongs to the domain of the authority; in particular the
    proofs of other domains are refused. *)
Theorem auth_session_from_proof s a x h o d name :
  auth_inv s -> authority_list s !! a = Some x -> denotes s h o -> vouches s o d name ->
  awp (security_create a h) s (session_granted s a x (admitted x d name)) (session_denied s (admitted x d name)).
Proof. apply awp_security_create. Qed.

(** The proof is not checked to be one that the authority gave out: an object of
    any process that answers with the id of the domain and the name of a user gets
    a session with the credentials of that user, without a password. *)
Theorem auth_forged_proof_accepted s a x h name u user :
  auth_inv s -> authority_list s !! a = Some x -> (forall n, step_ok n = true) ->
  first_named name (map user_config (auth_users x)) = Some u -> auth_users x !! u = Some user ->
  denotes s h (OForeign (Some (OForeign None None (Some name))) (Some (auth_domain_id x)) None) ->
  exists h' session s', security_create a h s = (Ok h', s') /\ denotes s' h' (OSession a session) /\
    session_user session = user_config user.
Proof.
  intros Hi Hx Hok Hf Hu Hd.
  assert (Hv : vouches s (OForeign (Some (OForeign None None (Some name))) (Some (auth_domain_id x)) None)
                 (auth_domain_id x) name) by (repeat constructor).
  pose proof (awp_security_create s a x h _ _ _ Hi Hx Hd Hv) as H. unfold admitted in H.
  rewrite Z.eqb_refl, Hf in H. unfold awp in H.
  destruct (security_create a h s) as [[h'|c|] s']; [| |done].
  - destruct H as (u' & user' & [= <-] & Hu' & _ & _ & session & _ & Hs & _ & Hc & _).
    exists h', session, s'. split_and!; [done..|congruence].
  - destruct H as (_ & _ & [[[n Hn] _]|[? _]]); [congruence|done].
Qed.

(** The comparison of the hashes reads beyond the computed one when the hash function
    answers a shorter string, such as the failure token. *)
Lemma check_password_reads_past_the_hash s password hash actual :
  step_ok (operations s) = true -> crypt crypt_sha256 (until_nul password) hash = Some actual ->
  (S (length actual) < length hash)%nat -> fst (check_password password hash s) = Fault.
Proof.
  intros Hok Hc Hl. unfold Auth.check_password, fbind, Auth.step. rewrite Hok. simpl. rewrite Hc.
  rewrite constant_time_short; [done|]. rewrite length_app. simpl. lia.
Qed.

End Facts.

(** ** An example: the fallback configuration *)

Definition sample_parse := facet_config_parse (fun _ => true) (Some fallback) (length fallback) (Some zero_config) None.
Definition sample_system : FacetSystemConfig := default zero_config (snd (fst sample_parse)).

Lemma parsed_wf data :
  bytes_ok data ->
  fst (fst (facet_config_parse (fun _ => true) (Some data) (length data) (Some zero_config) None)) = ConfigTypes.Ok tt ->
  config_wf (default zero_config
    (snd (fst (facet_config_parse (fun _ => true) (Some data) (length data) (Some zero_config) None)))).
Proof.
  intros Hd Hp. pose proof (outcome_parse (fun _ => true) data (length data) zero_config None Hd) as H.
  destruct (facet_config_parse _ _ _ _ _) as [[r c] d]. simpl in *. subst r. destruct c as [c|]; [|done]. apply H.
Qed.

Lemma sample_system_wf : config_wf sample_system.
Proof. apply (parsed_wf fallback); [by_decide|vm_compute; reflexivity]. Qed.

Definition empty_auth : AuthState := mkAuth None ∅ 1 0.

Lemma empty_auth_inv : auth_inv empty_auth.
Proof. split; [done|done| |done]. by intros a u user (x & Hx & _). Qed.

(** The authorities of the fallback configuration. *)
Definition always (n : nat) : bool := true.
Definition sample_auth : AuthState := snd (dominit0_auth_initialize always sample_system empty_auth).

(** A hash function for the example: it agrees with the setting for one password. *)
Definition sample_crypt (key setting : bytes) : option bytes :=
  if key =b B "secret" then Some setting else Some (map (fun _ => 42) setting).

Lemma initialized_inv step_ok s system :
  auth_inv s -> authorities s = None -> config_wf system ->
  fst (dominit0_auth_initialize step_ok system s) = Ok tt ->
  auth_inv (snd (dominit0_auth_initialize step_ok system s)).
Proof.
  intros Hi Ha Hw Hr. pose proof (fwp_initialize step_ok s system Hi Ha) as H. unfold fwp in H.
  destruct (dominit0_auth_initialize step_ok system s) as [r s']. simpl in *. subst r. apply H.
  - eapply Forall_impl; [apply (wf_users _ Hw)|]. apply user_wf_configured.
  - apply Forall_forall. intros d Hd. by apply (config_users system d).
Qed.

Lemma sample_auth_inv : auth_inv sample_auth.
Proof.
  apply initialized_inv; [exact empty_auth_inv|reflexivity|exact sample_system_wf|vm_compute; reflexivity].
Qed.

Definition sample_authority : AuthAuthority := default zero_authority (authority_list sample_auth !! 0%nat).

Lemma sample_authority_at : authority_list sample_auth !! 0%nat = Some sample_authority.
Proof. vm_compute. reflexivity. Qed.


(** Memory for the authorities, but not for the users of the first one. *)
Theorem auth_initialize_crashes :
  fst (dominit0_auth_initialize (fun n => negb (n =? 1)%nat) sample_system empty_auth) = Fault.
Proof. vm_compute. reflexivity. Qed.

Lemma auth_authenticate_decided_witness :
  (if 4096 <? zlen (B "secret")
   then authenticate always sample_crypt 0 (Some (B "root")) (Some (B "secret")) sample_auth = (Err FACET_INVALID_ARGUMENT, sample_auth)
   else fwp (authenticate always sample_crypt 0 (Some (B "root")) (Some (B "secret"))) sample_auth
    (logged_in sample_auth 0 0 (login sample_crypt (map user_config (auth_users sample_authority)) (B "root") (B "secret")))
    (not_logged_in always sample_auth (login sample_crypt (map user_config (auth_users sample_authority)) (B "root") (B "secret")))
    (reads_past sample_crypt (map user_config (auth_users sample_authority)) (B "root") (B "secret"))) /\
  login sample_crypt (map user_config (auth_users sample_authority)) (B "root") (B "secret") = Some 0%nat /\
  login sample_crypt (map user_config (auth_users sample_authority)) (B "root") (B "guess") = None.
Proof.
  split; [|split; vm_compute; reflexivity].
  exact (auth_authenticate_decided always sample_crypt sample_auth 0 sample_authority (B "root") (B "secret")
    sample_auth_inv sample_authority_at).
Defined.


(** The handle of an object of another process that claims to be root. *)
Definition forged : Object := OForeign (Some (OForeign None None (Some (B "root")))) (Some (auth_domain_id sample_authority)) None.
Definition forged_auth : AuthState := snd (new_handle forged sample_auth).
Definition forged_handle : Z := next_handle sample_auth.

Lemma forged_auth_inv : auth_inv forged_auth.
Proof.
  pose proof (awp_new_handle forged sample_auth (fun _ s' => auth_inv s') (fun _ _ => False) sample_auth_inv) as H.
  unfold awp in H. apply H. intros h s' Hq _ _. apply Hq.
Qed.

Lemma new_handle_denotes o s : denotes (snd (new_handle o s)) (next_handle s) o.
Proof. unfold denotes, new_handle. simpl. apply lookup_insert_eq. Qed.

Lemma forged_denotes : denotes forged_auth forged_handle forged.
Proof. exact (new_handle_denotes forged sample_auth). Qed.

Lemma forged_authority_at : authority_list forged_auth !! 0%nat = Some sample_authority.
Proof. vm_compute. reflexivity. Qed.

Lemma auth_session_from_proof_witness :
  awp (security_create always 0 forged_handle) forged_auth
    (session_granted forged_auth 0 sample_authority (admitted sample_authority (auth_domain_id sample_authority) (B "root")))
    (session_denied always forged_auth (admitted sample_authority (auth_domain_id sample_authority) (B "root"))).
Proof.
  apply (auth_session_from_proof always forged_auth 0 sample_authority forged_handle forged);
    [exact forged_auth_inv|exact forged_authority_at|exact forged_denotes|repeat constructor].
Defined.

Lemma auth_forged_proof_accepted_witness :
  exists h' session s', security_create always 0 forged_handle forged_auth = (Ok h', s') /\
    denotes s' h' (OSession 0 session) /\
    session_user session = user_config (default (initial_user zero_user) (auth_users sample_authority !! 0%nat)).
Proof.
  apply (auth_forged_proof_accepted always forged_auth 0 sample_authority forged_handle (B "root") 0);
    [exact forged_auth_inv|exact forged_authority_at|reflexivity|vm_compute; reflexivity|vm_compute; reflexivity|exact forged_denotes].
Defined.
