(* ===== verification/Handles.v ===== *)
(** Handles of libfacet as the services of dominit0 use them: a table of the objects
    that the live handles denote, with the null handle 0.  Releasing a handle that is
    not live is a [Fault], since the block behind it has been freed.  The end of an
    export ([libfacet_unexport_interface]) reads the same block and takes the object
    out of service, so it is written as a release too.

    [alloc_ok] answers the n-th allocation, export or clone and [proxy_ok] the n-th
    allocation of a client proxy.  The operations are written for every state that
    has such a table ([Worldly]), so that each service keeps its own state beside it. *)
From stdpp Require Import gmap.
From S2P Require Import Prelude Effects.

Record World (O : Type) := mkWorld {
  live : gmap Z O;
  next_fresh : Z;
  steps : nat
}.
Arguments mkWorld {O}.
Arguments live {O}.
Arguments next_fresh {O}.
Arguments steps {O}.

Class Worldly (S O : Type) := {
  world : S -> World O;
  set_world : World O -> S -> S
}.

Class WorldlyLaws (S O : Type) `{Worldly S O} := {
  world_set w s : world (set_world w s) = w;
  set_set w w' s : set_world w (set_world w' s) = set_world w s;
  set_same s : set_world (world s) s = s
}.

Section Handles.
Context {S O : Type} `{Worldly S O}.
Context (alloc_ok proxy_ok : nat -> bool).

Definition ask (oracle : nat -> bool) : Eff S bool := fun s =>
  let w := world s in
  (Ok (oracle (steps w)), set_world (mkWorld (live w) (next_fresh w) (Datatypes.S (steps w))) s).

Definition allocate : Eff S bool := ask alloc_ok.

Definition handle_of_object (o : O) : Eff S Z := fun s =>
  let w := world s in
  (Ok (next_fresh w), set_world (mkWorld (<[next_fresh w := o]> (live w)) (next_fresh w + 1) (steps w)) s).

Definition object_of (h : Z) : Eff S O := fun s =>
  match live (world s) !! h with Some o => (Ok o, s) | None => (Fault, s) end.

Definition handle_clone (h : Z) : Eff S Z :=
  if h =? 0 then ferr FACET_INVALID_HANDLE
  else
    run o <- object_of h;
    run ok <- allocate;
    if (ok : bool) then handle_of_object o else ferr FACET_OUT_OF_MEMORY.

Definition drop_handle (h : Z) : S -> S := fun s =>
  let w := world s in set_world (mkWorld (delete h (live w)) (next_fresh w) (steps w)) s.

Definition handle_release (h : Z) : Eff S unit :=
  if h =? 0 then fret tt
  else run o <- object_of h; fput (drop_handle h).

Definition export_interface (o : O) : Eff S Z :=
  run ok <- allocate;
  if (ok : bool) then handle_of_object o else ferr FACET_OUT_OF_MEMORY.

(** Release a handle after a step, whatever the result of the step is. *)
Definition then_release {A} (m : Eff S A) (h : Z) : Eff S A := fun s =>
  match m s with
  | (Fault, s') => (Fault, s')
  | (r, s') => match handle_release h s' with (Ok _, s2) => (r, s2) | (_, s2) => (Fault, s2) end
  end.

(** [libfacet_proxy_from_handle] on a handle that the caller owns, a call through the
    proxy and [libfacet_free_proxy_client]; without a proxy the handle is released. *)
Definition owned_proxy {A} (h : Z) (use : O -> Eff S A) : Eff S A :=
  if h =? 0 then ferr FACET_INVALID_HANDLE
  else
    run ok <- ask proxy_ok;
    then_release (if negb ok then ferr FACET_INVALID_HANDLE else run o <- object_of h; use o) h.

End Handles.
