(* ===== verification/HandleFacts.v ===== *)
(** Releasing handles: what a sequence of releases leaves in the table, for every
    state that has one. *)
From stdpp Require Import gmap.
From S2P Require Import Prelude Effects Handles.

(** The handles that are not null. *)
Definition present (hs : list Z) : list Z := filter (fun h => h <> 0) hs.

(** Distinct but for the null handle, by position and as a list. *)
Lemma once_NoDup hs :
  (forall i j h, hs !! i = Some h -> hs !! j = Some h -> h <> 0 -> i = j) <-> NoDup (present hs).
Proof.
  unfold present. induction hs as [|x hs IH]; [split; [intros _; constructor|by intros _ []]|]. rewrite filter_cons.
  assert (Htail : (forall i j h, (x :: hs) !! i = Some h -> (x :: hs) !! j = Some h -> h <> 0 -> i = j) ->
    NoDup (filter (fun h => h <> 0) hs)).
  { intros Ho. apply IH. intros i j h Hi Hj Hn. specialize (Ho (S i) (S j) h Hi Hj Hn). lia. }
  destruct (decide (x <> 0)) as [Hx|Hx].
  - rewrite NoDup_cons, list_elem_of_filter. split.
    + intros Ho. split; [|by apply Htail]. intros [_ [i Hi]%list_elem_of_lookup].
      by specialize (Ho 0%nat (S i) x eq_refl Hi Hx).
    + intros [Hin Hd] [|i] [|j] h Hi Hj Hn; simpl in *; [done| | |f_equal; by eapply IH];
        exfalso; apply Hin; split; try done.
      * injection Hi as ->. by eapply list_elem_of_lookup_2.
      * injection Hj as ->. by eapply list_elem_of_lookup_2.
  - split; [apply Htail|]. intros Hd [|i] [|j] h Hi Hj Hn; simpl in *; [done|destruct Hx; congruence|destruct Hx; congruence|].
    f_equal. by eapply IH.
Qed.

Lemma present_all hs : Forall (fun h => h <> 0) hs -> present hs = hs.
Proof.
  unfold present. induction hs as [|h hs IH]; intros Hs; [done|]. apply Forall_cons in Hs as [Hh Hs].
  rewrite filter_cons_True by done. by rewrite IH.
Qed.

Section Release.
Context {T O : Type} `{WorldlyLaws T O}.

Abbreviation lv s := (live (world s)).

(** The handles [hs], and no others, are gone; nothing else has changed. *)
Definition released (hs : list Z) (s s' : T) : Prop :=
  exists w, s' = set_world w s /\ next_fresh w = next_fresh (world s) /\
    forall h, live w !! h = if decide (h <> 0 /\ h ∈ hs) then None else lv s !! h.

(** Live and distinct, but for the null handle. *)
Definition releasable (hs : list Z) (s : T) : Prop :=
  Forall (fun h => is_Some (lv s !! h)) (present hs) /\ NoDup (present hs).

Lemma released_live hs s s' h :
  released hs s s' -> lv s' !! h = if decide (h <> 0 /\ h ∈ hs) then None else lv s !! h.
Proof. intros (w & -> & _ & Hl). by rewrite world_set. Qed.

Lemma released_next hs s s' : released hs s s' -> next_fresh (world s') = next_fresh (world s).
Proof. intros (w & -> & Hn & _). by rewrite world_set. Qed.

Lemma released_nil s : released [] s s.
Proof.
  exists (world s). rewrite set_same. split_and!; [done..|]. intros h. rewrite decide_False; [done|].
  intros [_ Hn]. by apply elem_of_nil in Hn.
Qed.

Lemma released_trans hs ks s1 s2 s3 : released hs s1 s2 -> released ks s2 s3 -> released (hs ++ ks) s1 s3.
Proof.
  intros (w1 & -> & N1 & L1) (w2 & -> & N2 & L2). rewrite world_set in *. exists w2. rewrite set_set.
  split_and!; [done|congruence|]. intros h. rewrite L2, L1. pose proof (elem_of_app hs ks h).
  destruct (decide (h <> 0 /\ h ∈ ks)), (decide (h <> 0 /\ h ∈ hs ++ ks)), (decide (h <> 0 /\ h ∈ hs)); naive_solver.
Qed.

Lemma releasable_after h hs s s' : releasable (h :: hs) s -> released [h] s s' -> releasable hs s'.
Proof.
  unfold releasable, present. rewrite filter_cons. intros [Hl Hd] Hrel.
  assert (Hnot : h <> 0 -> h ∉ hs).
  { intros Hn Hin. rewrite decide_True in Hd by done. apply NoDup_cons in Hd as [Hd _]. apply Hd.
    by apply list_elem_of_filter. }
  assert (Hd' : NoDup (filter (fun k => k <> 0) hs)).
  { destruct (decide (h <> 0)); [by apply NoDup_cons in Hd as [_ Hd]|done]. }
  assert (Hl' : Forall (fun k => is_Some (lv s !! k)) (filter (fun k => k <> 0) hs)).
  { destruct (decide (h <> 0)); [by apply Forall_cons in Hl as [_ Hl]|done]. }
  split; [|done]. rewrite Forall_forall in *. intros k Hk. rewrite (released_live _ _ _ k Hrel), decide_False; [by apply Hl'|].
  intros [Hn ->%list_elem_of_singleton]. apply list_elem_of_filter in Hk as [_ Hk]. by apply Hnot.
Qed.

Lemma release_one h hs s :
  releasable (h :: hs) s -> exists s', handle_release h s = (Ok tt, s') /\ released [h] s s'.
Proof.
  intros [Hl _]. unfold handle_release. destruct (Z.eqb_spec h 0) as [->|Hn].
  - exists s. split; [done|]. exists (world s). rewrite set_same. split_and!; [done..|]. intros h'.
    rewrite decide_False; [done|]. intros [Hz Hh%list_elem_of_singleton]. done.
  - unfold present in Hl. rewrite filter_cons_True in Hl by done. apply Forall_cons in Hl as [[o Ho] _].
    unfold fbind, object_of. simpl. rewrite Ho. eexists. split; [done|]. eexists. split_and!; [done..|]. intros h'. simpl.
    destruct (decide _) as [[_ ->%list_elem_of_singleton]|Hne].
    + apply lookup_delete_eq.
    + apply lookup_delete_ne. intros ->. apply Hne. split; [done|by apply list_elem_of_singleton].
Qed.

(** A step of releases, one after the other. *)
Lemma release_then {A} h hs (m : Eff T A) (Q : A -> T -> Prop) (E : FacetResult -> T -> Prop) s :
  releasable (h :: hs) s ->
  (forall s', released [h] s s' -> releasable hs s' -> awp m s' Q E) -> awp (fbind (handle_release h) (fun _ => m)) s Q E.
Proof.
  intros Hr Hm. destruct (release_one h hs s Hr) as (s' & Hs & Hrel).
  apply awp_bind. unfold awp at 1. rewrite Hs. apply Hm; [done|]. by eapply releasable_after.
Qed.

End Release.

(** ** Steps that only add handles *)

Section Later.
Context {T O : Type} `{WorldlyLaws T O}.

Abbreviation lv s := (live (world s)).
Abbreviation nx s := (next_fresh (world s)).

Definition handles_ok (s : T) : Prop := 0 < nx s /\ forall h o, lv s !! h = Some o -> 0 < h < nx s.

(** What was there is still there. *)
Record later (s s' : T) : Prop := {
  lt_ok : handles_ok s';
  lt_next : nx s <= nx s';
  lt_live : forall h, h < nx s -> lv s' !! h = lv s !! h
}.

Lemma later_refl s : handles_ok s -> later s s.
Proof. by split. Qed.

Lemma later_trans s1 s2 s3 : later s1 s2 -> later s2 s3 -> later s1 s3.
Proof. intros [_ N1 L1] [O2 N2 L2]. split; [done|lia|]. intros h Hh. rewrite L2 by lia. by apply L1. Qed.

(** A handle that is live stays so. *)
Lemma later_kept s s' h o : handles_ok s -> later s s' -> lv s !! h = Some o -> lv s' !! h = Some o.
Proof. intros [_ Hok] [_ _ Hl] Ho. rewrite Hl; [done|]. apply Hok in Ho. lia. Qed.

Lemma later_ask oracle s : handles_ok s -> later s (snd (ask oracle s)).
Proof. intros Hs. unfold ask. simpl. split; unfold handles_ok; rewrite ?world_set; simpl; [apply Hs|lia|done]. Qed.

Lemma later_fresh o s : handles_ok s -> later s (snd (handle_of_object o s)).
Proof.
  intros [Hp Hl]. unfold handle_of_object. simpl. split; unfold handles_ok; rewrite ?world_set; simpl; [|lia|].
  - split; [lia|]. intros k x [[<- <-]|[_ Hk]]%lookup_insert_Some; [lia|]. apply Hl in Hk. lia.
  - intros k Hk. apply lookup_insert_ne. lia.
Qed.

Lemma fresh_live o s : lv (snd (handle_of_object o s)) !! nx s = Some o.
Proof. unfold handle_of_object. simpl. rewrite world_set. apply lookup_insert_eq. Qed.

(** Only a handle made since [s0] is dropped. *)
Lemma later_drop s0 s h : later s0 s -> nx s0 <= h -> later s0 (drop_handle h s).
Proof.
  intros [[Hp Hl] N L] Hh. unfold drop_handle. split; unfold handles_ok; rewrite ?world_set; simpl; [|lia|].
  - split; [lia|]. intros k x [_ Hk]%lookup_delete_Some. by eapply Hl.
  - intros k Hk. rewrite lookup_delete_ne by lia. by apply L.
Qed.

Lemma drop_other h k s : k <> h -> lv (drop_handle h s) !! k = lv s !! k.
Proof. intros Hk. unfold drop_handle. rewrite world_set. by apply lookup_delete_ne. Qed.

(** A release ends with a handle that is not live any more. *)
Lemma pwp_release h s (Q : unit -> T -> Prop) :
  (h = 0 -> Q tt s) -> (h <> 0 -> Q tt (drop_handle h s)) -> pwp (handle_release h) s Q.
Proof.
  intros Hz Hn. unfold handle_release. destruct (Z.eqb_spec h 0) as [->|Hne]; [by apply Hz|].
  unfold pwp, fbind, object_of. destruct (live (world s) !! h); [by apply Hn|done].
Qed.

End Later.
