(* ===== verification/Posix.v ===== *)
(** The POSIX view of a process (src/src/dominit0/posix.c): its descriptor table, its
    current and root directories, the synthetic directory /etc, and the calls that
    it forwards to files, directories and the process manager.

    The objects behind the handles belong to other services; [PosixServices] is what
    the view asks of them.  [X] is the state behind the callbacks that the process
    manager binds ([Callbacks]).  A call ends with a value, with a POSIX error
    ([Errno]) or with a result code of libfacet.  Output pointers are taken to be
    valid, and the authority behind [posix_authenticate] to be linked in.  Ending an
    export is the release of its handle. *)
From stdpp Require Import gmap.
From S2P Require Import Prelude Effects Handles Initrd.

(** The values of errno.h that the view reports. *)
Inductive Errno :=
  | EPERM | ENOENT | EIO | EBADF | ECHILD | EAGAIN | ENOMEM | EACCES | EINVAL | EMFILE | ESPIPE | EROFS | ENOSYS.

Inductive outcome (A : Type) := Done (a : A) | Failed (e : Errno).
Arguments Done {A}.
Arguments Failed {A}.

Definition POSIX_DESCRIPTOR_COUNT : nat := 64.

Inductive DescriptorKind :=
  | DESCRIPTOR_UNUSED | DESCRIPTOR_INPUT | DESCRIPTOR_OUTPUT | DESCRIPTOR_FILE | DESCRIPTOR_MEMORY.

#[global] Instance DescriptorKind_eq : EqDecision DescriptorKind.
Proof. solve_decision. Defined.

Record PosixDescriptor := mkDescriptor {
  kind : DescriptorKind;
  handle : Z;
  offset : Z;
  memory : bytes
}.

Definition unused_descriptor : PosixDescriptor := mkDescriptor DESCRIPTOR_UNUSED 0 0 [].

Definition posix_passwd : bytes :=
  QL "root:x:0:0:root:/home/root:/bin/sh" ++ QL "user:x:1000:1000:user:/home/user:/bin/sh".
Definition posix_shadow : bytes :=
  QL "root:$5$facet$j7FgoXidvJl10CTaW0nguGP3ZnvKnqS3/IHmDVliPQ9:::::::" ++
  QL "user:$5$facet$j7FgoXidvJl10CTaW0nguGP3ZnvKnqS3/IHmDVliPQ9:::::::".
Definition posix_fstab : bytes := QL "initrd / initrd ro 0 0".

Record PosixView := mkView {
  view_handle : Z;
  cwd_handle : Z;
  root_handle : Z;
  chrooted : bool;
  cwd_synthetic_etc : bool;
  virtual_passwd : bytes;
  virtual_shadow : bytes;
  virtual_fstab : bytes;
  page_allocator_handle : Z;
  lifecycle_handle : Z;
  view_domain_id : Z;
  view_pid : Z;
  process_control : bool;
  view_admin : bool;
  cwd_changed_bound : bool;
  descriptors : list PosixDescriptor
}.

Definition set_cwd_handle (h : Z) (v : PosixView) : PosixView :=
  mkView (view_handle v) h (root_handle v) (chrooted v) (cwd_synthetic_etc v) (virtual_passwd v) (virtual_shadow v)
    (virtual_fstab v) (page_allocator_handle v) (lifecycle_handle v) (view_domain_id v) (view_pid v)
    (process_control v) (view_admin v) (cwd_changed_bound v) (descriptors v).
Definition set_root_handle (h : Z) (v : PosixView) : PosixView :=
  mkView (view_handle v) (cwd_handle v) h (chrooted v) (cwd_synthetic_etc v) (virtual_passwd v) (virtual_shadow v)
    (virtual_fstab v) (page_allocator_handle v) (lifecycle_handle v) (view_domain_id v) (view_pid v)
    (process_control v) (view_admin v) (cwd_changed_bound v) (descriptors v).
Definition set_chrooted (b : bool) (v : PosixView) : PosixView :=
  mkView (view_handle v) (cwd_handle v) (root_handle v) b (cwd_synthetic_etc v) (virtual_passwd v) (virtual_shadow v)
    (virtual_fstab v) (page_allocator_handle v) (lifecycle_handle v) (view_domain_id v) (view_pid v)
    (process_control v) (view_admin v) (cwd_changed_bound v) (descriptors v).
Definition set_synthetic (b : bool) (v : PosixView) : PosixView :=
  mkView (view_handle v) (cwd_handle v) (root_handle v) (chrooted v) b (virtual_passwd v) (virtual_shadow v)
    (virtual_fstab v) (page_allocator_handle v) (lifecycle_handle v) (view_domain_id v) (view_pid v)
    (process_control v) (view_admin v) (cwd_changed_bound v) (descriptors v).
Definition set_texts (passwd shadow fstab : bytes) (v : PosixView) : PosixView :=
  mkView (view_handle v) (cwd_handle v) (root_handle v) (chrooted v) (cwd_synthetic_etc v) passwd shadow
    fstab (page_allocator_handle v) (lifecycle_handle v) (view_domain_id v) (view_pid v)
    (process_control v) (view_admin v) (cwd_changed_bound v) (descriptors v).
Definition set_page_allocator (h : Z) (v : PosixView) : PosixView :=
  mkView (view_handle v) (cwd_handle v) (root_handle v) (chrooted v) (cwd_synthetic_etc v) (virtual_passwd v)
    (virtual_shadow v) (virtual_fstab v) h (lifecycle_handle v) (view_domain_id v) (view_pid v)
    (process_control v) (view_admin v) (cwd_changed_bound v) (descriptors v).
Definition set_lifecycle (h : Z) (v : PosixView) : PosixView :=
  mkView (view_handle v) (cwd_handle v) (root_handle v) (chrooted v) (cwd_synthetic_etc v) (virtual_passwd v)
    (virtual_shadow v) (virtual_fstab v) (page_allocator_handle v) h (view_domain_id v) (view_pid v)
    (process_control v) (view_admin v) (cwd_changed_bound v) (descriptors v).
Definition set_control (domain_id pid : Z) (admin : bool) (v : PosixView) : PosixView :=
  mkView (view_handle v) (cwd_handle v) (root_handle v) (chrooted v) (cwd_synthetic_etc v) (virtual_passwd v)
    (virtual_shadow v) (virtual_fstab v) (page_allocator_handle v) (lifecycle_handle v) domain_id pid
    true admin (cwd_changed_bound v) (descriptors v).
Definition set_admin_flag (b : bool) (v : PosixView) : PosixView :=
  mkView (view_handle v) (cwd_handle v) (root_handle v) (chrooted v) (cwd_synthetic_etc v) (virtual_passwd v)
    (virtual_shadow v) (virtual_fstab v) (page_allocator_handle v) (lifecycle_handle v) (view_domain_id v) (view_pid v)
    (process_control v) b (cwd_changed_bound v) (descriptors v).
Definition set_cwd_sync (synthetic : bool) (v : PosixView) : PosixView :=
  mkView (view_handle v) (cwd_handle v) (root_handle v) (chrooted v) synthetic (virtual_passwd v)
    (virtual_shadow v) (virtual_fstab v) (page_allocator_handle v) (lifecycle_handle v) (view_domain_id v) (view_pid v)
    (process_control v) (view_admin v) true (descriptors v).
Definition set_descriptors (d : list PosixDescriptor) (v : PosixView) : PosixView :=
  mkView (view_handle v) (cwd_handle v) (root_handle v) (chrooted v) (cwd_synthetic_etc v) (virtual_passwd v)
    (virtual_shadow v) (virtual_fstab v) (page_allocator_handle v) (lifecycle_handle v) (view_domain_id v) (view_pid v)
    (process_control v) (view_admin v) (cwd_changed_bound v) d.

(** ** Paths *)

(** The virtual file that a path names. *)
Inductive Synthetic := VIRTUAL_PASSWD | VIRTUAL_SHADOW | VIRTUAL_FSTAB.

#[global] Instance Synthetic_eq : EqDecision Synthetic.
Proof. solve_decision. Defined.

Definition virtual_text (v : PosixView) (f : Synthetic) : bytes :=
  match f with
  | VIRTUAL_PASSWD => virtual_passwd v
  | VIRTUAL_SHADOW => virtual_shadow v
  | VIRTUAL_FSTAB => virtual_fstab v
  end.

Definition synthetic_file (v : PosixView) (path : bytes) : option Synthetic :=
  if negb (chrooted v) then None
  else if ((path =b B "/etc/passwd") || (cwd_synthetic_etc v && (path =b B "passwd")))%bool then Some VIRTUAL_PASSWD
  else if ((path =b B "/etc/shadow") || (cwd_synthetic_etc v && (path =b B "shadow")))%bool then Some VIRTUAL_SHADOW
  else if ((path =b B "/etc/fstab") || (cwd_synthetic_etc v && (path =b B "fstab")))%bool then Some VIRTUAL_FSTAB
  else None.

(** The synthetic directory itself. *)
Definition synthetic_directory (v : PosixView) (path : bytes) : bool :=
  (chrooted v && ((path =b B "/etc") || (cwd_synthetic_etc v && (path =b B "."))))%bool.

(** The position in [path] after the root that it lies beneath. *)
Definition path_beneath (path root : bytes) : option nat :=
  if (length path <? length root)%nat then None
  else if ((root =b [47]) && starts_with 47 path)%bool then Some 1%nat
  else if negb (firstn (length root) path =b root) then None
  else if (length path =? length root)%nat then Some (length root)
  else if bool_decide (path !! length root = Some 47) then Some (S (length root))
  else None.

(** The loop that removes a component and the slash before it. *)
Fixpoint back_to_slash (output : bytes) (used : nat) : nat :=
  match used with
  | O => O
  | S n => if bool_decide (output !! n = Some 47) then used else back_to_slash output n
  end.

Definition remove_component (output : bytes) : bytes :=
  firstn (back_to_slash output (length output) - 1) output.

(** [None] is a write outside the buffer. *)
Definition add_component (capacity : nat) (output component : bytes) : option bytes :=
  let output := (match output with [] => [] | _ => output ++ [47] end) ++ component in
  if (length output <=? capacity)%nat then Some output else None.

Fixpoint normalize_components (fuel capacity : nat) (output input : bytes) : option bytes :=
  match fuel with
  | O => Some output
  | S f =>
      match input with
      | [] => Some output
      | _ =>
          let (component, rest) := take_component (skip_slashes input) in
          if ((component =b []) || (component =b [46]))%bool then normalize_components f capacity output rest
          else if component =b [46; 46] then normalize_components f capacity (remove_component output) rest
          else match add_component capacity output component with
               | None => None
               | Some output => normalize_components f capacity output rest
               end
      end
  end.

Definition normalize_beneath_root (base path : bytes) : option bytes :=
  let capacity := (length base + length path + 2)%nat in
  match normalize_components (S (length base)) capacity [] base with
  | None => None
  | Some output =>
      match normalize_components (S (length path)) capacity output path with
      | None => None
      | Some output =>
          let output := match output with [] => [46] | _ => output end in
          if (length output <? capacity)%nat then Some output else None
      end
  end.

(** ** The services and the state *)

(** The answer of a remote call: a value or a result code. *)
Abbreviation answer A := (A + FacetResult)%type.

(** What directories, files and streams answer; the number of the operation lets
    the answers of a stream change over time. *)
Class PosixServices (O : Type) := {
  dir_path : O -> answer bytes;
  dir_open_directory : O -> bytes -> answer O;
  dir_open_file : O -> bytes -> answer O;
  dir_list : O -> answer (list bytes);
  file_read_bytes : O -> Z -> Z -> answer bytes;
  file_size_of : O -> answer Z;
  unix_metadata : O -> option (Z * Z * Z);
  stream_read : nat -> O -> Z -> answer bytes;
  stream_write : nat -> O -> bytes -> answer Z;
  page_alloc : nat -> O -> Z -> answer Z;
  page_free : nat -> O -> Z -> Z -> answer unit;
  notify_exit : nat -> O -> Z -> answer unit
}.

(** The callbacks of the process manager. *)
Record Callbacks (X : Type) := mkCallbacks {
  on_spawn : bytes -> list bytes -> Z -> X -> answer (outcome Z) * X;
  on_wait : Z -> X -> answer (outcome Z) * X;
  on_set_credentials : Z -> Z -> bool -> bool -> X -> bool * X;
  on_cwd_changed : Z -> bool -> X -> bool * X;
  on_authenticate : Z -> bytes -> bytes -> X -> answer Z * X
}.
Arguments on_spawn {X}.
Arguments on_wait {X}.
Arguments on_set_credentials {X}.
Arguments on_cwd_changed {X}.
Arguments on_authenticate {X}.

Record PosixState (O X : Type) := mkPosix {
  p_world : World O;
  p_view : PosixView;
  p_context : X
}.
Arguments mkPosix {O X}.
Arguments p_world {O X}.
Arguments p_view {O X}.
Arguments p_context {O X}.

#[global] Instance posix_worldly O X : Worldly (PosixState O X) O := {
  world := p_world;
  set_world w s := mkPosix w (p_view s) (p_context s)
}.

#[global] Instance posix_worldly_laws O X : WorldlyLaws (PosixState O X) O.
Proof. split; [done..|]. by intros []. Qed.

Section View.
Context {O X : Type} `{PosixServices O}.
Context (alloc_ok proxy_ok : nat -> bool) (cb : Callbacks X).

Abbreviation St := (PosixState O X).
Abbreviation Posix := (Eff St).

Definition the_view {A} (f : PosixView -> A) : Posix A := fget (fun s => f (p_view s)).
Definition change_view (f : PosixView -> PosixView) : Posix unit :=
  fput (fun s => mkPosix (p_world s) (f (p_view s)) (p_context s)).
Definition callback {A} (f : X -> A * X) : Posix A := fun s =>
  let (a, x) := f (p_context s) in (Ok a, mkPosix (p_world s) (p_view s) x).
Definition time : Posix nat := fget (fun s => steps (p_world s)).

Definition allocate_block : Posix bool := allocate alloc_ok.
Definition clone (h : Z) : Posix Z := handle_clone alloc_ok h.

(** A proxy for a clone of a handle, a call and the release of the proxy; without a
    proxy the clone is released here although [libfacet_proxy_from_handle] has
    released it already. *)
Definition proxy_from_borrowed {A} (h : Z) (use : O -> Posix A) : Posix A :=
  if h =? 0 then ferr FACET_INVALID_HANDLE
  else
    ftry (clone h)
      (fun copy =>
         run ok <- ask proxy_ok;
         if negb ok then
           handle_release copy ;; handle_release copy ;; ferr FACET_INVALID_HANDLE
         else then_release (run o <- object_of copy; use o) copy)
      (ferr FACET_INVALID_HANDLE).

Definition answered {A} (r : answer A) : Posix A := match r with inl a => fret a | inr code => ferr code end.

(** A remote call that answers with a new object. *)
Definition received (r : answer O) : Posix Z := run o <- answered r; handle_of_object o.

Definition directory_path (h : Z) : Posix bytes := proxy_from_borrowed h (fun o => answered (dir_path o)).

(** The directory a path is relative to, and its name there.  The current directory
    counts only if it lies beneath the root. *)
Definition relative_base : Posix (option bytes) :=
  run v <- the_view id;
  if cwd_synthetic_etc v then fret (Some (B "etc"))
  else
    ftry (directory_path (root_handle v))
      (fun root =>
         ftry (directory_path (cwd_handle v))
           (fun cwd => fret ((fun n => skipn n cwd) <$> path_beneath cwd root))
           (fret None))
      (fret None).

Definition resolve_names (path : bytes) : Posix (bool * bytes) :=
  run base <- if starts_with 47 path then fret (Some []) else relative_base;
  run ok <- allocate_block;
  if negb ok then ferr FACET_OUT_OF_MEMORY
  else
    match base with
    | Some base =>
        match normalize_beneath_root base path with
        | Some relative => fret (true, relative)
        | None => ffault
        end
    | None => fret (false, path)
    end.

(** [resolve_path], a use of the directory it found, and [release_resolved_path]. *)
Definition resolve_path {A} (path : bytes) (use : bool -> bytes -> O -> Posix A) : Posix A :=
  match path with
  | [] => ferr FACET_INVALID_ARGUMENT
  | _ =>
      run r <- resolve_names path;
      run v <- the_view id;
      proxy_from_borrowed (if fst r : bool then root_handle v else cwd_handle v) (use (fst r) (snd r))
  end.

Definition resolve_spawn_path (path : bytes) : Posix bytes :=
  resolve_path path (fun root_relative relative _ =>
    run ok <- allocate_block;
    if negb ok then ferr FACET_OUT_OF_MEMORY
    else fret (if root_relative : bool then (if relative =b [46] then [47] else 47 :: relative) else path)).

Definition directory_is_namespace_root (directory : O) : Posix bool :=
  run v <- the_view id;
  fun s =>
  match proxy_from_borrowed (root_handle v) (fun o => answered (dir_path o)) s with
  | (Fault, s') => (Fault, s')
  | (root, s') =>
      (Ok (match dir_path directory, root with
           | inl p, Ok r => p =b r
           | _, _ => false
           end), s')
  end.

(** The result codes that the view turns into errors of its own. *)
Definition posix_error (code : FacetResult) : option Errno :=
  match code with
  | FACET_NOT_FOUND => Some ENOENT
  | FACET_ACCESS_DENIED => Some EACCES
  | _ => None
  end.

Definition reporting {A} (errno_of : FacetResult -> option Errno) (m : Posix A) : Posix (outcome A) := fun s =>
  match m s with
  | (Ok a, s') => (Ok (Done a), s')
  | (Err code, s') => (match errno_of code with Some e => Ok (Failed e) | None => Err code end, s')
  | (Fault, s') => (Fault, s')
  end.

(** Continue unless an error was reported. *)
Definition obind {A C} (m : Posix (outcome A)) (k : A -> Posix (outcome C)) : Posix (outcome C) :=
  run r <- m; match r with Done a => k a | Failed e => fret (Failed e) end.

Definition denied (code : FacetResult) : option Errno :=
  match code with FACET_ACCESS_DENIED => Some EACCES | _ => None end.

(** ** Identity *)

(** The identifiers of the two interfaces come from generated headers.  The handle
    is lent: the transport does not release it after the reply. *)
Definition posix_get_interface (IID_IGenericObject IID_IPOSIXView iid : bytes) : Posix Z :=
  if (negb (iid =b IID_IGenericObject) && negb (iid =b IID_IPOSIXView))%bool then ferr FACET_NO_INTERFACE
  else the_view view_handle.

Definition posix_get_domain_id : Posix Z := the_view view_domain_id.
Definition posix_get_pid : Posix Z := the_view view_pid.

Definition UINT32_MAX : Z := 4294967295.

Definition posix_set_credentials (uid gid : Z) : Posix (outcome unit) :=
  let set_uid := negb (uid =? UINT32_MAX) in
  let set_gid := negb (gid =? UINT32_MAX) in
  run v <- the_view id;
  if ((negb set_uid && negb set_gid) || negb (view_admin v) || negb (process_control v))%bool
  then fret (Failed EPERM)
  else
    run ok <- callback (on_set_credentials cb uid gid set_uid set_gid);
    if negb ok then fret (Failed EPERM)
    else (if set_uid then change_view (set_admin_flag (uid =? 0)) else fret tt) ;; fret (Done tt).

(** ** The current directory *)

Definition posix_get_cwd : Posix (outcome bytes) :=
  run v <- the_view id;
  if cwd_synthetic_etc v then
    run ok <- allocate_block; if negb ok then ferr FACET_OUT_OF_MEMORY else fret (Done (B "/etc"))
  else
    obind (reporting denied (directory_path (cwd_handle v))) (fun physical =>
      run root <- directory_path (root_handle v);
      run ok <- allocate_block;
      if negb ok then ferr FACET_OUT_OF_MEMORY
      else fret (Done (match path_beneath physical root with
                       | Some n => 47 :: skipn n physical
                       | None => B "(unknown)"
                       end))).

(** Tell the process environment. *)
Definition cwd_changed (h : Z) (synthetic : bool) : Posix (outcome unit) :=
  run v <- the_view id;
  if negb (cwd_changed_bound v) then fret (Done tt)
  else
    run ok <- callback (on_cwd_changed cb h synthetic);
    if negb ok then ferr FACET_ERROR else fret (Done tt).

(** Make a handle the current directory. *)
Definition enter_directory (next : Z) : Posix (outcome unit) :=
  run v <- the_view id;
  change_view (set_synthetic false) ;;
  handle_release (cwd_handle v) ;;
  change_view (set_cwd_handle next) ;;
  cwd_changed next false.

Definition posix_change_directory (path : bytes) : Posix (outcome unit) :=
  run v <- the_view id;
  if synthetic_directory v path then
    change_view (set_synthetic true) ;; cwd_changed (cwd_handle v) true
  else if (cwd_synthetic_etc v && ((path =b B "..") || (path =b B "/")))%bool then
    ftry (clone (root_handle v)) enter_directory (ferr FACET_INVALID_HANDLE)
  else
    obind (reporting posix_error (resolve_path path (fun _ relative o => received (dir_open_directory o relative))))
      enter_directory.

(** ** Processes *)

Definition posix_authenticate (name password : bytes) : Posix (outcome Z) :=
  run v <- the_view id;
  run r <- callback (on_authenticate cb (view_domain_id v) name password);
  reporting denied (answered r).

Definition spawn (path : bytes) (arguments : list bytes) (session : Z) : Posix (outcome Z) :=
  run spawn_path <- resolve_spawn_path path;
  run r <- callback (on_spawn cb spawn_path arguments session);
  answered r.

Definition posix_spawn (path : bytes) (arguments : list bytes) (session : Z) : Posix (outcome Z) :=
  run v <- the_view id;
  if negb (process_control v) then fret (Failed ENOSYS)
  else if session =? 0 then fret (Failed EACCES)
  else spawn path arguments session.

Definition posix_spawn_inherited (path : bytes) (arguments : list bytes) : Posix (outcome Z) :=
  run v <- the_view id;
  if negb (process_control v) then fret (Failed ENOSYS) else spawn path arguments 0.

Definition posix_wait (pid : Z) : Posix (outcome Z) :=
  run v <- the_view id;
  if negb (process_control v) then fret (Failed ENOSYS)
  else run r <- callback (on_wait cb pid); answered r.

(** ** Metadata and listings *)

(** The attributes of an object whose handle the call owns. *)
Definition object_metadata (directory : bool) (h : Z) : Posix (Z * Z * Z) := fun s =>
  let standard := (if directory then 16877 else 33188, 0, 0) in
  match owned_proxy proxy_ok h (fun o => fret (default standard (unix_metadata o))) s with
  | (Err _, s') => (Ok standard, s')
  | r => r
  end.

(** A directory of that name, or else a file. *)
Definition open_either (o : O) (relative : bytes) : Posix (bool * Z) :=
  match dir_open_directory o relative with
  | inr FACET_NOT_FOUND => run h <- received (dir_open_file o relative); fret (false, h)
  | r => run h <- received r; fret (true, h)
  end.

Definition posix_stat_path (path : bytes) : Posix (outcome (Z * Z * Z)) :=
  match path with
  | [] => ferr FACET_INVALID_ARGUMENT
  | _ =>
      run v <- the_view id;
      if synthetic_directory v path then fret (Done (16877, 0, 0))
      else
        match synthetic_file v path with
        | Some f => fret (Done (if bool_decide (f = VIRTUAL_SHADOW) then 33152 else 33188, 0, 0))
        | None =>
            if cwd_synthetic_etc v then fret (Failed ENOENT)
            else
              obind (reporting posix_error (resolve_path path (fun _ relative o => open_either o relative)))
                (fun r => run m <- object_metadata (fst r) (snd r); fret (Done m))
        end
  end.

(** Copies of the names of a listing; each is an allocation. *)
Fixpoint copy_names (names : list bytes) : Posix unit :=
  match names with
  | [] => fret tt
  | _ :: rest => run ok <- allocate_block; if negb ok then ferr FACET_OUT_OF_MEMORY else copy_names rest
  end.

Definition with_etc (include : bool) (names : list bytes) : list bytes :=
  if (include && negb (existsb (fun n => n =b B "etc") names))%bool then names ++ [B "etc"] else names.

(** An array of names. *)
Definition names_array (names : list bytes) : Posix (outcome (list bytes)) :=
  run ok <- allocate_block;
  if (negb ok && negb (length names =? 0)%nat)%bool then ferr FACET_OUT_OF_MEMORY
  else copy_names names ;; fret (Done names).

(** The entries of a directory whose handle the call owns; only the first page of
    128 entries is asked for. *)
Definition list_names (include : O -> Posix bool) (h : Z) : Posix (outcome (list bytes)) :=
  obind
    (reporting posix_error
       (owned_proxy proxy_ok h (fun o =>
          run b <- include o; run names <- answered (dir_list o); fret (b, names))))
    (fun r => names_array (with_etc (fst r) (snd r))).

Definition posix_list_directory (path : bytes) : Posix (outcome (list bytes)) :=
  run v <- the_view id;
  if synthetic_directory v path then names_array [B "fstab"; B "passwd"; B "shadow"]
  else if (cwd_synthetic_etc v && (path =b B ".."))%bool then
    run h <- proxy_from_borrowed (root_handle v) (fun o => received (dir_open_directory o (B ".")));
    list_names (fun _ => fret true) h
  else
    obind (reporting posix_error (resolve_path path (fun _ relative o => received (dir_open_directory o relative))))
      (list_names (fun o =>
         run root <- directory_is_namespace_root o; fret (chrooted v && root)%bool)).

(** ** Descriptors *)

(** The descriptor of a number in use. *)
Definition descriptor_of (fd : Z) (v : PosixView) : option PosixDescriptor :=
  if ((fd <? 0) || (Z.of_nat POSIX_DESCRIPTOR_COUNT <=? fd))%bool then None
  else match descriptors v !! Z.to_nat fd with
       | Some d => if bool_decide (kind d = DESCRIPTOR_UNUSED) then None else Some d
       | None => None
       end.

Definition set_descriptor (fd : Z) (d : PosixDescriptor) (v : PosixView) : PosixView :=
  set_descriptors (<[Z.to_nat fd := d]> (descriptors v)) v.

Definition at_offset (o : Z) (d : PosixDescriptor) : PosixDescriptor :=
  mkDescriptor (kind d) (handle d) o (memory d).

Definition posix_write (fd : Z) (data : bytes) : Posix (outcome Z) :=
  run v <- the_view id;
  match descriptor_of fd v with
  | None => fret (Failed EBADF)
  | Some d =>
      match kind d with
      | DESCRIPTOR_OUTPUT =>
          run t <- time;
          reporting denied (proxy_from_borrowed (handle d) (fun o => answered (stream_write t o data)))
      | DESCRIPTOR_FILE => fret (Failed EROFS)
      | _ => fret (Failed EBADF)
      end
  end.

Definition read_memory (d : PosixDescriptor) (maximum : Z) : bytes :=
  let available := if offset d <? zlen (memory d) then zlen (memory d) - offset d else 0 in
  firstn (Z.to_nat (Z.min available maximum)) (skipn (Z.to_nat (offset d)) (memory d)).

Definition posix_read (fd maximum : Z) : Posix (outcome bytes) :=
  run v <- the_view id;
  match descriptor_of fd v with
  | None => fret (Failed EBADF)
  | Some d =>
      match kind d with
      | DESCRIPTOR_INPUT =>
          run t <- time;
          reporting denied (proxy_from_borrowed (handle d) (fun o => answered (stream_read t o maximum)))
      | DESCRIPTOR_MEMORY =>
          let data := read_memory d maximum in
          run ok <- if (length data =? 0)%nat then fret true else allocate_block;
          if negb ok then ferr FACET_OUT_OF_MEMORY
          else change_view (set_descriptor fd (at_offset (u64 (offset d + zlen data)) d)) ;; fret (Done data)
      | DESCRIPTOR_FILE =>
          obind (reporting denied (proxy_from_borrowed (handle d) (fun o => answered (file_read_bytes o (offset d) maximum))))
            (fun data =>
               change_view (set_descriptor fd (at_offset (u64 (offset d + zlen data)) d)) ;; fret (Done data))
      | _ => fret (Failed EBADF)
      end
  end.

Definition O_ACCMODE : Z := 3.
Definition O_RDONLY : Z := 0.
Definition O_CREAT : Z := 64.
Definition O_TRUNC : Z := 512.
Definition O_APPEND : Z := 1024.

(** The first free descriptor from number 3 on. *)
Definition free_slot (l : list PosixDescriptor) : option nat :=
  (fun i => (3 + i)%nat) <$> index_of (fun d => bool_decide (kind d = DESCRIPTOR_UNUSED)) (skipn 3 l).

Definition posix_open (path : bytes) (flags : Z) : Posix (outcome Z) :=
  match path with
  | [] => ferr FACET_INVALID_ARGUMENT
  | _ =>
      if (negb (Z.land flags O_ACCMODE =? O_RDONLY) ||
          negb (Z.land flags (Z.lor O_CREAT (Z.lor O_TRUNC O_APPEND)) =? 0))%bool
      then fret (Failed EROFS)
      else
        run v <- the_view id;
        match free_slot (descriptors v) with
        | None => fret (Failed EMFILE)
        | Some slot =>
            match synthetic_file v path with
            | Some f =>
                if (bool_decide (f = VIRTUAL_SHADOW) && negb (view_admin v))%bool then fret (Failed EACCES)
                else
                  change_view (set_descriptor (Z.of_nat slot) (mkDescriptor DESCRIPTOR_MEMORY 0 0 (virtual_text v f))) ;;
                  fret (Done (Z.of_nat slot))
            | None =>
                obind (reporting posix_error (resolve_path path (fun _ relative o => received (dir_open_file o relative))))
                  (fun h =>
                     change_view (set_descriptor (Z.of_nat slot) (mkDescriptor DESCRIPTOR_FILE h 0 [])) ;;
                     fret (Done (Z.of_nat slot)))
            end
        end
  end.

Definition posix_close (fd : Z) : Posix (outcome unit) :=
  run v <- the_view id;
  match descriptor_of fd v with
  | None => fret (Failed EBADF)
  | Some d =>
      if fd <? 3 then fret (Failed EBADF)
      else
        handle_release (handle d) ;;
        change_view (set_descriptor fd unused_descriptor) ;;
        fret (Done tt)
  end.

Definition SEEK_SET : Z := 0.
Definition SEEK_CUR : Z := 1.
Definition SEEK_END : Z := 2.
Definition INT64_LEAST : Z := - 9223372036854775808.
Definition INT64_MOST : Z := 9223372036854775807.

(** A signed operation whose result must fit; overflow is undefined. *)
Definition int64 (n : Z) : Posix Z := if ((INT64_LEAST <=? n) && (n <=? INT64_MOST))%bool then fret n else ffault.

(** [None] is a bad [whence]. *)
Definition seek_base (d : PosixDescriptor) (size whence : Z) : option Z :=
  if whence =? SEEK_SET then Some 0
  else if whence =? SEEK_CUR then Some (signed 64 (offset d))
  else if whence =? SEEK_END then Some (signed 64 size)
  else None.

Definition seek_memory (fd : Z) (d : PosixDescriptor) (delta whence : Z) : Posix (outcome Z) :=
  let base := default (-1) (seek_base d (zlen (memory d)) whence) in
  if base <? 0 then fret (Failed EINVAL)
  else
    run negated <- int64 (- base);
    if delta <? negated then fret (Failed EINVAL)
    else
      run target <- int64 (base + delta);
      if target <? 0 then fret (Failed EINVAL)
      else change_view (set_descriptor fd (at_offset target d)) ;; fret (Done target).

Definition seek_file (fd : Z) (d : PosixDescriptor) (delta whence : Z) : Posix (outcome Z) :=
  run size <- proxy_from_borrowed (handle d) (fun o => answered (file_size_of o));
  match seek_base d size whence with
  | None => fret (Failed EINVAL)
  | Some base =>
      run below <- if delta <? 0 then run n <- int64 (- delta); fret (base <? n) else fret false;
      if (below : bool) then fret (Failed EINVAL)
      else
        run above <- if 0 <? delta then run n <- int64 (INT64_MOST - delta); fret (n <? base) else fret false;
        if (above : bool) then fret (Failed EINVAL)
        else
          run target <- int64 (base + delta);
          change_view (set_descriptor fd (at_offset (u64 target) d)) ;; fret (Done target)
  end.

Definition posix_seek (fd delta whence : Z) : Posix (outcome Z) :=
  run v <- the_view id;
  match descriptor_of fd v with
  | None => fret (Failed EBADF)
  | Some d =>
      match kind d with
      | DESCRIPTOR_MEMORY => seek_memory fd d delta whence
      | DESCRIPTOR_FILE => seek_file fd d delta whence
      | _ => fret (Failed ESPIPE)
      end
  end.

(** ** Pages and exit *)

Definition posix_allocate_pages (count : Z) : Posix Z :=
  run v <- the_view id;
  run t <- time;
  proxy_from_borrowed (page_allocator_handle v) (fun o => answered (page_alloc t o count)).

Definition posix_free_pages (count base : Z) : Posix unit :=
  run v <- the_view id;
  run t <- time;
  proxy_from_borrowed (page_allocator_handle v) (fun o => answered (page_free t o count base)).

Definition posix_exit (status : Z) : Posix unit :=
  run v <- the_view id;
  run t <- time;
  proxy_from_borrowed (lifecycle_handle v) (fun o => answered (notify_exit t o status)).

(** ** Set up and tear down *)

Definition blank_view : PosixView :=
  mkView 0 0 0 false false posix_passwd posix_shadow posix_fstab 0 0 0 0 false false false
    (repeat unused_descriptor POSIX_DESCRIPTOR_COUNT).

Definition is_posix_root (path : bytes) : bool := path =b B "/posix".

(** [self] is the object that the view exports. *)
Definition dominit0_posix_view_create (self : O) (input output cwd : Z) : Posix unit :=
  if ((input =? 0) || (output =? 0))%bool then ferr FACET_ERROR
  else
    run ok <- allocate_block;
    if negb ok then ferr FACET_ERROR
    else
      change_view (fun _ => blank_view) ;;
      (if cwd =? 0 then fret tt
       else run h <- clone cwd; change_view (set_cwd_handle h)) ;;
      (if cwd =? 0 then fret tt
       else run v <- the_view id;
            ftry (clone cwd) (fun h => change_view (set_root_handle h))
              (handle_release (cwd_handle v) ;; ferr FACET_ERROR)) ;;
      ftry (directory_path cwd)
        (fun physical => change_view (set_chrooted (is_posix_root physical))) (fret tt) ;;
      change_view (fun v => set_descriptors
        (mkDescriptor DESCRIPTOR_INPUT input 0 [] :: mkDescriptor DESCRIPTOR_OUTPUT output 0 [] ::
         mkDescriptor DESCRIPTOR_OUTPUT output 0 [] :: skipn 3 (descriptors v)) v) ;;
      run v <- the_view id;
      ftry (export_interface alloc_ok self)
        (fun h => change_view (fun v =>
           mkView h (cwd_handle v) (root_handle v) (chrooted v) (cwd_synthetic_etc v) (virtual_passwd v)
             (virtual_shadow v) (virtual_fstab v) (page_allocator_handle v) (lifecycle_handle v) (view_domain_id v)
             (view_pid v) (process_control v) (view_admin v) (cwd_changed_bound v) (descriptors v)))
        (handle_release (cwd_handle v) ;; ferr FACET_ERROR).

Definition dominit0_posix_view_set_root (root : Z) : Posix unit :=
  if root =? 0 then ferr FACET_ERROR
  else
    run copy <- clone root;
    run v <- the_view id;
    handle_release (root_handle v) ;;
    change_view (set_root_handle copy) ;;
    ftry (directory_path root)
      (fun physical => change_view (set_chrooted (is_posix_root physical)))
      (change_view (set_chrooted false) ;; ferr FACET_ERROR).

Definition dominit0_posix_view_bind_page_allocator (h : Z) : Posix unit :=
  run v <- the_view id;
  if ((h =? 0) || negb (page_allocator_handle v =? 0))%bool then ferr FACET_ERROR
  else change_view (set_page_allocator h).

Definition dominit0_posix_view_bind_lifecycle (h : Z) : Posix unit :=
  run v <- the_view id;
  if ((h =? 0) || negb (lifecycle_handle v =? 0))%bool then ferr FACET_ERROR
  else change_view (set_lifecycle h).

Definition dominit0_posix_view_bind_process_control (domain_id pid : Z) (admin : bool) : Posix unit :=
  change_view (set_control domain_id pid admin).

Definition dominit0_posix_view_bind_cwd_sync (synthetic : bool) : Posix unit :=
  run v <- the_view id;
  if cwd_changed_bound v then ferr FACET_ERROR else change_view (set_cwd_sync synthetic).

Definition dominit0_posix_view_set_synthetic_cwd (synthetic : bool) : Posix unit :=
  change_view (set_synthetic synthetic).

Definition dominit0_posix_view_set_credential_files (passwd shadow fstab : bytes) : Posix unit :=
  change_view (set_texts passwd shadow fstab).

Fixpoint release_descriptors (l : list PosixDescriptor) : Posix unit :=
  match l with
  | [] => fret tt
  | d :: rest =>
      (if bool_decide (kind d = DESCRIPTOR_UNUSED) then fret tt else handle_release (handle d)) ;;
      release_descriptors rest
  end.

Definition dominit0_posix_view_destroy : Posix unit :=
  run v <- the_view id;
  handle_release (view_handle v) ;;
  release_descriptors (skipn 3 (descriptors v)) ;;
  handle_release (cwd_handle v) ;;
  handle_release (root_handle v).

End View.
