(* ===== verification/PosixFacts.v ===== *)
(** The POSIX view: paths stay beneath the namespace root, the descriptor table and
    the handles are accounted for, and a process that gave up its rights does not
    get them back. *)
From stdpp Require Import gmap.
From S2P Require Import Prelude Effects Handles Initrd InitrdFacts Posix.

(** ** Paths *)

(** The reference: a walk over the components, which the parent of the root does not
    leave, and its result written without a leading slash. *)
Fixpoint descend (stack comps : list bytes) : list bytes :=
  match comps with
  | [] => stack
  | c :: rest => if c =b parent then descend (removelast stack) rest else descend (stack ++ [c]) rest
  end.

Definition join_path (stack : list bytes) : bytes :=
  match stack with [] => [] | c :: rest => c ++ concat (map (cons 47) rest) end.

Definition relative_name (stack : list bytes) : bytes := match stack with [] => [46] | _ => join_path stack end.

Lemma join_path_snoc stack c :
  join_path (stack ++ [c]) = (match stack with [] => [] | _ => join_path stack ++ [47] end) ++ c.
Proof.
  destruct stack as [|d stack]; simpl; [by rewrite app_nil_r|].
  rewrite map_app, concat_app. simpl. rewrite app_nil_r, <- !app_assoc. done.
Qed.

Lemma join_path_nil stack : Forall plain stack -> join_path stack = [] <-> stack = [].
Proof.
  destruct stack as [|c stack]; [done|]. intros [[Hc _] _]%Forall_cons. split; [|done].
  intros H. by destruct c.
Qed.

Lemma back_to_slash_spec pre c k :
  47 ∉ c -> (k <= length c)%nat -> back_to_slash (pre ++ 47 :: c) (length pre + 1 + k) = (length pre + 1)%nat.
Proof.
  intros Hc. induction k as [|k IH]; intros Hk.
  - rewrite Nat.add_0_r, Nat.add_1_r. simpl. rewrite bool_decide_true; [done|].
    by rewrite lookup_app_r, Nat.sub_diag.
  - replace (length pre + 1 + S k)%nat with (S (length pre + 1 + k)) by lia. simpl.
    rewrite bool_decide_false; [apply IH; lia|]. rewrite lookup_app_r by lia.
    replace (length pre + 1 + k - length pre)%nat with (S k) by lia. simpl. intros H%list_elem_of_lookup_2. done.
Qed.

Lemma back_to_slash_none c k : 47 ∉ c -> (k <= length c)%nat -> back_to_slash c k = O.
Proof.
  intros Hc. induction k as [|k IH]; intros Hk; [done|]. simpl.
  rewrite bool_decide_false; [apply IH; lia|]. intros H%list_elem_of_lookup_2. done.
Qed.

Lemma remove_component_join stack :
  Forall plain stack -> remove_component (join_path stack) = join_path (removelast stack).
Proof.
  induction stack as [|c stack _] using rev_ind; [done|]. intros [_ Hc]%Forall_app.
  apply Forall_singleton in Hc as [_ Hc]. rewrite removelast_last, join_path_snoc. unfold remove_component.
  destruct stack as [|d stack].
  - simpl. rewrite back_to_slash_none by done. done.
  - rewrite <- app_assoc. simpl ([47] ++ c). set (pre := join_path (d :: stack)).
    replace (length (pre ++ 47 :: c)) with (length pre + 1 + length c)%nat by (rewrite length_app; simpl; lia).
    rewrite back_to_slash_spec by done. by rewrite Nat.add_sub, take_app_length.
Qed.

Lemma add_component_join capacity stack c :
  Forall plain stack -> (length (join_path (stack ++ [c])) <= capacity)%nat ->
  add_component capacity (join_path stack) c = Some (join_path (stack ++ [c])).
Proof.
  intros Hs Hl. unfold add_component. rewrite join_path_snoc in *.
  assert (match join_path stack with [] => [] | _ => join_path stack ++ [47] end =
          match stack with [] => [] | _ => join_path stack ++ [47] end) as ->.
  { destruct stack as [|d stack]; [done|]. destruct (join_path (d :: stack)) eqn:E; [|done].
    by apply join_path_nil in E. }
  rewrite (proj2 (Nat.leb_le _ _)); done.
Qed.

(** The bytes that the normalisation of [input] may need. *)
Definition needed (stack : list bytes) (input : bytes) : nat :=
  length (join_path stack) + length input +
  match stack with [] => 0 | _ => match input with [] => 0 | _ => if starts_with 47 input then 0 else 1 end end.

Lemma join_removelast_length stack : (length (join_path (removelast stack)) <= length (join_path stack))%nat.
Proof.
  induction stack as [|c stack _] using rev_ind; [done|]. rewrite removelast_last, join_path_snoc.
  destruct stack; [simpl; lia|]. rewrite !length_app. lia.
Qed.

Lemma skip_slashes_less x path :
  starts_with 47 (x :: path) = true -> (length (skip_slashes (x :: path)) < length (x :: path))%nat.
Proof.
  intros H. unfold starts_with in H. apply bool_decide_eq_true in H. simpl in H. injection H as ->. simpl.
  pose proof (skip_slashes_length path). lia.
Qed.

(** What is left after a component fits too. *)
Lemma needed_rest stack x path c rest :
  skip_slashes (x :: path) = c ++ rest -> c <> [] -> rest = [] \/ (exists r, rest = 47 :: r) ->
  (needed (stack ++ [c]) rest <= needed stack (x :: path))%nat.
Proof.
  intros Heq Hc Hr. unfold needed.
  assert (match stack ++ [c] with [] => 0%nat | _ => match rest with [] => 0%nat | _ => if starts_with 47 rest then 0%nat else 1%nat end end = 0%nat) as ->.
  { destruct (stack ++ [c]); [done|]. by destruct Hr as [->|[r ->]]. }
  rewrite join_path_snoc. pose proof (skip_slashes_length (x :: path)) as Hl. rewrite Heq, length_app in Hl.
  destruct stack as [|d stack]; [simpl; simpl in Hl; lia|]. rewrite !length_app.
  destruct (starts_with 47 (x :: path)) eqn:Es; [|simpl; simpl in Hl; lia].
  apply skip_slashes_less in Es. rewrite Heq, length_app in Es. simpl in *. lia.
Qed.

Lemma needed_dropped stack x path c rest :
  skip_slashes (x :: path) = c ++ rest -> rest = [] \/ (exists r, rest = 47 :: r) ->
  (needed (removelast stack) rest <= needed stack (x :: path))%nat /\ (needed stack rest <= needed stack (x :: path))%nat.
Proof.
  intros Heq Hr. pose proof (skip_slashes_length (x :: path)) as Hl. rewrite Heq, length_app in Hl.
  assert (forall st, (needed st rest = length (join_path st) + length rest)%nat) as H0.
  { intros st. unfold needed. destruct Hr as [->|[r ->]]; destruct st; simpl; lia. }
  rewrite !H0. unfold needed. pose proof (join_removelast_length stack). lia.
Qed.

Lemma normalize_components_descend fuel capacity stack input :
  (length input <= fuel)%nat -> Forall plain stack -> (needed stack input <= capacity)%nat ->
  normalize_components fuel capacity (join_path stack) input = Some (join_path (descend stack (components input))) /\
  (length (join_path (descend stack (components input))) <= needed stack input)%nat.
Proof.
  revert input stack. induction fuel as [|f IH]; intros path stack Hf Hs Hn.
  { destruct path; [|simpl in Hf; lia]. split; [done|]. unfold needed. simpl. lia. }
  destruct path as [|x path]; [split; [done|unfold needed; simpl; lia]|]. rewrite <- (components_skip (x :: path)).
  cbn [normalize_components]. destruct (take_component (skip_slashes (x :: path))) as [c rest] eqn:Et.
  rewrite (components_take _ _ _ Et). apply take_component_spec in Et as (Heq & Hc & Hr).
  assert (length rest <= f)%nat as Hlen.
  { pose proof (skip_slashes_length (x :: path)) as Hl. rewrite Heq, length_app in Hl.
    destruct c as [|y c]; [|simpl in *; lia]. destruct Hr as [->|[r ->]]; [simpl; lia|].
    pose proof (skip_slashes_head (x :: path)) as Hh. rewrite Heq in Hh. simpl in Hh.
    by rewrite starts_with_cons in Hh. }
  destruct (needed_dropped stack x path c rest Heq Hr) as [Hd1 Hd2].
  destruct (_ || _)%bool eqn:Ec.
  { rewrite filter_cons_False.
    - destruct (IH rest stack) as [-> Hb]; [lia|done|lia|]. split; [done|]. simpl in *. lia.
    - intros [H1 H2]. apply orb_true_iff in Ec as [Ec|Ec]; bool_props; [by destruct c|done]. }
  apply orb_false_iff in Ec as [Ec1 Ec2]. bool_props. assert (c <> []) as Hne by (by destruct c).
  rewrite filter_cons_True by done. simpl app. change [46; 46] with parent. cbn [descend]. destruct (c =b parent).
  - rewrite remove_component_join by done.
    destruct (IH rest (removelast stack)) as [-> Hb]; [lia|by apply Forall_removelast|lia|]. split; [done|lia].
  - pose proof (needed_rest stack x path c rest Heq Hne Hr) as Hd3.
    rewrite add_component_join; [|done|unfold needed in Hd3 at 1; lia].
    destruct (IH rest (stack ++ [c])) as [-> Hb]; [lia| |lia|split; [done|lia]].
    apply Forall_app_2; [done|]. by apply Forall_singleton.
Qed.

Lemma descend_plain comps stack : Forall plain comps -> Forall plain stack -> Forall plain (descend stack comps).
Proof.
  revert stack. induction comps as [|c comps IH]; intros stack Hc Hs; [done|]. simpl.
  apply Forall_cons in Hc as [Hp Hc]. destruct (c =b parent); apply IH; auto.
  - by apply Forall_removelast.
  - apply Forall_app_2; [done|]. by apply Forall_singleton.
Qed.

Lemma components_all_plain path : Forall plain (components path).
Proof. eapply Forall_impl; [apply components_plain|]. by intros c []. Qed.

Lemma normalize_beneath_root_descend base path :
  path <> [] ->
  normalize_beneath_root base path = Some (relative_name (descend (descend [] (components base)) (components path))).
Proof.
  intros Hpath. unfold normalize_beneath_root.
  destruct (normalize_components_descend (S (length base)) (length base + length path + 2) [] base) as [Hb Hl];
    [lia|done|unfold needed; simpl; lia|]. simpl join_path in Hb at 1. rewrite Hb.
  set (s1 := descend [] (components base)) in *. unfold needed in Hl. simpl in Hl.
  assert (Forall plain s1) as Hs1 by (apply descend_plain; [apply components_all_plain|done]).
  assert (needed s1 path <= length base + length path + 1)%nat as Hn.
  { unfold needed. destruct s1; [lia|]. destruct path; [done|]. destruct (starts_with 47 _); lia. }
  destruct (normalize_components_descend (S (length path)) (length base + length path + 2) s1 path) as [-> Hl2];
    [lia|done|lia|].
  set (s2 := descend s1 (components path)) in *.
  assert (Forall plain s2) as Hs2 by (apply descend_plain; [apply components_all_plain|done]).
  unfold relative_name. destruct s2 as [|c s2].
  - simpl. rewrite (proj2 (Nat.ltb_lt _ _)); [done|]. lia.
  - destruct (join_path (c :: s2)) eqn:E; [by apply join_path_nil in E|].
    rewrite (proj2 (Nat.ltb_lt _ _)); [done|]. lia.
Qed.








(** ** Accounting for handles *)

#[local] Arguments Posix.resolve_path : simpl never.

Section Account.
Context {O X : Type} `{PosixServices O}.
Context (alloc_ok proxy_ok : nat -> bool) (cb : Callbacks X).
Context (Hproxy : forall n, proxy_ok n = true).

Notation St := (PosixState O X).
Notation lv s := (live (p_world s)).
Notation nx s := (next_fresh (p_world s)).

Definition world_ok (s : St) : Prop := 0 < nx s /\ forall h o, lv s !! h = Some o -> 0 < h < nx s.

(** Nothing but the table of handles changes, and only by one new handle, if any. *)
Record delta (new : option (Z * O)) (s s' : St) : Prop := {
  delta_view : p_view s' = p_view s;
  delta_context : p_context s' = p_context s;
  delta_ok : world_ok s';
  delta_next : nx s <= nx s';
  delta_live : match new with
               | None => lv s' = lv s
               | Some (h, o) => lv s' = <[h := o]> (lv s) /\ nx s <= h < nx s'
               end
}.

(** A step whose value tells the handle that it made. *)
Definition spec {A} (g : A -> option Z) (m : Eff St A) (s : St) : Prop :=
  awp m s (fun a s' => exists new, fst <$> new = g a /\ delta new s s') (fun _ s' => delta None s s').

Definition none {A} (a : A) : option Z := None.

Lemma delta_refl s : world_ok s -> delta None s s.
Proof. intros Hw. split; (done || lia). Qed.

Lemma delta_trans new s1 s2 s3 : delta None s1 s2 -> delta new s2 s3 -> delta new s1 s3.
Proof.
  intros [V1 C1 _ N1 L1] [V2 C2 W2 N2 L2]. split; [congruence|congruence|done|lia|].
  destruct new as [[h o]|]; [|congruence]. destruct L2 as [-> ?]. rewrite L1. split; [done|lia].
Qed.

Lemma delta_trans_r new s1 s2 s3 : delta new s1 s2 -> delta None s2 s3 -> delta new s1 s3.
Proof.
  intros [V1 C1 _ N1 L1] [V2 C2 W2 N2 L2]. split; [congruence|congruence|done|lia|].
  destruct new as [[h o]|]; [|congruence]. destruct L1 as [L1 ?]. rewrite L2, L1. split; [done|lia].
Qed.

Lemma spec_bind {A C} g (m : Eff St A) (k : A -> Eff St C) s :
  spec none m s -> (forall a s', delta None s s' -> spec g (k a) s') -> spec g (fbind m k) s.
Proof.
  intros Hm Hk. apply awp_bind. eapply awp_mono; [exact Hm| |done].
  intros a s1 (new & Hn & Hd). destruct new; [done|]. eapply awp_mono; [by apply Hk| |].
  - intros c s2 (new & ? & ?). exists new. split; [done|by eapply delta_trans].
  - intros c s2 ?. by eapply delta_trans.
Qed.

Lemma spec_bind_ret {A C} g g' (m : Eff St A) (f : A -> C) s :
  spec g m s -> (forall a, g' (f a) = g a) -> spec g' (fbind m (fun a => fret (f a))) s.
Proof.
  intros Hm Hg. apply awp_bind. eapply awp_mono; [exact Hm| |done].
  intros a s1 (new & Hn & Hd). apply awp_ret. exists new. by rewrite Hg.
Qed.

Lemma spec_try {A C} g (m : Eff St A) (k : A -> Eff St C) handler s :
  spec none m s -> (forall a s', delta None s s' -> spec g (k a) s') ->
  (forall s', delta None s s' -> spec g handler s') -> spec g (ftry m k handler) s.
Proof.
  intros Hm Hk Hh. apply awp_try. eapply awp_mono; [exact Hm| |].
  - intros a s1 (new & Hn & Hd). destruct new; [done|]. eapply awp_mono; [by apply Hk| |].
    + intros c s2 (new & ? & ?). exists new. split; [done|by eapply delta_trans].
    + intros c s2 ?. by eapply delta_trans.
  - intros c s1 Hd. eapply awp_mono; [by apply Hh| |].
    + intros c' s2 (new & ? & ?). exists new. split; [done|by apply (delta_trans new s s1)].
    + intros c' s2 ?. by apply (delta_trans None s s1).
Qed.

Lemma spec_ret {A} (a : A) s : world_ok s -> spec none (fret a) s.
Proof. intros Hw. exists None. split; [done|by apply delta_refl]. Qed.

Lemma spec_err {A} (g : A -> option Z) c s : world_ok s -> spec g (ferr c) s.
Proof. intros Hw. by apply delta_refl. Qed.

Lemma spec_view {A} (f : PosixView -> A) s : world_ok s -> spec none (the_view f) s.
Proof. intros Hw. exists None. split; [done|by apply delta_refl]. Qed.

Lemma spec_time s : world_ok s -> spec none (time : Eff St nat) s.
Proof. intros Hw. exists None. split; [done|by apply delta_refl]. Qed.

Lemma spec_answered {A} (r : answer A) s : world_ok s -> spec none (answered r : Eff St A) s.
Proof. intros Hw. unfold answered. destruct r; [by apply spec_ret|by apply spec_err]. Qed.

Lemma spec_ask oracle s : world_ok s -> spec none (ask oracle : Eff St bool) s.
Proof. intros Hw. exists None. split; [done|]. split; simpl; (done || lia). Qed.

Lemma spec_object o s : world_ok s -> awp (handle_of_object o : Eff St Z) s
  (fun h s' => delta (Some (h, o)) s s') (fun _ _ => False).
Proof.
  intros [Hn Hl]. split; simpl; [done|done| |lia|split; [done|lia]]. split; simpl; [lia|].
  intros h o' [[<- <-]|[Hne Hd]]%lookup_insert_Some; [lia|]. apply Hl in Hd. lia.
Qed.

Lemma spec_received r s : world_ok s -> spec Some (received r : Eff St Z) s.
Proof.
  intros Hw. unfold received. apply spec_bind; [by apply spec_answered|]. intros o s' Hd.
  eapply awp_mono; [apply spec_object, Hd| |done]. intros h s2 Hd2. by exists (Some (h, o)).
Qed.

(** A handle that is null or live. *)
Definition usable (s : St) (h : Z) : Prop := h = 0 \/ is_Some (lv s !! h).

Lemma usable_delta new s s' h : world_ok s -> delta new s s' -> usable s h -> usable s' h.
Proof.
  intros [_ Hw] [_ _ _ _ Hl] [->|[o Ho]]; [by left|]. right. destruct new as [[h' o']|].
  - destruct Hl as [-> Hr]. exists o. apply Hw in Ho as Hb. rewrite lookup_insert_ne by lia. done.
  - rewrite Hl. by exists o.
Qed.

(** The release of a handle that was made on the way. *)
Lemma spec_then_release {A} (g : A -> option Z) (m : Eff St A) s0 s h o :
  world_ok s0 -> delta (Some (h, o)) s0 s -> spec g m s ->
  awp (then_release m h) s (fun a s' => exists new, fst <$> new = g a /\ delta new s0 s') (fun _ s' => delta None s0 s').
Proof.
  intros [Hn0 Hw0] [V C [Hn Hw] N [L Hh]] Hm. unfold awp, then_release.
  assert (Hfree : lv s0 !! h = None). { destruct (lv s0 !! h) eqn:E; [|done]. apply Hw0 in E. lia. }
  assert (Hrel : forall new s', delta new s s' ->
    exists s2, handle_release h s' = (Ok tt, s2) /\ delta new s0 s2).
  { intros new s' [V' C' [Hn' Hw'] N' L']. unfold handle_release. rewrite (proj2 (Z.eqb_neq _ _)) by lia.
    assert (lv s' !! h = Some o) as Hlh.
    { destruct new as [[h' o']|]; [destruct L' as [-> ?]; rewrite lookup_insert_ne by lia|rewrite L'];
        rewrite L; apply lookup_insert_eq. }
    unfold fbind, object_of. simpl. rewrite Hlh. eexists. split; [reflexivity|].
    split; simpl; [congruence|congruence| |lia|].
    - split; simpl; [lia|]. intros h' o' [_ ?]%lookup_delete_Some. by eapply Hw'.
    - destruct new as [[h' o']|].
      + destruct L' as [-> ?]. rewrite L. split; [|lia].
        rewrite delete_insert_ne by lia. by rewrite delete_insert_id.
      + rewrite L', L. by rewrite delete_insert_id. }
  unfold spec, awp in Hm. destruct (m s) as [[a|c|] s1]; [| |done].
  - destruct Hm as (new & Hg & Hd). destruct (Hrel new s1 Hd) as (s2 & -> & Hd2). eauto.
  - destruct (Hrel None s1 Hm) as (s2 & -> & Hd2). done.
Qed.

Lemma spec_clone h s :
  world_ok s -> usable s h ->
  awp (clone alloc_ok h : Eff St Z) s
    (fun h' s' => exists o, lv s !! h = Some o /\ delta (Some (h', o)) s s') (fun _ s' => delta None s s').
Proof.
  intros Hw Hu. unfold clone, handle_clone. destruct (Z.eqb_spec h 0) as [->|Hne]; [by apply delta_refl|].
  destruct Hu as [?|[o Ho]]; [done|]. apply awp_bind. unfold awp at 1, object_of. simpl. rewrite Ho.
  apply awp_bind. eapply awp_mono; [by apply (spec_ask alloc_ok)| |done].
  intros b s1 (new & Hn & Hd). destruct new; [done|]. destruct b; [|done].
  eapply awp_mono; [apply spec_object, Hd| |done]. intros h' s2 Hd2. exists o. split; [done|by eapply delta_trans].
Qed.

Notation proxy_from_borrowed := (proxy_from_borrowed alloc_ok proxy_ok).

Lemma spec_proxy {A} (g : A -> option Z) h (use : O -> Eff St A) s :
  world_ok s -> usable s h -> (forall o s', world_ok s' -> p_view s' = p_view s -> usable s' h -> spec g (use o) s') ->
  spec g (proxy_from_borrowed h use) s.
Proof.
  intros Hw Hu Huse. unfold Posix.proxy_from_borrowed. destruct (h =? 0); [by apply spec_err|].
  unfold spec. apply awp_try. eapply awp_mono; [by apply spec_clone| |].
  2: { intros c s1 Hd. by apply awp_err. }
  intros copy s1 (o & Ho & Hd). apply awp_bind. unfold awp at 1, ask. rewrite Hproxy. simpl.
  set (s2 := mkPosix _ (p_view s1) (p_context s1)).
  assert (Hd2 : delta (Some (copy, o)) s s2).
  { eapply delta_trans_r; [exact Hd|]. destruct Hd as [? ? [? ?] ? ?]. split; simpl; (done || lia). }
  apply (spec_then_release g _ s s2 copy o); [done|done|]. destruct Hd2 as [V C W N [L ?]] eqn:E.
  assert (Hl : lv s2 !! copy = Some o) by (rewrite L; apply lookup_insert_eq).
  unfold spec. apply awp_bind. unfold awp at 1, object_of. simpl. simpl in Hl. rewrite Hl.
  apply Huse; [done|done|]. by apply (usable_delta (Some (copy, o)) s).
Qed.

(** *** The handles of a view *)

(** The handles that the view owns, by position: its own, its current and its root
    directory, and those of the descriptors from 3 on, where 0 stands for none. *)
Definition slots (v : PosixView) : list Z :=
  view_handle v :: cwd_handle v :: root_handle v :: (handle <$> skipn 3 (descriptors v)).

Definition owns (v : PosixView) (h : Z) : Prop := h <> 0 /\ h ∈ slots v.

#[local] Instance owns_dec v h : Decision (owns v h).
Proof. unfold owns. apply _. Defined.

(** The handles that others lend to the view. *)
Definition lent (v : PosixView) : list Z :=
  page_allocator_handle v :: lifecycle_handle v :: (handle <$> firstn 3 (descriptors v)).

Record view_ok (s : St) : Prop := {
  vk_world : world_ok s;
  vk_length : length (descriptors (p_view s)) = POSIX_DESCRIPTOR_COUNT;
  vk_live : forall h, owns (p_view s) h -> is_Some (lv s !! h);
  vk_once : forall i j h, slots (p_view s) !! i = Some h -> slots (p_view s) !! j = Some h -> h <> 0 -> i = j;
  vk_lent : forall h, h ∈ lent (p_view s) -> usable s h /\ ~ owns (p_view s) h;
  vk_unused : forall d, d ∈ descriptors (p_view s) -> kind d = DESCRIPTOR_UNUSED -> handle d = 0
}.

(** Every handle is accounted for: what is live afterwards and does not belong to the
    view was live before and did not belong to it, and nothing of others is gone. *)
Record accounted (s s' : St) : Prop := {
  acc_live : forall h, ~ owns (p_view s') h -> lv s' !! h = if decide (owns (p_view s) h) then None else lv s !! h;
  acc_new : forall h, owns (p_view s') h -> owns (p_view s) h \/ nx s <= h;
  acc_next : nx s <= nx s'
}.

Definition keeps (s s' : St) : Prop := view_ok s' /\ accounted s s'.

Lemma accounted_trans s1 s2 s3 : world_ok s1 -> accounted s1 s2 -> accounted s2 s3 -> accounted s1 s3.
Proof.
  intros [_ Hw] [L1 N1 X1] [L2 N2 X2]. split; [| |lia].
  - intros h Hh. rewrite L2 by done. destruct (decide (owns (p_view s2) h)) as [Ho|Ho]; [|by apply L1].
    destruct (decide (owns (p_view s1) h)) as [Ho1|Ho1]; [done|]. destruct (N1 h Ho) as [?|Hn]; [done|].
    destruct (lv s1 !! h) eqn:E; [|done]. apply Hw in E. lia.
  - intros h Hh. destruct (N2 h Hh) as [Ho|Hn]; [|right; lia]. by apply N1.
Qed.

Lemma keeps_trans s1 s2 s3 : world_ok s1 -> keeps s1 s2 -> keeps s2 s3 -> keeps s1 s3.
Proof. intros Hw [? ?] [? ?]. split; [done|by eapply accounted_trans]. Qed.

Lemma usable_same s s' h : lv s' = lv s -> usable s h -> usable s' h.
Proof. intros Hl. unfold usable. by rewrite Hl. Qed.

(** A step that changes neither handles nor what the view owns and borrows. *)
Lemma keeps_same s s' :
  view_ok s -> world_ok s' -> lv s' = lv s -> nx s <= nx s' ->
  slots (p_view s') = slots (p_view s) -> lent (p_view s') = lent (p_view s) ->
  length (descriptors (p_view s')) = POSIX_DESCRIPTOR_COUNT ->
  (forall d, d ∈ descriptors (p_view s') -> kind d = DESCRIPTOR_UNUSED -> handle d = 0) -> keeps s s'.
Proof.
  intros [W L V O1 B U] Hw Hl Hn Hs Hb Hlen Hu. unfold keeps, owns.
  assert (Hown : forall h, owns (p_view s') h <-> owns (p_view s) h) by (intros h; unfold owns; by rewrite Hs).
  split; split; try done.
  - intros h Hh%Hown. rewrite Hl. auto.
  - by rewrite Hs.
  - intros h Hh. rewrite Hb in Hh. destruct (B h Hh) as [? ?]. split; [by eapply usable_same|by rewrite Hown].
  - intros h Hh. rewrite Hl. rewrite decide_False; [done|]. by rewrite <- Hown.
  - intros h Hh%Hown. by left.
Qed.

Lemma keeps_delta s s' : view_ok s -> delta None s s' -> keeps s s'.
Proof.
  intros Hv [V C W N L]. apply keeps_same; try done; rewrite V; try done; apply Hv.
Qed.

(** What a view owns after one of its slots was given another handle. *)
Lemma owns_slot v v' i old new :
  (forall i j h, slots v !! i = Some h -> slots v !! j = Some h -> h <> 0 -> i = j) ->
  slots v !! i = Some old -> slots v' = <[i := new]> (slots v) ->
  forall h, owns v' h <-> h <> 0 /\ (h = new \/ (h <> old /\ owns v h)).
Proof.
  intros Hone Hi Hs h. split.
  - intros [H0 [j Hj]%list_elem_of_lookup]. split; [done|]. rewrite Hs in Hj.
    destruct (decide (j = i)) as [->|Hne].
    + rewrite list_lookup_insert_eq in Hj by (by eapply lookup_lt_Some). left. congruence.
    + rewrite list_lookup_insert_ne in Hj by done. right. split; [|split; [done|by eapply list_elem_of_lookup_2]].
      intros ->. apply Hne. by eapply Hone.
  - intros [H0 [->|[Hne [_ [j Hj]%list_elem_of_lookup]]]]; (split; [done|]); apply list_elem_of_lookup.
    + exists i. rewrite Hs. apply list_lookup_insert_eq. by eapply lookup_lt_Some.
    + exists j. rewrite Hs, list_lookup_insert_ne; [done|]. intros <-. congruence.
Qed.

(** No handle is in two slots if the new one was in none. *)
Lemma once_slot v v' i old new :
  (forall i j h, slots v !! i = Some h -> slots v !! j = Some h -> h <> 0 -> i = j) ->
  slots v !! i = Some old -> slots v' = <[i := new]> (slots v) -> (new <> 0 -> ~ owns v new) ->
  forall i j h, slots v' !! i = Some h -> slots v' !! j = Some h -> h <> 0 -> i = j.
Proof.
  intros Hone Hi Hs Hnew j k h Hj Hk H0.
  assert (Hin : forall j, slots v' !! j = Some h -> (j = i /\ h = new) \/ (j <> i /\ slots v !! j = Some h)).
  { intros m. rewrite Hs. destruct (decide (m = i)) as [->|Hm].
    - rewrite list_lookup_insert_eq by (by eapply lookup_lt_Some). intros [= <-]. auto.
    - rewrite list_lookup_insert_ne by done. auto. }
  assert (Hno : forall m, h = new -> slots v !! m = Some h -> False).
  { intros m -> Hm. apply (Hnew H0). split; [done|by eapply list_elem_of_lookup_2]. }
  destruct (Hin j Hj) as [[-> E1]|[_ E1]], (Hin k Hk) as [[-> E2]|[_ E2]]; try done; [by destruct (Hno k)|by destruct (Hno j)|].
  by eapply Hone.
Qed.

(** A slot is emptied and filled anew. *)
Lemma keeps_slot s s' i old new :
  view_ok s -> slots (p_view s) !! i = Some old -> world_ok s' -> nx s <= nx s' ->
  slots (p_view s') = <[i := new]> (slots (p_view s)) -> lent (p_view s') = lent (p_view s) ->
  length (descriptors (p_view s')) = POSIX_DESCRIPTOR_COUNT ->
  (forall d, d ∈ descriptors (p_view s') -> kind d = DESCRIPTOR_UNUSED -> handle d = 0) ->
  (new = 0 /\ lv s' = delete old (lv s) \/
   nx s <= new /\ exists o, lv s' = <[new := o]> (delete old (lv s))) -> keeps s s'.
Proof.
  intros [W L V O1 B U] Hi Hw Hn Hs Hb Hlen Hu Hl. pose proof W as [Wp Wl].
  pose proof (owns_slot _ _ i old new O1 Hi Hs) as Howns.
  assert (Hlv : forall h, h <> new -> h <> old -> lv s' !! h = lv s !! h).
  { intros h H1 H2. destruct Hl as [[_ ->]|[_ [o ->]]]; [|rewrite lookup_insert_ne by done]; by rewrite lookup_delete_ne. }
  assert (Hfresh : new <> 0 -> lv s !! new = None).
  { intros H0. destruct Hl as [[? _]|[Hr _]]; [done|]. destruct (lv s !! new) eqn:E; [|done]. apply Wl in E. lia. }
  split; split; try done.
  - intros h (H0 & [->|[Hne Ho]])%Howns.
    + destruct Hl as [[? _]|[_ [o ->]]]; [done|]. rewrite lookup_insert_eq. by eexists.
    + rewrite Hlv; [by apply V| |done]. intros ->. destruct (V new Ho) as [x Hx]. rewrite Hfresh in Hx; done.
  - apply (once_slot (p_view s) _ i old new); [done..|]. intros H0 Ho. destruct (V new Ho) as [x Hx].
    rewrite Hfresh in Hx; done.
  - intros h Hh. rewrite Hb in Hh. destruct (B h Hh) as [[->|[x Hx]] Hno]; [split; [by left|by intros [? _]]|].
    assert (h <> new) by (intros ->; apply Wl in Hx as Hr; rewrite Hfresh in Hx; [done|lia]).
    assert (h <> old).
    { intros ->. apply Wl in Hx. apply Hno. split; [lia|by eapply list_elem_of_lookup_2]. }
    split; [right; rewrite Hlv by done; by eexists|]. rewrite Howns. tauto.
  - intros h Hh. rewrite Howns in Hh. destruct (decide (h = 0)) as [->|H0].
    { rewrite decide_False by (by intros [? _]). destruct Hl as [[_ ->]|[Hr [o ->]]].
      - destruct (decide (old = 0)) as [->|]; [|by rewrite lookup_delete_ne].
        rewrite lookup_delete_eq. destruct (lv s !! 0) eqn:E; [|done]. apply Wl in E. lia.
      - rewrite lookup_insert_ne by lia. destruct (decide (old = 0)) as [->|]; [|by rewrite lookup_delete_ne].
        rewrite lookup_delete_eq. destruct (lv s !! 0) eqn:E; [|done]. apply Wl in E. lia. }
    assert (h <> new) by tauto. destruct (decide (h = old)) as [->|Hne].
    + rewrite decide_True by (split; [done|by eapply list_elem_of_lookup_2]).
      destruct Hl as [[_ ->]|[_ [o ->]]]; [|rewrite lookup_insert_ne by done]; apply lookup_delete_eq.
    + rewrite Hlv by done. destruct (decide (owns (p_view s) h)); [tauto|done].
  - intros h (H0 & [->|[_ Ho]])%Howns; [|by left]. right. destruct Hl as [[? _]|[? _]]; done.
Qed.

(** *** The steps of the calls *)

(** The handles that the view uses. *)
Lemma view_usable s h : view_ok s -> h = 0 \/ h ∈ slots (p_view s) \/ h ∈ lent (p_view s) -> usable s h.
Proof.
  intros Hv [->|[Hh|Hh]]; [by left| |by apply Hv]. destruct (decide (h = 0)) as [->|H0]; [by left|]. right. by apply Hv.
Qed.

Lemma cwd_slot v : cwd_handle v ∈ slots v.
Proof. right. left. Qed.
Lemma root_slot v : root_handle v ∈ slots v.
Proof. right. right. left. Qed.

Hint Resolve cwd_slot root_slot : core.

Lemma view_ok_delta s s' : view_ok s -> delta None s s' -> view_ok s'.
Proof. intros Hv Hd. by destruct (keeps_delta s s' Hv Hd). Qed.

Notation directory_path := (directory_path alloc_ok proxy_ok).

Lemma spec_directory_path h s : world_ok s -> usable s h -> spec none (directory_path h) s.
Proof. intros Hw Hu. apply spec_proxy; [done..|]. intros o s' Hw' _ _. by apply spec_answered. Qed.

Lemma spec_allocate s : world_ok s -> spec none (allocate_block alloc_ok : Eff St bool) s.
Proof. intros Hw. by apply spec_ask. Qed.

Lemma usable_root s : view_ok s -> usable s (root_handle (p_view s)).
Proof. intros Hv. apply view_usable; auto. Qed.
Lemma usable_cwd s : view_ok s -> usable s (cwd_handle (p_view s)).
Proof. intros Hv. apply view_usable; auto. Qed.

Lemma awp_view {A} (f : PosixView -> A) (s : St) Q E : Q (f (p_view s)) s -> awp (the_view f) s Q E.
Proof. done. Qed.

Lemma spec_the_view {A C} g (f : PosixView -> A) (k : A -> Eff St C) s :
  spec g (k (f (p_view s))) s -> spec g (fbind (the_view f) k) s.
Proof. done. Qed.

Lemma spec_relative_base s : view_ok s -> spec none (relative_base alloc_ok proxy_ok) s.
Proof.
  intros Hv. apply spec_the_view. simpl. destruct (cwd_synthetic_etc (p_view s)); [by apply spec_ret, Hv|].
  apply spec_try; [apply spec_directory_path; [apply Hv|by apply usable_root]| |by intros s' Hd; apply spec_ret, Hd].
  intros root s1 Hd1. pose proof (view_ok_delta _ _ Hv Hd1) as Hv1. rewrite <- (delta_view _ _ _ Hd1).
  apply spec_try; [apply spec_directory_path; [apply Hv1|by apply usable_cwd]| |]; intros; apply spec_ret;
    match goal with D : delta None s1 _ |- _ => apply D end.
Qed.

Lemma spec_resolve_names path s : view_ok s -> path <> [] -> spec none (resolve_names alloc_ok proxy_ok path) s.
Proof.
  intros Hv Hp. apply spec_bind.
  { destruct (starts_with 47 path); [by apply spec_ret, Hv|by apply spec_relative_base]. }
  intros base s1 Hd1. apply spec_bind; [apply spec_allocate, Hd1|]. intros ok s2 Hd2.
  destruct ok; simpl; [|apply spec_err, Hd2]. destruct base as [base|]; [|apply spec_ret, Hd2].
  rewrite normalize_beneath_root_descend by done. apply spec_ret, Hd2.
Qed.

(** ** Which names are looked up where *)










Notation resolve_path := (resolve_path alloc_ok proxy_ok).

Lemma spec_resolve_path {A} (g : A -> option Z) path (use : bool -> bytes -> O -> Eff St A) s :
  view_ok s -> (forall b rel o s', world_ok s' -> spec g (use b rel o) s') -> spec g (resolve_path path use) s.
Proof.
  intros Hv Hu. unfold Posix.resolve_path. destruct path as [|x path]; [by apply spec_err, Hv|].
  apply spec_bind; [by apply spec_resolve_names|]. intros [b rel] s1 Hd1.
  pose proof (view_ok_delta _ _ Hv Hd1) as Hv1. apply spec_the_view. apply spec_proxy; [apply Hv1| |auto].
  simpl. destruct b; [by apply usable_root|by apply usable_cwd].
Qed.

Lemma spec_open_either o rel s : world_ok s -> spec (fun r => Some (snd r)) (open_either o rel : Eff St (bool * Z)) s.
Proof.
  intros Hw. unfold open_either.
  assert (Hr : forall b r, spec (fun r => Some (snd r)) (fbind (received r : Eff St Z) (fun h => fret ((b : bool), h))) s).
  { intros b r. by eapply spec_bind_ret; [by apply spec_received|]. }
  destruct (dir_open_directory o rel) as [|[]]; apply Hr.
Qed.

Lemma spec_reporting {A} (g : A -> option Z) errno_of (m : Eff St A) s :
  spec g m s -> spec (fun r => match r with Done a => g a | Failed _ => None end) (reporting errno_of m) s.
Proof.
  unfold spec, awp, reporting. destruct (m s) as [[a|c|] s']; [done| |done].
  destruct (errno_of c); [|done]. intros Hd. by exists None.
Qed.

(** A proxy for a handle that was just received. *)
Lemma spec_owned_proxy {A} s0 s h o (use : O -> Eff St A) :
  view_ok s0 -> delta (Some (h, o)) s0 s ->
  (forall s', delta (Some (h, o)) s0 s' -> spec none (use o) s') ->
  awp (owned_proxy proxy_ok h use) s (fun a s' => delta None s0 s') (fun _ s' => delta None s0 s').
Proof.
  intros Hv Hd Huse. pose proof (vk_world _ Hv) as [H0 _]. unfold owned_proxy.
  destruct Hd as [V C W N [L Hh]] eqn:E. clear E. rewrite (proj2 (Z.eqb_neq _ _)) by lia.
  apply awp_bind. unfold awp at 1, ask. rewrite Hproxy. simpl.
  set (s2 := mkPosix _ (p_view s) (p_context s)).
  assert (Hd2 : delta (Some (h, o)) s0 s2).
  { eapply delta_trans_r; [exact Hd|]. split; simpl; (done || lia). }
  eapply awp_mono; [apply (spec_then_release none _ s0 s2 h o); [apply Hv|done|]| |done].
  - assert (Hl : lv s2 !! h = Some o) by (simpl; rewrite L; apply lookup_insert_eq).
    unfold spec. apply awp_bind. unfold awp at 1, object_of. simpl in *. rewrite Hl. by apply Huse.
  - intros a s' (new & Hn & Hd'). by destruct new.
Qed.

Definition call_ok {A} (m : Eff St A) (s : St) : Prop := awp m s (fun _ => keeps s) (fun _ => keeps s).

Lemma keeps_refl s : view_ok s -> keeps s s.
Proof. intros Hv. apply keeps_delta; [done|]. by apply delta_refl, Hv. Qed.

Lemma call_spec {A} (m : Eff St A) s : view_ok s -> spec none m s -> call_ok m s.
Proof.
  intros Hv Hm. eapply awp_mono; [exact Hm| |].
  - intros a s' (new & Hn & Hd). destruct new; [done|]. by apply keeps_delta.
  - intros c s' Hd. by apply keeps_delta.
Qed.

Lemma call_ret {A} (a : A) s : view_ok s -> call_ok (fret a) s.
Proof. intros Hv. by apply keeps_refl. Qed.

Lemma call_bind {A C} (m : Eff St A) (k : A -> Eff St C) s :
  view_ok s -> call_ok m s -> (forall a s', keeps s s' -> call_ok (k a) s') -> call_ok (fbind m k) s.
Proof.
  intros Hv Hm Hk. apply awp_bind. eapply awp_mono; [exact Hm| |done]. intros a s1 Hk1.
  eapply awp_mono; [by apply Hk| |]; intros; (eapply keeps_trans; [apply Hv|exact Hk1|done]).
Qed.

Lemma call_obind {A C} (m : Eff St (outcome A)) (k : A -> Eff St (outcome C)) s :
  view_ok s -> call_ok m s -> (forall a s', keeps s s' -> call_ok (k a) s') -> call_ok (obind m k) s.
Proof.
  intros Hv Hm Hk. apply call_bind; [done..|]. intros [a|e] s' Hk'; [by apply Hk|]. apply call_ret, Hk'.
Qed.

Lemma call_view {A C} (f : PosixView -> A) (k : A -> Eff St C) s :
  call_ok (k (f (p_view s))) s -> call_ok (fbind (the_view f) k) s.
Proof. done. Qed.

Lemma call_callback {A} (f : X -> A * X) s : view_ok s -> call_ok (callback f : Eff St A) s.
Proof.
  intros Hv. unfold call_ok, awp, callback. destruct (f (p_context s)) as [a x]. pose proof Hv as [W L V O1 B U].
  apply keeps_same; simpl; (done || lia).
Qed.

(** A change of the view that keeps its handles. *)
Lemma call_change (f : PosixView -> PosixView) s :
  view_ok s -> slots (f (p_view s)) = slots (p_view s) -> lent (f (p_view s)) = lent (p_view s) ->
  length (descriptors (f (p_view s))) = POSIX_DESCRIPTOR_COUNT ->
  (forall d, d ∈ descriptors (f (p_view s)) -> kind d = DESCRIPTOR_UNUSED -> handle d = 0) ->
  call_ok (change_view f : Eff St unit) s.
Proof.
  intros Hv H1 H2 H3 H4. unfold call_ok, awp, change_view, fput. apply keeps_same; simpl; (done || apply Hv || lia).
Qed.

Lemma call_reporting {A} errno_of (m : Eff St A) s : call_ok m s -> call_ok (reporting errno_of m) s.
Proof.
  unfold call_ok, awp, reporting. destruct (m s) as [[a|c|] s']; [done| |done]. by destruct (errno_of c).
Qed.

(** *** Current directory *)

Lemma awp_release (s : St) h Q E :
  usable s h ->
  Q tt (mkPosix (mkWorld (if h =? 0 then lv s else delete h (lv s)) (nx s) (steps (p_world s))) (p_view s) (p_context s)) ->
  awp (handle_release h : Eff St unit) s Q E.
Proof.
  intros Hu HQ. unfold handle_release. destruct (h =? 0) eqn:E0.
  - apply awp_ret. by destruct s as [[] ? ?].
  - destruct Hu as [->|[o Ho]]; [done|]. apply awp_bind. unfold awp at 1, object_of. simpl. rewrite Ho. done.
Qed.

Lemma world_ok_release (s : St) h v c :
  world_ok s -> world_ok (mkPosix (mkWorld (if h =? 0 then lv s else delete h (lv s)) (nx s) (steps (p_world s))) v c).
Proof.
  intros [H0 Hw]. split; simpl; [done|]. intros h' o Hl. apply (Hw h' o). destruct (h =? 0); [done|].
  by apply lookup_delete_Some in Hl as [_ ?].
Qed.

Lemma delete_null (s : St) h : world_ok s -> (if h =? 0 then lv s else delete h (lv s)) = delete h (lv s).
Proof.
  intros [_ Hw]. destruct (Z.eqb_spec h 0) as [->|]; [|done]. rewrite delete_id; [done|].
  destruct (lv s !! 0) eqn:E; [|done]. apply Hw in E. lia.
Qed.

Lemma call_cwd_changed h b s : view_ok s -> call_ok (cwd_changed cb h b : Eff St (outcome unit)) s.
Proof.
  intros Hv. apply call_view. destruct (negb _); [by apply call_ret|].
  apply call_bind; [done|by apply call_callback|]. intros ok s' Hk. destruct ok; simpl; [apply call_ret, Hk|].
  apply keeps_refl, Hk.
Qed.

(** A received handle becomes the current directory. *)
Lemma call_enter_directory s0 s next o :
  view_ok s0 -> delta (Some (next, o)) s0 s ->
  awp (enter_directory cb next : Eff St (outcome unit)) s (fun _ => keeps s0) (fun _ => keeps s0).
Proof.
  intros Hv Hd. pose proof Hd as [V C W N [L Hn]]. apply awp_bind, awp_view. apply awp_bind, awp_put.
  apply awp_bind, awp_release.
  { apply (usable_same s); [done|]. apply (usable_delta (Some (next, o)) s0); [apply Hv|done|].
    rewrite V. by apply usable_cwd. }
  apply awp_bind, awp_put. simpl.
  match goal with |- awp _ ?s' _ _ => assert (Hk : keeps s0 s') end.
  { eapply (keeps_slot s0 _ 1 (cwd_handle (p_view s0)) next); simpl; try rewrite V; try done; try apply Hv.
    - apply (world_ok_release s). done.
    - right. split; [lia|]. exists o. rewrite (delete_null s) by done. rewrite L. apply delete_insert_ne.
      pose proof (vk_world _ Hv) as [Hp0 Hw0]. intros Hc. destruct (decide (cwd_handle (p_view s0) = 0)) as [E|E]; [lia|].
      destruct (vk_live _ Hv (cwd_handle (p_view s0))) as [x Hx]; [by split|]. apply Hw0 in Hx. lia. }
  eapply awp_mono; [by apply call_cwd_changed, Hk| |]; intros; (eapply keeps_trans; [apply Hv|exact Hk|done]).
Qed.

(** A handle that a call receives and passes on, unless it is reported as an error. *)
Lemma call_received {A C} (m : Eff St A) errno_of (k : A -> Eff St (outcome C)) (g : A -> Z) s :
  view_ok s -> spec (fun a => Some (g a)) m s ->
  (forall a o s', delta (Some (g a, o)) s s' -> awp (k a) s' (fun _ => keeps s) (fun _ => keeps s)) ->
  call_ok (obind (reporting errno_of m) k) s.
Proof.
  intros Hv Hm Hk. apply awp_bind. eapply awp_mono; [exact (spec_reporting _ errno_of m s Hm)| |].
  - intros [a|e] s1 (new & Hn & Hd).
    + destruct new as [[h o]|]; [|done]. simpl in Hn. injection Hn as ->. by eapply Hk.
    + destruct new; [done|]. apply awp_ret. by apply keeps_delta.
  - intros c s1 Hd. by apply keeps_delta.
Qed.

Lemma call_change_directory path s : view_ok s -> call_ok (posix_change_directory alloc_ok proxy_ok cb path) s.
Proof.
  intros Hv. apply call_view. simpl. destruct (synthetic_directory _ _).
  { apply call_bind; [done|by apply call_change; try done; apply Hv|]. intros _ s' Hk. apply call_cwd_changed, Hk. }
  destruct (_ && _)%bool.
  - apply awp_try. eapply awp_mono; [apply spec_clone; [apply Hv|by apply usable_root]| |].
    + intros next s1 (o & Ho & Hd). by eapply call_enter_directory.
    + intros c s1 Hd. apply awp_err. by apply keeps_delta.
  - eapply (call_received _ _ _ (fun h => h)); [done| |].
    + apply spec_resolve_path; [done|]. intros b rel o s' Hw. by apply spec_received.
    + intros h o s' Hd. by eapply call_enter_directory.
Qed.

(** *** Listings and metadata *)

Lemma spec_copy_names names s : world_ok s -> spec none (copy_names alloc_ok names : Eff St unit) s.
Proof.
  revert s. induction names as [|n names IH]; intros s Hw; [by apply spec_ret|]. simpl.
  apply spec_bind; [by apply spec_allocate|]. intros ok s' Hd. destruct ok; simpl; [apply IH, Hd|apply spec_err, Hd].
Qed.

Lemma call_names_array names s : view_ok s -> call_ok (names_array alloc_ok names : Eff St (outcome (list bytes))) s.
Proof.
  intros Hv. apply call_spec; [done|]. apply spec_bind; [apply spec_allocate, Hv|]. intros ok s1 Hd1.
  destruct (_ && _)%bool; [apply spec_err, Hd1|]. apply spec_bind; [apply spec_copy_names, Hd1|].
  intros _ s2 Hd2. apply spec_ret, Hd2.
Qed.

Lemma call_list_names s0 s h o (include : O -> Eff St bool) :
  view_ok s0 -> delta (Some (h, o)) s0 s ->
  (forall s', delta (Some (h, o)) s0 s' -> spec none (include o) s') ->
  awp (list_names alloc_ok proxy_ok include h) s (fun _ => keeps s0) (fun _ => keeps s0).
Proof.
  intros Hv Hd Hinc. apply awp_bind. unfold reporting, awp at 1.
  pose proof (spec_owned_proxy s0 s h o (fun o => fbind (include o) (fun b =>
    fbind (answered (dir_list o)) (fun names => fret (b, names)))) Hv Hd) as Hp. unfold awp in Hp.
  destruct (owned_proxy _ _ _ _) as [[[b names]|c|] s1]; simpl in *.
  - assert (Hd1 : delta None s0 s1).
    { apply Hp. intros s' Hd'. apply spec_bind; [by apply Hinc|]. intros b' s2 Hd2.
      apply spec_bind; [apply spec_answered, Hd2|]. intros n s3 Hd3. apply spec_ret, Hd3. }
    pose proof (keeps_delta _ _ Hv Hd1) as Hk1.
    eapply awp_mono; [by apply call_names_array, Hk1| |]; intros; (eapply keeps_trans; [apply Hv|exact Hk1|done]).
  - assert (Hd1 : delta None s0 s1).
    { apply Hp. intros s' Hd'. apply spec_bind; [by apply Hinc|]. intros b' s2 Hd2.
      apply spec_bind; [apply spec_answered, Hd2|]. intros n s3 Hd3. apply spec_ret, Hd3. }
    destruct (posix_error c); simpl; by apply keeps_delta.
  - apply Hp. intros s' Hd'. apply spec_bind; [by apply Hinc|]. intros b' s2 Hd2.
    apply spec_bind; [apply spec_answered, Hd2|]. intros n s3 Hd3. apply spec_ret, Hd3.
Qed.

Lemma spec_namespace_root s o : world_ok s -> usable s (root_handle (p_view s)) ->
  spec none (directory_is_namespace_root alloc_ok proxy_ok o : Eff St bool) s.
Proof.
  intros Hw Hu. unfold directory_is_namespace_root. apply spec_the_view. simpl.
  pose proof (spec_directory_path (root_handle (p_view s)) s Hw Hu) as Hs. unfold spec, awp, Posix.directory_path in *.
  destruct (Posix.proxy_from_borrowed _ _ _ _ s) as [[r|c|] s']; [|by exists None|done].
  destruct Hs as (new & Hn & Hd). destruct new; [done|]. by exists None.
Qed.

Lemma call_list_directory path s : view_ok s -> call_ok (posix_list_directory alloc_ok proxy_ok path : Eff St _) s.
Proof.
  intros Hv. apply call_view. simpl. destruct (synthetic_directory _ _); [by apply call_names_array|].
  destruct (_ && _)%bool.
  - apply awp_bind. eapply awp_mono.
    + apply (spec_proxy Some); [apply Hv|by apply usable_root|]. intros o s' Hw _ _. by apply spec_received.
    + intros h s1 (new & Hn & Hd). destruct new as [[h' o]|]; [|done]. injection Hn as ->.
      eapply call_list_names; [done|done|]. intros s' Hd'. apply spec_ret, Hd'.
    + intros c s1 Hd. by apply keeps_delta.
  - eapply (call_received _ _ _ (fun h => h)); [done| |].
    + apply spec_resolve_path; [done|]. intros b rel o s' Hw. by apply spec_received.
    + intros h o s' Hd. eapply call_list_names; [done|done|]. intros s2 Hd2. apply spec_bind.
      * apply spec_namespace_root; [apply Hd2|]. apply (usable_delta (Some (h, o)) s); [apply Hv|done|].
        rewrite (delta_view _ _ _ Hd2). by apply usable_root.
      * intros b s3 Hd3. apply spec_ret, Hd3.
Qed.

Lemma call_object_metadata s0 s b h o :
  view_ok s0 -> delta (Some (h, o)) s0 s ->
  awp (object_metadata proxy_ok b h : Eff St (Z * Z * Z)) s (fun _ => keeps s0) (fun _ => keeps s0).
Proof.
  intros Hv Hd. unfold object_metadata, awp.
  pose proof (spec_owned_proxy s0 s h o (fun o => fret (default (if b then 16877 else 33188, 0, 0) (unix_metadata o))) Hv Hd) as Hp.
  unfold awp in Hp. destruct (owned_proxy _ _ _ _) as [[m|c|] s1]; simpl in *;
    [apply keeps_delta; [done|apply Hp]|apply keeps_delta; [done|apply Hp]|apply Hp];
    intros s' Hd'; apply spec_ret, Hd'.
Qed.

Lemma call_stat_path path s : view_ok s -> call_ok (posix_stat_path alloc_ok proxy_ok path : Eff St _) s.
Proof.
  intros Hv. unfold posix_stat_path. destruct path as [|x path]; [by apply keeps_refl|]. apply call_view. simpl.
  destruct (synthetic_directory _ _); [by apply call_ret|]. destruct (synthetic_file _ _); [by apply call_ret|].
  destruct (cwd_synthetic_etc _); [by apply call_ret|].
  eapply (call_received _ _ _ snd); [done| |].
  - apply spec_resolve_path; [done|]. intros b rel o s' Hw. by apply spec_open_either.
  - intros [b h] o s' Hd. apply awp_bind. eapply awp_mono; [by eapply call_object_metadata| |done].
    intros m s2 Hk. by apply awp_ret.
Qed.

(** *** Descriptors *)

Lemma descriptor_of_spec fd v d :
  length (descriptors v) = POSIX_DESCRIPTOR_COUNT -> descriptor_of fd v = Some d ->
  0 <= fd < 64 /\ descriptors v !! Z.to_nat fd = Some d /\ kind d <> DESCRIPTOR_UNUSED.
Proof.
  intros Hlen. unfold descriptor_of. destruct (_ || _)%bool eqn:E; [done|]. apply orb_false_iff in E as [E1 E2].
  bool_props. destruct (descriptors v !! Z.to_nat fd) as [d'|] eqn:Ed; [|done].
  destruct (bool_decide _) eqn:Ek; [done|]. bool_props. intros [= <-]. unfold POSIX_DESCRIPTOR_COUNT in *. split_and!; [lia|lia|done|done].
Qed.

(** The handle of a descriptor in use can be used. *)
Lemma descriptor_usable s fd d : view_ok s -> descriptors (p_view s) !! fd = Some d -> usable s (handle d).
Proof.
  intros Hv Hd. apply view_usable; [done|]. right. destruct (decide (fd < 3)%nat) as [Hf|Hf].
  - right. unfold lent. right. right. apply list_elem_of_fmap. exists d. split; [done|].
    apply list_elem_of_lookup. exists fd. by rewrite lookup_take_lt.
  - left. unfold slots. do 3 right. apply list_elem_of_fmap. exists d. split; [done|].
    apply list_elem_of_lookup. exists (fd - 3)%nat. rewrite lookup_drop. by replace (3 + (fd - 3))%nat with fd by lia.
Qed.

Lemma insert_cons3 {A} n (a b c x : A) l : <[S (S (S n)) := x]> (a :: b :: c :: l) = a :: b :: c :: <[n := x]> l.
Proof. done. Qed.

Lemma slots_descriptor v fd d :
  length (descriptors v) = POSIX_DESCRIPTOR_COUNT -> 3 <= fd < 64 ->
  slots (set_descriptor fd d v) = <[Z.to_nat fd := handle d]> (slots v).
Proof.
  intros Hl Hf. unfold slots, set_descriptor. simpl descriptors.
  replace (Z.to_nat fd) with (S (S (S (Z.to_nat fd - 3)))) by lia. rewrite insert_cons3.
  do 3 f_equal. rewrite drop_insert_ge by lia.
  replace (S (S (S (Z.to_nat fd - 3))) - 3)%nat with (Z.to_nat fd - 3)%nat by lia. apply list_fmap_insert.
Qed.

Lemma lent_descriptor v fd d :
  3 <= fd -> lent (set_descriptor fd d v) = lent v.
Proof. intros Hf. unfold lent, set_descriptor. simpl descriptors. rewrite take_insert_ge by lia. done. Qed.

Lemma slots_lookup v fd d :
  descriptors v !! Z.to_nat fd = Some d -> 3 <= fd -> slots v !! Z.to_nat fd = Some (handle d).
Proof.
  intros Hd Hf. unfold slots. replace (Z.to_nat fd) with (S (S (S (Z.to_nat fd - 3)))) by lia. simpl.
  rewrite list_lookup_fmap, lookup_drop. by replace (3 + (Z.to_nat fd - 3))%nat with (Z.to_nat fd) by lia; rewrite Hd.
Qed.

Lemma set_descriptor_unused v fd d :
  (forall d, d ∈ descriptors v -> kind d = DESCRIPTOR_UNUSED -> handle d = 0) ->
  (kind d = DESCRIPTOR_UNUSED -> handle d = 0) ->
  forall d', d' ∈ descriptors (set_descriptor fd d v) -> kind d' = DESCRIPTOR_UNUSED -> handle d' = 0.
Proof.
  intros Hv Hd d' [j Hj]%list_elem_of_lookup Hk. simpl in Hj.
  apply list_lookup_insert_Some in Hj as [(_ & -> & _)|[_ Hj]]; [auto|].
  apply Hv; [by eapply list_elem_of_lookup_2|done].
Qed.

(** The offset of a descriptor does not matter for the handles. *)
Lemma call_at_offset s fd d o :
  view_ok s -> descriptor_of fd (p_view s) = Some d ->
  call_ok (change_view (set_descriptor fd (at_offset o d)) : Eff St unit) s.
Proof.
  intros Hv Hd. apply descriptor_of_spec in Hd as (Hf & Hl & Hk); [|apply Hv].
  assert (Hs : <[Z.to_nat fd := handle d]> (handle <$> descriptors (p_view s)) = handle <$> descriptors (p_view s)).
  { apply list_insert_id. by rewrite list_lookup_fmap, Hl. }
  assert (Hm : handle <$> descriptors (set_descriptor fd (at_offset o d) (p_view s)) = handle <$> descriptors (p_view s)).
  { simpl. unfold set_descriptor. simpl. rewrite list_fmap_insert. done. }
  apply call_change; [done| | | |].
  - unfold slots in *. simpl in *. rewrite !fmap_drop, Hm. done.
  - unfold lent in *. simpl in *. rewrite !fmap_take, Hm. done.
  - simpl. rewrite length_insert. apply Hv.
  - apply set_descriptor_unused; [apply Hv|]. done.
Qed.

Lemma call_proxy {A} h (f : O -> answer A) s :
  view_ok s -> usable s h -> call_ok (proxy_from_borrowed h (fun o => answered (f o))) s.
Proof.
  intros Hv Hu. apply call_spec; [done|]. apply spec_proxy; [apply Hv|done|]. intros o s' Hw _ _. by apply spec_answered.
Qed.

Lemma call_time {C} (k : nat -> Eff St C) s : call_ok (k (steps (p_world s))) s -> call_ok (fbind time k) s.
Proof. done. Qed.

(** After a step that leaves the view alone. *)
Lemma call_spec_bind {A C} (m : Eff St A) (k : A -> Eff St C) s :
  view_ok s -> spec none m s -> (forall a s', view_ok s' -> p_view s' = p_view s -> call_ok (k a) s') ->
  call_ok (fbind m k) s.
Proof.
  intros Hv Hm Hk. apply awp_bind. eapply awp_mono; [exact Hm| |].
  - intros a s1 (new & Hn & Hd). destruct new; [done|]. pose proof (keeps_delta _ _ Hv Hd) as Hk1.
    eapply awp_mono; [apply Hk; [apply Hk1|apply Hd]| |]; intros; (eapply keeps_trans; [apply Hv|exact Hk1|done]).
  - intros c s1 Hd. by apply keeps_delta.
Qed.

Lemma spec_reporting_none {A} errno_of (m : Eff St A) s : spec none m s -> spec none (reporting errno_of m) s.
Proof.
  intros Hm. eapply awp_mono; [exact (spec_reporting none errno_of m s Hm)| |done].
  intros [a|e] s' (new & Hn & Hd); by exists new.
Qed.

Lemma call_spec_obind {A C} (m : Eff St (outcome A)) (k : A -> Eff St (outcome C)) s :
  view_ok s -> spec none m s -> (forall a s', view_ok s' -> p_view s' = p_view s -> call_ok (k a) s') ->
  call_ok (obind m k) s.
Proof.
  intros Hv Hm Hk. apply call_spec_bind; [done..|]. intros [a|e] s' Hv' He; [by apply Hk|by apply call_ret].
Qed.

Lemma spec_proxy_answer {A} h (f : O -> answer A) s :
  view_ok s -> usable s h -> spec none (proxy_from_borrowed h (fun o => answered (f o))) s.
Proof. intros Hv Hu. apply spec_proxy; [apply Hv|done|]. intros o s' Hw _ _. by apply spec_answered. Qed.

(** Move the offset and answer. *)
Lemma call_moved {A} s fd d o (a : A) :
  view_ok s -> descriptor_of fd (p_view s) = Some d ->
  call_ok (fbind (change_view (set_descriptor fd (at_offset o d))) (fun _ => fret a) : Eff St A) s.
Proof.
  intros Hv Hd. apply call_bind; [done|by apply call_at_offset|]. intros _ s' Hk. apply call_ret, Hk.
Qed.

Lemma call_write fd data s : view_ok s -> call_ok (posix_write alloc_ok proxy_ok fd data : Eff St _) s.
Proof.
  intros Hv. apply call_view. simpl. destruct (descriptor_of _ _) as [d|] eqn:Ed; [|by apply call_ret].
  destruct (kind d); try by apply call_ret. apply call_time, call_reporting, call_proxy; [done|].
  apply descriptor_of_spec in Ed as (_ & Hl & _); [|apply Hv]. by eapply descriptor_usable.
Qed.

Lemma call_read fd maximum s : view_ok s -> call_ok (posix_read alloc_ok proxy_ok fd maximum : Eff St _) s.
Proof.
  intros Hv. apply call_view. simpl. destruct (descriptor_of _ _) as [d|] eqn:Ed; [|by apply call_ret].
  pose proof Ed as (_ & Hl & _)%descriptor_of_spec; [|apply Hv]. pose proof (descriptor_usable _ _ _ Hv Hl) as Hu.
  destruct (kind d); try by apply call_ret.
  - by apply call_time, call_reporting, call_proxy.
  - apply call_spec_obind; [done|by apply spec_reporting_none, spec_proxy_answer|].
    intros data s' Hv' He. apply call_moved; [done|by rewrite He].
  - apply call_spec_bind; [done|destruct (_ =? _)%nat; [apply spec_ret, Hv|apply spec_allocate, Hv]|].
    intros ok s' Hv' He. destruct ok; simpl; [|by apply keeps_refl]. apply call_moved; [done|by rewrite He].
Qed.

(** A free descriptor. *)
Lemma free_slot_spec l slot :
  free_slot l = Some slot ->
  (3 <= slot)%nat /\ (exists d, l !! slot = Some d /\ kind d = DESCRIPTOR_UNUSED) /\
  forall j d, (3 <= j < slot)%nat -> l !! j = Some d -> kind d <> DESCRIPTOR_UNUSED.
Proof.
  unfold free_slot. intros (i & (d & Hd & Hk & Hm)%index_of_Some & ->)%fmap_Some. bool_props.
  rewrite lookup_drop in Hd. split_and!; [lia|by exists d|]. intros j d' Hj Hd' Hk'.
  rewrite Forall_lookup in Hm. specialize (Hm (j - 3)%nat d'). rewrite lookup_take_lt, lookup_drop in Hm by lia.
  replace (3 + (j - 3))%nat with j in Hm by lia. specialize (Hm Hd'). bool_props. done.
Qed.

(** Fill a free descriptor, with a received handle or without one. *)
Lemma keeps_filled s0 s slot d :
  view_ok s0 -> free_slot (descriptors (p_view s0)) = Some slot -> kind d <> DESCRIPTOR_UNUSED ->
  (handle d = 0 /\ delta None s0 s \/ exists o, delta (Some (handle d, o)) s0 s) ->
  keeps s0 (mkPosix (p_world s) (set_descriptor (Z.of_nat slot) d (p_view s)) (p_context s)).
Proof.
  intros Hv Hs Hk Hd. apply free_slot_spec in Hs as (H3 & (old & Hl & Hu) & _).
  assert (Hlt : (slot < 64)%nat). { apply lookup_lt_Some in Hl. by rewrite (vk_length _ Hv) in Hl. }
  assert (Hold : handle old = 0) by (apply (vk_unused _ Hv); [by eapply list_elem_of_lookup_2|done]).
  assert (p_view s = p_view s0 /\ world_ok s /\ nx s0 <= nx s) as (Hview & Hw & Hn).
  { destruct Hd as [[_ Hd]|[o Hd]]; split_and!; apply Hd. }
  eapply (keeps_slot s0 _ slot 0 (handle d)); simpl; try rewrite Hview; try done.
  - rewrite <- Hold. rewrite <- (Nat2Z.id slot). apply slots_lookup; [by rewrite Nat2Z.id|lia].
  - rewrite slots_descriptor by (try apply Hv; lia). by rewrite Nat2Z.id.
  - rewrite lent_descriptor by lia. done.
  - rewrite length_insert. apply Hv.
  - apply set_descriptor_unused; [apply Hv|done].
  - assert (delete 0 (lv s0) = lv s0) as ->.
    { apply delete_id. destruct (lv s0 !! 0) eqn:E; [|done]. apply (vk_world _ Hv) in E. lia. }
    destruct Hd as [[-> [_ _ _ _ ->]]|[o [_ _ _ _ [-> ?]]]]; [by left|right]. split; [lia|by exists o].
Qed.

Lemma call_open path flags s : view_ok s -> call_ok (posix_open alloc_ok proxy_ok path flags : Eff St _) s.
Proof.
  intros Hv. unfold posix_open. destruct path as [|x path]; [by apply keeps_refl|].
  destruct (_ || _)%bool; [by apply call_ret|]. apply call_view. simpl.
  destruct (free_slot _) as [slot|] eqn:Es; [|by apply call_ret]. destruct (synthetic_file _ _) as [f|].
  - destruct (_ && _)%bool; [by apply call_ret|]. apply awp_bind, awp_put, awp_ret. 
    assert (Hd : delta None s s) by (apply delta_refl, Hv).
    apply keeps_filled; [done..|]. by left.
  - eapply (call_received _ _ _ (fun h => h)); [done| |].
    + apply spec_resolve_path; [done|]. intros b rel o s' Hw. by apply spec_received.
    + intros h o s' Hd. apply awp_bind, awp_put, awp_ret. apply (keeps_filled s s'); [done..|]. right. by exists o.
Qed.

Lemma call_close fd s : view_ok s -> call_ok (posix_close fd : Eff St _) s.
Proof.
  intros Hv. apply call_view. simpl. destruct (descriptor_of _ _) as [d|] eqn:Ed; [|by apply call_ret].
  destruct (Z.ltb_spec fd 3) as [|H3]; [by apply call_ret|].
  apply descriptor_of_spec in Ed as (Hf & Hl & Hk); [|apply Hv].
  apply awp_bind, awp_release; [by eapply descriptor_usable|]. apply awp_bind, awp_put, awp_ret.
  eapply (keeps_slot s _ (Z.to_nat fd) (handle d) 0); simpl; try done.
  - by apply slots_lookup.
  - apply world_ok_release, Hv.
  - rewrite slots_descriptor by (try apply Hv; lia). done.
  - by rewrite lent_descriptor.
  - rewrite length_insert. apply Hv.
  - apply set_descriptor_unused; [apply Hv|done].
  - left. split; [done|]. apply delete_null, Hv.
Qed.

Lemma signed_range x : INT64_LEAST <= signed 64 x <= INT64_MOST.
Proof.
  unfold signed, INT64_LEAST, INT64_MOST. pose proof (Z.mod_pos_bound x (2 ^ 64) ltac:(lia)).
  change (2 ^ (64 - 1)) with 9223372036854775808. change (2 ^ 64) with 18446744073709551616 in *.
  destruct (Z.ltb_spec (x mod 18446744073709551616) 9223372036854775808); lia.
Qed.

Lemma seek_base_range d size whence base : seek_base d size whence = Some base -> INT64_LEAST <= base <= INT64_MOST.
Proof.
  unfold seek_base. repeat case_match; intros [= <-]; try apply signed_range. unfold INT64_LEAST, INT64_MOST. lia.
Qed.

(** An addition of [lseek] that overflows, which is undefined behaviour: on a virtual
    file when the sum exceeds the largest offset, on a file when the negation of the
    displacement does. *)
Definition seek_overflows (d : PosixDescriptor) (displacement whence : Z) : Prop :=
  match kind d with
  | DESCRIPTOR_MEMORY =>
      exists base, seek_base d (zlen (memory d)) whence = Some base /\ 0 <= base /\ INT64_MOST < base + displacement
  | DESCRIPTOR_FILE => displacement = INT64_LEAST
  | _ => False
  end.

Lemma awp_int64 n (s : St) Q E : INT64_LEAST <= n <= INT64_MOST -> Q n s -> awp (int64 n) s Q E.
Proof.
  intros Hn HQ. unfold int64. rewrite (proj2 (Z.leb_le INT64_LEAST n)), (proj2 (Z.leb_le n INT64_MOST)) by lia. done.
Qed.

Lemma call_seek fd displacement whence s :
  view_ok s -> INT64_LEAST <= displacement <= INT64_MOST ->
  (forall d, descriptor_of fd (p_view s) = Some d -> ~ seek_overflows d displacement whence) ->
  call_ok (posix_seek alloc_ok proxy_ok fd displacement whence : Eff St _) s.
Proof.
  intros Hv Hdis Hno. apply call_view. simpl. destruct (descriptor_of _ _) as [d|] eqn:Ed; [|by apply call_ret].
  specialize (Hno d eq_refl). unfold seek_overflows in Hno. destruct (kind d) eqn:Ek; try by apply call_ret.
  - pose proof Ed as (_ & Hl & _)%descriptor_of_spec; [|apply Hv].
    apply call_spec_bind; [done|apply spec_proxy_answer; [done|by eapply descriptor_usable]|].
    intros size s1 Hv1 He. destruct (seek_base d size whence) as [base|] eqn:Eb; [|by apply call_ret].
    pose proof (seek_base_range _ _ _ _ Eb) as Hb.
    assert (Hmove : INT64_LEAST <= base + displacement <= INT64_MOST ->
      awp (fbind (int64 (base + displacement)) (fun target =>
        fbind (change_view (set_descriptor fd (at_offset (u64 target) d))) (fun _ => fret (Done target)))) s1
        (fun _ => keeps s1) (fun _ => keeps s1)).
    { intros Hr. apply awp_bind, awp_int64; [done|]. apply call_moved; [done|by rewrite He]. }
    unfold INT64_LEAST, INT64_MOST in *. apply awp_bind. destruct (Z.ltb_spec displacement 0) as [Hneg|Hpos].
    + apply awp_bind, awp_int64; [unfold INT64_LEAST, INT64_MOST; lia|]. apply awp_ret.
      destruct (Z.ltb_spec base (- displacement)); [by apply call_ret|]. rewrite (proj2 (Z.ltb_ge 0 displacement)) by lia.
      apply awp_bind, awp_ret, Hmove. lia.
    + apply awp_ret. apply awp_bind. destruct (Z.ltb_spec 0 displacement).
      * apply awp_bind, awp_int64; [unfold INT64_LEAST, INT64_MOST; lia|]. apply awp_ret.
        destruct (Z.ltb_spec (9223372036854775807 - displacement) base); [by apply call_ret|]. apply Hmove. lia.
      * apply awp_ret, Hmove. lia.
  - unfold seek_memory. destruct (seek_base d (zlen (memory d)) whence) as [base|] eqn:Eb; simpl; [|by apply call_ret].
    pose proof (seek_base_range _ _ _ _ Eb) as Hb.
    destruct (Z.ltb_spec base 0); [by apply call_ret|]. unfold INT64_LEAST, INT64_MOST in *.
    apply awp_bind, awp_int64; [unfold INT64_LEAST, INT64_MOST; lia|].
    destruct (Z.ltb_spec displacement (- base)); [by apply call_ret|].
    assert (base + displacement <= 9223372036854775807).
    { apply Z.nlt_ge. intros Hc. apply Hno. by exists base. }
    apply awp_bind, awp_int64; [unfold INT64_LEAST, INT64_MOST; lia|].
    destruct (_ <? 0); [by apply call_ret|]. by apply call_moved.
Qed.

(** *** All calls *)

Lemma call_get_cwd s : view_ok s -> call_ok (posix_get_cwd alloc_ok proxy_ok : Eff St _) s.
Proof.
  intros Hv. apply call_view. simpl. destruct (cwd_synthetic_etc _).
  { apply call_spec_bind; [done|apply spec_allocate, Hv|]. intros ok s' Hv' _.
    destruct ok; simpl; [by apply call_ret|by apply keeps_refl]. }
  apply call_spec_obind; [done|apply spec_reporting_none, spec_directory_path; [apply Hv|by apply usable_cwd]|].
  intros physical s1 Hv1 He1. apply call_spec_bind; [done| |].
  { apply spec_directory_path; [apply Hv1|]. rewrite <- He1. by apply usable_root. }
  intros root s2 Hv2 He2. apply call_spec_bind; [done|apply spec_allocate, Hv2|]. intros ok s3 Hv3 _.
  destruct ok; simpl; [by apply call_ret|by apply keeps_refl].
Qed.

Lemma call_set_credentials uid gid s : view_ok s -> call_ok (posix_set_credentials cb uid gid : Eff St _) s.
Proof.
  intros Hv. apply call_view. simpl. destruct (_ || _)%bool; [by apply call_ret|].
  apply call_bind; [done|by apply call_callback|]. intros ok s1 Hk1. destruct ok; simpl; [|apply call_ret, Hk1].
  destruct (negb _); (apply call_bind; [apply Hk1| |intros _ s2 Hk2; apply call_ret, Hk2]).
  - apply call_change; try done; apply Hk1.
  - apply call_ret, Hk1.
Qed.

Lemma call_answered {A} (r : answer A) s : view_ok s -> call_ok (answered r : Eff St A) s.
Proof. intros Hv. by apply call_spec, spec_answered, Hv. Qed.

Lemma call_authenticate name password s :
  view_ok s -> call_ok (posix_authenticate cb name password : Eff St _) s.
Proof.
  intros Hv. apply call_view. apply call_bind; [done|by apply call_callback|]. intros r s1 Hk.
  apply call_reporting, call_answered, Hk.
Qed.

Lemma call_spawn_path path arguments session s :
  view_ok s -> call_ok (spawn alloc_ok proxy_ok cb path arguments session : Eff St _) s.
Proof.
  intros Hv. apply call_spec_bind; [done| |].
  { apply spec_resolve_path; [done|]. intros b rel o s' Hw. apply spec_bind; [by apply spec_allocate|].
    intros ok s2 Hd. destruct ok; simpl; [apply spec_ret, Hd|apply spec_err, Hd]. }
  intros p s1 Hv1 _. apply call_bind; [done|by apply call_callback|]. intros r s2 Hk. apply call_answered, Hk.
Qed.

Inductive PosixCall :=
  | GetInterface (generic view iid : bytes)
  | GetDomainId | GetPid
  | SetCredentials (uid gid : Z)
  | GetCwd
  | ChangeDirectory (path : bytes)
  | Authenticate (name password : bytes)
  | SpawnProcess (path : bytes) (arguments : list bytes) (session : Z)
  | SpawnInherited (path : bytes) (arguments : list bytes)
  | WaitProcess (pid : Z)
  | StatPath (path : bytes)
  | ListDirectory (path : bytes)
  | WriteFd (fd : Z) (data : bytes)
  | ReadFd (fd maximum : Z)
  | OpenFd (path : bytes) (flags : Z)
  | CloseFd (fd : Z)
  | SeekFd (fd displacement whence : Z)
  | AllocatePages (count : Z)
  | FreePages (count base : Z)
  | ExitProcess (status : Z).

Definition forget {A} (m : Eff St A) : Eff St unit := fbind m (fun _ => fret tt).

(** One call of the interface that the view exports. *)
Definition posix_call (c : PosixCall) : Eff St unit :=
  match c with
  | GetInterface generic view iid => forget (posix_get_interface generic view iid)
  | GetDomainId => forget posix_get_domain_id
  | GetPid => forget posix_get_pid
  | SetCredentials uid gid => forget (posix_set_credentials cb uid gid)
  | GetCwd => forget (posix_get_cwd alloc_ok proxy_ok)
  | ChangeDirectory path => forget (posix_change_directory alloc_ok proxy_ok cb path)
  | Authenticate name password => forget (posix_authenticate cb name password)
  | SpawnProcess path arguments session => forget (posix_spawn alloc_ok proxy_ok cb path arguments session)
  | SpawnInherited path arguments => forget (posix_spawn_inherited alloc_ok proxy_ok cb path arguments)
  | WaitProcess pid => forget (posix_wait cb pid)
  | StatPath path => forget (posix_stat_path alloc_ok proxy_ok path)
  | ListDirectory path => forget (posix_list_directory alloc_ok proxy_ok path)
  | WriteFd fd data => forget (posix_write alloc_ok proxy_ok fd data)
  | ReadFd fd maximum => forget (posix_read alloc_ok proxy_ok fd maximum)
  | OpenFd path flags => forget (posix_open alloc_ok proxy_ok path flags)
  | CloseFd fd => forget (posix_close fd)
  | SeekFd fd displacement whence => forget (posix_seek alloc_ok proxy_ok fd displacement whence)
  | AllocatePages count => forget (posix_allocate_pages alloc_ok proxy_ok count)
  | FreePages count base => forget (posix_free_pages alloc_ok proxy_ok count base)
  | ExitProcess status => forget (posix_exit alloc_ok proxy_ok status)
  end.

(** The arguments fit their C types, and a seek does not overflow. *)
Definition call_fits (c : PosixCall) (s : St) : Prop :=
  match c with
  | SeekFd fd displacement whence =>
      INT64_LEAST <= displacement <= INT64_MOST /\
      forall d, descriptor_of fd (p_view s) = Some d -> ~ seek_overflows d displacement whence
  | _ => True
  end.

Lemma call_forget {A} (m : Eff St A) s : view_ok s -> call_ok m s -> call_ok (forget m) s.
Proof. intros Hv Hm. apply call_bind; [done..|]. intros a s' Hk. apply call_ret, Hk. Qed.

Lemma usable_lent s h : view_ok s -> h ∈ lent (p_view s) -> usable s h.
Proof. intros Hv Hh. apply view_usable; auto. Qed.

Lemma call_posix_call c s : view_ok s -> call_fits c s -> call_ok (posix_call c) s.
Proof.
  intros Hv Hf. destruct c; simpl; apply call_forget; try done.
  - unfold posix_get_interface. destruct (_ && _)%bool; by apply keeps_refl.
  - by apply keeps_refl.
  - by apply keeps_refl.
  - by apply call_set_credentials.
  - by apply call_get_cwd.
  - by apply call_change_directory.
  - by apply call_authenticate.
  - apply call_view. destruct (negb _); [by apply call_ret|]. destruct (_ =? _); [by apply call_ret|by apply call_spawn_path].
  - apply call_view. destruct (negb _); [by apply call_ret|by apply call_spawn_path].
  - apply call_view. destruct (negb _); [by apply call_ret|]. apply call_bind; [done|by apply call_callback|].
    intros r s' Hk. apply call_answered, Hk.
  - by apply call_stat_path.
  - by apply call_list_directory.
  - by apply call_write.
  - by apply call_read.
  - by apply call_open.
  - by apply call_close.
  - destruct Hf as [Hd Ho]. by apply call_seek.
  - apply call_view, call_time, call_proxy; [done|]. apply usable_lent; [done|]. left.
  - apply call_view, call_time, call_proxy; [done|]. apply usable_lent; [done|]. left.
  - apply call_view, call_time, call_proxy; [done|]. apply usable_lent; [done|]. right. left.
Qed.

(** A sequence of calls, whatever they answer. *)
Inductive serves : St -> list PosixCall -> St -> Prop :=
  | serves_nil s : serves s [] s
  | serves_cons s c calls r s1 s2 :
      call_fits c s -> posix_call c s = (r, s1) -> serves s1 calls s2 -> serves s (c :: calls) s2.

Lemma serves_keeps s calls s' : view_ok s -> serves s calls s' -> keeps s s'.
Proof.
  intros Hv Hs. induction Hs as [s|s c calls r s1 s2 Hf Hc _ IH]; [by apply keeps_refl|].
  pose proof (call_posix_call c s Hv Hf) as Hk. unfold call_ok, awp in Hk. rewrite Hc in Hk.
  destruct r; [| |done]; (eapply keeps_trans; [apply Hv|exact Hk|apply IH, Hk]).
Qed.

(** C8: A POSIX view keeps its table of descriptors and its handles in order under
    every sequence of calls of its client in which no seek overflows, whatever the
    files, directories, streams and process callbacks answer, as long as client
    proxies can be allocated: each handle is held by one descriptor or directory of
    the view and is live, what the calls acquire on the way is released again, no
    handle of anybody else is released, and no call faults.  The one call that is left
    out is a seek whose signed arithmetic leaves the range of int64_t
    ([call_fits], [seek_memory_overflows]): that one does fault. *)
Theorem posix_view_handles_accounted s calls s' :
  view_ok s -> serves s calls s' ->
  view_ok s' /\ accounted s s' /\ forall c, call_fits c s' -> fst (posix_call c s') <> Fault.
Proof.
  intros Hv Hs. destruct (serves_keeps s calls s' Hv Hs) as [Hv' Ha]. split_and!; [done..|].
  intros c Hf. pose proof (call_posix_call c s' Hv' Hf) as Hk. unfold call_ok, awp in Hk.
  destruct (posix_call c s') as [[]]; [done|done|]. done.
Qed.

End Account.
