(* ===== verification/PosixUse.v ===== *)
(** Clients of the POSIX view: rights that were given up stay given up, a virtual file
    is read to its end, tearing a view down releases what it owns, and the calls that
    go wrong. *)
From stdpp Require Import gmap.
From S2P Require Import Prelude Effects Handles HandleFacts Initrd InitrdFacts Posix PosixFacts.

#[local] Arguments Posix.resolve_path : simpl never.

(** ** Rights *)

Section Rights.
Context {O X : Type} `{PosixServices O}.
Context (alloc_ok proxy_ok : nat -> bool) (cb : Callbacks X).

Notation St := (PosixState O X).

(** A step that leaves the administrator flag alone, whatever it answers. *)
Definition steady {A} (m : Eff St A) : Prop := forall s, view_admin (p_view (snd (m s))) = view_admin (p_view s).

Lemma steady_pure {A} (f : St -> result A) : steady (fun s => (f s, s)).
Proof. done. Qed.

Lemma steady_bind {A C} (m : Eff St A) (k : A -> Eff St C) : steady m -> (forall a, steady (k a)) -> steady (fbind m k).
Proof.
  intros Hm Hk s. specialize (Hm s). unfold fbind. destruct (m s) as [[a|c|] s1]; simpl in *; [|done|done].
  rewrite <- Hm. apply Hk.
Qed.

Lemma steady_try {A C} (m : Eff St A) (k : A -> Eff St C) handler :
  steady m -> (forall a, steady (k a)) -> steady handler -> steady (ftry m k handler).
Proof.
  intros Hm Hk Hh s. specialize (Hm s). unfold ftry. destruct (m s) as [[a|c|] s1]; simpl in *; [| |done];
    rewrite <- Hm; [apply Hk|apply Hh].
Qed.

Lemma steady_reporting {A} e (m : Eff St A) : steady m -> steady (reporting e m).
Proof. intros Hm s. specialize (Hm s). unfold reporting. by destruct (m s) as [[a|c|] s1]. Qed.

Lemma steady_release h : steady (handle_release h : Eff St unit).
Proof.
  unfold handle_release. destruct (h =? 0); [by apply steady_pure|]. apply steady_bind; [|done].
  intros s. unfold object_of. by destruct (_ !! h).
Qed.

Lemma steady_then_release {A} (m : Eff St A) h : steady m -> steady (then_release m h).
Proof.
  intros Hm s. specialize (Hm s). unfold then_release. destruct (m s) as [[a|c|] s1]; simpl in *; [| |done];
    pose proof (steady_release h s1) as Hr; destruct (handle_release h s1) as [[]]; simpl in *; congruence.
Qed.

Lemma steady_change f : (forall v, view_admin (f v) = view_admin v) -> steady (change_view f : Eff St unit).
Proof. intros Hf s. apply Hf. Qed.

Lemma steady_callback {A} (f : X -> A * X) : steady (callback f : Eff St A).
Proof. intros s. unfold callback. by destruct (f (p_context s)). Qed.

Lemma steady_object_of h : steady (object_of h : Eff St O).
Proof. intros s. unfold object_of. by destruct (_ !! h). Qed.

Lemma steady_obind {A C} (m : Eff St (outcome A)) (k : A -> Eff St (outcome C)) :
  steady m -> (forall a, steady (k a)) -> steady (obind m k).
Proof. intros Hm Hk. apply steady_bind; [done|]. by intros [a|e]. Qed.

(** Take a step apart until the basic steps remain. *)
Ltac steadily :=
  repeat (intros;
    lazymatch goal with
    | |- steady (fbind _ _) => apply steady_bind
    | |- steady (obind _ _) => apply steady_obind
    | |- steady (ftry _ _ _) => apply steady_try
    | |- steady (reporting _ _) => apply steady_reporting
    | |- steady (then_release _ _) => apply steady_then_release
    | |- steady (handle_release _) => apply steady_release
    | |- steady (callback _) => apply steady_callback
    | |- steady (object_of _) => apply steady_object_of
    | |- steady (change_view _) => apply steady_change; done
    | |- steady (match ?x with _ => _ end) => destruct x
    | |- steady _ => done
    end).

Lemma steady_proxy {A} h (use : O -> Eff St A) : (forall o, steady (use o)) -> steady (proxy_from_borrowed alloc_ok proxy_ok h use).
Proof. intros Hu. unfold proxy_from_borrowed, clone, handle_clone, allocate. steadily; auto. Qed.

Lemma steady_owned {A} h (use : O -> Eff St A) : (forall o, steady (use o)) -> steady (owned_proxy proxy_ok h use).
Proof. intros Hu. unfold owned_proxy. steadily; auto. Qed.

Lemma steady_received r : steady (received r : Eff St Z).
Proof. unfold received, answered. steadily. Qed.

Lemma steady_answered {A} (r : answer A) : steady (answered r : Eff St A).
Proof. unfold answered. steadily. Qed.

Lemma steady_directory_path h : steady (directory_path alloc_ok proxy_ok h : Eff St bytes).
Proof. apply steady_proxy. intros o. apply steady_answered. Qed.

Lemma steady_resolve_path {A} path (use : bool -> bytes -> O -> Eff St A) :
  (forall b rel o, steady (use b rel o)) -> steady (resolve_path alloc_ok proxy_ok path use).
Proof.
  intros Hu. unfold resolve_path, resolve_names, relative_base, allocate_block, allocate.
  steadily; auto using steady_proxy, steady_directory_path.
Qed.

Hint Resolve steady_proxy steady_owned steady_received steady_answered steady_directory_path steady_resolve_path : core.

Lemma steady_cwd_changed h b : steady (cwd_changed cb h b : Eff St _).
Proof. unfold cwd_changed. steadily. Qed.

Lemma steady_enter_directory h : steady (enter_directory cb h : Eff St _).
Proof. unfold enter_directory. steadily; auto using steady_cwd_changed. Qed.

Lemma steady_names names : steady (names_array alloc_ok names : Eff St _).
Proof.
  unfold names_array, allocate_block, allocate. steadily.
  induction names as [|n names IH]; simpl; unfold allocate_block, allocate; steadily.
Qed.

Lemma steady_list_names include h : (forall o, steady (include o)) -> steady (list_names alloc_ok proxy_ok include h : Eff St _).
Proof. intros Hi. unfold list_names. steadily; auto using steady_names. apply steady_owned. intros. steadily; auto. Qed.

Lemma steady_object_metadata b h : steady (object_metadata proxy_ok b h : Eff St _).
Proof.
  intros s. pose proof (steady_owned h (fun o => fret (default (if b then 16877 else 33188, 0, 0) (unix_metadata o)))
    ltac:(done) s) as Ho. unfold object_metadata. by destruct (owned_proxy _ _ _ s) as [[]].
Qed.

Lemma steady_namespace_root o : steady (directory_is_namespace_root alloc_ok proxy_ok o : Eff St _).
Proof.
  unfold directory_is_namespace_root. apply steady_bind; [done|]. intros v s.
  pose proof (steady_directory_path (root_handle v) s) as Hd. unfold directory_path in Hd.
  by destruct (proxy_from_borrowed _ _ _ _ s) as [[]].
Qed.

(** Only a change of the user id sets the flag. *)
Lemma steady_posix_call c :
  (forall uid gid, c <> SetCredentials uid gid) -> steady (posix_call alloc_ok proxy_ok cb c : Eff St unit).
Proof.
  intros Hc. destruct c; simpl; try (by destruct (Hc uid gid)); unfold forget; (apply steady_bind; [|done]).
  - unfold posix_get_interface. steadily.
  - done.
  - done.
  - unfold posix_get_cwd, allocate_block, allocate. steadily; auto.
  - unfold posix_change_directory, clone, handle_clone, allocate.
    steadily; auto using steady_cwd_changed, steady_enter_directory.
  - unfold posix_authenticate. steadily; auto.
  - unfold posix_spawn, spawn, resolve_spawn_path, allocate_block, allocate. steadily; auto.
    apply steady_resolve_path. steadily.
  - unfold posix_spawn_inherited, spawn, resolve_spawn_path, allocate_block, allocate. steadily; auto.
    apply steady_resolve_path. steadily.
  - unfold posix_wait. steadily; auto.
  - unfold posix_stat_path. steadily; auto using steady_object_metadata.
    apply steady_resolve_path. intros. unfold open_either. steadily; auto.
  - unfold posix_list_directory.
    steadily; auto using steady_names; (intros; apply steady_list_names; steadily; auto using steady_namespace_root).
  - unfold posix_write. steadily; auto.
  - unfold posix_read, allocate_block, allocate. steadily; auto.
  - unfold posix_open. steadily; auto.
  - unfold posix_close. steadily.
  - unfold posix_seek, seek_memory, seek_file, int64. steadily; auto.
  - unfold posix_allocate_pages. steadily; auto.
  - unfold posix_free_pages. steadily; auto.
  - unfold posix_exit. steadily; auto.
Qed.

Lemma set_credentials_denied uid gid (s : St) :
  view_admin (p_view s) = false -> posix_set_credentials cb uid gid s = (Ok (Failed EPERM), s).
Proof.
  intros Ha. unfold posix_set_credentials, fbind, the_view, fget. simpl. rewrite Ha.
  rewrite orb_true_r. done.
Qed.

Lemma open_shadow_denied path flags (s : St) :
  view_admin (p_view s) = false -> path <> [] -> synthetic_file (p_view s) path = Some VIRTUAL_SHADOW ->
  exists e, posix_open alloc_ok proxy_ok path flags s = (Ok (Failed e), s).
Proof.
  intros Ha Hp Hs. unfold posix_open. destruct path as [|x path]; [done|].
  destruct (_ || _)%bool; [by eexists|]. unfold fbind, the_view, fget. simpl.
  destruct (free_slot _); [|by eexists]. rewrite Hs, Ha. simpl. by eexists.
Qed.

Lemma serves_admin s calls s' :
  view_admin (p_view s) = false -> serves alloc_ok proxy_ok cb s calls s' -> view_admin (p_view s') = false.
Proof.
  intros Ha Hs. induction Hs as [|s c calls r s1 s2 _ Hc _ IH]; [done|]. apply IH.
  assert (Hdec : (exists uid gid, c = SetCredentials uid gid) \/ (forall uid gid, c <> SetCredentials uid gid)).
  { destruct c; try (right; congruence). left. eauto. }
  destruct Hdec as [(uid & gid & ->)|Hne].
  - simpl in Hc. unfold forget, fbind in Hc. rewrite set_credentials_denied in Hc by done. by injection Hc as <- <-.
  - pose proof (steady_posix_call c Hne s) as Hst. rewrite Hc in Hst. simpl in Hst. congruence.
Qed.

(** C9: A process that has given up its rights does not get them back: once the view
    is not an administrator's, no sequence of calls makes it one, every further
    change of credentials is refused without asking the process manager, and the
    shadow text of the view cannot be opened under the names that stand for it
    (/etc/shadow in a view with a root directory, and shadow while the current
    directory is the view's etc).  Other spellings of the path, such as /etc//shadow,
    are not names of this text: they are opened in the file store, which guards its
    own shadow file when it is read. *)
Theorem posix_rights_not_regained s calls s' :
  view_admin (p_view s) = false -> serves alloc_ok proxy_ok cb s calls s' ->
  view_admin (p_view s') = false /\
  (forall uid gid, posix_set_credentials cb uid gid s' = (Ok (Failed EPERM), s')) /\
  (forall path flags, path <> [] -> synthetic_file (p_view s') path = Some VIRTUAL_SHADOW ->
     exists e, posix_open alloc_ok proxy_ok path flags s' = (Ok (Failed e), s')).
Proof.
  intros Ha Hs. pose proof (serves_admin s calls s' Ha Hs) as Ha'. split_and!; [done| |].
  - intros uid gid. by apply set_credentials_denied.
  - intros path flags. by apply open_shadow_denied.
Qed.

(** ** Reading a virtual file *)

(** Read until nothing comes, as [cat] does. *)
Fixpoint read_to_end (fuel : nat) (fd maximum : Z) : Eff St bytes :=
  match fuel with
  | 0%nat => fret []
  | Datatypes.S n =>
      fbind (posix_read alloc_ok proxy_ok fd maximum) (fun r =>
      match r with
      | Done (x :: data) => fbind (read_to_end n fd maximum) (fun rest => fret (x :: data ++ rest))
      | _ => fret []
      end)
  end.

Definition memory_at (s : St) (fd : Z) (text : bytes) (position : Z) : Prop :=
  0 <= fd < 64 /\ exists d, descriptors (p_view s) !! Z.to_nat fd = Some d /\
    kind d = DESCRIPTOR_MEMORY /\ memory d = text /\ offset d = position.

Lemma memory_descriptor s fd text position :
  memory_at s fd text position ->
  exists d, descriptor_of fd (p_view s) = Some d /\ kind d = DESCRIPTOR_MEMORY /\ memory d = text /\ offset d = position.
Proof.
  intros (Hf & d & Hl & Hk & Hm & Ho). exists d. split; [|done]. unfold descriptor_of.
  rewrite (proj2 (Z.ltb_ge fd 0)), (proj2 (Z.leb_gt (Z.of_nat POSIX_DESCRIPTOR_COUNT) fd)) by (unfold POSIX_DESCRIPTOR_COUNT; lia).
  simpl. rewrite Hl, bool_decide_false by congruence. done.
Qed.

Lemma read_memory_step s fd text position maximum :
  (forall n, alloc_ok n = true) -> memory_at s fd text position ->
  0 <= position <= zlen text -> 0 < maximum -> zlen text < 2 ^ 64 ->
  exists s', posix_read alloc_ok proxy_ok fd maximum s =
    (Ok (Done (firstn (Z.to_nat maximum) (skipn (Z.to_nat position) text))), s') /\
    memory_at s' fd text (position + zlen (firstn (Z.to_nat maximum) (skipn (Z.to_nat position) text))).
Proof.
  intros Hok Hm Hp Hmax Hlen. destruct (memory_descriptor _ _ _ _ Hm) as (d & Hd & Hk & Ht & Ho).
  assert (Hr : read_memory d maximum = firstn (Z.to_nat maximum) (skipn (Z.to_nat position) text)).
  { unfold read_memory. rewrite Ht, Ho. destruct (Z.ltb_spec position (zlen text)).
    - destruct (Z.le_ge_cases maximum (zlen text - position)).
      + by rewrite Z.min_r.
      + rewrite Z.min_l by lia. rewrite !firstn_all2; [done|rewrite length_skipn; unfold zlen in *; lia..].
    - rewrite Z.min_l by lia. rewrite skipn_all2 by (unfold zlen in *; lia). by rewrite !firstn_nil. }
  set (data := firstn (Z.to_nat maximum) (skipn (Z.to_nat position) text)) in *.
  assert (Hsize : position + zlen data <= zlen text).
  { unfold data, zlen in *. rewrite length_take, length_skipn. lia. }
  assert (Hu : u64 (offset d + zlen data) = position + zlen data).
  { rewrite Ho. unfold u64. apply Z.mod_small. pose proof (zlen_nonneg data). lia. }
  assert (Hafter : forall w, memory_at (mkPosix w (set_descriptor fd (at_offset (position + zlen data) d) (p_view s)) (p_context s))
                     fd text (position + zlen data)).
  { intros w. destruct Hm as (Hf & d' & Hl & _). split; [done|]. eexists. simpl.
    rewrite list_lookup_insert_eq by (by eapply lookup_lt_Some). done. }
  unfold posix_read, fbind, the_view, fget. simpl. unfold id. rewrite Hd, Hk, Hr.
  destruct (length data =? 0)%nat.
  - simpl. rewrite Hu. eexists. split; [reflexivity|]. apply Hafter.
  - unfold allocate_block, allocate, ask. rewrite Hok. simpl. rewrite Hu. eexists. split; [reflexivity|]. apply Hafter.
Qed.

Lemma read_to_end_text fuel s fd text position maximum :
  (forall n, alloc_ok n = true) -> memory_at s fd text position ->
  0 <= position <= zlen text -> 0 < maximum -> zlen text < 2 ^ 64 -> zlen text - position < Z.of_nat fuel ->
  fst (read_to_end fuel fd maximum s) = Ok (skipn (Z.to_nat position) text).
Proof.
  intros Hok. revert s position. induction fuel as [|n IH]; intros s position Hm Hp Hmax Hlen Hf; [lia|].
  destruct (read_memory_step s fd text position maximum Hok Hm Hp Hmax Hlen) as (s1 & Hr & Hm1).
  set (data := firstn (Z.to_nat maximum) (skipn (Z.to_nat position) text)) in *.
  assert (Hd : skipn (Z.to_nat position) text = data ++ skipn (Z.to_nat (position + zlen data)) text).
  { unfold data at 1. rewrite <- (firstn_skipn (Z.to_nat maximum) (skipn (Z.to_nat position) text)) at 1. f_equal.
    rewrite skipn_skipn. unfold data, zlen in *. rewrite length_take, length_skipn.
    destruct (Z.le_ge_cases maximum (zlen text - position)) as [Hl|Hl]; unfold zlen in Hl.
    - f_equal. lia.
    - rewrite !skipn_all2 by lia. done. }
  simpl. unfold fbind. rewrite Hr. destruct data as [|x tail] eqn:Edata.
  - simpl. rewrite Hd. simpl. rewrite skipn_all2; [done|]. 
    assert (length (firstn (Z.to_nat maximum) (skipn (Z.to_nat position) text)) = 0%nat) as Hz by (fold data; by rewrite Edata).
    rewrite length_take, length_skipn in Hz. unfold zlen in *. simpl. lia.
  - rewrite Hd.
    assert (Hz : zlen (x :: tail) <= zlen text - position).
    { rewrite <- Edata. unfold data, zlen in *. rewrite length_take, length_skipn. lia. }
    rewrite zlen_cons in *. pose proof (zlen_nonneg tail).
    specialize (IH s1 (position + (1 + zlen tail)) Hm1 ltac:(lia) Hmax Hlen ltac:(lia)).
    destruct (read_to_end n fd maximum s1) as [[rest|c|] s2]; simpl in *; try done.
    injection IH as ->. done.
Qed.

Lemma free_slot_used l slot : free_slot l = Some slot -> (slot < length l)%nat.
Proof. intros (_ & (d & Hd & _) & _)%free_slot_spec. by eapply lookup_lt_Some. Qed.

Lemma synthetic_file_named v path f : synthetic_file v path = Some f -> path <> [].
Proof. intros Hs ->. unfold synthetic_file in Hs. destruct (chrooted v), (cwd_synthetic_etc v); done. Qed.

(** Only the access mode and the flags that would change a file matter. *)
Definition read_only (flags : Z) : Prop :=
  Z.land flags O_ACCMODE = O_RDONLY /\ Z.land flags (Z.lor O_CREAT (Z.lor O_TRUNC O_APPEND)) = 0.

Lemma open_virtual path flags f slot (s : St) :
  synthetic_file (p_view s) path = Some f -> (f = VIRTUAL_SHADOW -> view_admin (p_view s) = true) ->
  read_only flags -> free_slot (descriptors (p_view s)) = Some slot ->
  posix_open alloc_ok proxy_ok path flags s = (Ok (Done (Z.of_nat slot)),
    mkPosix (p_world s) (set_descriptor (Z.of_nat slot) (mkDescriptor DESCRIPTOR_MEMORY 0 0 (virtual_text (p_view s) f))
      (p_view s)) (p_context s)).
Proof.
  intros Hs Ha [Hm Hf] Hslot. pose proof (synthetic_file_named _ _ _ Hs) as Hp. unfold posix_open.
  destruct path as [|x path]; [done|]. rewrite Hm, Hf. simpl. unfold fbind, the_view, fget. simpl.
  unfold id. rewrite Hslot, Hs. case_bool_decide as Hc; simpl; [|done]. by rewrite Ha.
Qed.

(** C10: A virtual file of the view can be read to its end.  When the path is one of
    its names, the process may read it (the shadow file needs an administrator's view),
    the flags ask for reading only, a descriptor is free, memory lasts and the text is
    shorter than 2^64 bytes, then opening it gives the first free descriptor, and
    reading from that in pieces of any positive size, as long as bytes come, ends after
    at most one read more than the file has bytes and yields exactly the text of the
    file. *)
Theorem posix_virtual_file_read_to_end s path flags f slot piece fuel :
  (forall n, alloc_ok n = true) -> length (descriptors (p_view s)) = POSIX_DESCRIPTOR_COUNT ->
  synthetic_file (p_view s) path = Some f -> (f = VIRTUAL_SHADOW -> view_admin (p_view s) = true) ->
  read_only flags -> free_slot (descriptors (p_view s)) = Some slot ->
  zlen (virtual_text (p_view s) f) < 2 ^ 64 -> 0 < piece -> zlen (virtual_text (p_view s) f) < Z.of_nat fuel ->
  exists s', posix_open alloc_ok proxy_ok path flags s = (Ok (Done (Z.of_nat slot)), s') /\
    fst (read_to_end fuel (Z.of_nat slot) piece s') = Ok (virtual_text (p_view s) f).
Proof.
  intros Hok Hlen Hs Ha Hro Hslot Hsize Hpiece Hfuel. eexists. split; [by apply open_virtual|].
  set (text := virtual_text (p_view s) f) in *. pose proof (zlen_nonneg text).
  pose proof (free_slot_used _ _ Hslot) as Hlt. rewrite Hlen in Hlt. unfold POSIX_DESCRIPTOR_COUNT in *.
  rewrite (read_to_end_text fuel _ _ text 0); [done|done| |lia..]. split; [lia|]. eexists. simpl.
  rewrite Nat2Z.id, list_lookup_insert_eq by lia. done.
Qed.

(** ** Calls that go wrong *)

(** In the synthetic directory every path but the synthetic ones is missing for
    [stat], also an absolute one that [open] finds. *)
Lemma posix_stat_misses_files path (s : St) :
  path <> [] -> cwd_synthetic_etc (p_view s) = true ->
  synthetic_directory (p_view s) path = false -> synthetic_file (p_view s) path = None ->
  posix_stat_path alloc_ok proxy_ok path s = (Ok (Failed ENOENT), s).
Proof.
  intros Hp Hc Hd Hf. unfold posix_stat_path. destruct path; [done|]. unfold fbind, the_view, fget. simpl.
  unfold id. by rewrite Hd, Hf, Hc.
Qed.

(** When the proxy of a cloned handle cannot be made, the clone is released twice. *)
Lemma proxy_failure_releases_twice {A} h o (use : O -> Eff St A) (s : St) :
  h <> 0 -> live (p_world s) !! h = Some o -> next_fresh (p_world s) <> 0 -> alloc_ok (steps (p_world s)) = true ->
  proxy_ok (S (steps (p_world s))) = false -> fst (proxy_from_borrowed alloc_ok proxy_ok h use s) = Fault.
Proof.
  intros Hh Ho Hn Ha Hp. unfold proxy_from_borrowed, clone, handle_clone, ftry, allocate, ask, fbind, object_of.
  rewrite (proj2 (Z.eqb_neq h 0)) by done. simpl. rewrite Ho. simpl. rewrite Ha. simpl. rewrite Hp. simpl.
  unfold handle_release. rewrite (proj2 (Z.eqb_neq (next_fresh _) 0)) by done. unfold fbind, object_of. simpl.
  rewrite lookup_insert_eq. simpl. by rewrite lookup_delete_eq.
Qed.

(** Seeking forward in a virtual file beyond the largest offset overflows. *)
Lemma seek_memory_overflows fd d delta whence (s : St) :
  descriptor_of fd (p_view s) = Some d -> kind d = DESCRIPTOR_MEMORY -> 0 <= delta -> seek_overflows d delta whence ->
  fst (posix_seek alloc_ok proxy_ok fd delta whence s) = Fault.
Proof.
  intros Hd Hk Hz Ho. unfold seek_overflows in Ho. rewrite Hk in Ho. destruct Ho as (base & Hb & H0 & Hbig).
  pose proof (seek_base_range _ _ _ _ Hb) as Hr.
  unfold posix_seek, fbind, the_view, fget. simpl. unfold id. rewrite Hd, Hk. unfold seek_memory. rewrite Hb. simpl.
  unfold int64, fbind, INT64_LEAST, INT64_MOST in *.
  rewrite (proj2 (Z.ltb_ge base 0)), (proj2 (Z.leb_le _ (- base))), (proj2 (Z.leb_le (- base) _)) by lia. simpl.
  rewrite (proj2 (Z.ltb_ge delta _)) by lia. simpl.
  rewrite (proj2 (Z.leb_gt (base + delta) _)) by lia. by rewrite andb_false_r.
Qed.

End Rights.

(** ** Tearing a view down *)

Section Teardown.
Context {O X : Type} `{PosixServices O}.

Notation St := (PosixState O X).
Notation lv s := (live (p_world s)).

Lemma release_descriptors_all l hs (s : PosixState O X) :
  (forall d, d ∈ l -> kind d = DESCRIPTOR_UNUSED -> handle d = 0) -> releasable ((handle <$> l) ++ hs) s ->
  exists s', release_descriptors l s = (Ok tt, s') /\ released (handle <$> l) s s' /\ releasable hs s'.
Proof.
  revert s. induction l as [|d l IH]; intros s Hu Hr.
  { exists s. split_and!; [done|apply released_nil|done]. }
  destruct (release_one (handle d) (map handle l ++ hs) s Hr) as (s1 & H1 & R1).
  destruct (IH s1) as (s2 & H2 & R2 & Hs2); [|exact (releasable_after _ _ _ _ Hr R1)|].
  { intros d' Hd'. apply Hu. by right. }
  exists s2. split_and!; [|by apply (released_trans [handle d] _ s s1 s2)|done].
  simpl. unfold fbind. case_bool_decide as Hk; [|by rewrite H1].
  unfold handle_release in H1. rewrite (Hu d) in H1 by (done || by left). by injection H1 as <-.
Qed.

Lemma view_releasable (s : PosixState O X) :
  view_ok s -> releasable (view_handle (p_view s) :: (handle <$> skipn 3 (descriptors (p_view s))) ++
                           [cwd_handle (p_view s); root_handle (p_view s)]) s.
Proof.
  intros Hv. set (hs := _ :: _).
  assert (Hp : hs ≡ₚ slots (p_view s)).
  { unfold hs, slots. by rewrite <- (Permutation_app_comm [cwd_handle (p_view s); root_handle (p_view s)]). }
  unfold releasable, present. rewrite Hp. split; [|apply once_NoDup, Hv].
  apply Forall_forall. intros h [Hn Hin]%list_elem_of_filter. by apply (vk_live _ Hv).
Qed.

(** Tearing a view down releases what the view owns, once each, and nothing else:
    its own handle, its two directories and the files behind its descriptors; the
    standard streams and the handles lent to it stay with their owners. *)
Theorem posix_view_destroy_releases (s : PosixState O X) :
  view_ok s -> exists s', dominit0_posix_view_destroy s = (Ok tt, s') /\
    forall h, live (p_world s') !! h = if decide (h <> 0 /\ h ∈ slots (p_view s)) then None else live (p_world s) !! h.
Proof.
  intros Hv. pose proof (view_releasable s Hv) as Hr. set (v := p_view s) in *.
  destruct (release_one _ _ _ Hr) as (s1 & H1 & R1). pose proof (releasable_after _ _ _ _ Hr R1) as Hr1.
  destruct (release_descriptors_all _ _ _ ltac:(intros d Hd; apply (vk_unused _ Hv); by eapply (subseteq_drop 3)) Hr1) as (s2 & H2 & R2 & Hr2).
  destruct (release_one _ _ _ Hr2) as (s3 & H3 & R3). pose proof (releasable_after _ _ _ _ Hr2 R3) as Hr3.
  destruct (release_one _ _ _ Hr3) as (s4 & H4 & R4).
  exists s4. split.
  { unfold dominit0_posix_view_destroy, fbind, the_view, fget. simpl. unfold id. unfold v in *. rewrite H1. cbn beta iota. rewrite H2. cbn beta iota. rewrite H3. done. }
  assert (R : released ([view_handle v] ++ (handle <$> drop 3 (descriptors v)) ++ [cwd_handle v] ++ [root_handle v]) s s4).
  { apply (released_trans _ _ s s1 s4 R1), (released_trans _ _ s1 s2 s4 R2). by apply (released_trans _ _ s2 s3 s4). }
  intros h. pose proof (released_live _ _ _ h R) as Rh. simpl in Rh. rewrite Rh.
  assert (Hs : h ∈ [view_handle v] ++ (handle <$> drop 3 (descriptors v)) ++ [cwd_handle v] ++ [root_handle v] <-> h ∈ slots v).
  { unfold slots. rewrite !elem_of_cons, !elem_of_app, !elem_of_cons. set_solver. }
  destruct (decide _), (decide _); naive_solver.
Qed.

(** The invariant of a view, as a test. *)
Lemma view_ok_test (s : St) :
  0 < next_fresh (p_world s) ->
  map_Forall (fun h _ => 0 < h < next_fresh (p_world s)) (lv s) ->
  length (descriptors (p_view s)) = POSIX_DESCRIPTOR_COUNT ->
  Forall (fun h => is_Some (lv s !! h)) (present (slots (p_view s))) -> NoDup (present (slots (p_view s))) ->
  Forall (fun h => h = 0 \/ is_Some (lv s !! h) /\ h ∉ slots (p_view s)) (lent (p_view s)) ->
  Forall (fun d => kind d = DESCRIPTOR_UNUSED -> handle d = 0) (descriptors (p_view s)) -> view_ok s.
Proof.
  intros Hn Hw Hlen Hl Hd Hlent Hu. rewrite Forall_forall in Hl. rewrite Forall_forall in Hlent. rewrite Forall_forall in Hu. split; try done.
  - intros h [Hh Hin]. apply Hl, list_elem_of_filter. done.
  - by apply once_NoDup.
  - intros h [->|[Hlive Hno]]%Hlent; (split; [|intros [? ?]]); try done; [by left|by right].
Qed.

End Teardown.

(** ** A view on sample services *)

(** Objects that are their paths; every directory has one file. *)
#[local] Instance sample_services : PosixServices bytes := {
  dir_path o := inl o;
  dir_open_directory o rel := inl (o ++ 47 :: rel);
  dir_open_file o rel := if rel =b B "motd" then inl (o ++ 47 :: rel) else inr FACET_NOT_FOUND;
  dir_list o := inl [B "motd"];
  file_read_bytes o at_byte maximum := inl (firstn (Z.to_nat maximum) (skipn (Z.to_nat at_byte) o));
  file_size_of o := inl (zlen o);
  unix_metadata o := None;
  stream_read t o maximum := inl [];
  stream_write t o data := inl (zlen data);
  page_alloc t o count := inl 4096;
  page_free t o count base := inl tt;
  notify_exit t o status := inl tt
}.

Definition sample_callbacks : Callbacks unit :=
  mkCallbacks unit (fun _ _ _ x => (inl (Done 2), x)) (fun _ x => (inl (Failed ECHILD), x)) (fun _ _ _ _ x => (true, x))
    (fun _ _ x => (true, x)) (fun _ _ _ x => (inr FACET_ACCESS_DENIED, x)).

Definition always (n : nat) : bool := true.

(** A view as the process manager sets it up: streams 1 and 2, the view itself, its
    directories, a page allocator and a lifecycle. *)
Definition sample_view (admin : bool) : PosixView :=
  mkView 3 4 5 true false posix_passwd posix_shadow posix_fstab 6 7 1 2 true admin true
    (mkDescriptor DESCRIPTOR_INPUT 1 0 [] :: mkDescriptor DESCRIPTOR_OUTPUT 2 0 [] ::
     mkDescriptor DESCRIPTOR_OUTPUT 2 0 [] :: repeat unused_descriptor 61).

Definition sample_state (admin : bool) : PosixState bytes unit :=
  mkPosix (mkWorld (list_to_map [(1, B "in"); (2, B "out"); (3, B "view"); (4, B "/posix/home"); (5, B "/posix");
                                 (6, B "pages"); (7, B "life")]) 8 0)
    (sample_view admin) tt.

Lemma sample_state_ok admin : view_ok (sample_state admin).
Proof.
  apply view_ok_test; destruct admin; try reflexivity; by_decide.
Qed.

(** The state after a sequence of calls. *)
Fixpoint run_calls {O X} `{PosixServices O} (alloc_ok proxy_ok : nat -> bool) (cb : Callbacks X) (s : PosixState O X)
    (calls : list PosixCall) : PosixState O X :=
  match calls with
  | [] => s
  | c :: rest => run_calls alloc_ok proxy_ok cb (snd (posix_call alloc_ok proxy_ok cb c s)) rest
  end.

(** Calls without a seek fit in every state. *)
Definition seekless (c : PosixCall) : bool := match c with SeekFd _ _ _ => false | _ => true end.

Lemma serves_run {O X} `{PosixServices O} alloc_ok proxy_ok (cb : Callbacks X) (s : PosixState O X) calls :
  forallb seekless calls = true -> serves alloc_ok proxy_ok cb s calls (run_calls alloc_ok proxy_ok cb s calls).
Proof.
  revert s. induction calls as [|c calls IH]; intros s Hc; [constructor|]. simpl in Hc. bool_props.
  destruct (posix_call alloc_ok proxy_ok cb c s) as [r s1] eqn:E.
  apply serves_cons with r s1; [by destruct c|done|]. simpl. rewrite E. by apply IH.
Qed.

Definition sample_calls : list PosixCall :=
  [OpenFd (B "/motd") 0; ReadFd 3 4; ChangeDirectory (B "sub"); OpenFd (B "/etc/passwd") 0; CloseFd 3].

Definition sample_after (admin : bool) : PosixState bytes unit :=
  run_calls always always sample_callbacks (sample_state admin) sample_calls.


(** When memory for a proxy of the root directory is refused, a relative path from a
    directory beneath the root is passed on unchanged, with its parents. *)
Theorem posix_path_escapes_without_memory :
  fst (resolve_names (fun n => negb (n =? 0)%nat) always (B "../../../dominit0") (sample_state true)) =
    Ok (false, B "../../../dominit0").
Proof. vm_compute. reflexivity. Qed.

Lemma posix_view_handles_accounted_witness :
  view_ok (sample_after true) /\ accounted (sample_state true) (sample_after true) /\
  live (p_world (sample_after true)) !! 4 = None /\ owns (p_view (sample_after true)) (cwd_handle (p_view (sample_after true))).
Proof.
  destruct (posix_view_handles_accounted always always sample_callbacks (fun _ => eq_refl) (sample_state true) sample_calls
    (sample_after true) (sample_state_ok true) (serves_run _ _ _ _ sample_calls eq_refl)) as (Hv & Ha & _).
  split; [exact Hv|]. split; [exact Ha|]. split; [vm_compute; reflexivity|by_decide].
Defined.

Lemma posix_rights_not_regained_witness :
  view_admin (p_view (sample_after false)) = false /\
  posix_set_credentials sample_callbacks 0 0 (sample_after false) = (Ok (Failed EPERM), sample_after false).
Proof.
  destruct (posix_rights_not_regained always always sample_callbacks (sample_state false) sample_calls (sample_after false)
    eq_refl (serves_run _ _ _ _ sample_calls eq_refl)) as (Ha & Hc & _).
  split; [exact Ha|apply Hc].
Defined.

Lemma posix_virtual_file_read_to_end_witness :
  exists s', posix_open always always (B "/etc/fstab") 0 (sample_state false) = (Ok (Done 3), s') /\
    fst (read_to_end always always 100 3 7 s') = Ok posix_fstab.
Proof.
  apply (posix_virtual_file_read_to_end always always (sample_state false) (B "/etc/fstab") 0 VIRTUAL_FSTAB 3 7 100);
    (reflexivity || discriminate || (split; reflexivity)).
Defined.

Lemma posix_view_destroy_releases_witness :
  exists s', dominit0_posix_view_destroy (sample_state true) = (Ok tt, s') /\
    live (p_world s') !! 4 = None /\ live (p_world s') !! 1 = Some (B "in").
Proof.
  destruct (posix_view_destroy_releases (sample_state true) (sample_state_ok true)) as (s' & Hs & Hl).
  exists s'. split; [exact Hs|]. split; rewrite Hl; vm_compute; reflexivity.
Defined.
