(* ===== verification/Environment.v ===== *)
(** The environment of a domain (src/src/dominit0/environment.c): the capabilities
    that its processes find by name, the services it publishes, its logger, and the
    set up of all environments.

    A name that is null or has no data is [None].  The identifiers of the interfaces
    come from generated headers; they are arguments.  An out parameter is part of
    the result, with 0 for the null handle. *)
From stdpp Require Import gmap.
From S2P Require Import Prelude Utf8 ConfigTypes Klog Logging Effects Handles Initrd.

Definition DOMINIT0_EXTRA_BINDINGS_MAX : nat := 16.

Abbreviation iid := bytes.

Record ProcessBindingEntry := mkEntry {
  entry_name : bytes;
  primary_iid : iid;
  entry_handle : Z
}.

(** What the configuration of the domain answers. *)
Record DomainConfig := mkDomainConfig {
  getdomain_id : Z + FacetResult;
  getdomain_name : bytes + FacetResult;
  getpersonality : Z + FacetResult;
  domain_logging : ILoggingConfig
}.

Record DomainEnvironment := mkEnvironment {
  env_config : DomainConfig;
  environment_handle : Z;
  process_environment_handle : Z;
  logger_handle : Z;
  domain_config_handle : Z;
  env_page_allocator : Z;
  file_store_handle : Z;
  env_initrd : option FacetInitrd;
  extra_bindings : list ProcessBindingEntry
}.

Definition set_extra_bindings (l : list ProcessBindingEntry) (e : DomainEnvironment) : DomainEnvironment :=
  mkEnvironment (env_config e) (environment_handle e) (process_environment_handle e) (logger_handle e)
    (domain_config_handle e) (env_page_allocator e) (file_store_handle e) (env_initrd e) l.
Definition set_env_page_allocator (h : Z) (e : DomainEnvironment) : DomainEnvironment :=
  mkEnvironment (env_config e) (environment_handle e) (process_environment_handle e) (logger_handle e)
    (domain_config_handle e) h (file_store_handle e) (env_initrd e) (extra_bindings e).
Definition set_file_store (i : FacetInitrd) (h : Z) (e : DomainEnvironment) : DomainEnvironment :=
  mkEnvironment (env_config e) (environment_handle e) (process_environment_handle e) (logger_handle e)
    (domain_config_handle e) (env_page_allocator e) h (Some i) (extra_bindings e).

(** A domain of the system: whether its current state is valid, its configuration,
    the handle of that, and its environment. *)
Record CurrentDomain := mkCurrent {
  current_valid : bool;
  current_config : DomainConfig;
  current_config_handle : Z;
  current_environment : option DomainEnvironment
}.

Definition set_current_environment (e : option DomainEnvironment) (d : CurrentDomain) : CurrentDomain :=
  mkCurrent (current_valid d) (current_config d) (current_config_handle d) e.

Record EnvState (O : Type) := mkEnvState { es_world : World O; es_domains : list CurrentDomain }.
Arguments mkEnvState {O}.
Arguments es_world {O}.
Arguments es_domains {O}.

#[global] Instance env_worldly O : Worldly (EnvState O) O := {
  world := es_world;
  set_world w s := mkEnvState w (es_domains s)
}.

#[global] Instance env_worldly_laws O : WorldlyLaws (EnvState O) O.
Proof. split; [done..|]. by intros []. Qed.

(** ** Names *)

Definition valid_name (name : option bytes) : bool :=
  match name with
  | None => false
  | Some n => negb (length n =? 0)%nat && (length n <=? 127)%nat && facet_utf8_is_valid (Some n) (length n)
  end.

Definition name_equal (name literal : bytes) : bool := name =b literal.

Section Environment.
Context (IID_IGenericObject IID_IDomainEnvironment IID_IProcessEnvironment IID_ILogger : iid).
Context (IID_IPageAllocator IID_IDomainConfig IID_IFileStore : iid).

Definition return_handle (handle : Z) : FacetResult * Z :=
  if handle =? 0 then (FACET_INVALID_HANDLE, 0) else (FACET_OK, handle).

Definition environment_get_interface (e : DomainEnvironment) (i : iid) : FacetResult * Z :=
  if ((i =b IID_IGenericObject) || (i =b IID_IDomainEnvironment))%bool then return_handle (environment_handle e)
  else if i =b IID_IProcessEnvironment then return_handle (process_environment_handle e)
  else (FACET_NO_INTERFACE, 0).

(** The object that a name denotes, if any. *)
Definition find_binding_entry (name : bytes) (l : list ProcessBindingEntry) : option ProcessBindingEntry :=
  find (fun entry => name_equal name (entry_name entry)) l.

Definition lookup_binding (e : DomainEnvironment) (name : bytes) : option (iid * Z) :=
  if name_equal name (B "logger") then Some (IID_ILogger, logger_handle e)
  else if name_equal name (B "memory.pages") then Some (IID_IPageAllocator, env_page_allocator e)
  else if name_equal name (B "domain.config") then Some (IID_IDomainConfig, domain_config_handle e)
  else if name_equal name (B "files") then Some (IID_IFileStore, file_store_handle e)
  else (fun entry => (primary_iid entry, entry_handle entry)) <$> find_binding_entry name (extra_bindings e).

(** The code, and what was stored in the out parameters. *)
Definition process_binding (e : DomainEnvironment) (name : option bytes) : FacetResult * option (iid * Z) :=
  match name with
  | Some n =>
      if negb (valid_name name) then (FACET_INVALID_ARGUMENT, None)
      else match lookup_binding e n with
           | Some (i, h) => (if h =? 0 then FACET_INVALID_HANDLE else FACET_OK, Some (i, h))
           | None => (FACET_NO_INTERFACE, None)
           end
  | None => (FACET_INVALID_ARGUMENT, None)
  end.

Definition environment_process_get_interface (e : DomainEnvironment) (i : iid) : FacetResult * Z :=
  if ((i =b IID_IGenericObject) || (i =b IID_IProcessEnvironment))%bool then return_handle (process_environment_handle e)
  else (FACET_NO_INTERFACE, 0).

Definition process_resolve (e : DomainEnvironment) (name : option bytes) : FacetResult * Z :=
  let (code, out) := process_binding e name in (code, match out with Some (_, h) => h | None => 0 end).

(** [None] when the out parameter keeps what it held. *)
Definition process_resolve_as (e : DomainEnvironment) (name : option bytes) (i : iid) : FacetResult * option Z :=
  let (code, out) := process_binding e name in
  if negb (bool_decide (code = FACET_OK)) then (code, snd <$> out)
  else match out with
       | Some (primary, h) => if primary =b i then (FACET_OK, Some h) else (FACET_NO_INTERFACE, Some 0)
       | None => (code, None)
       end.

Definition process_get_primary_iid (e : DomainEnvironment) (name : option bytes) : FacetResult * option iid :=
  let (code, out) := process_binding e name in (code, fst <$> out).

Definition process_get_advertised_iids (e : DomainEnvironment) (name : option bytes) : FacetResult * list iid :=
  let (code, out) := process_binding e name in
  if negb (bool_decide (code = FACET_OK)) then (code, []) else (code, match out with Some (i, _) => [i] | None => [] end).

Definition fixed_names : list bytes := [B "logger"; B "memory.pages"; B "domain.config"; B "files"].

(** The fixed names, as long as each of them is bound. *)
Fixpoint list_fixed (e : DomainEnvironment) (names : list bytes) : option (list (bytes * iid)) :=
  match names with
  | [] => Some []
  | n :: rest =>
      match process_binding e (Some n) with
      | (FACET_OK, Some (i, _)) => (fun l => (n, i) :: l) <$> list_fixed e rest
      | _ => None
      end
  end.

Definition process_list_bindings (e : DomainEnvironment) : FacetResult * list (bytes * iid) :=
  match list_fixed e fixed_names with
  | None => (FACET_INVALID_HANDLE, [])
  | Some l => (FACET_OK, l ++ map (fun entry => (entry_name entry, primary_iid entry)) (extra_bindings e))
  end.

Definition process_get_sysv_environment : FacetResult * list bytes :=
  (FACET_OK, [B "PATH=/FacetOS"; B "PWD=/"; B "USER=root"; B "HOME=/root"; B "SHELL=/FacetOS/FacetShell"]).

Definition environment_get_domain_id (e : DomainEnvironment) : Z + FacetResult := getdomain_id (env_config e).
Definition environment_get_domain_name (e : DomainEnvironment) : bytes + FacetResult := getdomain_name (env_config e).
Definition environment_get_personality (e : DomainEnvironment) : Z + FacetResult :=
  match getpersonality (env_config e) with inl p => inl (u32 p) | inr code => inr code end.
Definition environment_get_domain_config (e : DomainEnvironment) : FacetResult * Z := return_handle (domain_config_handle e).

(** ** Binding *)

(** [copied] tells whether the copy of the name could be allocated; the first result
    is that of the C function. *)
Definition dominit0_environment_bind_named (copied : bool) (e : DomainEnvironment) (name : option bytes) (i : iid) (object : Z)
  : Z * DomainEnvironment :=
  match name with
  | None => (-1, e)
  | Some n =>
      if ((length n =? 0)%nat || (127 <? length n)%nat || (object =? 0) ||
          negb (facet_utf8_is_valid (Some n) (length n)) ||
          (length (extra_bindings e) =? DOMINIT0_EXTRA_BINDINGS_MAX)%nat)%bool then (-1, e)
      else if bool_decide (fst (process_binding e (Some n)) = FACET_OK) then (-1, e)
      else if negb copied then (-1, e)
      else (0, set_extra_bindings (extra_bindings e ++ [mkEntry n i object]) e)
  end.

Definition dominit0_environment_resolve_named (e : DomainEnvironment) (name : option bytes) : FacetResult * option (iid * Z) :=
  match name with None => (FACET_INVALID_ARGUMENT, None) | Some n => process_binding e (Some n) end.

(** The name is copied with its length and read back as a string. *)
Definition environment_publish_service (copied : bool) (e : DomainEnvironment) (name : option bytes) (i : iid) (service : Z)
  : FacetResult * DomainEnvironment :=
  if ((service =? 0) || negb (valid_name name))%bool then (FACET_INVALID_ARGUMENT, e)
  else
    let (code, e') := dominit0_environment_bind_named copied e (cstring <$> name) i service in
    (if code =? 0 then FACET_OK else FACET_ACCESS_DENIED, e').

Definition environment_resolve_service (e : DomainEnvironment) (name : option bytes) (i : iid) : FacetResult * Z :=
  if negb (valid_name name) then (FACET_INVALID_ARGUMENT, 0)
  else
    match dominit0_environment_resolve_named e (cstring <$> name) with
    | (FACET_OK, Some (actual, h)) => if actual =b i then (FACET_OK, h) else (FACET_NO_INTERFACE, 0)
    | (code, out) => (code, match out with Some (_, h) => h | None => 0 end)
    end.

Definition dominit0_environment_bind_page_allocator (e : DomainEnvironment) (h : Z) : Z * DomainEnvironment :=
  if ((h =? 0) || negb (env_page_allocator e =? 0))%bool then (-1, e) else (0, set_env_page_allocator h e).

Definition dominit0_environment_bind_file_store (e : DomainEnvironment) (initrd : option FacetInitrd) (h : Z)
  : Z * DomainEnvironment :=
  match initrd with
  | None => (-1, e)
  | Some i => if ((h =? 0) || negb (file_store_handle e =? 0))%bool then (-1, e) else (0, set_file_store i h e)
  end.

(** ** The logger *)

Definition logger_get_interface (e : DomainEnvironment) (i : iid) : FacetResult * Z :=
  if ((i =b IID_IGenericObject) || (i =b IID_ILogger))%bool then return_handle (logger_handle e)
  else (FACET_NO_INTERFACE, 0).

Definition logger_log (env : KlogEnv) (l : LoggingState) (e : DomainEnvironment) (level : Z) (message : FacetString) : K FacetResult :=
  if (negb (fs_length message =? 0)%nat && bool_decide (fs_data message = None))%bool then kret FACET_INVALID_ARGUMENT
  else match environment_get_domain_id e with
       | inr code => kret code
       | inl domain_id =>
           dominit0_logging_emit env l (Some (domain_logging (env_config e))) domain_id level
             (literal (B "dominit")) message
       end.

Definition logger_flush : FacetResult := FACET_OK.

(** ** All environments *)

Context {O : Type} (alloc_ok : nat -> bool) (logger_object process_object environment_object : nat -> O).

Abbreviation St := (EnvState O).

Definition set_environment (i : nat) (e : option DomainEnvironment) : Eff St unit :=
  fput (fun s => mkEnvState (es_world s) (alter (set_current_environment e) i (es_domains s))).

(** The null handle is skipped. *)
Definition unexport (h : Z) : Eff St unit := handle_release h.

Fixpoint destroy_environments (ds : list CurrentDomain) (i : nat) : Eff St unit :=
  match ds with
  | [] => fret tt
  | d :: rest =>
      match current_environment d with
      | None => destroy_environments rest (S i)
      | Some e =>
          unexport (environment_handle e) ;;
          unexport (logger_handle e) ;;
          unexport (process_environment_handle e) ;;
          set_environment i None ;;
          destroy_environments rest (S i)
      end
  end.

Definition dominit0_environment_destroy : Eff St unit :=
  run ds <- fget es_domains; destroy_environments ds 0.

(** The three exports of one environment; what was exported is withdrawn on failure. *)
Definition export_environment (i : nat) : Eff St (Z * Z * Z) :=
  run logger <- export_interface alloc_ok (logger_object i);
  ftry (export_interface alloc_ok (process_object i))
    (fun process =>
       ftry (export_interface alloc_ok (environment_object i))
         (fun environment => fret (logger, process, environment))
         (unexport logger ;; unexport process ;; ferr FACET_ERROR))
    (unexport logger ;; ferr FACET_ERROR).

Definition initialize_environment (i : nat) (d : CurrentDomain) : Eff St unit :=
  if negb (current_valid d) then ferr FACET_ERROR
  else
    run ok <- allocate alloc_ok;
    if negb ok then ferr FACET_ERROR
    else
      run h <- export_environment i;
      let '(logger, process, environment) := h in
      set_environment i (Some (mkEnvironment (current_config d) environment process logger (current_config_handle d)
                                 0 0 None [])).

Fixpoint initialize_environments (ds : list CurrentDomain) (i : nat) : Eff St unit :=
  match ds with
  | [] => fret tt
  | d :: rest => initialize_environment i d ;; initialize_environments rest (S i)
  end.

(** The loop of [dominit0_environment_initialize] and its clean up; the exports of the
    configuration come first (EnvironmentStart.v). *)
Definition start_environments : Eff St unit :=
  run ds <- fget es_domains;
  ftry (initialize_environments ds 0) fret (dominit0_environment_destroy ;; ferr FACET_ERROR).

End Environment.
