(* ===== verification/EnvironmentFacts.v ===== *)
(** The environments of the domains: bindings are written once and found again, the
    listing is complete, and the loop that sets up all environments is all or nothing. *)
From stdpp Require Import gmap.
From S2P Require Import Prelude Utf8 ConfigTypes Klog Logging Effects Handles HandleFacts Initrd Environment.

(** ** Bindings *)

#[local] Arguments dominit0_environment_bind_named : simpl never.
#[local] Arguments Environment.process_binding : simpl never.

Section Bindings.
Context (IID_ILogger IID_IPageAllocator IID_IDomainConfig IID_IFileStore : iid).

Notation lookup_binding := (lookup_binding IID_ILogger IID_IPageAllocator IID_IDomainConfig IID_IFileStore).
Notation process_binding := (process_binding IID_ILogger IID_IPageAllocator IID_IDomainConfig IID_IFileStore).
Notation process_resolve := (process_resolve IID_ILogger IID_IPageAllocator IID_IDomainConfig IID_IFileStore).
Notation process_list_bindings := (process_list_bindings IID_ILogger IID_IPageAllocator IID_IDomainConfig IID_IFileStore).
Notation list_fixed := (list_fixed IID_ILogger IID_IPageAllocator IID_IDomainConfig IID_IFileStore).
Notation bind_named := (dominit0_environment_bind_named IID_ILogger IID_IPageAllocator IID_IDomainConfig IID_IFileStore).
Notation publish := (environment_publish_service IID_ILogger IID_IPageAllocator IID_IDomainConfig IID_IFileStore).
Notation resolve_service := (environment_resolve_service IID_ILogger IID_IPageAllocator IID_IDomainConfig IID_IFileStore).

Definition resolves (e : DomainEnvironment) (n : bytes) (b : iid * Z) : Prop :=
  process_binding e (Some n) = (FACET_OK, Some b).



Record entry_ok (entry : ProcessBindingEntry) : Prop := {
  ek_name : valid_name (Some (entry_name entry)) = true;
  ek_handle : entry_handle entry <> 0
}.

(** Every entry can be found, under a name that only it has, unless the name is one
    of the fixed ones. *)
Record env_ok (e : DomainEnvironment) : Prop := {
  ev_count : (length (extra_bindings e) <= DOMINIT0_EXTRA_BINDINGS_MAX)%nat;
  ev_entries : Forall entry_ok (extra_bindings e);
  ev_names : NoDup (filter (fun n => n ∉ fixed_names) (entry_name <$> extra_bindings e))
}.

Lemma valid_name_spec n :
  valid_name (Some n) = true <->
  n <> [] /\ (length n <= 127)%nat /\ facet_utf8_is_valid (Some n) (length n) = true.
Proof.
  unfold valid_name. rewrite !andb_true_iff, negb_true_iff, Nat.eqb_neq, Nat.leb_le.
  destruct n; simpl; naive_solver lia.
Qed.

Lemma lookup_other e n :
  n ∉ fixed_names -> lookup_binding e n = (fun x => (primary_iid x, entry_handle x)) <$> find_binding_entry n (extra_bindings e).
Proof.
  intros Hn. unfold Environment.lookup_binding, name_equal. unfold fixed_names in Hn.
  repeat (apply not_elem_of_cons in Hn as [? Hn]). rewrite !(proj2 (bytes_eqb_neq n _)) by done. done.
Qed.

Lemma find_binding_entry_app n l l' :
  find_binding_entry n (l ++ l') = match find_binding_entry n l with Some x => Some x | None => find_binding_entry n l' end.
Proof. unfold find_binding_entry. induction l as [|x l IH]; simpl; [done|]. by destruct (name_equal _ _). Qed.

Lemma find_binding_entry_some n l x : find_binding_entry n l = Some x -> x ∈ l /\ entry_name x = n.
Proof.
  unfold find_binding_entry. intros Hf. apply find_some in Hf as [Hin Heq]. split; [by apply list_elem_of_In|].
  unfold name_equal in Heq. by bool_props.
Qed.

Lemma find_binding_entry_none n l : find_binding_entry n l = None <-> n ∉ entry_name <$> l.
Proof.
  unfold find_binding_entry. induction l as [|x l IH]; simpl; [by split; [set_solver|]|]. unfold name_equal at 1.
  destruct (n =b entry_name x) eqn:E; bool_props; [subst; set_solver|]. rewrite IH. set_solver.
Qed.

(** Adding a binding does not change what another name denotes, nor a name that
    already denotes something. *)
Lemma lookup_added e x n :
  n <> entry_name x \/ is_Some (lookup_binding e n) ->
  lookup_binding (set_extra_bindings (extra_bindings e ++ [x]) e) n = lookup_binding e n.
Proof.
  intros Hn. destruct (decide (n ∈ fixed_names)) as [Hf|Hf].
  { unfold fixed_names in Hf. rewrite !elem_of_cons, elem_of_nil in Hf.
    destruct Hf as [->|[->|[->|[->|[]]]]]; done. }
  rewrite !lookup_other by done. simpl extra_bindings. rewrite find_binding_entry_app.
  destruct (find_binding_entry n (extra_bindings e)) eqn:E; [done|]. destruct Hn as [Hn|[b Hb]].
  - unfold find_binding_entry, name_equal. simpl. by rewrite (proj2 (bytes_eqb_neq _ _)).
  - rewrite lookup_other, E in Hb by done. done.
Qed.

Lemma binding_added e x n :
  n <> entry_name x \/ is_Some (lookup_binding e n) ->
  process_binding (set_extra_bindings (extra_bindings e ++ [x]) e) (Some n) = process_binding e (Some n).
Proof. intros Hn. unfold Environment.process_binding. by rewrite lookup_added. Qed.

Lemma resolves_spec e n b :
  resolves e n b <-> valid_name (Some n) = true /\ lookup_binding e n = Some b /\ snd b <> 0.
Proof.
  unfold resolves, Environment.process_binding. destruct (valid_name (Some n)); simpl; [|naive_solver].
  destruct (lookup_binding e n) as [[i h]|]; [|naive_solver]. destruct (Z.eqb_spec h 0); naive_solver.
Qed.

Lemma bind_named_cases copied e name i h :
  (exists n, name = Some n /\ valid_name name = true /\ h <> 0 /\ copied = true /\
     (length (extra_bindings e) <> DOMINIT0_EXTRA_BINDINGS_MAX)%nat /\
     fst (process_binding e name) <> FACET_OK /\
     bind_named copied e name i h = (0, set_extra_bindings (extra_bindings e ++ [mkEntry n i h]) e)) \/
  ((name = None \/ valid_name name = false \/ h = 0 \/ copied = false \/
    length (extra_bindings e) = DOMINIT0_EXTRA_BINDINGS_MAX \/ fst (process_binding e name) = FACET_OK) /\
   bind_named copied e name i h = (-1, e)).
Proof.
  destruct name as [n|]; [|right; by split; [left|]]. unfold dominit0_environment_bind_named.
  destruct (_ || _)%bool eqn:Ec.
  { right. split; [|done]. right. rewrite !orb_true_iff, negb_true_iff, !Nat.eqb_eq, Nat.ltb_lt, Z.eqb_eq in Ec.
    destruct Ec as [[[[Ec|Ec]|Ec]|Ec]|Ec]; [| |tauto| |tauto]; left; apply not_true_iff_false; rewrite valid_name_spec.
    - destruct n; [naive_solver|done].
    - intros (_ & ? & _). lia.
    - intros (_ & _ & ?). congruence. }
  rewrite !orb_false_iff, negb_false_iff, !Nat.eqb_neq, Nat.ltb_ge, Z.eqb_neq in Ec.
  destruct Ec as [[[[E1 E2] E3] E4] E5].
  case_bool_decide; [right; split; [tauto|done]|]. destruct copied; simpl; [|right; split; [tauto|done]].
  left. exists n. split_and!; try done. apply valid_name_spec. split; [by destruct n|done].
Qed.



(** A name of an entry resolves. *)
Lemma unbound_absent e n :
  env_ok e -> n ∉ fixed_names -> valid_name (Some n) = true -> fst (process_binding e (Some n)) <> FACET_OK ->
  find_binding_entry n (extra_bindings e) = None.
Proof.
  intros [_ He _] Hf Hv Hfree. destruct (find_binding_entry n (extra_bindings e)) as [x|] eqn:Ex; [|done]. exfalso. apply Hfree.
  unfold Environment.process_binding. rewrite Hv. simpl. rewrite lookup_other by done. rewrite Ex. simpl.
  apply find_binding_entry_some in Ex as [Hx _]. rewrite Forall_forall in He. destruct (He x Hx) as [_ Hx0].
  by rewrite (proj2 (Z.eqb_neq _ _)).
Qed.





(** The reserved names denote their objects, bound or not. *)
Lemma lookup_fixed e n : n ∈ fixed_names -> is_Some (lookup_binding e n).
Proof.
  unfold fixed_names. rewrite !elem_of_cons, elem_of_nil. intros [->|[->|[->|[->|[]]]]]; by eexists.
Qed.

(** A new entry under a name that is not reserved is found. *)
Lemma added_resolves e n i h : env_ok e -> n ∉ fixed_names -> valid_name (Some n) = true -> h <> 0 ->
  fst (process_binding e (Some n)) <> FACET_OK -> resolves (set_extra_bindings (extra_bindings e ++ [mkEntry n i h]) e) n (i, h).
Proof.
  intros Hok Hf Hv Hh Hfree. apply resolves_spec. split_and!; [done| |done]. rewrite lookup_other by done. simpl extra_bindings.
  rewrite find_binding_entry_app, (unbound_absent e n) by done. unfold find_binding_entry, name_equal. simpl. by rewrite bytes_eqb_refl.
Qed.

(** Whether the table takes an object under a name. *)
Definition takes (copied : bool) (e : DomainEnvironment) (n : bytes) : bool :=
  (copied && valid_name (Some n) && negb (length (extra_bindings e) =? DOMINIT0_EXTRA_BINDINGS_MAX)%nat &&
   negb (bool_decide (fst (process_binding e (Some n)) = FACET_OK)))%bool.

Lemma bind_named_takes copied e n i h : h <> 0 ->
  bind_named copied e (Some n) i h =
  if takes copied e n then (0, set_extra_bindings (extra_bindings e ++ [mkEntry n i h]) e) else (-1, e).
Proof.
  intros Hh. unfold takes.
  destruct (bind_named_cases copied e (Some n) i h) as [(m & [= <-] & -> & _ & -> & Hlen & Hfree & ->)|[Hw ->]].
  - by rewrite (proj2 (Nat.eqb_neq _ _)), bool_decide_false by done.
  - destruct Hw as [?|[->|[?|[->|[->|Hbound]]]]]; [done| |done|done| |].
    + by rewrite andb_false_r.
    + by rewrite Nat.eqb_refl, andb_false_r.
    + by rewrite bool_decide_true, andb_false_r by done.
Qed.

(** C33: What a domain publishes, on every branch.  A null service or a name that is
    not valid (empty, longer than 127 bytes or not UTF-8) is an invalid argument.  The
    name is read up to its first NUL byte; the service is accepted exactly if that part
    is a valid name, the copy of it can be allocated, there is room for it and it
    denotes nothing yet, and otherwise it is denied; what is refused changes nothing.
    An accepted service is found under the name that was published and under the part
    before the NUL, with its interface, and every other name denotes what it did; but
    if that part is one of the four reserved names, whose own object is not bound yet,
    the call succeeds and no name denotes anything else than before. *)
Theorem environment_publish_resolves copied e name i h :
  env_ok e ->
  let '(code, e') := publish copied e (Some name) i h in
  let n := cstring name in
  if ((h =? 0) || negb (valid_name (Some name)))%bool then code = FACET_INVALID_ARGUMENT /\ e' = e
  else if takes copied e n then
    code = FACET_OK /\
    (n ∉ fixed_names -> resolve_service e' (Some name) i = (FACET_OK, h) /\ process_resolve e' (Some n) = (FACET_OK, h)) /\
    (forall m, m <> n \/ n ∈ fixed_names -> process_binding e' (Some m) = process_binding e (Some m))
  else code = FACET_ACCESS_DENIED /\ e' = e.
Proof.
  intros Hok. unfold environment_publish_service. destruct (_ || _)%bool eqn:Ec; [done|]. simpl fmap.
  rewrite orb_false_iff, negb_false_iff, Z.eqb_neq in Ec. destruct Ec as [Hh Hv].
  rewrite bind_named_takes by done. set (n := cstring name). destruct (takes copied e n) eqn:Et; [|done].
  unfold takes in Et. rewrite !andb_true_iff, !negb_true_iff, bool_decide_eq_false in Et. destruct Et as [[[_ Hvn] _] Hfree].
  split_and!; [done| |].
  - intros Hf. pose proof (added_resolves e n i h Hok Hf Hvn Hh Hfree) as Hr. unfold resolves in Hr.
    unfold environment_resolve_service, Environment.process_resolve, dominit0_environment_resolve_named.
    rewrite Hv. simpl fmap. cbn [negb]. fold n. rewrite !Hr. by rewrite bytes_eqb_refl.
  - intros m Hm. apply binding_added. destruct (decide (m = n)) as [->|Hne]; [right|by left].
    destruct Hm as [?|Hf]; [done|by apply lookup_fixed].
Qed.

Lemma list_fixed_spec e names l :
  list_fixed e names = Some l ->
  fst <$> l = names /\ forall n, n ∈ names -> exists i h, resolves e n (i, h) /\ (n, i) ∈ l.
Proof.
  revert l. induction names as [|n names IH]; intros l Hl; simpl in Hl.
  { injection Hl as <-. split; [done|]. intros n Hn. by apply elem_of_nil in Hn. }
  destruct (process_binding e (Some n)) as [[] [[i h]|]] eqn:Eb; try done.
  destruct (list_fixed e names) as [l0|]; [|done]. injection Hl as <-.
  destruct (IH l0 eq_refl) as [H1 H2]. split; [by rewrite <- H1|].
  intros m [->|Hm]%elem_of_cons; [exists i, h; by split; [|left]|].
  destruct (H2 m Hm) as (j & k & Hr & Hin). exists j, k. by split; [|right].
Qed.

(** The listing of a domain's bindings is complete and truthful: it names
    exactly the names that resolve, with the interface under which they do. *)
Theorem environment_list_complete e l :
  env_ok e -> process_list_bindings e = (FACET_OK, l) ->
  (forall n i h, resolves e n (i, h) -> (n, i) ∈ l) /\ (forall n, n ∈ fst <$> l -> exists b, resolves e n b).
Proof.
  intros Hok Hl. unfold Environment.process_list_bindings in Hl.
  destruct (list_fixed e fixed_names) as [l0|] eqn:E0; [|done]. injection Hl as <-.
  destruct (list_fixed_spec _ _ _ E0) as [Hnames Hfixed]. split.
  - intros n i h Hr. apply elem_of_app. destruct (decide (n ∈ fixed_names)) as [Hf|Hf].
    + left. destruct (Hfixed n Hf) as (j & k & Hr' & Hin). unfold resolves in *. congruence.
    + right. apply resolves_spec in Hr as (_ & Hlook & _). rewrite lookup_other in Hlook by done.
      destruct (find_binding_entry n (extra_bindings e)) as [x|] eqn:Ex; [|done]. injection Hlook as <- _.
      apply find_binding_entry_some in Ex as [Hx <-]. apply list_elem_of_fmap. by exists x.
  - intros n Hn. rewrite fmap_app, elem_of_app, Hnames in Hn. destruct (decide (n ∈ fixed_names)) as [Hf|Hf].
    { destruct (Hfixed n Hf) as (j & k & Hr & _). by eexists. }
    destruct Hn as [Hn|Hn]; [done|]. apply list_elem_of_fmap in Hn as ([m j] & -> & Hm). simpl.
    apply list_elem_of_fmap in Hm as (x & [= -> ->] & Hx). simpl in Hf.
    destruct (find_binding_entry (entry_name x) (extra_bindings e)) as [y|] eqn:Ey.
    + exists (primary_iid y, entry_handle y). apply resolves_spec. rewrite lookup_other, Ey by done.
      apply find_binding_entry_some in Ey as [Hy Hyn]. destruct Hok as [_ He _]. rewrite Forall_forall in He.
      destruct (He y Hy) as [Hv Hh]. rewrite <- Hyn. done.
    + apply find_binding_entry_none in Ey. destruct Ey. apply list_elem_of_fmap. by exists x.
Qed.

(** A reserved name whose object is not bound yet can be published, and published
    again, since only a name that resolves is taken; none of the entries is found. *)
Theorem reserved_name_published_twice e i j h k :
  env_page_allocator e = 0 -> h <> 0 -> k <> 0 -> (S (length (extra_bindings e)) < DOMINIT0_EXTRA_BINDINGS_MAX)%nat ->
  let n := B "memory.pages" in
  let '(code, e1) := publish true e (Some n) i h in
  let '(code', e2) := publish true e1 (Some n) j k in
  code = FACET_OK /\ code' = FACET_OK /\ extra_bindings e2 = extra_bindings e ++ [mkEntry n i h; mkEntry n j k] /\
  process_resolve e2 (Some n) = (FACET_INVALID_HANDLE, 0).
Proof.
  intros H0 Hh Hk Hlen n. assert (Hv : valid_name (Some n) = true) by reflexivity. assert (Hc : cstring n = n) by reflexivity.
  assert (Hp : forall e', env_page_allocator e' = 0 ->
    process_binding e' (Some n) = (FACET_INVALID_HANDLE, Some (IID_IPageAllocator, 0))).
  { intros e' He'. unfold Environment.process_binding. rewrite Hv. simpl. by rewrite He'. }
  clearbody n.
  assert (Hb : forall e' i' h', h' <> 0 -> env_page_allocator e' = 0 -> (length (extra_bindings e') < DOMINIT0_EXTRA_BINDINGS_MAX)%nat ->
    publish true e' (Some n) i' h' = (FACET_OK, set_extra_bindings (extra_bindings e' ++ [mkEntry n i' h']) e')).
  { intros e' i' h' Hh' He' Hl'. unfold environment_publish_service. rewrite (proj2 (Z.eqb_neq h' 0)), Hv by done. cbn [orb negb].
    simpl fmap. rewrite Hc, bind_named_takes by done. unfold takes. rewrite Hv, Hp, (proj2 (Nat.eqb_neq _ _)) by (done || lia). done. }
  rewrite (Hb e) by (done || lia).
  rewrite Hb by (done || (simpl; rewrite length_app; simpl; lia)).
  split_and!; [done|done|simpl; by rewrite <- app_assoc|]. unfold Environment.process_resolve. by rewrite Hp.
Qed.

End Bindings.

(** ** All environments *)

Section Initialize.
Context {O : Type} (alloc_ok : nat -> bool) (logger_object process_object environment_object : nat -> O).

Notation St := (EnvState O).
Notation lv s := (live (es_world s)).
Notation nx s := (next_fresh (es_world s)).

Definition table_ok (s : St) : Prop := 0 < nx s /\ forall h o, lv s !! h = Some o -> 0 < h < nx s.

(** The handles that an environment exports. *)
Definition handles_of (d : CurrentDomain) : list Z :=
  match current_environment d with
  | None => []
  | Some e => [environment_handle e; logger_handle e; process_environment_handle e]
  end.

Definition all_handles (s : St) : list Z := concat (map handles_of (es_domains s)).

(** Since [s0] only the handles of the environments have been added. *)
Record grown (s0 s : St) : Prop := {
  gr_ok : table_ok s;
  gr_next : nx s0 <= nx s;
  gr_new : Forall (fun h => nx s0 <= h < nx s /\ is_Some (lv s !! h)) (all_handles s);
  gr_once : NoDup (all_handles s);
  gr_live : forall h, h ∉ all_handles s -> lv s !! h = lv s0 !! h;
  gr_domains : set_current_environment None <$> es_domains s = set_current_environment None <$> es_domains s0
}.

(** An export: one new handle, or nothing. *)
Lemma awp_env_export o (s : St) :
  awp (export_interface alloc_ok o) s
    (fun h s' => h = nx s /\ lv s' = <[h := o]> (lv s) /\ nx s' = nx s + 1 /\ es_domains s' = es_domains s)
    (fun _ s' => lv s' = lv s /\ nx s' = nx s /\ es_domains s' = es_domains s).
Proof.
  unfold awp, export_interface, allocate, ask, fbind. destruct (alloc_ok _); simpl; done.
Qed.

(** Withdrawing an export. *)
Lemma awp_unexport {A} h o m (s : St) (Q : A -> St -> Prop) E :
  h <> 0 -> lv s !! h = Some o ->
  (forall s', lv s' = delete h (lv s) -> nx s' = nx s -> es_domains s' = es_domains s -> awp m s' Q E) ->
  awp (fbind (unexport h) (fun _ => m)) s Q E.
Proof.
  intros Hh Ho Hm. apply awp_bind. unfold awp at 1, unexport, handle_release. rewrite (proj2 (Z.eqb_neq h 0)) by done.
  unfold fbind, object_of. simpl. rewrite Ho. simpl. by apply Hm.
Qed.

Lemma fresh_absent (s : St) h : table_ok s -> nx s <= h -> lv s !! h = None.
Proof. intros [_ Hl] Hh. destruct (lv s !! h) eqn:E; [|done]. apply Hl in E. lia. Qed.

Lemma table_ok_insert (s s' : St) h o :
  table_ok s -> lv s' = <[h := o]> (lv s) -> nx s <= h < nx s' -> table_ok s'.
Proof.
  intros [Hn Hl] Hs Hh. split; [lia|]. intros k x. rewrite Hs.
  intros [[<- <-]|[_ Hk]]%lookup_insert_Some; [lia|]. apply Hl in Hk. lia.
Qed.

Lemma awp_export_environment i (s : St) :
  table_ok s ->
  awp (export_environment alloc_ok logger_object process_object environment_object i) s
    (fun '(logger, process, environment) s' =>
       logger = nx s /\ process = nx s + 1 /\ environment = nx s + 2 /\ nx s' = nx s + 3 /\ es_domains s' = es_domains s /\
       lv s' = <[environment := environment_object i]> (<[process := process_object i]> (<[logger := logger_object i]> (lv s))))
    (fun _ s' => nx s <= nx s' /\ lv s' = lv s /\ es_domains s' = es_domains s).
Proof.
  intros Hok. pose proof Hok as [Hpos _]. pose proof (fresh_absent s) as Hf. unfold export_environment.
  apply awp_bind. eapply awp_mono; [apply awp_env_export| |].
  2: { intros c s1 (H1 & H2 & H3). split_and!; [lia|done..]. }
  intros logger s1 (-> & L1 & N1 & D1). apply awp_try. eapply awp_mono; [apply awp_env_export| |].
  - intros process s2 (-> & L2 & N2 & D2). apply awp_try. eapply awp_mono; [apply awp_env_export| |].
    + intros environment s3 (-> & L3 & N3 & D3). apply awp_ret. rewrite L3, L2, L1, N3, N2, N1, D3, D2, D1.
      split_and!; try lia; [done|]. by replace (nx s + 1 + 1) with (nx s + 2) by lia.
    + intros c s3 (L3 & N3 & D3).
      apply awp_unexport with (logger_object i); [lia|rewrite L3, L2, lookup_insert_ne, L1, lookup_insert_eq by lia; done|].
      intros s4 L4 N4 D4.
      apply awp_unexport with (process_object i); [lia|rewrite L4, lookup_delete_ne, L3, L2, lookup_insert_eq by lia; done|].
      intros s5 L5 N5 D5. apply awp_err. split_and!; [lia| |congruence].
      rewrite L5, L4, L3, L2, L1, N1. rewrite (delete_insert_ne _ (nx s)) by lia.
      rewrite (delete_insert_id (lv s)) by (apply Hf; [done|lia]). apply delete_insert_id, Hf; [done|lia].
  - intros c s2 (L2 & N2 & D2). apply awp_unexport with (logger_object i); [lia|rewrite L2, L1, lookup_insert_eq; done|].
    intros s3 L3 N3 D3. apply awp_err. split_and!; [lia| |congruence].
    rewrite L3, L2, L1. apply delete_insert_id, Hf; [done|lia].
Qed.

Lemma grown_same s0 s s' :
  grown s0 s -> nx s <= nx s' -> lv s' = lv s -> es_domains s' = es_domains s -> grown s0 s'.
Proof.
  intros [[Hp Hok] Hn Hnew Ho Hl Hc] Hnx Hlv Hd. unfold all_handles in *. split; unfold all_handles; rewrite ?Hd, ?Hlv; try done.
  - split; [lia|]. rewrite Hlv. intros h o Ho'. apply Hok in Ho'. lia.
  - lia.
  - eapply Forall_impl; [exact Hnew|]. intros h [? ?]. split; [lia|done].
Qed.

(** One domain gets its environment. *)
Lemma all_handles_set (s : St) w i d e :
  es_domains s !! i = Some d -> handles_of d = [] ->
  all_handles (mkEnvState w (alter (set_current_environment (Some e)) i (es_domains s))) ≡ₚ
  [environment_handle e; logger_handle e; process_environment_handle e] ++ all_handles s.
Proof.
  intros Hd H0. unfold all_handles. simpl es_domains. pose proof (list_elem_of_split_length _ _ _ Hd) as (l1 & l2 & Hl & Hi).
  rewrite Hl, Hi, alter_app_r_alt, Nat.sub_diag by lia. simpl alter.
  rewrite !map_app, !concat_app. simpl. rewrite H0. simpl. by rewrite <- !Permutation_middle.
Qed.

Lemma grown_set s0 s i d e w :
  grown s0 s -> es_domains s !! i = Some d -> handles_of d = [] ->
  let hs := [environment_handle e; logger_handle e; process_environment_handle e] in
  let s' := mkEnvState w (alter (set_current_environment (Some e)) i (es_domains s)) in
  table_ok s' -> nx s <= nx s' -> NoDup hs -> Forall (fun h => nx s <= h < nx s' /\ is_Some (lv s' !! h)) hs ->
  (forall h, h ∉ hs -> lv s' !! h = lv s !! h) -> grown s0 s'.
Proof.
  intros [[Hp Hok] Hn Hnew Ho Hl Hc] Hd H0 hs s' Hok' Hn' Hnd Hhs Hl'.
  pose proof (all_handles_set s w i d e Hd H0) as Hperm. fold hs s' in Hperm.
  assert (Hsep : forall h, h ∈ hs -> h ∉ all_handles s).
  { intros h Hh Hin. rewrite Forall_forall in Hhs, Hnew. specialize (Hhs h Hh). specialize (Hnew h Hin). lia. }
  split; [done|lia| | | |].
  - rewrite Hperm. apply Forall_app_2.
    + eapply Forall_impl; [exact Hhs|]. intros h [? ?]. split; [lia|done].
    + apply Forall_forall. intros h Hin. pose proof Hnew as Hnew'. rewrite Forall_forall in Hnew'.
      destruct (Hnew' h Hin) as [? ?]. split; [lia|]. rewrite Hl'; [done|]. intros Hh. by apply (Hsep h).
  - rewrite Hperm. apply NoDup_app. done.
  - intros h Hh. rewrite Hperm, elem_of_app in Hh. rewrite Hl' by tauto. apply Hl. tauto.
  - rewrite <- Hc. unfold s'. cbn [es_domains]. apply list_eq. intros j. rewrite !list_lookup_fmap.
    destruct (decide (j = i)) as [->|Hj]; [by rewrite list_lookup_alter_eq, Hd|by rewrite list_lookup_alter_ne].
Qed.

(** Domain [i] has an environment with the three exports. *)
Definition has_environment (s : St) (i : nat) : Prop :=
  exists d e, es_domains s !! i = Some d /\ current_environment d = Some e /\
    lv s !! logger_handle e = Some (logger_object i) /\
    lv s !! process_environment_handle e = Some (process_object i) /\
    lv s !! environment_handle e = Some (environment_object i) /\
    extra_bindings e = [] /\ domain_config_handle e = current_config_handle d /\ env_config e = current_config d.

Notation initialize_environment := (initialize_environment alloc_ok logger_object process_object environment_object).
Notation initialize_environments := (initialize_environments alloc_ok logger_object process_object environment_object).

Lemma awp_initialize_environment s0 s i d :
  grown s0 s -> es_domains s !! i = Some d -> handles_of d = [] ->
  awp (initialize_environment i d) s
    (fun _ s' => grown s0 s' /\ has_environment s' i /\ (forall j, has_environment s j -> j <> i -> has_environment s' j) /\
       exists e, es_domains s' = alter (set_current_environment (Some e)) i (es_domains s))
    (fun _ s' => grown s0 s').
Proof.
  intros Hg Hd H0. unfold Environment.initialize_environment. destruct (negb _); [by apply awp_err|].
  apply awp_bind. unfold awp at 1, allocate, ask. simpl.
  set (s1 := mkEnvState (mkWorld (lv s) (nx s) (S (steps (es_world s)))) (es_domains s)).
  assert (Hg1 : grown s0 s1) by (apply (grown_same s0 s); done || lia). 
  destruct (negb (alloc_ok _)); [by apply awp_err|]. apply awp_bind.
  eapply awp_mono; [apply awp_export_environment, Hg1| |].
  2: { intros c s2 (N & L & D). by apply (grown_same s0 s1). }
  intros [[logger process] environment] s2 (-> & -> & -> & N & D & L). apply awp_put.
  change (nx s1) with (nx s) in *. change (lv s1) with (lv s) in *. change (es_domains s1) with (es_domains s) in *.
  pose proof Hg as [Hok _ _ _ _ _]. pose proof Hok as [Hpos _].
  set (e := mkEnvironment _ _ _ _ _ _ _ _ _).
  assert (Hlive : forall h, h ∉ [nx s + 2; nx s; nx s + 1] -> lv s2 !! h = lv s !! h).
  { intros h Hh. rewrite L. rewrite !lookup_insert_ne; [done|set_solver..]. }
  rewrite D. split_and!.
  - apply (grown_set s0 s i d e); simpl; [done|done|done| |lia| | |done].
    + apply (table_ok_insert (mkEnvState (mkWorld (<[nx s + 1 := process_object i]> (<[nx s := logger_object i]> (lv s)))
        (nx s + 2) 0) []) _ (nx s + 2) (environment_object i)); simpl; [|done|lia].
      apply (table_ok_insert (mkEnvState (mkWorld (<[nx s := logger_object i]> (lv s)) (nx s + 1) 0) []) _
        (nx s + 1) (process_object i)); simpl; [|done|lia].
      apply (table_ok_insert s _ (nx s) (logger_object i)); simpl; [done|done|lia].
    + apply NoDup_cons. split; [set_solver by lia|]. apply NoDup_cons. split; [set_solver by lia|]. apply NoDup_singleton.
    + rewrite L. repeat apply Forall_cons_2; [| | |apply Forall_nil_2]; (split; [lia|]).
      * by rewrite lookup_insert_eq.
      * by rewrite !lookup_insert_ne, lookup_insert_eq by lia.
      * by rewrite lookup_insert_ne, lookup_insert_eq by lia.
  - exists (set_current_environment (Some e) d), e. simpl. rewrite list_lookup_alter_eq, Hd, L. split_and!; try done.
    + by rewrite !lookup_insert_ne, lookup_insert_eq by lia.
    + by rewrite lookup_insert_ne, lookup_insert_eq by lia.
    + by rewrite lookup_insert_eq.
  - intros j (d' & e' & Hd' & He' & L1 & L2 & L3 & Hrest) Hj. exists d', e'. simpl.
    rewrite list_lookup_alter_ne by done. 
    assert (Hold : forall h o, lv s !! h = Some o -> lv s2 !! h = Some o).
    { intros h o Ho. rewrite Hlive; [done|]. apply Hok in Ho. set_solver by lia. }
    destruct Hrest as (? & ? & ?). split_and!; (done || by apply Hold).
  - by exists e.
Qed.

Lemma awp_initialize_environments s0 ds i s :
  grown s0 s -> skipn i (es_domains s) = ds -> (forall d, d ∈ ds -> handles_of d = []) ->
  (forall j, (j < i)%nat -> has_environment s j) ->
  awp (initialize_environments ds i) s
    (fun _ s' => grown s0 s' /\ length (es_domains s') = length (es_domains s) /\
       forall j, (j < i + length ds)%nat -> has_environment s' j)
    (fun _ s' => grown s0 s').
Proof.
  revert i s. induction ds as [|d ds IH]; intros i s Hg Hds H0 Hprev; simpl.
  { apply awp_ret. split_and!; [done..|]. intros j Hj. apply Hprev. lia. }
  assert (Hd : es_domains s !! i = Some d).
  { rewrite <- (Nat.add_0_r i), <- lookup_drop, Hds. done. }
  apply awp_bind. eapply awp_mono; [apply (awp_initialize_environment s0 s i d Hg Hd), H0; by left| |done].
  intros [] s1 (Hg1 & Hi & Hothers & e & De).
  eapply awp_mono; [apply IH; [done| | |]| |done].
  - rewrite De. apply list_eq. intros k. rewrite lookup_drop, list_lookup_alter_ne by lia.
    rewrite <- (lookup_drop _ (S i)), <- (skipn_skipn 1 i), Hds. done.
  - intros d' Hd'. apply H0. by right.
  - intros j Hj. destruct (decide (j = i)) as [->|Hne]; [done|]. apply Hothers; [|done]. apply Hprev. lia.
  - intros [] s2 (Hg2 & Hlen & Hall). split_and!; [done| |].
    + rewrite Hlen, De. apply length_alter.
    + intros j Hj. apply Hall. lia.
Qed.

(** The end of some environments. *)
Lemma awp_destroy_environments ds i (s : St) :
  skipn i (es_domains s) = ds -> releasable (concat (map handles_of ds)) s ->
  awp (destroy_environments ds i) s
    (fun _ s' => nx s' = nx s /\
       (forall h, lv s' !! h = if decide (h <> 0 /\ h ∈ concat (map handles_of ds)) then None else lv s !! h) /\
       es_domains s' = firstn i (es_domains s) ++ map (set_current_environment None) ds)
    (fun _ _ => False).
Proof.
  revert i s. induction ds as [|d ds IH]; intros i s Hds Hr; simpl.
  { apply awp_ret. split_and!; [done| |].
    - intros h. rewrite decide_False; [done|]. intros [_ Hn]. by apply elem_of_nil in Hn.
    - rewrite app_nil_r. rewrite <- (firstn_skipn i (es_domains s)) at 1. by rewrite Hds, app_nil_r. }
  assert (Hd : es_domains s !! i = Some d) by (rewrite <- (Nat.add_0_r i), <- lookup_drop, Hds; done).
  assert (Hnext : skipn (S i) (es_domains s) = ds) by (rewrite <- (skipn_skipn 1 i), Hds; done).
  assert (Hfirst : forall x, firstn (S i) (alter x i (es_domains s)) = firstn i (es_domains s) ++ [x d]).
  { intros x. erewrite take_S_r by (rewrite list_lookup_alter_eq, Hd; reflexivity). by rewrite take_alter_ge by lia. }
  simpl in Hr. destruct (current_environment d) as [e|] eqn:Ee.
  - assert (Hh : handles_of d = [environment_handle e; logger_handle e; process_environment_handle e])
      by (unfold handles_of; by rewrite Ee).
    rewrite Hh in *. simpl in Hr. unfold unexport.
    eapply release_then; [exact Hr|]. intros s1 R1 Hr1. eapply release_then; [exact Hr1|]. intros s2 R2 Hr2.
    eapply release_then; [exact Hr2|]. intros s3 R3 Hr3.
    pose proof (released_trans _ _ _ _ _ R1 (released_trans _ _ _ _ _ R2 R3)) as R. clear R1 R2 R3 Hr1 Hr2.
    assert (D3 : es_domains s3 = es_domains s) by (by destruct R as (w & -> & _)).
    apply awp_bind, awp_put. rewrite D3. eapply awp_mono; [apply IH| |done].
    + simpl. rewrite drop_alter_lt by lia. exact Hnext.
    + done.
    + intros [] s' (N & L & D). simpl in N, L, D. split_and!.
      * rewrite N. by apply (released_next _ _ _ R).
      * intros h. rewrite L. pose proof (released_live _ _ _ h R) as Rh. simpl in Rh. rewrite Rh.
        set (hs := concat (map handles_of ds)).
        assert (h ∈ environment_handle e :: logger_handle e :: process_environment_handle e :: hs <->
                h ∈ [environment_handle e; logger_handle e; process_environment_handle e] \/ h ∈ hs) as Hin by set_solver.
        destruct (decide (h <> 0 /\ h ∈ hs)), (decide (h <> 0 /\ h ∈ [environment_handle e; _; _])), (decide _); naive_solver.
      * rewrite D, Hfirst, <- app_assoc. done.
  - assert (Hh : handles_of d = []) by (unfold handles_of; by rewrite Ee). rewrite Hh in *. simpl in Hr.
    eapply awp_mono; [apply IH; [exact Hnext|exact Hr]| |done]. intros [] s' (N & L & D). split_and!; [done|done|].
    rewrite D. specialize (Hfirst id). rewrite list_alter_id in Hfirst by done. rewrite Hfirst, <- app_assoc. simpl.
    do 3 f_equal. destruct d. simpl in Ee. by subst.
Qed.

Lemma grown_releasable s0 s : table_ok s0 -> grown s0 s -> releasable (all_handles s) s.
Proof.
  intros [Hp _] [_ _ Hnew Ho _ _]. assert (Hf : present (all_handles s) = all_handles s).
  { apply present_all. eapply Forall_impl; [exact Hnew|]. intros h [? _]. simpl. lia. }
  split; rewrite Hf; [|done]. eapply Forall_impl; [exact Hnew|]. by intros h [_ ?].
Qed.

Lemma grown_refl (s : St) : table_ok s -> all_handles s = [] -> grown s s.
Proof. intros Hok H0. split; rewrite ?H0; first [done|lia|constructor]. Qed.

(** The environments of all domains, or none. *)
Lemma awp_start_environments (s : EnvState O) :
  table_ok s -> Forall (fun d => current_environment d = None) (es_domains s) ->
  awp (start_environments alloc_ok logger_object process_object environment_object) s
    (fun _ s' => grown s s' /\ forall i, (i < length (es_domains s))%nat -> has_environment s' i)
    (fun _ s' => nx s <= nx s' /\ lv s' = lv s /\ Forall (fun d => current_environment d = None) (es_domains s')).
Proof.
  intros Hok Hnone. unfold start_environments.
  assert (H0 : forall d, d ∈ es_domains s -> handles_of d = []).
  { intros d Hd. rewrite Forall_forall in Hnone. unfold handles_of. by rewrite Hnone. }
  assert (Hall : all_handles s = []).
  { unfold all_handles. induction (es_domains s) as [|d ds IH]; [done|]. simpl. rewrite H0 by (by left).
    apply Forall_cons in Hnone as [_ Hnone]. apply IH; [done|]. intros d' Hd'. apply H0. by right. }
  apply awp_bind, awp_get, awp_try.
  eapply awp_mono; [apply (awp_initialize_environments s); [by apply grown_refl|done|done|lia]| |].
  - intros [] s' (Hg & _ & Henv). apply awp_ret. done.
  - intros c s1 Hg. apply awp_bind, awp_bind, awp_get.
    eapply awp_mono; [apply awp_destroy_environments; [done|by apply (grown_releasable s)]| |done].
    intros [] s2 (N & L & D). apply awp_err. destruct Hg as [_ Hn Hnew _ Hl _]. split_and!; [lia| |].
    + apply map_eq. intros h. rewrite L. fold (all_handles s1).
      destruct (decide _) as [[_ Hin]|Hno].
      * rewrite Forall_forall in Hnew. destruct (Hnew h Hin) as [Hr _]. symmetry. apply fresh_absent; [done|lia].
      * apply Hl. intros Hin. apply Hno. split; [|done]. rewrite Forall_forall in Hnew.
        destruct (Hnew h Hin) as [Hr _]. destruct Hok. lia.
    + rewrite D. simpl. apply Forall_map, Forall_forall. by intros d _.
Qed.

End Initialize.

(** ** Samples *)

Definition sample_config : DomainConfig := mkDomainConfig (inl 3) (inl (B "main")) (inl 1) (mkLoggingConfig None).
Definition sample_environment : DomainEnvironment :=
  mkEnvironment sample_config 1 2 3 4 5 6 None [mkEntry (B "auth") [1] 7].

Lemma sample_environment_ok : env_ok sample_environment.
Proof. split; [simpl; unfold DOMINIT0_EXTRA_BINDINGS_MAX; lia|apply Forall_singleton; split; [reflexivity|discriminate]|by_decide]. Qed.


Lemma environment_publish_resolves_witness :
  let e' := snd (environment_publish_service [] [] [] [] true sample_environment (Some (B "shell")) [2] 9) in
  environment_resolve_service [] [] [] [] e' (Some (B "shell")) [2] = (FACET_OK, 9).
Proof.
  pose proof (environment_publish_resolves [] [] [] [] true sample_environment (B "shell") [2] 9 sample_environment_ok) as H.
  exact (proj1 (proj1 (proj2 H) ltac:(by_decide))).
Defined.

Lemma environment_list_complete_witness :
  (B "auth", [1]) ∈ snd (process_list_bindings [] [] [] [] sample_environment).
Proof.
  apply (environment_list_complete [] [] [] [] sample_environment
    (snd (process_list_bindings [] [] [] [] sample_environment)) sample_environment_ok eq_refl) with 7.
  vm_compute. reflexivity.
Defined.
