(* ===== verification/ProcessEnvironment.v ===== *)
(** The environment of a process (src/src/dominit0/process_environment.c): its named
    capabilities, its identity, its variables, its current directory and the POSIX
    view that it may have.

    One environment is modelled at a time ([ps_env]), beside the table of handles.
    The parent is a domain environment; sessions, principals, directories and file
    stores are objects of other services ([EnvServices]); a credential file store is
    shared by all processes with the same credentials, so that its handle and texts
    are a function of them ([credential_store]), and [ps_refs] counts its users.  The
    result -1 or NULL of a C function is an error. *)
From stdpp Require Import gmap.
From S2P Require Import Prelude Utf8 ConfigTypes Logging Environment Effects Handles Initrd Posix.

Definition PROCESS_BINDING_MAX : nat := 16.
Definition SYSV_MAX : nat := 128.

Record ProcessBinding := mkProcessBinding {
  pb_name : bytes;
  pb_iid : iid;
  pb_handle : Z
}.

Record CredentialFiles := mkCredentialFiles {
  cf_handle : Z;
  cf_passwd : bytes;
  cf_shadow : bytes;
  cf_fstab : bytes
}.

Record ProcessEnvironment := mkProcessEnvironment {
  pe_handle : Z;
  pe_bindings : list ProcessBinding;
  owned_session : Z;
  private_page_allocator : Z;
  native_capabilities : bool;
  posix_view : option PosixView;
  posix_namespace_root : option bytes;
  posix_cwd_synthetic_etc : bool;
  sysv_environment : list bytes;
  sysv_environment_capacity : nat;
  owned_cwd : Z;
  credential_files : option CredentialFiles;
  pe_uid : Z;
  pe_gid : Z;
  pe_admin : bool;
  terminal_index : Z
}.

Definition empty_environment (native : bool) : ProcessEnvironment :=
  mkProcessEnvironment 0 [] 0 0 native None None false [] 0 0 None 0 0 false 0.

Definition set_pe_handle (h : Z) (e : ProcessEnvironment) : ProcessEnvironment :=
  mkProcessEnvironment h (pe_bindings e) (owned_session e) (private_page_allocator e) (native_capabilities e)
    (posix_view e) (posix_namespace_root e) (posix_cwd_synthetic_etc e) (sysv_environment e)
    (sysv_environment_capacity e) (owned_cwd e) (credential_files e) (pe_uid e) (pe_gid e) (pe_admin e) (terminal_index e).
Definition set_bindings (l : list ProcessBinding) (e : ProcessEnvironment) : ProcessEnvironment :=
  mkProcessEnvironment (pe_handle e) l (owned_session e) (private_page_allocator e) (native_capabilities e)
    (posix_view e) (posix_namespace_root e) (posix_cwd_synthetic_etc e) (sysv_environment e)
    (sysv_environment_capacity e) (owned_cwd e) (credential_files e) (pe_uid e) (pe_gid e) (pe_admin e) (terminal_index e).
Definition set_owned_session (h : Z) (e : ProcessEnvironment) : ProcessEnvironment :=
  mkProcessEnvironment (pe_handle e) (pe_bindings e) h (private_page_allocator e) (native_capabilities e)
    (posix_view e) (posix_namespace_root e) (posix_cwd_synthetic_etc e) (sysv_environment e)
    (sysv_environment_capacity e) (owned_cwd e) (credential_files e) (pe_uid e) (pe_gid e) (pe_admin e) (terminal_index e).
Definition set_private_pages (h : Z) (e : ProcessEnvironment) : ProcessEnvironment :=
  mkProcessEnvironment (pe_handle e) (pe_bindings e) (owned_session e) h (native_capabilities e)
    (posix_view e) (posix_namespace_root e) (posix_cwd_synthetic_etc e) (sysv_environment e)
    (sysv_environment_capacity e) (owned_cwd e) (credential_files e) (pe_uid e) (pe_gid e) (pe_admin e) (terminal_index e).
Definition set_posix_view (v : option PosixView) (e : ProcessEnvironment) : ProcessEnvironment :=
  mkProcessEnvironment (pe_handle e) (pe_bindings e) (owned_session e) (private_page_allocator e) (native_capabilities e)
    v (posix_namespace_root e) (posix_cwd_synthetic_etc e) (sysv_environment e)
    (sysv_environment_capacity e) (owned_cwd e) (credential_files e) (pe_uid e) (pe_gid e) (pe_admin e) (terminal_index e).
Definition set_namespace_root (r : bytes) (e : ProcessEnvironment) : ProcessEnvironment :=
  mkProcessEnvironment (pe_handle e) (pe_bindings e) (owned_session e) (private_page_allocator e) (native_capabilities e)
    (posix_view e) (Some r) (posix_cwd_synthetic_etc e) (sysv_environment e)
    (sysv_environment_capacity e) (owned_cwd e) (credential_files e) (pe_uid e) (pe_gid e) (pe_admin e) (terminal_index e).
Definition set_synthetic_cwd (b : bool) (e : ProcessEnvironment) : ProcessEnvironment :=
  mkProcessEnvironment (pe_handle e) (pe_bindings e) (owned_session e) (private_page_allocator e) (native_capabilities e)
    (posix_view e) (posix_namespace_root e) b (sysv_environment e)
    (sysv_environment_capacity e) (owned_cwd e) (credential_files e) (pe_uid e) (pe_gid e) (pe_admin e) (terminal_index e).
Definition set_sysv (l : list bytes) (capacity : nat) (e : ProcessEnvironment) : ProcessEnvironment :=
  mkProcessEnvironment (pe_handle e) (pe_bindings e) (owned_session e) (private_page_allocator e) (native_capabilities e)
    (posix_view e) (posix_namespace_root e) (posix_cwd_synthetic_etc e) l
    capacity (owned_cwd e) (credential_files e) (pe_uid e) (pe_gid e) (pe_admin e) (terminal_index e).
Definition set_owned_cwd (h : Z) (e : ProcessEnvironment) : ProcessEnvironment :=
  mkProcessEnvironment (pe_handle e) (pe_bindings e) (owned_session e) (private_page_allocator e) (native_capabilities e)
    (posix_view e) (posix_namespace_root e) (posix_cwd_synthetic_etc e) (sysv_environment e)
    (sysv_environment_capacity e) h (credential_files e) (pe_uid e) (pe_gid e) (pe_admin e) (terminal_index e).
Definition set_credential_files (c : option CredentialFiles) (e : ProcessEnvironment) : ProcessEnvironment :=
  mkProcessEnvironment (pe_handle e) (pe_bindings e) (owned_session e) (private_page_allocator e) (native_capabilities e)
    (posix_view e) (posix_namespace_root e) (posix_cwd_synthetic_etc e) (sysv_environment e)
    (sysv_environment_capacity e) (owned_cwd e) c (pe_uid e) (pe_gid e) (pe_admin e) (terminal_index e).
Definition set_identity (uid gid : Z) (admin : bool) (e : ProcessEnvironment) : ProcessEnvironment :=
  mkProcessEnvironment (pe_handle e) (pe_bindings e) (owned_session e) (private_page_allocator e) (native_capabilities e)
    (posix_view e) (posix_namespace_root e) (posix_cwd_synthetic_etc e) (sysv_environment e)
    (sysv_environment_capacity e) (owned_cwd e) (credential_files e) uid gid admin (terminal_index e).
Definition set_terminal (i : Z) (e : ProcessEnvironment) : ProcessEnvironment :=
  mkProcessEnvironment (pe_handle e) (pe_bindings e) (owned_session e) (private_page_allocator e) (native_capabilities e)
    (posix_view e) (posix_namespace_root e) (posix_cwd_synthetic_etc e) (sysv_environment e)
    (sysv_environment_capacity e) (owned_cwd e) (credential_files e) (pe_uid e) (pe_gid e) (pe_admin e) i.

(** ** The services and the state *)

Class EnvServices (O : Type) := {
  session_get_credentials : O -> answer (Z * Z * bool);
  session_get_principal : O -> answer O;
  principal_getname : O -> answer bytes;
  principal_human : O -> option O;
  human_gethome_path : O -> answer bytes;
  human_getdefault_shell : O -> answer bytes;
  store_open_directory : O -> bytes -> answer O
}.

Record ProcessState (O : Type) := mkProcessState {
  ps_world : World O;
  ps_refs : gmap Z Z;
  ps_env : ProcessEnvironment
}.
Arguments mkProcessState {O}.
Arguments ps_world {O}.
Arguments ps_refs {O}.
Arguments ps_env {O}.

#[global] Instance process_worldly O : Worldly (ProcessState O) O := {
  world := ps_world;
  set_world w s := mkProcessState w (ps_refs s) (ps_env s)
}.

#[global] Instance process_worldly_laws O : WorldlyLaws (ProcessState O) O.
Proof. split; [done..|]. by intros []. Qed.

(** ** Variables *)

Fixpoint has_prefix (prefix s : bytes) : bool :=
  match prefix, s with
  | [], _ => true
  | p :: prefix, c :: s => (p =? c) && has_prefix prefix s
  | _, [] => false
  end.

(** Replace the first variable with the prefix. *)
Fixpoint replace_first (prefix replacement : bytes) (l : list bytes) : option (list bytes) :=
  match l with
  | [] => None
  | v :: rest =>
      if has_prefix prefix v then Some (replacement :: rest)
      else (fun r => v :: r) <$> replace_first prefix replacement rest
  end.

Section ProcessEnv.
Context {O : Type} `{PosixServices O} `{EnvServices O}.
Context (alloc_ok proxy_ok : nat -> bool) (process_object posix_object : O).
Context (IID_IGenericObject IID_IProcessEnvironment IID_IPOSIXView IID_IFileStore IID_ISession IID_IDirectory : iid).
Context (IID_IPageAllocator IID_IProcessLifecycle IID_ITerminalControl IID_IByteReader IID_IByteWriter : iid).
Context (credential_store : Z -> Z -> bool -> option CredentialFiles).
(** What a name denotes in the domain environment of the parent. *)
Context (resolve_in_parent : bytes -> FacetResult * option (iid * Z)).
(** The users of the configuration. *)
Context (config_users : list FacetConfigUser).

Abbreviation St := (ProcessState O).
Abbreviation Proc := (Eff St).

Definition the_env {A} (f : ProcessEnvironment -> A) : Proc A := fget (fun s => f (ps_env s)).
Definition change_env (f : ProcessEnvironment -> ProcessEnvironment) : Proc unit :=
  fput (fun s => mkProcessState (ps_world s) (ps_refs s) (f (ps_env s))).
Definition allocate_memory : Proc bool := allocate alloc_ok.
Definition failed {A} : Proc A := ferr FACET_ERROR.

(** A call through a proxy on a clone of a handle; [libfacet_proxy_from_handle]
    releases the clone if there is no proxy. *)
Definition through_clone {A} (h : Z) (use : O -> Proc A) : Proc A :=
  run copy <- handle_clone alloc_ok h; owned_proxy proxy_ok copy use.

Definition remote {A} (r : answer A) : Proc A := match r with inl a => fret a | inr code => ferr code end.
Definition remote_handle (r : answer O) : Proc Z := run o <- remote r; handle_of_object o.

(** ** Bindings *)

Definition find_binding (name : option bytes) (e : ProcessEnvironment) : option ProcessBinding :=
  if negb (valid_name name) then None
  else match name with
       | Some n => find (fun b => name_equal n (pb_name b)) (pe_bindings e)
       | None => None
       end.

(** The null pointer is no name. *)
Definition bind (name : option bytes) (i : iid) (handle : Z) : Proc unit :=
  match name with
  | None => failed
  | Some n =>
      run e <- the_env id;
      if ((length n =? 0)%nat || (127 <? length n)%nat || (handle =? 0) || negb (facet_utf8_is_valid (Some n) (length n)) ||
          (length (pe_bindings e) =? PROCESS_BINDING_MAX)%nat)%bool then failed
      else if bool_decide (is_Some (find_binding name e)) then failed
      else
        run ok <- allocate_memory;
        if negb ok then failed else change_env (fun e => set_bindings (pe_bindings e ++ [mkProcessBinding n i handle]) e)
  end.

Definition process_env_get_interface (i : iid) : Proc Z :=
  run e <- the_env id;
  if (negb (i =b IID_IGenericObject) && negb (i =b IID_IProcessEnvironment))%bool then
    match posix_view e with
    | Some v => if i =b IID_IPOSIXView then fret (view_handle v) else ferr FACET_NO_INTERFACE
    | None => ferr FACET_NO_INTERFACE
    end
  else fret (pe_handle e).

Definition named_binding (name : option bytes) : Proc ProcessBinding :=
  if negb (valid_name name) then ferr FACET_INVALID_ARGUMENT
  else
    run e <- the_env id;
    match find_binding name e with None => ferr FACET_NOT_FOUND | Some b => fret b end.

Definition resolve (name : option bytes) : Proc Z :=
  run b <- named_binding name; handle_clone alloc_ok (pb_handle b).

Definition resolve_as (name : option bytes) (i : iid) : Proc Z :=
  run b <- named_binding name;
  if negb (pb_iid b =b i) then ferr FACET_NO_INTERFACE else handle_clone alloc_ok (pb_handle b).

Definition process_primary_iid (name : option bytes) : Proc iid := run b <- named_binding name; fret (pb_iid b).
Definition advertised_iids (name : option bytes) : Proc (list iid) := run b <- named_binding name; fret [pb_iid b].
Definition list_bindings : Proc (list (bytes * iid)) := the_env (fun e => map (fun b => (pb_name b, pb_iid b)) (pe_bindings e)).
Definition get_sysv_environment : Proc (list bytes) := the_env sysv_environment.

(** ** The current directory *)

Definition get_cwd : Proc Z :=
  run h <- the_env owned_cwd;
  if h =? 0 then ferr FACET_INVALID_HANDLE else handle_clone alloc_ok h.

Definition rebind (name : bytes) (h : Z) (e : ProcessEnvironment) : ProcessEnvironment :=
  match index_of (fun b => name_equal name (pb_name b)) (pe_bindings e) with
  | Some i => set_bindings (alter (fun b => mkProcessBinding (pb_name b) (pb_iid b) h) i (pe_bindings e)) e
  | None => e
  end.

Definition set_cwd (directory : Z) : Proc unit :=
  if directory =? 0 then ferr FACET_INVALID_ARGUMENT
  else
    ftry (handle_clone alloc_ok directory)
      (fun replacement =>
         run e <- the_env id;
         match find_binding (Some (B "cwd")) e with
         | None => handle_release replacement ;; ferr FACET_INVALID_HANDLE
         | Some _ =>
             change_env (fun e => rebind (B "cwd") replacement (set_owned_cwd replacement e)) ;;
             handle_release (owned_cwd e)
         end)
      (ferr FACET_INVALID_HANDLE).

Definition sync_posix_cwd (directory : Z) (synthetic_etc : bool) : Proc unit :=
  (if synthetic_etc then fret tt else ftry (set_cwd directory) fret failed) ;;
  change_env (set_synthetic_cwd synthetic_etc).

(** Three clones, or none. *)
Definition get_standard_streams : Proc (Z * Z * Z) :=
  run e <- the_env id;
  match find_binding (Some (B "stdin")) e, find_binding (Some (B "stdout")) e, find_binding (Some (B "stderr")) e with
  | Some i, Some o, Some x =>
      ftry (handle_clone alloc_ok (pb_handle i))
        (fun input =>
           ftry (handle_clone alloc_ok (pb_handle o))
             (fun output =>
                ftry (handle_clone alloc_ok (pb_handle x))
                  (fun error => fret (input, output, error))
                  (handle_release input ;; handle_release output ;; ferr FACET_OUT_OF_MEMORY))
             (handle_release input ;; ferr FACET_OUT_OF_MEMORY))
        (ferr FACET_OUT_OF_MEMORY)
  | _, _, _ => ferr FACET_INVALID_HANDLE
  end.

Definition get_terminal_index : Proc Z := the_env terminal_index.

(** ** The variables *)

(** The arrays grow to 8, and then by doubling. *)
Definition grow_sysv : Proc unit :=
  run e <- the_env id;
  if (length (sysv_environment e) =? sysv_environment_capacity e)%nat then
    run strings <- allocate_memory;
    if negb strings then failed
    else
      run owned <- allocate_memory;
      if negb owned then failed
      else change_env (fun e => set_sysv (sysv_environment e)
             (if (sysv_environment_capacity e =? 0)%nat then 8 else sysv_environment_capacity e * 2)%nat e)
  else fret tt.

Definition add_sysv_environment (value : bytes) : Proc unit :=
  run e <- the_env id;
  if (negb (existsb (fun c => c =? 61) value) || (length (sysv_environment e) =? SYSV_MAX)%nat)%bool then failed
  else
    grow_sysv ;;
    run ok <- allocate_memory;
    if negb ok then failed
    else change_env (fun e => set_sysv (sysv_environment e ++ [value]) (sysv_environment_capacity e) e).

Definition replace_sysv_environment (key : bytes) (value : option bytes) : Proc unit :=
  match value with
  | None => failed
  | Some value =>
      run ok <- allocate_memory;
      if negb ok then failed
      else
        let replacement := key ++ 61 :: value in
        run e <- the_env id;
        match replace_first (key ++ [61]) replacement (sysv_environment e) with
        | Some l => change_env (fun e => set_sysv l (sysv_environment_capacity e) e)
        | None => add_sysv_environment replacement
        end
  end.

Definition configured_user (uid gid : Z) : option FacetConfigUser :=
  find (fun u => (ConfigTypes.uid u =? uid) && (ConfigTypes.gid u =? gid)) config_users.

(** ** Identity *)

(** A copy as a C string. *)
Definition copy_facet_string (input : bytes) : Proc bytes :=
  if ((length input =? 0)%nat || (4096 <? length input)%nat)%bool then failed
  else run ok <- allocate_memory; if negb ok then failed else fret (cstring input).

Definition Identity : Type := (Z * Z * bool) * (bytes * bytes * bytes).

Definition root_identity : Identity := ((0, 0, true), (B "root", B "/root", B "/FacetOS/FacetShell")).

(** The name, home and shell of a principal. *)
Definition principal_texts (principal : O) : Proc (bytes * bytes * bytes) :=
  run name <- remote (principal_getname principal);
  match principal_human principal with
  | None => ferr FACET_NO_INTERFACE
  | Some human =>
      run home <- remote (human_gethome_path human);
      run shell <- remote (human_getdefault_shell human);
      run name <- copy_facet_string name;
      run home <- copy_facet_string home;
      run shell <- copy_facet_string shell;
      fret (name, home, shell)
  end.

Definition session_identity (session : Z) : Proc Identity :=
  run n <- allocate_memory; run h <- allocate_memory; run s <- allocate_memory;
  if (negb n || negb h || negb s)%bool then failed
  else if session =? 0 then fret root_identity
  else
    run r <- through_clone session (fun o =>
      run credentials <- remote (session_get_credentials o);
      run principal <- remote_handle (session_get_principal o);
      fret (credentials, principal));
    run texts <- owned_proxy proxy_ok (snd r) principal_texts;
    fret (fst r, texts).

(** ** Creation *)

(** A variable of the caller. *)
Definition add_given (value : bytes) : Proc unit :=
  if ((length value =? 0)%nat || (4096 <? length value)%nat || negb (facet_utf8_is_valid (Some value) (length value)))%bool
  then failed
  else run ok <- allocate_memory; if negb ok then failed else add_sysv_environment (cstring value).

Fixpoint add_all_given (values : list bytes) : Proc unit :=
  match values with [] => fret tt | v :: rest => add_given v ;; add_all_given rest end.

(** Formatting into an array of a given size. *)
Definition formatted (size : nat) (key value : bytes) : Proc bytes :=
  let text := key ++ value in if (size <=? length text)%nat then failed else fret text.

Definition standard_sysv (name home shell : bytes) : Proc unit :=
  run user_value <- formatted 256 (B "USER=") name;
  run home_value <- formatted 4352 (B "HOME=") home;
  run shell_value <- formatted 4352 (B "SHELL=") shell;
  add_sysv_environment (B "PATH=/FacetOS") ;;
  add_sysv_environment (B "PWD=/") ;;
  add_sysv_environment user_value ;;
  add_sysv_environment home_value ;;
  add_sysv_environment shell_value.

Fixpoint delegate (names : list bytes) : Proc unit :=
  match names with
  | [] => fret tt
  | n :: rest =>
      (match resolve_in_parent n with
       | (FACET_OK, Some (i, h)) => bind (Some n) i h
       | _ => fret tt
       end) ;;
      delegate rest
  end.

Definition take_store (handle : Z) : Proc unit :=
  fput (fun s => mkProcessState (ps_world s) (<[handle := default 0 (ps_refs s !! handle) + 1]> (ps_refs s)) (ps_env s)).
Definition drop_store (handle : Z) : Proc unit :=
  fput (fun s => mkProcessState (ps_world s) (<[handle := default 0 (ps_refs s !! handle) - 1]> (ps_refs s)) (ps_env s)).

(** Open a directory through the environment's own file store. *)
Definition open_in_store (path : bytes) : Proc Z :=
  run e <- the_env id;
  match find_binding (Some (B "files")) e with
  | None => ferr FACET_INVALID_HANDLE
  | Some files => through_clone (pb_handle files) (fun store => remote_handle (store_open_directory store path))
  end.

(** Whether a proxy for the file store can be had at all; without one the root
    directory is not opened. *)
Definition open_root : Proc unit :=
  run e <- the_env id;
  match find_binding (Some (B "files")) e with
  | None => fret tt
  | Some files =>
      ftry (handle_clone alloc_ok (pb_handle files))
        (fun copy =>
           run ok <- ask proxy_ok;
           if negb ok then handle_release copy
           else
             run root <- then_release (run store <- object_of copy; remote_handle (store_open_directory store (B "/"))) copy;
             change_env (set_owned_cwd root))
        (fret tt)
  end.

Definition dominit0_process_environment_destroy : Proc unit :=
  run e <- the_env id;
  handle_release (pe_handle e) ;;
  handle_release (owned_session e) ;;
  handle_release (owned_cwd e) ;;
  (match posix_view e with
   | None => fret tt
   | Some v => fun s => let (r, p) := dominit0_posix_view_destroy (mkPosix (ps_world s) v tt) in
                        (r, mkProcessState (p_world p) (ps_refs s) (ps_env s))
   end) ;;
  match credential_files e with None => fret tt | Some c => drop_store (cf_handle c) end.

(** [domain_initrd] tells whether the domain has a boot file system. *)
Definition create_steps (domain_initrd bootstrap_authority native : bool) (session : Z)
    (sysv : option (list bytes)) (cwd : Z) (identity_source : option (Z * Z * bool)) : Proc unit :=
  run identity <- match identity_source with
                  | Some credentials =>
                      run n <- allocate_memory; run h <- allocate_memory; run s <- allocate_memory;
                      if (negb n || negb h || negb s)%bool then failed
                      else fret (credentials, (B "root", B "/", B "/bin/sh"))
                  | None => session_identity session
                  end;
  let '((uid, gid, admin), (name, home, shell)) := identity in
  change_env (set_identity uid gid admin) ;;
  (match sysv with
   | Some values => if (SYSV_MAX <? length values)%nat then failed else add_all_given values
   | None => standard_sysv name home shell
   end) ;;
  (if native then delegate [B "logger"; B "processes"] else fret tt) ;;
  (if (bootstrap_authority && native)%bool then delegate [B "auth"; B "security"] else fret tt) ;;
  (if domain_initrd then
     match credential_store uid gid admin with
     | None => failed
     | Some c =>
         take_store (cf_handle c) ;;
         change_env (set_credential_files (Some c)) ;;
         bind (Some (B "files")) IID_IFileStore (cf_handle c)
     end
   else fret tt) ;;
  (if session =? 0 then fret tt
   else
     run copy <- handle_clone alloc_ok session;
     change_env (set_owned_session copy) ;;
     if native then bind (Some (B "session")) IID_ISession copy else fret tt) ;;
  (if cwd =? 0 then open_root
   else
     run path <- through_clone cwd (fun o => remote (dir_path o));
     run directory <- open_in_store path;
     change_env (set_owned_cwd directory)) ;;
  run e <- the_env id;
  (if owned_cwd e =? 0 then fret tt else bind (Some (B "cwd")) IID_IDirectory (owned_cwd e)) ;;
  run h <- export_interface alloc_ok process_object;
  change_env (set_pe_handle h).

Definition dominit0_process_environment_create (domain_initrd bootstrap_authority native : bool) (session : Z)
    (sysv : option (list bytes)) (cwd : Z) (identity_source : option (Z * Z * bool)) : Proc unit :=
  run ok <- allocate_memory;
  if negb ok then failed
  else
    change_env (fun _ => empty_environment native) ;;
    ftry (create_steps domain_initrd bootstrap_authority native session sysv cwd identity_source) fret
      (dominit0_process_environment_destroy ;; failed).

(** ** Later bindings *)

(** A step of the POSIX view. *)
Definition on_view {A} (v : PosixView) (m : Eff (PosixState O unit) A) : Proc A := fun s =>
  let (r, p) := m (mkPosix (ps_world s) v tt) in
  (r, mkProcessState (p_world p) (ps_refs s) (set_posix_view (Some (p_view p)) (ps_env s))).

(** A view that does not exist. *)
Definition with_view {A} (m : Eff (PosixState O unit) A) : Proc A :=
  run e <- the_env id;
  match posix_view e with None => failed | Some v => on_view v m end.

Definition dominit0_process_environment_bind_named (name : option bytes) (i : iid) (object : Z) : Proc unit :=
  run native <- the_env native_capabilities;
  if negb native then failed else bind name i object.

Definition dominit0_process_environment_bind_page_allocator (allocator : Z) : Proc unit :=
  run native <- the_env native_capabilities;
  if negb native then
    change_env (set_private_pages allocator) ;; with_view (dominit0_posix_view_bind_page_allocator allocator)
  else bind (Some (B "memory.pages")) IID_IPageAllocator allocator.

Definition dominit0_process_environment_bind_lifecycle (lifecycle : Z) : Proc unit :=
  if lifecycle =? 0 then failed
  else
    run e <- the_env id;
    (match posix_view e with None => fret tt | Some v => on_view v (dominit0_posix_view_bind_lifecycle lifecycle) end) ;;
    if native_capabilities e then bind (Some (B "process.lifecycle")) IID_IProcessLifecycle lifecycle
    else match posix_view e with Some _ => fret tt | None => failed end.

Definition dominit0_process_environment_bind_posix_process_control (domain_id pid : Z) (admin : bool) : Proc unit :=
  with_view (dominit0_posix_view_bind_process_control domain_id pid admin).

(** The namespace root of the view, opened through the file store. *)
Definition bind_namespace_root (path : bytes) : Proc unit :=
  ftry (open_in_store path)
    (fun root =>
       ftry (with_view (dominit0_posix_view_set_root alloc_ok proxy_ok root))
         (fun _ => handle_release root)
         (handle_release root ;; failed))
    failed.

Definition create_view (input output cwd : Z) : Proc unit := fun s =>
  match dominit0_posix_view_create alloc_ok proxy_ok posix_object input output cwd (mkPosix (ps_world s) blank_view tt) with
  | (Ok _, p) => (Ok tt, mkProcessState (p_world p) (ps_refs s) (set_posix_view (Some (p_view p)) (ps_env s)))
  | (Err _, p) => (Err FACET_ERROR, mkProcessState (p_world p) (ps_refs s) (set_posix_view None (ps_env s)))
  | (Fault, p) => (Fault, mkProcessState (p_world p) (ps_refs s) (ps_env s))
  end.

Definition bind_view (input output : Z) : Proc unit :=
  run e <- the_env id;
  create_view input output (owned_cwd e) ;;
  (match credential_files e with
   | None => fret tt
   | Some c => with_view (dominit0_posix_view_set_credential_files (cf_passwd c) (cf_shadow c) (cf_fstab c))
   end) ;;
  (match posix_namespace_root e with None => fret tt | Some path => bind_namespace_root path end) ;;
  with_view (dominit0_posix_view_bind_cwd_sync (posix_cwd_synthetic_etc e)) ;;
  run e' <- the_env id;
  bind (Some (B "posix")) IID_IPOSIXView (match posix_view e' with Some v => view_handle v | None => 0 end).

Definition dominit0_process_environment_bind_terminal (input output control : Z) : Proc unit :=
  run e <- the_env id;
  (if (negb (native_capabilities e) || bool_decide (is_Some (posix_namespace_root e)))%bool
   then bind_view input output else fret tt) ;;
  if negb (native_capabilities e) then fret tt
  else
    bind (Some (B "terminal.control")) IID_ITerminalControl control ;;
    bind (Some (B "stdin")) IID_IByteReader input ;;
    bind (Some (B "stdout")) IID_IByteWriter output ;;
    bind (Some (B "stderr")) IID_IByteWriter output.

(** ** Attributes *)

Definition dominit0_process_environment_set_posix_namespace_root (path : bytes) : Proc unit :=
  if negb (starts_with 47 path) then failed
  else run ok <- allocate_memory; if negb ok then failed else change_env (set_namespace_root path).

Definition dominit0_process_environment_set_posix_root (path : bytes) : Proc unit :=
  dominit0_process_environment_set_posix_namespace_root path ;;
  ftry (open_in_store path)
    (fun root =>
       run e <- the_env id;
       match find_binding (Some (B "cwd")) e with
       | None => handle_release root ;; failed
       | Some _ =>
           handle_release (owned_cwd e) ;;
           change_env (fun e => rebind (B "cwd") root (set_owned_cwd root e))
       end)
    failed.

Definition dominit0_process_environment_cwd_handle : Proc Z :=
  run h <- the_env owned_cwd;
  if h =? 0 then fret 0 else ftry (handle_clone alloc_ok h) fret (fret 0).

Definition dominit0_process_environment_set_posix_synthetic_cwd (synthetic_etc : bool) : Proc unit :=
  change_env (set_synthetic_cwd synthetic_etc) ;;
  run e <- the_env id;
  match posix_view e with
  | None => fret tt
  | Some v => on_view v (dominit0_posix_view_set_synthetic_cwd synthetic_etc)
  end.

Definition dominit0_process_environment_get_credentials : Proc (Z * Z * bool) :=
  the_env (fun e => (pe_uid e, pe_gid e, pe_admin e)).

Definition dominit0_process_environment_set_credentials (uid gid : Z) (set_uid set_gid : bool) : Proc unit :=
  if (negb set_uid && negb set_gid)%bool then failed
  else
    change_env (fun e =>
      let uid := if set_uid then uid else pe_uid e in
      let gid := if set_gid then gid else pe_gid e in
      set_identity uid gid (uid =? 0) e) ;;
    run e <- the_env id;
    match configured_user (pe_uid e) (pe_gid e) with
    | None => fret tt
    | Some user =>
        replace_sysv_environment (B "USER") (user_name user) ;;
        replace_sysv_environment (B "HOME") (home_path user) ;;
        replace_sysv_environment (B "SHELL") (posix_shell user) ;;
        replace_sysv_environment (B "PWD") (home_path user)
    end.

Definition dominit0_process_environment_set_terminal_index (i : Z) : Proc unit := change_env (set_terminal i).

(** Replace the variable with the prefix, or add it. *)
Definition set_variable (prefix text : bytes) : Proc unit :=
  run e <- the_env id;
  match replace_first prefix text (sysv_environment e) with
  | Some l =>
      run ok <- allocate_memory;
      if negb ok then failed else change_env (fun e => set_sysv l (sysv_environment_capacity e) e)
  | None => add_sysv_environment text
  end.

Definition dominit0_process_environment_set_terminal_name (name : bytes) : Proc unit :=
  if (length name =? 0)%nat then failed
  else
    run e <- the_env id;
    let text := B "FACET_TERMINAL=" ++ name in
    (if bool_decide (replace_first (B "FACET_TERMINAL=") text (sysv_environment e) = None)
     then run ok <- allocate_memory; if negb ok then failed else fret tt else fret tt) ;;
    set_variable (B "FACET_TERMINAL=") text.

(** The buffer of 64 bytes holds every number. *)
Definition dominit0_process_environment_set_domain_id (domain_id : Z) : Proc unit :=
  set_variable (B "FACET_DOMAIN_ID=") (B "FACET_DOMAIN_ID=" ++ rev (decimal_digits 24 domain_id)).

End ProcessEnv.
