(* ===== verification/ProcessEnvironmentFacts.v ===== *)
(** The environments of processes: the form of the tables is kept by every
    operation, variables are found again, and what a new process receives is
    confined to what its identity and its parent entitle it to. *)
From stdpp Require Import gmap.
From S2P Require Import Prelude Utf8 ConfigTypes Logging Environment EnvironmentFacts Effects Handles HandleFacts Initrd Posix ProcessEnvironment.

(** ** Variables *)

(** The value of a variable: the text after the first [key=]. *)
Definition variable (key : bytes) (l : list bytes) : option bytes :=
  skipn (S (length key)) <$> find (has_prefix (key ++ [61])) l.

Lemma has_prefix_spec p s : has_prefix p s = true <-> exists r, s = p ++ r.
Proof.
  revert s. induction p as [|c p IH]; intros s; simpl; [naive_solver|]. destruct s as [|d s].
  - split; [done|]. by intros [r Hr].
  - rewrite andb_true_iff, Z.eqb_eq, IH. naive_solver.
Qed.

Lemma has_prefix_app p r : has_prefix p (p ++ r) = true.
Proof. apply has_prefix_spec. by exists r. Qed.

(** Two keys without an equals sign that begin the same text are the same. *)
Lemma prefix_same_key k k' s :
  61 ∉ k -> 61 ∉ k' -> has_prefix (k ++ [61]) s = true -> has_prefix (k' ++ [61]) s = true -> k = k'.
Proof.
  rewrite !has_prefix_spec. intros Hk Hk' [r ->] [r' Hr]. rewrite <- !app_assoc in Hr. simpl in Hr.
  revert k' Hk' Hr. induction k as [|c k IH]; intros [|c' k'] Hk' Hr; simpl in Hr; [done| | |].
  - injection Hr as <- _. set_solver.
  - injection Hr as -> _. set_solver.
  - injection Hr as -> Hr. f_equal. apply IH; [set_solver|set_solver|done].
Qed.

Lemma replace_first_none p r l : replace_first p r l = None <-> find (has_prefix p) l = None.
Proof.
  induction l as [|v l IH]; [done|]. simpl. destruct (has_prefix p v); [done|].
  rewrite <- IH. by destruct (replace_first p r l).
Qed.

Lemma replace_first_some p r l l' :
  replace_first p r l = Some l' ->
  exists a v b, l = a ++ v :: b /\ l' = a ++ r :: b /\ has_prefix p v = true /\ Forall (fun x => has_prefix p x = false) a.
Proof.
  revert l'. induction l as [|v l IH]; intros l' Hl; simpl in Hl; [done|]. destruct (has_prefix p v) eqn:Ev.
  - injection Hl as <-. by exists [], v, l.
  - destruct (replace_first p r l) as [m|]; [|done]. injection Hl as <-.
    destruct (IH m eq_refl) as (a & w & b & -> & -> & Hw & Ha). exists (v :: a), w, b. split_and!; try done. by constructor.
Qed.

Lemma find_app_skip {A} (f : A -> bool) a b : Forall (fun x => f x = false) a -> find f (a ++ b) = find f b.
Proof. induction 1 as [|x a Hx _ IH]; [done|]. simpl. by rewrite Hx. Qed.

Lemma find_app_other {A} (f : A -> bool) a v w b : f v = false -> f w = false -> find f (a ++ v :: b) = find f (a ++ w :: b).
Proof. intros Hv Hw. induction a as [|x a IH]; simpl; [by rewrite Hv, Hw|]. by destruct (f x). Qed.

(** The list of variables after one has been set. *)
Definition with_variable (key value : bytes) (l : list bytes) : list bytes :=
  match replace_first (key ++ [61]) (key ++ 61 :: value) l with Some l' => l' | None => l ++ [key ++ 61 :: value] end.

Lemma key_text key value : key ++ 61 :: value = (key ++ [61]) ++ value.
Proof. by rewrite <- app_assoc. Qed.

Lemma with_variable_same key value l : variable key (with_variable key value l) = Some value.
Proof.
  unfold variable, with_variable.
  assert (Hself : has_prefix (key ++ [61]) (key ++ 61 :: value) = true) by (rewrite (key_text key value); apply has_prefix_app).
  assert (Hdrop : skipn (S (length key)) (key ++ 61 :: value) = value).
  { rewrite (key_text key value), drop_app_length'; [done|]. rewrite length_app. simpl. lia. }
  destruct (replace_first _ _ l) as [l'|] eqn:E.
  - apply replace_first_some in E as (a & v & b & -> & -> & _ & Ha). rewrite find_app_skip by done. simpl. rewrite Hself.
    simpl. by rewrite Hdrop.
  - apply replace_first_none in E. assert (Ha : Forall (fun x => has_prefix (key ++ [61]) x = false) l).
    { apply Forall_forall. intros x Hx. by eapply find_none; [exact E|apply list_elem_of_In]. }
    rewrite find_app_skip by done. simpl. rewrite Hself. simpl. by rewrite Hdrop.
Qed.

Lemma with_variable_other key value k l :
  61 ∉ key -> 61 ∉ k -> k <> key -> variable k (with_variable key value l) = variable k l.
Proof.
  intros Hkey Hk Hne. unfold variable, with_variable.
  assert (Hself : has_prefix (key ++ [61]) (key ++ 61 :: value) = true) by (rewrite (key_text key value); apply has_prefix_app).
  assert (Hno : forall x, has_prefix (key ++ [61]) x = true -> has_prefix (k ++ [61]) x = false).
  { intros x Hx. destruct (has_prefix (k ++ [61]) x) eqn:Ex; [|done]. destruct Hne. by eapply prefix_same_key. }
  destruct (replace_first _ _ l) as [l'|] eqn:E.
  - apply replace_first_some in E as (a & v & b & -> & -> & Hv & _). f_equal. apply find_app_other; by apply Hno.
  - f_equal. induction l as [|x l IH]; simpl.
    + by rewrite Hno.
    + simpl in E. destruct (has_prefix (key ++ [61]) x); [done|]. destruct (has_prefix (k ++ [61]) x); [done|].
      apply IH. by destruct (replace_first _ _ l).
Qed.

(** ** The form of an environment *)

#[local] Arguments ProcessEnvironment.bind : simpl never.
#[local] Arguments find_binding : simpl never.

Section Steps.
Context {O : Type}.

Abbreviation St := (ProcessState O).

Record penv_ok (e : ProcessEnvironment) : Prop := {
  pk_count : (length (pe_bindings e) <= PROCESS_BINDING_MAX)%nat;
  pk_names : NoDup (pb_name <$> pe_bindings e);
  pk_valid : Forall (fun b => valid_name (Some (pb_name b)) = true) (pe_bindings e);
  pk_cwd : forall b, b ∈ pe_bindings e -> pb_name b = B "cwd" -> pb_handle b = owned_cwd e;
  pk_sysv : (length (sysv_environment e) <= SYSV_MAX)%nat;
  pk_room : (length (sysv_environment e) <= sysv_environment_capacity e)%nat;
  pk_form : Forall (fun v => 61 ∈ v) (sysv_environment e)
}.

(** A step that keeps the form, whatever it answers. *)
Definition forms {A} (m : Eff St A) : Prop := forall s, penv_ok (ps_env s) -> penv_ok (ps_env (snd (m s))).

(** A step that does not change the environment at all. *)
Definition outside {A} (m : Eff St A) : Prop := forall s, ps_env (snd (m s)) = ps_env s.

Lemma outside_forms {A} (m : Eff St A) : outside m -> forms m.
Proof. intros Hm s Hs. by rewrite Hm. Qed.

Lemma outside_bind {A C} (m : Eff St A) (k : A -> Eff St C) : outside m -> (forall a, outside (k a)) -> outside (fbind m k).
Proof.
  intros Hm Hk s. specialize (Hm s). unfold fbind. destruct (m s) as [[a|c|] s1]; simpl in *; [|done..].
  rewrite <- Hm. apply Hk.
Qed.

Lemma outside_try {A C} (m : Eff St A) (k : A -> Eff St C) handler :
  outside m -> (forall a, outside (k a)) -> outside handler -> outside (ftry m k handler).
Proof.
  intros Hm Hk Hh s. specialize (Hm s). unfold ftry. destruct (m s) as [[a|c|] s1]; simpl in *; [| |done];
    rewrite <- Hm; [apply Hk|apply Hh].
Qed.

Lemma outside_release h : outside (handle_release h : Eff St unit).
Proof.
  unfold handle_release. destruct (h =? 0); [done|]. apply outside_bind; [|done].
  intros s. unfold object_of. by destruct (_ !! h).
Qed.

Lemma outside_object h : outside (object_of h : Eff St O).
Proof. intros s. unfold object_of. by destruct (_ !! h). Qed.

Lemma outside_then_release {A} (m : Eff St A) h : outside m -> outside (then_release m h).
Proof.
  intros Hm s. specialize (Hm s). unfold then_release. destruct (m s) as [[a|c|] s1]; simpl in *; [| |done];
    pose proof (outside_release h s1) as Hr; destruct (handle_release h s1) as [[]]; simpl in *; congruence.
Qed.

Lemma forms_bind {A C} (m : Eff St A) (k : A -> Eff St C) : forms m -> (forall a, forms (k a)) -> forms (fbind m k).
Proof.
  intros Hm Hk s Hs. specialize (Hm s Hs). unfold fbind. destruct (m s) as [[a|c|] s1]; simpl in *; [|done..]. by apply Hk.
Qed.

Lemma forms_try {A C} (m : Eff St A) (k : A -> Eff St C) handler :
  forms m -> (forall a, forms (k a)) -> forms handler -> forms (ftry m k handler).
Proof.
  intros Hm Hk Hh s Hs. specialize (Hm s Hs). unfold ftry. destruct (m s) as [[a|c|] s1]; simpl in *; [| |done];
    [by apply Hk|by apply Hh].
Qed.

Lemma forms_change f : (forall e, penv_ok e -> penv_ok (f e)) -> forms (change_env f : Eff St unit).
Proof. intros Hf s Hs. by apply Hf. Qed.

(** A step that reads the environment first. *)
Lemma forms_env {A C} (f : ProcessEnvironment -> C) (k : C -> Eff St A) :
  (forall e s, ps_env s = e -> penv_ok e -> penv_ok (ps_env (snd (k (f e) s)))) -> forms (fbind (the_env f) k).
Proof. intros Hk s Hs. unfold fbind, the_env, fget. by apply Hk. Qed.

End Steps.

Ltac stays_outside :=
  repeat (intros;
    lazymatch goal with
    | |- outside (fbind _ _) => apply outside_bind
    | |- outside (ftry _ _ _) => apply outside_try
    | |- outside (then_release _ _) => apply outside_then_release
    | |- outside (handle_release _) => apply outside_release
    | |- outside (object_of _) => apply outside_object
    | |- outside (match ?x with _ => _ end) => destruct x
    | |- outside _ => done
    end).

Section Facts.
Context {O : Type} `{PosixServices O} `{EnvServices O}.
Context (alloc_ok proxy_ok : nat -> bool).

Abbreviation St := (ProcessState O).

Lemma outside_clone h : outside (handle_clone alloc_ok h : Eff St Z).
Proof. unfold handle_clone, allocate. stays_outside. Qed.

Lemma outside_through {A} h (use : O -> Eff St A) : (forall o, outside (use o)) -> outside (through_clone alloc_ok proxy_ok h use).
Proof. intros Hu. unfold through_clone, owned_proxy. apply outside_bind; [apply outside_clone|]. stays_outside. Qed.

Lemma outside_remote {A} (r : answer A) : outside (remote r : Eff St A).
Proof. unfold remote. stays_outside. Qed.

Lemma outside_remote_handle r : outside (remote_handle r : Eff St Z).
Proof. unfold remote_handle. apply outside_bind; [apply outside_remote|done]. Qed.

Lemma outside_open path : outside (open_in_store alloc_ok proxy_ok path : Eff St Z).
Proof.
  unfold open_in_store. apply outside_bind; [done|]. intros e. destruct (find_binding _ e); [|done].
  apply outside_through. intros o. apply outside_remote_handle.
Qed.

Lemma outside_texts o : outside (principal_texts alloc_ok o : Eff St _).
Proof.
  unfold principal_texts, copy_facet_string, allocate_memory, allocate.
  stays_outside; try apply outside_remote. 
Qed.

Lemma outside_identity session : outside (session_identity alloc_ok proxy_ok session : Eff St _).
Proof.
  unfold session_identity, allocate_memory, allocate. stays_outside.
  - apply outside_through. stays_outside; apply outside_remote || apply outside_remote_handle.
  - unfold owned_proxy. stays_outside. apply outside_texts.
Qed.

(** *** Bindings *)

Lemma find_binding_some name e b :
  find_binding name e = Some b -> b ∈ pe_bindings e /\ name = Some (pb_name b).
Proof.
  unfold find_binding. destruct (negb _); [done|]. destruct name as [n|]; [|done]. intros [Hin Heq]%find_some.
  split; [by apply list_elem_of_In|]. unfold name_equal in Heq. bool_props. by subst.
Qed.

Lemma find_binding_none n e : valid_name (Some n) = true -> find_binding (Some n) e = None -> n ∉ pb_name <$> pe_bindings e.
Proof.
  unfold find_binding. intros -> Hf. simpl in Hf. intros (b & -> & Hb)%list_elem_of_fmap.
  eapply find_none in Hf; [|by apply list_elem_of_In]. unfold name_equal in Hf. bool_props. done.
Qed.

Lemma penv_ok_bind e n i h :
  penv_ok e -> valid_name (Some n) = true -> (length (pe_bindings e) <> PROCESS_BINDING_MAX)%nat ->
  find_binding (Some n) e = None -> (n = B "cwd" -> h = owned_cwd e) ->
  penv_ok (set_bindings (pe_bindings e ++ [mkProcessBinding n i h]) e).
Proof.
  intros [Hc Hn Hv Hcwd Hs Hr Hf] Hname Hlen Hfree Hown. split; simpl; try done.
  - rewrite length_app. simpl. lia.
  - rewrite fmap_app. apply NoDup_app. split_and!; [done| |apply NoDup_singleton].
    intros m Hm Hin. simpl in Hin. apply list_elem_of_singleton in Hin as ->. by eapply find_binding_none.
  - apply Forall_app_2; [done|]. by apply Forall_singleton.
  - intros b [Hb|Hb]%elem_of_app; [by apply Hcwd|]. apply list_elem_of_singleton in Hb as ->. apply Hown.
Qed.

(** The name [cwd] is bound to the current directory only. *)
Lemma forms_bind_at name i h (s : St) :
  penv_ok (ps_env s) -> (name = Some (B "cwd") -> h = owned_cwd (ps_env s)) ->
  penv_ok (ps_env (snd (bind alloc_ok name i h s))).
Proof.
  intros Hs Hcwd. unfold bind. destruct name as [n|]; [|done]. unfold fbind, the_env, fget. simpl. unfold id.
  destruct (_ || _)%bool eqn:Ec; [done|].
  rewrite !orb_false_iff, negb_false_iff, !Nat.eqb_neq, Nat.ltb_ge, Z.eqb_neq in Ec. destruct Ec as [[[[E1 E2] E3] E4] E5].
  case_bool_decide as Hf; [done|]. unfold allocate_memory, allocate, ask. destruct (alloc_ok _); simpl; [|done].
  apply penv_ok_bind; try done.
  - apply valid_name_spec. split; [by destruct n|done].
  - by destruct (find_binding _ _); [destruct Hf; eexists|].
  - intros ->. by apply Hcwd.
Qed.

Lemma forms_bind_name name i h : name <> Some (B "cwd") -> forms (bind alloc_ok name i h : Eff St unit).
Proof. intros Hn s Hs. by apply forms_bind_at. Qed.

(** A new current directory. *)
Lemma penv_ok_rebind e h : penv_ok e -> penv_ok (rebind (B "cwd") h (set_owned_cwd h e)).
Proof.
  intros [Hc Hn Hv Hcwd Hs Hr Hf]. unfold rebind. simpl pe_bindings.
  destruct (index_of _ _) as [i|] eqn:Ei.
  - apply index_of_Some in Ei as (b & Hb & Heq & _). unfold name_equal in Heq. bool_props.
    set (f := fun b => mkProcessBinding (pb_name b) (pb_iid b) h).
    assert (Hnames : pb_name <$> alter f i (pe_bindings e) = pb_name <$> pe_bindings e).
    { apply list_eq. intros j. rewrite !list_lookup_fmap. destruct (decide (i = j)) as [<-|Hij].
      - rewrite list_lookup_alter_eq. by destruct (pe_bindings e !! i).
      - by rewrite list_lookup_alter_ne. }
    split; simpl; try done.
    + by rewrite length_alter.
    + by rewrite Hnames.
    + apply Forall_lookup. intros j x Hx. rewrite Forall_lookup in Hv. destruct (decide (i = j)) as [<-|Hij].
      * rewrite list_lookup_alter_eq, Hb in Hx. injection Hx as <-. simpl. by eapply Hv.
      * rewrite list_lookup_alter_ne in Hx by done. by eapply Hv.
    + intros x [j Hj]%list_elem_of_lookup Hx. destruct (decide (i = j)) as [<-|Hij].
      * rewrite list_lookup_alter_eq, Hb in Hj. by injection Hj as <-.
      * rewrite list_lookup_alter_ne in Hj by done. destruct Hij.
        eapply (NoDup_lookup _ i j (B "cwd") Hn); rewrite list_lookup_fmap; [rewrite Hb|rewrite Hj]; simpl; congruence.
  - apply index_of_None in Ei. split; simpl; try done. intros b Hb Hbn. rewrite Forall_forall in Ei.
    specialize (Ei b Hb). unfold name_equal in Ei. bool_props. congruence.
Qed.

(** *** Variables *)

Lemma penv_ok_sysv e l :
  penv_ok e -> length l = length (sysv_environment e) -> Forall (fun v => 61 ∈ v) l ->
  penv_ok (set_sysv l (sysv_environment_capacity e) e).
Proof. intros [Hc Hn Hv Hcwd Hs Hr Hf] Hl Hform. by split; simpl; try rewrite Hl. Qed.

Lemma penv_ok_replaced e prefix text l :
  penv_ok e -> 61 ∈ text -> replace_first prefix text (sysv_environment e) = Some l ->
  penv_ok (set_sysv l (sysv_environment_capacity e) e).
Proof.
  intros Hok Ht (a & v & b & Hl & -> & _)%replace_first_some. pose proof (pk_form _ Hok) as Hf. rewrite Hl in Hf.
  apply penv_ok_sysv; [done|rewrite Hl, !length_app; done|]. apply Forall_app in Hf as [Ha Hb].
  apply Forall_cons in Hb as [_ Hb]. apply Forall_app_2; [done|by constructor].
Qed.

Lemma forms_add_sysv value : forms (add_sysv_environment alloc_ok value : Eff St unit).
Proof.
  intros s Hs. unfold add_sysv_environment, grow_sysv, allocate_memory, allocate, ask, fbind, the_env, fget. simpl. unfold id.
  destruct (_ || _)%bool eqn:Ec; [done|]. apply orb_false_iff in Ec as [Eeq Ecount].
  apply negb_false_iff, existsb_exists in Eeq as (c & Hc & Heq). apply Nat.eqb_neq in Ecount.
  assert (Hin : 61 ∈ value) by (apply list_elem_of_In; apply Z.eqb_eq in Heq; by subst).
  assert (Hadd : forall capacity, (length (sysv_environment (ps_env s)) < capacity)%nat ->
    penv_ok (set_sysv (sysv_environment (ps_env s) ++ [value]) capacity (ps_env s))).
  { intros capacity Hcap. destruct Hs as [? ? ? ? H1 ? ?]. split; simpl; try done.
    - rewrite length_app. simpl. unfold SYSV_MAX in *. lia.
    - rewrite length_app. simpl. lia.
    - apply Forall_app_2; [done|]. by apply Forall_singleton. }
  assert (Hgrow : forall capacity, (length (sysv_environment (ps_env s)) < capacity)%nat ->
    penv_ok (set_sysv (sysv_environment (ps_env s)) capacity (ps_env s))).
  { intros capacity Hcap. destruct Hs. split; simpl; try done. lia. }
  destruct (Nat.eqb_spec (length (sysv_environment (ps_env s))) (sysv_environment_capacity (ps_env s))) as [Hfull|Hroom].
  - set (c' := (if (sysv_environment_capacity (ps_env s) =? 0)%nat then 8 else sysv_environment_capacity (ps_env s) * 2)%nat).
    assert (Hc' : (length (sysv_environment (ps_env s)) < c')%nat).
    { unfold c'. rewrite Hfull. destruct (Nat.eqb_spec (sysv_environment_capacity (ps_env s)) 0); lia. }
    repeat (destruct (alloc_ok _); simpl; [|by auto]). by apply Hadd.
  - simpl. destruct (alloc_ok _); simpl; [|done]. apply Hadd. pose proof (pk_room _ Hs). lia.
Qed.

Lemma forms_memory : forms (allocate_memory alloc_ok : Eff St bool).
Proof. by apply outside_forms. Qed.

Lemma forms_set_sysv_at prefix text (s : St) :
  penv_ok (ps_env s) -> 61 ∈ text ->
  penv_ok (ps_env (snd (match replace_first prefix text (sysv_environment (ps_env s)) with
    | Some l => change_env (fun e => set_sysv l (sysv_environment_capacity e) e)
    | None => add_sysv_environment alloc_ok text
    end s))).
Proof.
  intros Hs Ht. destruct (replace_first _ _ _) as [l|] eqn:El; [|by apply forms_add_sysv].
  by eapply penv_ok_replaced.
Qed.

Lemma forms_replace_sysv key value : forms (replace_sysv_environment alloc_ok key value : Eff St unit).
Proof.
  unfold replace_sysv_environment. destruct value as [value|]; [|by apply outside_forms].
  apply forms_bind; [apply forms_memory|]. intros ok. destruct ok; [|by apply outside_forms]. apply forms_env. intros e s <- He. apply forms_set_sysv_at; [done|]. set_solver.
Qed.

Lemma forms_set_variable prefix text : 61 ∈ text -> forms (set_variable alloc_ok prefix text : Eff St unit).
Proof.
  intros Ht. unfold set_variable. apply forms_env. intros e s <- He. simpl.
  destruct (replace_first _ _ _) as [l|] eqn:El; [|by apply forms_add_sysv].
  unfold allocate_memory, allocate, ask, fbind. destruct (alloc_ok _); simpl; [|done]. by eapply penv_ok_replaced.
Qed.

(** *** All operations *)

Lemma penv_ok_view v e : penv_ok e -> penv_ok (set_posix_view v e).
Proof. by intros []. Qed.

Lemma forms_on_view {A} v (m : Eff (PosixState O unit) A) : forms (on_view v m).
Proof. intros s Hs. unfold on_view. destruct (m _) as [r p]. by apply penv_ok_view. Qed.

Lemma forms_with_view {A} (m : Eff (PosixState O unit) A) : forms (with_view m).
Proof.
  unfold with_view. apply forms_bind; [by apply outside_forms|]. intros e. destruct (posix_view e); [apply forms_on_view|by apply outside_forms].
Qed.

Lemma forms_set_cwd h : forms (set_cwd alloc_ok h : Eff St unit).
Proof.
  unfold set_cwd. destruct (h =? 0); [by apply outside_forms|].
  apply forms_try; [apply outside_forms, outside_clone| |by apply outside_forms]. intros copy.
  apply forms_bind; [by apply outside_forms|]. intros e. destruct (find_binding _ e).
  - apply forms_bind; [|intros []; apply outside_forms, outside_release]. apply forms_change. intros e' He'. by apply penv_ok_rebind.
  - apply forms_bind; [apply outside_forms, outside_release|]. intros []. by apply outside_forms.
Qed.

(** What the process itself may ask of its environment, and what the process manager
    and the POSIX view do to it. *)
Inductive EnvironmentCall :=
  | Resolve (name : option bytes) | ResolveAs (name : option bytes) (i : iid) | GetStandardStreams | GetCwd
  | SetCwd (directory : Z) | SyncCwd (directory : Z) (synthetic_etc : bool)
  | BindObject (name : option bytes) (i : iid) (object : Z)
  | BindPages (pages_iid : iid) (allocator : Z) | BindLifecycle (lifecycle_iid : iid) (lifecycle : Z)
  | BindControl (domain_id pid : Z) (admin : bool)
  | BindTerminal (posix_object : O) (posix_iid control_iid reader_iid writer_iid : iid) (input output control : Z)
  | SetNamespaceRoot (path : bytes) | SetPosixRoot (path : bytes) | SetSyntheticCwd (synthetic_etc : bool)
  | SetCredentialsOf (config_users : list FacetConfigUser) (uid gid : Z) (set_uid set_gid : bool)
  | SetTerminalIndex (i : Z) | SetTerminalName (name : bytes) | SetDomainId (domain_id : Z).

Definition drop_value {A} (m : Eff St A) : Eff St unit := fbind m (fun _ => fret tt).

Definition environment_call (c : EnvironmentCall) : Eff St unit :=
  match c with
  | Resolve name => drop_value (resolve alloc_ok name)
  | ResolveAs name i => drop_value (resolve_as alloc_ok name i)
  | GetStandardStreams => drop_value (get_standard_streams alloc_ok)
  | GetCwd => drop_value (get_cwd alloc_ok)
  | SetCwd directory => set_cwd alloc_ok directory
  | SyncCwd directory synthetic_etc => sync_posix_cwd alloc_ok directory synthetic_etc
  | BindObject name i object => dominit0_process_environment_bind_named alloc_ok name i object
  | BindPages i allocator => dominit0_process_environment_bind_page_allocator alloc_ok i allocator
  | BindLifecycle i lifecycle => dominit0_process_environment_bind_lifecycle alloc_ok i lifecycle
  | BindControl domain_id pid admin => dominit0_process_environment_bind_posix_process_control domain_id pid admin
  | BindTerminal view i1 i2 i3 i4 input output control =>
      dominit0_process_environment_bind_terminal alloc_ok proxy_ok view i1 i2 i3 i4 input output control
  | SetNamespaceRoot path => dominit0_process_environment_set_posix_namespace_root alloc_ok path
  | SetPosixRoot path => dominit0_process_environment_set_posix_root alloc_ok proxy_ok path
  | SetSyntheticCwd synthetic_etc => dominit0_process_environment_set_posix_synthetic_cwd synthetic_etc
  | SetCredentialsOf users uid gid set_uid set_gid =>
      dominit0_process_environment_set_credentials alloc_ok users uid gid set_uid set_gid
  | SetTerminalIndex i => dominit0_process_environment_set_terminal_index i
  | SetTerminalName name => dominit0_process_environment_set_terminal_name alloc_ok name
  | SetDomainId domain_id => dominit0_process_environment_set_domain_id alloc_ok domain_id
  end.

(** The process manager does not bind the current directory by name. *)
Definition call_allowed (c : EnvironmentCall) : Prop :=
  match c with BindObject name _ _ => name <> Some (B "cwd") | _ => True end.

Ltac keeps_form :=
  repeat (intros;
    lazymatch goal with
    | |- forms (fbind (bind _ _ _ _) _) => apply forms_bind; [by apply forms_bind_name|]
    | |- forms (fbind (the_env _) _) => apply forms_bind; [by apply outside_forms|]
    | |- forms (fbind (allocate_memory _) _) => apply forms_bind; [apply forms_memory|]
    | |- forms (fbind _ _) => apply forms_bind
    | |- forms (ftry _ _ _) => apply forms_try
    | |- forms (bind _ _ _ _) => by apply forms_bind_name
    | |- forms (handle_release _) => apply outside_forms, outside_release
    | |- forms (handle_clone _ _) => apply outside_forms, outside_clone
    | |- forms (open_in_store _ _ _) => apply outside_forms, outside_open
    | |- forms (on_view _ _) => apply forms_on_view
    | |- forms (with_view _) => apply forms_with_view
    | |- forms (replace_sysv_environment _ _ _) => apply forms_replace_sysv
    | |- forms (set_cwd _ _) => apply forms_set_cwd
    | |- forms (change_env _) => apply forms_change; by intros ? []
    | |- forms (match ?x with _ => _ end) => destruct x
    | |- forms _ => first [done|by apply outside_forms]
    end).

Lemma forms_posix_root path : forms (dominit0_process_environment_set_posix_root alloc_ok proxy_ok path : Eff St unit).
Proof.
  unfold dominit0_process_environment_set_posix_root, dominit0_process_environment_set_posix_namespace_root. keeps_form.
  intros _. apply forms_change. intros e He. by apply penv_ok_rebind.
Qed.

Lemma forms_bind_view view i input output : forms (bind_view alloc_ok proxy_ok view i input output : Eff St unit).
Proof.
  unfold bind_view, bind_namespace_root. keeps_form.
  intros s Hs. unfold create_view. destruct (dominit0_posix_view_create _ _ _ _ _ _ _) as [[]]; simpl; try apply penv_ok_view; done.
Qed.

Lemma forms_call c : call_allowed c -> forms (environment_call c).
Proof.
  intros Hc. destruct c; simpl in *.
  - apply outside_forms. unfold drop_value, resolve, named_binding. stays_outside; intros; apply outside_clone.
  - apply outside_forms. unfold drop_value, resolve_as, named_binding. stays_outside; intros; apply outside_clone.
  - apply outside_forms. unfold drop_value, get_standard_streams. stays_outside; intros; apply outside_clone.
  - apply outside_forms. unfold drop_value, get_cwd. stays_outside; intros; apply outside_clone.
  - apply forms_set_cwd.
  - unfold sync_posix_cwd. keeps_form.
  - unfold dominit0_process_environment_bind_named. keeps_form.
  - unfold dominit0_process_environment_bind_page_allocator. keeps_form.
  - unfold dominit0_process_environment_bind_lifecycle. keeps_form.
  - apply forms_with_view.
  - unfold dominit0_process_environment_bind_terminal. keeps_form; intros; apply forms_bind_view.
  - unfold dominit0_process_environment_set_posix_namespace_root. keeps_form.
  - apply forms_posix_root.
  - unfold dominit0_process_environment_set_posix_synthetic_cwd. keeps_form.
  - unfold dominit0_process_environment_set_credentials. keeps_form.
  - unfold dominit0_process_environment_set_terminal_index. keeps_form.
  - unfold dominit0_process_environment_set_terminal_name. keeps_form; intros; apply forms_set_variable, elem_of_app; left; by_decide.
  - apply forms_set_variable, elem_of_app. left. by_decide.
Qed.

Lemma penv_ok_empty native : penv_ok (empty_environment native).
Proof. split; simpl; try done; [unfold PROCESS_BINDING_MAX; lia|constructor|set_solver|unfold SYSV_MAX; lia]. Qed.

(** C29: The tables of a process environment keep their form under every sequence of
    requests of the process, of its POSIX view and of the process manager, whether
    they succeed or not: at most sixteen bindings with valid names of their own, the
    name of the current directory bound to the directory that the environment owns,
    and at most 128 variables, each of the form key=value, within the room of the
    array. *)
Theorem process_environment_form_kept calls (s : ProcessState O) :
  penv_ok (ps_env s) -> Forall call_allowed calls ->
  penv_ok (ps_env (fold_left (fun s c => snd (environment_call c s)) calls s)).
Proof.
  revert s. induction calls as [|c calls IH]; intros s Hs Hc; [done|]. apply Forall_cons in Hc as [Hc Hcs].
  simpl. apply IH; [|done]. by apply forms_call.
Qed.

End Facts.
