(* ===== verification/ProcessCreation.v ===== *)
(** What a new process receives: the environment that creation hands out holds no
    more than the identity of the process and its parent's authority allow. *)
From stdpp Require Import gmap.
From S2P Require Import Prelude Utf8 ConfigTypes Logging Environment EnvironmentFacts Effects Handles HandleFacts Initrd Posix.
From S2P Require Import PosixUse ProcessEnvironment ProcessEnvironmentFacts.

#[local] Arguments ProcessEnvironment.bind : simpl never.
#[local] Arguments find_binding : simpl never.

Section Creation.
Context {O : Type} `{PosixServices O} `{EnvServices O}.
Context (alloc_ok proxy_ok : nat -> bool) (process_object : O) (IID_IFileStore IID_ISession IID_IDirectory : iid).
Context (credential_store : Z -> Z -> bool -> option CredentialFiles).
Context (resolve_in_parent : bytes -> FacetResult * option (iid * Z)).

Notation St := (ProcessState O).
Notation lv s := (live (ps_world s)).
Notation nx s := (next_fresh (ps_world s)).

(** Bounds on handles, with the world of the state unfolded. *)
Ltac hlia := simpl in *; lia.

(** The parts of the environment that hold authority. *)
Definition core (e : ProcessEnvironment) :=
  (pe_bindings e, owned_session e, owned_cwd e, (pe_uid e, pe_gid e, pe_admin e)).

(** A step that at most adds handles, and leaves the authority alone. *)
Definition mild {A} (m : Eff St A) : Prop :=
  forall s, handles_ok s -> pwp m s (fun _ s' => later s s' /\ core (ps_env s') = core (ps_env s)).

Lemma mild_bind {A C} (m : Eff St A) (k : A -> Eff St C) : mild m -> (forall a, mild (k a)) -> mild (fbind m k).
Proof.
  intros Hm Hk s Hs. apply pwp_bind. eapply pwp_mono; [by apply Hm|]. intros a s1 [L1 C1]. simpl.
  eapply pwp_mono; [apply Hk, L1|]. intros c s2 [L2 C2]. split; [by eapply later_trans|congruence].
Qed.

Lemma mild_ret {A} (a : A) : mild (fret a).
Proof. intros s Hs. split; [by apply later_refl|done]. Qed.

Lemma mild_err {A} c : mild (ferr c : Eff St A).
Proof. by intros s Hs. Qed.

Lemma mild_change f : (forall e, core (f e) = core e) -> mild (change_env f : Eff St unit).
Proof. intros Hf s Hs. split; [split; [exact Hs|simpl; hlia|done]|apply Hf]. Qed.

Lemma mild_ask oracle : mild (ask oracle : Eff St bool).
Proof. intros s Hs. split; [|done]. by split. Qed.

Lemma mild_env {A} (f : ProcessEnvironment -> A) : mild (the_env f : Eff St A).
Proof. intros s Hs. split; [by apply later_refl|done]. Qed.

Ltac mildly :=
  repeat (intros;
    lazymatch goal with
    | |- mild (fbind _ _) => apply mild_bind
    | |- mild (the_env _) => apply mild_env
    | |- mild (allocate_memory _) => apply mild_ask
    | |- mild (fret _) => apply mild_ret
    | |- mild failed => apply mild_err
    | |- mild (ferr _) => apply mild_err
    | |- mild (change_env _) => by apply mild_change
    | |- mild (match ?x with _ => _ end) => destruct x
    end).

Lemma mild_add value : mild (add_sysv_environment alloc_ok value : Eff St unit).
Proof. unfold add_sysv_environment, grow_sysv. mildly. Qed.

Lemma mild_given values : mild (add_all_given alloc_ok values : Eff St unit).
Proof.
  induction values as [|v values IH]; simpl; [apply mild_ret|]. apply mild_bind; [|done].
  unfold add_given. mildly. apply mild_add.
Qed.

Lemma mild_standard name home shell : mild (standard_sysv alloc_ok name home shell : Eff St unit).
Proof. unfold standard_sysv, formatted. mildly; intros; apply mild_add. Qed.

(** A clone is a new handle for the same object. *)
Lemma pwp_clone h (s : St) :
  handles_ok s ->
  pwp (handle_clone alloc_ok h) s (fun copy s' =>
    later s s' /\ ps_env s' = ps_env s /\ copy = nx s /\ nx s' = nx s + 1 /\
    exists o, lv s !! h = Some o /\ lv s' !! copy = Some o).
Proof.
  intros [Hp Hl]. unfold handle_clone. destruct (h =? 0); [done|]. unfold pwp, fbind, object_of, allocate, ask. simpl.
  destruct (lv s !! h) as [o|] eqn:Eo; [|done]. simpl. destruct (alloc_ok _); [|done]. simpl. split_and!; try done.
  - split; simpl; [|hlia|].
    + split; simpl; [hlia|]. intros k x [[<- <-]|[_ Hk]]%lookup_insert_Some; [hlia|]. apply Hl in Hk. hlia.
    + intros k Hk. apply lookup_insert_ne. hlia.
  - exists o. split; [done|]. simpl. apply lookup_insert_eq.
Qed.

(** A handle made since [s0] is released. *)
Lemma pwp_then_release {A} (m : Eff St A) s0 s h Q :
  nx s0 <= h -> later s0 s ->
  pwp m s (fun a s1 => later s0 s1 /\ forall s2, later s0 s2 -> ps_env s2 = ps_env s1 ->
     (forall k, k <> h -> lv s2 !! k = lv s1 !! k) -> Q a s2) ->
  pwp (then_release m h) s Q.
Proof.
  intros Hh L Hm. unfold pwp, then_release in *. destruct (m s) as [[a|c|] s1]; [|by destruct (handle_release h s1) as [[]]|done].
  destruct Hm as [[[Hp Hl] N1 L1] Hq]. unfold handle_release. destruct (Z.eqb_spec h 0) as [->|Hne].
  { simpl. apply Hq; done. }
  unfold fbind, object_of. simpl. destruct (lv s1 !! h); [|done]. simpl. apply Hq; simpl; [|done|].
  - split; simpl; [|hlia|].
    + split; simpl; [hlia|]. intros k x [_ Hk]%lookup_delete_Some. by eapply Hl.
    + intros k Hk. rewrite lookup_delete_ne by hlia. by apply L1.
  - intros k Hk. simpl. by apply lookup_delete_ne.
Qed.

(** A call through a clone. *)
Lemma pwp_through {A} h (use : O -> Eff St A) s Q :
  handles_ok s ->
  (forall o s1, lv s !! h = Some o -> later s s1 -> ps_env s1 = ps_env s -> nx s < nx s1 ->
     pwp (use o) s1 (fun a s2 => later s1 s2 /\ forall s3, later s s3 -> ps_env s3 = ps_env s2 ->
       (forall k, k <> nx s -> lv s3 !! k = lv s2 !! k) -> Q a s3)) ->
  pwp (through_clone alloc_ok proxy_ok h use) s Q.
Proof.
  intros Hs Huse. unfold through_clone. apply pwp_bind. eapply pwp_mono; [by apply pwp_clone|].
  intros copy s1 (L1 & E1 & -> & N1 & o & Ho & Ho1). unfold owned_proxy. destruct (nx s =? 0); [done|].
  apply pwp_bind. eapply pwp_mono; [apply pwp_and; [apply (mild_ask proxy_ok), L1|]|].
  { unfold pwp, ask. simpl. instantiate (1 := fun _ s2 => lv s2 = lv s1 /\ ps_env s2 = ps_env s1 /\ nx s2 = nx s1). done. }
  intros ok s2 [[L2 _] (V2 & E2 & N2)]. apply (pwp_then_release _ s); [done|by eapply later_trans|].
  destruct (negb ok); [done|]. apply pwp_bind. unfold pwp at 1, object_of. simpl. rewrite V2, Ho1.
  eapply pwp_mono; [apply (Huse o s2); [done|by eapply later_trans|congruence|hlia]|].
  intros a s3 [L3 Hq]. split; [|exact Hq]. eapply later_trans; [exact L1|]. by eapply later_trans.
Qed.

(** ** Identity *)

Lemma outside_pwp {A} (m : Eff St A) s : outside m -> pwp m s (fun _ s' => ps_env s' = ps_env s).
Proof. intros Hm. specialize (Hm s). unfold pwp. by destruct (m s) as [[]]. Qed.

Lemma mild_remote {A} (r : answer A) : mild (remote r : Eff St A).
Proof. unfold remote. mildly. Qed.

Lemma mild_texts o : mild (principal_texts alloc_ok o : Eff St _).
Proof. unfold principal_texts, copy_facet_string. mildly; intros; apply mild_remote. Qed.

(** A received object gets a new handle. *)
Lemma pwp_remote_handle r (s : St) :
  handles_ok s ->
  pwp (remote_handle r) s (fun h s' =>
    later s s' /\ ps_env s' = ps_env s /\ h = nx s /\ nx s' = nx s + 1 /\ exists o, r = inl o /\ lv s' !! h = Some o).
Proof.
  intros [Hp Hl]. unfold remote_handle, remote. destruct r as [o|]; [|done]. unfold pwp, fbind, handle_of_object. simpl.
  split_and!; try done.
  - split; simpl; [|hlia|].
    + split; simpl; [hlia|]. intros k x [[<- <-]|[_ Hk]]%lookup_insert_Some; [hlia|]. apply Hl in Hk. hlia.
    + intros k Hk. apply lookup_insert_ne. hlia.
  - exists o. split; [done|]. simpl. apply lookup_insert_eq.
Qed.

(** Where the credentials of a process come from. *)
Definition entitled (s : St) (session : Z) (source : option (Z * Z * bool)) (credentials : Z * Z * bool) : Prop :=
  match source with
  | Some c => credentials = c
  | None =>
      if session =? 0 then credentials = (0, 0, true)
      else exists o, lv s !! session = Some o /\ session_get_credentials o = inl credentials
  end.

Lemma pwp_mild {A C} (m : Eff St A) (k : A -> Eff St C) s Q :
  mild m -> handles_ok s ->
  (forall a s1, later s s1 -> core (ps_env s1) = core (ps_env s) -> pwp (k a) s1 Q) -> pwp (fbind m k) s Q.
Proof.
  intros Hm Hs Hk. apply pwp_bind. eapply pwp_mono; [by apply Hm|]. intros a s1 [L Hc]. by apply Hk.
Qed.

Lemma pwp_session_identity session s :
  handles_ok s -> session < nx s ->
  pwp (session_identity alloc_ok proxy_ok session) s (fun id s' => later s s' /\ entitled s session None (fst id)).
Proof.
  intros Hs Hses. unfold session_identity.
  apply pwp_mild; [apply mild_ask|done|]. intros n s1 L1 _. apply pwp_mild; [apply mild_ask|apply L1|]. intros h s2 L2 _.
  apply pwp_mild; [apply mild_ask|apply L2|]. intros x s3 L3 _.
  assert (L : later s s3) by (eapply later_trans; [exact L1|by eapply later_trans]). clear L1 L2 L3.
  destruct (_ || _)%bool; [done|]. destruct (Z.eqb_spec session 0) as [->|Hne]; [by apply pwp_ret|].
  apply pwp_bind. eapply (pwp_mono _ _ (fun r s4 => later s s4 /\ nx s <= snd r /\ entitled s session None (fst r))).
  - apply pwp_through; [apply L|]. intros o s4 Ho L4 E4 N4. rewrite (lt_live _ _ L) in Ho by done.
    destruct (session_get_credentials o) as [credentials|] eqn:Ec; [|done]. apply pwp_bind, pwp_ret, pwp_bind.
    eapply pwp_mono; [apply pwp_remote_handle, L4|]. intros p s5 (L5 & _ & -> & _ & _). apply pwp_ret. split; [done|].
    intros s6 L6 _ _. split_and!; [by eapply later_trans|simpl; pose proof (lt_next _ _ L); hlia|].
    unfold entitled. rewrite (proj2 (Z.eqb_neq session 0)) by done. by exists o.
  - intros [credentials principal] s4 (L4 & Hp & He). simpl in *. apply pwp_bind. unfold owned_proxy.
    destruct (principal =? 0); [done|]. apply pwp_mild; [apply mild_ask|apply L4|]. intros ok s5 L5 _.
    apply (pwp_then_release _ s); [done|by eapply later_trans|]. destruct (negb ok); [done|].
    apply pwp_bind. unfold pwp at 1, object_of. destruct (live (world s5) !! principal); [|done].
    eapply pwp_mono; [apply mild_texts, L5|]. intros texts s6 [L6 _].
    split; [eapply later_trans; [exact L4|by eapply later_trans]|]. intros s7 L7 _ _. by apply pwp_ret.
Qed.

(** ** What is handed out *)

Inductive granted (credentials : Z * Z * bool) (native bootstrap : bool) (e : ProcessEnvironment) (b : ProcessBinding) : Prop :=
  | granted_service :
      native = true -> pb_name b ∈ [B "logger"; B "processes"] ->
      resolve_in_parent (pb_name b) = (FACET_OK, Some (pb_iid b, pb_handle b)) -> granted credentials native bootstrap e b
  | granted_authority :
      native = true -> bootstrap = true -> pb_name b ∈ [B "auth"; B "security"] ->
      resolve_in_parent (pb_name b) = (FACET_OK, Some (pb_iid b, pb_handle b)) -> granted credentials native bootstrap e b
  | granted_files c :
      credential_store (fst (fst credentials)) (snd (fst credentials)) (snd credentials) = Some c ->
      b = mkProcessBinding (B "files") IID_IFileStore (cf_handle c) -> granted credentials native bootstrap e b
  | granted_session :
      native = true -> b = mkProcessBinding (B "session") IID_ISession (owned_session e) -> granted credentials native bootstrap e b
  | granted_cwd : b = mkProcessBinding (B "cwd") IID_IDirectory (owned_cwd e) -> granted credentials native bootstrap e b.

Definition credentials_of (e : ProcessEnvironment) : Z * Z * bool := (pe_uid e, pe_gid e, pe_admin e).

(** A creation on its way: the names in [open] are not bound yet. *)
Record handing (s0 : St) (native bootstrap : bool) (open : list bytes) (s : St) : Prop := {
  hd_later : later s0 s;
  hd_form : penv_ok (ps_env s);
  hd_granted : Forall (granted (credentials_of (ps_env s)) native bootstrap (ps_env s)) (pe_bindings (ps_env s));
  hd_open : Forall (fun n => n ∉ pb_name <$> pe_bindings (ps_env s)) open
}.

(** A mild step that keeps the form. *)
Lemma handing_mild {A} (m : Eff St A) s0 native bootstrap open s Q :
  mild m -> forms m -> handing s0 native bootstrap open s ->
  (forall a s', handing s0 native bootstrap open s' -> credentials_of (ps_env s') = credentials_of (ps_env s) ->
     owned_cwd (ps_env s') = owned_cwd (ps_env s) -> later s s' -> Q a s') ->
  pwp m s Q.
Proof.
  intros Hm Hf [L F G P] HQ. specialize (Hm s (lt_ok _ _ L)). specialize (Hf s F). unfold pwp in *.
  destruct (m s) as [[a|c|] s']; [|done..]. destruct Hm as [L' C]. simpl in Hf. injection C as Cb Cs Cc Cu Cg Ca.
  assert (Hc : credentials_of (ps_env s') = credentials_of (ps_env s)) by (unfold credentials_of; congruence).
  apply HQ; [|done|done|done]. split; [by eapply later_trans|done| |by rewrite Cb].
  rewrite Cb, Hc. eapply Forall_impl; [exact G|]. intros b []; [by eapply granted_service|by eapply granted_authority|
    by eapply granted_files|eapply granted_session; [done|by rewrite Cs]|eapply granted_cwd; by rewrite Cc].
Qed.

(** A binding that is granted. *)
Lemma handing_bind s0 native bootstrap open s n i h Q :
  handing s0 native bootstrap open s -> n ∉ open ->
  granted (credentials_of (ps_env s)) native bootstrap (ps_env s) (mkProcessBinding n i h) ->
  (n = B "cwd" -> h = owned_cwd (ps_env s)) ->
  (forall s', handing s0 native bootstrap open s' -> credentials_of (ps_env s') = credentials_of (ps_env s) ->
     owned_cwd (ps_env s') = owned_cwd (ps_env s) -> later s s' -> Q tt s') ->
  pwp (ProcessEnvironment.bind alloc_ok (Some n) i h) s Q.
Proof.
  intros [L F G P] Hn Hg Hcwd HQ.
  assert (Hform : penv_ok (ps_env (snd (ProcessEnvironment.bind alloc_ok (Some n) i h s)))).
  { apply forms_bind_at; [done|]. intros [= ->]. by apply Hcwd. }
  revert Hform. unfold pwp, ProcessEnvironment.bind, fbind, the_env, fget. simpl. unfold id.
  destruct (_ || _)%bool; [done|]. case_bool_decide; [done|]. unfold allocate_memory, allocate, ask.
  destruct (alloc_ok _); simpl; [|done]. intros Hform.
  assert (L' : later s (mkProcessState (mkWorld (lv s) (nx s) (S (steps (ps_world s)))) (ps_refs s)
    (set_bindings (pe_bindings (ps_env s) ++ [mkProcessBinding n i h]) (ps_env s)))).
  { split; simpl; [apply L|hlia|done]. }
  apply HQ; [|done|done|done]. split; simpl; [by eapply later_trans|done| |].
  - apply Forall_app_2; [|apply Forall_singleton].
    + eapply Forall_impl; [exact G|]. intros b []; [by eapply granted_service|by eapply granted_authority|
        by eapply granted_files|by eapply granted_session|by eapply granted_cwd].
    + destruct Hg; [by eapply granted_service|by eapply granted_authority|
        by eapply granted_files|by eapply granted_session|by eapply granted_cwd].
  - rewrite Forall_forall in P. apply Forall_forall. intros m Hm. rewrite fmap_app, elem_of_app. simpl.
    intros [Hin|Hin]; [by eapply P|]. apply list_elem_of_singleton in Hin as ->. done.
Qed.

Lemma handing_delegate s0 native bootstrap open names s Q :
  handing s0 native bootstrap open s -> native = true ->
  Forall (fun n => n ∉ open /\ n <> B "cwd" /\
    (n ∈ [B "logger"; B "processes"] \/ bootstrap = true /\ n ∈ [B "auth"; B "security"])) names ->
  (forall s', handing s0 native bootstrap open s' -> credentials_of (ps_env s') = credentials_of (ps_env s) ->
     owned_cwd (ps_env s') = owned_cwd (ps_env s) -> Q tt s') ->
  pwp (delegate alloc_ok resolve_in_parent names) s Q.
Proof.
  intros Hh Hnative Hn. revert s Hh. induction names as [|n names IH]; intros s Hh HQ; simpl; [by apply HQ|].
  apply Forall_cons in Hn as [(Hopen & Hcwd & Hn) Hns].
  destruct (resolve_in_parent n) as [[] [[i h]|]] eqn:Er; try (apply pwp_bind, pwp_ret; by apply IH).
  apply pwp_bind. apply (handing_bind s0 native bootstrap open); [done|done| |done|].
  - destruct Hn as [Hn|[Hb Hn]]; [by apply granted_service|by apply granted_authority].
  - intros s1 H1 C1 W1 _. apply IH; [done|done|]. intros s2 H2 C2 W2. apply HQ; [done|congruence..].
Qed.

Lemma handing_weaken s0 native bootstrap n open s :
  handing s0 native bootstrap (n :: open) s -> handing s0 native bootstrap open s.
Proof. intros [L F G P]. apply Forall_cons in P as [_ P]. by split. Qed.

(** The owner of a name that is not bound yet changes. *)
Lemma handing_session s0 native bootstrap open h s :
  handing s0 native bootstrap (B "session" :: open) s ->
  handing s0 native bootstrap (B "session" :: open)
    (mkProcessState (ps_world s) (ps_refs s) (set_owned_session h (ps_env s))).
Proof.
  intros [L F G P]. pose proof P as [Hno _]%Forall_cons. split; [by destruct L|by destruct F| |done]. simpl.
  rewrite Forall_forall in G. apply Forall_forall. intros b Hb.
  destruct (G b Hb) as [| |c|Hn Hs|]; [by eapply granted_service|by eapply granted_authority|by eapply granted_files| |by eapply granted_cwd].
  destruct Hno. apply list_elem_of_fmap. exists b. split; [by rewrite Hs|done].
Qed.

Lemma handing_cwd s0 native bootstrap open h s :
  handing s0 native bootstrap (B "cwd" :: open) s ->
  handing s0 native bootstrap (B "cwd" :: open)
    (mkProcessState (ps_world s) (ps_refs s) (set_owned_cwd h (ps_env s))).
Proof.
  intros [L F G P]. pose proof P as [Hno _]%Forall_cons.
  assert (Hnot : forall b, b ∈ pe_bindings (ps_env s) -> pb_name b = B "cwd" -> False).
  { intros b Hb Hn. apply Hno. apply list_elem_of_fmap. by exists b. }
  split; [by destruct L| | |done]; simpl.
  - destruct F. split; simpl; try done. intros b Hb Hn. by destruct (Hnot b Hb).
  - rewrite Forall_forall in G. apply Forall_forall. intros b Hb.
    destruct (G b Hb) as [| |c|Hn Hs|Hc]; [by eapply granted_service|by eapply granted_authority|by eapply granted_files|by eapply granted_session|].
    destruct (Hnot b Hb). by rewrite Hc.
Qed.

(** The current directory was opened through the store of the process itself. *)
Definition own_directory (s0 s : St) (credentials : Z * Z * bool) (h : Z) : Prop :=
  exists c store path o,
    credential_store (fst (fst credentials)) (snd (fst credentials)) (snd credentials) = Some c /\
    lv s0 !! cf_handle c = Some store /\ store_open_directory store path = inl o /\ lv s !! h = Some o.

Lemma own_directory_later s0 s s' credentials h :
  own_directory s0 s credentials h -> handles_ok s -> later s s' -> own_directory s0 s' credentials h.
Proof.
  intros (c & store & path & o & Hc & Hs & Ho & Hl) [_ Hok] [_ _ Hlive]. exists c, store, path, o. split_and!; [done..|].
  rewrite Hlive; [done|]. apply Hok in Hl. hlia.
Qed.

Lemma files_granted s0 native bootstrap open s b :
  handing s0 native bootstrap open s -> find_binding (Some (B "files")) (ps_env s) = Some b ->
  exists c, credential_store (pe_uid (ps_env s)) (pe_gid (ps_env s)) (pe_admin (ps_env s)) = Some c /\ pb_handle b = cf_handle c.
Proof.
  intros [_ _ G _] [Hb Hn]%find_binding_some. injection Hn as Hn. rewrite Forall_forall in G.
  destruct (G b Hb) as [_ Hin _|_ _ Hin _|c Hc Heq|_ Heq|Heq].
  - exfalso. rewrite <- Hn in Hin. revert Hin. change (B "files" ∉ [B "logger"; B "processes"]). by_decide.
  - exfalso. rewrite <- Hn in Hin. revert Hin. change (B "files" ∉ [B "auth"; B "security"]). by_decide.
  - exists c. split; [done|]. by rewrite Heq.
  - by rewrite Heq in Hn.
  - by rewrite Heq in Hn.
Qed.

Lemma pwp_open_in_store s0 native bootstrap open path s :
  handing s0 native bootstrap open s ->
  (forall u g a c, credential_store u g a = Some c -> cf_handle c < nx s0) ->
  pwp (open_in_store alloc_ok proxy_ok path) s (fun h s' =>
    later s s' /\ ps_env s' = ps_env s /\ own_directory s0 s' (credentials_of (ps_env s)) h).
Proof.
  intros Hh Hold. unfold open_in_store. apply pwp_bind, pwp_get. unfold id.
  destruct (find_binding (Some (B "files")) (ps_env s)) as [b|] eqn:Eb; [|done].
  destruct (files_granted _ _ _ _ _ _ Hh Eb) as (c & Hc & Hbc). destruct Hh as [L _ _ _].
  apply pwp_through; [apply L|]. intros store s1 Hs L1 E1 N1. rewrite Hbc, (lt_live _ _ L) in Hs by (by eapply Hold).
  eapply pwp_mono; [apply pwp_remote_handle, L1|]. intros h s2 (L2 & E2 & -> & N2 & o & Ho & Hl). split; [done|].
  intros s3 L3 E3 Hk. split_and!; [done|congruence|]. exists c, store, path, o. split_and!; try done.
  rewrite Hk; [done|hlia].
Qed.

Lemma pwp_open_root s0 native bootstrap open s Q :
  handing s0 native bootstrap (B "cwd" :: open) s ->
  (forall u g a c, credential_store u g a = Some c -> cf_handle c < nx s0) ->
  (forall s', handing s0 native bootstrap (B "cwd" :: open) s' -> credentials_of (ps_env s') = credentials_of (ps_env s) ->
     owned_cwd (ps_env s') = owned_cwd (ps_env s) \/ own_directory s0 s' (credentials_of (ps_env s)) (owned_cwd (ps_env s')) -> Q tt s') ->
  pwp (open_root alloc_ok proxy_ok) s Q.
Proof.
  intros Hh Hold HQ. unfold open_root. apply pwp_bind, pwp_get. unfold id.
  destruct (find_binding (Some (B "files")) (ps_env s)) as [b|] eqn:Eb; [|apply pwp_ret, HQ; [done|done|by left]].
  destruct (files_granted _ _ _ _ _ _ Hh Eb) as (c & Hc & Hbc). pose proof (hd_later _ _ _ _ _ Hh) as L.
  assert (Hsame : forall s', later s s' -> ps_env s' = ps_env s -> handing s0 native bootstrap (B "cwd" :: open) s').
  { intros s' L' E'. destruct Hh as [_ F G P]. split; rewrite ?E'; try done. by eapply later_trans. }
  unfold pwp, ftry. pose proof (pwp_clone (pb_handle b) s (lt_ok _ _ L)) as Hcl. unfold pwp in Hcl.
  destruct (handle_clone alloc_ok (pb_handle b) s) as [[copy|code|] s1] eqn:Ecl; [| |done].
  2: { simpl. assert (s1 = s \/ (later s s1 /\ ps_env s1 = ps_env s)) as Hs1.
       { revert Ecl. unfold handle_clone. destruct (_ =? 0); [intros [= _ <-]; by left|].
         unfold fbind, object_of, allocate, ask. destruct (live (world s) !! pb_handle b); [|done].
         destruct (alloc_ok _); [done|]. intros [= _ <-]. right. split; [|done]. split; simpl; [apply L|hlia|done]. }
       destruct Hs1 as [->|[L1 E1]]; [apply HQ; [done|done|by left]|].
       apply HQ; [by apply Hsame|by rewrite E1|left; by rewrite E1]. }
  destruct Hcl as (L1 & E1 & -> & N1 & o & Ho & Ho1).
  change (pwp (fbind (ask proxy_ok) (fun ok => if negb ok then handle_release (nx s)
    else fbind (then_release (fbind (object_of (nx s)) (fun store => remote_handle (store_open_directory store (B "/")))) (nx s))
           (fun root => change_env (set_owned_cwd root)))) s1 Q).
  apply pwp_bind. unfold pwp at 1, ask. simpl. set (s2 := mkProcessState _ _ _).
  assert (L2 : later s s2) by (destruct L1; split; done).
  assert (E2 : ps_env s2 = ps_env s) by done.
  destruct (negb _).
  { eapply (pwp_mono _ _ (fun _ s' => later s s' /\ ps_env s' = ps_env s)).
    - assert (Hrel : pwp (then_release (fret tt) (nx s)) s2 (fun _ s' => later s s' /\ ps_env s' = ps_env s)).
      { apply (pwp_then_release _ s); [hlia|done|]. apply pwp_ret. split; [done|]. intros s3 L3 E3 _. split; [done|congruence]. }
      revert Hrel. unfold pwp, then_release. simpl. by destruct (handle_release (nx s) s2) as [[[]|c1|] s9].
    - intros [] s3 [L3 E3]. apply HQ; [by apply Hsame|by rewrite E3|left; by rewrite E3]. }
  apply pwp_bind. apply (pwp_then_release _ s); [hlia|done|]. apply pwp_bind. unfold pwp at 1, object_of. simpl. rewrite Ho1.
  eapply pwp_mono; [apply pwp_remote_handle, L2|]. intros root s3 (L3 & E3 & -> & N3 & x & Hx & Hl).
  split; [by eapply later_trans|]. intros s4 L4 E4 Hk. apply pwp_put.
  assert (Hs4 : handing s0 native bootstrap (B "cwd" :: open) s4) by (apply Hsame; [done|congruence]).
  assert (Hcred : credentials_of (ps_env s4) = credentials_of (ps_env s)) by (by rewrite E4, E3, E2).
  apply HQ; [by apply handing_cwd|exact Hcred|right]. exists c, o, (B "/"), x. simpl. split_and!; try done.
  - rewrite Hbc, (lt_live _ _ L) in Ho by (by eapply Hold). done.
  - rewrite Hk; [done|]. change (nx s2) with (nx s1). hlia.
Qed.

Lemma forms_sysv_part sysv name home shell :
  forms (match sysv with
         | Some values => if (SYSV_MAX <? length values)%nat then failed else add_all_given alloc_ok values
         | None => standard_sysv alloc_ok name home shell
         end : Eff St unit).
Proof.
  destruct sysv as [values|].
  - destruct (_ <? _)%nat; [by apply outside_forms|]. induction values as [|v values IH]; simpl; [by apply outside_forms|].
    apply forms_bind; [|done]. unfold add_given. destruct (_ || _)%bool; [by apply outside_forms|].
    apply forms_bind; [apply forms_memory|]. intros []; simpl; [apply forms_add_sysv|by apply outside_forms].
  - unfold standard_sysv, formatted.
    repeat (apply forms_bind; [destruct (_ <=? _)%nat; by apply outside_forms|intros ?]).
    repeat (apply forms_bind; [apply forms_add_sysv|intros ?]). apply forms_add_sysv.
Qed.

Lemma mild_sysv_part sysv name home shell :
  mild (match sysv with
        | Some values => if (SYSV_MAX <? length values)%nat then failed else add_all_given alloc_ok values
        | None => standard_sysv alloc_ok name home shell
        end : Eff St unit).
Proof. destruct sysv; [|apply mild_standard]. destruct (_ <? _)%nat; [apply mild_err|apply mild_given]. Qed.

(** What creation promises about the new environment. *)
Record confined (s0 : St) (native bootstrap : bool) (session : Z) (source : option (Z * Z * bool)) (s : St) : Prop := {
  cf_form : penv_ok (ps_env s);
  cf_entitled : entitled s0 session source (credentials_of (ps_env s));
  cf_granted : Forall (granted (credentials_of (ps_env s)) native bootstrap (ps_env s)) (pe_bindings (ps_env s));
  cf_cwd : owned_cwd (ps_env s) <> 0 -> own_directory s0 s (credentials_of (ps_env s)) (owned_cwd (ps_env s))
}.

Notation create_steps := (create_steps alloc_ok proxy_ok process_object IID_IFileStore IID_ISession IID_IDirectory
  credential_store resolve_in_parent).
Notation create := (dominit0_process_environment_create alloc_ok proxy_ok process_object IID_IFileStore IID_ISession IID_IDirectory
  credential_store resolve_in_parent).

(** The last steps: the name of the current directory and the export. *)
Lemma pwp_finish s0 native bootstrap session source s :
  handing s0 native bootstrap [B "cwd"] s -> entitled s0 session source (credentials_of (ps_env s)) ->
  (owned_cwd (ps_env s) <> 0 -> own_directory s0 s (credentials_of (ps_env s)) (owned_cwd (ps_env s))) ->
  pwp (fbind (the_env id) (fun e =>
       fbind (if owned_cwd e =? 0 then fret tt else ProcessEnvironment.bind alloc_ok (Some (B "cwd")) IID_IDirectory (owned_cwd e)) (fun _ =>
       fbind (export_interface alloc_ok process_object) (fun h => change_env (set_pe_handle h))))) s
    (fun _ s' => confined s0 native bootstrap session source s').
Proof.
  intros Hh He Hown. apply handing_weaken in Hh. apply pwp_bind, pwp_get. unfold id.
  assert (Hend : forall s1, handing s0 native bootstrap [] s1 -> credentials_of (ps_env s1) = credentials_of (ps_env s) ->
    owned_cwd (ps_env s1) = owned_cwd (ps_env s) -> later s s1 ->
    pwp (fbind (export_interface alloc_ok process_object) (fun h => change_env (set_pe_handle h))) s1
      (fun _ s' => confined s0 native bootstrap session source s')).
  { intros s1 [L1 F1 G1 _] C1 W1 L. unfold pwp, export_interface, allocate, ask, fbind. simpl.
    destruct (alloc_ok _); simpl; [|done]. split; simpl.
    - by destruct F1.
    - unfold credentials_of in *. simpl. by rewrite C1.
    - eapply Forall_impl; [exact G1|]. intros b []; [by eapply granted_service|by eapply granted_authority|
        by eapply granted_files|by eapply granted_session|by eapply granted_cwd].
    - intros Hne. rewrite W1 in *. destruct (Hown Hne) as (c & store & path & o & Hc & Hs & Ho & Hl).
      exists c, store, path, o. unfold credentials_of in C1, Hc |- *. simpl in Hc |- *. injection C1 as -> -> ->. split_and!; try done. simpl.
      assert (Hlt : owned_cwd (ps_env s) < nx s) by (destruct (hd_later _ _ _ _ _ Hh) as [[_ Hok] _ _]; apply Hok in Hl; hlia).
      rewrite lookup_insert_ne by (pose proof (lt_next _ _ L); hlia). by rewrite (lt_live _ _ L). }
  destruct (Z.eqb_spec (owned_cwd (ps_env s)) 0) as [Hz|Hne].
  - apply pwp_bind, pwp_ret, Hend; [done..|]. apply later_refl, Hh.
  - apply pwp_bind. apply (handing_bind s0 native bootstrap []); [done|set_solver|by apply granted_cwd|done|]. exact Hend.
Qed.

(** The identity of the new process. *)
Lemma pwp_identity session source s :
  handles_ok s -> session < nx s ->
  pwp (match source with
       | Some credentials =>
           fbind (allocate_memory alloc_ok) (fun n => fbind (allocate_memory alloc_ok) (fun h =>
           fbind (allocate_memory alloc_ok) (fun x =>
           if (negb n || negb h || negb x)%bool then failed else fret (credentials, (B "root", B "/", B "/bin/sh")))))
       | None => session_identity alloc_ok proxy_ok session
       end) s
    (fun id s' => later s s' /\ ps_env s' = ps_env s /\ entitled s session source (fst id)).
Proof.
  intros Hs Hses. destruct source as [credentials|].
  - unfold allocate_memory, allocate, ask, fbind, pwp. simpl.
    destruct (negb _ || _ || _)%bool; simpl; [done|]. split_and!; [by split|done|done].
  - eapply pwp_mono; [apply pwp_and; [by apply pwp_session_identity|apply outside_pwp, outside_identity]|].
    by intros id s' [[L He] E].
Qed.

Lemma handing_identity s0 native bootstrap open uid gid admin s :
  handing s0 native bootstrap open s -> pe_bindings (ps_env s) = [] ->
  handing s0 native bootstrap open (mkProcessState (ps_world s) (ps_refs s) (set_identity uid gid admin (ps_env s))).
Proof. intros [L F G P] Hb. split; [by destruct L|by destruct F|simpl; rewrite Hb; done|done]. Qed.

Lemma handing_mild_bind {A C} (m : Eff St A) (k : A -> Eff St C) s0 native bootstrap open s Q :
  mild m -> forms m -> handing s0 native bootstrap open s ->
  (forall a s', handing s0 native bootstrap open s' -> credentials_of (ps_env s') = credentials_of (ps_env s) ->
     owned_cwd (ps_env s') = owned_cwd (ps_env s) -> pwp (k a) s' Q) ->
  pwp (fbind m k) s Q.
Proof.
  intros Hm Hf Hh Hk. apply pwp_bind. apply (handing_mild m s0 native bootstrap open); [done..|].
  intros a s' H' C' W' _. by apply Hk.
Qed.

(** The file store and the session. *)
Lemma handing_files s0 native bootstrap open (domain_initrd : bool) s Q :
  handing s0 native bootstrap open s -> B "files" ∉ open ->
  (forall s', handing s0 native bootstrap open s' -> credentials_of (ps_env s') = credentials_of (ps_env s) ->
     owned_cwd (ps_env s') = owned_cwd (ps_env s) -> Q tt s') ->
  pwp (if domain_initrd then
         match credential_store (pe_uid (ps_env s)) (pe_gid (ps_env s)) (pe_admin (ps_env s)) with
         | None => failed
         | Some c =>
             fbind (take_store (cf_handle c)) (fun _ =>
             fbind (change_env (set_credential_files (Some c))) (fun _ =>
             ProcessEnvironment.bind alloc_ok (Some (B "files")) IID_IFileStore (cf_handle c)))
         end
       else fret tt) s Q.
Proof.
  intros Hh Hopen HQ. destruct domain_initrd; [|by apply HQ].
  destruct (credential_store _ _ _) as [c|] eqn:Ec; [|done].
  assert (Hm : mild (take_store (cf_handle c) : Eff St unit)) by (intros x Hx; split; [by destruct Hx; split|done]).
  apply (handing_mild_bind _ _ s0 native bootstrap open); [done|by apply outside_forms|done|]. intros _ s1 H1 C1 W1.
  apply (handing_mild_bind _ _ s0 native bootstrap open); [by apply mild_change|apply forms_change; by intros e []|done|].
  intros _ s2 H2 C2 W2. apply (handing_bind s0 native bootstrap open); [done|done| |done|].
  - eapply granted_files; [|done]. rewrite C2, C1. exact Ec.
  - intros s3 H3 C3 W3 _. apply HQ; [done|congruence..].
Qed.

Lemma handing_owned_session s0 native bootstrap session s Q :
  handing s0 native bootstrap [B "session"; B "cwd"] s ->
  (forall s', handing s0 native bootstrap [B "cwd"] s' -> credentials_of (ps_env s') = credentials_of (ps_env s) ->
     owned_cwd (ps_env s') = owned_cwd (ps_env s) -> Q tt s') ->
  pwp (if session =? 0 then fret tt
       else fbind (handle_clone alloc_ok session) (fun copy =>
            fbind (change_env (set_owned_session copy)) (fun _ =>
            if native then ProcessEnvironment.bind alloc_ok (Some (B "session")) IID_ISession copy else fret tt))) s Q.
Proof.
  intros Hh HQ. destruct (session =? 0); [apply HQ; [by eapply handing_weaken|done|done]|].
  apply pwp_bind. eapply pwp_mono; [apply pwp_clone, Hh|]. intros copy s1 (L1 & E1 & _).
  assert (H1 : handing s0 native bootstrap [B "session"; B "cwd"] s1).
  { destruct Hh as [L F G P]. split; rewrite ?E1; try done. by eapply later_trans. }
  apply pwp_bind, pwp_put. apply (handing_session _ _ _ _ copy) in H1. apply handing_weaken in H1.
  destruct native eqn:En.
  - apply (handing_bind s0 true bootstrap [B "cwd"]); [done|by_decide|by apply granted_session|done|].
    intros s3 H3 C3 W3 _. apply HQ; [done| |]; [rewrite C3|rewrite W3]; simpl; unfold credentials_of; simpl; by rewrite E1.
  - apply pwp_ret, HQ; [done|unfold credentials_of; simpl; by rewrite E1|simpl; by rewrite E1].
Qed.

(** The services of the domain. *)
Lemma handing_services s0 native bootstrap credentials s Q :
  let part := fun s => handing s0 native bootstrap [B "session"; B "cwd"] s /\
    credentials_of (ps_env s) = credentials /\ owned_cwd (ps_env s) = 0 in
  part s -> (forall s', part s' -> Q tt s') ->
  pwp (fbind (if native then delegate alloc_ok resolve_in_parent [B "logger"; B "processes"] else fret tt) (fun _ =>
       if (bootstrap && native)%bool then delegate alloc_ok resolve_in_parent [B "auth"; B "security"] else fret tt)) s Q.
Proof.
  intros part (H1 & C1 & W1) HQ. eapply pwp_bind, (pwp_mono _ _ (fun _ => part)).
  { destruct native eqn:En; [|by apply pwp_ret].
    apply (handing_delegate s0 true bootstrap [B "session"; B "cwd"]); [done|done| |intros s2 H2 C2 W2; split_and!; [done|congruence..]].
    repeat constructor; try by_decide; left; by_decide. }
  intros _ s2 (H2 & C2 & W2). destruct bootstrap, native; cbn [andb]; try (by apply HQ).
  apply (handing_delegate s0 true true [B "session"; B "cwd"]); [done|done| |intros s3 H3 C3 W3; apply HQ; split_and!; [done|congruence..]].
  repeat constructor; try by_decide; right; (split; [done|by_decide]).
Qed.

(** The current directory. *)
Lemma handing_directory s0 native bootstrap cwd s :
  handing s0 native bootstrap [B "cwd"] s -> owned_cwd (ps_env s) = 0 ->
  (forall u g a c, credential_store u g a = Some c -> cf_handle c < nx s0) ->
  pwp (if cwd =? 0 then open_root alloc_ok proxy_ok
       else fbind (through_clone alloc_ok proxy_ok cwd (fun o => remote (dir_path o))) (fun path =>
            fbind (open_in_store alloc_ok proxy_ok path) (fun directory => change_env (set_owned_cwd directory)))) s
    (fun _ s' => handing s0 native bootstrap [B "cwd"] s' /\ credentials_of (ps_env s') = credentials_of (ps_env s) /\
       (owned_cwd (ps_env s') <> 0 -> own_directory s0 s' (credentials_of (ps_env s')) (owned_cwd (ps_env s')))).
Proof.
  intros H9 W9 Hold. destruct (cwd =? 0).
  - apply (pwp_open_root s0 native bootstrap []); [done|done|]. intros s10 H10 C10 [W10|Hown]; (split_and!; [done|done|]).
    + intros []. congruence.
    + by rewrite C10.
  - apply pwp_bind. apply pwp_through; [apply H9|]. intros o s10 _ L10 E10 _.
    destruct (dir_path o) as [path|]; [|done]. apply pwp_ret. split; [apply later_refl, L10|]. intros s11 L11 E11 _.
    assert (H11 : handing s0 native bootstrap [B "cwd"] s11).
    { destruct H9 as [L F G P]. rewrite <- E10, <- E11 in F, G, P. split; try done. by eapply later_trans. }
    apply pwp_bind. eapply pwp_mono; [by apply (pwp_open_in_store s0 native bootstrap [B "cwd"])|].
    intros h s12 (L12 & E12 & Hown). apply pwp_put. split_and!.
    + apply handing_cwd. destruct H11 as [L F G P]. split; rewrite ?E12; try done. by eapply later_trans.
    + unfold credentials_of. simpl. by rewrite E12, E11, E10.
    + intros _. rewrite <- E12 in Hown. exact Hown.
Qed.

Lemma pwp_create_confined domain_initrd bootstrap native session sysv cwd source (s : ProcessState O) :
  handles_ok s -> session < next_fresh (ps_world s) ->
  (forall u g a c, credential_store u g a = Some c -> cf_handle c < next_fresh (ps_world s)) ->
  pwp (create domain_initrd bootstrap native session sysv cwd source) s
    (fun _ s' => confined s native bootstrap session source s').
Proof.
  intros Hs Hses Hold. unfold dominit0_process_environment_create.
  apply pwp_mild; [apply mild_ask|done|]. intros ok s1 L1 _. destruct (negb ok); [done|].
  apply pwp_bind, pwp_put. set (s2 := mkProcessState _ _ _).
  assert (L2 : later s s2) by (destruct L1; by split).
  assert (H2 : handing s native bootstrap [B "session"; B "cwd"] s2).
  { split; [done|apply penv_ok_empty|done|]. repeat constructor; apply not_elem_of_nil. }
  apply pwp_try; [|intros s'; apply pwp_bind; unfold pwp at 1;
    by destruct (dominit0_process_environment_destroy _) as [[]]].
  eapply (pwp_mono _ _ (fun _ => confined s native bootstrap session source)); [|by intros [] s'].
  unfold ProcessEnvironment.create_steps. apply pwp_bind.
  eapply pwp_mono; [apply pwp_identity; [apply L2|pose proof (lt_next _ _ L2); hlia]|].
  intros [[[uid gid] admin] [[name home] shell]] s3 (L3 & E3 & He). simpl in He.
  assert (H3 : handing s native bootstrap [B "session"; B "cwd"] s3).
  { destruct H2 as [L F G P]. split; rewrite ?E3; try done. by eapply later_trans. }
  assert (He' : entitled s session source (uid, gid, admin)).
  { revert He. unfold entitled. destruct source; [done|]. destruct (session =? 0); [done|]. by rewrite (lt_live _ _ L2). }
  apply pwp_bind, pwp_put. set (s4 := mkProcessState _ _ _).
  assert (H4 : handing s native bootstrap [B "session"; B "cwd"] s4) by (apply handing_identity; [done|by rewrite E3]).
  assert (C4 : credentials_of (ps_env s4) = (uid, gid, admin)) by done.
  assert (W4 : owned_cwd (ps_env s4) = 0) by (simpl; by rewrite E3).
  clearbody s4. clear He H3 L3 E3 s3.
  apply (handing_mild_bind _ _ s native bootstrap [B "session"; B "cwd"]); [apply mild_sysv_part|apply forms_sysv_part|done|].
  intros _ s5 H5 C5 W5.
  apply pwp_assoc, pwp_bind, (handing_services s native bootstrap (uid, gid, admin)); [split_and!; [done|congruence..]|].
  intros s7 (H7 & C7 & W7). pose proof C7 as C7'. unfold credentials_of in C7'. injection C7' as <- <- <-.
  apply pwp_bind. apply (handing_files s native bootstrap [B "session"; B "cwd"]); [done|by_decide|].
  intros s8 H8 C8 W8. apply pwp_bind. apply (handing_owned_session s native bootstrap); [done|]. intros s9 H9 C9 W9.
  eapply pwp_bind, pwp_mono; [apply (handing_directory s native bootstrap); [done|congruence|done]|].
  intros _ s10 (H10 & C10 & Hown). apply pwp_finish; [done| |done]. rewrite C10, C9, C8. exact He'.
Qed.

(** C28: A new process receives no more authority than it is entitled to: its
    credentials are those of its parent, of its session or, without either, of the
    bootstrap identity; it holds the domain's logger and process manager only with
    native capabilities and the authentication services only with the bootstrap
    authority besides, each exactly as its parent's domain has them; the file store
    it can name is that of its own credentials; and its current directory has been
    opened through that store, never taken over from the caller.  Its tables have
    the form that the later operations keep. *)
Theorem process_environment_confined domain_initrd bootstrap native session sysv cwd source (s : ProcessState O) :
  handles_ok s -> session < next_fresh (ps_world s) ->
  (forall u g a c, credential_store u g a = Some c -> cf_handle c < next_fresh (ps_world s)) ->
  pwp (create domain_initrd bootstrap native session sysv cwd source) s
    (fun _ s' => confined s native bootstrap session source s').
Proof. apply pwp_create_confined. Qed.

End Creation.

(** ** A process on sample services *)

#[local] Existing Instance sample_services.

(** One user, whose session and store are objects of the sample. *)
#[local] Instance sample_env_services : EnvServices bytes := {
  session_get_credentials o := inl (1000, 1000, false);
  session_get_principal o := inl (B "alice");
  principal_getname o := inl o;
  principal_human o := Some o;
  human_gethome_path o := inl (B "/home/alice");
  human_getdefault_shell o := inl (B "/bin/sh");
  store_open_directory o path := inl (o ++ path)
}.

Definition sample_store (u g : Z) (a : bool) : option CredentialFiles :=
  Some (mkCredentialFiles 2 posix_passwd posix_shadow posix_fstab).

Definition sample_parent (name : bytes) : FacetResult * option (iid * Z) :=
  if name =b B "logger" then (FACET_OK, Some (B "log", 3)) else
  if name =b B "auth" then (FACET_OK, Some (B "aut", 4)) else (FACET_NOT_FOUND, None).

Definition sample_before : ProcessState bytes :=
  mkProcessState (mkWorld (list_to_map [(1, B "session"); (2, B "store"); (3, B "logger"); (4, B "auth")]) 5 0) ∅
    (empty_environment false).

(** A native process of the session, without the bootstrap authority. *)
Definition sample_created : result unit * ProcessState bytes :=
  dominit0_process_environment_create always always (B "process") (B "fst") (B "ses") (B "dir") sample_store sample_parent
    true false true 1 None 0 None sample_before.

Lemma sample_before_ok : handles_ok sample_before.
Proof.
  split; [by_decide|]. intros h o Ho. change (0 < h < 5).
  apply elem_of_list_to_map_2 in Ho. repeat (apply elem_of_cons in Ho as [[= -> ->]|Ho]; [lia|]). by apply elem_of_nil in Ho.
Qed.

Lemma process_environment_confined_witness :
  fst sample_created = Ok tt /\
  confined (B "fst") (B "ses") (B "dir") sample_store sample_parent sample_before true false 1 None (snd sample_created) /\
  pb_name <$> pe_bindings (ps_env (snd sample_created)) = [B "logger"; B "files"; B "session"; B "cwd"] /\
  credentials_of (ps_env (snd sample_created)) = (1000, 1000, false).
Proof.
  pose proof (process_environment_confined always always (B "process") (B "fst") (B "ses") (B "dir") sample_store sample_parent
    true false true 1 None 0 None sample_before sample_before_ok eq_refl) as Hc.
  assert (E : fst sample_created = Ok tt) by (vm_compute; reflexivity).
  split; [exact E|]. split; [|split; vm_compute; reflexivity].
  unfold pwp in Hc. fold sample_created in Hc. destruct sample_created as [r s']. simpl in E. subst r. apply Hc.
  intros u g a c [= <-]. reflexivity.
Defined.

Lemma sample_created_form : penv_ok (ps_env (snd sample_created)).
Proof.
  assert (Hcwd : Forall (fun b => pb_name b = B "cwd" -> pb_handle b = owned_cwd (ps_env (snd sample_created)))
    (pe_bindings (ps_env (snd sample_created)))) by by_decide.
  rewrite Forall_forall in Hcwd. by split; [by_decide|by_decide|by_decide| |by_decide|by_decide|by_decide].
Qed.

Lemma process_environment_form_kept_witness :
  let calls := [SetTerminalName (B "tty1"); SetDomainId 7; SetCwd 2; BindObject (Some (B "printer")) (B "prt") 3;
                SetCredentialsOf [] 1001 0 true false] in
  let s := fold_left (fun s c => snd (environment_call always always c s)) calls (snd sample_created) in
  penv_ok (ps_env s) /\ length (pe_bindings (ps_env s)) = 5%nat /\ length (sysv_environment (ps_env s)) = 7%nat.
Proof.
  split; [|split; vm_compute; reflexivity].
  apply (process_environment_form_kept always always).
  - exact sample_created_form.
  - repeat constructor. discriminate.
Defined.

(** The credentials of a process have changed although the change is reported to
    have failed: a configured user without a POSIX shell. *)
Lemma failed_credential_change_sticks :
  let users := [mkUser (Some (B "svc")) None false 1001 1001 (Some (B "/svc")) None None 0] in
  let r := dominit0_process_environment_set_credentials always users 1001 1001 true true
             (mkProcessState (ps_world sample_before) ∅ (set_identity 0 0 true (ps_env (snd sample_created)))) in
  fst r = Err FACET_ERROR /\ credentials_of (ps_env (snd r)) = (1001, 1001, false).
Proof. split; vm_compute; reflexivity. Qed.
