(* ===== verification/Terminal.v ===== *)
(** Seats and terminals (src/src/dominit0/terminal.c): starting the seat servers,
    finding their terminals, and handing the terminal of an assignment to a process.

    A seat server and its terminals are objects of other processes ([SeatServices]);
    the boot modules and the start of a server belong to the platform and are
    arguments ([boot_module], [start_seat]).  A domain is known by its index.  The
    seats of the system, the assignments and [terminal_system] are the state. *)
From stdpp Require Import gmap.
From S2P Require Import Prelude Utf8 ConfigTypes Logging Environment Effects Handles Initrd Posix ProcessEnvironment.
#[local] Open Scope facet_scope.

Record CurrentSeatTerminal := mkSeatTerminal {
  st_terminal : Z;
  st_input : Z;
  st_output : Z;
  st_control : Z;
  st_usable : bool
}.
Definition blank_terminal : CurrentSeatTerminal := mkSeatTerminal 0 0 0 0 false.

(** The array of terminals may be missing. *)
Record CurrentSeat := mkCurrentSeat {
  seat_config : FacetConfigSeatDefinition;
  seat_handle : Z;
  seat_array : option (list CurrentSeatTerminal);
  seat_usable : bool;
  seat_started : bool
}.

Record TerminalAssignmentBinding := mkAssignment {
  ta_domain : nat;
  ta_index : nat;
  ta_input : Z;
  ta_output : Z;
  ta_control : Z;
  ta_terminal : Z
}.

Class SeatServices (O : Type) := {
  seat_get_terminal : O -> bytes -> answer O;
  terminal_get_input : O -> answer O;
  terminal_get_output : O -> answer O;
  terminal_get_control : O -> answer O
}.

Record TerminalState (O : Type) := mkTerminalState {
  ts_world : World O;
  current_seats : option (list CurrentSeat);
  assignment_bindings : list TerminalAssignmentBinding;
  terminal_system : bool
}.
Arguments mkTerminalState {O}.
Arguments ts_world {O}.
Arguments current_seats {O}.
Arguments assignment_bindings {O}.
Arguments terminal_system {O}.

#[global] Instance terminal_worldly O : Worldly (TerminalState O) O := {
  world := ts_world;
  set_world w s := mkTerminalState w (current_seats s) (assignment_bindings s) (terminal_system s)
}.

#[global] Instance terminal_worldly_laws O : WorldlyLaws (TerminalState O) O.
Proof. split; [done..|]. by intros []. Qed.

Section Terminal.
Context {O : Type} `{SeatServices O}.
Context (alloc_ok proxy_ok malloc_ok : nat -> bool).
Context (boot_module : option bytes -> option bytes) (start_seat : FacetConfigSeatDefinition -> bytes -> option O).

Abbreviation St := (TerminalState O).
Abbreviation Term := (Eff St).

Definition set_seats (seats : option (list CurrentSeat)) (s : St) : St :=
  mkTerminalState (ts_world s) seats (assignment_bindings s) (terminal_system s).
Definition set_assignments (l : list TerminalAssignmentBinding) (s : St) : St :=
  mkTerminalState (ts_world s) (current_seats s) l (terminal_system s).
Definition set_system (b : bool) (s : St) : St :=
  mkTerminalState (ts_world s) (current_seats s) (assignment_bindings s) b.

Definition add_assignment (domain assignment_index : nat) (t : CurrentSeatTerminal) : Term unit :=
  run ok <- allocate alloc_ok;
  if negb ok then ferr FACET_ERROR
  else fput (fun s => set_assignments (assignment_bindings s ++
         [mkAssignment domain assignment_index (st_input t) (st_output t) (st_control t) (st_terminal t)]) s).

(** The handle that a call received, or the null handle. *)
Definition received (r : answer O) : Term Z :=
  match r with inl o => handle_of_object o | inr _ => fret 0 end.
Definition answered (r : answer O) : bool := match r with inl _ => true | inr _ => false end.

(** The record of a terminal; it is usable if the discovery succeeded. *)
Definition discover_terminal (seat : O) (name : bytes) : Term CurrentSeatTerminal :=
  match seat_get_terminal seat name with
  | inr _ => fret blank_terminal
  | inl t =>
      run terminal <- handle_of_object t;
      run ok <- ask proxy_ok;
      if negb ok then handle_release terminal ;; fret (mkSeatTerminal terminal 0 0 0 false)
      else
        run input <- received (terminal_get_input t);
        run output <- received (terminal_get_output t);
        run control <- received (terminal_get_control t);
        handle_release terminal ;;
        fret (mkSeatTerminal terminal input output control
          (answered (terminal_get_input t) && answered (terminal_get_output t) && answered (terminal_get_control t)))
  end.

Fixpoint discover_terminals (seat : O) (names : list bytes) : Term (list CurrentSeatTerminal) :=
  match names with
  | [] => fret []
  | name :: rest =>
      run t <- discover_terminal seat name;
      run ts <- discover_terminals seat rest;
      fret (t :: ts)
  end.

(** One seat; the proxy that asks for the terminals owns the handle of the seat. *)
Definition start_one_seat (entries : list InitrdEntry) (config : FacetConfigSeatDefinition) : Term CurrentSeat :=
  run ok <- allocate alloc_ok;
  if negb ok then fret (mkCurrentSeat config 0 None false false)
  else
    let blank := repeat blank_terminal (length (seat_terminals config)) in
    match facet_initrd_find_file entries (default [] (seat_server config)) with
    | (FACET_OK, Some (elf, _)) =>
        match start_seat config elf with
        | None => fret (mkCurrentSeat config 0 (Some blank) false false)
        | Some o =>
            run seat <- handle_of_object o;
            run ok <- ask proxy_ok;
            if negb ok then handle_release seat ;; fret (mkCurrentSeat config seat (Some blank) false true)
            else
              run ts <- discover_terminals o (seat_terminals config);
              handle_release seat ;;
              fret (mkCurrentSeat config seat (Some ts) (existsb st_usable ts) true)
        end
    | _ => fret (mkCurrentSeat config 0 (Some blank) false false)
    end.

Fixpoint start_each_seat (entries : list InitrdEntry) (configs : list FacetConfigSeatDefinition) : Term (list CurrentSeat) :=
  match configs with
  | [] => fret []
  | config :: rest =>
      run seat <- start_one_seat entries config;
      run seats <- start_each_seat entries rest;
      fret (seat :: seats)
  end.

Definition start_seats (system : FacetSystemConfig) : Term unit :=
  run existing <- fget current_seats;
  match existing with
  | Some _ => fret tt
  | None =>
      match boot_module (seat_initrd system) with
      | None => fret tt
      | Some data =>
          match facet_initrd_create malloc_ok (Some data) with
          | Parsed entries =>
              run ok <- allocate alloc_ok;
              if negb ok then ferr FACET_ERROR
              else
                run seats <- start_each_seat entries (seats system);
                fput (set_seats (Some seats))
          | Refused => fret tt
          | _ => ffault
          end
      end
  end.

(** One assignment of a domain; reading through a missing array is a fault. *)
Definition assign_terminal (system : FacetSystemConfig) (domain ai : nat) (assignment : FacetConfigTerminalAssignment) : Term nat :=
  if (length (seats system) <=? seat_index assignment)%nat then fret 0%nat
  else
    run all <- fget current_seats;
    match all with
    | None => ffault
    | Some l =>
        match l !! seat_index assignment with
        | None => ffault
        | Some seat =>
            if (length (seat_terminals (seat_config seat)) <=? ConfigTypes.terminal_index assignment)%nat then fret 0%nat
            else
              match seat_array seat with
              | None => ffault
              | Some ts =>
                  match ts !! ConfigTypes.terminal_index assignment with
                  | None => ffault
                  | Some t => if negb (st_usable t) then fret 0%nat else add_assignment domain ai t ;; fret 1%nat
                  end
              end
        end
    end.

Fixpoint assign_terminals (system : FacetSystemConfig) (domain ai : nat) (l : list FacetConfigTerminalAssignment) : Term nat :=
  match l with
  | [] => fret 0%nat
  | a :: rest =>
      run n <- assign_terminal system domain ai a;
      run m <- assign_terminals system domain (S ai) rest;
      fret (n + m)%nat
  end.

Fixpoint assign_domains (system : FacetSystemConfig) (domain : nat) (l : list FacetConfigDomain) : Term nat :=
  match l with
  | [] => fret 0%nat
  | d :: rest =>
      run n <- assign_terminals system domain 0 (domain_terminals d);
      run m <- assign_domains system (S domain) rest;
      fret (n + m)%nat
  end.

Definition dominit0_terminal_initialize (system : FacetSystemConfig) : Term unit :=
  fput (set_system true) ;;
  start_seats system ;;
  run usable_assignments <- assign_domains system 0 (domains system);
  if (usable_assignments =? 0)%nat then ferr FACET_ERROR else fret tt.

Fixpoint release_seats (l : list CurrentSeat) : Term unit :=
  match l with [] => fret tt | seat :: rest => handle_release (seat_handle seat) ;; release_seats rest end.

Definition dominit0_terminal_destroy : Term unit :=
  fput (set_assignments []) ;;
  run system <- fget terminal_system;
  run all <- fget current_seats;
  (match all with
   | Some l => if (system : bool) then release_seats l ;; fput (set_seats None) else fret tt
   | None => fret tt
   end) ;;
  fput (set_system false).

End Terminal.

(** ** Handing a terminal to a process *)

Section Bind.
Context {O : Type} `{PosixServices O} `{EnvServices O}.
Context (alloc_ok proxy_ok : nat -> bool) (posix_object : O).
Context (IID_IPOSIXView IID_ITerminalControl IID_IByteReader IID_IByteWriter : iid).

Definition find_assignment (domain index : nat) (l : list TerminalAssignmentBinding) : option TerminalAssignmentBinding :=
  find (fun b => (ta_domain b =? domain) && (ta_index b =? index))%nat l.

(** [assignments] are those of the configuration of the domain; the reference of an
    assignment that is not there cannot be read. *)
Definition dominit0_terminal_bind_process_environment (bindings : list TerminalAssignmentBinding) (domain : nat)
    (assignments : list FacetConfigTerminalAssignment) (assignment_index : nat) : Eff (ProcessState O) unit :=
  match find_assignment domain assignment_index bindings with
  | None => ferr FACET_ERROR
  | Some b =>
      dominit0_process_environment_bind_terminal alloc_ok proxy_ok posix_object IID_IPOSIXView IID_ITerminalControl
        IID_IByteReader IID_IByteWriter (ta_input b) (ta_output b) (ta_control b) ;;
      dominit0_process_environment_set_terminal_index (Z.of_nat assignment_index) ;;
      match assignments !! assignment_index with
      | None => ffault
      | Some a =>
          match reference a with
          | None => ferr FACET_ERROR
          | Some name => dominit0_process_environment_set_terminal_name alloc_ok name
          end
      end
  end.

End Bind.
