(* ===== verification/TerminalFacts.v ===== *)
(** Terminals: after start-up the assignments are those of the configuration, and a
    process reads and writes the terminal that the configuration gives to it. *)
From stdpp Require Import gmap.
From S2P Require Import Prelude Utf8 ConfigTypes Logging Environment EnvironmentFacts Effects Handles HandleFacts Initrd Posix.
From S2P Require Import InitrdFacts PosixUse ProcessEnvironment ProcessEnvironmentFacts ProcessCreation Terminal.

Section Facts.
Context {O : Type} `{SeatServices O}.
Context (alloc_ok proxy_ok malloc_ok : nat -> bool).
Context (boot_module : option bytes -> option bytes) (start_seat : FacetConfigSeatDefinition -> bytes -> option O).

Notation St := (TerminalState O).
Notation lv s := (live (ts_world s)).

(** A step that at most adds handles. *)
Definition still (s s' : St) : Prop :=
  later s s' /\ current_seats s' = current_seats s /\ assignment_bindings s' = assignment_bindings s.

Lemma still_refl s : handles_ok s -> still s s.
Proof. intros Hs. split_and!; [by apply later_refl|done..]. Qed.

Lemma still_trans s1 s2 s3 : still s1 s2 -> still s2 s3 -> still s1 s3.
Proof. intros (L1 & S1 & A1) (L2 & S2 & A2). split_and!; [by eapply later_trans|congruence..]. Qed.

Lemma still_ok s s' : still s s' -> handles_ok s'.
Proof. intros [L _]. apply L. Qed.

Lemma still_next s s' : still s s' -> next_fresh (ts_world s) <= next_fresh (ts_world s').
Proof. intros [L _]. exact (lt_next _ _ L). Qed.

Lemma still_kept s s' h o : still s s' -> handles_ok s -> lv s !! h = Some o -> lv s' !! h = Some o.
Proof. intros [L _] Hs Ho. exact (later_kept s s' h o Hs L Ho). Qed.

Lemma drop_live h k (s : St) : k <> h -> lv (drop_handle h s) !! k = lv s !! k.
Proof. exact (drop_other h k s). Qed.

Lemma pwp_still_ask {A} oracle (k : bool -> Eff St A) s Q :
  handles_ok s -> (forall b s', still s s' -> pwp (k b) s' Q) -> pwp (fbind (ask oracle) k) s Q.
Proof.
  intros Hs Hk. apply pwp_bind. unfold pwp at 1, ask. simpl. apply Hk. split_and!; [|done..].
  exact (later_ask oracle s Hs).
Qed.

Lemma pwp_received r s :
  handles_ok s -> pwp (received r) s (fun h s' => still s s' /\ forall o, r = inl o -> next_fresh (ts_world s) <= h /\ lv s' !! h = Some o).
Proof.
  intros Hs. destruct r as [o|c]; [|split; [by apply still_refl|done]]. unfold pwp, received. simpl.
  split; [split_and!; [exact (later_fresh o s Hs)|done..]|]. intros o' [= <-]. split; [done|exact (fresh_live o s)].
Qed.

(** ** Terminals of a seat *)

(** A usable terminal has the streams of the terminal that the server has under the
    name, with handles from [lo] on. *)
Definition terminal_right (lo : Z) (s : St) (server : O) (name : bytes) (t : CurrentSeatTerminal) : Prop :=
  st_usable t = true ->
  lo <= st_input t /\ lo <= st_output t /\ lo <= st_control t /\
  exists o i out c,
    seat_get_terminal server name = inl o /\ terminal_get_input o = inl i /\ terminal_get_output o = inl out /\
    terminal_get_control o = inl c /\
    lv s !! st_input t = Some i /\ lv s !! st_output t = Some out /\ lv s !! st_control t = Some c.

Lemma terminal_right_kept lo lo' s s' server name t :
  (forall h o, lo <= h -> lv s !! h = Some o -> lv s' !! h = Some o) -> lo' <= lo ->
  terminal_right lo s server name t -> terminal_right lo' s' server name t.
Proof.
  intros Hk Hlo Ht Hu. destruct (Ht Hu) as (Ni & No & Nc & o & i & out & c & Ho & Hi & Hout & Hc & Li & Lo & Lc).
  split_and!; [lia..|]. exists o, i, out, c. split_and!; auto.
Qed.

Lemma pwp_discover_terminal server name s :
  handles_ok s ->
  pwp (discover_terminal proxy_ok server name) s
    (fun t s' => still s s' /\ terminal_right (next_fresh (ts_world s)) s' server name t).
Proof.
  intros Hs. unfold discover_terminal. destruct (seat_get_terminal server name) as [o|] eqn:Eo; [|by split; [apply still_refl|]].
  apply pwp_bind. unfold pwp at 1, handle_of_object. simpl. set (s1 := mkTerminalState _ _ _ _).
  assert (Q1 : still s s1) by (split_and!; [exact (later_fresh o s Hs)|done..]).
  assert (N1 : next_fresh (ts_world s) < next_fresh (ts_world s1)) by (simpl; lia). clearbody s1.
  assert (Hdrop : forall s2, still s1 s2 -> still s (drop_handle (next_fresh (ts_world s)) s2)).
  { intros s2 Q2. pose proof (still_trans _ _ _ Q1 Q2) as (L & S2 & A2). split_and!; [|done..]. apply later_drop; [done|simpl; lia]. }
  apply pwp_still_ask; [apply (still_ok _ _ Q1)|]. intros ok s2 Q2. destruct (negb ok).
  { apply pwp_bind, pwp_release; intros _; apply pwp_ret; (split; [|done]); [by eapply still_trans|by apply Hdrop]. }
  apply pwp_bind. eapply pwp_mono; [apply pwp_received, (still_ok _ _ Q2)|]. intros input s3 [Q3 I3].
  apply pwp_bind. eapply pwp_mono; [apply pwp_received, (still_ok _ _ Q3)|]. intros output s4 [Q4 I4].
  apply pwp_bind. eapply pwp_mono; [apply pwp_received, (still_ok _ _ Q4)|]. intros control s5 [Q5 I5].
  pose proof (still_trans _ _ _ Q2 (still_trans _ _ _ Q3 (still_trans _ _ _ Q4 Q5))) as Q25.
  apply pwp_bind, pwp_release; intros Hz; apply pwp_ret; [simpl in *; destruct Hs as [Hs _]; simpl in Hs; lia|].
  split; [by apply Hdrop|]. intros Hu. cbn [st_usable st_input st_output st_control] in Hu |- *.
  destruct (terminal_get_input o) as [i|] eqn:Ei; [|done]. destruct (terminal_get_output o) as [out|] eqn:Eout; [|done].
  destruct (terminal_get_control o) as [c|] eqn:Ec; [|done].
  destruct (I3 i eq_refl) as [N3 L3], (I4 out eq_refl) as [N4 L4], (I5 c eq_refl) as [N5 L5].
  pose proof (still_next _ _ Q2). pose proof (still_next _ _ Q3). pose proof (still_next _ _ Q4). split_and!; [lia..|].
  pose proof (still_kept _ _ _ _ (still_trans _ _ _ Q4 Q5) (still_ok _ _ Q3) L3).
  pose proof (still_kept _ _ _ _ Q5 (still_ok _ _ Q4) L4).
  exists o, i, out, c. split_and!; try done; rewrite drop_live; done || lia.
Qed.

Lemma terminals_right_kept lo lo' s s' server names ts :
  (forall h o, lo <= h -> lv s !! h = Some o -> lv s' !! h = Some o) -> lo' <= lo ->
  Forall2 (terminal_right lo s server) names ts -> Forall2 (terminal_right lo' s' server) names ts.
Proof. intros Hk Hlo Hf. eapply Forall2_impl; [exact Hf|]. intros name t. by apply terminal_right_kept. Qed.

Lemma pwp_discover_terminals server names s :
  handles_ok s ->
  pwp (discover_terminals proxy_ok server names) s
    (fun ts s' => still s s' /\ Forall2 (terminal_right (next_fresh (ts_world s)) s' server) names ts).
Proof.
  revert s. induction names as [|name names IH]; intros s Hs; simpl; [by split; [apply still_refl|constructor]|].
  apply pwp_bind. eapply pwp_mono; [by apply pwp_discover_terminal|]. intros t s1 [Q1 T1].
  apply pwp_bind. eapply pwp_mono; [apply IH, (still_ok _ _ Q1)|]. intros ts s2 [Q2 T2]. apply pwp_ret.
  pose proof (still_next _ _ Q1) as Hnext. split; [by eapply still_trans|]. constructor.
  - eapply (terminal_right_kept _ _ s1); [|reflexivity|exact T1]. intros h o _. by apply still_kept; [|apply (still_ok _ _ Q1)].
  - eapply (terminals_right_kept _ _ s2); [|exact Hnext|exact T2]. done.
Qed.

(** ** Seats *)

(** The server of a seat is the program that the configuration names, and its usable
    terminals are those of that server. *)
Definition seat_right (entries : list InitrdEntry) (s : St) (config : FacetConfigSeatDefinition) (seat : CurrentSeat) : Prop :=
  seat_config seat = config /\
  forall ts, seat_array seat = Some ts ->
    length ts = length (seat_terminals config) /\
    (existsb st_usable ts = true ->
     exists elf size server,
       facet_initrd_find_file entries (default [] (seat_server config)) = (FACET_OK, Some (elf, size)) /\
       start_seat config elf = Some server /\ Forall2 (terminal_right 0 s server) (seat_terminals config) ts).

Lemma seat_right_later entries s s' config seat :
  handles_ok s -> later s s' -> seat_right entries s config seat -> seat_right entries s' config seat.
Proof.
  intros Hs L [Hc Ht]. split; [done|]. intros ts Hts. destruct (Ht ts Hts) as [Hl Hu]. split; [done|].
  intros Hex. destruct (Hu Hex) as (elf & size & server & Hf & Hst & Hts'). exists elf, size, server. split_and!; [done..|].
  eapply (terminals_right_kept 0 0 s); [|done|done]. intros h o _ Ho. exact (later_kept s s' h o Hs L Ho).
Qed.

Lemma seat_right_blank entries s config h started :
  seat_right entries s config
    (mkCurrentSeat config h (Some (repeat blank_terminal (length (seat_terminals config)))) false started).
Proof.
  split; [done|]. intros ts [= <-]. split; [by rewrite repeat_length|]. intros Hex. apply existsb_exists in Hex as (t & Ht & Hu).
  by apply repeat_spec in Ht as ->.
Qed.

Lemma pwp_start_one_seat entries config s :
  handles_ok s ->
  pwp (start_one_seat alloc_ok proxy_ok start_seat entries config) s
    (fun seat s' => still s s' /\ seat_right entries s' config seat).
Proof.
  intros Hs. unfold start_one_seat. apply pwp_still_ask; [done|]. intros ok s1 Q1. destruct (negb ok); [by apply pwp_ret|].
  destruct (facet_initrd_find_file _ _) as [[] [[elf size]|]] eqn:Ef;
    try (apply pwp_ret; split; [done|apply seat_right_blank]).
  destruct (start_seat config elf) as [server|] eqn:Est; [|apply pwp_ret; split; [done|apply seat_right_blank]].
  apply pwp_bind. unfold pwp at 1, handle_of_object. simpl. set (s2 := mkTerminalState _ _ _ _).
  assert (Q2 : still s1 s2) by (split_and!; [exact (later_fresh server s1 (still_ok _ _ Q1))|done..]).
  assert (N2 : next_fresh (ts_world s1) < next_fresh (ts_world s2)) by (simpl; lia). clearbody s2.
  assert (Hdrop : forall s3, still s2 s3 -> still s (drop_handle (next_fresh (ts_world s1)) s3)).
  { intros s3 Q3. apply (still_trans s s1); [done|]. destruct (still_trans _ _ _ Q2 Q3) as (L & S3 & A3).
    split_and!; [|done..]. apply later_drop; [done|simpl; lia]. }
  assert (Hpos : next_fresh (ts_world s1) <> 0) by (destruct (still_ok _ _ Q1) as [Hp _]; simpl in Hp; lia).
  apply pwp_still_ask; [apply (still_ok _ _ Q2)|]. intros proxy s3 Q3. destruct (negb proxy).
  { apply pwp_bind, pwp_release; intros Hz; [done|]. apply pwp_ret. split; [by apply Hdrop|apply seat_right_blank]. }
  apply pwp_bind. eapply pwp_mono; [apply pwp_discover_terminals, (still_ok _ _ Q3)|]. intros ts s4 [Q4 T4].
  apply pwp_bind, pwp_release; intros Hz; [done|]. apply pwp_ret. split; [apply Hdrop; by eapply still_trans|].
  split; [done|]. intros ts' [= <-]. split; [symmetry; by eapply Forall2_length|]. intros _. exists elf, size, server.
  split_and!; [done..|]. eapply (terminals_right_kept _ 0); [| |exact T4].
  - intros h o Hh Ho. rewrite drop_live; [done|]. pose proof (still_next _ _ Q3). lia.
  - destruct (still_ok _ _ Q3) as [Hp _]. simpl in Hp. lia.
Qed.

Lemma pwp_start_each_seat entries configs s :
  handles_ok s ->
  pwp (start_each_seat alloc_ok proxy_ok start_seat entries configs) s
    (fun l s' => still s s' /\ Forall2 (seat_right entries s') configs l).
Proof.
  revert s. induction configs as [|config configs IH]; intros s Hs; simpl; [by split; [apply still_refl|constructor]|].
  apply pwp_bind. eapply pwp_mono; [by apply pwp_start_one_seat|]. intros seat s1 [Q1 T1].
  apply pwp_bind. eapply pwp_mono; [apply IH, (still_ok _ _ Q1)|]. intros l s2 [Q2 T2]. apply pwp_ret.
  split; [by eapply still_trans|]. constructor; [|done]. eapply seat_right_later; [apply (still_ok _ _ Q1)|apply Q2|done].
Qed.

(** ** Assignments *)

(** The binding of one assignment, if its terminal is usable. *)
Definition assigned (l : list CurrentSeat) (domain ai : nat) (a : FacetConfigTerminalAssignment) : list TerminalAssignmentBinding :=
  match l !! seat_index a with
  | None => []
  | Some seat =>
      match seat_array seat with
      | None => []
      | Some ts =>
          match ts !! ConfigTypes.terminal_index a with
          | Some t => if st_usable t then [mkAssignment domain ai (st_input t) (st_output t) (st_control t) (st_terminal t)] else []
          | None => []
          end
      end
  end.

Definition assigned_domain (l : list CurrentSeat) (domain : nat) (d : FacetConfigDomain) : list TerminalAssignmentBinding :=
  concat (imap (assigned l domain) (domain_terminals d)).

(** The assignments of all domains, in the order of the configuration. *)
Definition assigned_all (l : list CurrentSeat) (ds : list FacetConfigDomain) : list TerminalAssignmentBinding :=
  concat (imap (assigned_domain l) ds).

(** A step that adds [new] to the assignments. *)
Definition adds (s s' : St) (new : list TerminalAssignmentBinding) : Prop :=
  later s s' /\ current_seats s' = current_seats s /\ assignment_bindings s' = assignment_bindings s ++ new.

Lemma adds_nil s : handles_ok s -> adds s s [].
Proof. intros Hs. split_and!; [by apply later_refl|done|by rewrite app_nil_r]. Qed.

Lemma adds_trans s1 s2 s3 l1 l2 : adds s1 s2 l1 -> adds s2 s3 l2 -> adds s1 s3 (l1 ++ l2).
Proof.
  intros (L1 & S1 & A1) (L2 & S2 & A2). split_and!; [by eapply later_trans|congruence|]. by rewrite A2, A1, app_assoc.
Qed.

(** [l] are the seats, or there are none. *)
Definition seats_known (entries : list InitrdEntry) (s0 : St) (system : FacetSystemConfig) (l : list CurrentSeat) (s : St) : Prop :=
  (length l <= length (seats system))%nat /\
  forall k, current_seats s = Some k -> k = l /\ Forall2 (seat_right entries s0) (seats system) l.

Lemma seats_known_adds entries s0 system l s s' new :
  seats_known entries s0 system l s -> adds s s' new -> seats_known entries s0 system l s'.
Proof. intros [Hn Hk] (_ & Hc & _). split; [done|]. by rewrite Hc. Qed.

Lemma pwp_assign_terminal entries s0 system l domain ai a s :
  handles_ok s -> seats_known entries s0 system l s ->
  pwp (assign_terminal alloc_ok system domain ai a) s
    (fun n s' => n = length (assigned l domain ai a) /\ adds s s' (assigned l domain ai a) /\ (n <> 0%nat -> current_seats s = Some l)).
Proof.
  intros Hs [Hlen Hl]. unfold assign_terminal, assigned.
  destruct (Nat.leb_spec (length (seats system)) (seat_index a)) as [Hge|Hlt].
  { rewrite lookup_ge_None_2 by lia. apply pwp_ret. split_and!; [done|by apply adds_nil|done]. }
  apply pwp_bind, pwp_get. destruct (current_seats s) as [k|] eqn:Ek; [|done].
  destruct (Hl k eq_refl) as [-> Hseats].
  destruct (l !! seat_index a) as [seat|] eqn:Eseat; [|done].
  destruct (lookup_lt_is_Some_2 (seats system) (seat_index a)) as [config Ec]; [done|].
  destruct (Forall2_lookup_lr _ _ _ _ _ _ Hseats Ec Eseat) as [Hconfig Hts]. rewrite Hconfig.
  destruct (Nat.leb_spec (length (seat_terminals config)) (ConfigTypes.terminal_index a)) as [Hge|Hlt'].
  { apply pwp_ret. destruct (seat_array seat) as [ts|] eqn:Ets; [|split_and!; [done|by apply adds_nil|done]].
    destruct (Hts ts eq_refl) as [Hn _]. rewrite (lookup_ge_None_2 ts) by lia. split_and!; [done|by apply adds_nil|done]. }
  destruct (seat_array seat) as [ts|]; [|done]. destruct (ts !! ConfigTypes.terminal_index a) as [t|]; [|done].
  destruct (st_usable t); simpl; [|split_and!; [done|by apply adds_nil|done]].
  apply pwp_bind. unfold add_assignment. apply pwp_still_ask; [done|]. intros ok s1 (L1 & S1 & A1).
  destruct (negb ok); [done|]. apply pwp_put, pwp_ret. split_and!; [done| |done].
  split_and!; simpl; [|done|by rewrite A1]. destruct L1. by split.
Qed.

Lemma pwp_assign_terminals entries s0 system l domain ai assignments s :
  handles_ok s -> seats_known entries s0 system l s ->
  let new := concat (imap (fun i => assigned l domain (ai + i)%nat) assignments) in
  pwp (assign_terminals alloc_ok system domain ai assignments) s
    (fun n s' => n = length new /\ adds s s' new /\ (n <> 0%nat -> current_seats s = Some l)).
Proof.
  revert ai s. induction assignments as [|a rest IH]; intros ai s Hs Hl; simpl.
  { split_and!; [done|by apply adds_nil|done]. }
  apply pwp_bind. eapply pwp_mono; [by eapply pwp_assign_terminal|]. intros n s1 (N1 & A1 & P1).
  apply pwp_bind. eapply pwp_mono; [apply (IH (S ai) s1); [apply A1|by eapply seats_known_adds]|].
  intros m s2 (N2 & A2 & P2). apply pwp_ret. rewrite Nat.add_0_r.
  assert (E : imap (fun i => assigned l domain (S ai + i)%nat) rest = imap ((fun i => assigned l domain (ai + i)%nat) ∘ S) rest).
  { apply imap_ext. intros i x _. simpl. f_equal. lia. }
  rewrite E in N2, A2. split_and!; [rewrite length_app; lia|by eapply adds_trans|].
  intros Hn. destruct (decide (n = 0%nat)) as [->|Hn1]; [|by apply P1]. destruct A1 as (_ & <- & _). apply P2. lia.
Qed.

Lemma pwp_assign_domains entries s0 system l domain ds s :
  handles_ok s -> seats_known entries s0 system l s ->
  let new := concat (imap (fun i => assigned_domain l (domain + i)%nat) ds) in
  pwp (assign_domains alloc_ok system domain ds) s
    (fun n s' => n = length new /\ adds s s' new /\ (n <> 0%nat -> current_seats s = Some l)).
Proof.
  revert domain s. induction ds as [|d rest IH]; intros domain s Hs Hl; simpl.
  { split_and!; [done|by apply adds_nil|done]. }
  apply pwp_bind. eapply pwp_mono; [by eapply pwp_assign_terminals|]. intros n s1 (N1 & A1 & P1).
  apply pwp_bind. eapply pwp_mono; [apply (IH (S domain) s1); [apply A1|by eapply seats_known_adds]|].
  intros m s2 (N2 & A2 & P2). apply pwp_ret. rewrite Nat.add_0_r.
  assert (E : imap (fun i => assigned_domain l (S domain + i)%nat) rest = imap ((fun i => assigned_domain l (domain + i)%nat) ∘ S) rest).
  { apply imap_ext. intros i x _. simpl. f_equal. lia. }
  change (n = length (assigned_domain l domain d)) in N1.
  rewrite E in N2, A2. split_and!; [rewrite length_app; lia|by eapply adds_trans|].
  intros Hn. destruct (decide (n = 0%nat)) as [->|Hn1]; [|by apply P1]. destruct A1 as (_ & <- & _). apply P2. lia.
Qed.

(** The seats of the configuration have been started from the seat archive. *)
Definition seats_started (system : FacetSystemConfig) (s : St) (l : list CurrentSeat) : Prop :=
  exists data entries,
    boot_module (seat_initrd system) = Some data /\ facet_initrd_create malloc_ok (Some data) = Parsed entries /\
    Forall2 (seat_right entries s) (seats system) l.

Lemma pwp_start_seats system s :
  handles_ok s -> current_seats s = None ->
  pwp (start_seats alloc_ok proxy_ok malloc_ok boot_module start_seat system) s (fun _ s' =>
    later s s' /\ assignment_bindings s' = assignment_bindings s /\
    (current_seats s' = None \/ exists l, current_seats s' = Some l /\ seats_started system s' l)).
Proof.
  intros Hs Hn. unfold start_seats. apply pwp_bind, pwp_get. rewrite Hn.
  assert (Hnone : later s s /\ assignment_bindings s = assignment_bindings s /\
    (current_seats s = None \/ exists l, current_seats s = Some l /\ seats_started system s l)).
  { split_and!; [by apply later_refl|done|by left]. }
  destruct (boot_module (seat_initrd system)) as [data|] eqn:Eb; [|by apply pwp_ret].
  destruct (facet_initrd_create malloc_ok (Some data)) as [entries| | |] eqn:Ei; [|by apply pwp_ret|done..].
  apply pwp_still_ask; [done|]. intros ok s1 Q1. destruct (negb ok); [done|].
  apply pwp_bind. eapply pwp_mono; [apply pwp_start_each_seat, (still_ok _ _ Q1)|]. intros l s2 [Q2 Hl].
  destruct (still_trans _ _ _ Q1 Q2) as (L & _ & A). apply pwp_put. split_and!; [by destruct L|done|].
  right. exists l. split; [done|]. exists data, entries. split_and!; done.
Qed.

Lemma pwp_initialize system s :
  handles_ok s -> current_seats s = None -> assignment_bindings s = [] ->
  pwp (dominit0_terminal_initialize alloc_ok proxy_ok malloc_ok boot_module start_seat system) s (fun _ s' =>
    exists l, current_seats s' = Some l /\ seats_started system s' l /\ assignment_bindings s' = assigned_all l (domains system)).
Proof.
  intros Hs Hn Ha. unfold dominit0_terminal_initialize. apply pwp_bind, pwp_put, pwp_bind.
  eapply pwp_mono; [by apply pwp_start_seats|]. intros _ s1 (L1 & A1 & [N1|(l & S1 & data & entries & Hb & Hi & Hl)]).
  - apply pwp_bind. eapply pwp_mono; [apply (pwp_assign_domains [] s1 system []); [apply L1|]|].
    { split; [simpl; lia|]. by rewrite N1. }
    intros n s2 (_ & _ & P). destruct (Nat.eqb_spec n 0); [done|]. specialize (P n0). congruence.
  - apply pwp_bind. eapply pwp_mono; [apply (pwp_assign_domains entries s1 system l); [apply L1|]|].
    { split; [by rewrite (Forall2_length _ _ _ Hl)|]. intros k Hk. split; [congruence|done]. }
    intros n s2 (_ & (L2 & S2 & A2) & _). destruct (n =? 0)%nat; [done|]. apply pwp_ret. exists l.
    split_and!; [congruence| |rewrite A2, A1; simpl; by rewrite Ha]. exists data, entries. split_and!; [done..|].
    eapply Forall2_impl; [exact Hl|]. intros config seat. apply seat_right_later; [apply L1|done].
Qed.

End Facts.

(** ** The terminal of a process *)

Lemma elem_assigned l domain ai a b :
  b ∈ assigned l domain ai a ->
  ta_domain b = domain /\ ta_index b = ai /\
  exists seat ts t, l !! seat_index a = Some seat /\ seat_array seat = Some ts /\ ts !! ConfigTypes.terminal_index a = Some t /\
    st_usable t = true /\ ta_input b = st_input t /\ ta_output b = st_output t /\ ta_control b = st_control t.
Proof.
  unfold assigned. destruct (l !! seat_index a) as [seat|] eqn:Es; [|by intros ?%elem_of_nil].
  destruct (seat_array seat) as [ts|] eqn:Ets; [|by intros ?%elem_of_nil].
  destruct (ts !! ConfigTypes.terminal_index a) as [t|] eqn:Et; [|by intros ?%elem_of_nil].
  destruct (st_usable t) eqn:Eu; [|by intros ?%elem_of_nil]. intros ->%list_elem_of_singleton. simpl.
  split_and!; [done..|]. exists seat, ts, t. by split_and!.
Qed.

Lemma elem_concat_imap {A B : Type} (f : nat -> A -> list B) xs b :
  b ∈ concat (imap f xs) -> exists i x, xs !! i = Some x /\ b ∈ f i x.
Proof.
  intros (k & Hk & Hb)%list_elem_of_In%in_concat. apply list_elem_of_In, elem_of_lookup_imap_1 in Hk as (i & x & -> & Hx).
  exists i, x. split; [done|by apply list_elem_of_In].
Qed.

Lemma elem_assigned_all l ds b :
  b ∈ assigned_all l ds ->
  exists d a, ds !! ta_domain b = Some d /\ domain_terminals d !! ta_index b = Some a /\ b ∈ assigned l (ta_domain b) (ta_index b) a.
Proof.
  intros (i & d & Hd & Hb)%elem_concat_imap. apply elem_concat_imap in Hb as (j & a & Ha & Hb).
  destruct (elem_assigned _ _ _ _ _ Hb) as (<- & <- & _). by exists d, a.
Qed.

Lemma find_app {A} (f : A -> bool) l k :
  find f (l ++ k) = match find f l with Some x => Some x | None => find f k end.
Proof. induction l as [|x l IH]; simpl; [done|]. by destruct (f x). Qed.

Section Streams.
Context {O : Type} `{SeatServices O} `{PosixServices O} `{EnvServices O}.
Context (alloc_ok proxy_ok malloc_ok : nat -> bool) (posix_object : O).
Context (IID_IPOSIXView IID_ITerminalControl IID_IByteReader IID_IByteWriter : iid).
Context (boot_module : option bytes -> option bytes) (start_seat : FacetConfigSeatDefinition -> bytes -> option O).

(** What was bound stays bound. *)
Definition keeps_bindings (e e' : ProcessEnvironment) : Prop := exists k, pe_bindings e' = pe_bindings e ++ k.

Lemma keeps_bindings_trans e1 e2 e3 : keeps_bindings e1 e2 -> keeps_bindings e2 e3 -> keeps_bindings e1 e3.
Proof. intros [k1 E1] [k2 E2]. exists (k1 ++ k2). by rewrite E2, E1, app_assoc. Qed.

Lemma find_keeps name e e' b : keeps_bindings e e' -> find_binding name e = Some b -> find_binding name e' = Some b.
Proof.
  intros [k E]. unfold find_binding. destruct (negb _); [done|]. destruct name as [n|]; [|done]. rewrite E, find_app.
  by intros ->.
Qed.

(** A name that could be bound is found. *)
Lemma pwp_bind_found n i h (p : ProcessState O) :
  pwp (ProcessEnvironment.bind alloc_ok (Some n) i h) p (fun _ p' =>
    keeps_bindings (ps_env p) (ps_env p') /\ find_binding (Some n) (ps_env p') = Some (mkProcessBinding n i h)).
Proof.
  unfold pwp, ProcessEnvironment.bind, fbind, the_env, fget. simpl. unfold id.
  destruct (_ || _)%bool eqn:Ec; [done|].
  rewrite !orb_false_iff, negb_false_iff, !Nat.eqb_neq, Nat.ltb_ge, Z.eqb_neq in Ec. destruct Ec as [[[[E1 E2] E3] E4] E5].
  case_bool_decide as Hf; [done|]. unfold allocate_memory, allocate, ask. destruct (alloc_ok _); simpl; [|done].
  split; [by exists [mkProcessBinding n i h]|].
  assert (Hv : valid_name (Some n) = true) by (apply valid_name_spec; split; [by destruct n|done]).
  unfold find_binding in *. rewrite Hv in *. simpl in *. rewrite find_app.
  destruct (find _ (pe_bindings (ps_env p))); [by destruct Hf|]. simpl. unfold name_equal. by rewrite bytes_eqb_refl.
Qed.

(** A terminal that was bound to a native process. *)
Definition has_streams (e : ProcessEnvironment) (input output control : Z) : Prop :=
  find_binding (Some (B "stdin")) e = Some (mkProcessBinding (B "stdin") IID_IByteReader input) /\
  find_binding (Some (B "stdout")) e = Some (mkProcessBinding (B "stdout") IID_IByteWriter output) /\
  find_binding (Some (B "stderr")) e = Some (mkProcessBinding (B "stderr") IID_IByteWriter output) /\
  find_binding (Some (B "terminal.control")) e = Some (mkProcessBinding (B "terminal.control") IID_ITerminalControl control).

Lemma has_streams_same e e' input output control :
  pe_bindings e' = pe_bindings e -> has_streams e input output control -> has_streams e' input output control.
Proof.
  intros E (S1 & S2 & S3 & S4).
  assert (K : keeps_bindings e e') by (exists []; by rewrite app_nil_r).
  split_and!; by eapply find_keeps.
Qed.

Lemma pwp_bind_terminal input output control (p : ProcessState O) :
  native_capabilities (ps_env p) = true ->
  pwp (dominit0_process_environment_bind_terminal alloc_ok proxy_ok posix_object IID_IPOSIXView IID_ITerminalControl
         IID_IByteReader IID_IByteWriter input output control) p
    (fun _ p' => has_streams (ps_env p') input output control).
Proof.
  intros Hn. unfold dominit0_process_environment_bind_terminal. apply pwp_bind, pwp_get. unfold id. rewrite Hn.
  apply pwp_bind, pwp_true. intros _ p1. cbn [negb].
  apply pwp_bind. eapply pwp_mono; [apply pwp_bind_found|]. intros _ p2 [K2 F2].
  apply pwp_bind. eapply pwp_mono; [apply pwp_bind_found|]. intros _ p3 [K3 F3].
  apply pwp_bind. eapply pwp_mono; [apply pwp_bind_found|]. intros _ p4 [K4 F4].
  eapply pwp_mono; [apply pwp_bind_found|]. intros _ p5 [K5 F5].
  pose proof (keeps_bindings_trans _ _ _ K4 K5) as K45. pose proof (keeps_bindings_trans _ _ _ K3 K45) as K35.
  split_and!; [exact (find_keeps _ _ _ _ K45 F3)|exact (find_keeps _ _ _ _ K5 F4)|done|exact (find_keeps _ _ _ _ K35 F2)].
Qed.

(** Variables do not concern the names. *)
Definition names_kept {A} (m : Eff (ProcessState O) A) : Prop :=
  forall p, pe_bindings (ps_env (snd (m p))) = pe_bindings (ps_env p) /\
            ProcessEnvironment.terminal_index (ps_env (snd (m p))) = ProcessEnvironment.terminal_index (ps_env p).

Lemma names_kept_bind {A C} (m : Eff (ProcessState O) A) (k : A -> Eff (ProcessState O) C) :
  names_kept m -> (forall a, names_kept (k a)) -> names_kept (fbind m k).
Proof.
  intros Hm Hk p. destruct (Hm p) as [M1 M2]. unfold fbind. destruct (m p) as [[a|c|] p1]; simpl in *; [|done..].
  destruct (Hk a p1) as [K1 K2]. split; congruence.
Qed.

Lemma names_kept_terminal_name name : names_kept (dominit0_process_environment_set_terminal_name alloc_ok name).
Proof.
  unfold dominit0_process_environment_set_terminal_name, set_variable, add_sysv_environment, grow_sysv, allocate_memory, allocate.
  repeat (intros; lazymatch goal with
    | |- names_kept (fbind _ _) => apply names_kept_bind
    | |- names_kept (match ?x with _ => _ end) => destruct x
    | |- names_kept _ => by intros p
    end).
Qed.

(** The terminal that the configuration gives to an assignment of a domain: it is
    served by the seat of the assignment, whose program comes from the seat archive. *)
Definition configured_terminal (system : FacetSystemConfig) (domain ai : nat) (o : O) : Prop :=
  exists d a config name data entries elf size server,
    domains system !! domain = Some d /\ domain_terminals d !! ai = Some a /\
    seats system !! seat_index a = Some config /\ seat_terminals config !! ConfigTypes.terminal_index a = Some name /\
    boot_module (seat_initrd system) = Some data /\ facet_initrd_create malloc_ok (Some data) = Parsed entries /\
    facet_initrd_find_file entries (default [] (seat_server config)) = (FACET_OK, Some (elf, size)) /\
    start_seat config elf = Some server /\ seat_get_terminal server name = inl o.

(** A handle denotes what a terminal answered. *)
Definition denotes (s : TerminalState O) (h : Z) (r : answer O) : Prop :=
  exists o, r = inl o /\ live (ts_world s) !! h = Some o.

Lemma assigned_configured system l (s : TerminalState O) domain ai b :
  seats_started malloc_ok boot_module start_seat system s l ->
  find_assignment domain ai (assigned_all l (domains system)) = Some b ->
  exists o, configured_terminal system domain ai o /\ denotes s (ta_input b) (terminal_get_input o) /\
    denotes s (ta_output b) (terminal_get_output o) /\ denotes s (ta_control b) (terminal_get_control o).
Proof.
  intros (data & entries & Hb & Hi & Hl) [Hin Hkey]%find_some. apply andb_true_iff in Hkey as [<-%Nat.eqb_eq <-%Nat.eqb_eq].
  apply list_elem_of_In, elem_assigned_all in Hin as (d & a & Hd & Ha & Hin).
  destruct (elem_assigned _ _ _ _ _ Hin) as (_ & _ & seat & ts & t & Hseat & Hts & Ht & Hu & Ei & Eo & Ec).
  destruct (Forall2_lookup_r _ _ _ _ _ Hl Hseat) as (config & Hconfig & _ & Hall).
  destruct (Hall ts Hts) as [Hlen Hex].
  destruct Hex as (elf & size & server & Hf & Hst & Hright).
  { apply existsb_exists. exists t. split; [|done]. apply list_elem_of_In. by eapply list_elem_of_lookup_2. }
  destruct (Forall2_lookup_r _ _ _ _ _ Hright Ht) as (name & Hname & Hr).
  destruct (Hr Hu) as (_ & _ & _ & o & i & out & c & Ho & Gi & Go & Gc & Li & Lo & Lc).
  exists o. split_and!; [|exists i; by rewrite Ei|exists out; by rewrite Eo|exists c; by rewrite Ec].
  exists d, a, config, name, data, entries, elf, size, server. split_and!; done.
Qed.

(** C25: The terminals reach the processes that the configuration gives them to: when
    the terminals have been set up and a native process of a domain is started on one
    of its assignments, its standard input, output, error and control are the streams
    of the terminal that the configuration names for that assignment of that domain,
    served by the seat program of the seat archive, and no other terminal's. *)
Theorem process_terminal_configured system domain ai assignments (s : TerminalState O) (p : ProcessState O) :
  handles_ok s -> current_seats s = None -> assignment_bindings s = [] -> native_capabilities (ps_env p) = true ->
  pwp (dominit0_terminal_initialize alloc_ok proxy_ok malloc_ok boot_module start_seat system) s (fun _ s' =>
    pwp (dominit0_terminal_bind_process_environment alloc_ok proxy_ok posix_object IID_IPOSIXView IID_ITerminalControl
           IID_IByteReader IID_IByteWriter (assignment_bindings s') domain assignments ai) p (fun _ p' =>
      exists o input output control,
        configured_terminal system domain ai o /\ has_streams (ps_env p') input output control /\
        denotes s' input (terminal_get_input o) /\ denotes s' output (terminal_get_output o) /\
        denotes s' control (terminal_get_control o) /\
        ProcessEnvironment.terminal_index (ps_env p') = Z.of_nat ai)).
Proof.
  intros Hs Hn Ha Hnative. eapply pwp_mono; [by apply pwp_initialize|]. intros _ s' (l & _ & Hl & ->).
  unfold dominit0_terminal_bind_process_environment. destruct (find_assignment _ _ _) as [b|] eqn:Eb; [|done].
  destruct (assigned_configured _ _ _ _ _ _ Hl Eb) as (o & Ho & Di & Do & Dc).
  apply pwp_bind. eapply pwp_mono; [by apply pwp_bind_terminal|]. intros [] p1 S1. apply pwp_bind, pwp_put.
  destruct (assignments !! ai) as [a|]; [|done]. destruct (reference a) as [name|]; [|done].
  unfold pwp. set (p2 := mkProcessState _ _ _). destruct (names_kept_terminal_name name p2) as [B2 T2].
  destruct (dominit0_process_environment_set_terminal_name alloc_ok name p2) as [[u|c|] p3]; [|done..]. simpl in B2, T2.
  exists o, (ta_input b), (ta_output b), (ta_control b). split_and!; try done. by eapply has_streams_same.
Qed.

End Streams.

(** ** A seat on sample services *)

#[local] Existing Instance sample_services.
#[local] Existing Instance sample_env_services.

(** Terminals and streams are their names. *)
#[local] Instance sample_seat_services : SeatServices bytes := {
  seat_get_terminal seat name := if name =b B "console" then inl (seat ++ 46 :: name) else inr FACET_NOT_FOUND;
  terminal_get_input o := inl (o ++ B " in");
  terminal_get_output o := inl (o ++ B " out");
  terminal_get_control o := inl (o ++ B " control")
}.

Definition sample_module (name : option bytes) : option bytes := Some sample_archive.
Definition sample_start (config : FacetConfigSeatDefinition) (elf : bytes) : option bytes := seat_name config.

(** One seat with a terminal, given to the second assignment of the second domain. *)
Definition sample_system : FacetSystemConfig :=
  mkConfig 1 (Some (B "seats")) [] [] []
    [mkSeat (Some (B "seat0")) (Some (B "/bin/sh")) FACET_CONFIG_SEAT_SERIAL [B "aux"; B "console"] 0]
    [zero_domain;
     mkDomain 7 (Some (B "dom")) FACET_CONFIG_PERSONALITY_NATIVE FACET_CONFIG_DOMAIN_MANAGER_NONE None 0 None None [] []
       [mkTerminal (Some (B "seat0.aux")) 0 0 FACET_CONFIG_TERMINAL_VIEW_NATIVE None None None 0;
        mkTerminal (Some (B "seat0.console")) 0 1 FACET_CONFIG_TERMINAL_VIEW_NATIVE None None None 0] 0] 0.

Definition sample_assignments : list FacetConfigTerminalAssignment :=
  [mkTerminal (Some (B "seat0.aux")) 0 0 FACET_CONFIG_TERMINAL_VIEW_NATIVE None None None 0;
   mkTerminal (Some (B "seat0.console")) 0 1 FACET_CONFIG_TERMINAL_VIEW_NATIVE None None None 0].

Definition sample_idle : TerminalState bytes := mkTerminalState (mkWorld ∅ 1 0) None [] false.

Definition sample_set_up : result unit * TerminalState bytes :=
  dominit0_terminal_initialize always always always sample_module sample_start sample_system sample_idle.

Definition sample_process : ProcessState bytes :=
  mkProcessState (ts_world (snd sample_set_up)) ∅ (empty_environment true).

Definition sample_bound : result unit * ProcessState bytes :=
  dominit0_terminal_bind_process_environment always always (B "view") (B "psx") (B "ctl") (B "rd") (B "wr")
    (assignment_bindings (snd sample_set_up)) 1 sample_assignments 1 sample_process.

Lemma process_terminal_configured_witness :
  fst sample_set_up = Ok tt /\ fst sample_bound = Ok tt /\
  exists o input output control,
    configured_terminal always sample_module sample_start sample_system 1 1 o /\
    has_streams (B "ctl") (B "rd") (B "wr") (ps_env (snd sample_bound)) input output control /\
    denotes (snd sample_set_up) input (terminal_get_input o).
Proof.
  assert (E1 : fst sample_set_up = Ok tt) by (vm_compute; reflexivity).
  assert (E2 : fst sample_bound = Ok tt) by (vm_compute; reflexivity).
  split; [exact E1|]. split; [exact E2|].
  pose proof (process_terminal_configured always always always (B "view") (B "psx") (B "ctl") (B "rd") (B "wr") sample_module
    sample_start sample_system 1 1 sample_assignments sample_idle sample_process) as Hc.
  unfold pwp in Hc at 1. fold sample_set_up in Hc. destruct sample_set_up as [r1 s1] eqn:Es. simpl in E1. subst r1.
  assert (Hok : handles_ok sample_idle).
  { split; [reflexivity|]. intros h o Ho. change (@lookup Z bytes (gmap Z bytes) _ h ∅ = Some o) in Ho. by rewrite lookup_empty in Ho. }
  specialize (Hc Hok eq_refl eq_refl eq_refl). unfold pwp in Hc. 
  replace (assignment_bindings s1) with (assignment_bindings (snd sample_set_up)) in Hc by (by rewrite Es).
  fold sample_bound in Hc. destruct sample_bound as [r2 p2]. simpl in E2. subst r2.
  destruct Hc as (o & i & out & c & Ho & Hs & Hi & _). exists o, i, out, c. split; [exact Ho|]. split; [exact Hs|exact Hi].
Defined.

(** The handle of a seat belongs to the proxy that asked for the terminals, and is
    released once more when the terminals are destroyed. *)
Lemma seat_released_twice : fst (dominit0_terminal_destroy (snd sample_set_up)) = Fault.
Proof. vm_compute. reflexivity. Qed.

(** Without the seat archive there are no seats, but the assignments are looked up in
    them all the same. *)
Lemma missing_seat_archive_faults :
  fst (dominit0_terminal_initialize always always always (fun _ => None) sample_start sample_system sample_idle) = Fault.
Proof. vm_compute. reflexivity. Qed.
