(* ===== verification/Process.v ===== *)
(** Processes (src/src/dominit0/process.c): the launch of a program in a domain, the
    end of a process and its restart, and what POSIX processes ask of the process
    manager.

    One manager, that of one domain, is modelled ([ProcessManager]); a process is
    known by the handle of its lifecycle object.  The server threads of dominit0 are
    taken to run one call at a time.  The start of a program by the platform is the
    part that concerns the environment ([platform_start_process]): the page allocator
    is exported and bound, and the kernel may refuse ([start_ok]); of a started program
    the page allocator, the image and the arguments are kept ([PlatformProcess]).  Log
    messages are left out. *)
From stdpp Require Import gmap.
From S2P Require Import Prelude Utf8 ConfigTypes Logging Environment Effects Handles Initrd Posix ProcessEnvironment Terminal.
#[local] Open Scope facet_scope.

(** What an initial process is started with again. *)
Record Restart := mkRestart {
  restart_path : bytes;
  restart_argv : list bytes;
  restart_posix_root : option bytes;
  restart_from_posix_view : bool;
  restart_native_capabilities : bool
}.

(** A program that the platform has started: the page allocator that it was given, the
    image that was loaded and the arguments that it got. *)
Record PlatformProcess := mkPlatform {
  pp_pages : Z;
  pp_elf : bytes;
  pp_elf_size : Z;
  pp_argv : list bytes
}.

Record RunningProcess := mkRunning {
  rp_handle : Z;
  rp_lifecycle : Z;
  platform_state : option PlatformProcess;
  running : bool;
  exit_status : Z;
  pid : Z;
  rp_terminal : Z;
  rp_env : ProcessEnvironment;
  rp_restart : option Restart
}.

Definition set_rp_env (e : ProcessEnvironment) (p : RunningProcess) : RunningProcess :=
  mkRunning (rp_handle p) (rp_lifecycle p) (platform_state p) (running p) (exit_status p) (pid p) (rp_terminal p) e (rp_restart p).
Definition set_exited (status : Z) (p : RunningProcess) : RunningProcess :=
  mkRunning (rp_handle p) (rp_lifecycle p) (platform_state p) false status (pid p) (rp_terminal p) (rp_env p) (rp_restart p).
Definition set_reclaimed (p : RunningProcess) : RunningProcess :=
  mkRunning (rp_handle p) (rp_lifecycle p) None (running p) (exit_status p) (pid p) (rp_terminal p) (rp_env p) (rp_restart p).

Record ProcessManager := mkManager {
  pm_handle : Z;
  processes : list RunningProcess;
  next_pid : Z
}.

Record ManagerState (O : Type) := mkManagerState {
  ms_world : World O;
  ms_refs : gmap Z Z;
  ms_manager : ProcessManager
}.
Arguments mkManagerState {O}.
Arguments ms_world {O}.
Arguments ms_refs {O}.
Arguments ms_manager {O}.

#[global] Instance manager_worldly O : Worldly (ManagerState O) O := {
  world := ms_world;
  set_world w s := mkManagerState w (ms_refs s) (ms_manager s)
}.

#[global] Instance manager_worldly_laws O : WorldlyLaws (ManagerState O) O.
Proof. split; [done..|]. by intros []. Qed.

(** What files, sessions and the environments of callers answer. *)
Class ProcessServices (O : Type) := {
  file_path : O -> answer bytes;
  session_get_domain_id : O -> answer Z;
  caller_resolve : O -> bytes -> answer O;
  caller_get_sysv_environment : O -> answer (list bytes);
  caller_get_terminal_index : O -> answer Z;
  caller_get_cwd : O -> answer O
}.

(** The arguments of [launch_process]; a root that is null or has no data is [None]. *)
Record Launch := mkLaunch {
  l_path : bytes;
  l_arguments : list bytes;
  l_session : Z;
  l_initial : bool;
  l_terminal_index : Z;
  l_sysv : option (list bytes);
  l_cwd : Z;
  l_synthetic_cwd : bool;
  l_from_posix_view : bool;
  l_native : bool;
  l_posix_root : option bytes;
  l_identity_source : option (Z * Z * bool)
}.

(** What the launch has found before the process gets its number. *)
Record Program := mkProgram {
  pr_path : bytes;
  pr_elf : bytes;
  pr_elf_size : Z;
  pr_argv : list bytes;
  pr_credentials : Z * Z * bool
}.

(** What the manager of a domain works with: the answers of the allocators, of the
    proxies and of the kernel, the objects that are exported, the identifiers of the
    interfaces, and the domain with its boot file system, its configuration, its
    terminals and the services of the rest of dominit0. *)
Class DomainSetting (O : Type) := {
  dm_alloc_ok : nat -> bool;
  dm_proxy_ok : nat -> bool;
  dm_start_ok : nat -> bool;
  dm_process_environment_object : O;
  dm_posix_object : O;
  dm_process_object : O;
  dm_lifecycle_object : O;
  dm_manager_object : O;
  dm_allocator_object : O;
  IID_IFileStore : iid;
  IID_ISession : iid;
  IID_IDirectory : iid;
  IID_IPOSIXView : iid;
  IID_ITerminalControl : iid;
  IID_IByteReader : iid;
  IID_IByteWriter : iid;
  IID_IProcessLifecycle : iid;
  IID_IPageAllocator : iid;
  IID_IGenericObject : iid;
  IID_IProcess : iid;
  IID_IProcessManager : iid;
  dm_credential_store : Z -> Z -> bool -> option CredentialFiles;
  dm_resolve_in_parent : bytes -> FacetResult * option (iid * Z);
  dm_domain : nat;
  dm_domain_initrd : bool;
  dm_entries : list InitrdEntry;
  dm_parsed : option FacetConfigDomain;
  dm_config_domain_id : answer Z;
  dm_bindings : list TerminalAssignmentBinding;
  dm_session_for_user : Z -> bytes -> answer O;
  dm_config_users : list FacetConfigUser
}.

Section Process.
Context {O : Type} `{PosixServices O} `{EnvServices O} `{ProcessServices O} `{DomainSetting O}.

Abbreviation Proc := (Eff (ProcessState O)).
Abbreviation Mgr := (Eff (ManagerState O)).

(** ** Interfaces of a process *)

Definition process_get_interface (p : RunningProcess) (i : iid) : FacetResult * Z :=
  if ((i =b IID_IGenericObject) || (i =b IID_IProcess))%bool then Environment.return_handle (rp_handle p)
  else (FACET_NO_INTERFACE, 0).

Definition process_get_running (p : RunningProcess) : bool := running p.
Definition process_get_exit_status (p : RunningProcess) : Z := exit_status p.

Definition lifecycle_get_interface (p : RunningProcess) (i : iid) : FacetResult * Z :=
  if ((i =b IID_IGenericObject) || (i =b IID_IProcessLifecycle))%bool then Environment.return_handle (rp_lifecycle p)
  else (FACET_NO_INTERFACE, 0).

Definition manager_get_interface (m : ProcessManager) (i : iid) : FacetResult * Z :=
  if ((i =b IID_IGenericObject) || (i =b IID_IProcessManager))%bool then Environment.return_handle (pm_handle m)
  else (FACET_NO_INTERFACE, 0).

(** ** The program of a launch *)

(** A copy as a C string, if there is one. *)
Definition copy_string (input : bytes) : Proc (option bytes) :=
  if ((length input =? 0)%nat || (4096 <? length input)%nat)%bool then fret None
  else run ok <- allocate_memory dm_alloc_ok; fret (if (ok : bool) then Some (cstring input) else None).

Definition session_credentials (session : Z) : Proc (Z * Z * bool) :=
  if session =? 0 then fret (0, 0, true)
  else
    run copy <- ftry (handle_clone dm_alloc_ok session) fret (ferr FACET_INVALID_HANDLE);
    owned_proxy dm_proxy_ok copy (fun o => remote (session_get_credentials o)).

(** A relative name is looked up in the current directory. *)
Definition resolve_relative (cwd : Z) (path : bytes) : Proc bytes :=
  run copy <- ftry (handle_clone dm_alloc_ok cwd) fret (ferr FACET_INVALID_HANDLE);
  run file <- owned_proxy dm_proxy_ok copy (fun o => remote_handle (dir_open_file o path));
  run canonical <- owned_proxy dm_proxy_ok file (fun o => remote (file_path o));
  if (length canonical =? 0)%nat then ferr FACET_INVALID_ARGUMENT
  else
    run resolved <- copy_string canonical;
    match resolved with None => ferr FACET_OUT_OF_MEMORY | Some p => fret p end.

(** The path in the boot file system, for a caller with a POSIX root. *)
Definition backing_path (from_posix_view : bool) (posix_root : option bytes) (path : bytes) : Proc bytes :=
  match posix_root with
  | Some root =>
      if (from_posix_view && (1 <? length root)%nat && starts_with 47 path)%bool then
        run ok <- allocate_memory dm_alloc_ok;
        if negb ok then ferr FACET_OUT_OF_MEMORY else fret (cstring (root ++ path))
      else fret path
  | None => fret path
  end.

(** Copies of all the arguments, up to the first that cannot be copied. *)
Fixpoint copy_arguments (arguments : list bytes) : Proc (list bytes) :=
  match arguments with
  | [] => fret []
  | a :: rest =>
      run copy <- copy_string a;
      match copy with
      | None => ferr FACET_OUT_OF_MEMORY
      | Some c => run cs <- copy_arguments rest; fret (c :: cs)
      end
  end.

Definition launch_argv (path : bytes) (arguments : list bytes) : Proc (list bytes) :=
  run ok <- allocate_memory dm_alloc_ok;
  if negb ok then ferr FACET_OUT_OF_MEMORY
  else match arguments with
       | [] => run ok <- allocate_memory dm_alloc_ok; if negb ok then ferr FACET_OUT_OF_MEMORY else fret [path]
       | _ => copy_arguments arguments
       end.

Definition launch_credentials (l : Launch) : Proc (Z * Z * bool) :=
  match l_identity_source l with
  | Some credentials => fret credentials
  | None => ftry (session_credentials (l_session l)) fret (ferr FACET_ACCESS_DENIED)
  end.

(** Everything before the process has a number: credentials, path, execute check,
    contents, arguments and the record of the process. *)
Definition find_program (l : Launch) : Proc Program :=
  if ((64 <? length (l_arguments l))%nat ||
      (negb (l_initial l) && (l_session l =? 0) && bool_decide (l_identity_source l = None)))%bool
  then ferr FACET_INVALID_ARGUMENT
  else
    run credentials <- launch_credentials l;
    run copied <- copy_string (l_path l);
    match copied with
    | None => ferr FACET_INVALID_ARGUMENT
    | Some copy =>
        run resolved <- (if (negb (l_cwd l =? 0) && negb (starts_with 47 copy))%bool
                         then resolve_relative (l_cwd l) copy else fret copy);
        run path <- backing_path (l_from_posix_view l) (l_posix_root l) resolved;
        let '(uid, gid, admin) := credentials in
        run malloc <- allocate_memory dm_alloc_ok;
        match facet_initrd_check_execute dm_entries path uid gid admin malloc with
        | None => ffault
        | Some FACET_OK =>
            match facet_initrd_find_file dm_entries path with
            | (FACET_OK, Some (elf, size)) =>
                run argv <- launch_argv path (l_arguments l);
                run ok <- allocate_memory dm_alloc_ok;
                if negb ok then ferr FACET_OUT_OF_MEMORY else fret (mkProgram path elf size argv credentials)
            | (FACET_OK, None) => ffault
            | (code, _) => ferr code
            end
        | Some code => ferr code
        end
    end.

(** ** The environment of a launch *)

Definition or_destroy {A} (code : FacetResult) (m : Proc A) : Proc A :=
  ftry m fret (dominit0_process_environment_destroy ;; ferr code).

Definition create_environment (l : Launch) : Proc unit :=
  dominit0_process_environment_create dm_alloc_ok dm_proxy_ok dm_process_environment_object IID_IFileStore IID_ISession IID_IDirectory
    dm_credential_store dm_resolve_in_parent dm_domain_initrd (l_initial l && (l_session l =? 0)) (l_native l) (l_session l)
    (l_sysv l) (l_cwd l) (l_identity_source l).

(** What follows the creation of the environment. *)
Definition complete_environment (l : Launch) (number : Z) (admin : bool) : Proc unit :=
  (if l_synthetic_cwd l then dominit0_process_environment_set_posix_synthetic_cwd true else fret tt) ;;
  or_destroy FACET_OUT_OF_MEMORY
    (match dm_parsed with
     | None => failed
     | Some d => dominit0_process_environment_set_domain_id dm_alloc_ok (domain_id d)
     end) ;;
  or_destroy FACET_NOT_FOUND
    (match l_posix_root l with
     | Some root =>
         if (l_from_posix_view l && (l_cwd l =? 0))%bool
         then dominit0_process_environment_set_posix_root dm_alloc_ok dm_proxy_ok (cstring root) else fret tt
     | None => fret tt
     end) ;;
  or_destroy FACET_NOT_FOUND
    (match l_posix_root l with
     | Some root => dominit0_process_environment_set_posix_namespace_root dm_alloc_ok (cstring root)
     | None => fret tt
     end) ;;
  or_destroy FACET_NOT_FOUND
    (dominit0_terminal_bind_process_environment dm_alloc_ok dm_proxy_ok dm_posix_object IID_IPOSIXView IID_ITerminalControl
       IID_IByteReader IID_IByteWriter dm_bindings dm_domain
       (match dm_parsed with Some d => domain_terminals d | None => [] end) (Z.to_nat (l_terminal_index l))) ;;
  or_destroy FACET_ERROR
    (match l_posix_root l, dm_parsed with
     | Some _, Some d => dominit0_process_environment_bind_posix_process_control (domain_id d) number admin
     | _, _ => fret tt
     end).

Definition set_up_environment (l : Launch) (number : Z) (admin : bool) : Proc unit :=
  ftry (create_environment l) fret (ferr FACET_OUT_OF_MEMORY) ;;
  complete_environment l number admin.

(** The two exports of a process; the environment is bound to the second. *)
Definition export_process : Proc (Z * Z) :=
  run handle <- or_destroy FACET_OUT_OF_MEMORY (export_interface dm_alloc_ok dm_process_object);
  ftry (export_interface dm_alloc_ok dm_lifecycle_object)
    (fun lifecycle =>
       ftry (dominit0_process_environment_bind_lifecycle dm_alloc_ok IID_IProcessLifecycle lifecycle)
         (fun _ => fret (handle, lifecycle))
         (handle_release lifecycle ;; handle_release handle ;; dominit0_process_environment_destroy ;; ferr FACET_OUT_OF_MEMORY))
    (handle_release handle ;; dominit0_process_environment_destroy ;; ferr FACET_OUT_OF_MEMORY).

(** Copies that are all attempted. *)
Fixpoint ask_all (n : nat) : Proc bool :=
  match n with
  | 0%nat => fret true
  | S k => run ok <- allocate_memory dm_alloc_ok; run rest <- ask_all k; fret (ok && rest)%bool
  end.

(** What an initial process is restarted with, if it could be copied. *)
Definition keep_restart (l : Launch) (program : Program) : Proc (option Restart) :=
  run path <- allocate_memory dm_alloc_ok;
  run array <- allocate_memory dm_alloc_ok;
  run root <- match l_posix_root l with
              | Some r => run copy <- copy_string r; fret (Some <$> copy)
              | None => fret (Some None)
              end;
  run arguments <- (if (array : bool) then ask_all (length (pr_argv program)) else fret true);
  fret (match root with
        | Some root =>
            if (path && array && arguments)%bool
            then Some (mkRestart (pr_path program) (pr_argv program) root (l_from_posix_view l) (l_native l)) else None
        | None => None
        end).

(** [platform_start_process]: the page allocator of the program, and the kernel, which
    loads the image. *)
Definition platform_start_process (elf : bytes) (elf_size : Z) (argv : list bytes) : Proc PlatformProcess :=
  if ((elf_size =? 0) || (length argv =? 0)%nat)%bool then failed
  else
    run configured <- ask dm_start_ok;
    if negb configured then failed
    else
      run pages <- export_interface dm_alloc_ok dm_allocator_object;
      run tested <- ask dm_start_ok;
      ftry (if negb tested then failed else dominit0_process_environment_bind_page_allocator dm_alloc_ok IID_IPageAllocator pages)
        (fun _ =>
           run root <- the_env pe_handle;
           run started <- ask dm_start_ok;
           if ((root =? 0) || negb started)%bool then handle_release pages ;; failed
           else fret (mkPlatform pages elf elf_size argv))
        (handle_release pages ;; failed).

(** [platform_destroy_process] ends the page allocator with the program. *)
Definition platform_destroy_process (program : PlatformProcess) {S} `{Worldly S O} : Eff S unit := handle_release (pp_pages program).

(** The process, once its program has been found. *)
Definition start_program (l : Launch) (program : Program) (number : Z) : Proc RunningProcess :=
  set_up_environment l number (snd (pr_credentials program)) ;;
  run exported <- export_process;
  let '(handle, lifecycle) := exported in
  let undo := handle_release lifecycle ;; handle_release handle ;; dominit0_process_environment_destroy in
  run restart <- (if l_initial l then
                    run kept <- keep_restart l program;
                    match kept with None => undo ;; ferr FACET_OUT_OF_MEMORY | Some r => fret (Some r) end
                  else fret None);
  ftry (platform_start_process (pr_elf program) (pr_elf_size program) (pr_argv program))
    (fun state => run e <- the_env id; fret (mkRunning handle lifecycle (Some state) true 0 number (l_terminal_index l) e restart))
    (undo ;; ferr FACET_ERROR).

(** ** The manager *)

Definition in_world {A} (m : Proc A) : Mgr A := fun s =>
  let (r, p) := m (mkProcessState (ms_world s) (ms_refs s) (empty_environment false)) in
  (r, mkManagerState (ps_world p) (ps_refs p) (ms_manager s)).

Definition the_manager {A} (f : ProcessManager -> A) : Mgr A := fget (fun s => f (ms_manager s)).
Definition change_manager (f : ProcessManager -> ProcessManager) : Mgr unit :=
  fput (fun s => mkManagerState (ms_world s) (ms_refs s) (f (ms_manager s))).

(** The number of a new process: 32 bits with sign, and 1 after the last one. *)
Definition take_pid : Mgr Z :=
  run n <- the_manager next_pid;
  if n <=? 0 then change_manager (fun m => mkManager (pm_handle m) (processes m) 1) ;; fret 1
  else change_manager (fun m => mkManager (pm_handle m) (processes m) (signed 32 (n + 1))) ;; fret n.

Definition launch_process (l : Launch) : Mgr Z :=
  run program <- in_world (find_program l);
  run number <- take_pid;
  run process <- in_world (start_program l program number);
  change_manager (fun m => mkManager (pm_handle m) (process :: processes m) (next_pid m)) ;;
  fret (rp_handle process).

(** A process by its lifecycle; a process that is not there is a dangling pointer. *)
Definition find_process (self : Z) (m : ProcessManager) : option RunningProcess :=
  find (fun p => rp_lifecycle p =? self) (processes m).

Definition the_process (self : Z) : Mgr RunningProcess :=
  run p <- the_manager (find_process self);
  match p with None => ffault | Some p => fret p end.

Definition update_process (self : Z) (f : RunningProcess -> RunningProcess) : Mgr unit :=
  change_manager (fun m =>
    mkManager (pm_handle m) (map (fun p => if rp_lifecycle p =? self then f p else p) (processes m)) (next_pid m)).

(** A step on the environment of a process. *)
Definition on_environment {A} (self : Z) (m : Proc A) : Mgr A :=
  run p <- the_process self;
  fun s =>
    let (r, ps) := m (mkProcessState (ms_world s) (ms_refs s) (rp_env p)) in
    match update_process self (set_rp_env (ps_env ps)) (mkManagerState (ps_world ps) (ps_refs ps) (ms_manager s)) with
    | (_, s') => (r, s')
    end.

(** The value or the code of a step. *)
Definition attempt {S A} (m : Eff S A) : Eff S (A + FacetResult) := fun s =>
  match m s with
  | (Ok a, s') => (Ok (inl a), s')
  | (Err c, s') => (Ok (inr c), s')
  | (Fault, s') => (Fault, s')
  end.

Definition reclaim (p : RunningProcess) : Mgr unit :=
  match platform_state p with
  | None => fret tt
  | Some program => platform_destroy_process program ;; update_process (rp_lifecycle p) set_reclaimed
  end.

Definition lifecycle_notify_exit (self : Z) (status : Z) : Mgr unit :=
  run p <- the_process self;
  update_process self (set_exited status) ;;
  match rp_restart p with
  | None => fret tt
  | Some r =>
      run launched <- attempt (launch_process (mkLaunch (restart_path r) (restart_argv r) 0 true (rp_terminal p) None 0 false
        (restart_from_posix_view r) (restart_native_capabilities r) (restart_posix_root r) None));
      (match launched with inl replacement => handle_release replacement | inr _ => fret tt end) ;;
      reclaim p
  end.

(** ** Requests of POSIX processes *)

Definition posix_spawn_process (self : Z) (path : bytes) (arguments : list bytes) (session : Z) : Mgr (outcome Z) :=
  run parent <- the_process self;
  run cwd <- on_environment self (dominit0_process_environment_cwd_handle dm_alloc_ok);
  if cwd =? 0 then fret (Failed ENOMEM)
  else
    let sysv := sysv_environment (rp_env parent) in
    run copied <- (if (length sysv =? 0)%nat then fret true else allocate dm_alloc_ok);
    if negb copied then handle_release cwd ;; fret (Failed ENOMEM)
    else
      let newly_authenticated := negb (session =? 0) in
      run launched <- attempt (launch_process (mkLaunch path arguments session false (rp_terminal parent)
        (if newly_authenticated then None else Some sysv) cwd (posix_cwd_synthetic_etc (rp_env parent)) true
        (native_capabilities (rp_env parent)) (posix_namespace_root (rp_env parent))
        (if newly_authenticated then None
         else Some (pe_uid (rp_env parent), pe_gid (rp_env parent), pe_admin (rp_env parent)))));
      handle_release cwd ;;
      match launched with
      | inl child =>
          run l <- the_manager processes;
          handle_release child ;;
          fret (Done (match l with [] => -1 | p :: _ => pid p end))
      | inr code =>
          fret (Failed (match code with FACET_ACCESS_DENIED => EACCES | FACET_NOT_FOUND => ENOENT | _ => EIO end))
      end.

Definition posix_wait_process (number : Z) : Mgr (outcome Z) :=
  run l <- the_manager processes;
  match find (fun p => pid p =? number) l with
  | None => fret (Failed ECHILD)
  | Some p => if running p then fret (Failed EAGAIN) else reclaim p ;; fret (Done (exit_status p))
  end.

Definition posix_set_credentials_process (self uid gid : Z) (set_uid set_gid : bool) : Mgr unit :=
  on_environment self (dominit0_process_environment_set_credentials dm_alloc_ok dm_config_users uid gid set_uid set_gid).

(** ** Requests of native processes *)

Definition domain_native : bool :=
  match dm_parsed with Some d => bool_decide (personality d = FACET_CONFIG_PERSONALITY_NATIVE) | None => false end.
Definition configured_root : bytes := if domain_native then B "/posix" else B "/".

(** What the environment of the caller gives to its child. *)
Definition ask_caller (owned : Z) : Proc (Z * (list bytes * Z * Z)) :=
  owned_proxy dm_proxy_ok owned (fun caller =>
    run session <- remote_handle (caller_resolve caller (B "session"));
    ftry (run sysv <- remote (caller_get_sysv_environment caller);
          run terminal <- remote (caller_get_terminal_index caller);
          run cwd <- remote_handle (caller_get_cwd caller);
          fret (sysv, terminal, cwd))
      (fun rest => fret (session, rest))
      (handle_release session ;; ferr FACET_ACCESS_DENIED)).

(** The domain of a session, and that of the manager. *)
Definition session_domains (session : Z) : Proc (Z * Z) :=
  run copy <- handle_clone dm_alloc_ok session;
  owned_proxy dm_proxy_ok copy (fun o =>
    run principal <- remote_handle (session_get_principal o);
    then_release (run s <- remote (session_get_domain_id o); run m <- remote dm_config_domain_id; fret (s, m)) principal).

Definition manager_launch (path : bytes) (arguments : list bytes) (environment : Z) : Mgr Z :=
  run owned <- ftry (handle_clone dm_alloc_ok environment) fret (ferr FACET_ACCESS_DENIED);
  run asked <- ftry (in_world (ask_caller owned)) fret (ferr FACET_ACCESS_DENIED);
  let '(session, (sysv, terminal, cwd)) := asked in
  let denied := handle_release session ;; handle_release cwd ;; ferr FACET_ACCESS_DENIED in
  ftry (in_world (session_domains session))
    (fun domains =>
       if negb (fst domains =? snd domains) then denied
       else
         run launched <- attempt (launch_process (mkLaunch path arguments session false terminal (Some sysv) cwd false false
           domain_native (Some configured_root) None));
         handle_release session ;;
         handle_release cwd ;;
         match launched with inl h => fret h | inr code => ferr code end)
    denied.

(** A session for the user of the terminal, or for root in a domain without native
    capabilities; 0 if there is none. *)
Definition initial_session (terminal_index : Z) : Mgr Z :=
  match dm_parsed with
  | None => ffault
  | Some d =>
      let run_as := match domain_terminals d !! Z.to_nat terminal_index with Some a => run_as a | None => None end in
      match run_as with
      | Some user => match dm_session_for_user (domain_id d) user with inl o => handle_of_object o | inr code => ferr code end
      | None =>
          if domain_native then fret 0
          else match dm_session_for_user (domain_id d) (B "root") with inl o => handle_of_object o | inr _ => fret 0 end
      end
  end.

Definition manager_launch_initial (path : bytes) (arguments : list bytes) (terminal_index : Z) (posix_root : option bytes) : Mgr Z :=
  run session <- initial_session terminal_index;
  run launched <- attempt (launch_process (mkLaunch path arguments session true terminal_index None 0 false
    (match posix_root with Some r => r =b [47] | None => false end) domain_native posix_root None));
  handle_release session ;;
  match launched with inl h => fret h | inr code => ferr code end.

Definition manager_launch_on_terminal (path : bytes) (arguments : list bytes) (session terminal_index : Z) : Mgr Z :=
  run owned <- ftry (handle_clone dm_alloc_ok session) fret (ferr FACET_ACCESS_DENIED);
  run domains <- ftry (in_world (owned_proxy dm_proxy_ok owned (fun o =>
      run s <- remote (session_get_domain_id o); run m <- remote dm_config_domain_id; fret (s, m)))) fret (ferr FACET_ACCESS_DENIED);
  if negb (fst domains =? snd domains) then ferr FACET_ACCESS_DENIED
  else launch_process (mkLaunch path arguments session false terminal_index None 0 false false domain_native
         (Some configured_root) None).

(** ** Set up and destruction *)

(** The new manager, and the environment of the domain with its name bound. *)
Definition dominit0_process_manager_initialize (environment : option DomainEnvironment) (has_initrd : bool)
    (IID_ILogger IID_IPages IID_IDomainConfig IID_IFiles : iid) : Proc (ProcessManager * DomainEnvironment) :=
  match environment with
  | None => failed
  | Some e =>
      if negb has_initrd then failed
      else
        run ok <- allocate_memory dm_alloc_ok;
        if negb ok then failed
        else
          run handle <- ftry (export_interface dm_alloc_ok dm_manager_object) fret failed;
          run copied <- allocate_memory dm_alloc_ok;
          let (code, e') := dominit0_environment_bind_named IID_ILogger IID_IPages IID_IDomainConfig IID_IFiles copied e
                              (Some (B "processes")) IID_IProcessManager handle in
          if negb (code =? 0) then handle_release handle ;; failed
          else fret (mkManager handle [] 1, e')
  end.

Fixpoint destroy_processes (l : list RunningProcess) : Proc unit :=
  match l with
  | [] => fret tt
  | p :: rest =>
      handle_release (rp_lifecycle p) ;;
      handle_release (rp_handle p) ;;
      change_env (fun _ => rp_env p) ;;
      dominit0_process_environment_destroy ;;
      destroy_processes rest
  end.

Fixpoint dominit0_process_managers_destroy (managers : list ProcessManager) : Proc unit :=
  match managers with
  | [] => fret tt
  | m :: rest => destroy_processes (processes m) ;; handle_release (pm_handle m) ;; dominit0_process_managers_destroy rest
  end.

End Process.
