(* ===== verification/ProcessFacts.v ===== *)
(** Processes: whom a launch runs a program for, how the end of a process is
    reported, and the numbers of processes. *)
From stdpp Require Import gmap.
From S2P Require Import Prelude Utf8 ConfigTypes Logging Environment EnvironmentFacts Effects Handles HandleFacts Initrd InitrdFacts.
From S2P Require Import Posix PosixUse ProcessEnvironment ProcessEnvironmentFacts ProcessCreation Terminal TerminalFacts Process.

#[local] Arguments ProcessEnvironment.bind : simpl never.

(** ** What a launch adds to a new environment *)

(** The names that the launch binds after the creation of the environment. *)
Definition launch_names : list bytes :=
  [B "posix"; B "terminal.control"; B "stdin"; B "stdout"; B "stderr"; B "process.lifecycle"; B "memory.pages"].

Definition names_of (e : ProcessEnvironment) : list bytes := pb_name <$> pe_bindings e.

(** The identity is the same, and only those names are new. *)
Definition gently (e e' : ProcessEnvironment) : Prop :=
  credentials_of e' = credentials_of e /\ forall n, n ∈ names_of e' -> n ∈ names_of e \/ n ∈ launch_names.

Lemma gently_refl e : gently e e.
Proof. split; [done|by left]. Qed.

Lemma gently_trans e1 e2 e3 : gently e1 e2 -> gently e2 e3 -> gently e1 e3.
Proof. intros [C1 N1] [C2 N2]. split; [congruence|]. intros n Hn. destruct (N2 n Hn) as [Hn'|Hn']; [by apply N1|by right]. Qed.

Lemma gently_same e e' : credentials_of e' = credentials_of e -> names_of e' = names_of e -> gently e e'.
Proof. intros Hc Hn. split; [done|]. rewrite Hn. by left. Qed.

Section Gentle.
Context {O : Type} `{PosixServices O} `{EnvServices O}.
Context (alloc_ok proxy_ok : nat -> bool).

Abbreviation St := (ProcessState O).

Definition gentle {A} (m : Eff St A) : Prop := forall p, gently (ps_env p) (ps_env (snd (m p))).

Lemma gentle_outside {A} (m : Eff St A) : outside m -> gentle m.
Proof. intros Hm p. rewrite Hm. apply gently_refl. Qed.

Lemma gentle_bind {A C} (m : Eff St A) (k : A -> Eff St C) : gentle m -> (forall a, gentle (k a)) -> gentle (fbind m k).
Proof.
  intros Hm Hk p. specialize (Hm p). unfold fbind. destruct (m p) as [[a|c|] p1]; simpl in *; [|done..].
  eapply gently_trans; [exact Hm|apply Hk].
Qed.

Lemma gentle_try {A C} (m : Eff St A) (k : A -> Eff St C) handler :
  gentle m -> (forall a, gentle (k a)) -> gentle handler -> gentle (ftry m k handler).
Proof.
  intros Hm Hk Hh p. specialize (Hm p). unfold ftry. destruct (m p) as [[a|c|] p1]; simpl in *; [| |done];
    (eapply gently_trans; [exact Hm|]); [apply Hk|apply Hh].
Qed.

Lemma gentle_change f : (forall e, gently e (f e)) -> gentle (change_env f : Eff St unit).
Proof. intros Hf p. apply Hf. Qed.

Lemma gentle_name n i h : n ∈ launch_names -> gentle (ProcessEnvironment.bind alloc_ok (Some n) i h : Eff St unit).
Proof.
  intros Hn p. unfold ProcessEnvironment.bind, fbind, the_env, fget. simpl. unfold id.
  destruct (_ || _)%bool; [apply gently_refl|]. case_bool_decide; [apply gently_refl|]. unfold allocate_memory, allocate, ask.
  destruct (alloc_ok _); simpl; [|apply gently_refl]. split; [done|]. intros k. unfold names_of. simpl.
  rewrite fmap_app, elem_of_app. intros [Hk| ->%list_elem_of_singleton]; [by left|by right].
Qed.

Lemma gentle_on_view {A} v (m : Eff (PosixState O unit) A) : gentle (on_view v m).
Proof. intros p. unfold on_view. destruct (m _) as [r q]. by apply gently_same. Qed.

Lemma gentle_with_view {A} (m : Eff (PosixState O unit) A) : gentle (with_view m).
Proof.
  unfold with_view. apply gentle_bind; [by apply gentle_outside|]. intros e.
  destruct (posix_view e); [apply gentle_on_view|by apply gentle_outside].
Qed.

Lemma gently_rebind n h e : gently e (rebind n h (set_owned_cwd h e)).
Proof.
  unfold rebind. destruct (index_of _ _) as [i|]; [|by apply gently_same]. apply gently_same; [done|]. unfold names_of. simpl.
  apply list_eq. intros j. rewrite !list_lookup_fmap. destruct (decide (i = j)) as [<-|Hij].
  - rewrite list_lookup_alter_eq. by destruct (pe_bindings e !! i).
  - by rewrite list_lookup_alter_ne.
Qed.

Lemma gentle_create_view view input output cwd : gentle (create_view alloc_ok proxy_ok view input output cwd : Eff St unit).
Proof.
  intros p. unfold create_view. destruct (dominit0_posix_view_create _ _ _ _ _ _ _) as [[]]; by apply gently_same.
Qed.

End Gentle.

Ltac gently :=
  repeat (intros;
    lazymatch goal with
    | |- gentle (fbind _ _) => apply gentle_bind
    | |- gentle (ftry _ _ _) => apply gentle_try
    | |- gentle (ProcessEnvironment.bind _ _ _ _) => apply gentle_name; by_decide
    | |- gentle (handle_release _) => apply gentle_outside, outside_release
    | |- gentle (handle_clone _ _) => apply gentle_outside, outside_clone
    | |- gentle (open_in_store _ _ _) => apply gentle_outside, outside_open
    | |- gentle (on_view _ _) => apply gentle_on_view
    | |- gentle (with_view _) => apply gentle_with_view
    | |- gentle (create_view _ _ _ _ _ _) => apply gentle_create_view
    | |- gentle (change_env (fun e => rebind _ _ _)) => apply gentle_change; intros; apply gently_rebind
    | |- gentle (change_env _) => apply gentle_change; intros; by apply gently_same
    | |- gentle (match ?x with _ => _ end) => destruct x
    | |- gentle _ => by apply gentle_outside
    end).

Section GentleSteps.
Context {O : Type} `{PosixServices O} `{EnvServices O}.
Context (alloc_ok proxy_ok : nat -> bool).

Abbreviation St := (ProcessState O).

Lemma outside_destroy : outside (dominit0_process_environment_destroy : Eff St unit).
Proof.
  unfold dominit0_process_environment_destroy. stays_outside. intros q. by destruct (dominit0_posix_view_destroy _).
Qed.

Lemma gentle_variable prefix text : gentle (set_variable alloc_ok prefix text : Eff St unit).
Proof. unfold set_variable, add_sysv_environment, grow_sysv. gently. Qed.

Lemma gentle_terminal view i1 i2 i3 i4 bindings domain assignments ai :
  gentle (dominit0_terminal_bind_process_environment alloc_ok proxy_ok view i1 i2 i3 i4 bindings domain assignments ai : Eff St unit).
Proof.
  unfold dominit0_terminal_bind_process_environment, dominit0_process_environment_bind_terminal, bind_view, bind_namespace_root,
    dominit0_process_environment_set_terminal_index, dominit0_process_environment_set_terminal_name.
  gently; intros; apply gentle_variable.
Qed.

Lemma gentle_posix_root path : gentle (dominit0_process_environment_set_posix_root alloc_ok proxy_ok path : Eff St unit).
Proof.
  unfold dominit0_process_environment_set_posix_root, dominit0_process_environment_set_posix_namespace_root. gently.
Qed.

Lemma gentle_namespace_root path : gentle (dominit0_process_environment_set_posix_namespace_root alloc_ok path : Eff St unit).
Proof. unfold dominit0_process_environment_set_posix_namespace_root. gently. Qed.

Lemma gentle_or_destroy {A} code (m : Eff St A) : gentle m -> gentle (or_destroy code m).
Proof. intros Hm. unfold or_destroy. gently; intros; try done. apply gentle_outside, outside_destroy. Qed.

Lemma gentle_export object : gentle (export_interface alloc_ok object : Eff St Z).
Proof. unfold export_interface, allocate. gently. Qed.

End GentleSteps.

(** ** The program of a launch *)

Section Launch.
Context {O : Type} `{PosixServices O} `{EnvServices O} `{ProcessServices O} `{DomainSetting O}.

Abbreviation St := (ProcessState O).
Abbreviation lv s := (live (ps_world s)).
Abbreviation nx s := (next_fresh (ps_world s)).

Lemma mild_later {A} (m : Eff St A) s0 s :
  mild m -> later s0 s -> pwp m s (fun _ s' => later s0 s').
Proof. intros Hm L. eapply pwp_mono; [apply Hm, L|]. intros a s' [L' _]. by eapply later_trans. Qed.

Lemma mild_next {A C} (m : Eff St A) (k : A -> Eff St C) s0 s Q :
  mild m -> later s0 s -> (forall a s', later s0 s' -> pwp (k a) s' Q) -> pwp (fbind m k) s Q.
Proof. intros Hm L Hk. apply pwp_bind. eapply pwp_mono; [by apply (mild_later m s0)|]. intros a s' L'. by apply Hk. Qed.

Lemma mild_memory : mild (allocate_memory dm_alloc_ok : Eff St bool).
Proof. apply mild_ask. Qed.

Lemma mild_copy_string input : mild (copy_string input : Eff St _).
Proof.
  unfold copy_string. destruct (_ || _)%bool; [apply mild_ret|]. apply mild_bind; [apply mild_memory|]. intros ok. apply mild_ret.
Qed.

Lemma mild_arguments arguments : mild (copy_arguments arguments : Eff St _).
Proof.
  induction arguments as [|a rest IH]; simpl; [apply mild_ret|]. apply mild_bind; [apply mild_copy_string|].
  intros [c|]; [|apply mild_err]. apply mild_bind; [exact IH|]. intros cs. apply mild_ret.
Qed.

Lemma mild_argv path arguments : mild (launch_argv path arguments : Eff St _).
Proof.
  unfold launch_argv. apply mild_bind; [apply mild_memory|]. intros ok. destruct (negb ok); [apply mild_err|].
  destruct arguments; [|apply mild_arguments]. apply mild_bind; [apply mild_memory|]. intros ok'.
  destruct (negb ok'); [apply mild_err|apply mild_ret].
Qed.

Lemma mild_backing from root path : mild (backing_path from root path : Eff St _).
Proof.
  unfold backing_path. destruct root as [root|]; [|apply mild_ret]. destruct (_ && _)%bool; [|apply mild_ret].
  apply mild_bind; [apply mild_memory|]. intros ok. destruct (negb ok); [apply mild_err|apply mild_ret].
Qed.

(** A call through a handle that was made since [s0]. *)
Lemma later_owned {A} h (use : O -> Eff St A) s0 s :
  nx s0 <= h -> later s0 s -> (forall o, mild (use o)) -> pwp (owned_proxy dm_proxy_ok h use) s (fun _ s' => later s0 s').
Proof.
  intros Hh L Hu. unfold owned_proxy. destruct (h =? 0); [done|]. apply (mild_next _ _ s0); [apply mild_ask|done|].
  intros ok s1 L1. apply (pwp_then_release _ s0); [done|done|]. destruct (negb ok); [done|].
  apply pwp_bind. unfold pwp at 1, object_of. destruct (_ !! h); [|done].
  eapply pwp_mono; [by apply (mild_later _ s0)|]. intros a s2 L2. split; [done|]. by intros s3 L3 _ _.
Qed.

(** The canonical name of the file that a directory opens under a relative name. *)
Definition opens (s : St) (cwd : Z) (name canonical : bytes) : Prop :=
  exists directory file, lv s !! cwd = Some directory /\ dir_open_file directory name = inl file /\ file_path file = inl canonical.

Lemma pwp_copy_string input s :
  pwp (copy_string input) s (fun c _ => forall x, c = Some x -> x = cstring input).
Proof.
  unfold copy_string. destruct (_ || _)%bool; [by apply pwp_ret|]. apply pwp_bind, pwp_true. intros ok s'. apply pwp_ret.
  destruct ok; congruence.
Qed.

Lemma argument_copy_next {C} input (k : option bytes -> Eff St C) s0 s Q :
  later s0 s -> (forall s', later s0 s' -> pwp (k None) s' Q) -> (forall s', later s0 s' -> pwp (k (Some (cstring input))) s' Q) ->
  pwp (fbind (copy_string input) k) s Q.
Proof.
  intros L Hn Hk. apply pwp_bind. eapply pwp_mono.
  - apply pwp_and; [apply (mild_later _ s0); [apply mild_copy_string|exact L]|apply pwp_copy_string].
  - intros [x|] s' [L' Hx]; [|by apply Hn]. rewrite (Hx x eq_refl). by apply Hk.
Qed.

(** A question to the object behind a handle that was made since [s0]. *)
Lemma pwp_ask_owned {A} h f (q : O -> answer A) s0 s :
  nx s0 <= h -> later s0 s -> lv s !! h = Some f ->
  pwp (owned_proxy dm_proxy_ok h (fun o => remote (q o))) s (fun a s' => later s0 s' /\ q f = inl a).
Proof.
  intros Hh L Hf. unfold owned_proxy. destruct (h =? 0); [done|]. apply pwp_bind.
  eapply pwp_mono; [apply pwp_and; [apply (mild_later (ask dm_proxy_ok) s0); [apply mild_ask|exact L]|]|].
  { unfold pwp, ask. simpl. instantiate (1 := fun _ s2 => lv s2 = lv s). done. }
  intros ok s1 [L1 V1]. apply (pwp_then_release _ s0); [done|done|]. destruct (negb ok); [done|].
  apply pwp_bind. unfold pwp at 1, object_of. simpl. rewrite V1, Hf.
  destruct (q f) as [a|] eqn:Eq; [|done]. apply pwp_ret. split; [done|]. by intros s2 L2 _ _.
Qed.

Lemma pwp_resolve_relative cwd path s :
  handles_ok s -> pwp (resolve_relative cwd path) s (fun p s' => later s s' /\ exists canonical, opens s cwd path canonical /\ p = cstring canonical).
Proof.
  intros Hs. unfold resolve_relative. apply pwp_rename, pwp_assoc.
  change (pwp (fbind (through_clone dm_alloc_ok dm_proxy_ok cwd (fun o => remote_handle (dir_open_file o path)))
    (fun file => fbind (owned_proxy dm_proxy_ok file (fun o => remote (file_path o)))
      (fun canonical => if (length canonical =? 0)%nat then ferr FACET_INVALID_ARGUMENT
        else fbind (copy_string canonical) (fun resolved => match resolved with None => ferr FACET_OUT_OF_MEMORY | Some p => fret p end))))
    s (fun p s' => later s s' /\ exists canonical, opens s cwd path canonical /\ p = cstring canonical)).
  apply pwp_bind. eapply (pwp_mono _ _ (fun file s' => later s s' /\ nx s <= file /\ exists directory f,
    lv s !! cwd = Some directory /\ dir_open_file directory path = inl f /\ lv s' !! file = Some f)).
  - apply pwp_through; [done|]. intros o s1 Ho L1 _ N1. eapply pwp_mono; [apply pwp_remote_handle, L1|].
    intros file s2 (L2 & _ & -> & _ & f & Hr & Hf). split; [done|]. intros s3 L3 _ K3.
    split; [done|]. split; [exact (lt_next _ _ L1)|]. exists o, f. split_and!; [done|done|]. rewrite K3 by lia. exact Hf.
  - intros file s1 (L1 & Hn & directory & f & Hd & Hopen & Hf). apply pwp_bind.
    eapply pwp_mono; [by apply (pwp_ask_owned file f file_path s)|].
    intros canonical s2 [L2 Hc]. destruct (_ =? _)%nat; [done|]. apply (argument_copy_next canonical _ s); [done|done|].
    intros s3 L3. apply pwp_ret. split; [done|]. exists canonical. split; [by exists directory, f|done].
Qed.

Lemma pwp_session_credentials session s :
  handles_ok s -> session < nx s -> pwp (session_credentials session) s (fun c s' => later s s' /\ entitled s session None c).
Proof.
  intros Hs Hses. unfold session_credentials, entitled. destruct (session =? 0); [split; [by apply later_refl|done]|].
  apply pwp_rename. change (pwp (through_clone dm_alloc_ok dm_proxy_ok session (fun o => remote (session_get_credentials o))) s
    (fun c s' => later s s' /\ exists o, lv s !! session = Some o /\ session_get_credentials o = inl c)).
  apply pwp_through; [done|]. intros o s1 Ho L1 _ _. destruct (session_get_credentials o) as [c|] eqn:Ec; [|done].
  apply pwp_ret. split; [by apply later_refl; apply L1|]. intros s2 L2 _ _. split; [done|]. by exists o.
Qed.

Lemma check_execute_memory path u g a m :
  facet_initrd_check_execute dm_entries path u g a m = Some FACET_OK ->
  facet_initrd_check_execute dm_entries path u g a true = Some FACET_OK.
Proof.
  unfold facet_initrd_check_execute. destruct (negb (starts_with 47 path)); [done|]. destruct (_ <? _); [done|].
  destruct (find_entry _ _ _); [|done]. destruct (negb (entry_allows _ _ _ _ _)); [done|]. by destruct m.
Qed.

(** The path that a launch asks for: as it is given, or for a relative path and a current
    directory the canonical name of the file that the directory opens. *)
Definition names_program (s : St) (l : Launch) (resolved : bytes) : Prop :=
  if (negb (l_cwd l =? 0) && negb (starts_with 47 (cstring (l_path l))))%bool
  then exists canonical, opens s (l_cwd l) (cstring (l_path l)) canonical /\ resolved = cstring canonical
  else resolved = cstring (l_path l).

(** An absolute path of a POSIX process lies beneath its root in the boot file system. *)
Definition backed (l : Launch) (path : bytes) : bytes :=
  match l_posix_root l with
  | Some root => if (l_from_posix_view l && (1 <? length root)%nat && starts_with 47 path)%bool then cstring (root ++ path) else path
  | None => path
  end.

Lemma pwp_backing l path s : pwp (backing_path (l_from_posix_view l) (l_posix_root l) path) s (fun p _ => p = backed l path).
Proof.
  unfold backing_path, backed. destruct (l_posix_root l) as [root|]; [|by apply pwp_ret].
  destruct (_ && _)%bool; [|by apply pwp_ret]. apply pwp_bind, pwp_true. intros ok s'. by destruct ok.
Qed.

Lemma pwp_copy_arguments arguments s : pwp (copy_arguments arguments) s (fun l _ => l = map cstring arguments).
Proof.
  revert s. induction arguments as [|a rest IH]; intros s; simpl; [by apply pwp_ret|]. apply pwp_bind.
  eapply pwp_mono; [apply pwp_copy_string|]. intros [c|] s1 Hc; [|done]. rewrite (Hc c eq_refl). apply pwp_bind.
  eapply pwp_mono; [apply IH|]. intros cs s2 ->. by apply pwp_ret.
Qed.

Lemma pwp_launch_argv path arguments s :
  pwp (launch_argv path arguments) s (fun l _ => l = if (length arguments =? 0)%nat then [path] else map cstring arguments).
Proof.
  unfold launch_argv. apply pwp_bind, pwp_true. intros ok s1. destruct (negb ok); [done|]. destruct arguments as [|a rest].
  - apply pwp_bind, pwp_true. intros ok' s2. by destruct (negb ok').
  - apply pwp_copy_arguments.
Qed.

(** The program that was found may be executed with the credentials of the launch, and
    it is the one that the launch names. *)
Record program_ok (s : St) (l : Launch) (program : Program) : Prop := {
  po_allowed : l_initial l = true \/ l_session l <> 0 \/ is_Some (l_identity_source l);
  po_entitled : entitled s (l_session l) (l_identity_source l) (pr_credentials program);
  po_execute : facet_initrd_check_execute dm_entries (pr_path program) (fst (fst (pr_credentials program)))
                 (snd (fst (pr_credentials program))) (snd (pr_credentials program)) true = Some FACET_OK;
  po_file : facet_initrd_find_file dm_entries (pr_path program) = (FACET_OK, Some (pr_elf program, pr_elf_size program));
  po_path : exists resolved, names_program s l resolved /\ pr_path program = backed l resolved;
  po_argv : pr_argv program = if (length (l_arguments l) =? 0)%nat then [pr_path program] else map cstring (l_arguments l)
}.

Lemma pwp_find_program l s :
  handles_ok s -> l_session l < nx s -> l_cwd l < nx s ->
  pwp (find_program l) s (fun program s' => later s s' /\ program_ok s l program).
Proof.
  intros Hs Hses Hcwd. unfold find_program. destruct (_ || _)%bool eqn:Eg; [done|]. apply orb_false_iff in Eg as [_ Eg].
  assert (Hallow : l_initial l = true \/ l_session l <> 0 \/ is_Some (l_identity_source l)).
  { destruct (l_initial l); [by left|]. right. simpl in Eg. destruct (Z.eqb_spec (l_session l) 0) as [|Hn]; [|by left].
    right. simpl in Eg. case_bool_decide as Hn; [done|]. by destruct (l_identity_source l). }
  clear Eg.
  apply pwp_bind. eapply (pwp_mono _ _ (fun c s' => later s s' /\ entitled s (l_session l) (l_identity_source l) c)).
  { unfold launch_credentials. destruct (l_identity_source l) as [c|]; [by split; [apply later_refl|]|].
    unfold pwp, ftry. pose proof (pwp_session_credentials (l_session l) s Hs Hses) as Hc. unfold pwp in Hc.
    by destruct (session_credentials (l_session l) s) as [[]]. }
  intros credentials s1 [L1 He]. apply (argument_copy_next (l_path l) _ s); [done|done|]. intros s2 L2.
  apply pwp_bind. eapply (pwp_mono _ _ (fun resolved s' => later s s' /\ names_program s l resolved)).
  { unfold names_program. destruct (_ && _)%bool; [|by apply pwp_ret].
    eapply pwp_mono; [apply pwp_resolve_relative, L2|]. intros p s3 (L3 & canonical & (d & f & Hd & Hof) & ->).
    split; [by eapply later_trans|]. exists canonical. split; [|done]. exists d, f. split; [|done].
    by rewrite <- (lt_live _ _ L2). }
  intros resolved s3 [L3 Hnames]. apply pwp_bind.
  eapply pwp_mono; [apply pwp_and; [apply (mild_later _ s); [apply mild_backing|exact L3]|apply pwp_backing]|]. intros path s4 [L4 Hpath].
  destruct credentials as [[uid gid] admin]. apply (mild_next _ _ s); [apply mild_memory|done|]. intros malloc s5 L5.
  destruct (facet_initrd_check_execute _ _ _ _ _ _) as [[]|] eqn:Ex; try done.
  destruct (facet_initrd_find_file _ _) as [[] [[elf size]|]] eqn:Ef; try done.
  apply pwp_bind. eapply pwp_mono; [apply pwp_and; [apply (mild_later _ s); [apply mild_argv|exact L5]|apply pwp_launch_argv]|].
  intros argv s6 [L6 Hargv].
  apply (mild_next _ _ s); [apply mild_memory|done|]. intros ok s7 L7. destruct (negb ok); [done|]. apply pwp_ret.
  split; [done|]. split; [done|done|by apply check_execute_memory in Ex|done|by exists resolved|done].
Qed.

(** ** The environment of a launch *)

(** A step that adds names gently and keeps the form. *)
Definition placid {A} (m : Eff St A) : Prop := gentle m /\ forms m.

Lemma placid_outside {A} (m : Eff St A) : outside m -> placid m.
Proof. intros Hm. split; [by apply gentle_outside|by apply outside_forms]. Qed.

Lemma placid_bind {A C} (m : Eff St A) (k : A -> Eff St C) : placid m -> (forall a, placid (k a)) -> placid (fbind m k).
Proof.
  intros [Gm Fm] Hk. split; [apply gentle_bind; [done|intros a; apply Hk]|apply forms_bind; [done|intros a; apply Hk]].
Qed.

Lemma placid_try {A C} (m : Eff St A) (k : A -> Eff St C) handler :
  placid m -> (forall a, placid (k a)) -> placid handler -> placid (ftry m k handler).
Proof.
  intros [Gm Fm] Hk [Gh Fh]. split; [apply gentle_try; [done|intros a; apply Hk|done]|apply forms_try; [done|intros a; apply Hk|done]].
Qed.

Lemma placid_or_destroy {A} code (m : Eff St A) : placid m -> placid (or_destroy code m).
Proof.
  intros Hm. apply placid_try; [done|intros a; by apply placid_outside|].
  apply placid_bind; [apply placid_outside, outside_destroy|]. intros u. by apply placid_outside.
Qed.

Lemma pwp_placid {A} (m : Eff St A) s :
  placid m -> penv_ok (ps_env s) -> pwp m s (fun _ s' => gently (ps_env s) (ps_env s') /\ penv_ok (ps_env s')).
Proof.
  intros [Gm Fm] Hs. specialize (Gm s). specialize (Fm s Hs). unfold pwp. by destruct (m s) as [[a|c|] s'].
Qed.

Lemma placid_export object : placid (export_interface dm_alloc_ok object : Eff St Z).
Proof. apply placid_outside. unfold export_interface, allocate. stays_outside. Qed.

Lemma placid_release h : placid (handle_release h : Eff St unit).
Proof. apply placid_outside, outside_release. Qed.

Lemma placid_undo {A} lifecycle handle code :
  placid (fbind (fbind (handle_release lifecycle) (fun _ => fbind (handle_release handle)
    (fun _ => dominit0_process_environment_destroy))) (fun _ => ferr code) : Eff St A).
Proof.
  apply placid_bind; [|intros u; by apply placid_outside]. apply placid_bind; [apply placid_release|]. intros u.
  apply placid_bind; [apply placid_release|]. intros u'. apply placid_outside, outside_destroy.
Qed.

Lemma placid_lifecycle h : placid (dominit0_process_environment_bind_lifecycle dm_alloc_ok IID_IProcessLifecycle h : Eff St unit).
Proof.
  split; [|exact (forms_call dm_alloc_ok dm_proxy_ok (BindLifecycle IID_IProcessLifecycle h) I)].
  unfold dominit0_process_environment_bind_lifecycle. gently.
Qed.

Lemma placid_pages h : placid (dominit0_process_environment_bind_page_allocator dm_alloc_ok IID_IPageAllocator h : Eff St unit).
Proof.
  split; [|exact (forms_call dm_alloc_ok dm_proxy_ok (BindPages IID_IPageAllocator h) I)].
  unfold dominit0_process_environment_bind_page_allocator. gently.
Qed.

Lemma placid_terminal ai :
  placid (dominit0_terminal_bind_process_environment dm_alloc_ok dm_proxy_ok dm_posix_object IID_IPOSIXView IID_ITerminalControl
    IID_IByteReader IID_IByteWriter dm_bindings dm_domain
    (match dm_parsed with Some d => domain_terminals d | None => [] end) ai : Eff St unit).
Proof.
  split; [apply gentle_terminal|]. unfold dominit0_terminal_bind_process_environment.
  destruct (find_assignment _ _ _) as [b|]; [|by apply outside_forms].
  apply forms_bind; [exact (forms_call dm_alloc_ok dm_proxy_ok (BindTerminal dm_posix_object IID_IPOSIXView IID_ITerminalControl
    IID_IByteReader IID_IByteWriter (ta_input b) (ta_output b) (ta_control b)) I)|]. intros u.
  apply forms_bind; [exact (forms_call dm_alloc_ok dm_proxy_ok (SetTerminalIndex (Z.of_nat ai)) I)|]. intros u'.
  destruct (_ !! ai) as [a|]; [|by apply outside_forms]. destruct (reference a) as [name|]; [|by apply outside_forms].
  exact (forms_call dm_alloc_ok dm_proxy_ok (SetTerminalName name) I).
Qed.

Lemma placid_complete l number admin : placid (complete_environment l number admin : Eff St unit).
Proof.
  unfold complete_environment. apply placid_bind.
  { destruct (l_synthetic_cwd l); [|by apply placid_outside].
    split; [|exact (forms_call dm_alloc_ok dm_proxy_ok (SetSyntheticCwd true) I)].
    unfold dominit0_process_environment_set_posix_synthetic_cwd. gently. }
  intros u1. apply placid_bind.
  { apply placid_or_destroy. destruct dm_parsed as [d|]; [|by apply placid_outside].
    split; [|exact (forms_call dm_alloc_ok dm_proxy_ok (SetDomainId (domain_id d)) I)]. apply gentle_variable. }
  intros u2. apply placid_bind.
  { apply placid_or_destroy. destruct (l_posix_root l) as [root|]; [|by apply placid_outside].
    destruct (_ && _)%bool; [|by apply placid_outside].
    split; [apply gentle_posix_root|exact (forms_call dm_alloc_ok dm_proxy_ok (SetPosixRoot (cstring root)) I)]. }
  intros u3. apply placid_bind.
  { apply placid_or_destroy. destruct (l_posix_root l) as [root|]; [|by apply placid_outside].
    split; [apply gentle_namespace_root|exact (forms_call dm_alloc_ok dm_proxy_ok (SetNamespaceRoot (cstring root)) I)]. }
  intros u4. apply placid_bind; [apply placid_or_destroy, placid_terminal|]. intros u5. apply placid_or_destroy.
  destruct (l_posix_root l), dm_parsed as [d|]; try (by apply placid_outside).
  split; [apply gentle_with_view|exact (forms_call dm_alloc_ok dm_proxy_ok (BindControl (domain_id d) number admin) I)].
Qed.

Lemma placid_export_process : placid (export_process : Eff St (Z * Z)).
Proof.
  unfold export_process. apply placid_bind; [apply placid_or_destroy, placid_export|]. intros handle.
  assert (Hundo : forall A, placid (fbind (handle_release handle) (fun _ => fbind dominit0_process_environment_destroy
    (fun _ => ferr FACET_OUT_OF_MEMORY)) : Eff St A)).
  { intros A. apply placid_bind; [apply placid_release|]. intros u.
    apply placid_bind; [apply placid_outside, outside_destroy|]. intros u'. by apply placid_outside. }
  apply placid_try; [apply placid_export| |apply Hundo]. intros lifecycle.
  apply placid_try; [apply placid_lifecycle|intros u; by apply placid_outside|].
  apply placid_bind; [apply placid_release|]. intros u. apply Hundo.
Qed.

Lemma placid_copy_string input : placid (copy_string input : Eff St _).
Proof. apply placid_outside. unfold copy_string, allocate_memory, allocate. stays_outside. Qed.

Lemma outside_ask_all n : outside (ask_all n : Eff St bool).
Proof. induction n as [|n IH]; simpl; [done|]. unfold allocate_memory, allocate. stays_outside. Qed.

Lemma placid_keep_restart l program : placid (keep_restart l program : Eff St _).
Proof.
  unfold keep_restart. apply placid_bind; [by apply placid_outside|]. intros path. apply placid_bind; [by apply placid_outside|].
  intros array. apply placid_bind.
  { destruct (l_posix_root l); [|by apply placid_outside]. apply placid_bind; [apply placid_copy_string|]. intros c. by apply placid_outside. }
  intros root. apply placid_bind; [|intros args; by apply placid_outside].
  destruct array; apply placid_outside; [apply outside_ask_all|done].
Qed.

Lemma placid_platform elf size argv : placid (platform_start_process elf size argv : Eff St PlatformProcess).
Proof.
  assert (Hundo : forall A pages, placid (fbind (handle_release pages) (fun _ => failed) : Eff St A)).
  { intros A pages. apply placid_bind; [apply placid_release|]. intros u. by apply placid_outside. }
  unfold platform_start_process. destruct (_ || _)%bool; [by apply placid_outside|]. apply placid_bind; [by apply placid_outside|].
  intros configured. destruct (negb configured); [by apply placid_outside|]. apply placid_bind; [apply placid_export|].
  intros pages. apply placid_bind; [by apply placid_outside|]. intros tested.
  apply placid_try; [destruct (negb tested); [by apply placid_outside|apply placid_pages]| |apply Hundo]. intros u.
  apply placid_bind; [by apply placid_outside|]. intros root. apply placid_bind; [by apply placid_outside|]. intros started.
  destruct (_ || _)%bool; [apply Hundo|by apply placid_outside].
Qed.

(** The program that runs is the one that the platform was given. *)
Lemma pwp_platform elf size argv (s : St) :
  pwp (platform_start_process elf size argv) s (fun x _ => pp_elf x = elf /\ pp_elf_size x = size /\ pp_argv x = argv).
Proof.
  unfold platform_start_process. destruct (_ || _)%bool; [done|]. apply pwp_bind, pwp_true. intros configured s1.
  destruct (negb configured); [done|]. apply pwp_bind, pwp_true. intros pages s2. apply pwp_bind, pwp_true. intros tested s3.
  apply pwp_try; [|intros s4; apply pwp_bind, pwp_true; done]. apply pwp_true. intros u s4.
  apply pwp_bind, pwp_true. intros root s5. apply pwp_bind, pwp_true. intros started s6.
  destruct (_ || _)%bool; [apply pwp_bind, pwp_true; done|by apply pwp_ret].
Qed.

(** ** A launch *)

Lemma entitled_unique (s : St) session source c c' :
  entitled s session source c -> entitled s session source c' -> c = c'.
Proof.
  unfold entitled. destruct source; [congruence|]. destruct (session =? 0); [congruence|].
  intros (o & Ho & Hc) (o' & Ho' & Hc'). congruence.
Qed.

Lemma entitled_later (s s' : St) session source c :
  session < nx s -> later s s' -> entitled s' session source c -> entitled s session source c.
Proof.
  intros Hn L. unfold entitled. destruct source; [done|]. destruct (session =? 0); [done|]. intros (o & Ho & Hc).
  exists o. split; [|done]. rewrite <- Ho. symmetry. exact (lt_live _ _ L session Hn).
Qed.

Definition authority_names : list bytes := [B "auth"; B "security"].

(** What is true of a process that a launch has started. *)
Record started (s : St) (l : Launch) (number : Z) (p : RunningProcess) : Prop := {
  sd_entitled : entitled s (l_session l) (l_identity_source l) (credentials_of (rp_env p));
  sd_form : penv_ok (rp_env p);
  sd_authority : forall n, n ∈ authority_names -> n ∈ names_of (rp_env p) ->
    l_native l = true /\ l_initial l = true /\ l_session l = 0;
  sd_running : running p = true;
  sd_pid : pid p = number;
  sd_restart : is_Some (rp_restart p) -> l_initial l = true
}.

(** The process runs the image of the program with its arguments. *)
Definition runs (p : RunningProcess) (program : Program) : Prop :=
  exists x, platform_state p = Some x /\ pp_elf x = pr_elf program /\ pp_elf_size x = pr_elf_size program /\
    pp_argv x = pr_argv program.

Lemma authority_not_launched n : n ∈ authority_names -> n ∉ launch_names.
Proof.
  intros Hn. unfold authority_names in Hn. apply elem_of_cons in Hn as [->|Hn]; [by_decide|].
  apply list_elem_of_singleton in Hn as ->. by_decide.
Qed.

Lemma authority_granted l (e : ProcessEnvironment) n :
  Forall (granted IID_IFileStore IID_ISession IID_IDirectory dm_credential_store dm_resolve_in_parent (credentials_of e) (l_native l)
    (l_initial l && (l_session l =? 0)) e) (pe_bindings e) ->
  n ∈ authority_names -> n ∈ names_of e -> l_native l = true /\ l_initial l = true /\ l_session l = 0.
Proof.
  intros Hg Hn (b & -> & Hb)%list_elem_of_fmap. rewrite Forall_forall in Hg.
  assert (Hnot : forall k, k ∉ authority_names -> pb_name b <> k) by (intros k Hk <-; done).
  destruct (Hg b Hb) as [_ Hin _|Hnat Hboot _ _|c _ Heq|_ Heq|Heq]; try rewrite Heq in *.
  - exfalso. apply elem_of_cons in Hin as [Hin|Hin]; [|apply list_elem_of_singleton in Hin]; eapply Hnot; [|exact Hin| |exact Hin]; by_decide.
  - apply andb_true_iff in Hboot as [Hi Hz]. split_and!; [done|done|by apply Z.eqb_eq].
  - exfalso. by apply (Hnot (B "files")); [by_decide|].
  - exfalso. by apply (Hnot (B "session")); [by_decide|].
  - exfalso. by apply (Hnot (B "cwd")); [by_decide|].
Qed.

Lemma pwp_start_program l program number (s : St) :
  handles_ok s -> l_session l < nx s ->
  (forall u g a c, dm_credential_store u g a = Some c -> cf_handle c < nx s) ->
  pwp (start_program l program number) s (fun p _ => started s l number p /\ runs p program).
Proof.
  intros Hs Hses Hold. unfold start_program. apply pwp_bind. unfold set_up_environment. apply pwp_rename, pwp_bind.
  eapply pwp_mono; [apply (pwp_create_confined dm_alloc_ok dm_proxy_ok); done|]. intros u s1 [F1 E1 G1 _].
  eapply pwp_mono; [apply pwp_placid; [apply placid_complete|done]|]. intros u2 s2 [G2 F2].
  apply pwp_bind. eapply pwp_mono; [apply pwp_placid; [apply placid_export_process|done]|]. intros [handle lifecycle] s3 [G3 F3].
  apply pwp_bind. eapply (pwp_mono _ _ (fun r s4 => (gently (ps_env s3) (ps_env s4) /\ penv_ok (ps_env s4)) /\
    (is_Some r -> l_initial l = true))).
  { destruct (l_initial l); [|split; [split; [apply gently_refl|done]|by intros []]]. eapply pwp_mono.
    - apply pwp_placid; [|done]. apply placid_bind; [apply placid_keep_restart|]. intros [r|]; [by apply placid_outside|apply placid_undo].
    - intros r s4 Hr. by split. }
  intros restart s4 [[G4 F4] Hr]. apply pwp_try.
  - eapply pwp_mono; [apply pwp_and; [apply pwp_placid; [apply placid_platform|done]|apply pwp_platform]|].
    intros state s5 [[G5 F5] Hstate]. apply pwp_bind, pwp_get, pwp_ret. unfold id. split; [|by exists state].
    pose proof (gently_trans _ _ _ G2 (gently_trans _ _ _ G3 (gently_trans _ _ _ G4 G5))) as [C N].
    split; simpl; try done; [by rewrite C|]. intros n Hn Hin. destruct (N n Hin) as [Hin'|Hin'].
    + by eapply authority_granted.
    + exfalso. by apply (authority_not_launched n).
  - intros s5. apply pwp_bind, pwp_true. done.
Qed.

(** The manager's table of handles, as a process that is launched sees it. *)
Definition as_process (s : ManagerState O) : St := mkProcessState (ms_world s) (ms_refs s) (empty_environment false).

Lemma pwp_in_world {A} (m : Eff St A) (s : ManagerState O) Q :
  pwp m (as_process s) (fun a p => Q a (mkManagerState (ps_world p) (ps_refs p) (ms_manager s))) -> pwp (in_world m) s Q.
Proof. unfold pwp, in_world, as_process. by destruct (m _) as [[a|c|] p]. Qed.

(** C22: A launch runs a program only for those who may run it, and runs the program
    that it names.  The process that a successful launch adds to the table has the
    credentials of the session, of the parent that it inherits from or, for an initial
    process without a session only, of the bootstrap identity.  The image that the
    platform loads for it is the contents of a file of the domain's boot file system
    that exactly these credentials may execute; this file is the one that the request
    names, beneath the root of a POSIX process, a relative name being looked up in the
    current directory; and the program gets the arguments of the request, or its path
    if there are none.  The process finds the authentication services only if it is an
    initial native process without a session, and its environment has the form that
    later requests keep. *)
Theorem launch_authorised l (s : ManagerState O) :
  handles_ok s -> l_session l < next_fresh (ms_world s) -> l_cwd l < next_fresh (ms_world s) ->
  (forall u g a c, dm_credential_store u g a = Some c -> cf_handle c < next_fresh (ms_world s)) ->
  pwp (launch_process l) s (fun h s' => exists p program,
    processes (ms_manager s') = p :: processes (ms_manager s) /\ rp_handle p = h /\
    program_ok (as_process s) l program /\ runs p program /\ credentials_of (rp_env p) = pr_credentials program /\
    started (as_process s) l (pid p) p).
Proof.
  intros Hs Hses Hcwd Hold. unfold launch_process. apply pwp_bind, pwp_in_world.
  eapply pwp_mono; [apply pwp_find_program; [exact Hs|exact Hses|exact Hcwd]|]. intros program p1 [L1 Hp].
  pose proof (lt_next _ _ L1) as N1. apply pwp_bind. unfold take_pid. apply pwp_bind, pwp_get.
  assert (Hrest : forall number m, processes m = processes (ms_manager s) ->
    pwp (fbind (in_world (start_program l program number)) (fun process =>
         fbind (change_manager (fun m => mkManager (pm_handle m) (process :: processes m) (next_pid m))) (fun _ => fret (rp_handle process))))
      (mkManagerState (ps_world p1) (ps_refs p1) m)
      (fun h s' => exists p program, processes (ms_manager s') = p :: processes (ms_manager s) /\ rp_handle p = h /\
        program_ok (as_process s) l program /\ runs p program /\ credentials_of (rp_env p) = pr_credentials program /\
        started (as_process s) l (pid p) p)).
  { intros number m Hm. apply pwp_bind, pwp_in_world. eapply pwp_mono.
    - apply pwp_start_program; [exact (lt_ok _ _ L1)|simpl in N1 |- *; lia|].
      intros u g a c Hc. specialize (Hold u g a c Hc). simpl in N1 |- *. lia.
    - intros p p2 [[E F A R P X] Hruns]. apply pwp_bind, pwp_put, pwp_ret. exists p, program. simpl. rewrite Hm.
      assert (E' : entitled (as_process s) (l_session l) (l_identity_source l) (credentials_of (rp_env p))).
      { eapply (entitled_later (as_process s)); [exact Hses|exact L1|exact E]. }
      split_and!; [done|done|done|done|by eapply entitled_unique; [|apply Hp]|]. by split. }
  destruct (_ <=? 0); apply pwp_bind, pwp_put, pwp_ret, Hrest; done.
Qed.

End Launch.
