(* ===== verification/ProcessTable.v ===== *)
(** The table of processes: numbers are given once, the end of a process is reported
    with its status, and what goes wrong with restarts and with the handles of
    spawned processes. *)
From stdpp Require Import gmap.
From S2P Require Import Prelude Utf8 ConfigTypes Logging Environment Effects Handles HandleFacts Initrd InitrdFacts.
From S2P Require Import Posix PosixUse ProcessEnvironment ProcessEnvironmentFacts ProcessCreation Terminal TerminalFacts Process ProcessFacts.

(** ** Numbers *)

Definition pids (m : ProcessManager) : list Z := pid <$> processes m.

(** The numbers are distinct and below the next one. *)
Definition pids_ok (m : ProcessManager) : Prop := NoDup (pids m) /\ Forall (fun n => 0 < n < next_pid m) (pids m).

(** At most [k] numbers have been given, if there are that many left. *)
Definition counts (k : Z) (m m' : ProcessManager) : Prop :=
  0 < next_pid m -> next_pid m + k < 2 ^ 31 ->
  next_pid m <= next_pid m' <= next_pid m + k /\ (pids_ok m -> pids_ok m').

Lemma counts_trans j k m1 m2 m3 : 0 <= j -> 0 <= k -> counts j m1 m2 -> counts k m2 m3 -> counts (j + k) m1 m3.
Proof.
  intros Hj Hk C1 C2 Hn Hr. destruct (C1 Hn) as [B1 P1]; [lia|]. destruct (C2 ltac:(lia) ltac:(lia)) as [B2 P2].
  split; [lia|]. intros Hok. auto.
Qed.

Lemma counts_more j k m m' : j <= k -> counts j m m' -> counts k m m'.
Proof. intros Hjk C Hn Hr. destruct (C Hn) as [B P]; [lia|]. split; [lia|done]. Qed.

Lemma counts_same m m' : next_pid m' = next_pid m -> pids m' = pids m -> counts 0 m m'.
Proof. intros En Ep Hn _. unfold pids_ok. rewrite En, Ep. split; [lia|done]. Qed.

Section Table.
Context {O : Type} `{PosixServices O} `{EnvServices O} `{ProcessServices O} `{DomainSetting O}.

Abbreviation St := (ManagerState O).

Definition tallied {A} (k : Z) (m : Eff St A) : Prop := forall s, counts k (ms_manager s) (ms_manager (snd (m s))).

Lemma tallied_more {A} j k (m : Eff St A) : j <= k -> tallied j m -> tallied k m.
Proof. intros Hjk Hm s. by eapply counts_more. Qed.

Lemma tallied_bind {A C} j k (m : Eff St A) (f : A -> Eff St C) :
  0 <= j -> 0 <= k -> tallied j m -> (forall a, tallied k (f a)) -> tallied (j + k) (fbind m f).
Proof.
  intros Hj Hk Hm Hf s. specialize (Hm s). unfold fbind. destruct (m s) as [[a|c|] s1]; simpl in *.
  - eapply counts_trans; [done|done|exact Hm|apply Hf].
  - eapply counts_more; [|exact Hm]. lia.
  - eapply counts_more; [|exact Hm]. lia.
Qed.

Lemma tallied_try {A C} j k (m : Eff St A) (f : A -> Eff St C) handler :
  0 <= j -> 0 <= k -> tallied j m -> (forall a, tallied k (f a)) -> tallied k handler -> tallied (j + k) (ftry m f handler).
Proof.
  intros Hj Hk Hm Hf Hh s. specialize (Hm s). unfold ftry. destruct (m s) as [[a|c|] s1]; simpl in *.
  - eapply counts_trans; [done|done|exact Hm|apply Hf].
  - eapply counts_trans; [done|done|exact Hm|apply Hh].
  - eapply counts_more; [|exact Hm]. lia.
Qed.

(** A step that leaves the table alone. *)
Lemma tallied_aside {A} (m : Eff St A) : (forall s, ms_manager (snd (m s)) = ms_manager s) -> tallied 0 m.
Proof. intros Hm s. rewrite Hm. by apply counts_same. Qed.

Lemma tallied_in_world {A} (m : Eff (ProcessState O) A) : tallied 0 (in_world m).
Proof. apply tallied_aside. intros s. unfold in_world. by destruct (m _). Qed.

Lemma release_table h (s : St) : ms_manager (snd (handle_release h s)) = ms_manager s.
Proof. unfold handle_release. destruct (h =? 0); [done|]. unfold fbind, object_of. by destruct (_ !! h). Qed.

Lemma tallied_release h : tallied 0 (handle_release h : Eff St unit).
Proof. apply tallied_aside, release_table. Qed.

Lemma tallied_clone h : tallied 0 (handle_clone dm_alloc_ok h : Eff St Z).
Proof.
  apply tallied_aside. intros s. unfold handle_clone. destruct (h =? 0); [done|]. unfold fbind, object_of.
  destruct (_ !! h); [|done]. unfold allocate, ask. by destruct (dm_alloc_ok _).
Qed.

Lemma tallied_update self f : (forall p, pid (f p) = pid p) -> tallied 0 (update_process self f : Eff St unit).
Proof.
  intros Hf s. apply counts_same; [done|]. unfold pids. simpl. rewrite <- list_fmap_compose. apply list_fmap_ext.
  intros i p _. simpl. destruct (_ =? _); [apply Hf|done].
Qed.

Lemma tallied_process self : tallied 0 (the_process self : Eff St _).
Proof. apply tallied_aside. intros s. unfold the_process, fbind, the_manager, fget. by destruct (find_process _ _). Qed.

Lemma tallied_environment {A} self (m : Eff (ProcessState O) A) : tallied 0 (on_environment self m).
Proof.
  apply (tallied_bind 0 0); [done|done|apply tallied_process|]. intros p s. destruct (m _) as [r ps].
  exact (tallied_update self (set_rp_env (ps_env ps)) (fun _ => eq_refl) (mkManagerState (ps_world ps) (ps_refs ps) (ms_manager s))).
Qed.

Lemma pwp_start_pid l program number (p : ProcessState O) :
  pwp (start_program l program number) p (fun q _ => pid q = number).
Proof.
  unfold start_program. apply pwp_bind, pwp_true. intros u p1. apply pwp_bind, pwp_true. intros [h c] p2.
  apply pwp_bind, pwp_true. intros r p3. apply pwp_try.
  - apply pwp_true. intros pages p4. by apply pwp_bind, pwp_get, pwp_ret.
  - intros p4. by apply pwp_bind, pwp_true.
Qed.

Lemma pids_ok_next m p : 0 < next_pid m -> next_pid m + 1 < 2 ^ 31 -> pids_ok m ->
  pid p = next_pid m -> pids_ok (mkManager (pm_handle m) (p :: processes m) (next_pid m + 1)).
Proof.
  intros Hn Hr [Hd Hall] Hp. unfold pids_ok, pids. simpl. rewrite Hp. rewrite Forall_forall in Hall. split.
  - constructor; [|done]. intros Hin. apply Hall in Hin. lia.
  - constructor; [simpl; lia|]. apply Forall_forall. intros n Hin. simpl. apply Hall in Hin. lia.
Qed.

Lemma signed_next n : 0 < n -> n + 1 < 2 ^ 31 -> signed 32 (n + 1) = n + 1.
Proof. intros Hn Hr. apply signed_small; lia. Qed.

(** A launch takes a number, and the new process has it. *)
Lemma launch_number l (s : St) :
  0 < next_pid (ms_manager s) -> next_pid (ms_manager s) + 1 < 2 ^ 31 ->
  let (r, s') := launch_process l s in
  let m := ms_manager s in
  ((forall h, r <> Ok h) /\ ms_manager s' = m) \/
  (exists q, pid q = next_pid m /\ r = Ok (rp_handle q) /\
     ms_manager s' = mkManager (pm_handle m) (q :: processes m) (next_pid m + 1)) \/
  ((forall h, r <> Ok h) /\ ms_manager s' = mkManager (pm_handle m) (processes m) (next_pid m + 1)).
Proof.
  intros Hn Hr. unfold launch_process, fbind, in_world. simpl.
  destruct (find_program l _) as [[program|c|] p1]; simpl; [|by left; split..].
  unfold take_pid, fbind, the_manager, fget, change_manager, fput. simpl.
  rewrite (proj2 (Z.leb_gt (next_pid (ms_manager s)) 0)) by done. simpl. rewrite signed_next by done.
  pose proof (pwp_start_pid l program (next_pid (ms_manager s))
    (mkProcessState (ps_world p1) (ps_refs p1) (empty_environment false))) as Hpid. unfold pwp in Hpid.
  destruct (start_program l program _ _) as [[q|c|] p2]; simpl.
  - right. left. by exists q.
  - right. right. by split.
  - right. right. by split.
Qed.

Lemma tallied_launch l : tallied 1 (launch_process l).
Proof.
  intros s Hn Hr. pose proof (launch_number l s Hn Hr) as Hl. destruct (launch_process l s) as [r s'].
  cbn [snd]. destruct Hl as [[_ ->]|[(q & Hq & _ & ->)|[_ ->]]]; simpl.
  - split; [lia|done].
  - split; [lia|]. intros Hok. by apply pids_ok_next.
  - split; [lia|]. intros [Hd Hall]. split; [done|]. eapply Forall_impl; [exact Hall|]. simpl. lia.
Qed.

Lemma tallied_attempt {A} k (m : Eff St A) : tallied k m -> tallied k (attempt m).
Proof. intros Hm s. specialize (Hm s). unfold attempt. by destruct (m s) as [[a|c|] s']. Qed.

Lemma tallied_then {A C} k (m : Eff St A) (f : A -> Eff St C) :
  0 <= k -> tallied 0 m -> (forall a, tallied k (f a)) -> tallied k (fbind m f).
Proof. intros Hk Hm Hf. apply (tallied_bind 0 k); [done..]. Qed.

Lemma tallied_after {A C} k (m : Eff St A) (f : A -> Eff St C) :
  0 <= k -> tallied k m -> (forall a, tallied 0 (f a)) -> tallied k (fbind m f).
Proof. intros Hk Hm Hf. rewrite <- (Z.add_0_r k). by apply tallied_bind. Qed.

Lemma tallied_pure {A} k (r : result A) : 0 <= k -> tallied k (flift r : Eff St A).
Proof. intros Hk. apply (tallied_more 0); [done|]. by apply tallied_aside. Qed.

Lemma tallied_reclaim p : tallied 0 (reclaim p : Eff St unit).
Proof.
  unfold reclaim. destruct (platform_state p); [|by apply tallied_aside]. apply tallied_then; [done|apply tallied_release|].
  intros u. by apply tallied_update.
Qed.

(** ** Requests *)

(** What processes and the rest of dominit0 ask of the manager; a process may also
    use its environment as it likes. *)
Inductive ManagerCall :=
  | CallLaunch (path : bytes) (arguments : list bytes) (environment : Z)
  | CallLaunchInitial (path : bytes) (arguments : list bytes) (terminal : Z) (posix_root : option bytes)
  | CallLaunchOnTerminal (path : bytes) (arguments : list bytes) (session terminal : Z)
  | CallExit (self status : Z)
  | CallSpawn (self : Z) (path : bytes) (arguments : list bytes) (session : Z)
  | CallWait (number : Z)
  | CallSetCredentials (self uid gid : Z) (set_uid set_gid : bool)
  | CallEnvironment (self : Z) (request : Eff (ProcessState O) unit).

Definition forget {A} (m : Eff St A) : Eff St unit := fbind m (fun _ => fret tt).

Definition manager_call (c : ManagerCall) : Eff St unit :=
  match c with
  | CallLaunch path arguments environment => forget (manager_launch path arguments environment)
  | CallLaunchInitial path arguments terminal root => forget (manager_launch_initial path arguments terminal root)
  | CallLaunchOnTerminal path arguments session terminal => forget (manager_launch_on_terminal path arguments session terminal)
  | CallExit self status => lifecycle_notify_exit self status
  | CallSpawn self path arguments session => forget (posix_spawn_process self path arguments session)
  | CallWait number => forget (posix_wait_process number)
  | CallSetCredentials self uid gid set_uid set_gid => posix_set_credentials_process self uid gid set_uid set_gid
  | CallEnvironment self request => on_environment self request
  end.

Lemma tallied_denied {A} session cwd :
  tallied 0 (fbind (handle_release session) (fun _ => fbind (handle_release cwd) (fun _ => ferr FACET_ACCESS_DENIED)) : Eff St A).
Proof.
  apply tallied_then; [done|apply tallied_release|]. intros u. apply tallied_then; [done|apply tallied_release|]. intros u'.
  by apply tallied_aside.
Qed.

Lemma tallied_manager_launch path arguments environment : tallied 1 (manager_launch path arguments environment).
Proof.
  unfold manager_launch. apply tallied_then; [done| |].
  { apply (tallied_try 0 0); [done|done|apply tallied_clone|intros a; by apply tallied_aside|by apply tallied_aside]. }
  intros owned. apply tallied_then; [done| |].
  { apply (tallied_try 0 0); [done|done|apply tallied_in_world|intros a; by apply tallied_aside|by apply tallied_aside]. }
  intros [session [[sysv terminal] cwd]].
  apply (tallied_try 0 1); [done|done|apply tallied_in_world| |apply (tallied_more 0); [done|apply tallied_denied]].
  intros domains. destruct (negb _); [apply (tallied_more 0); [done|apply tallied_denied]|].
  apply tallied_after; [done|apply tallied_attempt, tallied_launch|]. intros launched.
  apply tallied_then; [done|apply tallied_release|]. intros u. apply tallied_then; [done|apply tallied_release|]. intros u'.
  destruct launched; by apply tallied_aside.
Qed.

Lemma tallied_initial_session terminal : tallied 0 (initial_session terminal : Eff St Z).
Proof.
  apply tallied_aside. intros s. unfold initial_session. destruct dm_parsed as [d|]; [|done].
  destruct (match _ !! _ with Some a => run_as a | None => None end); [by destruct (dm_session_for_user _ _)|].
  destruct domain_native; [done|by destruct (dm_session_for_user _ _)].
Qed.

Lemma tallied_spawn self path arguments session : tallied 1 (posix_spawn_process self path arguments session).
Proof.
  unfold posix_spawn_process. apply tallied_then; [done|apply tallied_process|]. intros parent.
  apply tallied_then; [done|apply tallied_environment|]. intros cwd.
  destruct (cwd =? 0); [by apply (tallied_more 0); [|apply tallied_aside]|].
  apply tallied_then; [done|destruct (_ =? _)%nat; by apply tallied_aside|]. intros copied. destruct (negb copied).
  { apply (tallied_more 0); [done|]. apply tallied_then; [done|apply tallied_release|]. intros u. by apply tallied_aside. }
  apply tallied_after; [done|apply tallied_attempt, tallied_launch|]. intros launched.
  apply tallied_then; [done|apply tallied_release|]. intros u. destruct launched as [child|code]; [|by apply tallied_aside].
  apply tallied_then; [done|by apply tallied_aside|]. intros l. apply tallied_then; [done|apply tallied_release|].
  intros u'. by apply tallied_aside.
Qed.

Lemma tallied_exit self status : tallied 1 (lifecycle_notify_exit self status).
Proof.
  unfold lifecycle_notify_exit. apply tallied_then; [done|apply tallied_process|]. intros p.
  apply tallied_then; [done|by apply tallied_update|]. intros u.
  destruct (rp_restart p); [|by apply (tallied_more 0); [|apply tallied_aside]].
  apply tallied_after; [done|apply tallied_attempt, tallied_launch|]. intros launched.
  apply tallied_then; [done|destruct launched; [apply tallied_release|by apply tallied_aside]|]. intros u'. apply tallied_reclaim.
Qed.

Lemma tallied_call c : tallied 1 (manager_call c).
Proof.
  assert (Hforget : forall A (m : Eff St A), tallied 1 m -> tallied 1 (forget m)).
  { intros A m Hm. apply tallied_after; [done|done|]. intros a. by apply tallied_aside. }
  destruct c; simpl.
  - apply Hforget, tallied_manager_launch.
  - apply Hforget. unfold manager_launch_initial. apply tallied_then; [done|apply tallied_initial_session|]. intros session.
    apply tallied_after; [done|apply tallied_attempt, tallied_launch|]. intros launched.
    apply tallied_then; [done|apply tallied_release|]. intros u. destruct launched; by apply tallied_aside.
  - apply Hforget. unfold manager_launch_on_terminal. apply tallied_then; [done| |].
    { apply (tallied_try 0 0); [done|done|apply tallied_clone|intros a; by apply tallied_aside|by apply tallied_aside]. }
    intros owned. apply tallied_then; [done| |].
    { apply (tallied_try 0 0); [done|done|apply tallied_in_world|intros a; by apply tallied_aside|by apply tallied_aside]. }
    intros domains. destruct (negb _); [by apply (tallied_more 0); [|apply tallied_aside]|apply tallied_launch].
  - apply tallied_exit.
  - apply Hforget, tallied_spawn.
  - apply Hforget, (tallied_more 0); [done|]. unfold posix_wait_process. apply tallied_then; [done|by apply tallied_aside|].
    intros l. destruct (find _ l) as [p|]; [|by apply tallied_aside]. destruct (running p); [by apply tallied_aside|].
    apply tallied_then; [done|apply tallied_reclaim|]. intros u. by apply tallied_aside.
  - apply (tallied_more 0); [done|apply tallied_environment].
  - apply (tallied_more 0); [done|apply tallied_environment].
Qed.

Lemma calls_count calls (s : St) :
  counts (Z.of_nat (length calls)) (ms_manager s) (ms_manager (fold_left (fun s c => snd (manager_call c s)) calls s)).
Proof.
  revert s. induction calls as [|c calls IH]; intros s; simpl; [by apply counts_same|].
  rewrite Nat2Z.inj_succ, <- Z.add_1_l. eapply counts_trans; [done|lia|apply tallied_call|apply IH].
Qed.

Lemma pwp_table {A} (m : Eff St A) s Q :
  (forall x, ms_manager (snd (m x)) = ms_manager x) -> (forall a s', ms_manager s' = ms_manager s -> Q a s') -> pwp m s Q.
Proof. intros Hm HQ. specialize (Hm s). unfold pwp. destruct (m s) as [[a|c|] s']; [by apply HQ|done..]. Qed.

Lemma pwp_environment_next {A} self (m : Eff (ProcessState O) A) s :
  pwp (on_environment self m) s (fun _ s' => next_pid (ms_manager s') = next_pid (ms_manager s)).
Proof.
  unfold pwp, on_environment, the_process, fbind, the_manager, fget. simpl.
  destruct (find_process self (ms_manager s)) as [p|]; [|done]. simpl. by destruct (m _) as [[a|c|] ps].
Qed.

(** The number that a spawn answers. *)
Lemma spawn_number self path arguments session (s : St) :
  0 < next_pid (ms_manager s) -> next_pid (ms_manager s) + 1 < 2 ^ 31 ->
  pwp (posix_spawn_process self path arguments session) s (fun r s' =>
    forall n, r = Done n -> n = next_pid (ms_manager s) /\ head (pids (ms_manager s')) = Some n).
Proof.
  intros Hn Hr. unfold posix_spawn_process. apply pwp_bind, pwp_table; [intros x; unfold the_process, fbind, the_manager, fget;
    by destruct (find_process _ _)|]. intros parent s1 M1.
  apply pwp_bind. eapply pwp_mono; [apply pwp_environment_next|]. intros cwd s2 N2. rewrite M1 in N2. destruct (cwd =? 0); [done|].
  apply pwp_bind, pwp_table; [intros x; by destruct (_ =? _)%nat|]. intros copied s3 M3. destruct (negb copied).
  { apply pwp_bind, pwp_true. done. }
  apply pwp_bind. set (l := mkLaunch _ _ _ _ _ _ _ _ _ _ _ _). rewrite <- N2, <- M3 in Hn, Hr.
  pose proof (launch_number l s3 Hn Hr) as Hl. unfold pwp at 1, attempt. destruct (launch_process l s3) as [[h|c|] s4]; [| |done].
  2: { apply pwp_bind, pwp_true. done. }
  destruct Hl as [[Hno _]|[(q & Hq & _ & M4)|[Hno _]]]; [by destruct (Hno h)| |by destruct (Hno h)].
  apply pwp_bind, pwp_table; [intros x; apply release_table|]. intros u s5 M5. apply pwp_bind, pwp_get. rewrite M5, M4. simpl.
  apply pwp_bind, pwp_table; [intros x; apply release_table|]. intros u' s6 M6. apply pwp_ret. intros n [= <-].
  rewrite M6, M5, M4. unfold pids. simpl. split; [congruence|done].
Qed.

(** C23: Numbers of processes are given once: as long as fewer than 2^31 - 1 of them
    have been given, every sequence of requests, whatever they answer, leaves the
    numbers in the table positive and distinct, and a spawn that then answers a number
    has started a process with that number, which no process of the table had before. *)
Theorem process_numbers_distinct calls self path arguments session (s : St) :
  pids_ok (ms_manager s) -> 0 < next_pid (ms_manager s) -> next_pid (ms_manager s) + Z.of_nat (length calls) + 1 < 2 ^ 31 ->
  let s' := fold_left (fun s c => snd (manager_call c s)) calls s in
  pids_ok (ms_manager s') /\
  pwp (posix_spawn_process self path arguments session) s' (fun r s2 => forall n, r = Done n ->
    n ∉ pids (ms_manager s') /\ head (pids (ms_manager s2)) = Some n).
Proof.
  intros Hok Hn Hr s'. destruct (calls_count calls s Hn ltac:(lia)) as [Hb Hp]. fold s' in Hb, Hp. specialize (Hp Hok).
  split; [done|]. eapply pwp_mono; [apply spawn_number; lia|]. intros r s2 Hd n Hr2. destruct (Hd n Hr2) as [-> Hhead].
  split; [|done]. intros Hin. destruct Hp as [_ Hall]. rewrite Forall_forall in Hall. apply Hall in Hin. lia.
Qed.

(** ** The end of a process *)

Lemma find_unique {A} (f : A -> Z) (l : list A) x : NoDup (f <$> l) -> x ∈ l -> find (fun y => f y =? f x) l = Some x.
Proof.
  induction l as [|y l IH]; [by intros _ ?%elem_of_nil|]. simpl. intros [Hn Hd]%NoDup_cons [->|Hx]%elem_of_cons.
  - by rewrite Z.eqb_refl.
  - destruct (Z.eqb_spec (f y) (f x)) as [He|Hne]; [|by apply IH]. destruct Hn. rewrite He. by apply list_elem_of_fmap_2.
Qed.

(** The table after a change to one process. *)
Definition updated (self : Z) (f : RunningProcess -> RunningProcess) (m : ProcessManager) : ProcessManager :=
  mkManager (pm_handle m) (map (fun p => if rp_lifecycle p =? self then f p else p) (processes m)) (next_pid m).

Lemma find_updated self f m p :
  (forall q, pid (f q) = pid q) -> NoDup (pid <$> processes m) -> p ∈ processes m -> rp_lifecycle p = self ->
  find (fun q => pid q =? pid p) (processes (updated self f m)) = Some (f p).
Proof.
  intros Hf Hd Hp Hs. pose proof (find_unique pid (processes m) p Hd Hp) as Hfind. unfold updated. simpl. clear Hd Hp.
  induction (processes m) as [|q l IH]; [done|]. simpl in *.
  assert (E : pid (if rp_lifecycle q =? self then f q else q) = pid q).
  { destruct (rp_lifecycle q =? self); [apply Hf|done]. }
  rewrite E. clear E.
  destruct (pid q =? pid p); [|by apply IH]. injection Hfind as ->. by rewrite Hs, Z.eqb_refl.
Qed.

(** C24: The end of a process that is not restarted is reported (initial processes,
    which are, restart when they announce their exit): while the process runs, waiting
    for its number asks the caller to try again and changes nothing; after the process
    has announced its exit, the wait that follows answers its status and ends its
    program by releasing its page allocator, and a second wait answers the same status
    and changes nothing more. *)
Theorem process_exit_reported (s : St) p status program o :
  NoDup (pid <$> processes (ms_manager s)) -> NoDup (rp_lifecycle <$> processes (ms_manager s)) ->
  p ∈ processes (ms_manager s) -> running p = true -> rp_restart p = None -> platform_state p = Some program ->
  let pages := pp_pages program in pages <> 0 -> live (ms_world s) !! pages = Some o ->
  posix_wait_process (pid p) s = (Ok (Failed EAGAIN), s) /\
  exists s1 s2,
    lifecycle_notify_exit (rp_lifecycle p) status s = (Ok tt, s1) /\
    posix_wait_process (pid p) s1 = (Ok (Done status), s2) /\
    live (ms_world s2) = delete pages (live (ms_world s)) /\
    posix_wait_process (pid p) s2 = (Ok (Done status), s2).
Proof.
  intros Hd Hl Hp Hrun Hrs Hpl pages Hz Ho. unfold posix_wait_process at 1, fbind, the_manager, fget. simpl.
  rewrite (find_unique pid) by done. rewrite Hrun. split; [done|].
  set (m1 := updated (rp_lifecycle p) (set_exited status) (ms_manager s)).
  set (s1 := mkManagerState (ms_world s) (ms_refs s) m1).
  assert (F1 : find (fun q => pid q =? pid p) (processes m1) = Some (set_exited status p)) by (by apply find_updated).
  set (m2 := updated (rp_lifecycle p) set_reclaimed m1). set (w2 := mkWorld (delete pages (live (ms_world s))) (next_fresh (ms_world s)) (steps (ms_world s))).
  assert (F2 : find (fun q => pid q =? pid p) (processes m2) = Some (set_reclaimed (set_exited status p))).
  { assert (Hin : set_exited status p ∈ processes m1).
    { destruct (find_some _ _ F1) as [Hin _]. by apply list_elem_of_In. }
    apply (find_updated (rp_lifecycle p) set_reclaimed m1 (set_exited status p)); [done| |done|done].
    unfold m1, updated. simpl. rewrite map_map. erewrite map_ext; [exact Hd|]. intros q. simpl. by destruct (_ =? _). }
  exists s1, (mkManagerState w2 (ms_refs s) m2). split_and!.
  - unfold lifecycle_notify_exit, the_process, fbind, the_manager, fget, find_process. simpl.
    rewrite (find_unique rp_lifecycle) by done. simpl. by rewrite Hrs.
  - unfold posix_wait_process, fbind, the_manager, fget. cbn [ms_manager s1]. rewrite F1. simpl. unfold reclaim. simpl. rewrite Hpl.
    unfold platform_destroy_process, handle_release, fbind, object_of. fold pages. rewrite (proj2 (Z.eqb_neq pages 0)) by done. simpl.
    by rewrite Ho.
  - done.
  - unfold posix_wait_process, fbind, the_manager, fget. cbn [ms_manager]. by rewrite F2.
Qed.

End Table.

(** ** A domain on sample services *)

#[local] Existing Instance sample_services.
#[local] Existing Instance sample_env_services.

#[local] Instance sample_process_services : ProcessServices bytes := {
  file_path o := inl o;
  session_get_domain_id o := inl 7;
  caller_resolve o name := inl (B "session");
  caller_get_sysv_environment o := inl [B "PATH=/bin"];
  caller_get_terminal_index o := inl 1;
  caller_get_cwd o := inl (B "/")
}.

(** A native domain with the boot file system of the sample archive; its terminal runs
    as the user alice, whose session is an object of the sample. *)
#[local] Instance sample_setting : DomainSetting bytes := {
  dm_alloc_ok := always; dm_proxy_ok := always; dm_start_ok := always;
  dm_process_environment_object := B "environment"; dm_posix_object := B "view"; dm_process_object := B "process";
  dm_lifecycle_object := B "lifecycle"; dm_manager_object := B "manager"; dm_allocator_object := B "pages";
  IID_IFileStore := B "fst"; IID_ISession := B "ses"; IID_IDirectory := B "dir"; IID_IPOSIXView := B "psx";
  IID_ITerminalControl := B "ctl"; IID_IByteReader := B "rd"; IID_IByteWriter := B "wr"; IID_IProcessLifecycle := B "lif";
  IID_IPageAllocator := B "pag"; IID_IGenericObject := B "gen"; IID_IProcess := B "pro"; IID_IProcessManager := B "man";
  dm_credential_store u g a := Some (mkCredentialFiles 4 posix_passwd posix_shadow posix_fstab);
  dm_resolve_in_parent name := if name =b B "auth" then (FACET_OK, Some (B "aut", 5)) else (FACET_NOT_FOUND, None);
  dm_domain := 1%nat; dm_domain_initrd := true; dm_entries := sample_entries;
  dm_parsed := Some (mkDomain 7 (Some (B "dom")) FACET_CONFIG_PERSONALITY_NATIVE FACET_CONFIG_DOMAIN_MANAGER_NONE None 0 None None
    [] [] [mkTerminal (Some (B "seat0.console")) 0 0 FACET_CONFIG_TERMINAL_VIEW_NATIVE None None (Some (B "alice")) 0] 0);
  dm_config_domain_id := inl 7; dm_bindings := [mkAssignment 1 0 1 2 3 0];
  dm_session_for_user domain user := inl (B "session"); dm_config_users := []
}.

Definition sample_manager : ManagerState bytes :=
  mkManagerState (mkWorld (list_to_map [(1, B "in"); (2, B "out"); (3, B "control"); (4, B "store"); (5, B "auth"); (6, B "manager");
    (7, B "session")]) 8 0) ∅ (mkManager 6 [] 1).

(** The launch of a shell for the session. *)
Definition sample_launch : Launch := mkLaunch (B "/bin/sh") [] 7 false 0 None 0 false false true (Some (B "/posix")) None.

Definition sample_launched : result Z * ManagerState bytes := launch_process sample_launch sample_manager.

Lemma sample_manager_ok : handles_ok sample_manager.
Proof.
  split; [by_decide|]. intros h o Ho. change (0 < h < 8).
  apply elem_of_list_to_map_2 in Ho. repeat (apply elem_of_cons in Ho as [[= -> ->]|Ho]; [lia|]). by apply elem_of_nil in Ho.
Qed.

Lemma launch_authorised_witness :
  fst sample_launched = Ok 23 /\
  exists p program, processes (ms_manager (snd sample_launched)) = [p] /\
    program_ok (as_process sample_manager) sample_launch program /\ runs p program /\ credentials_of (rp_env p) = (1000, 1000, false) /\
    started (as_process sample_manager) sample_launch 1 p.
Proof.
  assert (E : fst sample_launched = Ok 23) by (vm_compute; reflexivity).
  assert (C : map (fun p => (pid p, credentials_of (rp_env p))) (processes (ms_manager (snd sample_launched))) = [(1, (1000, 1000, false))])
    by (vm_compute; reflexivity).
  split; [exact E|].
  pose proof (launch_authorised sample_launch sample_manager sample_manager_ok eq_refl eq_refl) as Hl.
  unfold pwp in Hl. fold sample_launched in Hl. destruct sample_launched as [r s']. simpl in E. subst r.
  destruct Hl as (p & program & Hp & _ & Hok & Hruns & _ & Hs); [intros u g a c [= <-]; reflexivity|].
  simpl in C, Hp |- *. rewrite Hp in C. injection C as Cp Cu Cg Ca. rewrite Cp in Hs. exists p, program.
  split_and!; [done|done|done|unfold credentials_of; congruence|done].
Defined.

(** The shell of the terminal, started at the boot of the domain. *)
Definition sample_initial (posix_root : option bytes) : ManagerState bytes :=
  snd (manager_launch_initial (B "/bin/sh") [] 0 posix_root sample_manager).

Lemma process_numbers_distinct_witness :
  let calls := [CallLaunchInitial (B "/bin/sh") [] 0 (Some [47]); CallExit 27 0; CallWait 1] in
  let s' := fold_left (fun s c => snd (manager_call c s)) calls sample_manager in
  pids_ok (ms_manager s') /\ pids (ms_manager s') = [2; 1] /\
  pwp (posix_spawn_process 27 (B "/bin/sh") [] 0) s' (fun r s2 => forall n, r = Done n ->
    n ∉ pids (ms_manager s') /\ head (pids (ms_manager s2)) = Some n) /\
  fst (posix_spawn_process 27 (B "/bin/sh") [] 0 s') = Ok (Done 3).
Proof.
  intros calls s'. pose proof (process_numbers_distinct calls 27 (B "/bin/sh") [] 0 sample_manager) as Hn.
  destruct Hn as [Hok Hspawn]; [split; constructor|reflexivity|reflexivity|].
  split_and!; [exact Hok|vm_compute; reflexivity|exact Hspawn|vm_compute; reflexivity].
Defined.

Lemma process_exit_reported_witness :
  exists p s1 s2,
    processes (ms_manager (snd sample_launched)) = [p] /\
    posix_wait_process (pid p) (snd sample_launched) = (Ok (Failed EAGAIN), snd sample_launched) /\
    lifecycle_notify_exit (rp_lifecycle p) 42 (snd sample_launched) = (Ok tt, s1) /\
    posix_wait_process (pid p) s1 = (Ok (Done 42), s2) /\ is_Some (live (ms_world (snd sample_launched)) !! 25) /\
    live (ms_world s2) !! 25 = None.
Proof.
  assert (C : map (fun p => (running p, rp_restart p, pp_pages <$> platform_state p)) (processes (ms_manager (snd sample_launched)))
    = [(true, None, Some 25)]) by (vm_compute; reflexivity).
  assert (L : live (ms_world (snd sample_launched)) !! 25 = Some (B "pages")) by (vm_compute; reflexivity).
  destruct (snd sample_launched) as [w refs m]. simpl in C, L |- *. destruct m as [h l next]. simpl in C |- *.
  destruct l as [|p [|]]; [done| |done]. injection C as Cr Cs Cp.
  destruct (platform_state p) as [program|] eqn:Ep; [|done]. injection Cp as Cp.
  destruct (process_exit_reported (mkManagerState w refs (mkManager h [p] next)) p 42 program (B "pages"))
    as (Hw & s1 & s2 & He & Hd & Hl & _); simpl; rewrite ?Cp; try done;
    [apply NoDup_singleton|apply NoDup_singleton|by apply list_elem_of_singleton|].
  exists p, s1, s2. split_and!; [done|exact Hw|exact He|exact Hd|by rewrite L|]. rewrite Hl, Cp. apply lookup_delete_eq.
Defined.

(** ** What goes wrong *)

Definition numbers_and_rights (m : ProcessManager) : list (Z * (Z * Z * bool) * bool) :=
  map (fun p => (pid p, credentials_of (rp_env p), bool_decide (B "auth" ∈ names_of (rp_env p)))) (processes m).

(** An initial process that ran with the session of a user is restarted without one:
    the replacement has the bootstrap identity and the authentication service. *)
Lemma restart_regains_authority :
  let s := sample_initial None in
  numbers_and_rights (ms_manager s) = [(1, (1000, 1000, false), false)] /\
  numbers_and_rights (ms_manager (snd (lifecycle_notify_exit 17 0 s))) =
    [(2, (0, 0, true), true); (1, (1000, 1000, false), false)].
Proof. split; vm_compute; reflexivity. Qed.

(** The handle of a spawned process is released when the spawn returns, and used
    again when the managers are destroyed. *)
Lemma spawned_handle_released_twice :
  let destroy (s : ManagerState bytes) := fst (dominit0_process_managers_destroy [ms_manager s] (as_process s)) in
  let spawned := posix_spawn_process 27 (B "/bin/sh") [] 0 (sample_initial (Some [47])) in
  destroy (sample_initial (Some [47])) = Ok tt /\ fst spawned = Ok (Done 2) /\ destroy (snd spawned) = Fault.
Proof. split_and!; vm_compute; reflexivity. Qed.

(** After the last number, 1 is given twice. *)
Lemma pid_wrap_repeats :
  let s := mkManagerState (ms_world sample_manager) ∅ (mkManager 6 [] (2 ^ 31 - 1)) in
  let r1 := take_pid s in let r2 := take_pid (snd r1) in let r3 := take_pid (snd r2) in
  (fst r1, fst r2, fst r3) = (Ok (2 ^ 31 - 1), Ok 1, Ok 1).
Proof. vm_compute. reflexivity. Qed.
