(* ===== verification/ConfigObjects.v ===== *)
(** The configuration as the domains see it (src/src/dominit0/config.c): one object
    per domain with three interfaces, made from the parsed configuration, exported and
    destroyed.

    The enumerations of the interfaces have the numbers of those of the configuration
    and are those numbers.  An array of a view has as many elements as its count, and
    no data when it is empty.  Freeing memory is left out; a current domain is the
    index of its configuration object. *)
From stdpp Require Import gmap.
From S2P Require Import Prelude Utf8 ConfigTypes ConfigParse Klog Logging Effects Handles Environment.
#[local] Open Scope facet_scope.

(** ** Numbers of the enumerations (config.h) *)

Definition personality_number (p : FacetConfigPersonality) : Z :=
  match p with FACET_CONFIG_PERSONALITY_NATIVE => 0 | FACET_CONFIG_PERSONALITY_POSIX => 1 | FACET_CONFIG_PERSONALITY_VM => 2 end.
Definition manager_number (m : FacetConfigDomainManagerMode) : Z :=
  match m with FACET_CONFIG_DOMAIN_MANAGER_NONE => 0 | FACET_CONFIG_DOMAIN_MANAGER_LOCAL => 1 | FACET_CONFIG_DOMAIN_MANAGER_PARENT => 2 end.
Definition level_number (l : FacetConfigLogLevel) : Z :=
  match l with
  | FACET_CONFIG_LOG_NONE => 0 | FACET_CONFIG_LOG_FATAL => 10 | FACET_CONFIG_LOG_ERROR => 20 | FACET_CONFIG_LOG_WARNING => 30
  | FACET_CONFIG_LOG_INFO => 40 | FACET_CONFIG_LOG_DEBUG => 50 | FACET_CONFIG_LOG_TRACE => 60
  end.

(** ** State *)

Record Assignment := mkAssignmentView {
  as_seat : FacetString;
  as_terminal : FacetString;
  as_view : FacetString;
  as_initial_process : FacetString
}.

Record DomainConfigObject := mkObject {
  ob_domain_id : Z;
  ob_domain_name : FacetString;
  ob_personality : Z;
  ob_domain_manager : Z;
  ob_source : FacetConfigDomain;
  ob_sinks : list Sink;
  ob_assignments : list Assignment;
  ob_domain_handle : Z;
  ob_logging_handle : Z;
  ob_console_handle : Z
}.

Record SystemConfig := mkSystem {
  sys_parsed : FacetSystemConfig;
  sys_root_index : nat;
  sys_domains : list DomainConfigObject;
  sys_current : list nat
}.
Definition zero_system : SystemConfig := mkSystem zero_config 0 [] [].

Record ConfigState (O : Type) := mkConfigState {
  cf_world : World O;
  configured_system : SystemConfig;
  configured_system_initialized : bool;
  cf_diagnostic : option FacetConfigDiagnostic
}.
Arguments mkConfigState {O}.
Arguments cf_world {O}.
Arguments configured_system {O}.
Arguments configured_system_initialized {O}.
Arguments cf_diagnostic {O}.

#[global] Instance config_worldly O : Worldly (ConfigState O) O := {
  world := cf_world;
  set_world w s := mkConfigState w (configured_system s) (configured_system_initialized s) (cf_diagnostic s)
}.

#[global] Instance config_worldly_laws O : WorldlyLaws (ConfigState O) O.
Proof. split; [done..|]. by intros []. Qed.

Section ConfigObjects.
Context (IID_IGenericObject IID_IDomainConfig IID_ILoggingConfig IID_IDomainConsoleConfig : iid).

(** ** The interfaces of an object *)

Definition domain_get_interface (o : DomainConfigObject) (i : iid) : FacetResult * Z :=
  if ((i =b IID_IGenericObject) || (i =b IID_IDomainConfig))%bool then return_handle (ob_domain_handle o)
  else if i =b IID_ILoggingConfig then return_handle (ob_logging_handle o)
  else if i =b IID_IDomainConsoleConfig then return_handle (ob_console_handle o)
  else (FACET_NO_INTERFACE, 0).

Definition logging_get_interface (o : DomainConfigObject) (i : iid) : FacetResult * Z :=
  if ((i =b IID_IGenericObject) || (i =b IID_ILoggingConfig))%bool then return_handle (ob_logging_handle o)
  else (FACET_NO_INTERFACE, 0).

Definition console_get_interface (o : DomainConfigObject) (i : iid) : FacetResult * Z :=
  if ((i =b IID_IGenericObject) || (i =b IID_IDomainConsoleConfig))%bool then return_handle (ob_console_handle o)
  else (FACET_NO_INTERFACE, 0).

Definition get_domain_id (o : DomainConfigObject) : Z := ob_domain_id o.
Definition get_domain_name (o : DomainConfigObject) : FacetString := ob_domain_name o.
Definition get_pid1 (o : DomainConfigObject) : FacetString := literal (default [] (pid1 (ob_source o))).
Definition get_personality (o : DomainConfigObject) : Z := ob_personality o.
Definition get_logger_config (o : DomainConfigObject) : FacetResult * Z := return_handle (ob_logging_handle o).
Definition get_console_config (o : DomainConfigObject) : FacetResult * Z := return_handle (ob_console_handle o).
Definition get_domain_manager (o : DomainConfigObject) : Z := ob_domain_manager o.
Definition get_sinks (o : DomainConfigObject) : list Sink := ob_sinks o.
Definition get_assignments (o : DomainConfigObject) : list Assignment := ob_assignments o.
Definition get_assignment_count (o : DomainConfigObject) : Z := zlen (ob_assignments o).
Definition get_assignment (o : DomainConfigObject) (index : Z) : Assignment + FacetResult :=
  match ob_assignments o !! Z.to_nat index with Some a => inl a | None => inr FACET_NOT_FOUND end.

(** What the environment of a domain reads of its configuration. *)
Definition current_view (o : DomainConfigObject) : CurrentDomain :=
  mkCurrent true
    (mkDomainConfig (inl (get_domain_id o)) (inl (default [] (fs_data (get_domain_name o)))) (inl (get_personality o))
       (mkLoggingConfig (Some (FACET_OK, match get_sinks o with [] => None | l => Some l end, length (get_sinks o)))))
    (ob_domain_handle o) None.

(** ** Creation *)

Context {O : Type} (alloc_ok : nat -> bool) (domain_object logging_object console_object : nat -> O).
(** The sizes of the generated structures. *)
Context (sizeof_Sink sizeof_Assignment sizeof_object : Z).

Abbreviation St := (ConfigState O).
Abbreviation Cfg := (Eff St).

Definition set_system_config (x : SystemConfig) (s : St) : St :=
  mkConfigState (cf_world s) x (configured_system_initialized s) (cf_diagnostic s).
Definition change_object (i : nat) (f : DomainConfigObject -> DomainConfigObject) (s : St) : St :=
  let x := configured_system s in
  set_system_config (mkSystem (sys_parsed x) (sys_root_index x) (alter f i (sys_domains x)) (sys_current x)) s.
Definition put_diagnostic (d : option FacetConfigDiagnostic) (s : St) : St :=
  mkConfigState (cf_world s) (configured_system s) (configured_system_initialized s) d.

(** The diagnostic, if there is one, is overwritten. *)
Definition set_diagnostic (context message : bytes) : Cfg unit :=
  fput (fun s => put_diagnostic
    ((fun _ => mkDiagnostic FACET_CONFIG_DIAGNOSTIC_OUT_OF_MEMORY 0 0 (firstn 95 context) (firstn 191 message)) <$> cf_diagnostic s) s).

Definition diagnosed {A} (context message : bytes) : Cfg A := set_diagnostic context message ;; ferr FACET_ERROR.

(** [strlen] of an absent string is a fault. *)
Definition text (s : option bytes) : result FacetString :=
  match s with Some b => Ok (literal b) | None => Fault end.

Definition sink_view (system : FacetSystemConfig) (use : FacetConfigDomainSink) : result Sink :=
  match logging_sinks system !! sink_definition_index use with
  | None => Fault
  | Some definition =>
      match text (ConfigTypes.sink_name definition) with
      | Ok name => Ok (mkConfigured name (level_number (use_level use)))
      | _ => Fault
      end
  end.

Definition view_text (v : FacetConfigTerminalView) : FacetString :=
  literal (match v with FACET_CONFIG_TERMINAL_VIEW_POSIX => B "posix" | FACET_CONFIG_TERMINAL_VIEW_NATIVE => B "native" end).

Definition process_text (p : option bytes) : FacetString :=
  match p with Some b => literal b | None => mkString None 0 end.

Definition assignment_view (system : FacetSystemConfig) (a : FacetConfigTerminalAssignment) : result Assignment :=
  match seats system !! seat_index a with
  | None => Fault
  | Some seat =>
      match seat_terminals seat !! terminal_index a, text (seat_name seat) with
      | Some terminal, Ok name =>
          Ok (mkAssignmentView name (literal terminal) (view_text (view a)) (process_text (initial_process a)))
      | _, _ => Fault
      end
  end.

Fixpoint views {A C} (f : A -> result C) (l : list A) : result (list C) :=
  match l with
  | [] => Ok []
  | a :: rest =>
      match f a with
      | Ok c => match views f rest with Ok cs => Ok (c :: cs) | Err code => Err code | Fault => Fault end
      | Err code => Err code
      | Fault => Fault
      end
  end.

(** An array of views, with the size of an element; no memory is asked for none. *)
Definition view_array {A C} (size : Z) (context overflow exhausted : bytes) (f : A -> result C) (l : list A) : Cfg (list C) :=
  if (length l =? 0)%nat then fret []
  else if SIZE_MAX / size <? zlen l then diagnosed context overflow
  else
    run ok <- allocate alloc_ok;
    if negb ok then diagnosed context exhausted else flift (views f l).

Definition initialize_domain_object (system : FacetSystemConfig) (source : FacetConfigDomain) : Cfg DomainConfigObject :=
  run name <- flift (text (domain_name source));
  let context := default [] (domain_name source) in
  run sinks <- view_array sizeof_Sink context (B "logging sink array size overflow") (B "could not allocate logging sink view")
                 (sink_view system) (domain_sinks source);
  run assignments <- view_array sizeof_Assignment context (B "terminal assignment array size overflow")
                       (B "could not allocate terminal assignment view") (assignment_view system) (domain_terminals source);
  fret (mkObject (domain_id source) name (personality_number (personality source)) (manager_number (domain_manager source))
          source sinks assignments 0 0 0).

Fixpoint initialize_domain_objects (system : FacetSystemConfig) (l : list FacetConfigDomain) : Cfg (list DomainConfigObject) :=
  match l with
  | [] => fret []
  | d :: rest =>
      run o <- initialize_domain_object system d;
      run os <- initialize_domain_objects system rest;
      fret (o :: os)
  end.

Fixpoint allocate_current (i n : nat) : Cfg (list nat) :=
  match n with
  | 0%nat => fret []
  | S k =>
      run ok <- allocate alloc_ok;
      if negb ok then diagnosed (B "domains") (B "could not allocate current domain state")
      else run rest <- allocate_current (S i) k; fret (i :: rest)
  end.

(** ** Destruction *)

Fixpoint unexport_objects (l : list DomainConfigObject) : Cfg unit :=
  match l with
  | [] => fret tt
  | o :: rest =>
      handle_release (ob_domain_handle o) ;;
      handle_release (ob_logging_handle o) ;;
      handle_release (ob_console_handle o) ;;
      unexport_objects rest
  end.

Definition dominit0_config_objects_destroy : Cfg unit :=
  run x <- fget configured_system;
  unexport_objects (sys_domains x) ;;
  fput (set_system_config zero_system).

(** The objects of a parsed configuration, whose ownership they take.  The objects
    are put in place when all of them exist: until then their exports are null, so
    that destroying them has nothing to withdraw. *)
Definition dominit0_config_objects_init (parsed : FacetSystemConfig) : Cfg unit :=
  let n := length (domains parsed) in
  if (n =? 0)%nat then ferr FACET_ERROR
  else
    fput (set_system_config zero_system) ;;
    if SIZE_MAX / sizeof_object <? Z.of_nat n then diagnosed (B "domains") (B "domain object array size overflow")
    else
      run ok <- allocate alloc_ok;
      if negb ok then diagnosed (B "domains") (B "could not allocate domain objects")
      else
        fput (set_system_config (mkSystem parsed (root_index parsed) [] [])) ;;
        ftry (run objects <- initialize_domain_objects parsed (domains parsed);
              fput (set_system_config (mkSystem parsed (root_index parsed) objects [])) ;;
              run ok <- allocate alloc_ok;
              if negb ok then diagnosed (B "domains") (B "could not allocate current domain array")
              else
                run current <- allocate_current 0 n;
                fput (set_system_config (mkSystem parsed (root_index parsed) objects current)))
          fret
          (dominit0_config_objects_destroy ;; ferr FACET_ERROR).

(** ** Export *)

Definition bind_handles (domain logging console : Z) (o : DomainConfigObject) : DomainConfigObject :=
  mkObject (ob_domain_id o) (ob_domain_name o) (ob_personality o) (ob_domain_manager o) (ob_source o) (ob_sinks o)
    (ob_assignments o) domain logging console.

Definition dominit0_domain_config_bind_handles (i : nat) (domain logging console : Z) : Cfg unit :=
  if ((domain =? 0) || (logging =? 0) || (console =? 0))%bool then ferr FACET_ERROR
  else fput (change_object i (bind_handles domain logging console)).

(** One object; what was exported is withdrawn on failure. *)
Definition export_object (i : nat) : Cfg unit :=
  ftry (export_interface alloc_ok (logging_object i))
    (fun logging =>
       ftry (export_interface alloc_ok (console_object i))
         (fun console =>
            ftry (export_interface alloc_ok (domain_object i))
              (fun domain =>
                 ftry (dominit0_domain_config_bind_handles i domain logging console) fret
                   (handle_release domain ;; handle_release console ;; handle_release logging ;; ferr FACET_ERROR))
              (handle_release console ;; handle_release logging ;; ferr FACET_ERROR))
         (handle_release logging ;; ferr FACET_ERROR))
    (ferr FACET_ERROR).

Fixpoint export_objects (i : nat) (l : list DomainConfigObject) : Cfg unit :=
  match l with
  | [] => fret tt
  | o :: rest =>
      (if negb (ob_domain_handle o =? 0) then fret tt else export_object i) ;;
      export_objects (S i) rest
  end.

Definition dominit0_config_export_objects : Cfg unit :=
  run x <- fget configured_system;
  match sys_domains x with
  | [] => ferr FACET_ERROR
  | l => export_objects 0 l
  end.

(** ** The configured system *)

(** [garbage] is what the local variable of the parsed configuration holds. *)
Definition dominit0_config_initialize (malloc_ok : nat -> bool) (garbage : FacetSystemConfig) (data : option bytes) (size : nat)
    (source_present : bool) : Cfg unit :=
  run initialized <- fget configured_system_initialized;
  if (initialized : bool) then ferr FACET_ERROR
  else
    run d <- fget cf_diagnostic;
    match (if source_present then facet_config_parse malloc_ok data size (Some garbage) d
           else facet_config_make_fallback malloc_ok (Some garbage) d) with
    | (ConfigTypes.Ok _, Some parsed, d') =>
        fput (put_diagnostic d') ;;
        dominit0_config_objects_init parsed ;;
        fput (fun s => mkConfigState (cf_world s) (configured_system s) true (cf_diagnostic s))
    | (ConfigTypes.Err, _, d') => fput (put_diagnostic d') ;; ferr FACET_ERROR
    | _ => ffault
    end.

Definition dominit0_config_get_system : Cfg (option SystemConfig) :=
  fget (fun s => if configured_system_initialized s then Some (configured_system s) else None).

End ConfigObjects.
