(* ===== verification/ConfigObjectsFacts.v ===== *)
(** The configuration objects agree with the configuration that was read, whatever
    the document is and whichever allocations fail, and their exports are accounted
    for. *)
From stdpp Require Import gmap.
From S2P Require Import Prelude Utf8 ConfigTypes ConfigParse ConfigApplyFacts ConfigValidateFacts ConfigParseFacts Klog Logging.
From S2P Require Import Effects Handles HandleFacts Environment ConfigObjects.

(** ** What the objects of a domain answer *)

Definition sink_shown (use : FacetConfigDomainSink) (k : Sink) : Prop :=
  exists name, use_name use = Some name /\ Klog.sink_name k = literal name /\ sink_level k = level_number (use_level use).

(** The seat and the terminal of an assignment are the two parts of its reference. *)
Definition assignment_shown (t : FacetConfigTerminalAssignment) (a : Assignment) : Prop :=
  exists seat terminal, reference t = Some (seat ++ [46] ++ terminal) /\ as_seat a = literal seat /\ as_terminal a = literal terminal /\
    as_view a = view_text (view t) /\ as_initial_process a = process_text (initial_process t).

Record shown (d : FacetConfigDomain) (o : DomainConfigObject) : Prop := {
  sh_id : get_domain_id o = domain_id d;
  sh_name : exists name, domain_name d = Some name /\ get_domain_name o = literal name;
  sh_personality : get_personality o = personality_number (personality d);
  sh_manager : get_domain_manager o = manager_number (domain_manager d);
  sh_pid1 : get_pid1 o = literal (default [] (pid1 d));
  sh_sinks : Forall2 sink_shown (domain_sinks d) (get_sinks o);
  sh_assignments : Forall2 assignment_shown (domain_terminals d) (get_assignments o);
  sh_unexported : (ob_domain_handle o, ob_logging_handle o, ob_console_handle o) = (0, 0, 0)
}.

Lemma views_shown {A C} (f : A -> result C) (R : A -> C -> Prop) (P : A -> Prop) l :
  (forall a, P a -> exists c, f a = Ok c /\ R a c) -> Forall P l -> exists cs, views f l = Ok cs /\ Forall2 R l cs.
Proof.
  intros Hf. induction 1 as [|a l Ha _ IH]; simpl; [by exists []|]. destruct (Hf a Ha) as (c & -> & Hc).
  destruct IH as (cs & -> & Hcs). exists (c :: cs). by split; [|constructor].
Qed.

Lemma sink_view_shown c use : Forall sink_wf (logging_sinks c) -> use_wf c use ->
  exists k, sink_view c use = Ok k /\ sink_shown use k.
Proof.
  intros Hs (sink & Hl & Hn). unfold sink_view. rewrite Hl. rewrite Forall_lookup in Hs.
  destruct (Hs _ _ Hl) as [(name & En & _) _]. rewrite En. simpl. eexists. split; [done|]. exists name. by rewrite <- Hn, En.
Qed.

Lemma assignment_view_shown c d t : terminal_wf c d t -> exists a, assignment_view c t = Ok a /\ assignment_shown t a.
Proof.
  intros [(seat & sn & tn & Hs & Hsn & Ht & Hr) _]. unfold assignment_view. rewrite Hs, Ht, Hsn. simpl.
  eexists. split; [done|]. by exists sn, tn.
Qed.

Section Facts.
Context {O : Type} (alloc_ok : nat -> bool) (domain_object logging_object console_object : nat -> O).
Context (sizeof_Sink sizeof_Assignment sizeof_object : Z).

Abbreviation St := (ConfigState O).

(** ** Creation *)

(** Only the number of steps differs. *)
Record along (s s' : St) : Prop := {
  al_live : live (cf_world s') = live (cf_world s);
  al_fresh : next_fresh (cf_world s') = next_fresh (cf_world s);
  al_system : configured_system s' = configured_system s;
  al_initialized : configured_system_initialized s' = configured_system_initialized s;
  al_diagnostic : cf_diagnostic s' = cf_diagnostic s
}.

(** A failure is described to a caller who asked for it. *)
Definition described (d d' : option FacetConfigDiagnostic) : Prop :=
  match d with None => d' = None | Some _ => exists r, d' = Some r /\ category r <> FACET_CONFIG_DIAGNOSTIC_NONE end.

Record failing (s s' : St) : Prop := {
  fl_live : live (cf_world s') = live (cf_world s);
  fl_fresh : next_fresh (cf_world s') = next_fresh (cf_world s);
  fl_system : configured_system s' = configured_system s;
  fl_initialized : configured_system_initialized s' = configured_system_initialized s;
  fl_diagnostic : described (cf_diagnostic s) (cf_diagnostic s')
}.

Lemma along_refl s : along s s.
Proof. done. Qed.

Lemma along_trans s1 s2 s3 : along s1 s2 -> along s2 s3 -> along s1 s3.
Proof. intros [] []. split; congruence. Qed.

Lemma along_failing s1 s2 s3 : along s1 s2 -> failing s2 s3 -> failing s1 s3.
Proof. intros [? ? ? ? E] [? ? ? ? F]. rewrite E in F. split; congruence. Qed.

(** A step of the creation: it ends well or is described. *)
Definition creates {A} (m : Eff St A) (Q : A -> Prop) : Prop :=
  forall s, awp m s (fun a s' => along s s' /\ Q a) (fun _ s' => failing s s').

Lemma creates_ret {A} (a : A) (Q : A -> Prop) : Q a -> creates (fret a) Q.
Proof. by intros HQ s. Qed.

Lemma creates_lift {A} (a : A) (r : result A) (Q : A -> Prop) : r = Ok a -> Q a -> creates (flift r) Q.
Proof. by intros -> HQ s. Qed.

Lemma creates_bind {A C} (m : Eff St A) (k : A -> Eff St C) (P : A -> Prop) (Q : C -> Prop) :
  creates m P -> (forall a, P a -> creates (k a) Q) -> creates (fbind m k) Q.
Proof.
  intros Hm Hk s. apply awp_bind. eapply awp_mono; [apply Hm| |].
  - intros a s1 [L1 Ha]. eapply awp_mono; [by apply Hk| |].
    + intros c s2 [L2 Hc]. split; [by eapply along_trans|done].
    + intros c s2 F2. by eapply along_failing.
  - intros c s1 F1. exact F1.
Qed.

Lemma creates_allocate (Q : bool -> Prop) : (forall b, Q b) -> creates (allocate alloc_ok) Q.
Proof. intros HQ s. split; [done|apply HQ]. Qed.

Lemma creates_diagnosed {A} context message (Q : A -> Prop) : creates (diagnosed context message) Q.
Proof. intros s. split; try done. simpl. destruct (cf_diagnostic s); [|done]. by eexists. Qed.

Lemma creates_array {A C} size context overflow exhausted (f : A -> result C) (R : A -> C -> Prop) (P : A -> Prop) l :
  (forall a, P a -> exists c, f a = Ok c /\ R a c) -> Forall P l ->
  creates (view_array alloc_ok size context overflow exhausted f l) (Forall2 R l).
Proof.
  intros Hf Hl. unfold view_array. destruct (Nat.eqb_spec (length l) 0) as [->%nil_length_inv|_]; [by apply creates_ret|].
  destruct (_ <? _); [apply creates_diagnosed|]. eapply creates_bind; [by apply (creates_allocate (fun _ => True))|].
  intros ok _. destruct (negb ok); [apply creates_diagnosed|].
  destruct (views_shown f R P l Hf Hl) as (cs & E & Hcs). by eapply creates_lift.
Qed.

Lemma creates_object c d : Forall sink_wf (logging_sinks c) -> domain_wf c d ->
  creates (initialize_domain_object alloc_ok sizeof_Sink sizeof_Assignment c d) (shown d).
Proof.
  intros Hsinks ((name & En & _) & _ & _ & _ & _ & _ & _ & _ & _ & Huses & _ & Hterms & _).
  unfold initialize_domain_object. rewrite En. eapply (creates_bind _ _ (fun x => x = literal name)); [by eapply creates_lift|].
  intros x ->. eapply creates_bind.
  { apply (creates_array _ _ _ _ _ sink_shown (use_wf c)); [|exact Huses]. intros u Hu. by apply sink_view_shown. }
  intros ks Hks. eapply creates_bind.
  { apply (creates_array _ _ _ _ _ assignment_shown (terminal_wf c d)); [|exact Hterms]. intros t Ht. by eapply assignment_view_shown. }
  intros ts Hts. apply creates_ret. split; try done. by exists name.
Qed.

Lemma creates_objects c ds : Forall sink_wf (logging_sinks c) -> Forall (domain_wf c) ds ->
  creates (initialize_domain_objects alloc_ok sizeof_Sink sizeof_Assignment c ds) (Forall2 shown ds).
Proof.
  intros Hs. induction 1 as [|d ds Hd _ IH]; simpl; [by apply creates_ret|].
  eapply creates_bind; [by apply creates_object|]. intros o Ho. eapply creates_bind; [exact IH|]. intros os Hos.
  apply creates_ret. by constructor.
Qed.

Lemma creates_current i n : creates (allocate_current alloc_ok i n) (fun l => l = seq i n).
Proof.
  revert i. induction n as [|n IH]; intros i; simpl; [by apply creates_ret|].
  eapply creates_bind; [by apply (creates_allocate (fun _ => True))|]. intros ok _. destruct (negb ok); [apply creates_diagnosed|].
  eapply creates_bind; [apply IH|]. intros l ->. by apply creates_ret.
Qed.

(** ** The objects of a configuration *)

Definition system_of (c : FacetSystemConfig) (os : list DomainConfigObject) : SystemConfig :=
  mkSystem c (root_index c) os (seq 0 (length (domains c))).

(** After a failure nothing of the objects is left. *)
Record withdrawn (s s' : St) : Prop := {
  wd_live : live (cf_world s') = live (cf_world s);
  wd_system : configured_system s' = zero_system;
  wd_initialized : configured_system_initialized s' = configured_system_initialized s;
  wd_diagnostic : described (cf_diagnostic s) (cf_diagnostic s')
}.

Lemma unexport_fresh (os : list DomainConfigObject) (s : St) ds : Forall2 shown ds os -> unexport_objects os s = (Ok tt, s).
Proof.
  intros Hos. induction Hos as [|d o ds os Ho _ IH]; [done|]. simpl. destruct Ho as [_ _ _ _ _ _ _ [= -> -> ->]].
  unfold fbind, handle_release. simpl. exact IH.
Qed.

(** The clean up of a failed creation. *)
Lemma awp_cleanup (s : St) os ds (E : FacetResult -> St -> Prop) :
  sys_domains (configured_system s) = os -> Forall2 shown ds os ->
  E FACET_ERROR (set_system_config zero_system s) ->
  awp (fbind (dominit0_config_objects_destroy : Eff St unit) (fun _ => ferr FACET_ERROR : Eff St unit)) s (fun _ _ => False) E.
Proof.
  intros Hs Hos HE. apply awp_bind. unfold dominit0_config_objects_destroy. apply awp_bind, awp_get. rewrite Hs.
  apply awp_bind. unfold awp at 1. rewrite (unexport_fresh _ _ _ Hos). by apply awp_put.
Qed.

Lemma objects_init_shown (c : FacetSystemConfig) (s : St) :
  config_wf c ->
  awp (dominit0_config_objects_init alloc_ok sizeof_Sink sizeof_Assignment sizeof_object c) s
    (fun _ s' => live (cf_world s') = live (cf_world s) /\ configured_system_initialized s' = configured_system_initialized s /\
       cf_diagnostic s' = cf_diagnostic s /\
       exists os, configured_system s' = system_of c os /\ Forall2 shown (domains c) os)
    (fun _ s' => withdrawn s s').
Proof.
  intros W. destruct W. destruct wf_root_domain as (d0 & Hd0 & _). unfold dominit0_config_objects_init.
  destruct (Nat.eqb_spec (length (domains c)) 0) as [E|_]; [by rewrite (nil_length_inv _ E) in Hd0|].
  apply awp_bind, awp_put. set (s1 := set_system_config zero_system s).
  assert (Hfail : forall s2, failing s1 s2 -> withdrawn s s2) by (intros s2 []; by split).
  destruct (_ <? _); [eapply awp_mono; [apply (creates_diagnosed _ _ (fun _ => False))|by intros ? ? []|auto]|].
  apply awp_bind. eapply awp_mono; [by apply (creates_allocate (fun _ => True))| |intros code s2 F2; by apply Hfail].
  intros ok s2 [L2 _]. destruct (negb ok).
  { eapply awp_mono; [apply (creates_diagnosed _ _ (fun _ => False))|by intros ? ? []|].
    intros code s3 F3. apply Hfail. by eapply along_failing. }
  apply awp_bind, awp_put. set (s3 := set_system_config _ s2). apply awp_try.
  assert (Hclean : forall s4 os ds, sys_domains (configured_system s4) = os -> Forall2 shown ds os -> live (cf_world s4) = live (cf_world s3) ->
    configured_system_initialized s4 = configured_system_initialized s3 -> described (cf_diagnostic s3) (cf_diagnostic s4) ->
    awp (fbind dominit0_config_objects_destroy (fun _ => ferr FACET_ERROR)) s4
      (fun (_ : unit) s' => live (cf_world s') = live (cf_world s) /\ configured_system_initialized s' = configured_system_initialized s /\
         cf_diagnostic s' = cf_diagnostic s /\ exists os, configured_system s' = system_of c os /\ Forall2 shown (domains c) os)
      (fun _ s' => withdrawn s s')).
  { intros s4 os ds Hs Hos Hl Hi Hd. assert (Wd : withdrawn s (set_system_config zero_system s4)).
    { destruct L2 as [A1 _ _ A4 A5]. simpl in *. split; simpl; [congruence|done|congruence|]. by rewrite A5 in Hd. }
    eapply awp_mono; [by eapply (awp_cleanup s4 os ds (fun _ s' => withdrawn s s'))|done|done]. }
  apply awp_bind. eapply awp_mono; [by apply creates_objects| |].
  2: { intros code s4 [F1 F2 F3 F4 F5]. apply (Hclean s4 [] []); try done. by rewrite F3. }
  intros os s4 [L4 Hos]. apply awp_bind, awp_put. set (s5 := set_system_config _ s4).
  assert (Hdesc : forall s6, failing s5 s6 -> awp (fbind dominit0_config_objects_destroy (fun _ => ferr FACET_ERROR)) s6
      (fun (_ : unit) s' => live (cf_world s') = live (cf_world s) /\ configured_system_initialized s' = configured_system_initialized s /\
         cf_diagnostic s' = cf_diagnostic s /\ exists os, configured_system s' = system_of c os /\ Forall2 shown (domains c) os)
      (fun _ s' => withdrawn s s')).
  { intros s6 [F1 F2 F3 F4 F5]. destruct L4 as [A1 A2 A3 A4 A5]. apply (Hclean s6 os (domains c)); [by rewrite F3|done|simpl in *; congruence..|].
    simpl in F5. by rewrite A5 in F5. }
  apply awp_bind. eapply awp_mono; [by apply (creates_allocate (fun _ => True))| |intros code s6 F6; by apply Hdesc].
  intros ok' s6 [L6 _]. destruct (negb ok').
  { eapply awp_mono; [apply (creates_diagnosed _ _ (fun _ => False))|by intros ? ? []|].
    intros code s7 F7. apply Hdesc. by eapply along_failing. }
  apply awp_bind. eapply awp_mono; [apply creates_current| |intros code s7 F7; apply Hdesc; by eapply along_failing].
  intros current s7 [L7 ->]. apply awp_put. simpl.
  clear Hfail Hclean Hdesc. destruct L2, L4, L6, L7. unfold s5, s3, s1 in *. simpl in *.
  split_and!; [unfold set_system_config; simpl; congruence..|]. by exists os.
Qed.

(** The configuration that the parser makes of the document, if there is one, and
    otherwise of the built-in text. *)
Definition read_from (malloc_ok : nat -> bool) (garbage : FacetSystemConfig) (data : bytes) (size : nat) (present : bool)
    (diagnostic : option FacetConfigDiagnostic) (c : FacetSystemConfig) : Prop :=
  if present then fst (facet_config_parse malloc_ok (Some data) size (Some garbage) diagnostic) = (ConfigTypes.Ok tt, Some c)
  else fst (facet_config_make_fallback malloc_ok (Some garbage) diagnostic) = (ConfigTypes.Ok tt, Some c).

Lemma initialize_shown malloc_ok garbage data size present (s : St) :
  bytes_ok data ->
  awp (dominit0_config_initialize alloc_ok sizeof_Sink sizeof_Assignment sizeof_object malloc_ok garbage (Some data) size present) s
    (fun _ s' => configured_system_initialized s = false /\ configured_system_initialized s' = true /\
       live (cf_world s') = live (cf_world s) /\
       exists c os, configured_system s' = system_of c os /\
         read_from malloc_ok garbage data size present (cf_diagnostic s) c /\ config_wf c /\ Forall2 shown (domains c) os)
    (fun _ s' => live (cf_world s') = live (cf_world s) /\
       if configured_system_initialized s then s' = s
       else configured_system_initialized s' = false /\ (configured_system s' = configured_system s \/ configured_system s' = zero_system) /\
            described (cf_diagnostic s) (cf_diagnostic s')).
Proof.
  intros Hdata. unfold dominit0_config_initialize. apply awp_bind, awp_get.
  destruct (configured_system_initialized s) eqn:Ei; [by apply awp_err|]. apply awp_bind, awp_get.
  assert (Hout : outcome_ok (cf_diagnostic s)
    (if present then facet_config_parse malloc_ok (Some data) size (Some garbage) (cf_diagnostic s)
     else facet_config_make_fallback malloc_ok (Some garbage) (cf_diagnostic s))).
  { destruct present; [by apply outcome_parse|]. apply outcome_parse. by_decide. }
  assert (Hread : forall c d', (if present then facet_config_parse malloc_ok (Some data) size (Some garbage) (cf_diagnostic s)
     else facet_config_make_fallback malloc_ok (Some garbage) (cf_diagnostic s)) = (ConfigTypes.Ok tt, Some c, d') ->
    read_from malloc_ok garbage data size present (cf_diagnostic s) c).
  { unfold read_from. intros c d'. destruct present; intros E; rewrite E; reflexivity. }
  destruct (if present then _ else _) as [[r [c|]] d']; [|by destruct r]. destruct r as [[]| |]; [| |done].
  - specialize (Hread _ _ eq_refl). destruct Hout as (Hwf & _ & Hd). apply awp_bind, awp_put, awp_bind.
    eapply awp_mono; [by apply objects_init_shown| |].
    + intros [] s1 (Hl & _ & _ & os & Hs & Hos). apply awp_put. simpl. split_and!; try done. by exists c, os; split_and!.
    + intros code s1 [W1 W2 W3 W4]. simpl in *. split; [done|]. split_and!; [congruence|by right|].
      rewrite Hd in W4. unfold described in *. by destruct (cf_diagnostic s).
  - destruct Hout as [_ Hd]. apply awp_bind, awp_put, awp_err. simpl. split; [done|]. split_and!; [done|by left|].
    unfold described. destruct (cf_diagnostic s); [|done]. destruct Hd as (r & -> & Hr & _). by exists r.
Qed.

(** C21: The configuration that the domains see is the one that was read: for every
    document and every pattern of allocation failures, setting it up never reads an
    absent string or record.  If it succeeds, the system holds the configuration that
    the parser makes of the document, or of the built-in text when no document is
    present; this configuration keeps its contract, and the objects of each domain
    answer the id, the name, the personality, the manager, the first process, the log
    sinks with their levels and the terminals of that domain, in order, each terminal
    with the seat and the name that its reference joins.  If it fails, nothing is kept,
    the failure is described, and a system that was set up before is untouched. *)
Theorem config_initialize_faithful malloc_ok garbage data size present (s : St) :
  bytes_ok data ->
  awp (dominit0_config_initialize alloc_ok sizeof_Sink sizeof_Assignment sizeof_object malloc_ok garbage (Some data) size present) s
    (fun _ s' => configured_system_initialized s = false /\ configured_system_initialized s' = true /\
       live (cf_world s') = live (cf_world s) /\
       exists c os, configured_system s' = system_of c os /\
         read_from malloc_ok garbage data size present (cf_diagnostic s) c /\ config_wf c /\ Forall2 shown (domains c) os)
    (fun _ s' => live (cf_world s') = live (cf_world s) /\
       if configured_system_initialized s then s' = s
       else configured_system_initialized s' = false /\ (configured_system s' = configured_system s \/ configured_system s' = zero_system) /\
            described (cf_diagnostic s) (cf_diagnostic s')).
Proof. apply initialize_shown. Qed.

(** ** Exports *)

Definition handles_of (o : DomainConfigObject) : list Z := [ob_domain_handle o; ob_logging_handle o; ob_console_handle o].
Definition held (os : list DomainConfigObject) : list Z := concat (map handles_of os).
Definition objects_of (s : St) : list DomainConfigObject := sys_domains (configured_system s).

(** An object is exported with all its interfaces or not at all. *)
Definition uniform (o : DomainConfigObject) : Prop := ob_domain_handle o = 0 -> handles_of o = [0; 0; 0].

(** The table of handles is what it was, plus the exports of the objects. *)
Record accounted (base : gmap Z O) (s : St) : Prop := {
  ac_ok : handles_ok s;
  ac_held : releasable (held (objects_of s)) s;
  ac_new : Forall (fun h => base !! h = None) (present (held (objects_of s)));
  ac_rest : forall h, h ∉ present (held (objects_of s)) -> live (cf_world s) !! h = base !! h;
  ac_uniform : Forall uniform (objects_of s);
  ac_base : forall h, is_Some (base !! h) -> h < next_fresh (cf_world s);
  ac_domain : forall j o, objects_of s !! j = Some o -> ob_domain_handle o <> 0 ->
    live (cf_world s) !! ob_domain_handle o = Some (domain_object j)
}.

Lemma held_bound i f os o d l c :
  os !! i = Some o -> handles_of o = [0; 0; 0] -> handles_of (f o) = [d; l; c] -> d <> 0 -> l <> 0 -> c <> 0 ->
  present (held (alter f i os)) ≡ₚ d :: l :: c :: present (held os).
Proof.
  intros Ho Hz Hf Hd Hl Hc. revert i Ho. induction os as [|x os IH]; intros [|i] Ho; simplify_eq/=.
  - change (held (f o :: os)) with (handles_of (f o) ++ held os). change (held (o :: os)) with (handles_of o ++ held os).
    rewrite Hf, Hz. unfold present. rewrite !filter_app. rewrite !(filter_cons_True _ _ [_; _]), (filter_cons_True _ _ [_]), (filter_cons_True _ _ []) by done.
    by rewrite !(filter_cons_False _ 0) by (by intros []).
  - change (held (x :: alter f i os)) with (handles_of x ++ held (alter f i os)). change (held (x :: os)) with (handles_of x ++ held os).
    unfold present in *. rewrite !filter_app, (IH i Ho). solve_Permutation.
Qed.

Abbreviation export_object := (export_object alloc_ok domain_object logging_object console_object).

(** The three exports of an object, or none. *)
Lemma export_object_cases i (s : St) :
  handles_ok s ->
  let n := next_fresh (cf_world s) in
  exists w, n <= next_fresh w /\
    ((export_object i s = (Err FACET_ERROR, set_world w s) /\ live w = live (cf_world s)) \/
     (export_object i s = (Ok tt, change_object i (bind_handles (n + 2) n (n + 1)) (set_world w s)) /\ next_fresh w = n + 3 /\
      live w = <[n + 2 := domain_object i]> (<[n + 1 := console_object i]> (<[n := logging_object i]> (live (cf_world s)))))).
Proof.
  intros [Hn Hl] n. assert (Hout : forall k, n <= k -> live (cf_world s) !! k = None).
  { intros k Hk. destruct (live (cf_world s) !! k) as [o|] eqn:E; [|done]. apply Hl in E. simpl in E. lia. }
  assert (Hz : (n =? 0) = false /\ (n + 1 =? 0) = false /\ (n + 1 + 1 =? 0) = false) by (simpl in Hn; unfold n; lia).
  destruct Hz as (Z0 & Z1 & Z2).
  unfold ConfigObjects.export_object, ftry, export_interface, fbind, allocate, ask, handle_of_object. simpl. fold n.
  destruct (alloc_ok _); simpl; [|by exists (mkWorld (live (cf_world s)) n (S (steps (cf_world s)))); split; [simpl; lia|left]].
  destruct (alloc_ok _); simpl.
  2: { unfold handle_release, fbind, object_of. rewrite Z0. simpl. rewrite lookup_insert_eq. simpl. eexists. split; [|left; split; [done|]]; simpl; [lia|].
       by rewrite delete_insert_id by (by apply Hout). }
  destruct (alloc_ok _); simpl.
  2: { unfold handle_release, fbind, object_of. rewrite Z1. simpl. rewrite lookup_insert_eq. simpl. rewrite Z0. simpl.
       rewrite delete_insert_id by (rewrite lookup_insert_ne by lia; apply Hout; lia). rewrite lookup_insert_eq. simpl.
       eexists. split; [|left; split; [done|]]; simpl; [lia|]. by rewrite delete_insert_id by (by apply Hout). }
  unfold dominit0_domain_config_bind_handles. rewrite Z0, Z1, Z2. simpl. replace (n + 1 + 1) with (n + 2) by lia.
  eexists. split; [|right; split; [done|split; [|done]]]; simpl; lia.
Qed.

Lemma accounted_world base s w :
  accounted base s -> live w = live (cf_world s) -> next_fresh (cf_world s) <= next_fresh w -> accounted base (set_world w s).
Proof.
  intros [[Hn Hl] [Hh Hd] N R U Hb Hdom] E Hw. simpl in *. split; try done; unfold handles_ok, releasable; simpl; rewrite ?E; try done.
  - split; [lia|]. intros h o Ho. apply Hl in Ho. lia.
  - intros h Hs. apply Hb in Hs. lia.
Qed.

Lemma accounted_exported base s w i o :
  accounted base s -> objects_of s !! i = Some o -> ob_domain_handle o = 0 ->
  let n := next_fresh (cf_world s) in next_fresh w = n + 3 ->
  live w = <[n + 2 := domain_object i]> (<[n + 1 := console_object i]> (<[n := logging_object i]> (live (cf_world s)))) ->
  accounted base (change_object i (bind_handles (n + 2) n (n + 1)) (set_world w s)).
Proof.
  intros [[Hn Hl] [Hh Hd] N R U Hb Hdom] Ho Hz n Hw Hlw. simpl in Hn, Hl, Hh. fold n in Hn, Hl.
  set (f := bind_handles (n + 2) n (n + 1)). set (s' := change_object i f (set_world w s)).
  assert (Hobj : objects_of s' = alter f i (objects_of s)) by done.
  assert (Hu : uniform o) by (rewrite Forall_lookup in U; by eapply U).
  pose proof (held_bound i f (objects_of s) o (n + 2) n (n + 1) Ho (Hu Hz) eq_refl ltac:(lia) ltac:(lia) ltac:(lia)) as Hp.
  rewrite <- Hobj in Hp.
  assert (Hout : forall k, n <= k -> live (cf_world s) !! k = None).
  { intros k Hk. destruct (live (cf_world s) !! k) as [x|] eqn:E; [|done]. apply Hl in E. lia. }
  assert (Hlow : forall h, h ∈ present (held (objects_of s)) -> h < n).
  { intros h Hin. rewrite Forall_forall in Hh. destruct (Hh h Hin) as [x Hx]. apply Hl in Hx. lia. }
  assert (Hkeep : forall h, h < n -> live w !! h = live (cf_world s) !! h).
  { intros h Hh'. rewrite Hlw, !lookup_insert_ne by lia. done. }
  split.
  - split; simpl; [lia|]. intros h x Hx. rewrite Hlw in Hx.
    apply lookup_insert_Some in Hx as [[<- _]|[_ [[<- _]|[_ [[<- _]|[_ Hx]]%lookup_insert_Some]]%lookup_insert_Some]]; [lia..|].
    apply Hl in Hx. lia.
  - split; simpl; rewrite Hp.
    + repeat constructor.
      * rewrite Hlw. by rewrite lookup_insert_eq.
      * rewrite Hlw, !lookup_insert_ne by lia. by rewrite lookup_insert_eq.
      * rewrite Hlw, lookup_insert_ne by lia. by rewrite lookup_insert_eq.
      * apply Forall_forall. intros h Hin. rewrite Hkeep by (by apply Hlow). rewrite Forall_forall in Hh. by apply Hh.
    + assert (Hni : forall k, n <= k -> k ∉ present (held (objects_of s))) by (intros k Hk Hin; apply Hlow in Hin; lia).
      repeat (apply NoDup_cons; split; [rewrite ?elem_of_cons; intros Hin; destruct_or?; try lia; eapply Hni; [|eassumption]; lia|]). done.
  - rewrite Hp. repeat (apply Forall_cons; split; [destruct (base !! _) eqn:E; [assert (is_Some (base !! _)) as Hs by (by rewrite E); apply Hb in Hs; fold n in Hs; lia|done]|]). done.
  - intros h Hh'. rewrite Hp, !elem_of_cons in Hh'. simpl. rewrite Hlw, !lookup_insert_ne by naive_solver. apply R. naive_solver.
  - rewrite Hobj. apply Forall_lookup. intros j x Hx. destruct (decide (i = j)) as [<-|Hne].
    + rewrite list_lookup_alter_eq, Ho in Hx. simpl in Hx. injection Hx as <-. intros Hz'. simpl in Hz'. lia.
    + rewrite list_lookup_alter_ne in Hx by done. rewrite Forall_lookup in U. by eapply U.
  - intros h Hs. apply Hb in Hs. simpl. fold n in Hs. lia.
  - intros j x. rewrite Hobj. cbn [cf_world change_object set_system_config]. destruct (decide (i = j)) as [<-|Hne].
    + rewrite list_lookup_alter_eq, Ho. intros [= <-] _. simpl. by rewrite Hlw, lookup_insert_eq.
    + rewrite list_lookup_alter_ne by done. intros Hx Hnz. specialize (Hdom j x Hx Hnz). simpl. rewrite Hkeep; [done|].
      apply Hl in Hdom. lia.
Qed.

Abbreviation export_objects := (export_objects alloc_ok domain_object logging_object console_object).
Abbreviation dominit0_config_export_objects := (dominit0_config_export_objects alloc_ok domain_object logging_object console_object).

(** The exports of the objects from one index on; those before are not touched. *)
Lemma awp_export_objects base l i (s : St) :
  accounted base s -> (forall j o, l !! j = Some o -> objects_of s !! (i + j)%nat = Some o) ->
  awp (export_objects i l) s
    (fun _ s' => accounted base s' /\ length (objects_of s') = length (objects_of s) /\
       (forall j, (j < i)%nat -> objects_of s' !! j = objects_of s !! j) /\
       (forall j o, objects_of s' !! j = Some o -> (i <= j < i + length l)%nat -> ob_domain_handle o <> 0))
    (fun _ s' => accounted base s').
Proof.
  revert i s. induction l as [|x l IH]; intros i s Hs Hl; simpl.
  { split_and!; [done..|]. intros j o _ Hj. lia. }
  assert (Hx : objects_of s !! i = Some x) by (rewrite <- (Nat.add_0_r i); by apply Hl).
  assert (Hrest : forall s1, accounted base s1 -> length (objects_of s1) = length (objects_of s) ->
    (forall j, j <> i -> objects_of s1 !! j = objects_of s !! j) -> (forall o, objects_of s1 !! i = Some o -> ob_domain_handle o <> 0) ->
    awp (export_objects (S i) l) s1
      (fun _ s' => accounted base s' /\ length (objects_of s') = length (objects_of s) /\
         (forall j, (j < i)%nat -> objects_of s' !! j = objects_of s !! j) /\
         (forall j o, objects_of s' !! j = Some o -> (i <= j < i + S (length l))%nat -> ob_domain_handle o <> 0))
      (fun _ s' => accounted base s')).
  { intros s1 A1 N1 K1 I1. eapply awp_mono; [apply IH; [done|]| |done].
    - intros j o Hj. rewrite K1 by lia. replace (S i + j)%nat with (i + S j)%nat by lia. by apply Hl.
    - intros _ s2 (A2 & N2 & K2 & I2). split_and!; [done|congruence| |].
      + intros j Hj. rewrite K2 by lia. apply K1. lia.
      + intros j o Ho Hj. destruct (decide (j = i)) as [->|Hne]; [|apply (I2 j); [done|lia]]. rewrite K2 in Ho by lia. by apply I1. }
  apply awp_bind. destruct (Z.eqb_spec (ob_domain_handle x) 0) as [Hz|Hz]; simpl.
  - destruct (export_object_cases i s (ac_ok _ _ Hs)) as (w & Hw & [[E Hlive]|(E & Hn & Hlive)]); unfold awp at 1; rewrite E.
    + by apply accounted_world.
    + apply Hrest; simpl.
      * by eapply accounted_exported.
      * apply length_alter.
      * intros j Hj. by apply list_lookup_alter_ne.
      * intros o Ho. unfold objects_of in Hx, Ho. simpl in Ho. rewrite list_lookup_alter_eq, Hx in Ho. simpl in Ho. injection Ho as <-. simpl.
        destruct Hs as [[Hp _] _ _ _ _ _ _]. simpl in Hp. lia.
  - apply awp_ret. apply Hrest; try done. intros o Ho. congruence.
Qed.

Lemma unexport_held os (s : St) :
  releasable (held os) s -> exists s', unexport_objects os s = (Ok tt, s') /\ released (held os) s s'.
Proof.
  revert s. induction os as [|o os IH]; intros s Hr; [exists s; by split; [|apply released_nil]|].
  change (held (o :: os)) with (handles_of o ++ held os) in *. unfold handles_of in *. simpl in Hr |- *. unfold fbind.
  destruct (release_one _ _ _ Hr) as (s1 & -> & R1). pose proof (releasable_after _ _ _ _ Hr R1) as H1.
  destruct (release_one _ _ _ H1) as (s2 & -> & R2). pose proof (releasable_after _ _ _ _ H1 R2) as H2.
  destruct (release_one _ _ _ H2) as (s3 & -> & R3). pose proof (releasable_after _ _ _ _ H2 R3) as H3.
  destruct (IH s3 H3) as (s4 & -> & R4). exists s4. split; [done|].
  apply (released_trans [_] _ _ _ _ R1), (released_trans [_] _ _ _ _ R2), (released_trans [_] _ _ _ _ R3), R4.
Qed.

Lemma destroy_restores base (s : St) :
  accounted base s ->
  awp dominit0_config_objects_destroy s (fun _ s' => live (cf_world s') = base /\ configured_system s' = zero_system) (fun _ _ => False).
Proof.
  intros [_ Hh N R _ _ _]. unfold dominit0_config_objects_destroy. apply awp_bind, awp_get, awp_bind.
  destruct (unexport_held _ _ Hh) as (s1 & E & Hr). unfold objects_of in *. unfold awp at 1. rewrite E. apply awp_put. simpl. split; [|done].
  apply map_eq. intros h. pose proof (released_live _ _ _ h Hr) as Hl. simpl in Hl. rewrite Hl.
  rewrite Forall_forall in N. unfold present in *. destruct (decide _) as [[Hz Hin]|Hne].
  - symmetry. apply N. by apply list_elem_of_filter.
  - apply R. by rewrite list_elem_of_filter.
Qed.

Lemma accounted_tries base tries (s : St) :
  accounted base s -> accounted base (Nat.iter tries (fun x => snd (dominit0_config_export_objects x)) s).
Proof.
  intros Hs. induction tries as [|n IH]; [done|]. simpl. set (x := Nat.iter n _ s) in *.
  unfold ConfigObjects.dominit0_config_export_objects, fbind, fget.
  pose proof (awp_export_objects base (objects_of x) 0 x IH (fun j o Hj => Hj)) as Ha. unfold awp, objects_of in Ha.
  destruct (sys_domains (configured_system x)) eqn:E; [done|]. rewrite <- E in *.
  destruct (export_objects 0 _ x) as [[[]|c|] x']; simpl; [apply Ha|exact Ha|done].
Qed.

(** A try that succeeds leaves every object exported. *)
Lemma awp_config_export base (s : St) :
  accounted base s ->
  awp dominit0_config_export_objects s
    (fun _ s' => accounted base s' /\ Forall (fun o => ob_domain_handle o <> 0) (objects_of s')) (fun _ s' => accounted base s').
Proof.
  intros Hs. unfold ConfigObjects.dominit0_config_export_objects. apply awp_bind, awp_get.
  pose proof (awp_export_objects base (objects_of s) 0 s Hs (fun j o Hj => Hj)) as Ha. unfold objects_of in Ha.
  destruct (sys_domains (configured_system s)) eqn:E; [by apply awp_err|]. rewrite <- E in *.
  eapply awp_mono; [exact Ha| |done]. intros _ s' (A' & Hlen & _ & Hall). split; [done|]. apply Forall_lookup. intros j o Ho.
  apply (Hall j); [done|]. apply lookup_lt_Some in Ho. unfold objects_of in Ho, Hlen. rewrite E, Hlen in *. lia.
Qed.

(** Exports of the configuration can be repeated and withdrawn: however often
    exporting has been tried, and whichever of its steps failed, destroying the objects
    succeeds and restores the table of handles; and a try that succeeds leaves every
    object with a handle that denotes it. *)
Theorem config_exports_withdrawn base tries (s : St) :
  accounted base s ->
  let x := Nat.iter tries (fun x => snd (dominit0_config_export_objects x)) s in
  awp dominit0_config_objects_destroy x (fun _ s' => live (cf_world s') = base /\ configured_system s' = zero_system) (fun _ _ => False) /\
  awp dominit0_config_export_objects x
    (fun _ s' => accounted base s' /\
       forall j o, objects_of s' !! j = Some o -> live (cf_world s') !! ob_domain_handle o = Some (domain_object j))
    (fun _ s' => accounted base s').
Proof.
  intros Hs x. pose proof (accounted_tries base tries s Hs) as Hx. fold x in Hx. split; [by apply destroy_restores|].
  eapply awp_mono; [by apply awp_config_export| |done]. intros _ s' [A' Hall]. split; [done|]. intros j o Ho.
  apply (ac_domain _ _ A'); [done|]. by apply (Forall_lookup_1 _ _ _ _ Hall Ho).
Qed.

Lemma present_zeros ds os : Forall2 shown ds os -> present (held os) = [].
Proof.
  intros Hos. induction Hos as [|d o ds os Ho _ IH]; [done|]. change (held (o :: os)) with (handles_of o ++ held os).
  destruct Ho as [_ _ _ _ _ _ _ [= E1 E2 E3]]. unfold handles_of, present in *. rewrite E1, E2, E3, filter_app, IH. done.
Qed.

(** The objects that were just made are accounted for. *)
Lemma shown_accounted ds (s : St) : handles_ok s -> Forall2 shown ds (objects_of s) -> accounted (live (cf_world s)) s.
Proof.
  intros Hs Hos. pose proof (present_zeros _ _ Hos) as Hp. split; unfold releasable; rewrite ?Hp; try done.
  - by repeat constructor.
  - apply Forall_lookup. intros j o Ho _. destruct (Forall2_lookup_r _ _ _ _ _ Hos Ho) as (d & _ & []). unfold handles_of. congruence.
  - intros h [o Ho]. apply Hs in Ho. simpl in Ho. lia.
  - intros j o Ho Hnz. destruct (Forall2_lookup_r _ _ _ _ _ Hos Ho) as (d & _ & []). congruence.
Qed.

End Facts.

(** ** A configuration with one domain *)

Definition always_allocates (n : nat) : bool := true.

Definition fresh_config : ConfigState unit := mkConfigState (mkWorld ∅ 1 0) zero_system false (Some zero_diagnostic).

Abbreviation sample_configured :=
  (dominit0_config_initialize (O := unit) always_allocates 24 64 400 always_allocates zero_config (Some sourceless_document)
    (length sourceless_document) true fresh_config).

Lemma sample_configured_shown : exists ds, Forall2 shown ds (objects_of (snd sample_configured)).
Proof.
  pose proof (initialize_shown always_allocates 24 64 400 always_allocates zero_config sourceless_document
    (length sourceless_document) true fresh_config ltac:(by_decide)) as Hc.
  assert (E : fst sample_configured = Ok tt) by (vm_compute; reflexivity).
  destruct (awp_ok _ _ _ _ tt Hc E) as (_ & _ & _ & c & os & Hs & _ & _ & Hos). exists (domains c). unfold objects_of.
  by rewrite Hs.
Qed.

Lemma config_initialize_faithful_witness :
  fst sample_configured = Ok tt /\
  exists c os, configured_system (snd sample_configured) = system_of c os /\
    read_from always_allocates zero_config sourceless_document (length sourceless_document) true (Some zero_diagnostic) c /\
    config_wf c /\ Forall2 shown (domains c) os /\
    map get_domain_name os = [literal (B "d")] /\ map get_assignment_count os = [1].
Proof.
  assert (E : fst sample_configured = Ok tt) by (vm_compute; reflexivity). split; [exact E|].
  assert (N : map get_domain_name (sys_domains (configured_system (snd sample_configured))) = [literal (B "d")]) by (vm_compute; reflexivity).
  assert (C : map get_assignment_count (sys_domains (configured_system (snd sample_configured))) = [1]) by (vm_compute; reflexivity).
  pose proof (config_initialize_faithful always_allocates 24 64 400 always_allocates zero_config sourceless_document
    (length sourceless_document) true fresh_config ltac:(by_decide)) as Hc.
  destruct (awp_ok _ _ _ _ tt Hc E) as (_ & _ & _ & c & os & Hs & Hread & Hw & Hos). exists c, os.
  rewrite Hs in N, C. split_and!; assumption.
Defined.

Lemma config_exports_withdrawn_witness :
  let object (i : nat) := tt in
  let failing n := negb (n =? 14)%nat in
  let x := Nat.iter 2 (fun x => snd (dominit0_config_export_objects failing object object object x)) (snd sample_configured) in
  awp dominit0_config_objects_destroy x (fun _ s' => live (cf_world s') = ∅ /\ configured_system s' = zero_system) (fun _ _ => False).
Proof.
  intros object failing.
  assert (Hl : live (cf_world (snd sample_configured)) = ∅) by (vm_compute; reflexivity).
  assert (Hn : next_fresh (cf_world (snd sample_configured)) = 1) by (vm_compute; reflexivity).
  destruct sample_configured_shown as (ds & Hos). revert Hl Hn Hos. generalize (snd sample_configured). intros s Hl Hn Hos x.
  refine (proj1 (config_exports_withdrawn failing object object object ∅ 2 s _)).
  rewrite <- Hl. apply (shown_accounted object ds); [|exact Hos]. split; simpl; [lia|]. intros h o Ho. by rewrite Hl in Ho.
Defined.
