(* ===== verification/EnvironmentStart.v ===== *)
(** The start of the environments of all domains (environment.c,
    [dominit0_environment_initialize]): the exports of the configuration (ConfigObjects.v)
    come first and stay, whether or not the environments (Environment.v) can be made. *)
From stdpp Require Import gmap.
From S2P Require Import Prelude ConfigTypes ConfigParse ConfigParseFacts Effects Handles HandleFacts Initrd Environment EnvironmentFacts ConfigObjects ConfigObjectsFacts.

(** The configured system and, for each current domain, its environment. *)
Record StartState (O : Type) := mkStart {
  st_config : ConfigState O;
  st_environments : list (option DomainEnvironment)
}.
Arguments mkStart {O}.
Arguments st_config {O}.
Arguments st_environments {O}.

Section EnvironmentStart.
Context {O : Type} (alloc_ok : nat -> bool).
Context (domain_object logging_object console_object : nat -> O).
Context (logger_object process_object environment_object : nat -> O).

Abbreviation St := (StartState O).

Definition on_config {A} (m : Eff (ConfigState O) A) : Eff St A := fun s =>
  match m (st_config s) with (r, c) => (r, mkStart c (st_environments s)) end.

(** The domains as the loop over the environments reads them: the current domain has
    to be there and to have the configuration of the same index, and the handle of
    the configuration is the one that the object has now. *)
Definition current_domain (s : St) (i : nat) (o : DomainConfigObject) : CurrentDomain :=
  let current := current_view o in
  mkCurrent (bool_decide (sys_current (configured_system (st_config s)) !! i = Some i)) (current_config current)
    (current_config_handle current) (default None (st_environments s !! i)).

Definition environments_of (s : St) : EnvState O :=
  mkEnvState (cf_world (st_config s)) (imap (current_domain s) (sys_domains (configured_system (st_config s)))).

Definition on_environments {A} (m : Eff (EnvState O) A) : Eff St A := fun s =>
  match m (environments_of s) with
  | (r, e) => (r, mkStart (set_world (es_world e) (st_config s)) (current_environment <$> es_domains e))
  end.

(** The argument is what [dominit0_config_get_system] returns, null before the
    configuration is set up. *)
Definition dominit0_environment_initialize : Eff St unit :=
  run system <- on_config dominit0_config_get_system;
  match system with
  | None => ferr FACET_ERROR
  | Some x =>
      if (bool_decide (sys_domains x = []) || bool_decide (sys_current x = []))%bool then ferr FACET_ERROR
      else
        ftry (on_config (dominit0_config_export_objects alloc_ok domain_object logging_object console_object))
          (fun _ => on_environments (start_environments alloc_ok logger_object process_object environment_object))
          (ferr FACET_ERROR)
  end.

(** ** Facts *)

Abbreviation accounted := (accounted domain_object).

Lemma awp_on_config {A} (m : Eff (ConfigState O) A) s (Q : A -> St -> Prop) E :
  awp m (st_config s) (fun a c => Q a (mkStart c (st_environments s))) (fun r c => E r (mkStart c (st_environments s))) ->
  awp (on_config m) s Q E.
Proof. unfold awp, on_config. by destruct (m _) as [[a|c|] x]. Qed.

Lemma awp_on_environments {A} (m : Eff (EnvState O) A) s (Q : A -> St -> Prop) E :
  let back e := mkStart (set_world (es_world e) (st_config s)) (current_environment <$> es_domains e) in
  awp m (environments_of s) (fun a e => Q a (back e)) (fun r e => E r (back e)) -> awp (on_environments m) s Q E.
Proof. unfold awp, on_environments. by destruct (m _) as [[a|c|] x]. Qed.

(** The handles of the environments. *)
Definition environment_handles (s : St) : list Z :=
  concat (map (fun e => match e with
    | None => []
    | Some e => [environment_handle e; logger_handle e; process_environment_handle e]
    end) (st_environments s)).

Definition configuration_handles (s : St) : list Z := present (held (objects_of (st_config s))).

(** The environment of the domain with the object [o] is complete. *)
Record equipped (s : St) (i : nat) (o : DomainConfigObject) (e : DomainEnvironment) : Prop := {
  eq_logger : live (cf_world (st_config s)) !! logger_handle e = Some (logger_object i);
  eq_process : live (cf_world (st_config s)) !! process_environment_handle e = Some (process_object i);
  eq_root : live (cf_world (st_config s)) !! environment_handle e = Some (environment_object i);
  eq_config : live (cf_world (st_config s)) !! domain_config_handle e = Some (domain_object i);
  eq_domain : getdomain_id (env_config e) = inl (get_domain_id o);
  eq_empty : extra_bindings e = []
}.

Definition no_environments (s : St) : Prop := Forall (fun e => e = None) (st_environments s).

Lemma environments_none s : no_environments s -> Forall (fun d => current_environment d = None) (es_domains (environments_of s)).
Proof.
  intros Hnone. apply Forall_lookup. intros i d Hd. simpl in Hd. rewrite list_lookup_imap in Hd.
  destruct (_ !! i) as [o|]; [|done]. injection Hd as <-. simpl.
  destruct (st_environments s !! i) as [e|] eqn:E; [|done]. by rewrite (Forall_lookup_1 _ _ _ _ Hnone E).
Qed.

Lemma environment_handles_of w (e : EnvState O) :
  environment_handles (mkStart w (current_environment <$> es_domains e)) = all_handles e.
Proof.
  unfold environment_handles, all_handles. simpl. f_equal. rewrite map_map. by apply map_ext.
Qed.

(** The configuration keeps its exports while the environments come and go. *)
Lemma grown_kept (s0 s : EnvState O) h o :
  table_ok s0 -> grown s0 s -> live (es_world s0) !! h = Some o -> live (es_world s) !! h = Some o.
Proof.
  intros Hok Hg Ho. rewrite (gr_live _ _ Hg); [done|]. intros Hin. pose proof (gr_new _ _ Hg) as Hnew.
  rewrite Forall_forall in Hnew. apply Hnew in Hin as [Hr _]. apply Hok in Ho. lia.
Qed.

(** A domain of the result is that of the object, with its environment. *)
Lemma grown_domain s v i d : grown (environments_of s) v -> es_domains v !! i = Some d ->
  exists o, objects_of (st_config s) !! i = Some o /\ current_config_handle d = ob_domain_handle o /\
    getdomain_id (current_config d) = inl (get_domain_id o).
Proof.
  intros Hg Hd. pose proof (f_equal (fun l => l !! i) (gr_domains _ _ Hg)) as Hi. simpl in Hi.
  rewrite !list_lookup_fmap, Hd, list_lookup_imap in Hi. unfold objects_of.
  destruct (_ !! i) as [o|] eqn:Eo in Hi; [|done]. exists o. rewrite Eo. split; [done|].
  destruct d. simpl in *. by simplify_eq.
Qed.

Lemma started_equipped base s v : accounted base (st_config s) -> Forall (fun o => ob_domain_handle o <> 0) (objects_of (st_config s)) ->
  grown (environments_of s) v -> (forall i, (i < length (es_domains (environments_of s)))%nat -> has_environment logger_object process_object environment_object v i) ->
  let s' := mkStart (set_world (es_world v) (st_config s)) (current_environment <$> es_domains v) in
  forall i o, objects_of (st_config s') !! i = Some o ->
    exists e, st_environments s' !! i = Some (Some e) /\ equipped s' i o e.
Proof.
  intros Ha Hout Hg Hall s' i o Ho. change (objects_of (st_config s')) with (objects_of (st_config s)) in Ho.
  destruct (Hall i) as (d & e & Hd & He & H1 & H2 & H3 & Hx & Hc & Hv).
  { simpl. rewrite length_imap. by eapply lookup_lt_Some. }
  exists e. simpl. rewrite list_lookup_fmap, Hd. simpl. rewrite He. split; [done|].
  destruct (grown_domain _ _ _ _ Hg Hd) as (o' & Ho' & Hh & Hid). rewrite Ho in Ho'. injection Ho' as <-.
  split; simpl; try done; [|by rewrite Hv]. rewrite Hc, Hh. apply (grown_kept (environments_of s)); [apply (ac_ok _ _ _ Ha)|done|].
  apply (ac_domain _ _ _ Ha); [done|]. by apply (Forall_lookup_1 _ _ _ _ Hout Ho).
Qed.

(** The handles of the environments are new, and there are no others. *)
Lemma started_accounted base s v : accounted base (st_config s) -> grown (environments_of s) v ->
  let s' := mkStart (set_world (es_world v) (st_config s)) (current_environment <$> es_domains v) in
  NoDup (configuration_handles s' ++ environment_handles s') /\
  forall h, h ∉ configuration_handles s' ++ environment_handles s' -> live (cf_world (st_config s')) !! h = base !! h.
Proof.
  intros Ha Hg s'. unfold s'. rewrite environment_handles_of. unfold configuration_handles.
  change (objects_of _) with (objects_of (st_config s)). pose proof (gr_new _ _ Hg) as Hnew. rewrite Forall_forall in Hnew.
  pose proof (ac_held _ _ _ Ha) as [Hlive Hnd]. split.
  - apply NoDup_app. split_and!; [exact Hnd| |exact (gr_once _ _ Hg)]. intros h Hh Hin. apply Hnew in Hin as [Hr _].
    rewrite Forall_forall in Hlive. destruct (Hlive h Hh) as [x Hx]. apply (ac_ok _ _ _ Ha) in Hx. simpl in *. lia.
  - intros h Hh. rewrite elem_of_app in Hh. cbn [st_config]. change (cf_world _) with (es_world v).
    rewrite (gr_live _ _ Hg) by tauto. apply (ac_rest _ _ _ Ha). tauto.
Qed.

(** C34: Setting up the environments of the domains on seL4, from a state without
    environments in which the configuration objects record their exports, all three
    interfaces or none.  The interfaces of every configuration object that is not exported yet are exported first.  If all
    succeeds, every domain has an environment whose logger, process environment and
    root are exported under handles of their own, which has no bindings yet, answers
    the id of its own domain and holds the handle of its own configuration object; and
    nothing is exported besides these and the objects of the configuration.  If a step
    fails, no environment is left and every export of an environment is withdrawn,
    while the exports of the configuration stay: the objects record each of them, so
    that destroying the objects afterwards restores the table of handles.  No handle
    is withdrawn that is not exported. *)
Theorem environment_initialize_accounted base s :
  accounted base (st_config s) -> no_environments s ->
  awp dominit0_environment_initialize s
    (fun _ s' =>
       (forall i o, objects_of (st_config s') !! i = Some o -> exists e, st_environments s' !! i = Some (Some e) /\ equipped s' i o e) /\
       NoDup (configuration_handles s' ++ environment_handles s') /\
       forall h, h ∉ configuration_handles s' ++ environment_handles s' -> live (cf_world (st_config s')) !! h = base !! h)
    (fun _ s' => no_environments s' /\
       (forall h, h ∉ configuration_handles s' -> live (cf_world (st_config s')) !! h = base !! h) /\
       awp dominit0_config_objects_destroy (st_config s') (fun _ c => live (cf_world c) = base) (fun _ _ => False)).
Proof.
  intros Ha Hnone.
  assert (Hfail : forall s', no_environments s' -> accounted base (st_config s') -> no_environments s' /\
    (forall h, h ∉ configuration_handles s' -> live (cf_world (st_config s')) !! h = base !! h) /\
    awp dominit0_config_objects_destroy (st_config s') (fun _ c => live (cf_world c) = base) (fun _ _ => False)).
  { intros s' Hs' Ha'. split_and!; [done|apply (ac_rest _ _ _ Ha')|].
    eapply awp_mono; [by apply (destroy_restores domain_object base)| |done]. by intros ? ? []. }
  unfold dominit0_environment_initialize. apply awp_bind, awp_on_config, awp_get. destruct s as [c envs]. cbn [st_config st_environments] in *.
  destruct (configured_system_initialized c); [|by apply awp_err, Hfail].
  destruct (_ || _)%bool; [by apply awp_err, Hfail|]. apply awp_try, awp_on_config. cbn [st_config st_environments].
  eapply awp_mono; [by apply awp_config_export| |by intros; apply awp_err, Hfail].
  intros _ c1 [Ha1 Hout]. apply awp_on_environments. set (s1 := mkStart c1 envs).
  eapply awp_mono; [apply (awp_start_environments _ _ _ _ (environments_of s1)); [apply (ac_ok _ _ _ Ha1)|by apply environments_none]| |].
  - intros _ v [Hg Hall]. split; [by eapply started_equipped|by apply started_accounted].
  - intros ? v (Hn & Hl & Hv). apply Hfail; [by apply Forall_fmap|]. by apply accounted_world.
Qed.

End EnvironmentStart.

(** ** The environment of the sample configuration *)

Definition only_object (i : nat) : unit := tt.
Abbreviation sample_start := (mkStart (snd sample_configured) []).
Abbreviation sample_initialize :=
  (dominit0_environment_initialize always_allocates only_object only_object only_object only_object only_object only_object).

Lemma sample_start_accounted : accounted only_object ∅ (st_config sample_start).
Proof.
  assert (Hl : live (cf_world (snd sample_configured)) = ∅) by (vm_compute; reflexivity).
  assert (Hn : next_fresh (cf_world (snd sample_configured)) = 1) by (vm_compute; reflexivity).
  destruct sample_configured_shown as (ds & Hos). revert Hl Hn Hos. cbn [st_config]. generalize (snd sample_configured).
  intros s Hl Hn Hos. rewrite <- Hl. apply (shown_accounted only_object ds); [|exact Hos]. split; simpl; [lia|].
  intros h o Ho. by rewrite Hl in Ho.
Qed.

Lemma environment_initialize_accounted_witness :
  fst (sample_initialize sample_start) = Ok tt /\
  forall o, objects_of (st_config (snd (sample_initialize sample_start))) !! 0%nat = Some o ->
    exists e, st_environments (snd (sample_initialize sample_start)) !! 0%nat = Some (Some e) /\
      equipped only_object only_object only_object only_object (snd (sample_initialize sample_start)) 0 o e.
Proof.
  assert (E : fst (sample_initialize sample_start) = Ok tt) by (vm_compute; reflexivity). split; [exact E|].
  pose proof (environment_initialize_accounted always_allocates only_object only_object only_object only_object only_object only_object
    ∅ sample_start sample_start_accounted (Forall_nil_2 _)) as H.
  destruct (awp_ok _ _ _ _ tt H E) as (Hall & _). exact (Hall 0%nat).
Defined.
