(* ===== verification/DomainManager.v ===== *)
(** The manager of a domain (src/src/dominit/main.c): the first process of the domain,
    from its configuration to the request to launch, and the POSIX policy it publishes.

    The environment of the domain, its configuration, its console and its process
    manager are objects of dominit0 ([DomainServices]); what a launch answers is an
    oracle on the number of the request.  The requests are recorded.  Log messages and
    the registration of interfaces are left out. *)
From stdpp Require Import gmap.
From S2P Require Import Prelude Klog Logging Effects Handles Environment Posix ConfigObjects.
#[local] Open Scope facet_scope.

Record LaunchRequest := mkRequest {
  lr_path : bytes;
  lr_arguments : list bytes;
  lr_terminal : Z;
  lr_root : bytes
}.

Class DomainServices (O : Type) := {
  environment_getdomain_config : O -> answer O;
  environment_publish_service : O -> bytes -> iid -> FacetResult;
  config_getconsole_config : O -> answer O;
  config_getpid1 : O -> answer FacetString;
  config_getpersonality : O -> answer Z;
  console_getassignment_count : O -> answer Z;
  console_get_assignment : O -> Z -> answer Assignment
}.

Record DomainPosixPolicy := mkPolicy {
  policy_handle : Z;
  backing_root : bytes;
  synthetic_etc : bool
}.

Record ManagerOfDomain (O : Type) := mkDomainManager {
  dm_world : World O;
  dm_requests : list LaunchRequest;
  dm_policy : option DomainPosixPolicy
}.
Arguments mkDomainManager {O}.
Arguments dm_world {O}.
Arguments dm_requests {O}.
Arguments dm_policy {O}.

#[global] Instance domain_worldly O : Worldly (ManagerOfDomain O) O := {
  world := dm_world;
  set_world w s := mkDomainManager w (dm_requests s) (dm_policy s)
}.

#[global] Instance domain_worldly_laws O : WorldlyLaws (ManagerOfDomain O) O.
Proof. split; [done..|]. by intros []. Qed.

Definition Personality_Native : Z := 0.
Definition Personality_Posix : Z := 1.

(** ** The policy *)

Section Policy.
Context (IID_IGenericObject IID_IDomainPosixPolicy : iid).

Definition policy_get_interface (p : DomainPosixPolicy) (i : iid) : FacetResult * Z :=
  if (negb (i =b IID_IGenericObject) && negb (i =b IID_IDomainPosixPolicy))%bool then (FACET_NO_INTERFACE, 0)
  else (FACET_OK, policy_handle p).
Definition policy_get_backing_root (p : DomainPosixPolicy) : FacetString := literal (backing_root p).
Definition policy_get_synthetic_etc (p : DomainPosixPolicy) : bool := synthetic_etc p.

End Policy.

Section DomainManager.
Context {O : Type} `{DomainServices O}.
Context (alloc_ok proxy_ok : nat -> bool) (launch_initial : nat -> LaunchRequest -> answer O).
Context (policy_object : O) (IID_IDomainPosixPolicy : iid).

Abbreviation St := (ManagerOfDomain O).
Abbreviation Dom := (Eff St).

Definition call {A} (r : answer A) : Dom A := match r with inl a => fret a | inr code => ferr code end.
Definition call_handle (r : answer O) : Dom Z := run o <- call r; handle_of_object o.

(** The bytes of a string that has been received; none if it has no data. *)
Definition string_bytes (s : FacetString) : bytes :=
  match fs_data s with Some b => firstn (fs_length s) b | None => [] end.

(** ** What the configuration says *)

(** A call on the console configuration of the domain. *)
Definition with_config {A} (environment : O) (use : O -> Dom A) : Dom A :=
  run handle <- ftry (call_handle (environment_getdomain_config environment)) fret (ferr FACET_INVALID_HANDLE);
  owned_proxy proxy_ok handle use.

Definition console_of (environment : O) : Dom Z :=
  with_config environment (fun config => call_handle (config_getconsole_config config)).

Definition configured_initial_process (environment : O) (index : Z) : Dom (bytes * bool) :=
  run handle <- console_of environment;
  run found <- owned_proxy proxy_ok handle (fun console =>
    run count <- call (console_getassignment_count console);
    if index <? count then run a <- call (console_get_assignment console index); fret (Some a) else fret None);
  match found with
  | None => ferr FACET_NOT_FOUND
  | Some a =>
      let path := string_bytes (as_initial_process a) in
      if (bool_decide (fs_data (as_initial_process a) = None) || (fs_length (as_initial_process a) =? 0)%nat)%bool
      then ferr FACET_NOT_FOUND
      else
        run ok <- allocate alloc_ok;
        if negb ok then ferr FACET_OUT_OF_MEMORY else fret (path, string_bytes (as_view a) =b B "posix")
  end.

Definition configured_assignment_count (environment : O) : Dom Z :=
  ftry (run handle <- console_of environment;
        owned_proxy proxy_ok handle (fun console => call (console_getassignment_count console)))
    fret (fret 0).

Definition configured_pid1 (environment : O) : Dom bytes :=
  run handle <- ftry (call_handle (environment_getdomain_config environment)) fret (ferr FACET_INVALID_HANDLE);
  ftry (owned_proxy proxy_ok handle (fun config => call (config_getpid1 config)))
    (fun path => if (bool_decide (fs_data path = None) || (fs_length path =? 0)%nat)%bool then ferr FACET_NOT_FOUND
                 else fret (string_bytes path))
    (ferr FACET_NOT_FOUND).

(** The personality is native unless the configuration answers. *)
Definition configured_personality (environment : O) : Dom Z :=
  ftry (with_config environment (fun config => call (config_getpersonality config))) fret (fret Personality_Native).

Definition posix_root (personality : Z) : bytes := if personality =? Personality_Native then B "/posix" else B "/".

Definition publish_posix_policy (environment : O) (personality : Z) : Dom unit :=
  run handle <- ftry (export_interface alloc_ok policy_object) fret (ferr FACET_OUT_OF_MEMORY);
  fput (fun s => mkDomainManager (dm_world s) (dm_requests s)
    (Some (mkPolicy handle (posix_root personality) (personality =? Personality_Native)))) ;;
  match environment_publish_service environment (B "posix.policy") IID_IDomainPosixPolicy with
  | FACET_OK => fret tt
  | code => handle_release handle ;; ferr code
  end.

(** ** Launches *)

(** A request, and the release of the process that it answers with. *)
Definition request (r : LaunchRequest) : Dom unit :=
  run n <- fget (fun s => length (dm_requests s));
  fput (fun s => mkDomainManager (dm_world s) (dm_requests s ++ [r]) (dm_policy s)) ;;
  match launch_initial n r with
  | inl o => run h <- handle_of_object o; handle_release h
  | inr _ => fret tt
  end.

Definition index_text (index : Z) : bytes := rev (decimal_digits 24 index).

(** One configured terminal; a failure skips it. *)
Definition launch_assignment (environment : O) (root : bytes) (index : Z) : Dom unit :=
  ftry (configured_initial_process environment index)
    (fun found =>
       let '(initial, posix_view) := found in
       if (posix_view : bool) then
         run ok <- allocate alloc_ok;
         if negb ok then fret tt
         else request (mkRequest (root ++ initial) [initial; index_text index] index root)
       else request (mkRequest initial [initial; index_text index] index root))
    (fret tt).

Fixpoint launch_assignments (environment : O) (root : bytes) (index : Z) (n : nat) : Dom unit :=
  match n with
  | 0%nat => fret tt
  | S k => launch_assignment environment root index ;; launch_assignments environment root (index + 1) k
  end.

(** The part of [main] for a domain with a process manager. *)
Definition launch_configured (environment : O) : Dom unit :=
  run personality <- configured_personality environment;
  ftry (publish_posix_policy environment personality) fret (fret tt) ;;
  let root := posix_root personality in
  if personality =? Personality_Posix then
    ftry (configured_pid1 environment) (fun pid1 => request (mkRequest pid1 [pid1] 0 root)) (fret tt)
  else
    run count <- configured_assignment_count environment;
    launch_assignments environment root 0 (Z.to_nat count).

End DomainManager.
