(* ===== verification/DomainManagerFacts.v ===== *)
(** The manager of a domain requests the processes that the configuration names: the
    configuration objects of dominit0 and the manager of a domain put together. *)
From stdpp Require Import gmap.
From S2P Require Import Prelude Utf8 ConfigTypes Klog Logging Effects Handles HandleFacts Environment Posix.
From S2P Require Import ConfigObjects ConfigObjectsFacts DomainManager.

(** ** What the configuration asks for *)

Definition nonempty_process (p : option bytes) : option bytes := match p with Some [] => None | p => p end.

(** The request for the process of a terminal, if it has one. *)
Definition terminal_request (root : bytes) (index : Z) (t : FacetConfigTerminalAssignment) : option LaunchRequest :=
  (fun p => mkRequest (match view t with FACET_CONFIG_TERMINAL_VIEW_POSIX => root ++ p | FACET_CONFIG_TERMINAL_VIEW_NATIVE => p end)
              [p; index_text index] index root) <$> nonempty_process (initial_process t).

Fixpoint terminal_requests (root : bytes) (index : Z) (ts : list FacetConfigTerminalAssignment) : list LaunchRequest :=
  match ts with
  | [] => []
  | t :: rest => option_list (terminal_request root index t) ++ terminal_requests root (index + 1) rest
  end.

(** The requests of a domain that is taken to have a personality. *)
Definition configured_requests (personality : Z) (d : FacetConfigDomain) : list LaunchRequest :=
  let root := posix_root personality in
  if personality =? Personality_Posix
  then option_list ((fun p => mkRequest p [p] 0 root) <$> nonempty_process (pid1 d))
  else terminal_requests root 0 (domain_terminals d).

(** ** The services of a configuration object *)

Inductive ConfigService :=
  | ServesEnvironment (o : DomainConfigObject)
  | ServesConfig (o : DomainConfigObject)
  | ServesConsole (o : DomainConfigObject)
  | ServesOther (name : bytes).

Section Services.
Context (published : bytes -> iid -> FacetResult).

(** A handle that an object answers with gives the service behind it. *)
Definition served (r : FacetResult * Z) (x : ConfigService) : answer ConfigService :=
  match r with (FACET_OK, _) => inl x | (code, _) => inr code end.

Definition config_services : DomainServices ConfigService := {|
  environment_getdomain_config x := match x with
    | ServesEnvironment o => served (return_handle (ob_domain_handle o)) (ServesConfig o)
    | _ => inr FACET_PROTOCOL_ERROR end;
  environment_publish_service x := published;
  config_getconsole_config x := match x with
    | ServesConfig o => served (get_console_config o) (ServesConsole o) | _ => inr FACET_PROTOCOL_ERROR end;
  config_getpid1 x := match x with ServesConfig o => inl (get_pid1 o) | _ => inr FACET_PROTOCOL_ERROR end;
  config_getpersonality x := match x with ServesConfig o => inl (get_personality o) | _ => inr FACET_PROTOCOL_ERROR end;
  console_getassignment_count x := match x with ServesConsole o => inl (get_assignment_count o) | _ => inr FACET_PROTOCOL_ERROR end;
  console_get_assignment x index := match x with ServesConsole o => get_assignment o index | _ => inr FACET_PROTOCOL_ERROR end
|}.
End Services.

Section Manager.
Context (published : bytes -> iid -> FacetResult) (alloc_ok proxy_ok : nat -> bool).
Context (launch_initial : nat -> LaunchRequest -> answer ConfigService) (IID_IDomainPosixPolicy : iid).
#[local] Instance the_services : DomainServices ConfigService := config_services published.

Abbreviation St := (ManagerOfDomain ConfigService).

(** An allocation or a proxy that fails. *)
Definition troubled : Prop := exists n, alloc_ok n = false \/ proxy_ok n = false.

(** Nothing is kept. *)
Record balanced (s s' : St) : Prop := {
  ba_ok : handles_ok s';
  ba_live : live (dm_world s') = live (dm_world s);
  ba_requests : dm_requests s' = dm_requests s;
  ba_policy : dm_policy s' = dm_policy s
}.

(** One handle more. *)
Record borrowing (o : ConfigService) (h : Z) (s s' : St) : Prop := {
  bo_ok : handles_ok s';
  bo_handle : 0 < h;
  bo_new : live (dm_world s) !! h = None;
  bo_live : live (dm_world s') = <[h := o]> (live (dm_world s));
  bo_requests : dm_requests s' = dm_requests s;
  bo_policy : dm_policy s' = dm_policy s
}.

Lemma balanced_refl s : handles_ok s -> balanced s s.
Proof. done. Qed.

Lemma balanced_trans s1 s2 s3 : balanced s1 s2 -> balanced s2 s3 -> balanced s1 s3.
Proof. intros [] []. split; [done|congruence..]. Qed.

Lemma balanced_borrowing o h s1 s2 s3 : balanced s1 s2 -> borrowing o h s2 s3 -> borrowing o h s1 s3.
Proof. intros [? L ? ?] [? ? ? M ? ?]. rewrite L in *. split; [done|done|done|done|congruence..]. Qed.

Lemma awp_fresh o (s : St) (Q : Z -> St -> Prop) E :
  handles_ok s -> (forall h s', borrowing o h s s' -> Q h s') -> awp (handle_of_object o) s Q E.
Proof.
  intros Hs HQ. apply HQ. destruct (later_fresh o s Hs) as [Hok _ _]. pose proof Hs as [Hn Hl]. simpl in *. split; try done.
  destruct (live (dm_world s) !! _) as [x|] eqn:Ex; [|done]. apply Hl in Ex. lia.
Qed.

(** The end of a loan. *)
Lemma borrowing_drop o h s s' : borrowing o h s s' -> balanced s (drop_handle h s').
Proof.
  intros [Hok Hh Hn Hl Hr Hp]. split; simpl; try done.
  - destruct Hok as [Hx Hy]. split; simpl in *; [done|]. intros k x [_ Hk]%lookup_delete_Some. by eapply Hy.
  - by rewrite Hl, delete_insert_id.
Qed.

(** A call through a proxy of a handle that was just received. *)
Lemma awp_owned {A} o h (s0 s : St) (use : ConfigService -> Eff St A) Q E :
  borrowing o h s0 s ->
  (forall s', borrowing o h s0 s' -> awp (use o) s' (fun a s2 => is_Some (live (dm_world s2) !! h) /\ Q a (drop_handle h s2))
     (fun c s2 => is_Some (live (dm_world s2) !! h) /\ E c (drop_handle h s2))) ->
  (forall s', balanced s0 s' -> troubled -> E FACET_INVALID_HANDLE s') ->
  awp (owned_proxy proxy_ok h use) s Q E.
Proof.
  intros Hb Hu He. unfold owned_proxy. rewrite (proj2 (Z.eqb_neq h 0)) by (destruct Hb; lia).
  apply awp_bind. unfold awp at 1, ask. set (s1 := set_world _ s).
  assert (B1 : borrowing o h s0 s1) by (destruct Hb; by split).
  assert (Hlive : live (dm_world s1) !! h = Some o) by (rewrite (bo_live _ _ _ _ B1); apply lookup_insert_eq).
  assert (Hrel : forall x : St, is_Some (live (dm_world x) !! h) -> handle_release h x = (Ok tt, drop_handle h x)).
  { intros x [y Hy]. unfold handle_release. rewrite (proj2 (Z.eqb_neq h 0)) by (destruct Hb; lia). unfold fbind, object_of. simpl. by rewrite Hy. }
  clearbody s1. unfold awp, then_release. destruct (proxy_ok _) eqn:Ep; simpl.
  - specialize (Hu s1 B1). unfold fbind, object_of. simpl. rewrite Hlive. unfold awp in Hu. destruct (use o s1) as [[a|c|] s2]; [| |done].
    + destruct Hu as [Hs HQ]. by rewrite (Hrel s2 Hs).
    + destruct Hu as [Hs HQ]. by rewrite (Hrel s2 Hs).
  - rewrite (Hrel s1) by (by rewrite Hlive). apply He; [by eapply borrowing_drop|]. eexists. by right.
Qed.

(** A call that answers with a value. *)
Lemma awp_owned_call {A} o h (s0 s : St) (f : ConfigService -> answer A) a Q E :
  borrowing o h s0 s -> f o = inl a -> (forall s', balanced s0 s' -> Q a s') ->
  (forall s', balanced s0 s' -> troubled -> E FACET_INVALID_HANDLE s') ->
  awp (owned_proxy proxy_ok h (fun x => call (f x))) s Q E.
Proof.
  intros Hb Hf HQ HE. eapply awp_owned; [exact Hb| |exact HE]. intros s' B'. rewrite Hf. simpl.
  split; [rewrite (bo_live _ _ _ _ B'), lookup_insert_eq; by eexists|]. apply HQ. by eapply borrowing_drop.
Qed.

(** A call that answers with another handle. *)
Lemma awp_owned_handle o h (s0 s : St) (f : ConfigService -> answer ConfigService) o2 (Q : Z -> St -> Prop) E :
  borrowing o h s0 s -> f o = inl o2 -> (forall h2 s', borrowing o2 h2 s0 s' -> Q h2 s') ->
  (forall s', balanced s0 s' -> troubled -> E FACET_INVALID_HANDLE s') ->
  awp (owned_proxy proxy_ok h (fun x => call_handle (f x))) s Q E.
Proof.
  intros Hb Hf HQ HE. eapply awp_owned; [exact Hb| |exact HE]. intros s' B'. rewrite Hf. unfold call_handle. simpl. apply awp_bind, awp_ret.
  apply awp_fresh; [apply B'|]. intros h2 s2 B2. destruct B' as [A1 A2 A3 A4 A5 A6], B2 as [C1 C2 C3 C4 C5 C6]. rewrite A4 in *.
  apply lookup_insert_None in C3 as [C3 Hne]. split; [rewrite C4, lookup_insert_ne, lookup_insert_eq by done; by eexists|].
  apply HQ. split; simpl; try congruence.
  - destruct C1 as [Hx Hy]. split; simpl in *; [done|]. intros k x [_ Hk]%lookup_delete_Some. by eapply Hy.
  - rewrite C4. rewrite delete_insert_ne by done. by rewrite delete_insert_id.
Qed.

(** ** The configuration of one domain, exported *)

Context (d : FacetConfigDomain) (o : DomainConfigObject) (domain_handle logging_handle console_handle : Z).
Context (Hshown : shown d o) (Hdomain : domain_handle <> 0) (Hconsole : console_handle <> 0).

Definition exported : DomainConfigObject := bind_handles domain_handle logging_handle console_handle o.
Abbreviation here := (ServesEnvironment exported).

Abbreviation call_handle := (call_handle (O := ConfigService)).
Abbreviation configured_initial_process := (configured_initial_process alloc_ok proxy_ok here).
Abbreviation request := (request launch_initial).
Abbreviation launch_assignment := (launch_assignment alloc_ok proxy_ok launch_initial here).
Abbreviation launch_assignments := (launch_assignments alloc_ok proxy_ok launch_initial here).

Lemma return_bound h : h <> 0 -> return_handle h = (FACET_OK, h).
Proof. intros Hh. unfold return_handle. by rewrite (proj2 (Z.eqb_neq h 0)). Qed.

Lemma config_answered : environment_getdomain_config here = inl (ServesConfig exported).
Proof. simpl. by rewrite return_bound. Qed.

Lemma console_answered : config_getconsole_config (ServesConfig exported) = inl (ServesConsole exported).
Proof. simpl. unfold get_console_config. simpl. by rewrite return_bound. Qed.

(** The handle of the configuration. *)
Lemma awp_config_handle (s : St) (Q : Z -> St -> Prop) E :
  handles_ok s -> (forall h s', borrowing (ServesConfig exported) h s s' -> Q h s') ->
  awp (ftry (call_handle (environment_getdomain_config here)) fret (ferr FACET_INVALID_HANDLE)) s Q E.
Proof.
  intros Hs HQ. apply awp_try. rewrite config_answered. unfold DomainManager.call_handle. simpl. apply awp_bind, awp_ret.
  by apply awp_fresh.
Qed.

Lemma awp_console_of (s : St) :
  handles_ok s ->
  awp (console_of proxy_ok here) s (fun h s' => borrowing (ServesConsole exported) h s s') (fun _ s' => balanced s s' /\ troubled).
Proof.
  intros Hs. unfold console_of, with_config. apply awp_bind, awp_config_handle; [done|]. intros h s1 B1.
  eapply (awp_owned_handle _ _ _ _ config_getconsole_config); [exact B1|apply console_answered|done|done].
Qed.

Lemma string_bytes_literal p : string_bytes (literal p) = p.
Proof. unfold string_bytes, literal. simpl. apply firstn_all. Qed.

Lemma view_is_posix v : (string_bytes (view_text v) =b B "posix") = match v with FACET_CONFIG_TERMINAL_VIEW_POSIX => true | _ => false end.
Proof. unfold view_text. rewrite string_bytes_literal. by destruct v. Qed.

Lemma count_answered : get_assignment_count exported = zlen (domain_terminals d).
Proof. unfold get_assignment_count, zlen. f_equal. symmetry. exact (Forall2_length _ _ _ (sh_assignments _ _ Hshown)). Qed.

Lemma assignment_answered i t : domain_terminals d !! i = Some t -> exists a, get_assignment exported (Z.of_nat i) = inl a /\ assignment_shown t a.
Proof.
  intros Ht. destruct (Forall2_lookup_l _ _ _ _ _ (sh_assignments _ _ Hshown) Ht) as (a & Ha & Hs). exists a. split; [|done].
  unfold get_assignment. rewrite Nat2Z.id. simpl. unfold get_assignments in Ha. by rewrite Ha.
Qed.

(** The process of a terminal. *)
Lemma awp_initial_process (s : St) i t :
  handles_ok s -> domain_terminals d !! i = Some t ->
  awp (configured_initial_process (Z.of_nat i)) s
    (fun r s' => balanced s s' /\ nonempty_process (initial_process t) = Some (fst r) /\
       snd r = match view t with FACET_CONFIG_TERMINAL_VIEW_POSIX => true | _ => false end)
    (fun _ s' => balanced s s' /\ (troubled \/ nonempty_process (initial_process t) = None)).
Proof.
  intros Hs Ht. unfold DomainManager.configured_initial_process. apply awp_bind.
  eapply awp_mono; [by apply awp_console_of| |intros c s1 []; auto]. intros h s1 B1.
  destruct (assignment_answered i t Ht) as (a & Ha & seat & terminal & _ & _ & _ & Hview & Hproc).
  apply awp_bind. eapply (awp_owned (ServesConsole exported)); [exact B1| |intros s' B' T; auto]. intros s2 B2.
  apply awp_bind. simpl. apply awp_ret. rewrite count_answered.
  assert (Hlt : Z.of_nat i < zlen (domain_terminals d)) by (apply lookup_lt_Some in Ht; unfold zlen; lia).
  rewrite (proj2 (Z.ltb_lt _ _) Hlt). apply awp_bind. rewrite Ha. simpl. apply awp_ret, awp_ret.
  split; [rewrite (bo_live _ _ _ _ B2), lookup_insert_eq; by eexists|].
  pose proof (borrowing_drop _ _ _ _ B2) as B3.
  match goal with |- awp _ ?x _ _ => change (balanced s x) in B3; revert B3; generalize x; intros s3 B3 end. rewrite Hproc.
  unfold nonempty_process. destruct (initial_process t) as [p|]; cbn [process_text literal fs_data fs_length].
  2: { rewrite bool_decide_true by done. apply awp_err. by split; [|right]. }
  rewrite bool_decide_false by done. destruct p as [|b p]; cbn [length Nat.eqb orb]; [apply awp_err; by split; [|right]|].
  apply awp_bind. unfold awp at 1, allocate, ask. set (s4 := set_world _ s3).
  assert (B4 : balanced s s4) by (destruct B3; by split). clearbody s4. destruct (alloc_ok _) eqn:Ea; cbn [negb].
  - apply awp_ret. cbn [fst snd]. split; [done|]. split; [|by rewrite Hview, view_is_posix].
    f_equal. symmetry. exact (string_bytes_literal (b :: p)).
  - apply awp_err. split; [done|]. left. eexists. by left.
Qed.

(** Some requests more, and nothing kept. *)
Record requested (l : list LaunchRequest) (s s' : St) : Prop := {
  rq_ok : handles_ok s';
  rq_live : live (dm_world s') = live (dm_world s);
  rq_requests : dm_requests s' = dm_requests s ++ l;
  rq_policy : dm_policy s' = dm_policy s
}.

Lemma requested_none s s' : balanced s s' -> requested [] s s'.
Proof. intros []. split; try done. by rewrite app_nil_r. Qed.

Lemma requested_trans l1 l2 s1 s2 s3 : requested l1 s1 s2 -> requested l2 s2 s3 -> requested (l1 ++ l2) s1 s3.
Proof. intros [? ? E ?] [? ? F ?]. split; try congruence. by rewrite F, E, app_assoc. Qed.

Lemma balanced_requested l s1 s2 s3 : balanced s1 s2 -> requested l s2 s3 -> requested l s1 s3.
Proof. intros B R. apply (requested_trans [] l s1 s2 s3); [by apply requested_none|done]. Qed.

Lemma awp_request r (s : St) : handles_ok s -> awp (request r) s (fun _ s' => requested [r] s s') (fun _ _ => False).
Proof.
  intros Hs. unfold DomainManager.request. apply awp_bind, awp_get, awp_bind, awp_put. set (s1 := mkDomainManager _ _ _).
  assert (H1 : handles_ok s1) by done. destruct (launch_initial _ r) as [x|c]; [|by apply awp_ret].
  apply awp_bind, awp_fresh; [done|]. intros h s2 B2. pose proof (borrowing_drop _ _ _ _ B2) as [D1 D2 D3 D4].
  destruct B2 as [? Hh _ Hl _ _]. unfold handle_release, awp, fbind, object_of. rewrite (proj2 (Z.eqb_neq h 0)) by lia. simpl.
  rewrite Hl, lookup_insert_eq. by split.
Qed.

(** What a step requests of what it should request. *)
Definition requests_part (expected : list LaunchRequest) (s s' : St) : Prop :=
  exists l, requested l s s' /\ l `sublist_of` expected /\ (troubled \/ l = expected).

Lemma requests_all expected s s' : requested expected s s' -> requests_part expected s s'.
Proof. intros R. exists expected. split_and!; [done|done|by right]. Qed.

Lemma requests_none expected s s' : balanced s s' -> troubled \/ expected = [] -> requests_part expected s s'.
Proof. intros B [T| ->]; exists []; (split_and!; [by apply requested_none|apply sublist_nil_l|auto]). Qed.

Lemma awp_launch_assignment (s : St) root i t :
  handles_ok s -> domain_terminals d !! i = Some t ->
  awp (launch_assignment root (Z.of_nat i)) s
    (fun _ s' => requests_part (option_list (terminal_request root (Z.of_nat i) t)) s s') (fun _ _ => False).
Proof.
  intros Hs Ht. unfold DomainManager.launch_assignment. apply awp_try.
  eapply awp_mono; [by apply awp_initial_process| |].
  - intros [p posix] s1 (B1 & Hp & Hv). simpl in Hp, Hv. unfold terminal_request. rewrite Hp. subst posix. simpl.
    destruct (view t).
    + eapply awp_mono; [apply awp_request, B1| |done]. intros ? s2 R2. apply requests_all. by eapply balanced_requested.
    + apply awp_bind. unfold awp at 1, allocate, ask. set (s2 := set_world _ s1).
      assert (B2 : balanced s s2) by (destruct B1; by split). clearbody s2. destruct (alloc_ok _) eqn:Ea; simpl.
      * eapply awp_mono; [apply awp_request, B2| |done]. intros ? s3 R3. apply requests_all. by eapply balanced_requested.
      * apply awp_ret, requests_none; [done|]. left. eexists. by left.
  - intros c s1 [B1 Hn]. apply awp_ret, requests_none; [done|]. destruct Hn as [T|Hn]; [by left|right].
    unfold terminal_request. by rewrite Hn.
Qed.

Lemma awp_launch_assignments (s : St) root ts i :
  handles_ok s -> (forall j t, ts !! j = Some t -> domain_terminals d !! (i + j)%nat = Some t) ->
  awp (launch_assignments root (Z.of_nat i) (length ts)) s
    (fun _ s' => requests_part (terminal_requests root (Z.of_nat i) ts) s s') (fun _ _ => False).
Proof.
  revert s i. induction ts as [|t ts IH]; intros s i Hs Hts; simpl; [by apply awp_ret, requests_none; [|right]|].
  apply awp_bind. eapply awp_mono; [apply awp_launch_assignment; [done|]| |done].
  { rewrite <- (Nat.add_0_r i). by apply Hts. }
  intros ? s1 (l1 & R1 & S1 & T1). replace (Z.of_nat i + 1) with (Z.of_nat (S i)) by lia.
  eapply awp_mono; [apply IH; [apply R1|]| |done].
  - intros j x Hx. replace (S i + j)%nat with (i + S j)%nat by lia. by apply Hts.
  - intros ? s2 (l2 & R2 & S2 & T2). exists (l1 ++ l2). split_and!; [by eapply requested_trans|by apply sublist_app|].
    destruct T1 as [?| ->]; [by left|]. destruct T2 as [?| ->]; [by left|by right].
Qed.

(** ** The whole start of a domain *)

Context (policy_object : ConfigService).

Abbreviation personality_here := (personality_number (personality d)).

Lemma awp_personality (s : St) :
  handles_ok s ->
  awp (configured_personality proxy_ok here) s
    (fun p s' => balanced s s' /\ (p = personality_here \/ (troubled /\ p = Personality_Native))) (fun _ _ => False).
Proof.
  intros Hs. unfold configured_personality, with_config. apply awp_try, awp_bind, awp_config_handle; [done|]. intros h s1 B1.
  eapply (awp_owned_call _ _ _ _ config_getpersonality); [exact B1|done| |].
  - intros s2 B2. apply awp_ret. split; [done|left]. exact (sh_personality _ _ Hshown).
  - intros s2 B2 T. apply awp_ret. split; [done|by right].
Qed.

Lemma awp_pid1 (s : St) :
  handles_ok s ->
  awp (configured_pid1 proxy_ok here) s
    (fun p s' => balanced s s' /\ nonempty_process (pid1 d) = Some p)
    (fun _ s' => balanced s s' /\ (troubled \/ nonempty_process (pid1 d) = None)).
Proof.
  intros Hs. unfold configured_pid1. apply awp_bind, awp_config_handle; [done|]. intros h s1 B1. apply awp_try.
  eapply (awp_owned_call _ _ _ _ config_getpid1); [exact B1|done| |intros s2 B2 T; apply awp_err; auto].
  intros s2 B2. pose proof (sh_pid1 _ _ Hshown) as Hp. change (get_pid1 exported) with (get_pid1 o). rewrite Hp.
  rewrite bool_decide_false by done. cbn [literal fs_length orb].
  destruct (pid1 d) as [[|b p]|]; cbn [default length Nat.eqb nonempty_process].
  - apply awp_err. by split; [|right].
  - apply awp_ret. split; [done|]. f_equal. symmetry. exact (string_bytes_literal (b :: p)).
  - apply awp_err. by split; [|right].
Qed.

Lemma awp_count (s : St) :
  handles_ok s ->
  awp (configured_assignment_count proxy_ok here) s
    (fun n s' => balanced s s' /\ (n = zlen (domain_terminals d) \/ (troubled /\ n = 0))) (fun _ _ => False).
Proof.
  intros Hs. unfold configured_assignment_count. apply awp_try, awp_bind.
  eapply awp_mono; [by apply awp_console_of| |intros c s1 [B1 T]; apply awp_ret; by split; [|right]]. intros h s1 B1.
  eapply (awp_owned_call _ _ _ _ console_getassignment_count); [exact B1|done| |].
  - intros s2 B2. apply awp_ret. split; [done|left]. apply count_answered.
  - intros s2 B2 T. apply awp_ret. split; [done|by right].
Qed.

(** At most the policy is kept. *)
Definition policy_kept (s s' : St) : Prop :=
  live (dm_world s') = live (dm_world s) \/
  exists h, live (dm_world s) !! h = None /\ live (dm_world s') = <[h := policy_object]> (live (dm_world s)).

Lemma awp_policy p (s : St) :
  handles_ok s ->
  awp (ftry (publish_posix_policy alloc_ok policy_object IID_IDomainPosixPolicy here p) fret (fret tt)) s
    (fun _ s' => handles_ok s' /\ dm_requests s' = dm_requests s /\ policy_kept s s') (fun _ _ => False).
Proof.
  intros Hs. apply awp_try. unfold publish_posix_policy. apply awp_bind, awp_try. unfold export_interface. apply awp_bind.
  unfold awp at 1, allocate, ask. set (s1 := set_world _ s). assert (B1 : balanced s s1) by done. clearbody s1.
  destruct (alloc_ok _); cbn [negb]; [|by apply awp_err, awp_err; destruct B1; split_and!; [..|left]].
  apply awp_fresh; [apply B1|]. intros h s2 B2. apply (balanced_borrowing _ _ _ _ _ B1) in B2. apply awp_ret, awp_bind, awp_put.
  set (s3 := mkDomainManager _ _ _).
  assert (Hkept : awp (fbind (handle_release h) (fun _ => ferr FACET_ERROR) : Eff St unit) s3 (fun _ _ => False)
    (fun _ s' => handles_ok s' /\ dm_requests s' = dm_requests s /\ policy_kept s s')).
  { destruct (borrowing_drop _ _ _ _ B2) as [D1 D2 D3 _]. destruct B2 as [_ Hh _ Hl _ _]. unfold awp, handle_release.
    assert (Hlive : live (dm_world s2) !! h = Some policy_object) by (rewrite Hl; apply lookup_insert_eq).
    rewrite (proj2 (Z.eqb_neq h 0)) by lia. unfold fbind, object_of, s3. simpl. rewrite Hlive. split_and!; [done|done|]. by left. }
  simpl. destruct (published _ _).
  1: { apply awp_ret, awp_ret. destruct B2. split_and!; [done|done|]. right. by exists h. }
  all: revert Hkept; unfold awp, fbind; destruct (handle_release h s3) as [[[]|e|] x]; simpl; done.
Qed.

Lemma launches_configured (s : St) :
  handles_ok s ->
  awp (launch_configured alloc_ok proxy_ok launch_initial policy_object IID_IDomainPosixPolicy here) s
    (fun _ s' => exists believed l,
       dm_requests s' = dm_requests s ++ l /\ l `sublist_of` configured_requests believed d /\
       (believed = personality_here \/ believed = Personality_Native) /\
       (troubled \/ (believed = personality_here /\ l = configured_requests believed d)) /\ policy_kept s s')
    (fun _ _ => False).
Proof.
  intros Hs. unfold launch_configured. apply awp_bind. eapply awp_mono; [by apply awp_personality| |done].
  intros believed s1 [B1 Hb]. apply awp_bind. eapply awp_mono; [apply awp_policy, B1| |done]. intros ? s2 (Ok2 & Rq2 & K2).
  destruct B1 as [_ L1 R1 _]. unfold policy_kept in K2. rewrite L1 in K2. rewrite R1 in Rq2.
  assert (Hdone : forall s3, requests_part (configured_requests believed d) s2 s3 -> exists believed l,
       dm_requests s3 = dm_requests s ++ l /\ l `sublist_of` configured_requests believed d /\
       (believed = personality_here \/ believed = Personality_Native) /\
       (troubled \/ (believed = personality_here /\ l = configured_requests believed d)) /\ policy_kept s s3).
  { intros s3 (l & [O3 L3 R3 _] & S3 & T3). exists believed, l. split_and!; [congruence|done|naive_solver|naive_solver|].
    unfold policy_kept. by rewrite L3. }
  destruct (believed =? Personality_Posix) eqn:Ep.
  - apply awp_try. eapply awp_mono; [by apply awp_pid1| |].
    + intros p s3 [B3 Hp]. eapply awp_mono; [apply awp_request, B3| |done]. intros ? s4 R4. apply Hdone.
      unfold configured_requests. rewrite Ep, Hp. apply requests_all. by eapply balanced_requested.
    + intros c s3 [B3 Hp]. apply awp_ret, Hdone, requests_none; [done|]. destruct Hp as [T|Hp]; [by left|right].
      unfold configured_requests. by rewrite Ep, Hp.
  - apply awp_bind. eapply awp_mono; [by apply awp_count| |done]. intros n s3 [B3 Hn].
    destruct Hn as [->|[T ->]]; [|by apply awp_ret, Hdone, requests_none; [|left]].
    unfold zlen. rewrite Nat2Z.id. eapply awp_mono; [apply (awp_launch_assignments _ _ (domain_terminals d) 0); [apply B3|done]| |done].
    intros ? s4 (l & R4 & S4 & T4). apply Hdone. unfold configured_requests. rewrite Ep. exists l. split_and!; [by eapply balanced_requested|done|done].
Qed.

End Manager.

(** C20: A domain starts what its configuration names: when the manager of a domain
    reads the objects of the domain, it never faults, and it requests exactly the
    configured processes, in order, each with its path, its arguments, its terminal and
    its root, as long as no allocation and no proxy fails: the first process of a POSIX
    domain, or the process of every terminal that has one.  With failures it still
    requests nothing else than what the configuration names for the personality of the
    domain or, when that could not be read, for a native domain.  Every handle that was
    received is released, whatever the launches answer; only the policy is kept. *)
Theorem domain_launches_configured published alloc_ok proxy_ok launch_initial policy_iid d o domain_handle logging_handle console_handle
    policy_object (s : ManagerOfDomain ConfigService) :
  shown d o -> domain_handle <> 0 -> console_handle <> 0 -> handles_ok s ->
  awp (@launch_configured _ (config_services published) alloc_ok proxy_ok launch_initial policy_object policy_iid
         (ServesEnvironment (exported o domain_handle logging_handle console_handle))) s
    (fun _ s' => exists believed l,
       dm_requests s' = dm_requests s ++ l /\ l `sublist_of` configured_requests believed d /\
       (believed = personality_number (personality d) \/ believed = Personality_Native) /\
       (troubled alloc_ok proxy_ok \/
        (believed = personality_number (personality d) /\ l = configured_requests believed d)) /\
       policy_kept policy_object s s')
    (fun _ _ => False).
Proof. intros. by apply launches_configured. Qed.

(** ** Sample domains *)

Definition sample_terminal (name : bytes) (v : FacetConfigTerminalView) (process : bytes) : FacetConfigTerminalAssignment :=
  mkTerminal (Some (B "seat0." ++ name)) 0 0 v (Some process) None None 0.

Definition sample_domain (p : FacetConfigPersonality) : FacetConfigDomain :=
  mkDomain 7 (Some (B "dom")) p FACET_CONFIG_DOMAIN_MANAGER_LOCAL None 0 (Some (B "/init")) (Some (B "i")) [] []
    [sample_terminal (B "tty1") FACET_CONFIG_TERMINAL_VIEW_NATIVE (B "/login");
     sample_terminal (B "tty2") FACET_CONFIG_TERMINAL_VIEW_POSIX (B "/bin/sh")] 0.

Definition sample_object (p : FacetConfigPersonality) : DomainConfigObject :=
  let shown_as name t := mkAssignmentView (literal (B "seat0")) (literal name) (view_text (view t)) (process_text (initial_process t)) in
  mkObject 7 (literal (B "dom")) (personality_number p) 1 (sample_domain p) []
    [shown_as (B "tty1") (sample_terminal (B "tty1") FACET_CONFIG_TERMINAL_VIEW_NATIVE (B "/login"));
     shown_as (B "tty2") (sample_terminal (B "tty2") FACET_CONFIG_TERMINAL_VIEW_POSIX (B "/bin/sh"))] 0 0 0.

Lemma sample_object_shown p : shown (sample_domain p) (sample_object p).
Proof.
  split; try done; [by eexists|]. repeat constructor; (eexists (B "seat0"), _; split_and!; [reflexivity|done..]).
Qed.

Definition sample_start (p : FacetConfigPersonality) (proxy_ok : nat -> bool) : result unit * ManagerOfDomain ConfigService :=
  @launch_configured _ (config_services (fun _ _ => FACET_OK)) always_allocates proxy_ok (fun _ _ => inr FACET_NOT_FOUND)
    (ServesOther (B "policy")) (B "pol") (ServesEnvironment (exported (sample_object p) 1 2 3)) (mkDomainManager (mkWorld ∅ 4 0) [] None).

Lemma domain_launches_configured_witness :
  fst (sample_start FACET_CONFIG_PERSONALITY_NATIVE always_allocates) = Ok tt /\
  dm_requests (snd (sample_start FACET_CONFIG_PERSONALITY_NATIVE always_allocates)) =
    [mkRequest (B "/login") [B "/login"; B "0"] 0 (B "/posix"); mkRequest (B "/posix/bin/sh") [B "/bin/sh"; B "1"] 1 (B "/posix")] /\
  exists believed l, l `sublist_of` configured_requests believed (sample_domain FACET_CONFIG_PERSONALITY_NATIVE) /\
    dm_requests (snd (sample_start FACET_CONFIG_PERSONALITY_NATIVE always_allocates)) = l.
Proof.
  assert (E : fst (sample_start FACET_CONFIG_PERSONALITY_NATIVE always_allocates) = Ok tt) by (vm_compute; reflexivity).
  split; [exact E|]. split; [vm_compute; reflexivity|].
  pose proof (domain_launches_configured (fun _ _ => FACET_OK) always_allocates always_allocates (fun _ _ => inr FACET_NOT_FOUND) (B "pol")
    (sample_domain FACET_CONFIG_PERSONALITY_NATIVE) (sample_object FACET_CONFIG_PERSONALITY_NATIVE) 1 2 3 (ServesOther (B "policy"))
    (mkDomainManager (mkWorld ∅ 4 0) [] None) (sample_object_shown _) ltac:(done) ltac:(done) ltac:(by split)) as Hd.
  destruct (awp_ok _ _ _ _ tt Hd E) as (believed & l & Hl & Hsub & _). exists believed, l. split; [exact Hsub|exact Hl].
Defined.

(** A POSIX domain whose personality cannot be read is started as a native one: the
    processes of its terminals instead of its first process, beneath another root. *)
Lemma posix_domain_started_as_native :
  dm_requests (snd (sample_start FACET_CONFIG_PERSONALITY_POSIX always_allocates)) = [mkRequest (B "/init") [B "/init"] 0 (B "/")] /\
  dm_requests (snd (sample_start FACET_CONFIG_PERSONALITY_POSIX (fun n => negb (n =? 0)%nat))) =
    [mkRequest (B "/login") [B "/login"; B "0"] 0 (B "/posix"); mkRequest (B "/posix/bin/sh") [B "/bin/sh"; B "1"] 1 (B "/posix")].
Proof. split; vm_compute; reflexivity. Qed.
