(* ===== verification/Shell.v ===== *)
(** The command line of the native shell (src/src/apps/native/shell_parser.c): the
    split of a line into arguments, in place, and the candidates of a search path.

    The line is an array of bytes that is read and overwritten at the two cursors of
    the code; reading or writing outside of it is a fault.  Arguments are offsets into
    the line.  The loops take fuel, which the callers bound by the length of the line;
    running out of it would be a fault too. *)
From S2P Require Import Prelude Effects.
#[local] Open Scope facet_scope.

Definition is_blank (b : Z) : bool := ((b =? 32) || (b =? 9))%bool.
Definition is_quote (b : Z) : bool := ((b =? 39) || (b =? 34))%bool.

Record ShellLine := mkLine {
  line : bytes;
  source : nat;
  destination : nat;
  arguments : list nat
}.

Abbreviation Sh := (Eff ShellLine).

Definition peek : Sh Z := fun s =>
  match line s !! source s with Some b => (Ok b, s) | None => (Fault, s) end.
Definition skip : Sh unit := fput (fun s => mkLine (line s) (S (source s)) (destination s) (arguments s)).
Definition put (b : Z) : Sh unit := fun s =>
  if (destination s <? length (line s))%nat
  then (Ok tt, mkLine (<[destination s := b]> (line s)) (source s) (S (destination s)) (arguments s))
  else (Fault, s).
Definition start_argument : Sh unit := fput (fun s => mkLine (line s) (source s) (destination s) (arguments s ++ [destination s])).

Fixpoint skip_blanks (fuel : nat) : Sh unit :=
  match fuel with
  | 0%nat => ffault
  | S n => run b <- peek; if is_blank b then skip ;; skip_blanks n else fret tt
  end.

(** The bytes of one argument; [quote] is 0 outside of quotes. *)
Fixpoint parse_word (fuel : nat) (quote : Z) : Sh unit :=
  match fuel with
  | 0%nat => ffault
  | S n =>
      run byte <- peek;
      if byte =? 0 then (if quote =? 0 then fret tt else ferr FACET_ERROR)
      else if byte =? 92 then
        skip ;;
        run next <- peek;
        if next =? 0 then ferr FACET_ERROR else put next ;; skip ;; parse_word n quote
      else if negb (quote =? 0) then
        skip ;; if byte =? quote then parse_word n 0 else put byte ;; parse_word n quote
      else if is_quote byte then skip ;; parse_word n byte
      else if is_blank byte then fret tt
      else put byte ;; skip ;; parse_word n quote
  end.

Fixpoint parse_words (fuel capacity : nat) : Sh unit :=
  match fuel with
  | 0%nat => ffault
  | S n =>
      run b <- peek;
      if b =? 0 then fret tt
      else
        skip_blanks (S n) ;;
        run b <- peek;
        if b =? 0 then fret tt
        else
          run count <- fget (fun s => length (arguments s));
          if (count =? capacity)%nat then ferr FACET_ERROR
          else
            start_argument ;;
            parse_word (S n) 0 ;;
            skip_blanks (S n) ;;
            put 0 ;;
            parse_words n capacity
  end.

(** The line after the parse and the arguments, or the failure. *)
Definition facet_shell_parse_command (text : bytes) (capacity : nat) : result unit * ShellLine :=
  parse_words (S (length text)) capacity (mkLine text 0 0 []).

(** The [offset] is [None] after the last candidate; [None] stands for [SIZE_MAX].  The
    answer is the candidate, if there is memory for it, and the next offset. *)
Definition facet_shell_path_candidate (malloc_ok : bool) (path : bytes) (offset : option nat) (command : bytes) :
    option bytes * option nat :=
  match offset with
  | None => (None, None)
  | Some at_byte =>
      let cursor := skipn at_byte path in
      let end_ := strchr cursor 58 in
      let directory := match end_ with None => cursor | Some n => firstn n cursor end in
      let directory := match directory with [] => [46] | _ => directory end in
      if negb malloc_ok then (None, offset)
      else
        (Some (directory ++ (if bool_decide (last directory = Some 47) then [] else [47]) ++ command),
         match end_ with None => None | Some n => Some (at_byte + n + 1)%nat end)
  end.

(** ** What a line says *)

(** The arguments of a line: [word] is the one that has been started.  [None] is a quote
    that is not closed, or a backslash at the end. *)
Fixpoint split_line (text : bytes) (quote : Z) (word : option bytes) : option (list bytes) :=
  match text with
  | [] => if quote =? 0 then Some (option_list word) else None
  | byte :: rest =>
      if byte =? 92 then
        match rest with [] => None | next :: rest' => split_line rest' quote (Some (default [] word ++ [next])) end
      else if negb (quote =? 0) then
        if byte =? quote then split_line rest 0 (Some (default [] word)) else split_line rest quote (Some (default [] word ++ [byte]))
      else if is_quote byte then split_line rest byte (Some (default [] word))
      else if is_blank byte then (fun ws => option_list word ++ ws) <$> split_line rest 0 None
      else split_line rest 0 (Some (default [] word ++ [byte]))
  end.

(** A way to write arguments. *)
Definition quote_argument (a : bytes) : bytes := [39; 39] ++ mbind (fun b => [92; b]) a.
Fixpoint write_line (l : list bytes) : bytes :=
  match l with [] => [] | a :: rest => quote_argument a ++ [32] ++ write_line rest end.

(** The C string at an offset of the line. *)
Definition argument_at (l : bytes) (offset : nat) : bytes := cstring (skipn offset l).
