(* ===== verification/ShellFacts.v ===== *)
(** Splitting a command line in place gives the arguments that the line says, stays
    inside the line, and reads back what was written with quotes. *)
From stdpp Require Import sets.
From S2P Require Import Prelude Effects Shell.

(** ** The arguments in the line *)

(** The arguments one after the other, each with its terminator. *)
Definition packed (ts : list bytes) : bytes := mbind (fun t => t ++ [0]) ts.

Fixpoint offsets (at_byte : nat) (ts : list bytes) : list nat :=
  match ts with [] => [] | t :: rest => at_byte :: offsets (at_byte + length t + 1) rest end.

Lemma packed_app ts us : packed (ts ++ us) = packed ts ++ packed us.
Proof. unfold packed. by rewrite bind_app. Qed.

Lemma packed_one t : packed [t] = t ++ [0].
Proof. unfold packed. simpl. by rewrite app_nil_r. Qed.

Lemma offsets_snoc k ts t : offsets k (ts ++ [t]) = offsets k ts ++ [k + length (packed ts)]%nat.
Proof.
  revert k. induction ts as [|u ts IH]; intros k; simpl; [by rewrite Nat.add_0_r|]. rewrite IH. do 2 f_equal.
  change (packed (u :: ts)) with ((u ++ [0]) ++ packed ts). rewrite !length_app. simpl. f_equal. lia.
Qed.

Lemma length_offsets k ts : length (offsets k ts) = length ts.
Proof. revert k. induction ts as [|t ts IH]; intros k; simpl; [done|]. by rewrite IH. Qed.

Lemma arguments_read ts before more :
  Forall (fun t => 0 ∉ t) ts -> map (argument_at (before ++ packed ts ++ more)) (offsets (length before) ts) = ts.
Proof.
  revert before. induction ts as [|t ts IH]; intros before Hts; [done|]. apply Forall_cons in Hts as [Ht Hts]. simpl.
  change (packed (t :: ts)) with ((t ++ [0]) ++ packed ts). f_equal.
  - unfold argument_at. rewrite drop_app_length, <- !app_assoc. by apply cstring_app.
  - rewrite <- (IH (before ++ t ++ [0]) Hts) at 3. rewrite !length_app. simpl. rewrite <- !app_assoc, Nat.add_assoc. done.
Qed.

(** ** The line during the split *)

(** The output, what has been read and may be overwritten, and what is left. *)
Record holds (tail : bytes) (N : nat) (out gap rest : bytes) (s : ShellLine) : Prop := {
  ho_line : line s = out ++ gap ++ rest ++ 0 :: tail;
  ho_source : source s = (length out + length gap)%nat;
  ho_destination : destination s = length out;
  ho_text : 0 ∉ rest;
  ho_length : (length out + length gap + length rest = N)%nat
}.

Section Split.
Context (tail : bytes) (N : nat).

Abbreviation holds := (holds tail N).

Lemma peek_next out gap b rest s : holds out gap (b :: rest) s -> peek s = (Ok b, s) /\ b <> 0.
Proof.
  intros [L S _ T _]. split; [|set_solver]. unfold peek. rewrite L, S, app_assoc, lookup_app_r; rewrite length_app; [|lia].
  by rewrite Nat.sub_diag.
Qed.

Lemma peek_end out gap s : holds out gap [] s -> peek s = (Ok 0, s).
Proof.
  intros [L S _ _ _]. unfold peek. rewrite L, S, app_assoc, lookup_app_r; rewrite length_app; [|lia]. by rewrite Nat.sub_diag.
Qed.

Lemma skip_next out gap b rest s : holds out gap (b :: rest) s ->
  exists s', skip s = (Ok tt, s') /\ holds out (gap ++ [b]) rest s' /\ arguments s' = arguments s.
Proof.
  intros [L S D T E]. eexists. split; [done|]. split; [|done]. split; simpl in *; [|rewrite length_app; simpl; lia|done|set_solver|rewrite length_app; simpl; lia].
  by rewrite L, <- !app_assoc.
Qed.

Lemma put_next c out g gap rest s : holds out (g :: gap) rest s ->
  exists s', put c s = (Ok tt, s') /\ holds (out ++ [c]) gap rest s' /\ arguments s' = arguments s.
Proof.
  intros [L S D T E]. unfold put. rewrite L, D, (proj2 (Nat.ltb_lt _ _)) by (rewrite !length_app; simpl; lia). eexists. split; [done|].
  split; [|done]. split; simpl in *; [|rewrite length_app; simpl; lia|rewrite length_app; simpl; lia|done|rewrite length_app; simpl; lia].
  rewrite insert_app_r_alt by lia. rewrite Nat.sub_diag. simpl. by rewrite <- app_assoc.
Qed.

(** A byte is moved to the output. *)
Lemma copy_next out gap b rest s : holds out gap (b :: rest) s ->
  exists s1 s2 gap', put b s = (Ok tt, s1) /\ skip s1 = (Ok tt, s2) /\ holds (out ++ [b]) gap' rest s2 /\ arguments s2 = arguments s.
Proof.
  intros H. destruct gap as [|g gap].
  - destruct H as [L S D T E]. unfold put. rewrite L, D, (proj2 (Nat.ltb_lt _ _)) by (rewrite !length_app; simpl; lia).
    eexists _, _, []. split; [done|]. split; [done|]. split; [|done]. simpl in *.
    split; simpl; [|rewrite length_app; simpl; lia|rewrite length_app; simpl; lia|set_solver|rewrite length_app; simpl; lia].
    rewrite insert_app_r_alt by lia. rewrite Nat.sub_diag. simpl. by rewrite <- app_assoc.
  - destruct (put_next b _ _ _ _ _ H) as (s1 & E1 & H1 & A1). destruct (skip_next _ _ _ _ _ H1) as (s2 & E2 & H2 & A2).
    exists s1, s2, (gap ++ [b]). split_and!; [done|done|done|congruence].
Qed.

Lemma skip_blanks_spec fuel out gap rest s :
  holds out gap rest s -> (length rest < fuel)%nat ->
  exists s' blanks rest', skip_blanks fuel s = (Ok tt, s') /\ rest = blanks ++ rest' /\ Forall (fun b => is_blank b = true) blanks /\
    holds out (gap ++ blanks) rest' s' /\ arguments s' = arguments s /\
    match rest' with b :: _ => is_blank b = false | [] => True end.
Proof.
  revert gap rest s. induction fuel as [|n IH]; intros gap rest s H Hf; [lia|]. simpl. unfold fbind. destruct rest as [|b rest].
  - rewrite (peek_end _ _ _ H). simpl. exists s, [], []. rewrite (app_nil_r gap). split_and!; first [done|constructor].
  - destruct (peek_next _ _ _ _ _ H) as [-> _]. destruct (is_blank b) eqn:Eb.
    + destruct (skip_next _ _ _ _ _ H) as (s1 & -> & H1 & A1).
      destruct (IH _ _ _ H1) as (s2 & blanks & rest' & -> & -> & Hb & H2 & A2 & Hr); [simpl in Hf; lia|].
      exists s2, (b :: blanks), rest'. rewrite <- app_assoc in H2. split_and!; [done|done|by constructor|done|congruence|done].
    + exists s, [], (b :: rest). rewrite (app_nil_r gap). split_and!; first [done|constructor].
Qed.

Lemma split_blanks blanks rest : Forall (fun b => is_blank b = true) blanks ->
  split_line (blanks ++ rest) 0 None = split_line rest 0 None.
Proof.
  induction 1 as [|b blanks Hb _ IH]; [done|]. simpl. assert (Hn : b = 32 \/ b = 9).
  { unfold is_blank in Hb. apply orb_true_iff in Hb as [?%Z.eqb_eq|?%Z.eqb_eq]; auto. }
  destruct Hn as [-> | ->]; simpl; rewrite IH; by destruct (split_line rest 0 None).
Qed.

(** One argument: the split continues behind it. *)
Lemma parse_word_spec fuel base w gap rest quote s :
  holds (base ++ w) gap rest s -> (length rest < fuel)%nat -> 0 ∉ w ->
  awp (parse_word fuel quote) s
    (fun _ s' => exists w' gap' rest', holds (base ++ w') gap' rest' s' /\ arguments s' = arguments s /\ 0 ∉ w' /\
       (length rest' <= length rest)%nat /\ split_line rest quote (Some w) = split_line rest' 0 (Some w') /\
       match rest' with b :: _ => is_blank b = true /\ b <> 92 | [] => True end)
    (fun code _ => code = FACET_ERROR /\ split_line rest quote (Some w) = None).
Proof.
  revert w gap rest quote s. induction fuel as [|n IH]; intros w gap rest quote s H Hf Hw; [lia|].
  (* what is left to do after a byte has been consumed *)
  assert (Hgo : forall w1 gap1 rest1 quote1 s1,
    holds (base ++ w1) gap1 rest1 s1 -> arguments s1 = arguments s -> (length rest1 < length rest)%nat -> 0 ∉ w1 ->
    split_line rest quote (Some w) = split_line rest1 quote1 (Some w1) ->
    awp (parse_word n quote1) s1
      (fun _ s' => exists w' gap' rest', holds (base ++ w') gap' rest' s' /\ arguments s' = arguments s /\ 0 ∉ w' /\
         (length rest' <= length rest)%nat /\ split_line rest quote (Some w) = split_line rest' 0 (Some w') /\
         match rest' with b :: _ => is_blank b = true /\ b <> 92 | [] => True end)
      (fun code _ => code = FACET_ERROR /\ split_line rest quote (Some w) = None)).
  { intros w1 gap1 rest1 quote1 s1 H1 A1 L1 W1 E1. eapply awp_mono; [apply (IH w1 gap1 rest1 quote1 s1 H1); [lia|done]| |].
    - intros ? s' (w' & gap' & rest' & H' & A' & W' & L' & E' & B'). exists w', gap', rest'. split_and!; [done|congruence|done|lia|congruence|done].
    - intros code ? [-> E']. split; [done|congruence]. }
  destruct rest as [|b rest]; match goal with |- awp _ _ ?Q ?E => set (post := Q) in *; set (refusal := E) in * end.
  { simpl. apply awp_bind. unfold awp at 1. rewrite (peek_end _ _ _ H). simpl.
    destruct (quote =? 0) eqn:Eq; [|apply awp_err; unfold refusal; simpl; by rewrite Eq].
    apply awp_ret. exists w, gap, []. simpl. rewrite Eq. by split_and!. }
  simpl. apply awp_bind.
  destruct (peek_next _ _ _ _ _ H) as [Ep Hb]. unfold awp at 1. rewrite Ep. rewrite (proj2 (Z.eqb_neq b 0)) by done.
  destruct (b =? 92) eqn:E92.
  { destruct (skip_next _ _ _ _ _ H) as (s1 & Es1 & H1 & A1). apply awp_bind. unfold awp at 1. rewrite Es1. apply awp_bind.
    destruct rest as [|c rest].
    { unfold awp at 1. rewrite (peek_end _ _ _ H1). simpl. apply awp_err. unfold refusal. simpl. by rewrite E92. }
    destruct (peek_next _ _ _ _ _ H1) as [Ec Hc]. unfold awp at 1. rewrite Ec. rewrite (proj2 (Z.eqb_neq c 0)) by done.
    destruct (copy_next _ _ _ _ _ H1) as (s2 & s3 & gap' & E2 & E3 & H3 & A3). apply awp_bind. unfold awp at 1. rewrite E2.
    apply awp_bind. unfold awp at 1. rewrite E3. rewrite <- app_assoc in H3.
    eapply (Hgo (w ++ [c])); [exact H3|congruence|simpl; lia|set_solver|]. simpl. by rewrite E92. }
  destruct (quote =? 0) eqn:Eq; simpl.
  2: { destruct (skip_next _ _ _ _ _ H) as (s1 & Es1 & H1 & A1). apply awp_bind. unfold awp at 1. rewrite Es1.
       destruct (b =? quote) eqn:Ebq.
       - eapply (Hgo w); [exact H1|done|simpl; lia|done|]. simpl. by rewrite E92, Eq, Ebq.
       - destruct (gap ++ [b]) as [|g gap1] eqn:Eg; [by destruct gap|].
         destruct (put_next b _ _ _ _ _ H1) as (s2 & E2 & H2 & A2). apply awp_bind. unfold awp at 1. rewrite E2. rewrite <- app_assoc in H2.
         eapply (Hgo (w ++ [b])); [exact H2|congruence|simpl; lia|set_solver|]. simpl. by rewrite E92, Eq, Ebq. }
  destruct (is_quote b) eqn:Eqb.
  { destruct (skip_next _ _ _ _ _ H) as (s1 & Es1 & H1 & A1). apply awp_bind. unfold awp at 1. rewrite Es1.
    eapply (Hgo w); [exact H1|done|simpl; lia|done|]. simpl. by rewrite E92, Eq, Eqb. }
  destruct (is_blank b) eqn:Ebb.
  { apply awp_ret. exists w, gap, (b :: rest). apply Z.eqb_neq in E92. apply Z.eqb_eq in Eq as ->. by split_and!. }
  destruct (copy_next _ _ _ _ _ H) as (s2 & s3 & gap' & E2 & E3 & H3 & A3). apply awp_bind. unfold awp at 1. rewrite E2.
  apply awp_bind. unfold awp at 1. rewrite E3. rewrite <- app_assoc in H3. apply Z.eqb_eq in Eq as ->.
  eapply (Hgo (w ++ [b])); [exact H3|congruence|simpl; lia|set_solver|]. simpl. by rewrite E92, Eqb, Ebb.
Qed.

(** A started argument is among the arguments, if the line can be split. *)
Lemma split_started rest quote w : split_line rest quote (Some w) = None \/ exists t ts, split_line rest quote (Some w) = Some (t :: ts).
Proof.
  remember (length rest) as n eqn:Hn. revert rest Hn quote w. induction n as [n IH] using lt_wf_ind. intros rest Hn quote w.
  destruct rest as [|b rest]; simpl; [destruct (quote =? 0); [right; by eexists _, _|by left]|]. simpl in Hn.
  destruct (b =? 92).
  { destruct rest as [|c rest]; [by left|]. eapply IH; [|done]. simpl in Hn. lia. }
  destruct (negb _); [destruct (b =? quote); (eapply IH; [|done]; lia)|]. destruct (is_quote b); [eapply IH; [|done]; lia|].
  destruct (is_blank b); [|eapply IH; [|done]; lia]. destruct (split_line rest 0 None); [right; by eexists _, _|by left].
Qed.

Lemma split_unstarted b rest : is_blank b = false -> split_line (b :: rest) 0 None = split_line (b :: rest) 0 (Some []).
Proof. intros Hb. simpl. by rewrite Hb. Qed.

Lemma split_word_end b rest w : is_blank b = true -> b <> 92 ->
  split_line (b :: rest) 0 (Some w) = (fun ws => w :: ws) <$> split_line rest 0 None.
Proof.
  intros Hb H92. simpl. rewrite (proj2 (Z.eqb_neq b 92)) by done. rewrite Hb. unfold is_blank, is_quote in *.
  destruct (Z.eqb_spec b 39) as [->|_]; [done|]. by destruct (Z.eqb_spec b 34) as [->|_].
Qed.

Lemma split_after blanks rest w : Forall (fun b => is_blank b = true) blanks -> blanks <> [] ->
  split_line (blanks ++ rest) 0 (Some w) = (fun ws => w :: ws) <$> split_line rest 0 None.
Proof.
  intros Hb Hn. destruct blanks as [|b blanks]; [done|]. apply Forall_cons in Hb as [Hb Hbs]. change ((b :: blanks) ++ rest) with (b :: (blanks ++ rest)).
  rewrite split_word_end by (done || by intros ->). by rewrite split_blanks.
Qed.

(** The arguments so far are in the line; what follows it is untouched. *)
Definition arguments_in (ts : list bytes) (s : ShellLine) : Prop :=
  exists more, line s = packed ts ++ more /\ skipn (S N) (line s) = tail /\ arguments s = offsets 0 ts /\ Forall (fun t => 0 ∉ t) ts.

Lemma holds_tail out gap rest s : holds out gap rest s -> skipn (S N) (line s) = tail.
Proof.
  intros [L _ _ _ E]. rewrite L, !app_assoc. change (0 :: tail) with ([0] ++ tail). rewrite app_assoc.
  apply drop_app_length'. rewrite !length_app. simpl. lia.
Qed.

(** The terminator of the last argument. *)
Lemma put_last out gap s : holds out gap [] s ->
  exists s' more, put 0 s = (Ok tt, s') /\ line s' = (out ++ [0]) ++ more /\ skipn (S N) (line s') = tail /\
    arguments s' = arguments s /\ peek s' = (Ok 0, s').
Proof.
  intros H. destruct gap as [|g gap].
  - destruct H as [L S D T E]. unfold put. rewrite L, D, (proj2 (Nat.ltb_lt _ _)) by (rewrite !length_app; simpl; lia).
    simpl in *. eexists _, tail. split; [done|]. simpl. rewrite insert_app_r_alt by lia. rewrite Nat.sub_diag. simpl.
    split_and!; [by rewrite <- app_assoc| |done|].
    + change (0 :: tail) with ([0] ++ tail). rewrite app_assoc. apply drop_app_length'. rewrite length_app. simpl. lia.
    + unfold peek. simpl. rewrite S, Nat.add_0_r, lookup_app_r by lia. by rewrite Nat.sub_diag.
  - destruct (put_next 0 _ _ _ _ _ H) as (s' & Es & H' & A'). exists s', (gap ++ 0 :: tail). split; [done|].
    split_and!; [exact (ho_line _ _ _ _ _ _ H')|by eapply holds_tail|done|by eapply peek_end].
Qed.

Lemma parse_words_spec fuel capacity ts gap rest s :
  holds (packed ts) gap rest s -> arguments s = offsets 0 ts -> Forall (fun t => 0 ∉ t) ts -> (length rest < fuel)%nat ->
  (length ts <= capacity)%nat ->
  awp (parse_words fuel capacity) s
    (fun _ s' => exists us, split_line rest 0 None = Some us /\ (length (ts ++ us) <= capacity)%nat /\ arguments_in (ts ++ us) s')
    (fun code _ => code = FACET_ERROR /\ forall us, split_line rest 0 None = Some us -> (capacity < length (ts ++ us))%nat).
Proof.
  revert ts gap rest s. induction fuel as [|n IH]; intros ts gap rest s H A Hts Hf Hc; [lia|]. cbn [parse_words]. apply awp_bind.
  assert (Hend : forall gap' s', holds (packed ts) gap' [] s' -> arguments s' = arguments s -> arguments_in (ts ++ []) s').
  { intros gap' s' H' A'. exists (gap' ++ 0 :: tail). rewrite app_nil_r.
    split_and!; [apply (ho_line _ _ _ _ _ _ H')|by eapply holds_tail|congruence|done]. }
  destruct rest as [|b0 rest0].
  { unfold awp at 1. rewrite (peek_end _ _ _ H). simpl. apply awp_ret. exists []. split_and!; [done|by rewrite app_nil_r|by eapply Hend]. }
  destruct (peek_next _ _ _ _ _ H) as [Ep Hb0]. unfold awp at 1. rewrite Ep, (proj2 (Z.eqb_neq b0 0)) by done.
  destruct (skip_blanks_spec (S n) _ _ _ _ H Hf) as (s1 & blanks & rest1 & E1 & Er & Hbl & H1 & A1 & Hnb).
  apply awp_bind. unfold awp at 1. rewrite E1. rewrite Er, (split_blanks blanks) by done.
  assert (Hlen : (length rest1 <= length (b0 :: rest0))%nat) by (rewrite Er, length_app; lia). apply awp_bind.
  destruct rest1 as [|b rest1].
  { unfold awp at 1. rewrite (peek_end _ _ _ H1). simpl. apply awp_ret. exists []. split_and!; [done|by rewrite app_nil_r|by eapply Hend]. }
  destruct (peek_next _ _ _ _ _ H1) as [Ep1 Hb]. unfold awp at 1. rewrite Ep1, (proj2 (Z.eqb_neq b 0)) by done.
  rewrite (split_unstarted b rest1 Hnb). apply awp_bind, awp_get. rewrite A1, A, length_offsets.
  destruct (Nat.eqb_spec (length ts) capacity) as [Ec|Ec].
  { apply awp_err. split; [done|]. intros us Hus. rewrite length_app.
    destruct (split_started (b :: rest1) 0 []) as [E|(t & us' & E)]; rewrite E in Hus; [done|]. injection Hus as <-. simpl. lia. }
  apply awp_bind, awp_put. set (s2 := mkLine _ _ _ _). apply awp_bind.
  assert (H2 : holds (packed ts ++ []) (gap ++ blanks) (b :: rest1) s2) by (rewrite app_nil_r; destruct H1; by split).
  eapply awp_mono; [apply (parse_word_spec (S n) _ [] _ _ 0 _ H2); [lia|set_solver]| |].
  2: { intros code s3 [-> E3]. split; [done|]. intros us Hus. congruence. }
  intros ? s3 (w & gap3 & rest3 & H3 & A3 & Hw & L3 & E3 & B3). rewrite E3.
  destruct (skip_blanks_spec (S n) _ _ _ _ H3) as (s4 & blanks4 & rest4 & E4 & Er4 & Hbl4 & H4 & A4 & Hnb4); [lia|].
  apply awp_bind. unfold awp at 1. rewrite E4. clear E4. subst rest3.
  assert (Hargs : arguments s4 = offsets 0 (ts ++ [w])).
  { rewrite A4, A3, offsets_snoc. simpl. rewrite A1, A. f_equal. f_equal. apply (ho_destination _ _ _ _ _ _ H1). }
  assert (Hok : Forall (fun t => 0 ∉ t) (ts ++ [w])) by (apply Forall_app; split; [done|by constructor]).
  assert (Hpack : (packed ts ++ w) ++ [0] = packed (ts ++ [w])) by (by rewrite packed_app, packed_one, app_assoc).
  assert (Hroom : (length (ts ++ [w]) <= capacity)%nat) by (rewrite length_app; simpl; lia).
  apply awp_bind. destruct rest4 as [|c rest4].
  - destruct (put_last _ _ _ H4) as (s5 & more & E5 & L5 & T5 & A5 & P5). unfold awp at 1. rewrite E5.
    destruct n as [|n]; [simpl in Hf; lia|]. simpl. apply awp_bind. unfold awp at 1. rewrite P5. simpl. apply awp_ret.
    exists [w]. split_and!; [|done|].
    + destruct blanks4 as [|c blanks4]; [done|]. by rewrite split_after.
    + exists more. rewrite <- Hpack. split_and!; [done|done|congruence|done].
  - assert (Hne : blanks4 <> []). { intros ->. simpl in B3. destruct B3 as [B3 _]. congruence. }
    rewrite split_after by done. destruct (gap3 ++ blanks4) as [|g gap5] eqn:Eg; [by apply app_eq_nil in Eg as [_ ?]|].
    destruct (put_next 0 _ _ _ _ _ H4) as (s5 & E5 & H5 & A5). unfold awp at 1. rewrite E5. rewrite Hpack in H5.
    eapply awp_mono; [apply (IH (ts ++ [w]) _ _ _ H5); [congruence|done| |done]| |].
    + destruct blanks4; [done|]. simpl in *. rewrite length_app in L3. simpl in L3. lia.
    + intros ? s6 (us & Eus & Lus & Aus). exists (w :: us). rewrite Eus. rewrite <- app_assoc in Lus, Aus. by split_and!.
    + intros code s6 [-> Hbig]. split; [done|]. intros us Hus. destruct (split_line (c :: rest4) 0 None) as [vs|] eqn:Ev; [|done].
      injection Hus as <-. specialize (Hbig vs eq_refl). by rewrite <- app_assoc in Hbig.
Qed.

End Split.

(** ** Command lines *)

Lemma split_argument a rest w : split_line (mbind (fun b => [92; b]) a ++ rest) 0 (Some w) = split_line rest 0 (Some (w ++ a)).
Proof.
  revert w. induction a as [|b a IH]; intros w; [by rewrite app_nil_r|]. simpl. unfold mbind in IH. rewrite IH. by rewrite <- app_assoc.
Qed.

Lemma split_written args : split_line (write_line args) 0 None = Some args.
Proof.
  induction args as [|a args IH]; [done|]. cbn [write_line]. unfold quote_argument. rewrite <- !app_assoc. simpl.
  rewrite split_argument. simpl. by rewrite IH.
Qed.

Lemma written_nonzero args : Forall (fun a => 0 ∉ a) args -> 0 ∉ write_line args.
Proof.
  induction 1 as [|a args Ha _ IH]; [set_solver|]. simpl. assert (Hq : 0 ∉ mbind (fun b => [92; b]) a).
  { intros (b & Hb & Hin)%list_elem_of_bind. set_solver. }
  unfold mbind in Hq. set_solver.
Qed.

(** C31: The shell splits a command line exactly: for every line and whatever follows
    it in memory, splitting in place never reads or writes outside the line, and it
    ends; it succeeds exactly if quotes and backslashes are complete and the arguments
    fit, and then the C strings that it points to are the arguments of the line, in
    order, with quotes removed and escapes resolved.  Arguments without NUL that are
    written with quotes are read back as they were. *)
Theorem shell_parse_exact text tail capacity args :
  0 ∉ text -> Forall (fun a => 0 ∉ a) args ->
  (let r := facet_shell_parse_command (text ++ 0 :: tail) capacity in
   match split_line text 0 None with
   | Some ts =>
       if decide (length ts <= capacity)%nat
       then fst r = Ok tt /\ map (argument_at (line (snd r))) (arguments (snd r)) = ts /\ skipn (S (length text)) (line (snd r)) = tail
       else fst r = Err FACET_ERROR
   | None => fst r = Err FACET_ERROR
   end) /\
  (let r := facet_shell_parse_command (write_line args ++ 0 :: tail) (length args) in
   fst r = Ok tt /\ map (argument_at (line (snd r))) (arguments (snd r)) = args).
Proof.
  assert (Hmain : forall text capacity, 0 ∉ text ->
    let r := facet_shell_parse_command (text ++ 0 :: tail) capacity in
    match split_line text 0 None with
    | Some ts =>
        if decide (length ts <= capacity)%nat
        then fst r = Ok tt /\ map (argument_at (line (snd r))) (arguments (snd r)) = ts /\ skipn (S (length text)) (line (snd r)) = tail
        else fst r = Err FACET_ERROR
    | None => fst r = Err FACET_ERROR
    end).
  { clear. intros text capacity Ht. unfold facet_shell_parse_command. set (s := mkLine _ _ _ _).
    assert (H : holds tail (length text) (packed []) [] text s) by (by split).
    pose proof (parse_words_spec tail (length text) (S (length (text ++ 0 :: tail))) capacity [] [] text s H eq_refl (Forall_nil_2 _)) as Hp.
    unfold awp in Hp. destruct (parse_words _ _ s) as [[[]|code|] s']; [| |destruct Hp; [rewrite length_app; lia|simpl; lia]].
    - destruct Hp as (us & -> & Hlen & more & L & T & A & Hus); [rewrite length_app; lia|simpl; lia|]. simpl in *.
      rewrite decide_True by done. split_and!; [done| |done]. rewrite A, L. exact (arguments_read us [] more Hus).
    - destruct Hp as [-> Hbig]; [rewrite length_app; lia|simpl; lia|]. simpl in *. destruct (split_line text 0 None) as [us|]; [|done].
      rewrite decide_False; [done|]. specialize (Hbig us eq_refl). lia. }
  intros Ht Ha. split; [by apply Hmain|]. specialize (Hmain (write_line args) (length args) (written_nonzero _ Ha)).
  rewrite split_written, decide_True in Hmain by done. simpl in *. by destruct Hmain as (-> & -> & _).
Qed.

Lemma shell_parse_exact_witness :
  let r := facet_shell_parse_command (B "echo 'a b' c\ d  " ++ [0; 7]) 8 in
  fst r = Ok tt /\ map (argument_at (line (snd r))) (arguments (snd r)) = [B "echo"; B "a b"; B "c d"].
Proof.
  destruct (shell_parse_exact (B "echo 'a b' c\ d  ") [7] 8 [B "a b"; []]) as [H _]; [by_decide|by_decide|].
  assert (E : split_line (B "echo 'a b' c\ d  ") 0 None = Some [B "echo"; B "a b"; B "c d"]) by (vm_compute; reflexivity).
  rewrite E in H. rewrite decide_True in H by (simpl; lia). cbv zeta in H |- *. destruct H as (H1 & H2 & _). split; [exact H1|exact H2].
Defined.

(** ** Search paths *)

(** The directories of a search path, in order; an empty one is the current directory. *)
Fixpoint path_directories (path directory : bytes) : list bytes :=
  match path with
  | [] => [directory]
  | b :: rest => if b =? 58 then directory :: path_directories rest [] else path_directories rest (directory ++ [b])
  end.

Definition candidate_in (command directory : bytes) : bytes :=
  let directory := match directory with [] => [46] | _ => directory end in
  directory ++ (if bool_decide (last directory = Some 47) then [] else [47]) ++ command.

(** All candidates, asked for one after the other. *)
Fixpoint candidates (fuel : nat) (path : bytes) (offset : option nat) (command : bytes) : list bytes :=
  match fuel, offset with
  | S n, Some _ =>
      match facet_shell_path_candidate true path offset command with
      | (Some c, next) => c :: candidates n path next command
      | (None, _) => []
      end
  | _, _ => []
  end.

Lemma directories_split path directory :
  path_directories path directory =
  match strchr path 58 with
  | None => [directory ++ path]
  | Some n => (directory ++ firstn n path) :: path_directories (skipn (n + 1) path) []
  end.
Proof.
  revert directory. induction path as [|b path IH]; intros directory; [by rewrite app_nil_r|]. unfold strchr in *.
  cbn [path_directories index_of]. rewrite (Z.eqb_sym b 58). destruct (58 =? b); [cbn; by rewrite app_nil_r, drop_0|]. rewrite IH.
  destruct (index_of (Z.eqb 58) path) as [n|]; cbn; by rewrite <- app_assoc.
Qed.

Lemma candidates_from fuel path offset command :
  (length (skipn offset path) < fuel)%nat ->
  candidates fuel path (Some offset) command = map (candidate_in command) (path_directories (skipn offset path) []).
Proof.
  revert offset. induction fuel as [|n IH]; intros offset Hf; [lia|]. simpl. rewrite directories_split.
  destruct (strchr (skipn offset path) 58) as [k|] eqn:Ek; simpl.
  - f_equal. replace (offset + k + 1)%nat with (offset + (k + 1))%nat by lia. rewrite IH; [by rewrite drop_drop|].
    assert (Hk : (k < length (skipn offset path))%nat).
    { unfold strchr in Ek. clear -Ek. revert k Ek. induction (skipn offset path) as [|b l IHl]; intros k Ek; [done|]. cbn [index_of length] in *.
      destruct (58 =? b); [injection Ek as <-; lia|]. destruct (index_of (Z.eqb 58) l) as [j|]; [|done]. injection Ek as <-.
      specialize (IHl j eq_refl). lia. }
    rewrite <- drop_drop, length_drop. lia.
  - f_equal. by destruct n.
Qed.

(** The candidates of a search path are the command in each of its directories, once
    and in order. *)
Theorem shell_candidates_exact path command :
  candidates (S (length path)) path (Some 0%nat) command = map (candidate_in command) (path_directories path []).
Proof. rewrite candidates_from; [by rewrite drop_0|]. rewrite drop_0. lia. Qed.
