(* ===== verification/PageAllocator.v ===== *)
(** The page allocator that dominit0 serves to a domain or a program
    (src/src/dominit0/platform/sel4/api.c): the pages of the client are recorded, given
    back one by one, and all of them at the end.

    The address space belongs to libsel4utils.  It is the list of the regions that are
    mapped for the client: [vspace_new_pages] answers with the base of a new region, or
    not, and unmapping a region that is not mapped is a fault. *)
From S2P Require Import Prelude Effects Environment.
#[local] Open Scope facet_scope.

Definition PAGE_BITS : Z := 12.

(** Base and number of pages. *)
Abbreviation region := (Z * Z)%type.

Record ChildPageAllocator := mkAllocator {
  pa_process : bool;
  exported_handle : Z;
  allocations : list region
}.

Record PageState := mkPages {
  mapped : list region;
  allocator : ChildPageAllocator;
  pa_steps : nat
}.

Section PageAllocator.
Context (IID_IGenericObject IID_IPageAllocator : iid).
Context (calloc_ok : nat -> bool) (vspace_new_pages : list region -> Z -> option Z).

Abbreviation Pg := (Eff PageState).

Definition set_allocations (l : list region) (a : ChildPageAllocator) : ChildPageAllocator :=
  mkAllocator (pa_process a) (exported_handle a) l.
Definition change_allocator (f : ChildPageAllocator -> ChildPageAllocator) : Pg unit :=
  fput (fun s => mkPages (mapped s) (f (allocator s)) (pa_steps s)).

Definition vspace_unmap_pages (r : region) : Pg unit := fun s =>
  match index_of (fun x => bool_decide (x = r)) (mapped s) with
  | Some i => (Ok tt, mkPages (delete i (mapped s)) (allocator s) (pa_steps s))
  | None => (Fault, s)
  end.

Definition child_page_allocator_get_interface (a : ChildPageAllocator) (i : iid) : FacetResult * Z :=
  if (negb (i =b IID_IGenericObject) && negb (i =b IID_IPageAllocator))%bool then (FACET_NO_INTERFACE, 0)
  else if exported_handle a =? 0 then (FACET_INVALID_HANDLE, 0)
  else (FACET_OK, exported_handle a).

Definition child_page_allocator_get_page_size : Z := Z.shiftl 1 PAGE_BITS.

Definition child_page_allocator_alloc (count : Z) : Pg Z :=
  run a <- fget allocator;
  if (negb (pa_process a) || (count =? 0))%bool then ferr FACET_INVALID_ARGUMENT
  else
    run ok <- (fun s => (Ok (calloc_ok (pa_steps s)), mkPages (mapped s) (allocator s) (S (pa_steps s))));
    if negb ok then ferr FACET_OUT_OF_MEMORY
    else
      run m <- fget mapped;
      match vspace_new_pages m count with
      | None => ferr FACET_OUT_OF_MEMORY
      | Some base =>
          fput (fun s => mkPages ((base, count) :: mapped s)
            (set_allocations ((base, count) :: allocations (allocator s)) (allocator s)) (pa_steps s)) ;;
          fret base
      end.

Definition child_page_allocator_free (count base : Z) : Pg unit :=
  run a <- fget allocator;
  if (negb (pa_process a) || (count =? 0) || (base =? 0))%bool then ferr FACET_INVALID_ARGUMENT
  else
    match index_of (fun x => bool_decide (x = (base, count))) (allocations a) with
    | None => ferr FACET_INVALID_ARGUMENT
    | Some i =>
        vspace_unmap_pages (base, count) ;;
        change_allocator (fun a => set_allocations (delete i (allocations a)) a)
    end.

(** The regions that are left.  The withdrawal of the export is the release of its
    handle in [platform_destroy_process] of Process.v; here the handle is cleared. *)
Fixpoint unmap_all (process : bool) (l : list region) : Pg unit :=
  match l with
  | [] => fret tt
  | r :: rest => (if process then vspace_unmap_pages r else fret tt) ;; unmap_all process rest
  end.

Definition child_page_allocator_destroy : Pg unit :=
  run a <- fget allocator;
  unmap_all (pa_process a) (allocations a) ;;
  change_allocator (fun _ => mkAllocator false 0 []).

(** Each condition of the test is evaluated only after the ones before it. *)
Definition succeeds {A} (m : Pg A) : Pg (option A) := ftry m (fun a => fret (Some a)) (fret None).

Definition child_page_allocator_self_test : Pg unit :=
  if negb (child_page_allocator_get_page_size =? 2 ^ PAGE_BITS) then ferr FACET_ERROR
  else
    run none <- succeeds (child_page_allocator_alloc 0);
    if bool_decide (is_Some none) then ferr FACET_ERROR
    else
      run one <- succeeds (child_page_allocator_alloc 1);
      match one with
      | None => ferr FACET_ERROR
      | Some page =>
          if page =? 0 then ferr FACET_ERROR
          else
            run first <- succeeds (child_page_allocator_free 1 page);
            if negb (bool_decide (is_Some first)) then ferr FACET_ERROR
            else
              run second <- succeeds (child_page_allocator_free 1 page);
              if bool_decide (is_Some second) then ferr FACET_ERROR else fret tt
      end.

End PageAllocator.

(** ** What the client may do *)

Inductive PageCall := CallAlloc (count : Z) | CallFree (count base : Z).

Section Calls.
Context (calloc_ok : nat -> bool) (vspace_new_pages : list region -> Z -> option Z).

Definition page_call (c : PageCall) : Eff PageState unit :=
  match c with
  | CallAlloc count => fbind (child_page_allocator_alloc calloc_ok vspace_new_pages count) (fun _ => fret tt)
  | CallFree count base => child_page_allocator_free count base
  end.

(** Regions of pages that do not overlap. *)
Definition region_end (r : region) : Z := fst r + snd r * 2 ^ PAGE_BITS.
Definition apart (r q : region) : Prop := region_end r <= fst q \/ region_end q <= fst r.

(** What libsel4utils documents: a new region is not null and overlaps no other. *)
Context (new_pages_apart : forall m count base, vspace_new_pages m count = Some base -> 0 < base /\ Forall (apart (base, count)) m).

(** The records of the allocator are the regions of the client, beside those that were
    mapped before ([image]). *)
Record recorded (image : list region) (s : PageState) : Prop := {
  rc_process : pa_process (allocator s) = true;
  rc_mapped : mapped s = allocations (allocator s) ++ image;
  rc_distinct : NoDup (mapped s);
  rc_apart : forall i j r q, mapped s !! i = Some r -> mapped s !! j = Some q -> i <> j -> apart r q;
  rc_counts : Forall (fun r => 0 < fst r /\ 0 < snd r) (allocations (allocator s))
}.

Lemma index_found (r : region) l : r ∈ l -> NoDup l ->
  exists i, index_of (fun x => bool_decide (x = r)) l = Some i /\ l !! i = Some r.
Proof.
  induction l as [|x l IH]; [by intros ?%elem_of_nil|]. simpl. intros Hin [Hx Hd]%NoDup_cons.
  destruct (bool_decide_reflect (x = r)) as [->|Hne]; [by exists 0%nat|].
  apply elem_of_cons in Hin as [->|Hin]; [done|]. destruct (IH Hin Hd) as (i & -> & Hi). by exists (S i).
Qed.

Lemma index_some (r : region) l i : index_of (fun x => bool_decide (x = r)) l = Some i -> l !! i = Some r.
Proof.
  revert i. induction l as [|x l IH]; intros i; [done|]. simpl. destruct (bool_decide_reflect (x = r)) as [->|Hne]; [by intros [= <-]|].
  destruct (index_of _ l) as [j|]; [|done]. intros [= <-]. simpl. by apply IH.
Qed.

Lemma index_app (r : region) l k i : index_of (fun x => bool_decide (x = r)) l = Some i ->
  index_of (fun x => bool_decide (x = r)) (l ++ k) = Some i.
Proof.
  revert i. induction l as [|x l IH]; intros i; [done|]. simpl. destruct (bool_decide _); [done|].
  destruct (index_of _ l) as [j|]; [|done]. intros [= <-]. by rewrite (IH j).
Qed.

Lemma apart_delete (l : list region) i :
  (forall a b r q, l !! a = Some r -> l !! b = Some q -> a <> b -> apart r q) ->
  forall a b r q, delete i l !! a = Some r -> delete i l !! b = Some q -> a <> b -> apart r q.
Proof.
  intros Hl a b r q. rewrite !list_lookup_delete. intros Ha Hb Hne. eapply Hl; [exact Ha|exact Hb|].
  destruct (decide (a < i)%nat), (decide (b < i)%nat); lia.
Qed.

Lemma delete_inside (l k : list region) i r : l !! i = Some r -> delete i (l ++ k) = delete i l ++ k.
Proof. revert i. induction l as [|x l IH]; intros [|i] Hi; simplify_eq/=; [done|]. f_equal. by apply IH. Qed.

Lemma delete_NoDup (l : list region) i : NoDup l -> NoDup (delete i l).
Proof. intros Hd. eapply sublist_NoDup; [exact Hd|]. apply sublist_delete. Qed.

(** The sizes that a client can ask for. *)
Definition call_ok (c : PageCall) : Prop := match c with CallAlloc count => 0 <= count | CallFree count _ => 0 <= count end.

Lemma awp_alloc image count (s : PageState) :
  recorded image s -> 0 <= count ->
  awp (child_page_allocator_alloc calloc_ok vspace_new_pages count) s
    (fun base s' => recorded image s' /\ 0 < base /\ Forall (apart (base, count)) (mapped s) /\
       allocations (allocator s') = (base, count) :: allocations (allocator s))
    (fun _ s' => recorded image s' /\ allocations (allocator s') = allocations (allocator s)).
Proof.
  intros R Hc. unfold child_page_allocator_alloc. apply awp_bind, awp_get. rewrite (rc_process _ _ R). simpl.
  destruct (Z.eqb_spec count 0) as [->|Hz]; [by apply awp_err|]. apply awp_bind. unfold awp at 1.
  set (s1 := mkPages _ _ _). assert (R1 : recorded image s1) by (by destruct R).
  destruct (calloc_ok _); simpl; [|by apply awp_err]. apply awp_bind, awp_get. simpl.
  destruct (vspace_new_pages (mapped s) count) as [base|] eqn:Eb; [|by apply awp_err].
  apply awp_bind, awp_put, awp_ret. destruct (new_pages_apart _ _ _ Eb) as [Hb Ha]. simpl. split_and!; try done.
  destruct R as [P M D A C]. rewrite Forall_lookup in Ha.
  assert (Hnew : (base, count) ∉ mapped s).
  { intros [i Hi]%list_elem_of_lookup. destruct (Ha _ _ Hi) as [H|H]; unfold region_end in H; simpl in H; change (2 ^ PAGE_BITS) with 4096 in H; lia. }
  split; simpl; [done|by rewrite M|by constructor| |constructor; [simpl; lia|done]].
  intros [|i] [|j] r q Hi Hj Hne; simpl in *; [done| | |by eapply A; [exact Hi|exact Hj|lia]].
  - injection Hi as <-. by eapply Ha.
  - injection Hj as <-. destruct (Ha _ _ Hi); [by right|by left].
Qed.

Lemma awp_free image count base (s : PageState) :
  recorded image s -> 0 <= count ->
  awp (child_page_allocator_free count base) s
    (fun _ s' => recorded image s' /\ (base, count) ∈ allocations (allocator s) /\
       allocations (allocator s) ≡ₚ (base, count) :: allocations (allocator s'))
    (fun _ s' => s' = s /\ (base, count) ∉ allocations (allocator s)).
Proof.
  intros R Hc. destruct R as [P M D A C]. unfold child_page_allocator_free. apply awp_bind, awp_get. rewrite P. simpl.
  rewrite Forall_forall in C. destruct (Z.eqb_spec count 0) as [->|Hz]; simpl.
  { apply awp_err. split; [done|]. intros Hin%C. simpl in Hin. lia. }
  destruct (Z.eqb_spec base 0) as [->|Hb]; simpl. { apply awp_err. split; [done|]. intros Hin%C. simpl in Hin. lia. }
  assert (Hd : NoDup (allocations (allocator s))) by (rewrite M in D; by apply NoDup_app in D as [D _]).
  destruct (index_of _ (allocations (allocator s))) as [i|] eqn:Ei.
  - pose proof (index_some _ _ _ Ei) as Hi. apply awp_bind. unfold awp at 1, vspace_unmap_pages. rewrite M, (index_app _ _ _ _ Ei).
    apply awp_put. simpl. split_and!; [|by eapply list_elem_of_lookup_2|by apply delete_Permutation].
    split; simpl; [done|by erewrite delete_inside|rewrite <- M; by apply delete_NoDup|rewrite <- M; by apply apart_delete|].
    apply Forall_forall. intros r Hr. apply C. rewrite (delete_Permutation _ _ _ Hi), elem_of_cons. by right.
  - apply awp_err. split; [done|]. intros Hin. destruct (index_found _ _ Hin Hd) as (j & Hj & _). congruence.
Qed.

Lemma recorded_call image c (s : PageState) : recorded image s -> call_ok c -> recorded image (snd (page_call c s)).
Proof.
  intros R Hc. destruct c as [count|count base]; simpl in *.
  - pose proof (awp_alloc image count s R Hc) as Ha. unfold awp, fbind in *.
    by destruct (child_page_allocator_alloc _ _ count s) as [[b|e|] s']; simpl; [apply Ha|apply Ha|].
  - pose proof (awp_free image count base s R Hc) as Ha. unfold awp in Ha.
    destruct (child_page_allocator_free count base s) as [[b|e|] s']; simpl; [apply Ha|by destruct Ha as [-> _]|done].
Qed.

Lemma recorded_calls image calls (s : PageState) :
  recorded image s -> Forall call_ok calls -> recorded image (fold_left (fun s c => snd (page_call c s)) calls s).
Proof. intros R Hc. revert s R. induction Hc as [|c calls Hc _ IH]; intros s R; [done|]. simpl. by apply IH, recorded_call. Qed.

Lemma unmap_all_spec l rest (s : PageState) :
  mapped s = l ++ rest -> exists s', unmap_all true l s = (Ok tt, s') /\ mapped s' = rest /\ allocator s' = allocator s.
Proof.
  revert s. induction l as [|r l IH]; intros s M; [by exists s|]. simpl. unfold fbind, vspace_unmap_pages. rewrite M. simpl.
  rewrite bool_decide_true by done. apply (IH (mkPages _ _ _)). done.
Qed.

Lemma destroy_spec image (s : PageState) :
  recorded image s ->
  awp child_page_allocator_destroy s (fun _ s' => mapped s' = image /\ allocator s' = mkAllocator false 0 []) (fun _ _ => False).
Proof.
  intros [P M _ _ _]. unfold child_page_allocator_destroy. apply awp_bind, awp_get, awp_bind. rewrite P.
  destruct (unmap_all_spec _ _ _ M) as (s' & E & M' & _). unfold awp at 1. rewrite E. by apply awp_put.
Qed.

End Calls.

(** C30: The pages of a client are accounted for: whatever sequence of requests a client
    makes, and whichever allocations fail, nothing that is not mapped is unmapped and
    the regions of the client stay apart from each other and from everything mapped
    before; a region is given back exactly if it was allocated with that base and that
    number of pages and has not been given back, and otherwise nothing changes; a new
    region overlaps none that is mapped; and the end of the client unmaps exactly what
    it still holds.  The address space is only relied on for giving new regions that
    overlap no other. *)
Theorem child_pages_accounted calloc_ok vspace_new_pages image calls (s : PageState) :
  (forall m count base, vspace_new_pages m count = Some base -> 0 < base /\ Forall (apart (base, count)) m) ->
  recorded image s -> Forall call_ok calls ->
  let s' := fold_left (fun s c => snd (page_call calloc_ok vspace_new_pages c s)) calls s in
  recorded image s' /\
  (forall count, 0 <= count ->
     awp (child_page_allocator_alloc calloc_ok vspace_new_pages count) s'
       (fun base _ => 0 < base /\ Forall (apart (base, count)) (mapped s')) (fun _ s2 => mapped s2 = mapped s')) /\
  (forall count base, 0 <= count ->
     awp (child_page_allocator_free count base) s'
       (fun _ s2 => allocations (allocator s') ≡ₚ (base, count) :: allocations (allocator s2))
       (fun _ s2 => s2 = s' /\ (base, count) ∉ allocations (allocator s'))) /\
  awp child_page_allocator_destroy s' (fun _ s2 => mapped s2 = image /\ allocations (allocator s2) = []) (fun _ _ => False).
Proof.
  intros Hv R Hc s'. pose proof (recorded_calls calloc_ok vspace_new_pages Hv image calls s R Hc) as R'. fold s' in R'.
  split_and!; [done| | |].
  - intros count Hn. eapply awp_mono; [by apply (awp_alloc calloc_ok vspace_new_pages Hv image)| |].
    + intros base s2 (_ & Hb & Ha & _). done.
    + intros ? s2 [R2 Hl]. by rewrite (rc_mapped _ _ R2), Hl, (rc_mapped _ _ R').
  - intros count base Hn. eapply awp_mono; [by apply (awp_free image)| |done]. by intros ? s2 (_ & _ & Hp).
  - eapply awp_mono; [by apply (destroy_spec image)| |done]. by intros ? s2 (-> & ->).
Qed.

(** An address space that grows. *)
Definition next_pages (m : list region) (count : Z) : option Z :=
  if count <=? 0 then None else Some (foldr Z.max 4096 (map region_end m)).

Lemma next_pages_apart m count base : next_pages m count = Some base -> 0 < base /\ Forall (apart (base, count)) m.
Proof.
  unfold next_pages. destruct (count <=? 0); [done|]. intros [= <-].
  assert (H : 4096 <= foldr Z.max 4096 (map region_end m) /\ Forall (fun r => region_end r <= foldr Z.max 4096 (map region_end m)) m).
  { induction m as [|r m [IH1 IH2]]; simpl; [by split; [|constructor]|]. split; [lia|]. constructor; [lia|].
    eapply Forall_impl; [exact IH2|]. simpl. lia. }
  destruct H as [H1 H2]. split; [lia|]. eapply Forall_impl; [exact H2|]. intros r Hr. by right.
Qed.

Lemma child_pages_accounted_witness :
  let s := mkPages [(4096, 3)] (mkAllocator true 9 []) 0 in
  let calls := [CallAlloc 2; CallAlloc 0; CallAlloc 1; CallFree 2 16384; CallFree 2 16384] in
  let s' := fold_left (fun s c => snd (page_call (fun _ => true) next_pages c s)) calls s in
  recorded [(4096, 3)] s' /\ mapped s' = [(24576, 1); (4096, 3)] /\
  awp child_page_allocator_destroy s' (fun _ s2 => mapped s2 = [(4096, 3)] /\ allocations (allocator s2) = []) (fun _ _ => False).
Proof.
  intros s calls s'.
  destruct (child_pages_accounted (fun _ => true) next_pages [(4096, 3)] calls s next_pages_apart) as (R & _ & _ & Hd).
  - split; simpl; [done|done|apply NoDup_singleton| |constructor]. intros [|i] [|j] r q Hi Hj Hne; [done|done|done|done].
  - repeat constructor; simpl; lia.
  - split; [exact R|]. split; [vm_compute; reflexivity|exact Hd].
Defined.

(** The test of a new allocator passes whenever a page can be had, and leaves the
    allocator as it was. *)
Lemma self_test_passes calloc_ok vspace_new_pages image (s : PageState) :
  (forall m count base, vspace_new_pages m count = Some base -> 0 < base /\ Forall (apart (base, count)) m) ->
  recorded image s -> calloc_ok (pa_steps s) = true -> is_Some (vspace_new_pages (mapped s) 1) ->
  exists s', child_page_allocator_self_test calloc_ok vspace_new_pages s = (Ok tt, s') /\
    mapped s' = mapped s /\ allocations (allocator s') = allocations (allocator s).
Proof.
  intros Hv [P M _ _ _] Ha [base Hb]. destruct (Hv _ _ _ Hb) as [Hpos Hap]. destruct s as [m [pr h al] st]. simpl in *. subst pr.
  assert (Hz : (base =? 0) = false) by lia.
  unfold child_page_allocator_self_test, succeeds, ftry, child_page_allocator_alloc, child_page_allocator_free, fbind, fget. simpl.
  rewrite Ha. simpl. rewrite Hb. simpl. rewrite Hz. simpl. rewrite bool_decide_true by done. unfold vspace_unmap_pages. simpl.
  rewrite bool_decide_true by done. simpl. destruct (index_of _ al) as [i|] eqn:Ei.
  - exfalso. apply index_some in Ei. assert (Hi : m !! i = Some (base, 1)) by (rewrite M; by apply lookup_app_l_Some).
    rewrite Forall_lookup in Hap. destruct (Hap _ _ Hi) as [H|H]; unfold region_end in H; simpl in H; change (2 ^ PAGE_BITS) with 4096 in H; lia.
  - eexists. split; [reflexivity|]. done.
Qed.
