(* ===== verification/SeatConsole.v ===== *)
(** The screens of a PC seat (src/src/seat/pc_console.c): one screen of 25 rows per
    terminal, of which the active one is presented.

    The specification is a sheet of paper that has no end: every byte is printed on the
    sheet, and a screen is the window on its last 25 rows.  A store outside the cells
    of a screen has no result ([None]).  The pointer to the console is never null here;
    a status other than 0 is the code [FACET_ERROR]. *)
From S2P Require Import Prelude Effects.
#[local] Open Scope facet_scope.

Definition SEAT_PC_TERMINALS : nat := 5.
Definition SEAT_PC_COLUMNS : Z := 80.
Definition SEAT_PC_ROWS : Z := 25.
Definition SEAT_PC_CELLS : Z := SEAT_PC_COLUMNS * SEAT_PC_ROWS.

(** A grey space on black. *)
Definition BLANK_CELL : Z := 0x0720.

Record SeatPCScreen := mkScreen {
  cells : list Z;
  cursor : Z
}.

Record SeatPCConsole := mkConsole {
  screens : list SeatPCScreen;
  console_active : nat
}.

(** ** Operations *)

Definition set_cell (i v : Z) (l : list Z) : list Z := <[Z.to_nat i := v]> l.

(** The part of the screen below the first row moves up, and the last row is cleared
    cell by cell. *)
Definition moved_up (l : list Z) : list Z :=
  drop (Z.to_nat SEAT_PC_COLUMNS) l ++ drop (Z.to_nat (SEAT_PC_CELLS - SEAT_PC_COLUMNS)) l.

Definition scroll_screen (screen : SeatPCScreen) : SeatPCScreen :=
  mkScreen (foldl (fun l i => set_cell i BLANK_CELL l) (moved_up (cells screen))
              (seqZ (SEAT_PC_CELLS - SEAT_PC_COLUMNS) SEAT_PC_COLUMNS))
           (SEAT_PC_CELLS - SEAT_PC_COLUMNS).

Definition scroll_if_full (screen : SeatPCScreen) : SeatPCScreen :=
  if SEAT_PC_CELLS <=? cursor screen then scroll_screen screen else screen.

(** [screen->cells[screen->cursor] = v]. *)
Definition store_cell (v : Z) (screen : SeatPCScreen) : option SeatPCScreen :=
  if cursor screen <? zlen (cells screen)
  then Some (mkScreen (set_cell (cursor screen) v (cells screen)) (cursor screen)) else None.

Definition move_to (c : Z) (screen : SeatPCScreen) : SeatPCScreen := mkScreen (cells screen) (u64 c).

Fixpoint repeat_step {A} (n : nat) (f : A -> option A) (a : A) : option A :=
  match n with O => Some a | S n => f a ≫= repeat_step n f end.

(** A tab is printed by calls for its spaces; [depth] bounds the nesting of calls. *)
Fixpoint put_byte_nested (depth : nat) (screen : SeatPCScreen) (byte : Z) : option SeatPCScreen :=
  match depth with
  | O => None
  | S depth =>
      let c := cursor screen in
      scroll_if_full <$>
      (if byte =? 13 then Some (move_to (c - c mod SEAT_PC_COLUMNS) screen)
       else if byte =? 10 then Some (move_to (c + (SEAT_PC_COLUMNS - c mod SEAT_PC_COLUMNS)) screen)
       else if byte =? 8 then store_cell BLANK_CELL (if negb (c =? 0) then move_to (c - 1) screen else screen)
       else if byte =? 9 then repeat_step (Z.to_nat (8 - c mod 8)) (fun s => put_byte_nested depth s 32) screen
       else if ((32 <=? byte) && (byte <? 127))%bool then
         (fun s => move_to (cursor s + 1) s) <$> store_cell (u16 (Z.lor 0x0700 byte)) (scroll_if_full screen)
       else Some screen)
  end.

Definition put_byte : SeatPCScreen -> Z -> option SeatPCScreen := put_byte_nested 2.

Definition blank_screen : SeatPCScreen := mkScreen (replicate (Z.to_nat SEAT_PC_CELLS) BLANK_CELL) 0.

Definition seat_pc_console_initialize : SeatPCConsole :=
  mkConsole (replicate SEAT_PC_TERMINALS blank_screen) 0.

(** [for (i = 0; i < size; i++) put_byte(screen, data[i])]. *)
Fixpoint put_bytes (screen : SeatPCScreen) (data : bytes) : option SeatPCScreen :=
  match data with [] => Some screen | b :: data => put_byte screen b ≫= fun s => put_bytes s data end.

Section Console.
Context {D : Type} (present : option (list Z -> Z -> Z -> Eff D unit)).

Abbreviation Con := (Eff (SeatPCConsole * D)).

Definition on_device {A} (m : Eff D A) : Con A := fun s =>
  match m (snd s) with (r, d) => (r, (fst s, d)) end.

Definition seat_pc_console_present : Con unit :=
  run console <- fget fst;
  match present with
  | None => ferr FACET_ERROR
  | Some present =>
      if negb (console_active console <? SEAT_PC_TERMINALS)%nat then ferr FACET_ERROR
      else match screens console !! console_active console with
           | None => ffault
           | Some screen => on_device (present (cells screen) SEAT_PC_CELLS (cursor screen))
           end
  end.

Definition seat_pc_console_select (terminal : nat) : Con unit :=
  if negb (terminal <? SEAT_PC_TERMINALS)%nat then ferr FACET_ERROR
  else
    fput (fun s => (mkConsole (screens (fst s)) terminal, snd s)) ;;
    seat_pc_console_present.

(** Reading past the end of the data is a fault. *)
Definition seat_pc_console_write (terminal : nat) (data : option bytes) (size : Z) : Con unit :=
  if (negb (terminal <? SEAT_PC_TERMINALS)%nat || (bool_decide (data = None) && negb (size =? 0)))%bool
  then ferr FACET_ERROR
  else if zlen (default [] data) <? size then ffault
  else
    run console <- fget fst;
    match screens console !! terminal ≫= fun s => put_bytes s (take (Z.to_nat size) (default [] data)) with
    | None => ffault
    | Some screen =>
        fput (fun s => (mkConsole (<[terminal := screen]> (screens (fst s))) (console_active (fst s)), snd s)) ;;
        if (terminal =? console_active console)%nat then seat_pc_console_present else fret tt
    end.

End Console.

(** ** The sheet of paper *)

(** [top] is the number of the first row that is still on the screen. *)
Record Paper := mkPaper {
  ink : Z -> Z;
  pos : Z;
  top : Z
}.

Definition blank_paper : Paper := mkPaper (fun _ => BLANK_CELL) 0 0.

(** The window follows the print, and does not go back. *)
Definition follow (p : Paper) : Paper :=
  mkPaper (ink p) (pos p) (Z.max (top p) (pos p / SEAT_PC_COLUMNS - (SEAT_PC_ROWS - 1))).

Definition paint (from upto v : Z) (f : Z -> Z) : Z -> Z :=
  fun i => if ((from <=? i) && (i <? upto))%bool then v else f i.

Definition next_multiple (k x : Z) : Z := (x / k + 1) * k.

Definition paper_put (p : Paper) (byte : Z) : Paper :=
  follow (
    if byte =? 13 then mkPaper (ink p) (pos p / SEAT_PC_COLUMNS * SEAT_PC_COLUMNS) (top p)
    else if byte =? 10 then mkPaper (ink p) (next_multiple SEAT_PC_COLUMNS (pos p)) (top p)
    else if byte =? 8 then
      let back := Z.max (top p * SEAT_PC_COLUMNS) (pos p - 1) in
      mkPaper (paint back (back + 1) BLANK_CELL (ink p)) back (top p)
    else if byte =? 9 then mkPaper (paint (pos p) (next_multiple 8 (pos p)) BLANK_CELL (ink p)) (next_multiple 8 (pos p)) (top p)
    else if ((32 <=? byte) && (byte <? 127))%bool then
      mkPaper (paint (pos p) (pos p + 1) (0x0700 + byte) (ink p)) (pos p + 1) (top p)
    else p).

Definition paper_of (data : bytes) : Paper := foldl paper_put blank_paper data.

(** The screen is the window of the paper, which is blank below it. *)
Record window (p : Paper) (screen : SeatPCScreen) : Prop := {
  wi_length : zlen (cells screen) = SEAT_PC_CELLS;
  wi_cells : forall i, 0 <= i < SEAT_PC_CELLS -> cells screen !! Z.to_nat i = Some (ink p (top p * SEAT_PC_COLUMNS + i));
  wi_below : forall i, (top p + SEAT_PC_ROWS) * SEAT_PC_COLUMNS <= i -> ink p i = BLANK_CELL;
  wi_cursor : cursor screen = pos p - top p * SEAT_PC_COLUMNS;
  wi_top : 0 <= top p
}.

Definition shows (p : Paper) (screen : SeatPCScreen) : Prop := window p screen /\ 0 <= cursor screen < SEAT_PC_CELLS.

(** ** A byte on the screen is a byte on the paper *)

Lemma seat_constants : SEAT_PC_COLUMNS = 80 /\ SEAT_PC_ROWS = 25 /\ SEAT_PC_CELLS = 2000.
Proof. done. Qed.

(** Linear arithmetic with the dimensions of the screen. *)
Ltac dims := destruct seat_constants as (EqC & EqR & EqN); rewrite ?EqC, ?EqR, ?EqN in *; clear EqC EqR EqN.

(** Case analysis on the tests of intervals in the goal. *)
Ltac ranges :=
  repeat case_match; bool_props;
  repeat (match goal with H : (_ && _)%bool = false |- _ => apply andb_false_iff in H as [H|H] end; bool_props).

Lemma length_set_cells v l js : length (foldl (fun l i => set_cell i v l) l js) = length l.
Proof. revert l. induction js as [|i js IH]; intros l; simpl; [done|]. rewrite IH. apply length_insert. Qed.

Lemma lookup_set_cells v l a n j : 0 <= a -> 0 <= j < zlen l ->
  foldl (fun l i => set_cell i v l) l (seqZ a n) !! Z.to_nat j =
  if ((a <=? j) && (j <? a + n))%bool then Some v else l !! Z.to_nat j.
Proof.
  intros Ha Hj. destruct (decide (0 <= n)) as [Hn|Hn].
  2: { rewrite seqZ_nil by lia. simpl. ranges; (done || lia). }
  revert n Hn a l Ha Hj. refine (natlike_ind _ _ _); [|intros n Hn IH].
  - intros a l Ha Hj. rewrite seqZ_nil by lia. simpl. ranges; (done || lia).
  - intros a l Ha Hj. rewrite seqZ_cons by lia. simpl. rewrite Z.pred_succ. unfold zlen in *.
    rewrite IH by (unfold set_cell; rewrite ?length_insert; lia). unfold set_cell.
    destruct (decide (a = j)) as [->|Hne].
    + rewrite list_lookup_insert_eq by lia. ranges; (done || lia).
    + rewrite list_lookup_insert_ne by lia. ranges; (done || lia).
Qed.

Lemma lookup_set_cell i v l j : 0 <= i < zlen l -> 0 <= j ->
  set_cell i v l !! Z.to_nat j = if i =? j then Some v else l !! Z.to_nat j.
Proof.
  unfold set_cell, zlen. intros Hi Hj. case_match; bool_props; subst.
  - apply list_lookup_insert_eq. lia.
  - apply list_lookup_insert_ne. lia.
Qed.

Lemma lookup_moved_up l j : zlen l = SEAT_PC_CELLS -> 0 <= j < SEAT_PC_CELLS - SEAT_PC_COLUMNS ->
  moved_up l !! Z.to_nat j = l !! Z.to_nat (SEAT_PC_COLUMNS + j).
Proof.
  unfold moved_up, zlen. dims. intros Hl Hj. rewrite lookup_app_l by (rewrite length_drop; lia).
  rewrite lookup_drop. f_equal. lia.
Qed.

Lemma length_moved_up l : zlen l = SEAT_PC_CELLS -> zlen (moved_up l) = SEAT_PC_CELLS.
Proof. unfold moved_up, zlen. dims. intros Hl. rewrite length_app, !length_drop. lia. Qed.

(** The end of [put_byte]: the screen follows the print. *)
Lemma scroll_follows p s : window p s -> 0 <= cursor s <= SEAT_PC_CELLS -> shows (follow p) (scroll_if_full s).
Proof.
  intros [Hl Hc Hb Hp Ht] Hin. unfold shows, scroll_if_full, follow. destruct (SEAT_PC_CELLS <=? cursor s) eqn:E; bool_props.
  - assert (pos p / SEAT_PC_COLUMNS = top p + SEAT_PC_ROWS) as Hrow.
    { dims. replace (pos p) with ((top p + 25) * 80) by lia. apply Z.div_mul. lia. }
    rewrite Hrow. replace (Z.max _ _) with (top p + 1) by (dims; lia).
    unfold scroll_screen. split; [split|]; cbn [cells cursor ink pos top]; [| | |dims; lia..].
    + unfold zlen. rewrite length_set_cells. by apply length_moved_up.
    + intros i Hi. rewrite lookup_set_cells by (rewrite ?length_moved_up by done; dims; lia).
      ranges.
      * rewrite Hb by (dims; lia). done.
      * rewrite lookup_moved_up by (done || dims; lia). rewrite Hc by (dims; lia). do 2 f_equal. lia.
      * dims; lia.
    + intros i Hi. apply Hb. dims; lia.
  - assert (pos p / SEAT_PC_COLUMNS < top p + SEAT_PC_ROWS) as Hrow.
    { apply Z.div_lt_upper_bound; dims; lia. }
    replace (Z.max _ _) with (top p) by (dims; lia). by split; [split|lia].
Qed.

Lemma shows_window p s : shows p s -> window p s /\ 0 <= cursor s <= SEAT_PC_CELLS /\ scroll_if_full s = s.
Proof.
  intros [Hw Hi]. split_and!; [done|lia..|]. unfold scroll_if_full.
  destruct (SEAT_PC_CELLS <=? cursor s) eqn:E; bool_props; [lia|done].
Qed.

(** Writing the cell under the cursor. *)
Lemma store_paints p s v : shows p s ->
  exists s', store_cell v s = Some s' /\ cursor s' = cursor s /\
    window (mkPaper (paint (pos p) (pos p + 1) v (ink p)) (pos p) (top p)) s'.
Proof.
  intros [[Hl Hc Hb Hp Ht] Hin]. unfold store_cell. rewrite (proj2 (Z.ltb_lt _ _)) by lia.
  eexists. split_and!; [done..|]. split; simpl; [| | |done..].
  - unfold zlen, set_cell in *. by rewrite length_insert.
  - intros i Hi. rewrite lookup_set_cell by lia. unfold paint.
    ranges; try lia; first [done|by apply Hc].
  - intros i Hi. unfold paint. ranges; (by apply Hb) || (dims; lia).
Qed.

(** Moving the cursor without a change of the paper. *)
Lemma move_window p s f c : window (mkPaper f (pos p) (top p)) s -> 0 <= c - top p * SEAT_PC_COLUMNS <= SEAT_PC_CELLS ->
  window (mkPaper f c (top p)) (move_to (c - top p * SEAT_PC_COLUMNS) s) /\
  cursor (move_to (c - top p * SEAT_PC_COLUMNS) s) = c - top p * SEAT_PC_COLUMNS.
Proof.
  intros [Hl Hc Hb Hp Ht] Hin. unfold move_to, u64. simpl in *.
  rewrite Z.mod_small by (dims; lia). split; [split; simpl; done|done].
Qed.

(** A printable byte. *)
Lemma u16_glyph byte : 32 <= byte < 127 -> u16 (Z.lor 0x0700 byte) = 0x0700 + byte.
Proof.
  intros Hb. assert (Z.land 0x0700 byte = 0) as Hd.
  { apply Z.bits_inj'. intros n Hn. rewrite Z.land_spec, Z.bits_0. destruct (decide (n < 7)).
    - assert (n = 0 \/ n = 1 \/ n = 2 \/ n = 3 \/ n = 4 \/ n = 5 \/ n = 6) as Hc by lia.
      by destruct Hc as [->|[->|[->|[->|[->|[->| ->]]]]]].
    - rewrite (Z.bits_above_log2 byte n); [apply andb_false_r|lia|].
      apply (Z.lt_le_trans _ 7); [|lia]. apply Z.log2_lt_pow2; lia. }
  rewrite <- Z.add_nocarry_lor by done. unfold u16. apply Z.mod_small. lia.
Qed.

Lemma put_glyph depth p s byte : shows p s -> 32 <= byte < 127 ->
  exists s', put_byte_nested (S depth) s byte = Some s' /\
    shows (follow (mkPaper (paint (pos p) (pos p + 1) (0x0700 + byte) (ink p)) (pos p + 1) (top p))) s'.
Proof.
  intros Hs Hb. pose proof (shows_window _ _ Hs) as (Hw & Hi & Hfull).
  destruct (store_paints p s (0x0700 + byte) Hs) as (s1 & Hst & Hcur & Hw1).
  cbn [put_byte_nested]. rewrite !(proj2 (Z.eqb_neq _ _)), (proj2 (Z.leb_le _ _)), (proj2 (Z.ltb_lt _ _)) by lia.
  cbn [andb]. rewrite Hfull, u16_glyph, Hst by lia. eexists. split; [done|].
  destruct Hs as [[_ _ _ Hp _] Hin]. rewrite Hcur, Hp. replace (pos p - _ + 1) with (pos p + 1 - top p * SEAT_PC_COLUMNS) by lia.
  destruct (move_window p s1 (paint (pos p) (pos p + 1) (0x0700 + byte) (ink p)) (pos p + 1)) as [Hm Hc]; [done|lia|].
  apply scroll_follows; [done|]. rewrite Hc. lia.
Qed.

(** Two papers with the same ink. *)
Lemma shows_ext p q s : (forall i, ink p i = ink q i) -> pos p = pos q -> top p = top q -> shows p s -> shows q s.
Proof.
  intros Hi Hp Ht [[Hl Hc Hb Hcur Htop] Hin]. split; [split|done]; rewrite <- ?Hp, <- ?Ht; try done.
  - intros i Hr. by rewrite <- Hi, Hc.
  - intros i Hr. rewrite <- Hi. by apply Hb.
Qed.

(** The spaces of a tab, up to the end of the row. *)
Lemma put_spaces n : forall p s, shows p s -> pos p mod SEAT_PC_COLUMNS + Z.of_nat n <= SEAT_PC_COLUMNS ->
  exists s', repeat_step n (fun s => put_byte_nested 1 s 32) s = Some s' /\
    shows (follow (mkPaper (paint (pos p) (pos p + Z.of_nat n) BLANK_CELL (ink p)) (pos p + Z.of_nat n) (top p))) s'.
Proof.
  induction n as [|n IH]; intros p s Hs Hrow.
  - exists s. split; [done|]. pose proof (shows_window _ _ Hs) as (Hw & Hi & Hfull). rewrite <- Hfull.
    apply scroll_follows; [|done]. destruct Hw as [Hl Hc Hb Hp Ht]. split; simpl; [done| | |lia|done].
    + intros i Hr. rewrite Hc by done. unfold paint. ranges; (done || lia).
    + intros i Hr. unfold paint. ranges; (by apply Hb) || lia.
  - destruct (put_glyph 0 p s 32 Hs) as (s1 & Hp1 & Hs1); [lia|]. cbn [repeat_step]. rewrite Hp1. cbn [mbind option_bind].
    destruct n as [|n].
    + exists s1. split; [done|]. by replace (Z.of_nat 1) with 1 by lia.
    + assert (pos p / SEAT_PC_COLUMNS = (pos p + 1) / SEAT_PC_COLUMNS /\ (pos p + 1) mod SEAT_PC_COLUMNS = pos p mod SEAT_PC_COLUMNS + 1) as [Hdiv Hmod].
      { dims. pose proof (Z.div_mod (pos p) 80). pose proof (Z.mod_pos_bound (pos p) 80).
        split; [apply (Z.div_unique _ _ _ (pos p mod 80 + 1))|symmetry; apply (Z.mod_unique _ _ (pos p / 80))]; lia. }
      assert (pos p / SEAT_PC_COLUMNS - (SEAT_PC_ROWS - 1) <= top p) as Htop.
      { destruct Hs as [[_ _ _ Hp _] Hin]. pose proof (Z.mul_div_le (pos p) SEAT_PC_COLUMNS). dims. lia. }
      destruct (IH _ _ Hs1) as (s2 & Hr & Hs2); [simpl; lia|]. exists s2. split; [done|].
      replace (pos p + Z.of_nat (S (S n))) with (pos p + 1 + Z.of_nat (S n)) by lia.
      eapply shows_ext, Hs2; cbn [ink pos top follow]; [|done|].
      * intros i. unfold paint. ranges; done || lia.
      * rewrite <- Hdiv. by rewrite (Z.max_l (top p)) by lia.
Qed.

(** The paper after a tab is the paper after its spaces. *)
Lemma next_multiple_eq k x : 0 < k -> next_multiple k x = x + (k - x mod k).
Proof. intros Hk. unfold next_multiple. pose proof (Z.div_mod x k). lia. Qed.

Lemma tab_in_row x : x mod SEAT_PC_COLUMNS + (8 - x mod 8) <= SEAT_PC_COLUMNS.
Proof.
  dims. assert (x mod 8 = (x mod 80) mod 8) as ->.
  { rewrite <- (Znumtheory.Zmod_div_mod 8 80 x); [done|lia..|]. by exists 10. }
  pose proof (Z.mod_pos_bound x 80 ltac:(lia)). pose proof (Z.div_mod (x mod 80) 8).
  pose proof (Z.mod_pos_bound (x mod 80) 8). lia.
Qed.

(** The column and the position in a row of tabs are those of the paper. *)
Lemma cursor_mod p s k : shows p s -> (k | SEAT_PC_COLUMNS) -> cursor s mod k = pos p mod k.
Proof.
  intros [[_ _ _ -> _] _] [d ->]. replace (pos p - _) with (pos p + (- (top p * d)) * k) by lia. apply Z_mod_plus_full.
Qed.

Lemma follow_same p s : shows p s -> shows (follow p) s.
Proof. intros Hs. destruct (shows_window _ _ Hs) as (Hw & Hi & <-). by apply scroll_follows. Qed.

(** Moving the cursor: carriage return and line feed. *)
Lemma move_shows p s c d : shows p s -> c = d - top p * SEAT_PC_COLUMNS -> 0 <= c <= SEAT_PC_CELLS ->
  shows (follow (mkPaper (ink p) d (top p))) (scroll_if_full (move_to c s)).
Proof.
  intros [Hw _] -> Hr. assert (window (mkPaper (ink p) (pos p) (top p)) s) as Hw' by (destruct Hw; by split).
  destruct (move_window p s (ink p) d Hw' Hr) as [Hm Hcur]. apply scroll_follows; [done|]. by rewrite Hcur.
Qed.

Lemma put_backspace p s : shows p s -> let back := Z.max (top p * SEAT_PC_COLUMNS) (pos p - 1) in
  exists s', store_cell BLANK_CELL (if negb (cursor s =? 0) then move_to (cursor s - 1) s else s) = Some s' /\
    shows (follow (mkPaper (paint back (back + 1) BLANK_CELL (ink p)) back (top p))) (scroll_if_full s').
Proof.
  intros Hs. pose proof Hs as [[_ _ _ Hp _] Hin]. intros back.
  assert (exists s0, (if negb (cursor s =? 0) then move_to (cursor s - 1) s else s) = s0 /\
    shows (mkPaper (ink p) back (top p)) s0) as (s0 & -> & Hs0).
  { eexists. split; [done|]. unfold back. destruct (cursor s =? 0) eqn:E; bool_props; simpl.
    - rewrite Z.max_l by lia. apply (shows_ext p); (done || simpl; lia).
    - rewrite Z.max_r by lia. destruct Hs as [Hw _].
      assert (window (mkPaper (ink p) (pos p) (top p)) s) as Hw' by (destruct Hw; by split).
      replace (cursor s - 1) with (pos p - 1 - top p * SEAT_PC_COLUMNS) by lia.
      destruct (move_window p s (ink p) (pos p - 1) Hw') as [Hm Hc]; [lia|]. split; [done|]. rewrite Hc. lia. }
  destruct (store_paints _ s0 BLANK_CELL Hs0) as (s1 & -> & Hc & Hw). exists s1. split; [done|].
  apply scroll_follows; [done|]. rewrite Hc. destruct Hs0. lia.
Qed.

Lemma put_tab s : put_byte_nested 2 s 9 =
  scroll_if_full <$> repeat_step (Z.to_nat (8 - cursor s mod 8)) (fun s => put_byte_nested 1 s 32) s.
Proof. done. Qed.

(** A byte on the screen is a byte on the paper, and no cell outside the screen is
    touched. *)
Lemma put_byte_shows p s byte : shows p s -> exists s', put_byte s byte = Some s' /\ shows (paper_put p byte) s'.
Proof.
  intros Hs. pose proof Hs as [[_ _ _ Hp _] Hin].
  pose proof (cursor_mod p s SEAT_PC_COLUMNS Hs ltac:(by exists 1)) as Hcol.
  pose proof (cursor_mod p s 8 Hs ltac:(by exists 10)) as Htab.
  pose proof (Z.div_mod (cursor s) SEAT_PC_COLUMNS). pose proof (Z.mod_pos_bound (cursor s) SEAT_PC_COLUMNS).
  unfold put_byte, paper_put.
  destruct ((32 <=? byte) && (byte <? 127))%bool eqn:Eg; bool_props.
  { rewrite !(proj2 (Z.eqb_neq _ _)) by lia. by apply put_glyph. }
  destruct (byte =? 9) eqn:E9; bool_props.
  { subst byte. rewrite put_tab. simpl (if _ =? _ then _ else _).
    destruct (put_spaces (Z.to_nat (8 - cursor s mod 8)) p s Hs) as (s' & -> & Hs').
    { pose proof (tab_in_row (pos p)). pose proof (Z.mod_pos_bound (pos p) 8). lia. }
    eexists. split; [done|]. rewrite (proj2 (proj2 (shows_window _ _ Hs'))).
    rewrite Z2Nat.id, Htab, <- next_multiple_eq in Hs' by (pose proof (Z.mod_pos_bound (cursor s) 8); lia). done. }
  cbn [put_byte_nested]. rewrite Eg, (proj2 (Z.eqb_neq byte 9)) by done.
  destruct (byte =? 13); [|destruct (byte =? 10); [|destruct (byte =? 8)]].
  - eexists. split; [done|]. apply (move_shows p); [done| |]; pose proof (Z.div_mod (pos p) SEAT_PC_COLUMNS); dims; lia.
  - eexists. split; [done|]. apply (move_shows p); [done|rewrite next_multiple_eq by (dims; lia)|]; dims; lia.
  - destruct (put_backspace p s Hs) as (s' & -> & Hs'). by exists (scroll_if_full s').
  - eexists. split; [done|]. rewrite (proj2 (proj2 (shows_window _ _ Hs))). by apply follow_same.
Qed.

Lemma put_bytes_shows data : forall p s, shows p s ->
  exists s', put_bytes s data = Some s' /\ shows (foldl paper_put p data) s'.
Proof.
  induction data as [|b data IH]; intros p s Hs; simpl; [eauto|].
  destruct (put_byte_shows p s b Hs) as (s1 & -> & Hs1). by apply IH.
Qed.

Lemma blank_shows : shows blank_paper blank_screen.
Proof.
  split; [split|]; [done| |done..]. intros i Hi. unfold blank_screen. cbn [cells].
  apply lookup_replicate_2. lia.
Qed.
