(* ===== verification/SeatDevice.v ===== *)
(** The devices of a seat server: the hardware cursor
    (src/src/seat/pc_cursor.c), and the keyboard, the screen memory and the serial line
    (src/src/seat/platform/sel4.c).

    A port access goes through the kernel to a device.  What a device answers depends
    on all accesses before ([port_in], [port_out]; [None] and [false] are errors of the
    kernel), and the accesses are logged.  The memory at the address of the screen is an
    argument ([memory_at]); a store outside of it is a fault.  [serial] selects the
    build for the serial line (FACET_SEAT_SERIAL), otherwise the build for a PC.  Output
    arguments are never null here, and a status other than 0 is the code
    [FACET_ERROR]. *)
From S2P Require Import Prelude Effects.
#[local] Open Scope facet_scope.

Inductive PortAccess :=
  | In8 (cap port : Z) (answer : option Z)
  | Out8 (cap port value : Z) (ok : bool).

(** The static variables of sel4.c; the log has the latest access first. *)
Record Device := mkDevice {
  port_log : list PortAccess;
  device0_cap : Z;
  device1_cap : Z;
  vga_memory : option (list Z);
  left_shift : bool;
  right_shift : bool;
  alt : bool;
  extended : bool
}.

Definition device_reset : Device := mkDevice [] 0 0 None false false false false.

Inductive SeatKeyKind := SEAT_KEY_NONE | SEAT_KEY_BYTE | SEAT_KEY_SWITCH_TERMINAL.

Record SeatKey := mkKey {
  kind : SeatKeyKind;
  key_byte : Z;
  terminal_index : Z
}.

Definition VGA_CRTC_INDEX : Z := 0x3d4.
Definition VGA_CRTC_DATA : Z := 0x3d5.
Definition VGA_CURSOR_START : Z := 0x0a.
Definition VGA_CURSOR_HIGH : Z := 0x0e.
Definition VGA_CURSOR_LOW : Z := 0x0f.
Definition VGA_CURSOR_DISABLED : Z := 0x20.

(** Scan codes 0 to 57. *)
Definition plain_keys : list Z :=
  [0; 0] ++ B "1234567890-=" ++ [8; 9] ++ B "qwertyuiop[]" ++ [13; 0] ++ B "asdfghjkl;'`" ++ [0] ++
  B "\zxcvbnm,./" ++ [0; 0; 0] ++ B " ".
Definition shifted_keys : list Z :=
  [0; 0] ++ B "!@#$%^&*()_+" ++ [8; 9] ++ B "QWERTYUIOP{}" ++ [13; 0] ++ B "ASDFGHJKL:" ++ [34] ++ B "~" ++ [0] ++
  B "|ZXCVBNM<>?" ++ [0; 0; 0] ++ B " ".

Definition translate_key (code : Z) (shift : bool) : Z :=
  if code <? zlen plain_keys then default 0 ((if shift then shifted_keys else plain_keys) !! Z.to_nat code) else 0.

Section Device.
Context (serial : bool) (memory_at : Z -> list Z).
Context (port_in : list PortAccess -> Z -> Z -> option Z) (port_out : list PortAccess -> Z -> Z -> Z -> bool).

Abbreviation Dev := (Eff Device).

Definition set_log (log : list PortAccess) (d : Device) : Device :=
  mkDevice log (device0_cap d) (device1_cap d) (vga_memory d) (left_shift d) (right_shift d) (alt d) (extended d).
Definition set_vga (m : option (list Z)) (d : Device) : Device :=
  mkDevice (port_log d) (device0_cap d) (device1_cap d) m (left_shift d) (right_shift d) (alt d) (extended d).
Definition set_caps (a b : Z) (d : Device) : Device :=
  mkDevice (port_log d) a b (vga_memory d) (left_shift d) (right_shift d) (alt d) (extended d).
Definition set_keys (left right a e : bool) (d : Device) : Device :=
  mkDevice (port_log d) (device0_cap d) (device1_cap d) (vga_memory d) left right a e.

Definition seL4_X86_IOPort_In8 (cap port : Z) : Dev (option Z) := fun d =>
  let r := u8 <$> port_in (port_log d) cap port in (Ok r, set_log (In8 cap port r :: port_log d) d).

Definition seL4_X86_IOPort_Out8 (cap port value : Z) : Dev bool := fun d =>
  let ok := port_out (port_log d) cap port value in (Ok ok, set_log (Out8 cap port value ok :: port_log d) d).

(** ** The cursor *)

Definition cursor_port_read (port : Z) : Dev Z :=
  run cap <- fget device1_cap;
  run input <- seL4_X86_IOPort_In8 cap port;
  match input with None => ferr FACET_ERROR | Some value => fret value end.

Definition cursor_port_write (port value : Z) : Dev unit :=
  run cap <- fget device1_cap;
  run ok <- seL4_X86_IOPort_Out8 cap port value;
  if negb ok then ferr FACET_ERROR else fret tt.

Definition read_register (index : Z) : Dev Z :=
  cursor_port_write VGA_CRTC_INDEX index ;;
  cursor_port_read VGA_CRTC_DATA.

Definition write_register (index value : Z) : Dev unit :=
  cursor_port_write VGA_CRTC_INDEX index ;;
  cursor_port_write VGA_CRTC_DATA value.

Definition seat_pc_cursor_enable : Dev unit :=
  run start <- read_register VGA_CURSOR_START;
  write_register VGA_CURSOR_START (u8 (Z.land start (Z.lnot VGA_CURSOR_DISABLED))).

Definition seat_pc_cursor_set (cell : Z) : Dev unit :=
  write_register VGA_CURSOR_LOW (u8 cell) ;;
  write_register VGA_CURSOR_HIGH (u8 (Z.shiftr cell 8)).

Definition update_cursor (cursor : Z) : Dev unit :=
  if 2 ^ 16 - 1 <? cursor then ferr FACET_ERROR else seat_pc_cursor_set (u16 cursor).

(** ** Start *)

(** The line is set to 8 bits without parity. *)
Definition serial_setup : list (Z * Z) :=
  [(0x3f9, 0x00); (0x3fb, 0x80); (0x3f8, 0x01); (0x3f9, 0x00); (0x3fb, 0x03); (0x3fa, 0xc7); (0x3fc, 0x0b)].

Fixpoint out_all (l : list (Z * Z)) : Dev unit :=
  match l with
  | [] => fret tt
  | (port, value) :: rest =>
      run cap <- fget device0_cap;
      run ok <- seL4_X86_IOPort_Out8 cap port value;
      out_all rest
  end.

Definition seat_platform_initialize (device0 device1 vga_address : Z) : Dev unit :=
  if ((device0 =? 0) || (UINT32_MAX <? device0) || (UINT32_MAX <? device1))%bool then ferr FACET_ERROR
  else
    fput (set_caps device0 device1) ;;
    if serial then out_all serial_setup
    else if ((device1 =? 0) || (vga_address =? 0))%bool then ferr FACET_ERROR
    else
      fput (set_vga (Some (memory_at vga_address))) ;;
      seat_pc_cursor_enable ;;
      update_cursor 0.

(** ** The serial line *)

(** [None] if no byte is waiting. *)
Definition seat_platform_read_byte : Dev (option Z) :=
  if serial then
    run cap <- fget device0_cap;
    run status <- seL4_X86_IOPort_In8 cap 0x3fd;
    match status with
    | None => fret None
    | Some status =>
        if Z.land status 1 =? 0 then fret None
        else
          run value <- seL4_X86_IOPort_In8 cap 0x3f8;
          match value with None => ferr FACET_ERROR | Some value => fret (Some value) end
    end
  else ferr FACET_ERROR.

Definition SPINS : nat := Z.to_nat 1000000.

(** [while (spins-- != 0)]: the value of [spins] at the end of the loop, which wraps
    around when the loop is left by its condition. *)
Fixpoint wait_ready (cap : Z) (spins : nat) : Dev Z :=
  match spins with
  | O => fret (u32 (0 - 1))
  | S spins =>
      run status <- seL4_X86_IOPort_In8 cap 0x3fd;
      match status with
      | None => ferr FACET_ERROR
      | Some status => if negb (Z.land status 0x20 =? 0) then fret (Z.of_nat spins) else wait_ready cap spins
      end
  end.

Fixpoint send_all (data : bytes) : Dev unit :=
  match data with
  | [] => fret tt
  | b :: data =>
      run cap <- fget device0_cap;
      run spins <- wait_ready cap SPINS;
      if spins =? 0 then ferr FACET_ERROR
      else
        run ok <- seL4_X86_IOPort_Out8 cap 0x3f8 b;
        if negb ok then ferr FACET_ERROR else send_all data
  end.

(** Reading past the end of the data is a fault. *)
Definition seat_platform_write (data : option bytes) (size : Z) : Dev unit :=
  if serial then
    if (bool_decide (data = None) && negb (size =? 0))%bool then ferr FACET_ERROR
    else if zlen (default [] data) <? size then ffault
    else send_all (take (Z.to_nat size) (default [] data))
  else ferr FACET_ERROR.

(** ** The screen *)

(** The first [count] words of the memory are those of the screen. *)
Definition seat_platform_present (cells : list Z) (count cursor : Z) : Dev unit :=
  if serial then ferr FACET_ERROR
  else
    run vga <- fget vga_memory;
    match vga with
    | None => ferr FACET_ERROR
    | Some memory =>
        if 80 * 25 <? count then ferr FACET_ERROR
        else if ((zlen cells <? count) || (zlen memory <? count))%bool then ffault
        else
          fput (set_vga (Some (take (Z.to_nat count) cells ++ drop (Z.to_nat count) memory))) ;;
          update_cursor cursor
    end.

(** ** The keyboard *)

(** A key, or [None] if there is none yet (the status 1). *)
Definition seat_platform_poll_key : Dev (option SeatKey) :=
  if serial then ferr FACET_ERROR
  else
    run cap <- fget device0_cap;
    run status <- seL4_X86_IOPort_In8 cap 0x64;
    match status with
    | None => ferr FACET_ERROR
    | Some status =>
        if Z.land status 1 =? 0 then fret None
        else
          run input <- seL4_X86_IOPort_In8 cap 0x60;
          match input with
          | None => ferr FACET_ERROR
          | Some raw =>
              run d <- fget id;
              if raw =? 0xe0 then fput (set_keys (left_shift d) (right_shift d) (alt d) true) ;; fret None
              else
                let released := negb (Z.land raw 0x80 =? 0) in
                let code := Z.land raw 0x7f in
                let left := if code =? 42 then negb released else left_shift d in
                let right := if code =? 54 then negb released else right_shift d in
                let a := if code =? 56 then negb released else alt d in
                fput (set_keys left right a (extended d)) ;;
                if (released || extended d)%bool then fput (set_keys left right a false) ;; fret None
                else if (a && (59 <=? code) && (code <=? 63))%bool
                then fret (Some (mkKey SEAT_KEY_SWITCH_TERMINAL 0 (u8 (code - 59))))
                else
                  let byte := translate_key code (left || right) in
                  if byte =? 0 then fret None else fret (Some (mkKey SEAT_KEY_BYTE byte 0))
          end
    end.

End Device.
