(* ===== verification/Seat.v ===== *)
(** The seat server (src/src/seat/main.c): the terminals of a seat with their input
    queues, their output, and the seat that names them.

    [serial] selects the build for the serial line, otherwise the build for a PC.  A
    terminal is known by its index.  The pointers that a call passes for its results
    are never null here.  The byte that a read returns is kept in a static buffer until
    the stub has copied it; here it is the value of the call.  The loop on the keyboard
    ends when the keyboard has no more keys; [polls] bounds it, and a keyboard that
    still has keys then is a fault, so that the theorems say how many are enough. *)
From stdpp Require Import gmap.
From S2P Require Import Prelude Environment Effects Handles SeatConsole SeatDevice.
#[local] Open Scope facet_scope.

Definition INPUT_CAPACITY : Z := 256.

(** The objects that the server exports. *)
Inductive SeatObject :=
  | ObjInput (i : nat)
  | ObjOutput (i : nat)
  | ObjControl (i : nat)
  | ObjTerminal (i : nat)
  | ObjSeat.

#[global] Instance SeatObject_eq_dec : EqDecision SeatObject.
Proof. solve_decision. Defined.

Record SeatTerminal := mkSeatTerm {
  input_handle : Z;
  output_handle : Z;
  terminal_handle : Z;
  control_handle : Z;
  term_name : bytes;
  input_bytes : list Z;
  input_head : Z;
  input_count : Z
}.

Definition terminal_reset : SeatTerminal :=
  mkSeatTerm 0 0 0 0 [] (replicate (Z.to_nat INPUT_CAPACITY) 0) 0 0.

Record SeatState := mkSeat {
  seat_world : World SeatObject;
  exported_seat : Z;
  seat_terminals : list SeatTerminal;
  terminal_count : nat;
  active : nat;
  console : SeatPCConsole;
  device : Device
}.

#[global] Instance seat_worldly : Worldly SeatState SeatObject := {
  world := seat_world;
  set_world w s := mkSeat w (exported_seat s) (seat_terminals s) (terminal_count s) (active s) (console s) (device s)
}.

#[global] Instance seat_worldly_laws : WorldlyLaws SeatState SeatObject.
Proof. split; [done..|]. by intros []. Qed.

Section Seat.
Context (IID_IGenericObject IID_IByteReader IID_IByteWriter IID_ITerminal IID_ITerminalControl IID_ISeat : iid).
Context (serial : bool) (memory_at : Z -> list Z).
Context (port_in : list PortAccess -> Z -> Z -> option Z) (port_out : list PortAccess -> Z -> Z -> Z -> bool).
Context (alloc_ok : nat -> bool) (polls : nat).

Abbreviation Srv := (Eff SeatState).

Definition set_terminals (l : list SeatTerminal) (s : SeatState) : SeatState :=
  mkSeat (seat_world s) (exported_seat s) l (terminal_count s) (active s) (console s) (device s).
Definition set_active (i : nat) (s : SeatState) : SeatState :=
  mkSeat (seat_world s) (exported_seat s) (seat_terminals s) (terminal_count s) i (console s) (device s).
Definition set_device (d : Device) (s : SeatState) : SeatState :=
  mkSeat (seat_world s) (exported_seat s) (seat_terminals s) (terminal_count s) (active s) (console s) d.
Definition set_console (c : SeatPCConsole) (s : SeatState) : SeatState :=
  mkSeat (seat_world s) (exported_seat s) (seat_terminals s) (terminal_count s) (active s) c (device s).
Definition set_count (n : nat) (s : SeatState) : SeatState :=
  mkSeat (seat_world s) (exported_seat s) (seat_terminals s) n (active s) (console s) (device s).
Definition set_exported (h : Z) (s : SeatState) : SeatState :=
  mkSeat (seat_world s) h (seat_terminals s) (terminal_count s) (active s) (console s) (device s).

Definition on_devices {A} (m : Eff Device A) : Srv A := fun s =>
  match m (device s) with (r, d) => (r, set_device d s) end.
Definition on_console {A} (m : Eff (SeatPCConsole * Device) A) : Srv A := fun s =>
  match m (console s, device s) with (r, (c, d)) => (r, set_console c (set_device d s)) end.

(** A terminal of the array. *)
Definition terminal_at (i : nat) : Srv SeatTerminal := fun s =>
  match seat_terminals s !! i with Some t => (Ok t, s) | None => (Fault, s) end.
Definition change_terminal (i : nat) (f : SeatTerminal -> SeatTerminal) : Srv unit :=
  run t <- terminal_at i; fput (fun s => set_terminals (<[i := f t]> (seat_terminals s)) s).

(** [(void)m]. *)
Definition ignore {A} (m : Srv A) : Srv unit := ftry m (fun _ => fret tt) (fret tt).

Definition platform_present : list Z -> Z -> Z -> Eff Device unit := seat_platform_present serial port_out.

(** ** Interfaces *)

Definition return_handle (h : Z) : FacetResult * Z :=
  if h =? 0 then (FACET_INVALID_HANDLE, 0) else (FACET_OK, h).

Definition one_interface (own : iid) (h : Z) (i : iid) : FacetResult * Z :=
  if ((i =b IID_IGenericObject) || (i =b own))%bool then return_handle h else (FACET_NO_INTERFACE, 0).

Definition input_get_interface (t : SeatTerminal) : iid -> FacetResult * Z := one_interface IID_IByteReader (input_handle t).
Definition output_get_interface (t : SeatTerminal) : iid -> FacetResult * Z := one_interface IID_IByteWriter (output_handle t).
Definition terminal_get_interface (t : SeatTerminal) : iid -> FacetResult * Z := one_interface IID_ITerminal (terminal_handle t).
Definition control_get_interface (t : SeatTerminal) : iid -> FacetResult * Z := one_interface IID_ITerminalControl (control_handle t).
Definition seat_get_interface (s : SeatState) : iid -> FacetResult * Z := one_interface IID_ISeat (exported_seat s).

Definition terminal_input (t : SeatTerminal) : FacetResult * Z := return_handle (input_handle t).
Definition terminal_output (t : SeatTerminal) : FacetResult * Z := return_handle (output_handle t).
Definition terminal_control (t : SeatTerminal) : FacetResult * Z := return_handle (control_handle t).

(** The first terminal of that name. *)
Definition seat_get_terminal (s : SeatState) (name : option bytes) : FacetResult * Z :=
  match name with
  | None => (FACET_INVALID_ARGUMENT, 0)
  | Some name =>
      match find (fun t => name =b term_name t) (take (terminal_count s) (seat_terminals s)) with
      | Some t => return_handle (terminal_handle t)
      | None => (FACET_NOT_FOUND, 0)
      end
  end.

Definition seat_active : Srv (FacetResult * Z) :=
  run i <- fget active;
  run t <- terminal_at i;
  fret (return_handle (terminal_handle t)).

Definition seat_set_active : FacetResult := FACET_NOT_SUPPORTED.

(** ** Input *)

Definition set_queue (l : list Z) (head count : Z) (t : SeatTerminal) : SeatTerminal :=
  mkSeatTerm (input_handle t) (output_handle t) (terminal_handle t) (control_handle t) (term_name t) l head count.

Definition queue_byte (byte : Z) (t : SeatTerminal) : SeatTerminal :=
  if input_count t =? INPUT_CAPACITY then t
  else
    let tail := u64 (input_head t + input_count t) mod INPUT_CAPACITY in
    set_queue (<[Z.to_nat tail := byte]> (input_bytes t)) (input_head t) (u64 (input_count t + 1)) t.

Definition present_active : Srv unit :=
  if serial then fret tt else ignore (on_console (seat_pc_console_present (Some platform_present))).

(** A key that arrived. *)
Definition take_key (key : SeatKey) : Srv unit :=
  run count <- fget terminal_count;
  let i := Z.to_nat (terminal_index key) in
  match kind key with
  | SEAT_KEY_SWITCH_TERMINAL =>
      if (i <? count)%nat then
        fput (set_active i) ;;
        ignore (on_console (seat_pc_console_select (Some platform_present) i))
      else fret tt
  | SEAT_KEY_BYTE => run a <- fget active; change_terminal a (queue_byte (key_byte key))
  | SEAT_KEY_NONE => fret tt
  end.

Fixpoint pump (n : nat) : Srv unit :=
  match n with
  | O => ffault
  | S n =>
      ftry (on_devices (seat_platform_poll_key serial port_in))
        (fun key => match key with None => fret tt | Some key => take_key key ;; pump n end)
        (fret tt)
  end.

Definition pump_keyboard : Srv unit := if serial then fret tt else pump polls.

Definition input_read (i : nat) (maximum : Z) : Srv bytes :=
  if maximum =? 0 then fret []
  else if serial then
    run byte <- on_devices (seat_platform_read_byte serial port_in);
    fret (match byte with Some byte => [byte] | None => [] end)
  else
    pump_keyboard ;;
    run t <- terminal_at i;
    if input_count t =? 0 then fret []
    else
      match input_bytes t !! Z.to_nat (input_head t) with
      | None => ffault
      | Some byte =>
          change_terminal i (set_queue (input_bytes t) (u64 (input_head t + 1) mod INPUT_CAPACITY) (input_count t - 1)) ;;
          fret [byte]
      end.

(** ** Output *)

Definition output_write (i : nat) (data : option bytes) (count : Z) : Srv Z :=
  if ((negb (count =? 0) && bool_decide (data = None)) || (UINT32_MAX <? count))%bool then ferr FACET_INVALID_ARGUMENT
  else
    ftry (if serial then on_devices (seat_platform_write serial port_in port_out data count)
          else on_console (seat_pc_console_write (Some platform_present) i data count))
      (fun _ => fret (u32 count)) (ferr FACET_ERROR).

(** ** Start *)

Definition pc_names : list bytes := [B "tty1"; B "tty2"; B "tty3"; B "tty4"; B "tty5"].

Definition name_terminal (name : bytes) (t : SeatTerminal) : SeatTerminal :=
  mkSeatTerm (input_handle t) (output_handle t) (terminal_handle t) (control_handle t) name
    (input_bytes t) (input_head t) (input_count t).
Definition set_input (h : Z) (t : SeatTerminal) : SeatTerminal :=
  mkSeatTerm h (output_handle t) (terminal_handle t) (control_handle t) (term_name t) (input_bytes t) (input_head t) (input_count t).
Definition set_output (h : Z) (t : SeatTerminal) : SeatTerminal :=
  mkSeatTerm (input_handle t) h (terminal_handle t) (control_handle t) (term_name t) (input_bytes t) (input_head t) (input_count t).
Definition set_terminal (h : Z) (t : SeatTerminal) : SeatTerminal :=
  mkSeatTerm (input_handle t) (output_handle t) h (control_handle t) (term_name t) (input_bytes t) (input_head t) (input_count t).
Definition set_control (h : Z) (t : SeatTerminal) : SeatTerminal :=
  mkSeatTerm (input_handle t) (output_handle t) (terminal_handle t) h (term_name t) (input_bytes t) (input_head t) (input_count t).

(** Export an object and keep its handle in the record of the terminal. *)
Definition export_into (i : nat) (o : SeatObject) (set : Z -> SeatTerminal -> SeatTerminal) : Srv unit :=
  run h <- export_interface alloc_ok o;
  change_terminal i (set h).

Definition export_terminal (i : nat) : Srv unit :=
  export_into i (ObjInput i) set_input ;;
  export_into i (ObjOutput i) set_output ;;
  export_into i (ObjControl i) set_control ;;
  export_into i (ObjTerminal i) set_terminal.

Fixpoint export_terminals (indices : list nat) : Srv unit :=
  match indices with
  | [] => fret tt
  | i :: rest => export_terminal i ;; export_terminals rest
  end.

Definition terminal_names : list bytes := if serial then [B "ttyS0"] else pc_names.

Definition export_seat : Srv unit :=
  fput (fun s => set_count (length terminal_names)
    (set_terminals (zip_with name_terminal terminal_names (seat_terminals s) ++ drop (length terminal_names) (seat_terminals s))
      (if serial then s else set_console seat_pc_console_initialize s))) ;;
  run count <- fget terminal_count;
  export_terminals (seq 0 count) ;;
  run h <- export_interface alloc_ok ObjSeat;
  fput (set_exported h) ;;
  present_active.

(** The static variables before [main]. *)
Definition seat_reset : SeatState :=
  mkSeat (mkWorld ∅ 1 0) 0 (replicate SEAT_PC_TERMINALS terminal_reset) 0 0
    (mkConsole (replicate SEAT_PC_TERMINALS (mkScreen (replicate (Z.to_nat SEAT_PC_CELLS) 0) 0)) 0) device_reset.

(** The auxiliary vector, up to its end mark; it may be missing. *)
Definition lookup_auxv (auxv : option (list (Z * Z))) (type : Z) : option Z :=
  snd <$> (auxv ≫= find (fun e => fst e =? type)).

(** [main] up to the message that the server is ready: the handle that it passes on.
    The steps of libfacet and of the allocator succeed or not. *)
Definition main (AT_LOOS : Z) (registered : bool) (service_init : Z -> Z -> Z -> Z -> Z -> bool) (use_static : bool)
    (auxv : option (list (Z * Z))) : Srv Z :=
  if negb registered then ferr FACET_ERROR
  else
    match mapM (fun k => lookup_auxv auxv (AT_LOOS + k)) [0x200; 0x201; 0x202; 0x203; 0x204; 0x205; 0x206; 0x207; 0x208] with
    | Some [service_endpoint; ready_endpoint; device0; device1; receive_slot; export_slot; cnode; depth; vga_address] =>
        if negb (service_init service_endpoint cnode receive_slot export_slot depth) then ferr FACET_ERROR
        else
          on_devices (seat_platform_initialize serial memory_at port_in port_out device0 device1 vga_address) ;;
          if negb use_static then ferr FACET_ERROR
          else export_seat ;; fget exported_seat
    | _ => ferr FACET_ERROR
    end.

End Seat.
