(* ===== verification/SeatFacts.v ===== *)
(** What a seat server shows and reads (Seat.v, SeatDevice.v, SeatConsole.v).

    The specification is a desk: the codes that the keyboard has not handed out yet,
    the keys that are held down, the terminal in front, a queue of bytes and a sheet of
    paper per terminal.  Every call of a server of the PC build is a step of the
    desk. *)
From stdpp Require Import gmap.
From S2P Require Import Prelude Environment Effects Handles HandleFacts SeatConsole SeatDevice Seat.
#[local] Open Scope facet_scope.

(** ** The input queue *)

Record queue_ok (t : SeatTerminal) : Prop := {
  qk_length : zlen (input_bytes t) = INPUT_CAPACITY;
  qk_head : 0 <= input_head t < INPUT_CAPACITY;
  qk_count : 0 <= input_count t <= INPUT_CAPACITY
}.

Definition slot (t : SeatTerminal) (k : Z) : Z :=
  default 0 (input_bytes t !! Z.to_nat ((input_head t + k) mod INPUT_CAPACITY)).

(** The bytes that wait, oldest first. *)
Definition queue_of (t : SeatTerminal) : bytes := slot t <$> seqZ 0 (input_count t).

(** A byte that finds the queue full is lost. *)
Definition enqueue (byte : Z) (q : bytes) : bytes := if zlen q <? INPUT_CAPACITY then q ++ [byte] else q.

Lemma capacity_256 : INPUT_CAPACITY = 256.
Proof. done. Qed.

Lemma queue_length t : queue_ok t -> zlen (queue_of t) = input_count t.
Proof. intros [_ _ Hc]. unfold queue_of, zlen. rewrite length_fmap, length_seqZ. lia. Qed.

Lemma queue_ext t u n : (forall k, 0 <= k < n -> slot t k = slot u k) -> slot t <$> seqZ 0 n = slot u <$> seqZ 0 n.
Proof. intros H. apply list_fmap_ext. intros i k Hk. apply lookup_seqZ in Hk. apply H. lia. Qed.

Lemma queue_byte_enqueues byte t : queue_ok t ->
  queue_ok (queue_byte byte t) /\ queue_of (queue_byte byte t) = enqueue byte (queue_of t).
Proof.
  intros Hk. pose proof Hk as [Hl Hh Hc]. unfold enqueue. rewrite queue_length by done. unfold queue_byte.
  destruct (input_count t =? INPUT_CAPACITY) eqn:E; bool_props.
  { by rewrite E, (proj2 (Z.ltb_ge _ _)) by lia. }
  rewrite (proj2 (Z.ltb_lt _ _)) by lia. rewrite capacity_256 in *. unfold u64.
  rewrite !Z.mod_small with (b := 2 ^ 64) by lia.
  pose proof (Z.mod_pos_bound (input_head t + input_count t) 256 ltac:(lia)) as Htail.
  split; [split; simpl; unfold zlen in *; rewrite ?length_insert, ?capacity_256; lia|].
  unfold queue_of. simpl. rewrite (seqZ_app 0 (input_count t) 1) by lia.
  rewrite fmap_app. f_equal.
  - apply queue_ext. intros k Hr. unfold slot. simpl. rewrite list_lookup_insert_ne; [done|].
    intros Heq. rewrite capacity_256 in Heq. apply Z2Nat.inj in Heq; [|lia|apply Z.mod_pos_bound; lia].
    pose proof (Z.div_mod (input_head t + input_count t) 256). pose proof (Z.div_mod (input_head t + k) 256). lia.
  - rewrite seqZ_cons, seqZ_nil by lia. simpl. f_equal. unfold slot. simpl. rewrite Z.add_0_l, capacity_256.
    rewrite list_lookup_insert_eq; [done|]. unfold zlen in Hl. lia.
Qed.

(** The oldest byte, and the queue without it. *)
Lemma queue_pop t : queue_ok t -> input_count t <> 0 ->
  let t' := set_queue (input_bytes t) (u64 (input_head t + 1) mod INPUT_CAPACITY) (input_count t - 1) t in
  exists byte, input_bytes t !! Z.to_nat (input_head t) = Some byte /\ queue_of t = byte :: queue_of t' /\ queue_ok t'.
Proof.
  intros [Hl Hh Hc] Hne. simpl. rewrite capacity_256 in *. unfold u64. rewrite Z.mod_small with (b := 2 ^ 64) by lia.
  destruct (lookup_lt_is_Some_2 (input_bytes t) (Z.to_nat (input_head t))) as [byte Hb]; [unfold zlen in Hl; lia|].
  exists byte. split; [done|]. split.
  - unfold queue_of. simpl. rewrite seqZ_cons by lia. rewrite fmap_cons. f_equal.
    + unfold slot. rewrite Z.add_0_r, capacity_256, Z.mod_small by lia. by rewrite Hb.
    + rewrite <- Z.sub_1_r. change (Z.succ 0) with (1 + 0). rewrite <- (fmap_add_seqZ 1 0), <- list_fmap_compose.
      apply list_fmap_ext. intros i k _. simpl. unfold slot. simpl. rewrite capacity_256.
      rewrite Z.add_mod_idemp_l by lia. do 4 f_equal; lia.
  - split; simpl; rewrite ?capacity_256; [done| |lia]. apply Z.mod_pos_bound. lia.
Qed.

(** ** The keyboard and the cursor *)

(** The keys that are held down, and the prefix of an extended key. *)
Record Modifiers := mkModifiers {
  m_left : bool;
  m_right : bool;
  m_alt : bool;
  m_extended : bool
}.

Definition modifiers (d : Device) : Modifiers := mkModifiers (left_shift d) (right_shift d) (alt d) (extended d).

(** What a code of the keyboard means: codes from 128 on are releases, Alt with F1 to
    F5 switches the terminal, and a key with a character is this character. *)
Definition scan (m : Modifiers) (code : Z) : Modifiers * option SeatKey :=
  if code =? 224 then (mkModifiers (m_left m) (m_right m) (m_alt m) true, None)
  else
    let down := code <? 128 in
    let key := code mod 128 in
    let held (k : Z) (b : bool) := if key =? k then down else b in
    let left := held 42 (m_left m) in
    let right := held 54 (m_right m) in
    let a := held 56 (m_alt m) in
    if (negb down || m_extended m)%bool then (mkModifiers left right a false, None)
    else
      (mkModifiers left right a false,
       if (a && (59 <=? key) && (key <=? 63))%bool then Some (mkKey SEAT_KEY_SWITCH_TERMINAL 0 (key - 59))
       else let c := translate_key key (left || right) in if c =? 0 then None else Some (mkKey SEAT_KEY_BYTE c 0)).

(** How many codes have been read. *)
Fixpoint consumed (cap : Z) (log : list PortAccess) : nat :=
  match log with
  | [] => 0%nat
  | In8 c port _ :: rest => if ((c =? cap) && (port =? 0x60))%bool then S (consumed cap rest) else consumed cap rest
  | Out8 _ _ _ _ :: rest => consumed cap rest
  end.

(** The registers of the display controller after the accesses of the log. *)
Fixpoint crtc_index (log : list PortAccess) : Z :=
  match log with
  | [] => 0
  | Out8 _ port v true :: rest => if port =? VGA_CRTC_INDEX then v else crtc_index rest
  | _ :: rest => crtc_index rest
  end.
Fixpoint crtc_register (r : Z) (log : list PortAccess) : Z :=
  match log with
  | [] => 0
  | Out8 _ port v true :: rest =>
      if ((port =? VGA_CRTC_DATA) && (crtc_index rest =? r))%bool then v else crtc_register r rest
  | _ :: rest => crtc_register r rest
  end.
Definition hardware_cursor (log : list PortAccess) : Z :=
  crtc_register VGA_CURSOR_HIGH log * 256 + crtc_register VGA_CURSOR_LOW log.

Lemma land_release code : byte_ok code -> negb (Z.land code 0x80 =? 0) = negb (code <? 128).
Proof.
  unfold byte_ok. intros Hc. f_equal. destruct (code <? 128) eqn:E; bool_props.
  - apply Z.eqb_eq. change 0x80 with (2 ^ 7). apply Z.bits_inj'. intros n Hn. rewrite Z.land_spec, Z.bits_0, Z.pow2_bits_eqb by lia.
    destruct (Z.eqb_spec 7 n) as [<-|]; [|apply andb_false_r].
    rewrite Z.testbit_odd, Z.shiftr_div_pow2, Z.div_small by lia. done.
  - apply Z.eqb_neq. intros H0. assert (Z.testbit (Z.land code 0x80) 7 = false) as Hb by (by rewrite H0).
    rewrite Z.land_spec, Z.testbit_odd, Z.shiftr_div_pow2 in Hb by lia.
    replace (code / 2 ^ 7) with 1 in Hb; [done|]. apply (Z.div_unique _ _ _ (code - 128)); lia.
Qed.

Lemma u8_byte b : byte_ok b -> u8 b = b.
Proof. unfold byte_ok, u8. intros Hb. apply Z.mod_small. lia. Qed.

Section Devices.
Context (port_in : list PortAccess -> Z -> Z -> option Z) (port_out : list PortAccess -> Z -> Z -> Z -> bool).

(** A keyboard that hands out [codes] in order: bit 0 of the status says whether one is
    waiting. *)
Record keyboard_sends (cap : Z) (codes : bytes) : Prop := {
  ks_codes : bytes_ok codes;
  ks_status : forall log, exists st, port_in log cap 0x64 = Some st /\ byte_ok st /\
    Z.land st 1 = if (consumed cap log <? length codes)%nat then 1 else 0;
  ks_data : forall log c, codes !! consumed cap log = Some c -> port_in log cap 0x60 = Some c
}.

Context (cap : Z) (codes : bytes) (keyboard : keyboard_sends cap codes).

Definition outputs_accepted : Prop := forall log c port v, port_out log c port v = true.

Record device_at (pending : bytes) (m : Modifiers) (memory : list Z) (position : Z) (d : Device) : Prop := {
  da_cap : device0_cap d = cap;
  da_pending : pending = drop (consumed cap (port_log d)) codes;
  da_modifiers : modifiers d = m;
  da_vga : vga_memory d = Some memory;
  da_cursor : outputs_accepted -> hardware_cursor (port_log d) = position
}.

Abbreviation poll := (seat_platform_poll_key false port_in).

Lemma poll_empty m memory x d : device_at [] m memory x d ->
  exists d', poll d = (Ok None, d') /\ device_at [] m memory x d'.
Proof.
  intros [Hc Hp Hm Hv Hx]. destruct (ks_status _ _ keyboard (port_log d)) as (st & Hst & Hb & Hland).
  assert ((consumed cap (port_log d) <? length codes)%nat = false) as Hnone.
  { apply Nat.ltb_ge. symmetry in Hp. apply (f_equal length) in Hp. rewrite length_drop in Hp. simpl in Hp. lia. }
  rewrite Hnone in Hland. unfold seat_platform_poll_key, fbind, fget, seL4_X86_IOPort_In8. simpl.
  rewrite Hc, Hst. simpl. rewrite u8_byte by done. rewrite Hland. simpl. eexists. split; [done|].
  split; simpl; try done. by rewrite andb_false_r.
Qed.

Lemma poll_code c pending m memory x d : device_at (c :: pending) m memory x d ->
  exists d', poll d = (Ok (snd (scan m c)), d') /\ device_at pending (fst (scan m c)) memory x d'.
Proof.
  intros [Hc Hp <- Hv Hx]. destruct (ks_status _ _ keyboard (port_log d)) as (st & Hst & Hb & Hland).
  assert (codes !! consumed cap (port_log d) = Some c) as Hcode.
  { rewrite <- (Nat.add_0_r (consumed _ _)), <- lookup_drop, <- Hp. done. }
  pose proof (Forall_lookup_1 _ _ _ _ (ks_codes _ _ keyboard) Hcode) as Hbc.
  rewrite (proj2 (Nat.ltb_lt _ _)) in Hland by (by eapply lookup_lt_Some).
  assert (pending = drop (S (consumed cap (port_log d))) codes) as Hrest.
  { rewrite <- Nat.add_1_r, <- drop_drop, <- Hp. done. }
  unfold seat_platform_poll_key, fbind, fget, fput, fret, seL4_X86_IOPort_In8. simpl.
  rewrite Hc, Hst. simpl. rewrite u8_byte by done. rewrite Hland. simpl.
  rewrite (ks_data _ _ keyboard (In8 cap 0x64 _ :: port_log d) c) by (simpl; by rewrite andb_false_r). simpl.
  rewrite (u8_byte c) by done. unfold scan.
  destruct (c =? 224) eqn:E; simpl.
  { eexists. split; [done|]. split; simpl; rewrite ?Z.eqb_refl, ?andb_false_r; done. }
  rewrite land_release by done. rewrite negb_involutive. change 0x7f with (Z.ones 7). rewrite Z.land_ones by lia.
  change (2 ^ 7) with 128. set (down := c <? 128).
  set (left := if c mod 128 =? 42 then down else left_shift d). set (right := if c mod 128 =? 54 then down else right_shift d).
  set (a := if c mod 128 =? 56 then down else alt d).
  destruct (negb down || extended d)%bool eqn:Er; simpl.
  { eexists. split; [done|]. split; simpl; rewrite ?Z.eqb_refl, ?andb_false_r; done. }
  bool_props. pose proof (Z.mod_pos_bound c 128 ltac:(lia)).
  destruct (a && _ && _)%bool eqn:Ea; [|destruct (translate_key _ _ =? 0)]; simpl; bool_props; eexists;
    (split; [unfold u8; rewrite ?Z.mod_small by lia; reflexivity|]);
    split; simpl; rewrite ?Z.eqb_refl, ?andb_false_r; unfold modifiers; simpl; congruence || done.
Qed.

Lemma halves x : 0 <= x < 2 ^ 16 -> u8 (Z.shiftr (u16 x) 8) * 256 + u8 (u16 x) = x.
Proof.
  intros Hx. unfold u16. rewrite (Z.mod_small x) by lia. rewrite Z.shiftr_div_pow2 by lia. unfold u8.
  rewrite (Z.mod_small (x / 2 ^ 8)).
  - pose proof (Z.div_mod x (2 ^ 8)). lia.
  - split; [apply Z.div_pos; lia|]. apply Z.div_lt_upper_bound; lia.
Qed.

(** An access to a port of the display controller. *)
Definition written (port v : Z) (ok : bool) (d : Device) : Device := set_log (Out8 (device1_cap d) port v ok :: port_log d) d.

Lemma awp_cursor_write port v d (Q : unit -> Device -> Prop) (E : FacetResult -> Device -> Prop) :
  Q tt (written port v true d) -> (~ outputs_accepted -> E FACET_ERROR (written port v false d)) ->
  awp (cursor_port_write port_out port v) d Q E.
Proof.
  intros HQ HE. unfold cursor_port_write, awp, fbind, fget, fret, ferr, seL4_X86_IOPort_Out8, written in *.
  destruct (port_out _ _ _ _) eqn:Ho; [exact HQ|]. apply HE. intros Hall. by rewrite Hall in Ho.
Qed.

(** The position of the cursor reaches the display controller. *)
Lemma awp_update_cursor pending m memory x position d : device_at pending m memory x d -> 0 <= position < 2 ^ 16 ->
  awp (update_cursor port_out position) d (fun _ d' => device_at pending m memory position d')
    (fun _ d' => device_at pending m memory position d').
Proof.
  intros [Hc Hp Hm Hv _] Hr. unfold update_cursor. rewrite (proj2 (Z.ltb_ge _ _)) by lia.
  unfold seat_pc_cursor_set, write_register.
  repeat first [apply awp_bind | apply awp_cursor_write]; try (intros; by split).
  split; try done. intros _. unfold hardware_cursor. simpl. by apply halves.
Qed.

Lemma awp_present pending m memory x cells position d : device_at pending m memory x d ->
  zlen cells = SEAT_PC_CELLS -> SEAT_PC_CELLS <= zlen memory -> 0 <= position < 2 ^ 16 ->
  let memory' := cells ++ drop (Z.to_nat SEAT_PC_CELLS) memory in
  awp (platform_present false port_out cells SEAT_PC_CELLS position) d
    (fun _ d' => device_at pending m memory' position d') (fun _ d' => device_at pending m memory' position d').
Proof.
  intros Hd Hl Hm Hr memory'. unfold platform_present, seat_platform_present. apply awp_bind, awp_get.
  rewrite (da_vga _ _ _ _ _ Hd). rewrite (proj2 (Z.ltb_ge (80 * 25) _)) by done.
  rewrite !(proj2 (Z.ltb_ge _ _)) by lia. simpl. apply awp_bind, awp_put.
  rewrite take_ge by (unfold zlen in Hl; lia). fold memory'.
  apply awp_update_cursor with (x := x); [|done]. destruct Hd. by split.
Qed.

End Devices.

(** ** A keyboard that may refuse *)

(** Nothing is asked of the codes and of the accesses that the kernel refuses.  The
    keyboard does not hand out [polls] codes in a row: [ahead] bounds the codes that it
    hands out before the next pause, and every code that is taken lowers the bound. *)
Record keyboard_pauses (port_in : list PortAccess -> Z -> Z -> option Z) (cap : Z) (polls : nat)
    (ahead : list PortAccess -> nat) : Prop := {
  kp_bound : forall log, (ahead log < polls)%nat;
  kp_taken : forall log st r, port_in log cap 0x64 = Some st -> Z.land (u8 st) 1 <> 0 ->
    (ahead (In8 cap 0x60 r :: In8 cap 0x64 (Some (u8 st)) :: log) < ahead log)%nat;
  kp_out : forall log c port v ok, (ahead (Out8 c port v ok :: log) <= ahead log)%nat
}.

Section Pauses.
Context (port_in : list PortAccess -> Z -> Z -> option Z) (port_out : list PortAccess -> Z -> Z -> Z -> bool).
Context (cap : Z) (polls : nat) (ahead : list PortAccess -> nat) (pauses : keyboard_pauses port_in cap polls ahead).

(** A poll leaves the display alone, and only a code that was taken is a key. *)
Lemma poll_any pending m memory x d : device_at port_out cap [] pending m memory x d ->
  exists r d' m', seat_platform_poll_key false port_in d = (r, d') /\ r <> Fault /\
    device_at port_out cap [] pending m' memory x d' /\
    forall key, r = Ok (Some key) -> (ahead (port_log d') < ahead (port_log d))%nat.
Proof.
  intros [Hc Hp Hm Hv Hx]. unfold seat_platform_poll_key, fbind, fget, fput, fret, ferr, seL4_X86_IOPort_In8. simpl.
  rewrite Hc. destruct (port_in (port_log d) cap 0x64) as [st|] eqn:Hst; simpl.
  2: { by do 3 eexists; split_and!; [done|done|split; simpl; rewrite ?drop_nil in *|]. }
  destruct (Z.land (u8 st) 1 =? 0) eqn:Hbit; simpl.
  { by do 3 eexists; split_and!; [done|done|split; simpl; rewrite ?drop_nil in *|]. }
  apply Z.eqb_neq in Hbit.
  destruct (port_in _ cap 0x60) as [raw|]; simpl.
  2: { by do 3 eexists; split_and!; [done|done|split; simpl; rewrite ?drop_nil in *|]. }
  pose proof (kp_taken _ _ _ _ pauses _ _ (Some (u8 raw)) Hst Hbit) as Hless.
  repeat case_match; simplify_eq/=;
    (do 3 eexists; split_and!; [done|done|split; simpl; rewrite ?drop_nil in *; done|done]).
Qed.

(** An operation that hands out no code. *)
Definition spares {S A} (log_of : S -> list PortAccess) (m : Eff S A) : Prop :=
  forall s, (ahead (log_of (snd (m s))) <= ahead (log_of s))%nat.

Lemma spares_bind {S A C} log_of (m : Eff S A) (f : A -> Eff S C) :
  spares log_of m -> (forall a, spares log_of (f a)) -> spares log_of (fbind m f).
Proof.
  intros Hm Hf s. specialize (Hm s). unfold fbind. destruct (m s) as [[a|c|] s']; [|done..].
  simpl in Hm. specialize (Hf a s'). lia.
Qed.

Lemma spares_ret {S A} (log_of : S -> list PortAccess) (a : A) : spares log_of (fret a).
Proof. by intros s. Qed.
Lemma spares_err {S A} (log_of : S -> list PortAccess) c : spares (A := A) log_of (ferr c).
Proof. by intros s. Qed.
Lemma spares_fault {S A} (log_of : S -> list PortAccess) : spares (A := A) log_of ffault.
Proof. by intros s. Qed.
Lemma spares_get {S A} (log_of : S -> list PortAccess) (f : S -> A) : spares log_of (fget f).
Proof. by intros s. Qed.
Lemma spares_put {S} (log_of : S -> list PortAccess) (f : S -> S) :
  (forall s, log_of (f s) = log_of s) -> spares log_of (fput f).
Proof. intros Hf s. simpl. by rewrite Hf. Qed.

Lemma spares_write port v : spares port_log (cursor_port_write port_out port v).
Proof.
  intros d. unfold cursor_port_write, fbind, fget, fret, ferr, seL4_X86_IOPort_Out8.
  by destruct (port_out _ _ _ _); simpl; apply (kp_out _ _ _ _ pauses).
Qed.

Create HintDb spares.
Hint Resolve spares_ret spares_err spares_fault spares_get spares_write : spares.
Ltac spare := repeat first
  [ progress auto with spares | apply spares_bind | apply spares_put; done
  | match goal with |- forall _, _ => intro end | case_match ].

Lemma spares_present cells count position : spares port_log (platform_present false port_out cells count position).
Proof. unfold platform_present, seat_platform_present, update_cursor, seat_pc_cursor_set, write_register. spare. Qed.

Lemma spares_on_device {A} (m : Eff Device A) : spares port_log m -> spares (fun cd => port_log (snd cd)) (on_device m).
Proof. intros Hm [c d]. specialize (Hm d). unfold on_device. simpl. by destruct (m d). Qed.

Lemma spares_select i : spares (fun cd => port_log (snd cd)) (seat_pc_console_select (Some (platform_present false port_out)) i).
Proof. unfold seat_pc_console_select, seat_pc_console_present. spare; apply spares_on_device, spares_present. Qed.

Lemma spares_key key : spares (fun s => port_log (device s)) (take_key false port_out key).
Proof.
  unfold take_key, change_terminal. spare.
  - by intros s; unfold terminal_at; case_match.
  - intros s. unfold ignore, ftry, on_console. pose proof (spares_select (Z.to_nat (terminal_index key)) (console s, device s)) as Hs.
    by destruct (seat_pc_console_select _ _ _) as [[] []].
Qed.

End Pauses.

(** ** The desk *)

Lemma alter_at {A} (f : A -> A) i (l : list A) x : l !! i = Some x -> alter f i l = <[i := f x]> l.
Proof.
  revert i. induction l as [|y l IH]; intros [|i] H; simplify_eq/=; [done|]. cbn. f_equal. by apply IH.
Qed.

Record Desk := mkDesk {
  pending : bytes;
  held : Modifiers;
  front : nat;
  queues : list bytes;
  papers : list Paper
}.

(** A key goes to the terminal in front, or brings another one to the front. *)
Definition desk_key (key : SeatKey) (D : Desk) : Desk :=
  match kind key with
  | SEAT_KEY_SWITCH_TERMINAL =>
      let i := Z.to_nat (terminal_index key) in
      mkDesk (pending D) (held D) (if (i <? SEAT_PC_TERMINALS)%nat then i else front D) (queues D) (papers D)
  | SEAT_KEY_BYTE => mkDesk (pending D) (held D) (front D) (alter (enqueue (key_byte key)) (front D) (queues D)) (papers D)
  | SEAT_KEY_NONE => D
  end.

(** The codes up to the first that is not a key. *)
Fixpoint desk_pump (codes : bytes) (D : Desk) : Desk :=
  match codes with
  | [] => mkDesk [] (held D) (front D) (queues D) (papers D)
  | c :: rest =>
      let D' := mkDesk rest (fst (scan (held D) c)) (front D) (queues D) (papers D) in
      match snd (scan (held D) c) with None => D' | Some key => desk_pump rest (desk_key key D') end
  end.

(** The first byte of a queue. *)
Definition desk_take (i : nat) (D : Desk) : bytes * Desk :=
  match queues D !! i with
  | Some (b :: q) => ([b], mkDesk (pending D) (held D) (front D) (<[i := q]> (queues D)) (papers D))
  | _ => ([], D)
  end.

Definition desk_read (i : nat) (maximum : Z) (D : Desk) : bytes * Desk :=
  if maximum =? 0 then ([], D) else desk_take i (desk_pump (pending D) D).

Definition desk_write (i : nat) (data : bytes) (D : Desk) : Desk :=
  mkDesk (pending D) (held D) (front D) (queues D) (alter (fun p => foldl paper_put p data) i (papers D)).

Section Desk.
Context (port_in : list PortAccess -> Z -> Z -> option Z) (port_out : list PortAccess -> Z -> Z -> Z -> bool).
Context (cap : Z) (codes : bytes) (keyboard : keyboard_sends port_in cap codes).
Context (ids : list (bytes * (Z * Z * Z * Z))) (objects : World SeatObject).

(** The name and the handles of a terminal. *)
Definition identity (t : SeatTerminal) : bytes * (Z * Z * Z * Z) :=
  (term_name t, (input_handle t, output_handle t, control_handle t, terminal_handle t)).

Record shell (D : Desk) (s : SeatState) : Prop := {
  sl_count : terminal_count s = SEAT_PC_TERMINALS;
  sl_terminals : length (seat_terminals s) = SEAT_PC_TERMINALS;
  sl_ids : identity <$> seat_terminals s = ids;
  sl_world : seat_world s = objects;
  sl_ok : Forall queue_ok (seat_terminals s);
  sl_queues : queue_of <$> seat_terminals s = queues D;
  sl_active : active s = front D;
  sl_console : console_active (console s) = front D;
  sl_front : (front D < SEAT_PC_TERMINALS)%nat;
  sl_papers : Forall2 shows (papers D) (screens (console s));
  sl_screens : length (screens (console s)) = SEAT_PC_TERMINALS
}.

(** The memory of the screen holds the screen in front, and the cursor is there. *)
Definition showing (D : Desk) (s : SeatState) : Prop := exists screen rest,
  screens (console s) !! front D = Some screen /\
  device_at port_out cap codes (pending D) (held D) (cells screen ++ rest) (cursor screen) (device s).

(** Any screen may be in the memory. *)
Definition loose (D : Desk) (s : SeatState) : Prop := exists memory x,
  device_at port_out cap codes (pending D) (held D) memory x (device s) /\ SEAT_PC_CELLS <= zlen memory.

Definition desk_at (D : Desk) (s : SeatState) : Prop := shell D s /\ showing D s.

Lemma showing_loose D s : desk_at D s -> loose D s.
Proof.
  intros [Hs (screen & rest & Hscr & Hd)]. exists (cells screen ++ rest), (cursor screen). split; [done|].
  destruct (Forall2_lookup_r _ _ _ _ _ (sl_papers _ _ Hs) Hscr) as (p & _ & [Hw _]).
  pose proof (wi_length _ _ Hw). unfold zlen in *. rewrite length_app. lia.
Qed.

Abbreviation present := (Some (platform_present false port_out)).

Lemma awp_ignore {A} (m : Eff SeatState A) s (P : SeatState -> Prop) E :
  awp m s (fun _ => P) (fun _ => P) -> awp (ignore m) s (fun _ => P) E.
Proof. intros Hm. unfold ignore. apply awp_try. eapply awp_mono; [exact Hm|..]; done. Qed.

Definition back (s : SeatState) (cd : SeatPCConsole * Device) : SeatState := set_console (fst cd) (set_device (snd cd) s).

Lemma awp_on_console {A} (m : Eff (SeatPCConsole * Device) A) s Q E :
  awp m (console s, device s) (fun a cd => Q a (back s cd)) (fun c cd => E c (back s cd)) -> awp (on_console m) s Q E.
Proof. unfold awp, on_console. by destruct (m _) as [[a|c|] [c' d]]. Qed.

Lemma awp_on_device {A} (m : Eff Device A) cd Q E :
  awp m (snd cd) (fun a d => Q a (fst cd, d)) (fun c d => E c (fst cd, d)) -> awp (on_device m) cd Q E.
Proof. unfold awp, on_device. by destruct (m _) as [[a|c|] d]. Qed.

Lemma awp_on_devices {A} (m : Eff Device A) s Q E :
  awp m (device s) (fun a d => Q a (set_device d s)) (fun c d => E c (set_device d s)) -> awp (on_devices m) s Q E.
Proof. unfold awp, on_devices. by destruct (m _) as [[a|c|] d]. Qed.

Lemma awp_seat_present D s : shell D s -> loose D s ->
  awp (seat_pc_console_present present) (console s, device s) (fun _ cd => desk_at D (back s cd)) (fun _ cd => desk_at D (back s cd)).
Proof.
  intros Hs (memory & x & Hd & Hm). pose proof Hs as [Hcount Hterms Hids Hw Hok Hq Ha Hc Hf Hp Hl].
  destruct (lookup_lt_is_Some_2 (screens (console s)) (front D)) as [screen Hscr]; [lia|].
  destruct (Forall2_lookup_r _ _ _ _ _ Hp Hscr) as (p & _ & [Hwin Hcur]).
  apply awp_bind, awp_get. cbn [fst]. rewrite Hc, (proj2 (Nat.ltb_lt _ _)) by lia. cbn [negb]. rewrite Hscr.
  assert (forall d', device_at port_out cap codes (pending D) (held D) (cells screen ++ drop (Z.to_nat SEAT_PC_CELLS) memory) (cursor screen) d' ->
    desk_at D (back s (console s, d'))) as Hdone.
  { intros d' Hd'. split; [by split|]. by exists screen, (drop (Z.to_nat SEAT_PC_CELLS) memory). }
  apply awp_on_device. eapply awp_mono; [eapply awp_present; [exact Hd|apply Hwin|done|dims; lia]|..];
    intros; by apply Hdone.
Qed.

Lemma awp_present_active D s : shell D s -> loose D s ->
  awp (present_active false port_out) s (fun _ => desk_at D) (fun _ _ => False).
Proof. intros Hs Hl. apply awp_ignore, awp_on_console. by apply awp_seat_present. Qed.

(** Another terminal comes to the front. *)
Lemma awp_select D s i : desk_at D s -> (i < SEAT_PC_TERMINALS)%nat ->
  let D' := mkDesk (pending D) (held D) i (queues D) (papers D) in
  awp (on_console (seat_pc_console_select present i)) (set_active i s) (fun _ => desk_at D') (fun _ => desk_at D').
Proof.
  intros Hk Hi D'. pose proof (showing_loose _ _ Hk) as Hl. destruct Hk as [[] _].
  apply awp_on_console. unfold seat_pc_console_select. rewrite (proj2 (Nat.ltb_lt _ _)) by done. cbn [negb].
  apply awp_bind, awp_put. apply (awp_seat_present D' (set_console (mkConsole (screens (console s)) i) (set_active i s))); [by split|done].
Qed.

Lemma change_terminal_eq i f s t : seat_terminals s !! i = Some t ->
  change_terminal i f s = (Ok tt, set_terminals (<[i := f t]> (seat_terminals s)) s).
Proof. intros Ht. unfold change_terminal, terminal_at, fbind, fput. by rewrite Ht. Qed.

(** A change of the queue of one terminal. *)
Lemma desk_at_queue D s i t t' : desk_at D s -> seat_terminals s !! i = Some t -> queue_ok t' -> identity t' = identity t ->
  desk_at (mkDesk (pending D) (held D) (front D) (<[i := queue_of t']> (queues D)) (papers D))
    (set_terminals (<[i := t']> (seat_terminals s)) s).
Proof.
  intros [[] Hshow] Ht Hok Hid. split; [|done]. split; simpl; try done.
  - by rewrite length_insert.
  - rewrite list_fmap_insert, Hid, list_insert_id; [done|]. by rewrite list_lookup_fmap, Ht.
  - by apply Forall_insert.
  - rewrite list_fmap_insert. congruence.
Qed.

Lemma queue_byte_identity byte t : identity (queue_byte byte t) = identity t.
Proof. unfold queue_byte. by destruct (_ =? _). Qed.

(** A key that arrives at the server arrives at the desk. *)
Lemma awp_take_key D s key : desk_at D s ->
  awp (take_key false port_out key) s (fun _ => desk_at (desk_key key D)) (fun _ _ => False).
Proof.
  intros Hk. pose proof Hk as [Hs _]. apply awp_bind, awp_get. rewrite (sl_count _ _ Hs). unfold desk_key.
  destruct (kind key); [done| |].
  - apply awp_bind, awp_get. rewrite (sl_active _ _ Hs). pose proof (sl_front _ _ Hs).
    destruct (lookup_lt_is_Some_2 (seat_terminals s) (front D)) as [t Ht]; [by rewrite (sl_terminals _ _ Hs)|].
    pose proof (Forall_lookup_1 _ _ _ _ (sl_ok _ _ Hs) Ht) as Hok.
    destruct (queue_byte_enqueues (key_byte key) t Hok) as [Hok' Hq].
    unfold awp. rewrite (change_terminal_eq _ _ _ _ Ht).
    replace (alter _ _ _) with (<[front D := queue_of (queue_byte (key_byte key) t)]> (queues D)).
    + by apply desk_at_queue with (t := t); [..|apply queue_byte_identity].
    + symmetry. rewrite Hq. apply alter_at. by rewrite <- (sl_queues _ _ Hs), list_lookup_fmap, Ht.
  - destruct (_ <? _)%nat eqn:E.
    + apply Nat.ltb_lt in E. apply awp_bind, awp_put, awp_ignore. by apply awp_select.
    + apply awp_ret. by destruct D.
Qed.

(** ** Calls *)

Context (polls : nat) (enough : (length codes < polls)%nat).

Lemma pump_refines n : forall D s, desk_at D s -> (length (pending D) < n)%nat ->
  awp (pump false port_in port_out n) s (fun _ => desk_at (desk_pump (pending D) D)) (fun _ _ => False).
Proof.
  induction n as [|n IH]; intros D s Hk Hn; [lia|]. cbn [pump]. apply awp_try, awp_on_devices.
  pose proof Hk as [Hs (screen & rest & Hscr & Hd)]. destruct D as [pend h f q ps]. cbn [pending held front queues papers] in *.
  destruct pend as [|c pend].
  - destruct (poll_empty _ _ _ _ keyboard _ _ _ _ Hd) as (d' & Hp & Hd'). unfold awp. rewrite Hp.
    split; [destruct Hs; by split|]. by exists screen, rest.
  - destruct (poll_code _ _ _ _ keyboard _ _ _ _ _ _ Hd) as (d' & Hp & Hd'). unfold awp. rewrite Hp.
    set (D1 := mkDesk pend (fst (scan h c)) f q ps).
    assert (desk_at D1 (set_device d' s)) as Hk1 by (split; [destruct Hs; by split|by exists screen, rest]).
    cbn [desk_pump held front queues papers]. destruct (snd (scan h c)) as [key|]; [|done].
    fold D1. apply awp_bind. eapply awp_mono; [by apply awp_take_key| |done].
    intros ? s2 Hk2. assert (pending (desk_key key D1) = pend) as Hpend by (unfold desk_key; by destruct (kind key)).
    pose proof (IH _ _ Hk2) as Hrest. rewrite Hpend in Hrest. apply Hrest. simpl in Hn. lia.
Qed.

Lemma pending_bound D s : desk_at D s -> (length (pending D) < polls)%nat.
Proof. intros [_ (screen & rest & _ & [_ -> _ _ _])]. rewrite length_drop. lia. Qed.

(** A read takes a byte of the desk that the keys have left. *)
Lemma awp_read_after (P : Desk -> Prop) s i maximum : maximum <> 0 -> (i < SEAT_PC_TERMINALS)%nat ->
  awp (pump false port_in port_out polls) s (fun _ s' => exists D, P D /\ desk_at D s') (fun _ _ => False) ->
  awp (input_read false port_in port_out polls i maximum) s
    (fun payload s' => exists D, P D /\ payload = fst (desk_take i D) /\ desk_at (snd (desk_take i D)) s') (fun _ _ => False).
Proof.
  intros Hm Hi Hpump. unfold input_read. rewrite (proj2 (Z.eqb_neq _ _)) by done.
  apply awp_bind. unfold pump_keyboard. eapply awp_mono; [exact Hpump| |done].
  intros ? s' (D & HP & Hk). pose proof Hk as [Hs _].
  destruct (lookup_lt_is_Some_2 (seat_terminals s') i) as [t Ht]; [by rewrite (sl_terminals _ _ Hs)|].
  pose proof (Forall_lookup_1 _ _ _ _ (sl_ok _ _ Hs) Ht) as Hok.
  assert (queues D !! i = Some (queue_of t)) as Hq by (by rewrite <- (sl_queues _ _ Hs), list_lookup_fmap, Ht).
  unfold awp, fbind, terminal_at. rewrite Ht. destruct (input_count t =? 0) eqn:E; bool_props.
  - assert (queue_of t = []) as Hnil by (unfold queue_of; by rewrite E). exists D.
    unfold desk_take. by rewrite Hq, Hnil.
  - destruct (queue_pop t Hok E) as (byte & -> & Hpop & Hok'). rewrite (change_terminal_eq _ _ _ _ Ht). exists D.
    split; [done|]. unfold desk_take. rewrite Hq, Hpop. split; [done|]. by apply desk_at_queue with (t := t).
Qed.

(** A read of a terminal is a read at the desk. *)
Lemma awp_input_read D s i maximum : desk_at D s -> (i < SEAT_PC_TERMINALS)%nat ->
  awp (input_read false port_in port_out polls i maximum) s
    (fun payload s' => payload = fst (desk_read i maximum D) /\ desk_at (snd (desk_read i maximum D)) s') (fun _ _ => False).
Proof.
  intros Hk Hi. unfold desk_read. destruct (maximum =? 0) eqn:Em; [unfold input_read; by rewrite Em|]. bool_props.
  eapply awp_mono; [apply (awp_read_after (eq (desk_pump (pending D) D))); [done..|]| |done].
  - eapply awp_mono; [apply pump_refines; [done|by eapply pending_bound]| |done]. by eauto.
  - by intros p s' (? & <- & ? & ?).
Qed.

(** A write to a terminal is a write on its paper, and the screen in front is shown. *)
Lemma awp_console_write D s i data : desk_at D s -> (i < SEAT_PC_TERMINALS)%nat ->
  awp (on_console (seat_pc_console_write present i (Some data) (zlen data))) s
    (fun _ => desk_at (desk_write i data D)) (fun _ => desk_at (desk_write i data D)).
Proof.
  intros Hk Hi. pose proof (showing_loose _ _ Hk) as Hloose. pose proof Hk as [Hs Hshow].
  apply awp_on_console. unfold seat_pc_console_write. rewrite (proj2 (Nat.ltb_lt _ _)) by done.
  rewrite bool_decide_eq_false_2 by done. cbn [negb orb andb default from_option id]. rewrite (proj2 (Z.ltb_ge _ _)) by lia.
  apply awp_bind, awp_get. cbn [fst]. unfold zlen. rewrite Nat2Z.id, take_ge by lia.
  destruct (lookup_lt_is_Some_2 (screens (console s)) i) as [screen Hscr]; [by rewrite (sl_screens _ _ Hs)|].
  destruct (Forall2_lookup_r _ _ _ _ _ (sl_papers _ _ Hs) Hscr) as (p & Hp & Hshows).
  destruct (put_bytes_shows data p screen Hshows) as (screen' & Hput & Hshows').
  rewrite Hscr. cbn [mbind option_bind]. rewrite Hput. apply awp_bind, awp_put. cbn [fst snd].
  set (s1 := set_console (mkConsole (<[i := screen']> (screens (console s))) (console_active (console s))) s).
  assert (shell (desk_write i data D) s1) as Hs1.
  { destruct Hs. split; simpl; try done; [|by rewrite length_insert].
    rewrite (alter_at _ _ _ _ Hp). by apply Forall2_insert. }
  destruct (i =? console_active (console s))%nat eqn:E.
  - by apply (awp_seat_present _ s1).
  - apply awp_ret. apply Nat.eqb_neq in E. split; [done|]. destruct Hshow as (sc & rest & Hsc & Hd).
    exists sc, rest. split; [|done]. simpl. rewrite list_lookup_insert_ne; [done|]. by rewrite <- (sl_console _ _ Hs).
Qed.

Lemma awp_output_write D s i data : desk_at D s -> (i < SEAT_PC_TERMINALS)%nat -> zlen data <= UINT32_MAX ->
  awp (output_write false port_in port_out i (Some data) (zlen data)) s
    (fun n s' => n = zlen data /\ desk_at (desk_write i data D) s') (fun c s' => c = FACET_ERROR /\ desk_at (desk_write i data D) s').
Proof.
  intros Hk Hi Hl. unfold output_write. rewrite bool_decide_eq_false_2, andb_false_r by done.
  rewrite (proj2 (Z.ltb_ge _ _)) by done. cbn [orb]. apply awp_try. eapply awp_mono; [by apply awp_console_write|..].
  - intros ? s' Hk'. apply awp_ret. split; [|done]. unfold u32, UINT32_MAX in *. apply Z.mod_small. unfold zlen in *. lia.
  - intros c s' Hk'. by apply awp_err.
Qed.

End Desk.

(** ** The desk beside a keyboard that may refuse *)

(** The codes are not followed: the desk has none pending. *)
Section Display.
Context (port_in : list PortAccess -> Z -> Z -> option Z) (port_out : list PortAccess -> Z -> Z -> Z -> bool).
Context (cap : Z) (polls : nat) (ahead : list PortAccess -> nat) (pauses : keyboard_pauses port_in cap polls ahead).
Context (ids : list (bytes * (Z * Z * Z * Z))) (objects : World SeatObject).

Abbreviation display := (desk_at port_out cap [] ids objects).

Lemma desk_key_papers key D : papers (desk_key key D) = papers D.
Proof. unfold desk_key. by destruct (kind key). Qed.

Lemma pump_display n : forall D s, display D s -> (ahead (port_log (device s)) < n)%nat ->
  awp (pump false port_in port_out n) s (fun _ s' => exists D', papers D' = papers D /\ display D' s') (fun _ _ => False).
Proof.
  induction n as [|n IH]; intros D s [Hs (screen & rest & Hscr & Hd)] Hn; [lia|]. cbn [pump]. apply awp_try, awp_on_devices.
  destruct (poll_any _ _ _ _ _ pauses _ _ _ _ _ Hd) as (r & d' & m' & Hpoll & Hr & Hd' & Hless). unfold awp at 1. rewrite Hpoll.
  set (D1 := mkDesk (pending D) m' (front D) (queues D) (papers D)).
  assert (display D1 (set_device d' s)) as Hk1 by (split; [destruct Hs; by split|by exists screen, rest]).
  destruct r as [[key|]|c|]; [|by exists D1..|done]. specialize (Hless key eq_refl).
  apply awp_bind. pose proof (awp_take_key _ _ _ _ _ _ _ key Hk1) as Hkey.
  pose proof (spares_key _ port_out _ _ _ pauses key (set_device d' s)) as Hlog. unfold awp in Hkey. unfold awp at 1.
  destruct (take_key _ _ _ _) as [[[]|c|] s2]; [|done..]. cbn [snd] in Hlog.
  eapply awp_mono; [apply (IH _ _ Hkey); cbn [device set_device] in Hlog; lia| |done].
  intros ? s3 (D3 & Hp & Hk3). exists D3. split; [|done]. by rewrite Hp, desk_key_papers.
Qed.

Lemma read_display D s i maximum : display D s -> (i < SEAT_PC_TERMINALS)%nat ->
  awp (input_read false port_in port_out polls i maximum) s
    (fun _ s' => exists D', papers D' = papers D /\ display D' s') (fun _ _ => False).
Proof.
  intros Hk Hi. destruct (Z.eqb_spec maximum 0) as [->|Hm]; [by exists D|].
  eapply awp_mono; [apply (awp_read_after port_in port_out cap [] ids objects polls (fun D' => papers D' = papers D)); [done..|]| |done].
  - apply pump_display; [done|]. apply (kp_bound _ _ _ _ pauses).
  - intros p s' (D1 & Hp & _ & Hk'). eexists. split; [|exact Hk']. rewrite <- Hp. unfold desk_take. by repeat case_match.
Qed.

End Display.
