(* ===== verification/SeatUse.v ===== *)
(** The seat server as its clients see it: from the start of the server (Seat.v), what
    the screens show, what the terminals read, and what the seat hands out. *)
From stdpp Require Import gmap.
From S2P Require Import Prelude Environment Effects Handles HandleFacts SeatConsole SeatDevice Seat SeatFacts.
#[local] Open Scope facet_scope.

(** ** Start *)

Section Start.
Context (port_in : list PortAccess -> Z -> Z -> option Z) (port_out : list PortAccess -> Z -> Z -> Z -> bool).
Context (alloc_ok : nat -> bool) (memory_at : Z -> list Z).

(** The handles of a terminal denote its objects. *)
Record serves (s : SeatState) (i : nat) (t : SeatTerminal) : Prop := {
  sv_input : live (seat_world s) !! input_handle t = Some (ObjInput i);
  sv_output : live (seat_world s) !! output_handle t = Some (ObjOutput i);
  sv_control : live (seat_world s) !! control_handle t = Some (ObjControl i);
  sv_terminal : live (seat_world s) !! terminal_handle t = Some (ObjTerminal i)
}.

(** An export that succeeds. *)
Lemma pwp_export o s (Q : Z -> SeatState -> Prop) : handles_ok s ->
  (forall h s', later s s' -> live (seat_world s') !! h = Some o -> s' = set_world (seat_world s') s -> Q h s') ->
  pwp (export_interface alloc_ok o) s Q.
Proof.
  intros Hs HQ. unfold export_interface. apply pwp_bind. unfold pwp, allocate.
  pose proof (later_ask alloc_ok s Hs) as Hask. unfold ask in *. simpl in *.
  destruct (alloc_ok _); [|done]. set (s1 := mkSeat _ _ _ _ _ _ _) in *.
  pose proof (later_fresh o s1 (lt_ok _ _ Hask)) as Hnew. pose proof (fresh_live o s1) as Hlive.
  unfold handle_of_object in *. apply HQ; [exact (later_trans _ _ _ Hask Hnew)|exact Hlive|done].
Qed.

(** An export of the terminal [i] and the record that keeps it. *)
Lemma pwp_export_into i o set s t (Q : unit -> SeatState -> Prop) : handles_ok s -> seat_terminals s !! i = Some t ->
  (forall h s', later s s' -> live (seat_world s') !! h = Some o -> seat_terminals s' !! i = Some (set h t) ->
    s' = set_terminals (<[i := set h t]> (seat_terminals s)) (set_world (seat_world s') s) -> Q tt s') ->
  pwp (export_into alloc_ok i o set) s Q.
Proof.
  intros Hs Ht HQ. apply pwp_bind, pwp_export; [done|]. intros h s' [Lo Ln Ll] Hlive Es.
  assert (seat_terminals s' = seat_terminals s) as Et by (by rewrite Es).
  unfold pwp. rewrite (change_terminal_eq _ _ _ t) by congruence. apply (HQ h); [by split|done| |].
  - apply list_lookup_insert_eq. rewrite Et. by eapply lookup_lt_Some.
  - rewrite Et. simpl. by rewrite Es at 1.
Qed.

Lemma frame_twice s s1 i a b w w1 : s1 = set_terminals (<[i := a]> (seat_terminals s)) (set_world w1 s) ->
  set_terminals (<[i := b]> (seat_terminals s1)) (set_world w s1) = set_terminals (<[i := b]> (seat_terminals s)) (set_world w s).
Proof. intros ->. unfold set_terminals. simpl. by rewrite list_insert_insert_eq. Qed.

(** All four. *)
Lemma pwp_export_terminal i s t : handles_ok s -> seat_terminals s !! i = Some t ->
  pwp (export_terminal alloc_ok i) s (fun _ s' => exists t', later s s' /\ serves s' i t' /\
    term_name t' = term_name t /\ queue_of t' = queue_of t /\ (queue_ok t -> queue_ok t') /\
    s' = set_terminals (<[i := t']> (seat_terminals s)) (set_world (seat_world s') s)).
Proof.
  intros Hs Ht. unfold export_terminal.
  apply pwp_bind. apply (pwp_export_into _ _ _ _ _ _ Hs Ht). intros h1 s1 L1 V1 T1 E1.
  apply pwp_bind. apply (pwp_export_into _ _ _ _ _ _ (lt_ok _ _ L1) T1). intros h2 s2 L2 V2 T2 E2.
  apply pwp_bind. apply (pwp_export_into _ _ _ _ _ _ (lt_ok _ _ L2) T2). intros h3 s3 L3 V3 T3 E3.
  apply (pwp_export_into _ _ _ _ _ _ (lt_ok _ _ L3) T3). intros h4 s4 L4 V4 T4 E4.
  pose proof (later_trans _ _ _ L3 L4) as L34. pose proof (later_trans _ _ _ L2 L34) as L24.
  exists (set_terminal h4 (set_control h3 (set_output h2 (set_input h1 t)))). split_and!; [exact (later_trans _ _ _ L1 L24)| |..].
  - split; [exact (later_kept s1 s4 h1 _ (lt_ok _ _ L1) L24 V1)|exact (later_kept s2 s4 h2 _ (lt_ok _ _ L2) L34 V2)
           |exact (later_kept s3 s4 h3 _ (lt_ok _ _ L3) L4 V3)|exact V4].
  - done.
  - done.
  - intros [Hl Hh Hc]. by split.
  - rewrite (frame_twice _ _ _ _ _ _ _ E3), (frame_twice _ _ _ _ _ _ _ E2), (frame_twice _ _ _ _ _ _ _ E1) in E4. done.
Qed.

(** The first [n] terminals are exported, nothing else has changed. *)
Record exporting (s0 : SeatState) (n : nat) (s : SeatState) : Prop := {
  ex_handles : handles_ok s;
  ex_frame : s = set_terminals (seat_terminals s) (set_world (seat_world s) s0);
  ex_names : term_name <$> seat_terminals s = term_name <$> seat_terminals s0;
  ex_queues : queue_of <$> seat_terminals s = queue_of <$> seat_terminals s0;
  ex_ok : Forall queue_ok (seat_terminals s);
  ex_served : forall i t, (i < n)%nat -> seat_terminals s !! i = Some t -> serves s i t
}.

Lemma serves_later s s' i t : handles_ok s -> later s s' -> serves s i t -> serves s' i t.
Proof.
  intros Hs Hl [H1 H2 H3 H4]. pose proof (fun h o => later_kept s s' h o Hs Hl) as Hk. split; by apply Hk.
Qed.

Lemma exporting_step s0 n s : exporting s0 n s -> (n < length (seat_terminals s))%nat ->
  pwp (export_terminal alloc_ok n) s (fun _ => exporting s0 (S n)).
Proof.
  intros [Hh Hf Hn Hq Ho Hsv] Hlt. destruct (lookup_lt_is_Some_2 _ _ Hlt) as [t Ht].
  eapply pwp_mono; [by apply pwp_export_terminal|]. intros _ s' (t' & Hl & Hs' & En & Eq & Eo & Es).
  assert (seat_terminals s' = <[n := t']> (seat_terminals s)) as Et by (by rewrite Es).
  split.
  - apply Hl.
  - rewrite Es at 1. rewrite Et, Hf. done.
  - rewrite Et, list_fmap_insert, En, list_insert_id; [done|]. by rewrite list_lookup_fmap, Ht.
  - rewrite Et, list_fmap_insert, Eq, list_insert_id; [done|]. by rewrite list_lookup_fmap, Ht.
  - rewrite Et. apply Forall_insert; [done|]. apply Eo. by eapply Forall_lookup_1.
  - intros i u Hi. rewrite Et. destruct (decide (i = n)) as [->|Hne].
    + rewrite list_lookup_insert_eq by done. by intros [= <-].
    + rewrite list_lookup_insert_ne by done. intros Hu. eapply serves_later; [exact Hh|done|]. apply Hsv; [lia|done].
Qed.

Lemma pwp_export_terminals s0 m : forall n s, exporting s0 n s -> (n + m <= length (seat_terminals s))%nat ->
  pwp (export_terminals alloc_ok (seq n m)) s (fun _ => exporting s0 (n + m)).
Proof.
  induction m as [|m IH]; intros n s Hs Hlt; simpl.
  - apply pwp_ret. by rewrite Nat.add_0_r.
  - apply pwp_bind. eapply pwp_mono; [apply exporting_step; [exact Hs|lia]|]. intros ? s' Hs'.
    rewrite Nat.add_succ_r. apply (IH (S n) s' Hs').
    assert (length (seat_terminals s') = length (seat_terminals s)) as ->; [|lia].
    rewrite <- (length_fmap term_name), (ex_names _ _ _ Hs'), <- (ex_names _ _ _ Hs). apply length_fmap.
Qed.

(** *** The devices *)

Context (codes : bytes).

Definition no_keys : Modifiers := mkModifiers false false false false.

Lemma pwp_cursor_write port v d (Q : unit -> Device -> Prop) :
  Q tt (written port v true d) -> pwp (cursor_port_write port_out port v) d Q.
Proof.
  intros HQ. unfold pwp, cursor_port_write, fbind, fget, fret, ferr, seL4_X86_IOPort_Out8, written in *.
  by destruct (port_out _ _ _ _).
Qed.

Lemma pwp_cursor_read port d (Q : Z -> Device -> Prop) :
  (forall v, Q v (set_log (In8 (device1_cap d) port (Some v) :: port_log d) d)) -> pwp (cursor_port_read port_in port) d Q.
Proof.
  intros HQ. unfold pwp, cursor_port_read, fbind, fget, fret, ferr, seL4_X86_IOPort_In8.
  destruct (port_in _ _ _); [apply HQ|done].
Qed.

(** The start of the devices leaves the keyboard alone. *)
Lemma pwp_devices_start device0 device1 vga_address : SEAT_PC_CELLS <= zlen (memory_at vga_address) ->
  pwp (seat_platform_initialize false memory_at port_in port_out device0 device1 vga_address) device_reset
    (fun _ => device_at port_out device0 codes codes no_keys (memory_at vga_address) 0).
Proof.
  intros Hm. unfold seat_platform_initialize. destruct (_ || _ || _)%bool; [done|].
  apply pwp_bind, pwp_put. destruct (_ || _)%bool; [done|]. apply pwp_bind, pwp_put.
  unfold seat_pc_cursor_enable, read_register, write_register.
  apply pwp_bind, pwp_bind, pwp_bind, pwp_cursor_write, pwp_cursor_read. intros start.
  apply pwp_bind, pwp_cursor_write, pwp_cursor_write.
  match goal with |- pwp _ ?d _ => set (d1 := d) end.
  assert (device_at port_out device0 codes codes no_keys (memory_at vga_address) (hardware_cursor (port_log d1)) d1) as Hd.
  { split; try done. simpl. by rewrite andb_false_r. }
  pose proof (awp_update_cursor port_out _ _ _ _ _ _ 0 d1 Hd ltac:(lia)) as Hu.
  unfold awp, pwp in *. by destruct (update_cursor _ _ _) as [[]].
Qed.

(** *** The server *)

Definition first_desk : Desk := mkDesk codes no_keys 0 (replicate SEAT_PC_TERMINALS []) (replicate SEAT_PC_TERMINALS blank_paper).

(** Every terminal has its name and its objects. *)
Definition served (s : SeatState) : Prop :=
  handles_ok s /\ term_name <$> seat_terminals s = pc_names /\ forall i t, seat_terminals s !! i = Some t -> serves s i t.

Definition started (cap : Z) (D : Desk) (s : SeatState) : Prop :=
  desk_at port_out cap codes (identity <$> seat_terminals s) (seat_world s) D s /\ served s.

Lemma served_same s s' : served s -> identity <$> seat_terminals s' = identity <$> seat_terminals s ->
  seat_world s' = seat_world s -> served s'.
Proof.
  intros (Hh & Hn & Hs) Hid Hw. split_and!.
  - unfold handles_ok in *. simpl in *. by rewrite Hw.
  - rewrite <- Hn. apply (f_equal (fmap fst)) in Hid. by rewrite <- !list_fmap_compose in Hid.
  - intros i t' Ht'. pose proof (f_equal (fun l => l !! i) Hid) as Hi. simpl in Hi. rewrite !list_lookup_fmap, Ht' in Hi.
    destruct (seat_terminals s !! i) as [t|] eqn:Ht; [|done]. injection Hi as Hname Hin Hout Hctl Hterm.
    destruct (Hs i t Ht) as [H1 H2 H3 H4]. split; rewrite Hw; congruence.
Qed.

Lemma desk_started cap D s s' : desk_at port_out cap codes (identity <$> seat_terminals s) (seat_world s) D s' -> served s ->
  started cap D s'.
Proof.
  intros Hk Hs. pose proof Hk as [Hsh _]. pose proof (sl_ids _ _ _ _ Hsh) as Hi. pose proof (sl_world _ _ _ _ Hsh) as Hw.
  split; [by rewrite Hi, Hw|]. by eapply served_same.
Qed.

(** The terminals of the PC build, before they are exported. *)
Definition named : list SeatTerminal := zip_with name_terminal pc_names (replicate SEAT_PC_TERMINALS terminal_reset).

Definition before_export (s : SeatState) : SeatState :=
  set_count SEAT_PC_TERMINALS (set_terminals named (set_console seat_pc_console_initialize s)).

Lemma exporting_first s : seat_world s = mkWorld ∅ 1 0 -> exporting (before_export s) 0 (before_export s).
Proof.
  intros Hw. split; [|done..| |by intros ? ? ?%Nat.nlt_0_r].
  - unfold handles_ok. simpl. rewrite Hw. simpl. split; [done|]. intros h o Ho. by rewrite lookup_empty in Ho.
  - repeat constructor; done.
Qed.

(** The state that is exported is that of the first desk, but for the screen. *)
Lemma exported_shell s0 s w h : exporting (before_export s0) SEAT_PC_TERMINALS s -> active s0 = 0%nat ->
  let s' := set_exported h (set_world w s) in
  shell (identity <$> seat_terminals s') (seat_world s') first_desk s' /\ device s' = device s0.
Proof.
  intros [Hh Hf Hn Hq Ho _] Ha s'. subst s'. rewrite Hf. simpl. split; [|done]. split; simpl; try done.
  - rewrite <- (length_fmap term_name), Hn. done.
  - unfold SEAT_PC_TERMINALS. lia.
  - repeat constructor; apply blank_shows.
Qed.

Lemma pwp_export_seat cap s : seat_world s = mkWorld ∅ 1 0 -> active s = 0%nat ->
  seat_terminals s = replicate SEAT_PC_TERMINALS terminal_reset ->
  (exists memory, device_at port_out cap codes codes no_keys memory 0 (device s) /\ SEAT_PC_CELLS <= zlen memory) ->
  pwp (export_seat false port_out alloc_ok) s (fun _ => started cap first_desk).
Proof.
  intros Hw Ha Ht Hd. unfold export_seat. apply pwp_bind, pwp_put.
  replace (set_count _ _) with (before_export s) by (unfold before_export, named; by rewrite Ht).
  apply pwp_bind, pwp_get, pwp_bind. eapply pwp_mono.
  { apply (pwp_export_terminals (before_export s)); [by apply exporting_first|done]. }
  intros ? s2 Hex. apply pwp_bind, pwp_export; [apply Hex|]. intros h s3 Hl Hseat E3. apply pwp_bind, pwp_put.
  destruct (exported_shell s s2 (seat_world s3) h Hex Ha) as [Hshell Hdev]. rewrite <- E3 in Hshell, Hdev.
  set (s4 := set_exported h s3) in *. destruct Hd as (memory & Hd & Hm).
  assert (loose port_out cap codes first_desk s4) as Hloose by (exists memory, 0; by rewrite Hdev).
  assert (seat_terminals s4 = seat_terminals s2) as Et by (unfold s4; by rewrite E3).
  assert (served s4) as Hserved.
  { split_and!; [exact (lt_ok _ _ Hl)|rewrite Et; by rewrite (ex_names _ _ _ Hex)|rewrite Et]. intros i t Hi.
    assert (i < SEAT_PC_TERMINALS)%nat as Hlt.
    { rewrite <- (sl_terminals _ _ _ _ Hshell), Et. by eapply lookup_lt_Some. }
    destruct (serves_later _ _ _ _ (ex_handles _ _ _ Hex) Hl (ex_served _ _ _ Hex i t Hlt Hi)). by split. }
  pose proof (awp_present_active _ _ _ _ _ _ _ Hshell Hloose) as Hp. unfold awp, pwp in *.
  destruct (present_active _ _ _) as [[]]; [|done..]. by apply (desk_started cap _ s4).
Qed.

(** A server that started is at its first desk. *)
Lemma seat_started AT_LOOS registered service_init use_static auxv cap : lookup_auxv auxv (AT_LOOS + 0x202) = Some cap ->
  (forall a, SEAT_PC_CELLS <= zlen (memory_at a)) ->
  pwp (main false memory_at port_in port_out alloc_ok AT_LOOS registered service_init use_static auxv) seat_reset
    (fun _ => started cap first_desk).
Proof.
  intros Hcap Hm. unfold main. destruct registered; [|done]. cbn [negb].
  destruct (mapM _ _) as [l|] eqn:El; [|done]. apply mapM_Some in El.
  repeat match goal with H : Forall2 _ (_ :: _) _ |- _ => apply Forall2_cons_inv_l in H as (? & ? & ? & ? & ->) end.
  match goal with H : Forall2 _ [] _ |- _ => apply Forall2_nil_inv_l in H as -> end. simplify_eq.
  destruct (service_init _ _ _ _ _); [|done]. cbn [negb]. apply pwp_bind.
  match goal with |- pwp (on_devices (seat_platform_initialize _ _ _ _ _ ?d1 ?v)) _ _ =>
    pose proof (pwp_devices_start cap d1 v (Hm v)) as Hi end.
  unfold pwp at 1. unfold on_devices. unfold pwp in Hi. cbn [device seat_reset].
  destruct (seat_platform_initialize _ _ _ _ _ _ _ _) as [[] d]; [|done..].
  destruct use_static; [|done]. cbn [negb]. apply pwp_bind. eapply pwp_mono.
  - apply (pwp_export_seat cap); [done..|]. eexists. split; [exact Hi|done].
  - intros ? s' Hs'. by apply pwp_get.
Qed.

End Start.

(** ** The calls of clients *)

Inductive SeatCall := CallRead (i : nat) (maximum : Z) | CallWrite (i : nat) (data : bytes).

Definition call_terminal (c : SeatCall) : nat := match c with CallRead i _ | CallWrite i _ => i end.

(** The bytes that the calls write to the terminal [t]; a payload that is too long is
    refused. *)
Fixpoint output_to (t : nat) (calls : list SeatCall) : bytes :=
  match calls with
  | [] => []
  | CallWrite i data :: rest => (if ((i =? t)%nat && (zlen data <=? UINT32_MAX))%bool then data else []) ++ output_to t rest
  | CallRead _ _ :: rest => output_to t rest
  end.

(** The same calls at the desk. *)
Definition desk_call (c : SeatCall) (D : Desk) : bytes * Desk :=
  match c with
  | CallRead i maximum => desk_read i maximum D
  | CallWrite i data => ([], if zlen data <=? UINT32_MAX then desk_write i data D else D)
  end.
Fixpoint desk_calls (calls : list SeatCall) (D : Desk) : list bytes * Desk :=
  match calls with
  | [] => ([], D)
  | c :: rest => let (p, D) := desk_call c D in let (ps, D) := desk_calls rest D in (p :: ps, D)
  end.

Section Calls.
Context (port_in : list PortAccess -> Z -> Z -> option Z) (port_out : list PortAccess -> Z -> Z -> Z -> bool).
Context (polls : nat).

(** The server answers a call, whether it fails or not, and takes the next. *)
Definition seat_call (c : SeatCall) : Eff SeatState bytes :=
  match c with
  | CallRead i maximum => input_read false port_in port_out polls i maximum
  | CallWrite i data => ftry (output_write false port_in port_out i (Some data) (zlen data)) (fun _ => fret []) (fret [])
  end.
Fixpoint seat_calls (calls : list SeatCall) : Eff SeatState (list bytes) :=
  match calls with
  | [] => fret []
  | c :: rest =>
      run p <- seat_call c;
      run ps <- seat_calls rest;
      fret (p :: ps)
  end.

Context (cap : Z) (codes : bytes) (keyboard : keyboard_sends port_in cap codes) (enough : (length codes < polls)%nat).

Abbreviation server := (started port_out codes cap).

Lemma awp_seat_call c D s : server D s -> (call_terminal c < SEAT_PC_TERMINALS)%nat ->
  awp (seat_call c) s (fun p s' => p = fst (desk_call c D) /\ server (snd (desk_call c D)) s') (fun _ _ => False).
Proof.
  intros [Hk Hs] Hi. destruct c as [i maximum|i data]; cbn [seat_call desk_call call_terminal fst snd] in *.
  - eapply awp_mono; [by eapply awp_input_read| |done]. intros p s' [-> Hk']. split; [done|]. by eapply desk_started.
  - apply awp_try. destruct (zlen data <=? UINT32_MAX) eqn:E; bool_props.
    + eapply awp_mono; [by eapply awp_output_write|..]; intros ? s' [_ Hk']; (split; [done|]); by eapply desk_started.
    + unfold output_write. rewrite (proj2 (Z.ltb_lt _ _)), orb_true_r by done. by apply awp_err.
Qed.

Lemma awp_seat_calls calls : forall D s, server D s -> Forall (fun c => (call_terminal c < SEAT_PC_TERMINALS)%nat) calls ->
  awp (seat_calls calls) s (fun ps s' => ps = fst (desk_calls calls D) /\ server (snd (desk_calls calls D)) s') (fun _ _ => False).
Proof.
  induction calls as [|c calls IH]; intros D s Hs Hc; [by apply awp_ret|]. apply Forall_cons in Hc as [Hi Hc].
  cbn [seat_calls desk_calls]. apply awp_bind. eapply awp_mono; [by apply awp_seat_call| |done].
  intros p s1 [-> H1]. destruct (desk_call c D) as [p D1]. cbn [fst snd] in *. apply awp_bind.
  eapply awp_mono; [by apply IH| |done]. intros ps s2 [-> H2]. destruct (desk_calls calls D1) as [ps D2]. by apply awp_ret.
Qed.

End Calls.

(** ** The papers of the desk *)

(** What the calls leave on the papers. *)
Definition papers_call (c : SeatCall) (ps : list Paper) : list Paper :=
  match c with
  | CallRead _ _ => ps
  | CallWrite i data => if zlen data <=? UINT32_MAX then alter (fun p => foldl paper_put p data) i ps else ps
  end.
Definition papers_calls (calls : list SeatCall) (ps : list Paper) : list Paper := foldl (fun ps c => papers_call c ps) ps calls.

Lemma papers_calls_lookup calls t : forall ps p, ps !! t = Some p ->
  papers_calls calls ps !! t = Some (foldl paper_put p (output_to t calls)).
Proof.
  unfold papers_calls. induction calls as [|c calls IH]; intros ps p Hp; [done|]. cbn [foldl output_to].
  destruct c as [i maximum|i data]; cbn [papers_call]; [by apply IH|]. rewrite foldl_app. apply IH.
  destruct (zlen data <=? UINT32_MAX); [|by rewrite andb_false_r]. rewrite andb_true_r.
  destruct (Nat.eqb_spec i t) as [->|Hne]; [by rewrite list_lookup_alter_eq, Hp|by rewrite list_lookup_alter_ne].
Qed.

Section Papers.
Context (port_in : list PortAccess -> Z -> Z -> option Z) (port_out : list PortAccess -> Z -> Z -> Z -> bool).
Context (polls : nat) (cap : Z) (ahead : list PortAccess -> nat) (pauses : keyboard_pauses port_in cap polls ahead).

(** The server with those papers; the codes of the keyboard are not followed. *)
Definition with_papers (ps : list Paper) (s : SeatState) : Prop := exists D, papers D = ps /\ started port_out [] cap D s.

Lemma awp_papers_call c ps s : with_papers ps s -> (call_terminal c < SEAT_PC_TERMINALS)%nat ->
  awp (seat_call port_in port_out polls c) s (fun _ => with_papers (papers_call c ps)) (fun _ _ => False).
Proof.
  intros (D & <- & Hk & Hs) Hi. destruct c as [i maximum|i data]; cbn [seat_call papers_call call_terminal] in *.
  - eapply awp_mono; [by eapply read_display| |done]. intros p s' (D' & Hp & Hk'). exists D'. split; [done|]. by eapply desk_started.
  - apply awp_try. destruct (zlen data <=? UINT32_MAX) eqn:E; bool_props.
    + eapply awp_mono; [by eapply (awp_output_write _ _ _ [] _ _ 1 Nat.lt_0_1)|..]; intros ? s' [_ Hk']; exists (desk_write i data D);
        (split; [done|]); by eapply desk_started.
    + unfold output_write. rewrite (proj2 (Z.ltb_lt _ _)), orb_true_r by done. apply awp_err. by exists D.
Qed.

Lemma awp_papers_calls calls : forall ps s, with_papers ps s -> Forall (fun c => (call_terminal c < SEAT_PC_TERMINALS)%nat) calls ->
  awp (seat_calls port_in port_out polls calls) s (fun _ => with_papers (papers_calls calls ps)) (fun _ _ => False).
Proof.
  induction calls as [|c calls IH]; intros ps s Hs Hc; [done|]. apply Forall_cons in Hc as [Hi Hc]. cbn [seat_calls].
  apply awp_bind. eapply awp_mono; [by apply awp_papers_call| |done]. intros p s1 H1. apply awp_bind.
  eapply awp_mono; [by apply (IH (papers_call c ps))| |done]. intros ps2 s2 H2. by apply awp_ret.
Qed.

End Papers.

(** ** The keys of the desk *)

(** The characters that the codes type. *)
Fixpoint typed (m : Modifiers) (codes : bytes) : bytes :=
  match codes with
  | [] => []
  | c :: rest =>
      match snd (scan m c) with Some (mkKey SEAT_KEY_BYTE b _) => [b] | _ => [] end ++ typed (fst (scan m c)) rest
  end.

(** No code switches the terminal. *)
Fixpoint stays (m : Modifiers) (codes : bytes) : bool :=
  match codes with
  | [] => true
  | c :: rest =>
      (match snd (scan m c) with Some (mkKey SEAT_KEY_SWITCH_TERMINAL _ _) => false | _ => true end) &&
      stays (fst (scan m c)) rest
  end.

(** What the terminal in front will have read, and how many reads that takes. *)
Record waiting (D : Desk) (q : bytes) : Prop := {
  wt_queue : queues D !! front D = Some q;
  wt_stays : stays (held D) (pending D) = true;
  wt_room : zlen (q ++ typed (held D) (pending D)) <= INPUT_CAPACITY
}.

Definition reads_left (D : Desk) (q : bytes) : nat := (2 * length (pending D) + length q)%nat.

Lemma desk_pump_waiting : forall codes D q, pending D = codes -> waiting D q ->
  let D' := desk_pump codes D in exists q', waiting D' q' /\ front D' = front D /\
    q' ++ typed (held D') (pending D') = q ++ typed (held D) codes /\
    (reads_left D' q' + (if codes is [] then 0 else 1) <= reads_left D q)%nat.
Proof.
  induction codes as [|c codes IH]; intros [pend m f qs ps] q Hp [Hq Hs Hr]; cbn [pending held front queues papers] in *; subst pend.
  { exists q. split_and!; [by split|done..|]. unfold reads_left. simpl. lia. }
  cbn [desk_pump stays typed held front queues papers] in *. apply andb_true_iff in Hs as [Hkey Hs].
  assert (Hne : forall k b i, snd (scan m c) = Some (mkKey k b i) -> k = SEAT_KEY_BYTE \/ k <> SEAT_KEY_BYTE /\ k <> SEAT_KEY_SWITCH_TERMINAL).
  { intros k b i E. rewrite E in Hkey. destruct k; [by right|by left|done]. }
  destruct (snd (scan m c)) as [[k b i]|] eqn:Ek.
  2: { exists q. split_and!; [by split|done..|]. unfold reads_left. simpl. lia. }
  destruct k; [| |by destruct (Hne _ _ _ eq_refl) as [|[? ?]]].
  - cbn [desk_key kind]. destruct (IH (mkDesk codes (fst (scan m c)) f qs ps) q eq_refl) as (q' & Hw & Hf & Ht & Hl); [by split|].
    exists q'. split_and!; [done..|]. unfold reads_left in *. cbn [pending] in Hl. simpl length. case_match; lia.
  - set (D1 := desk_key _ _). assert (waiting D1 (q ++ [b])) as Hw1.
    { unfold D1. split; cbn [desk_key kind queues front held pending key_byte]; [|done|by rewrite <- app_assoc].
      rewrite list_lookup_alter_eq, Hq. simpl. unfold enqueue. rewrite (proj2 (Z.ltb_lt _ _)); [done|].
      unfold zlen in *. rewrite !length_app in Hr. simpl in Hr. lia. }
    destruct (IH D1 _ eq_refl Hw1) as (q' & Hw & Hf & Ht & Hl). exists q'. split_and!; [done..| |].
    + rewrite Ht, <- app_assoc. done.
    + unfold reads_left in *. rewrite length_app in Hl. cbn in *. case_match; lia.
Qed.

(** One read: what was not returned is still to come. *)
Lemma desk_read_waiting D q maximum : waiting D q -> maximum <> 0 ->
  let (p, D') := desk_read (front D) maximum D in exists q', waiting D' q' /\ front D' = front D /\
    p ++ q' ++ typed (held D') (pending D') = q ++ typed (held D) (pending D) /\
    (reads_left D' q' <= pred (reads_left D q))%nat.
Proof.
  intros Hw Hm. unfold desk_read, desk_take. rewrite (proj2 (Z.eqb_neq _ _)) by done.
  destruct (desk_pump_waiting (pending D) D q eq_refl Hw) as (q' & Hw' & Hf & Ht & Hl). set (D1 := desk_pump _ _) in *.
  pose proof Hw' as [Hq Hs Hr]. rewrite Hf in Hq. rewrite Hq. destruct q' as [|b q'].
  - exists []. split_and!; [done..|]. destruct (pending D) eqn:Ep; [|lia].
    assert (pending D1 = []) as E1 by done. unfold reads_left. rewrite E1. simpl. lia.
  - exists q'. assert (zlen (b :: q') = zlen q' + 1) by (unfold zlen; simpl; lia). split_and!; [|done..|].
    + split; cbn [queues front held pending]; [|done|unfold zlen in *; rewrite !length_app in *; simpl in Hr; lia].
      rewrite Hf. apply list_lookup_insert_eq. by eapply lookup_lt_Some.
    + unfold reads_left in *. cbn [pending]. simpl length in Hl. destruct (pending D); simpl in *; lia.
Qed.

Lemma desk_reads_all maximum n : maximum <> 0 -> forall D q, waiting D q -> (reads_left D q <= n)%nat ->
  concat (fst (desk_calls (replicate n (CallRead (front D) maximum)) D)) = q ++ typed (held D) (pending D).
Proof.
  intros Hm. induction n as [|n IH]; intros D q Hw Hn.
  - unfold reads_left in Hn. destruct q, (pending D); simpl in Hn; (done || lia).
  - pose proof (desk_read_waiting D q maximum Hw Hm) as Hread. cbn [replicate desk_calls desk_call].
    destruct (desk_read (front D) maximum D) as [p D1]. destruct Hread as (q' & Hw' & Hf & Ht & Hl).
    specialize (IH D1 q' Hw' ltac:(lia)). rewrite Hf in IH. destruct (desk_calls _ D1) as [ps D2]. simpl in *. by rewrite IH.
Qed.

(** ** From the start of the server *)

Section Server.
Context (port_in : list PortAccess -> Z -> Z -> option Z) (port_out : list PortAccess -> Z -> Z -> Z -> bool).
Context (alloc_ok : nat -> bool) (memory_at : Z -> list Z) (polls : nat).
Context (AT_LOOS : Z) (registered : bool) (service_init : Z -> Z -> Z -> Z -> Z -> bool) (use_static : bool).
Context (auxv : option (list (Z * Z))) (cap : Z) (codes : bytes).

(** The memory of the screen is large enough, the keyboard of the seat sends [codes],
    and the server has started. *)
Record running (s : SeatState) : Prop := {
  rn_memory : forall a, SEAT_PC_CELLS <= zlen (memory_at a);
  rn_keyboard : keyboard_sends port_in cap codes;
  rn_polls : (length codes < polls)%nat;
  rn_cap : lookup_auxv auxv (AT_LOOS + 0x202) = Some cap;
  rn_main : exists h,
    main false memory_at port_in port_out alloc_ok AT_LOOS registered service_init use_static auxv seat_reset = (Ok h, s)
}.

Definition on_seat (calls : list SeatCall) : Prop := Forall (fun c => (call_terminal c < SEAT_PC_TERMINALS)%nat) calls.

Lemma running_calls s calls : running s -> on_seat calls ->
  fst (seat_calls port_in port_out polls calls s) = Ok (fst (desk_calls calls (first_desk codes))) /\
  started port_out codes cap (snd (desk_calls calls (first_desk codes))) (snd (seat_calls port_in port_out polls calls s)).
Proof.
  intros [Hm Hk Hp Hc [h Hmain]] Hcalls.
  pose proof (seat_started port_in port_out alloc_ok memory_at codes AT_LOOS registered service_init use_static auxv cap Hc Hm) as Hs.
  unfold pwp in Hs. rewrite Hmain in Hs.
  pose proof (awp_seat_calls port_in port_out polls cap codes Hk Hp calls _ _ Hs Hcalls) as Hawp. unfold awp in Hawp.
  destruct (seat_calls _ _ _ _ _) as [[ps|c|] s']; [|done..]. by destruct Hawp as [-> Hs'].
Qed.

(** The memory of the screen is large enough and the server has started.  The kernel
    may refuse any access to the keyboard and its codes are any. *)
Record displaying (s : SeatState) : Prop := {
  dp_memory : forall a, SEAT_PC_CELLS <= zlen (memory_at a);
  dp_keyboard : exists ahead, keyboard_pauses port_in cap polls ahead;
  dp_cap : lookup_auxv auxv (AT_LOOS + 0x202) = Some cap;
  dp_main : exists h,
    main false memory_at port_in port_out alloc_ok AT_LOOS registered service_init use_static auxv seat_reset = (Ok h, s)
}.

Lemma displaying_calls s calls : displaying s -> on_seat calls ->
  (exists ps, fst (seat_calls port_in port_out polls calls s) = Ok ps) /\
  with_papers port_out cap (papers_calls calls (replicate SEAT_PC_TERMINALS blank_paper)) (snd (seat_calls port_in port_out polls calls s)).
Proof.
  intros [Hm [ahead Hk] Hc [h Hmain]] Hcalls.
  pose proof (seat_started port_in port_out alloc_ok memory_at [] AT_LOOS registered service_init use_static auxv cap Hc Hm) as Hs.
  unfold pwp in Hs. rewrite Hmain in Hs.
  pose proof (awp_papers_calls port_in port_out polls cap ahead Hk calls (papers (first_desk [])) s
    ltac:(by exists (first_desk [])) Hcalls) as Hawp. unfold awp in Hawp.
  destruct (seat_calls _ _ _ _ _) as [[ps|c|] s']; [|done..]. split; [by exists ps|exact Hawp].
Qed.

(** C26: A seat server of the PC build that has started answers every sequence of reads
    and writes of its clients on its five terminals, and no call faults.  Then every
    screen is the window on the last 25 rows of all that was written to its terminal
    and to no other (a payload of 2^32 bytes or more is refused), the memory of the
    display holds the screen of the active terminal, and the hardware cursor is where
    the last byte left it if the display controller accepts every access.  The kernel
    may refuse any access to the ports of the keyboard and of the display controller,
    and the codes of the keyboard are arbitrary, key presses that switch the terminal
    included.  The conditions: the memory mapped for the display has at least 2000
    words, and the keyboard does not hand out [polls] codes in a row, where [polls] is
    any bound: the loop that takes the keys ends only at a pause. *)
Theorem seat_screens_show_output s calls : displaying s -> on_seat calls ->
  let (r, s') := seat_calls port_in port_out polls calls s in
  (exists payloads, r = Ok payloads) /\ length (screens (console s')) = SEAT_PC_TERMINALS /\
  (forall t screen, screens (console s') !! t = Some screen -> shows (paper_of (output_to t calls)) screen) /\
  exists screen rest, screens (console s') !! active s' = Some screen /\
    vga_memory (device s') = Some (cells screen ++ rest) /\
    (outputs_accepted port_out -> hardware_cursor (port_log (device s')) = cursor screen).
Proof.
  intros Hrun Hcalls. destruct (displaying_calls s calls Hrun Hcalls) as [Hr (D & Hps & [Hs (screen & rest & Hscr & Hd)] & _)].
  destruct (seat_calls _ _ _ _ _) as [r s']. cbn [fst snd] in *. split_and!; [done|apply Hs| |].
  - intros t sc Ht. destruct (Forall2_lookup_r _ _ _ _ _ (sl_papers _ _ _ _ Hs) Ht) as (p & Hp & Hsh).
    rewrite Hps, (papers_calls_lookup calls t _ blank_paper) in Hp; [by injection Hp as <-|].
    apply lookup_replicate_2. rewrite <- (sl_screens _ _ _ _ Hs). by eapply lookup_lt_Some.
  - exists screen, rest. rewrite (sl_active _ _ _ _ Hs). split_and!; [done|apply Hd|apply Hd].
Qed.

(** C27: what is typed on the keyboard of a seat is read.  If the codes of the keyboard
    do not switch the terminal and type no more than the queue holds, then repeated
    reads of the first terminal return exactly the characters, in order and each once,
    after at most two reads per code. *)
Theorem seat_reads_typed s maximum n : running s -> maximum <> 0 -> stays no_keys codes = true ->
  zlen (typed no_keys codes) <= INPUT_CAPACITY -> (2 * length codes <= n)%nat ->
  exists payloads, fst (seat_calls port_in port_out polls (replicate n (CallRead 0 maximum)) s) = Ok payloads /\
    concat payloads = typed no_keys codes.
Proof.
  intros Hrun Hm Hstay Hroom Hn. eexists. split.
  - apply running_calls; [done|]. apply Forall_replicate. simpl. unfold SEAT_PC_TERMINALS. lia.
  - apply (desk_reads_all maximum n Hm (first_desk codes) []); [by split|]. unfold reads_left. simpl. lia.
Qed.

(** What the seat of a server hands out for a name. *)
Lemma served_terminal s name : served s -> terminal_count s = SEAT_PC_TERMINALS ->
  match index_of (fun n => name =b n) pc_names with
  | None => seat_get_terminal s (Some name) = (FACET_NOT_FOUND, 0)
  | Some i => exists t, seat_terminals s !! i = Some t /\ seat_get_terminal s (Some name) = (FACET_OK, terminal_handle t) /\ serves s i t
  end.
Proof.
  intros (Hh & Hn & Hs) Hc. unfold seat_get_terminal. rewrite Hc, take_ge.
  2: { rewrite <- (length_fmap term_name), Hn. done. }
  rewrite <- Hn. clear Hn Hc. destruct (index_of _ _) as [i|] eqn:Ei.
  - apply index_of_Some in Ei as (x & Hx & Heq & Hall). rewrite list_lookup_fmap in Hx.
    destruct (seat_terminals s !! i) as [t|] eqn:Ht; [|done]. injection Hx as <-. exists t. split; [done|].
    pose proof (Hs i t Ht) as Hsv. split; [|done].
    assert (find (fun t => name =b term_name t) (seat_terminals s) = Some t) as ->.
    { clear Hs Hsv. revert i Ht Hall. induction (seat_terminals s) as [|u l IH]; intros [|i] Ht Hall; simplify_eq/=.
      - by rewrite Heq.
      - apply Forall_cons in Hall as [-> Hall]. by eapply IH. }
    unfold return_handle. pose proof (proj2 Hh _ _ (sv_terminal _ _ _ Hsv)). by rewrite (proj2 (Z.eqb_neq _ _)) by lia.
  - apply index_of_None in Ei. clear Hs. induction (seat_terminals s) as [|u l IH]; [done|]. simpl in *.
    apply Forall_cons in Ei as [-> Ei]. by apply IH.
Qed.

(** The names of the terminals are known for good: after any calls, a name of the seat
    is answered with the terminal of that number, whose input, output and control are
    those of the same terminal, and any other name with [FACET_NOT_FOUND]. *)
Theorem seat_hands_out_terminals s calls name : running s -> on_seat calls ->
  let s' := snd (seat_calls port_in port_out polls calls s) in
  match index_of (fun n => name =b n) pc_names with
  | None => seat_get_terminal s' (Some name) = (FACET_NOT_FOUND, 0)
  | Some i => exists t, seat_terminals s' !! i = Some t /\ seat_get_terminal s' (Some name) = (FACET_OK, terminal_handle t) /\ serves s' i t
  end.
Proof.
  intros Hrun Hcalls s'. destruct (running_calls s calls Hrun Hcalls) as [_ [[Hs _] Hserved]].
  apply served_terminal; [done|apply Hs].
Qed.

End Server.

(** ** A seat on which `Hi` is typed *)

Definition demo_codes : bytes := [0x2a; 0x23; 0xaa; 0x17].
Definition demo_in (log : list PortAccess) (cap port : Z) : option Z :=
  if port =? 0x64 then Some (if (consumed 7 log <? length demo_codes)%nat then 1 else 0)
  else if port =? 0x60 then demo_codes !! consumed 7 log
  else Some 0.
Definition demo_out (log : list PortAccess) (cap port v : Z) : bool := true.
Definition demo_memory (a : Z) : list Z := replicate 2048 0.
Definition demo_auxv : option (list (Z * Z)) :=
  Some [(0x200, 3); (0x201, 4); (0x202, 7); (0x203, 8); (0x204, 5); (0x205, 6); (0x206, 2); (0x207, 64); (0x208, 4096)].
Definition always (n : nat) : bool := true.
Definition service_starts (a b c d e : Z) : bool := true.
Abbreviation demo_start := (main false demo_memory demo_in demo_out always 0 true service_starts true demo_auxv seat_reset).
Abbreviation demo_running := (running demo_in demo_out always demo_memory 10 0 true service_starts true demo_auxv 7 demo_codes).

Lemma demo_keyboard : keyboard_sends demo_in 7 demo_codes.
Proof.
  split.
  - repeat constructor; done.
  - intros log. eexists. split; [done|]. by destruct (_ <? _)%nat.
  - intros log c Hc. done.
Qed.

Lemma pair_of_fst {A C} (m : A * C) a : fst m = a -> m = (a, snd m).
Proof. by destruct m as [x y]; intros [= ->]. Qed.

Lemma demo_started : fst demo_start = Ok 21.
Proof. vm_compute. reflexivity. Qed.

Lemma demo_runs : demo_running (snd demo_start).
Proof.
  split; [done|apply demo_keyboard|by apply Nat.ltb_lt|done|].
  exists 21. exact (pair_of_fst demo_start _ demo_started).
Qed.

(** The same seat with a keyboard whose data port the kernel refuses at every third
    access of the log. *)
Definition refusing_in (log : list PortAccess) (cap port : Z) : option Z :=
  if ((port =? 0x60) && (length log mod 3 =? 0)%nat)%bool then None else demo_in log cap port.
Abbreviation refusing_start := (main false demo_memory refusing_in demo_out always 0 true service_starts true demo_auxv seat_reset).

Lemma refusing_pauses : keyboard_pauses refusing_in 7 10 (fun log => length demo_codes - consumed 7 log)%nat.
Proof.
  split.
  - intros log. simpl length. lia.
  - intros log st r Hst Hbit. unfold refusing_in, demo_in in Hst. cbn in Hst. cbn [consumed].
    change (7 =? 7) with true. change (0x60 =? 0x60) with true. change (0x64 =? 0x60) with false. cbn [andb].
    destruct (consumed 7 log <=? 3)%nat eqn:E; [apply Nat.leb_le in E; simpl length; lia|]. by injection Hst as <-.
  - intros log c port v ok. done.
Qed.

Lemma refusing_started : fst refusing_start = Ok 21.
Proof. vm_compute. reflexivity. Qed.

Lemma refusing_displays :
  displaying refusing_in demo_out always demo_memory 10 0 true service_starts true demo_auxv 7 (snd refusing_start).
Proof.
  split; [done|by eexists; apply refusing_pauses|done|].
  exists 21. exact (pair_of_fst refusing_start _ refusing_started).
Qed.

Lemma seat_screens_show_output_witness : exists s',
  snd (seat_calls refusing_in demo_out 10 [CallWrite 0 (B "ok"); CallRead 0 1; CallWrite 1 [10; 9]] (snd refusing_start)) = s' /\
  length (screens (console s')) = 5%nat /\
  forall screen, screens (console s') !! 1%nat = Some screen -> shows (paper_of [10; 9]) screen.
Proof.
  pose proof (seat_screens_show_output _ _ _ _ _ _ _ _ _ _ _ _ [CallWrite 0 (B "ok"); CallRead 0 1; CallWrite 1 [10; 9]] refusing_displays) as H.
  destruct (seat_calls _ _ _ _ _) as [r s']. exists s'. split; [done|].
  destruct H as (_ & Hl & Hs & _); [repeat constructor; by apply Nat.ltb_lt|]. split; [exact Hl|].
  intros screen Hscr. exact (Hs 1%nat screen Hscr).
Defined.

Lemma seat_reads_typed_witness : exists payloads,
  fst (seat_calls demo_in demo_out 10 (replicate 8 (CallRead 0 1)) (snd demo_start)) = Ok payloads /\ concat payloads = B "Hi".
Proof.
  apply (seat_reads_typed _ _ _ _ _ _ _ _ _ _ _ _ _ 1 8 demo_runs); [done|reflexivity|by vm_compute|by apply Nat.leb_le].
Defined.

(** ** The serial line *)

Section Serial.
Context (port_in : list PortAccess -> Z -> Z -> option Z) (port_out : list PortAccess -> Z -> Z -> Z -> bool).

(** A line that is never ready: the polls run out and the counter wraps around. *)
Lemma wait_never_ready cap : (forall log, port_in log cap 0x3fd = Some 0) -> forall n d,
  exists d', wait_ready port_in cap n d = (Ok (2 ^ 32 - 1), d') /\ device0_cap d' = device0_cap d.
Proof.
  intros Hin n. induction n as [|n IH]; intros d; [by exists d|].
  cbn [wait_ready]. unfold fbind at 1, seL4_X86_IOPort_In8. rewrite Hin. cbn [fmap option_fmap option_map].
  destruct (IH (set_log (In8 cap 0x3fd (Some (u8 0)) :: port_log d) d)) as (d' & Hw & Hc). exists d'.
  split; [exact Hw|]. by rewrite Hc.
Qed.

(** A write to a line that never becomes ready does not time out: the counter of polls
    is compared with 0 after it has wrapped around, so every byte is sent and the write
    succeeds. *)
Theorem serial_timeout_ignored cap data : (forall log, port_in log cap 0x3fd = Some 0) -> outputs_accepted port_out ->
  forall d, device0_cap d = cap -> fst (seat_platform_write true port_in port_out (Some data) (zlen data) d) = Ok tt.
Proof.
  intros Hin Hout. unfold seat_platform_write. rewrite bool_decide_eq_false_2 by done. cbn [andb default from_option id].
  rewrite Z.ltb_irrefl. unfold zlen. rewrite Nat2Z.id, take_ge by lia.
  induction data as [|b data IH]; intros d Hd; [done|]. cbn [send_all]. unfold fbind at 1, fget. rewrite Hd.
  unfold fbind at 1. destruct (wait_never_ready cap Hin SPINS d) as (d1 & -> & Hc).
  rewrite (proj2 (Z.eqb_neq _ 0)) by lia. unfold fbind at 1, seL4_X86_IOPort_Out8. rewrite Hout. cbn [negb].
  apply IH. by rewrite <- Hd.
Qed.

(** A line that becomes ready at the last poll. *)
Lemma wait_last_poll cap n : forall d, (forall k log, (length log < length (port_log d) + k)%nat -> (k <= n)%nat -> port_in log cap 0x3fd = Some 0) ->
  (forall log, length log = (length (port_log d) + n)%nat -> port_in log cap 0x3fd = Some 0x20) ->
  exists d', wait_ready port_in cap (S n) d = (Ok 0, d').
Proof.
  induction n as [|n IH]; intros d Hno Hyes; cbn [wait_ready]; unfold fbind at 1, seL4_X86_IOPort_In8.
  - rewrite Hyes by lia. eexists. done.
  - rewrite (Hno 1%nat) by lia. cbn [fmap option_fmap option_map]. apply (IH (set_log _ d)).
    + intros k log Hk Hl. simpl in Hk. apply (Hno (S k)); lia.
    + intros log Hlog. simpl in Hlog. apply Hyes. lia.
Qed.

(** A write to a line that becomes ready at the last of the polls fails, because the
    counter is 0 when the loop is left. *)
Theorem serial_last_poll_refused cap b d : device0_cap d = cap ->
  (forall log, port_in log cap 0x3fd = Some (if (length log =? length (port_log d) + pred SPINS)%nat then 0x20 else 0)) ->
  fst (seat_platform_write true port_in port_out (Some [b]) 1 d) = Err FACET_ERROR.
Proof.
  intros Hd Hin. unfold seat_platform_write. rewrite bool_decide_eq_false_2 by done. cbn [andb default from_option id].
  rewrite (proj2 (Z.ltb_ge _ _)) by done. change (take (Z.to_nat 1) [b]) with [b]. cbn [send_all]. unfold fbind at 1, fget. rewrite Hd. unfold fbind at 1.
  assert (SPINS = S (pred SPINS)) as Es by (unfold SPINS; lia).
  destruct (wait_last_poll cap (pred SPINS) d) as [d1 Hw].
  - intros k log Hk Hl. rewrite Hin. case_match eqn:E; [apply Nat.eqb_eq in E; lia|done].
  - intros log Hl. rewrite Hin, Hl. by rewrite Nat.eqb_refl.
  - rewrite Es, Hw. done.
Qed.

End Serial.
